(* ===== verification/_CoqProject ===== *)
-Q . S2P
Prelude.v
Dict.v
Bytes.v
Utf8.v
Config.v
Prefix.v
Telemetry.v
TelemetryProps.v
TelemetryMerge.v
Inventory.v
Reporter.v
Catalog.v
CatalogInv.v
CatalogSpec.v
CatalogProps.v
ReporterInv.v
RankView.v
Protocol.v
Freshness.v
Topology.v
Admission.v
Json.v
Identity.v
Runtime.v
RuntimeProps.v
Hma.v
HmaSpec.v
HmaDiscovery.v
Manifest.v
Gpu.v
GpuCopy.v
GpuPages.v
Io.v
RankStore.v
JsonReader.v
IoSpec.v
FsInv.v
TokenFiles.v
TokenHeader.v
TokenScrub.v
StoreOps.v
StoreInv.v
StoreSystem.v
StoreFence.v
StoreEpochs.v
StoreLookup.v
StoreCommit.v
TokenBatches.v
ScrubProps.v
Maintenance.v
TokenStream.v
TokenMover.v
MoverSpec.v
MoverSave.v
MoverTrip.v
MoverProps.v
StoreGc.v
StoreProps.v
StoreRoot.v
Pools.v
StoreRootProps.v
EventJournal.v
JournalSpec.v
JournalSystem.v
Scheduler.v
SchedulerSpec.v
SchedulerInv.v
SchedulerProps.v
Snapshot.v
Handshake.v
HandshakeProps.v
SchedulerExamples.v
Worker.v
WorkerSpec.v
WorkerProps.v
StoreExamples.v
MoverExamples.v
WorkerExamples.v
JournalExamples.v
StoreWitness.v
