(* ===== verification/Prelude.v ===== *)
(** * SpoolCache: a verification development

    SpoolCache keeps the KV cache of a language-model server in files.  The
    sources are under [src/src/spoolcache/]; this library models the parts below
    and proves what makes them correct.  This file is the root of the library and the
    shared prelude (results and exceptions, Python integers and strings, list lemmas,
    tactics).

    ** How the program works

    A worker splits a prompt into fixed chunks, names each chunk by a digest chained
    over everything before it ([prefix.py]), and stores the cache pages of each chunk
    ([hma.py] says which) in one immutable file per digest ([token_files.py] over the
    control plane [rank_store.py]); [token_mover.py] and [gpu.py] copy the pages between
    GPU memory and the files.  Every worker reports the digests it holds; the scheduler
    keeps the set each rank holds and offers only what all ranks hold ([quorum.py]).
    Admission ([admission.py]) bounds what one step stores.  A digest binds the
    deployment, the rank and the layout ([identity.py], [topology.py]).  A background
    thread reads every file again from time to time ([token_scrub.py], [maintenance.py]),
    counters survive the process ([event_journal.py], [telemetry.py]), and a restore that
    cannot be completed ends the process ([fail_stop.py]).  The connector
    ([vllm/connector.py]) joins these to the serving runtime, whose interface it checks
    before it starts ([vllm/compat.py]).

    ** Files and the code they model

    - Dict, Bytes, Utf8, Json: the Python data the code computes with: ordered
      dictionaries, packed integers, SHA-256 ([Sha] is the interface, [sha256_fips] its
      executable instance), UTF-8, canonical JSON.  [canonical_json_normal_form]: the
      text of a value is read back as its normal form.
    - Config ([config.py]), Topology ([topology.py]), Admission ([admission.py]),
      Identity ([identity.py]): validated settings and identities.  Theorems: the least
      aligned chunk and watermark, the coordinates of all workers, the specification of
      admission, and that equal digests of valid identities mean equal identities or a
      SHA-256 collision.
    - Prefix ([prefix.py]): the digest chain.  Theorems: which boundaries are reported,
      a digest depends on nothing after its boundary, equal digests force equal prefixes.
    - Telemetry, TelemetryProps, TelemetryMerge ([telemetry.py]): the vocabulary of
      metrics, the buffer of a process, its draining, decoding and bounded merge.
      Theorems: what is drained decodes to the records kept; a merge loses no count,
      observations beyond the bound are counted as dropped.
    - Inventory, Reporter, Catalog (all [quorum.py]): the records and their validators,
      the worker's reporter, the scheduler's catalog, each method one function of the
      state.  CatalogInv and ReporterInv: the invariants.  CatalogSpec, CatalogProps: what
      holds in every run of the catalog from its construction, whatever its arguments
      (quorum is exact, malformed reports withdraw the rank, generations never roll back,
      the memory bound).  RankView, Protocol, Freshness: reporter and catalog joined by a
      network that loses, duplicates and reorders; after the newest report is applied the
      catalog shows nothing the worker does not hold.
    - Runtime, RuntimeProps ([vllm/compat.py]): the signatures of the runtime's classes and
      [Signature.bind] as of Python 3.11, the table of hooks, the check of the overrides,
      the fingerprint of the installed package.  Theorems: a verified hook accepts the
      calls the runtime makes; an override that passed accepts every call of its base of
      the shapes the check tries, and an example shows a call beyond them; equal
      fingerprints mean equal packages or a collision.
    - Hma, HmaSpec, HmaDiscovery ([hma.py]): groups and layers, the pages a span selects,
      alignment, layout digests, and the discovery of the layout from the runtime's
      objects, which are foreign: an attribute or method may be missing, raise, or return
      anything.  Manifest ([manifest.py], [HMALayout.validate_manifest_coverage]): slices
      and the exact cover of the expected pages.
    - Gpu, GpuCopy, GpuPages ([gpu.py]): registered tensors as pages, ranges copied through
      one host buffer, and the proof that pages do not overlap.  TokenMover, MoverSpec,
      MoverSave, MoverTrip, MoverProps ([token_mover.py]): a save stores the pages of every
      prefix (between the disk it began with and the one it left, each file is the one
      found, untouched and authentic, or holds the captured bytes), a restore writes the authenticated bytes to the selected pages and changes
      nothing else, and a file saved once is restored later with the same bytes, through
      other operations, restarts and power losses.
    - Io: files, faults and crashes (below).  RankStore ([rank_store.py], [leases.py]),
      TokenFiles ([token_files.py]) and StoreRoot (preparing a root, opening a store): every
      operation as a program of that monad, one definition per method.  JsonReader:
      concrete instances of the interfaces.
    - IoSpec, FsInv, TokenHeader, StoreOps, StoreInv, StoreSystem, StoreFence, StoreEpochs,
      StoreLookup, StoreCommit, TokenBatches, TokenStream, StoreGc, StoreProps,
      StoreRootProps: the theorems of the store: complete files, withdrawals that survive
      crashes, commits that open, lookups that tell the truth, epochs that grow, the bounds
      of restores, recovery, leases and maintenance, and a binding of the root that is
      permanent.
    - TokenScrub, ScrubProps ([token_scrub.py]): a step scans the next keys in order, skips
      none, what it reports as sound was authenticated in full, and it removes no tombstone
      but that of a file that was authentic when it began.  Maintenance
      ([maintenance.py]): what the thread and the worker share, and a turn of the thread.
    - Pools ([buffers.py], [PinnedTensorPool]): the pools as interleaved steps of threads
      and of closing.  No slot is lent twice.
    - EventJournal, JournalSpec, JournalSystem ([event_journal.py]): the persistent totals.
      Through crashes a total lies between the increments that returned and those tried.
    - Scheduler, SchedulerSpec, SchedulerInv, SchedulerProps, Snapshot, Handshake,
      HandshakeProps ([vllm/connector.py], scheduler side): lookup, allocation and tracking
      of requests as a step relation whose history of events says what each request
      announced and was granted; the snapshots of the runtime's configuration, over a
      heap of objects, and the deployment identity made of them; the statistics channel
      and the startup handshake.  Worker, WorkerSpec, WorkerProps (worker side, and
      [fail_stop.py]): restores, stores, reports and maintenance over the store, the mover,
      the reporter, the journal and the scrub scheduler; what a step of
      stores advertises is tied to the disks before and after each plan of that step.
    - StoreExamples, MoverExamples, WorkerExamples, JournalExamples (with the scrub),
      SchedulerExamples (with the handshake), StoreWitness (with the root), and a module of
      examples at the end of other files: concrete instances, on which every theorem with
      hypotheses is applied.

    ** The model of files

    A run of a store operation is a function of a [World]: a file system, a schedule of
    faults, the clock, the pins held by other processes, and the process state.  Every
    system call takes one element of the schedule: it succeeds, fails with [OSError] and
    no effect, transfers fewer bytes than asked, or the process dies before it.  A theorem
    about a run quantifies over the schedule, so over every position and kind of failure.
    The file system keeps, for each name, every value the name had since its directory was
    last synced; [power_loss] may leave any of them, and the bytes of an unsynced file are
    arbitrary.  [system_step] is one operation of the store under any schedule, a new
    process, or a power loss; [rtc system_step] is the reachable states.  Operations that
    the code runs under the namespace lock are one step; unlocked readers run against one
    file system, so interleavings of an unlocked read with another process's writes are
    not in the model.

    ** Fuel

    [digest_loop] has one unit per remaining token, [recover_loop] one per directory entry,
    [plan_batches] one per descriptor, [chain_walk] one per chunk of the span, the rounds
    of [_prepare_worker_catalog] one per candidate: each is shown to be enough
    ([digest_loop_spans], [recovery_complete], [restore_batches_partition],
    [chain_walk_terminates], [startup_round_terminates]).  [zero_loop] and [write_loop] have
    one unit per byte.  [_json_safe] recurses through a heap that may be cyclic:
    [snapshot_terminates] shows that twice the size of the heap and two is enough, because
    the code refuses a container inside itself; what the interpreter raises at its recursion
    limit is a parameter, [limit], and [recursive_value_refused] holds for every one.  Retry loops of the code that are bounded
    there are bounded by the same number here.

    ** Interfaces

    [ObjectSizes] (interpreter object sizes, used by the memory bound), [Sha], [Uuid]
    (32-digit names), [JsonLoads] ([json.loads] reads canonical text back), [Torch] (the
    copies of PyTorch change the bytes they name) and [Queue] (the order in which a pool
    lends its slots) are classes whose laws are documented behaviour of the libraries; each
    has an instance.

    ** Not modelled

    - The path of the root itself and its ancestors ([rank_store.py], [config.py]): paths
      of the model are relative to the root.  The check of the kernel's lock interface in
      [KeyPins], the registration of host memory with CUDA in [_PinnedSlot].
    - [PageSlice.from_dict] and [sort_key] ([manifest.py]); the reduction of metrics to
      floating-point summaries at the end of [telemetry.py].
    - The timing of the background loop of [maintenance.py] and its command line.
    - The wiring of the connector's constructor, and all log messages.
    - [vllm/config_json.py], [vllm/prometheus.py], [__init__.py], [paths.py]: command-line
      rendering, metric export and names, glue over third-party objects.
*)
From stdpp Require Export base decidable list gmap sets fin_maps sorting numbers strings.
From Stdlib Require Export ZArith Lia.
From Stdlib Require Ascii String.

#[global] Open Scope Z_scope.

(** ** Proof automation shared by the components *)

(** Turn boolean tests of the code into propositions, everywhere. *)
Ltac bsimp :=
  repeat (first
    [ rewrite orb_true_iff in * | rewrite andb_true_iff in *
    | rewrite orb_false_iff in * | rewrite negb_true_iff in *
    | rewrite negb_false_iff in * | rewrite Z.ltb_lt in * | rewrite Z.leb_le in *
    | rewrite Z.gtb_lt in * | rewrite Z.geb_le in *
    | rewrite Z.eqb_eq in * | rewrite Z.ltb_ge in * | rewrite Z.leb_gt in *
    | rewrite Z.eqb_neq in * | rewrite bool_decide_eq_true in *
    | rewrite bool_decide_eq_false in * ]).

(** Case analysis on every [if] and [match] of the goal. *)
Ltac split_ifs := repeat (case_match || case_decide); simplify_eq/=.

(** ** Exceptions

    [exn_kind] has one constructor per exception class the modelled code raises
    or catches: the builtin classes it uses and the hierarchy of
    [src/spoolcache/errors.py].  The message is the first argument of the
    exception, so different branches stay distinguishable. *)
Inductive exn_kind :=
  | ValueError | TypeError | KeyError | IndexError | RuntimeError | OverflowError | UnicodeError
  | OSError | FileNotFoundError | FileExistsError | StructError | ZeroDivisionError
  | SpoolCacheError | ConfigurationError | IdentityError | ManifestError
  | LayoutError | StoreBusyError | FatalRestoreError | UnsupportedRuntimeError
  | AttributeError | AssertionError.

#[export] Instance exn_kind_eq_dec : EqDecision exn_kind.
Proof. solve_decision. Defined.

Record exn := Exn { exn_class : exn_kind; exn_message : string }.

(** [except ValueError] also catches the subclasses declared in [errors.py]. *)
Definition caught_by_ValueError (e : exn) : bool :=
  match exn_class e with
  | ValueError | UnicodeError | ConfigurationError | IdentityError | ManifestError
  | LayoutError => true
  | _ => false
  end.

(** [except (OSError, ManifestError)]: the corruption handlers of the store. *)
Definition caught_by_OSError_ManifestError (e : exn) : bool :=
  match exn_class e with
  | OSError | FileNotFoundError | FileExistsError | ManifestError => true
  | _ => false
  end.

(** ** The result monad: a value or a raised exception *)
Inductive result (A : Type) := Ok (a : A) | Raise (e : exn).
Arguments Ok {A} a.
Arguments Raise {A} e.

#[export] Instance result_ret : MRet result := λ A a, Ok a.
#[export] Instance result_bind : MBind result := λ A B f r,
  match r with Ok a => f a | Raise e => Raise e end.
#[export] Instance result_fmap : FMap result := λ A B f r,
  match r with Ok a => Ok (f a) | Raise e => Raise e end.

Lemma Ok_inj {A} (a b : A) : Ok a = Ok b → a = b.
Proof. by intros [=]. Qed.

Definition is_ok {A} (r : result A) : bool :=
  match r with Ok _ => true | Raise _ => false end.

Definition raise {A} (k : exn_kind) (msg : string) : result A := Raise (Exn k msg).

(** [if bad: raise E(msg)] *)
Definition raise_if (bad : bool) (k : exn_kind) (msg : string) : result unit :=
  if bad then raise k msg else Ok tt.

Lemma raise_if_Ok b k m u : raise_if b k m = Ok u ↔ b = false.
Proof. unfold raise_if, raise. destruct b, u; split; congruence. Qed.

Lemma result_bind_Ok {A B} (r : result A) (f : A → result B) b :
  (r ≫= f) = Ok b ↔ ∃ a, r = Ok a ∧ f a = Ok b.
Proof. destruct r; cbn; [by split; [eauto|intros (?&[= ->]&?)]|by split; [|intros (?&?&?)]]. Qed.

Lemma result_bind_Raise {A B} (r : result A) (f : A → result B) e :
  (r ≫= f) = Raise e ↔ r = Raise e ∨ ∃ a, r = Ok a ∧ f a = Raise e.
Proof.
  destruct r as [a|e']; cbn; split.
  - intros H. right. eauto.
  - intros [[=]|(a' & [= <-] & H)]; exact H.
  - intros [= ->]. by left.
  - intros [[= ->]|(a & [=] & _)]. done.
Qed.

Fixpoint mapM_result {A B} (f : A → result B) (l : list A) : result (list B) :=
  match l with
  | [] => Ok []
  | x :: l => y ← f x; ys ← mapM_result f l; Ok (y :: ys)
  end.

Lemma mapM_result_Ok {A B} (f : A → result B) l k :
  mapM_result f l = Ok k ↔ Forall2 (λ x y, f x = Ok y) l k.
Proof.
  revert k; induction l as [|x l IH]; intros k; cbn.
  - split; [intros [= <-]; constructor|]. by inversion 1.
  - rewrite result_bind_Ok. setoid_rewrite result_bind_Ok. setoid_rewrite IH. split.
    + intros (y & ? & ys & ? & [= <-]). constructor; done.
    + inversion 1; subst. eauto.
Qed.

(** ** Objects with mutable state: a state that survives a raised exception *)
Definition SE (S A : Type) : Type := S → result A * S.

Definition se_ret {S A} (a : A) : SE S A := λ s, (Ok a, s).
Definition se_bind {S A B} (m : SE S A) (f : A → SE S B) : SE S B := λ s,
  match m s with
  | (Ok a, s') => f a s'
  | (Raise e, s') => (Raise e, s')
  end.
Definition se_lift {S A} (r : result A) : SE S A := λ s, (r, s).
Definition se_modify {S} (f : S → S) : SE S unit := λ s, (Ok tt, f s).
Definition se_get {S} : SE S S := λ s, (Ok s, s).

Declare Scope py_scope.
Delimit Scope py_scope with py.
Notation "'do' x <- m ; k" := (se_bind m (λ x, k))
  (at level 10, x pattern, m at level 100, k at level 200) : py_scope.
Notation "'do_' m ; k" := (se_bind m (λ _, k))
  (at level 10, m at level 100, k at level 200) : py_scope.

(** ** Python strings: sequences of code points *)
Abbreviation pystr := (list Z).

Definition lit (s : string) : pystr :=
  (λ a, Z.of_nat (Ascii.nat_of_ascii a)) <$> String.list_ascii_of_string s.

#[global] Arguments lit : simpl never.

(** Lexicographic comparison by code point, the order of [sorted] on strings. *)
Fixpoint str_leb (a b : pystr) : bool :=
  match a, b with
  | [], _ => true
  | _ :: _, [] => false
  | x :: a, y :: b => (x <? y) || ((x =? y) && str_leb a b)
  end.

Definition str_le (a b : pystr) : Prop := str_leb a b = true.
#[export] Instance str_le_dec : RelDecision str_le.
Proof. intros a b. unfold str_le. apply _. Defined.

Definition str_ltb (a b : pystr) : bool := str_leb a b && negb (bool_decide (a = b)).

Lemma str_leb_refl a : str_leb a a = true.
Proof. induction a as [|x a IH]; [done|]. cbn. rewrite IH, Z.eqb_refl. by destruct (x <? x). Qed.

Lemma str_leb_trans a b c : str_leb a b = true → str_leb b c = true → str_leb a c = true.
Proof.
  revert b c; induction a as [|x a IH]; intros [|y b] [|z c]; cbn; try done.
  intros H1 H2. bsimp. destruct H1 as [|[-> ?]], H2 as [|[-> ?]]; eauto with lia.
Qed.

Lemma str_leb_total a b : str_leb a b = true ∨ str_leb b a = true.
Proof.
  revert b; induction a as [|x a IH]; intros [|y b]; cbn; auto.
  bsimp. destruct (Z.lt_trichotomy x y) as [|[->|]]; destruct (IH b); auto.
Qed.

Lemma str_leb_antisym a b : str_leb a b = true → str_leb b a = true → a = b.
Proof.
  revert b; induction a as [|x a IH]; intros [|y b]; cbn; try done.
  intros H1 H2. bsimp. destruct H1 as [|[-> ?]], H2 as [|[? ?]]; try lia.
  f_equal. by apply IH.
Qed.

#[export] Instance str_le_trans : Transitive str_le.
Proof. intros a b c. apply str_leb_trans. Qed.
#[export] Instance str_le_total : Total str_le.
Proof. intros a b. apply str_leb_total. Qed.
#[export] Instance str_le_antisymm : AntiSymm (=) str_le.
Proof. intros a b. apply str_leb_antisym. Qed.

(** Tuples [(str, int)] compare by the string, then by the integer. *)
Definition entry_leb (p q : pystr * Z) : bool :=
  if decide (p.1 = q.1) then p.2 <=? q.2 else str_leb p.1 q.1.
Definition entry_le (p q : pystr * Z) : Prop := entry_leb p q = true.
#[export] Instance entry_le_dec : RelDecision entry_le.
Proof. intros a b. unfold entry_le. apply _. Defined.

Lemma entry_leb_key p q : entry_leb p q = true → str_leb p.1 q.1 = true.
Proof. unfold entry_leb. case_decide as H; [intros _; rewrite H; apply str_leb_refl|done]. Qed.

#[export] Instance entry_le_trans : Transitive entry_le.
Proof.
  intros [a x] [b y] [c z]. unfold entry_le. intros H1 H2.
  pose proof (entry_leb_key _ _ H1) as K1. pose proof (entry_leb_key _ _ H2) as K2.
  unfold entry_leb in *; cbn in *. repeat case_decide; subst; try done; try lia.
  - pose proof (str_leb_antisym _ _ K1 K2). by subst.
  - by eapply str_leb_trans.
Qed.
#[export] Instance entry_le_total : Total entry_le.
Proof.
  intros [a x] [b y]. unfold entry_le, entry_leb; cbn.
  destruct (decide (a = b)) as [->|].
  - rewrite !decide_True by done. lia.
  - rewrite !decide_False by done. apply str_leb_total.
Qed.

(** [sorted(keys)] and [sorted(items)] *)
Definition py_sorted_keys : list pystr → list pystr := merge_sort str_le.
Definition py_sorted_items : list (pystr * Z) → list (pystr * Z) := merge_sort entry_le.

Lemma py_sorted_keys_perm l : py_sorted_keys l ≡ₚ l.
Proof. apply merge_sort_Permutation. Qed.
Lemma py_sorted_items_perm l : py_sorted_items l ≡ₚ l.
Proof. apply merge_sort_Permutation. Qed.

(** ** Dynamically typed values

    The subset of Python objects that the validators inspect.  [VObj] stands
    for every object of another type (floats, mappings, ...): no validator
    modelled here accepts one where it expects an integer or a string. *)
Inductive pyval :=
  | VNone
  | VBool (b : bool)
  | VInt (z : Z)
  | VStr (s : pystr)
  | VTuple (l : list pyval)
  | VList (l : list pyval)
  | VObj.

#[export] Instance VInt_inj : Inj (=) (=) VInt.
Proof. by intros a b [=]. Qed.

(** [isinstance(v, int) and not isinstance(v, bool)], also [type(v) is int]. *)
Definition as_int (v : pyval) : option Z :=
  match v with VInt z => Some z | _ => None end.
Definition as_str (v : pyval) : option pystr :=
  match v with VStr s => Some s | _ => None end.
Definition as_tuple (v : pyval) : option (list pyval) :=
  match v with VTuple l => Some l | _ => None end.

(** An integer satisfying a bound test, or the given exception. *)
Definition need_int (v : pyval) (bad : Z → bool) (k : exn_kind) (msg : string) : result Z :=
  match as_int v with
  | Some z => if bad z then raise k msg else Ok z
  | None => raise k msg
  end.

Lemma as_int_Some v z : as_int v = Some z ↔ v = VInt z.
Proof. destruct v; cbn; split; congruence. Qed.

(** Turn every successful type test of the context into the object's form. *)
Ltac typed :=
  repeat match goal with
  | H : context [match as_int ?v with _ => _ end] |- _ =>
      is_var v; let E := fresh "E" in
      destruct (as_int v) eqn:E; [apply as_int_Some in E as ->|discriminate H]
  end.

Lemma as_str_Some v s : as_str v = Some s ↔ v = VStr s.
Proof. destruct v; cbn; split; congruence. Qed.

Lemma need_int_Ok v bad k msg z :
  need_int v bad k msg = Ok z ↔ v = VInt z ∧ bad z = false.
Proof.
  unfold need_int, raise. destruct v as [| |z0| | | |]; cbn; try (split; [done|by intros [? ?]]).
  destruct (bad z0) eqn:Hb; split; try done.
  - intros [[= ->] ?]. congruence.
  - by intros [= ->].
  - by intros [[= ->] ?].
Qed.

(** Invert a successful run: every bind, guard and check that it passed. *)
Ltac inv_ok :=
  repeat match goal with
  | H : mbind _ _ = Ok _ |- _ => apply result_bind_Ok in H as (? & ? & ?)
  | H : raise_if _ _ _ = Ok _ |- _ => apply raise_if_Ok in H
  | H : need_int _ _ _ _ = Ok _ |- _ => apply need_int_Ok in H as [? ?]
  | H : mapM_result _ _ = Ok _ |- _ => apply mapM_result_Ok in H
  | H : Raise _ = Ok _ |- _ => discriminate H
  | H : raise _ _ = Ok _ |- _ => discriminate H
  | H : Ok _ = Ok _ |- _ => apply Ok_inj in H
  end; subst.

Lemma raise_if_Raise b k m e : raise_if b k m = Raise e ↔ b = true ∧ e = Exn k m.
Proof. unfold raise_if, raise. destruct b; split; [by intros [= <-]|by intros [_ ->]|done|by intros []]. Qed.

Lemma need_int_Raise v bad k msg e : need_int v bad k msg = Raise e → e = Exn k msg.
Proof. unfold need_int, raise. repeat case_match; by intros [= <-]. Qed.

(** Invert a run that raised: which bind raised, with which class. *)
Ltac inv_raise :=
  repeat match goal with
  | H : mbind _ _ = Raise _ |- _ => apply result_bind_Raise in H as [H|(? & ? & H)]
  | H : raise_if _ _ _ = Raise _ |- _ => apply raise_if_Raise in H as [? ->]
  | H : need_int _ _ _ _ = Raise _ |- _ => apply need_int_Raise in H as ->
  | H : Ok _ = Raise _ |- _ => discriminate H
  | H : raise _ _ = Raise _ |- _ => injection H as <-
  | H : Raise _ = Raise _ |- _ => injection H as <-
  end; try done.

(** ** Digests as text: 64 lowercase hexadecimal digits *)
Definition is_hex (c : Z) : bool :=
  ((48 <=? c) && (c <=? 57)) || ((97 <=? c) && (c <=? 102)).

Definition is_digest (s : pystr) : bool :=
  (Z.of_nat (length s) =? 64) && forallb is_hex s.

Definition MAX_COUNTER : Z := Z.shiftl 1 63 - 1.

(** ** List lemmas *)
Lemma NoDup_fst_lookup {K V} (l : list (K * V)) k v v' :
  NoDup l.*1 → (k, v) ∈ l → (k, v') ∈ l → v = v'.
Proof.
  intros Hnd H1 H2. apply list_elem_of_lookup in H1 as [i Hi]. apply list_elem_of_lookup in H2 as [j Hj].
  assert (i = j) as ->; [|congruence].
  eapply NoDup_lookup; [exact Hnd| |]; rewrite list_lookup_fmap.
  - by rewrite Hi.
  - by rewrite Hj.
Qed.

(** Every duplicate-free sub-list of the right length is the whole list. *)
Lemma submseteq_full {A} (l k : list A) :
  l ⊆+ k → (length k ≤ length l)%nat → l ≡ₚ k.
Proof. intros H1 H2. by apply submseteq_length_Permutation. Qed.

(** [deque(maxlen=n).append]: the oldest element falls off. *)
Definition deque_append {A} (n : nat) (l : list A) (x : A) : list A :=
  let l' := l ++ [x] in drop (length l' - n) l'.

Lemma deque_append_length {A} (n : nat) (l : list A) x : (length (deque_append n l x) ≤ n)%nat.
Proof. unfold deque_append. rewrite length_drop. lia. Qed.

(** ** Hint databases: facts on dictionaries ([py_dict]) and on the catalog's
    and the reporter's invariants ([py_inv]) *)
Create HintDb py_dict discriminated.
Create HintDb py_inv discriminated.
