(* ===== verification/Dict.v ===== *)
(** * Insertion-ordered dictionaries

    Python's [dict] and [collections.OrderedDict] as association lists in
    insertion order: assigning an existing key keeps its position, a popped
    key that is assigned again moves to the end, iteration follows the list.
    The components use it where the code depends on that order (LRU eviction,
    the oldest reporter entry); unordered uses are stdpp's [gmap]. *)
From S2P Require Import Prelude.

Section dict.
Context {K : Type} `{!EqDecision K} {V : Type}.
Implicit Types (d : list (K * V)) (k : K) (v : V).

(** [d.get(k)] *)
Fixpoint od_get (k : K) (d : list (K * V)) : option V :=
  match d with
  | [] => None
  | (k', v) :: d => if decide (k = k') then Some v else od_get k d
  end.

(** [d[k] = v] *)
Fixpoint od_set (k : K) (v : V) (d : list (K * V)) : list (K * V) :=
  match d with
  | [] => [(k, v)]
  | (k', v') :: d =>
      if decide (k = k') then (k', v) :: d else (k', v') :: od_set k v d
  end.

(** [d.pop(k, None)]: the dictionary that remains *)
Definition od_pop (k : K) (d : list (K * V)) : list (K * V) :=
  filter (λ p, p.1 ≠ k) d.

(** [dict(items)] *)
Definition od_of_list (l : list (K * V)) : list (K * V) :=
  foldl (λ d p, od_set p.1 p.2 d) [] l.

Lemma od_get_elem k v d : NoDup d.*1 → od_get k d = Some v ↔ (k, v) ∈ d.
Proof.
  induction d as [|[k' v'] d IH]; cbn; [by split; [|by inversion 1]|].
  rewrite NoDup_cons. intros [Hk Hnd]. rewrite elem_of_cons. case_decide as Hd; subst.
  - split; [intros [= ->]; by left|]. intros [[= ->]|Hin]; [done|].
    destruct Hk. by apply (list_elem_of_fmap_2 fst) in Hin.
  - rewrite (IH Hnd). split; [by right|]. intros [[= -> ->]|?]; done.
Qed.

Lemma od_get_None k d : od_get k d = None ↔ k ∉ d.*1.
Proof.
  induction d as [|[k' v'] d IH]; cbn; [split; [intros _; apply not_elem_of_nil|done]|].
  rewrite not_elem_of_cons. case_decide; subst; [by split; [|intros []]|].
  rewrite IH. by split; [|intros []].
Qed.

Lemma od_get_is_Some k d : is_Some (od_get k d) ↔ k ∈ d.*1.
Proof.
  rewrite <-not_eq_None_Some, od_get_None. split; [|by auto].
  intros H. destruct (decide (k ∈ d.*1)); [done|]. by destruct H.
Qed.

Lemma od_get_set k k' v d :
  od_get k (od_set k' v d) = if decide (k = k') then Some v else od_get k d.
Proof.
  induction d as [|[k2 v2] d IH]; cbn; [done|].
  repeat (case_decide; subst; cbn; try done); rewrite ?IH; by rewrite ?decide_True, ?decide_False.
Qed.

Lemma od_pop_cons k k2 v2 d :
  od_pop k ((k2, v2) :: d) = if decide (k2 = k) then od_pop k d else (k2, v2) :: od_pop k d.
Proof.
  unfold od_pop. rewrite filter_cons; cbn. destruct (decide (k2 = k)) as [->|].
  - by rewrite decide_False by (by intros []).
  - by rewrite decide_True.
Qed.

Lemma od_get_pop k k' d :
  od_get k (od_pop k' d) = if decide (k = k') then None else od_get k d.
Proof.
  induction d as [|[k2 v2] d IH]; [by case_decide|].
  rewrite od_pop_cons. cbn. repeat (case_decide; subst; cbn; try done).
Qed.

Lemma od_set_keys k v d : (od_set k v d).*1 = if decide (k ∈ d.*1) then d.*1 else d.*1 ++ [k].
Proof.
  induction d as [|[k2 v2] d IH]; cbn; [done|].
  destruct (decide (k = k2)) as [->|Hne]; cbn.
  - by rewrite decide_True by left.
  - rewrite IH. destruct (decide (k ∈ d.*1)).
    + by rewrite decide_True by by right.
    + rewrite decide_False; [done|]. by rewrite not_elem_of_cons.
Qed.

Lemma od_set_NoDup k v d : NoDup d.*1 → NoDup (od_set k v d).*1.
Proof.
  rewrite od_set_keys. case_decide; [done|]. intros. apply NoDup_app.
  split; [done|]. split; [|apply NoDup_singleton]. intros x Hx ->%list_elem_of_singleton. done.
Qed.

Lemma od_set_Forall (P : K * V → Prop) k v d : P (k, v) → Forall P d → Forall P (od_set k v d).
Proof.
  intros Hkv. induction 1 as [|[k2 v2] d Hp Hd IH]; cbn; [by constructor|].
  case_decide; subst; by constructor.
Qed.

Lemma od_pop_keys k d : (od_pop k d).*1 = filter (λ k', k' ≠ k) d.*1.
Proof.
  induction d as [|[k2 v2] d IH]; [done|].
  rewrite od_pop_cons, fmap_cons, filter_cons; cbn. destruct (decide (k2 = k)) as [->|].
  - by rewrite decide_False by (by intros []).
  - rewrite decide_True by done. by rewrite fmap_cons, IH.
Qed.

Lemma od_pop_NoDup k d : NoDup d.*1 → NoDup (od_pop k d).*1.
Proof. rewrite od_pop_keys. apply NoDup_filter. Qed.

Lemma od_pop_None k d : k ∉ d.*1 → od_pop k d = d.
Proof.
  induction d as [|[k2 v2] d IH]; [done|].
  rewrite fmap_cons, not_elem_of_cons, od_pop_cons; cbn. intros [? ?].
  rewrite decide_False by congruence. by rewrite IH.
Qed.

Lemma od_pop_length k d :
  NoDup d.*1 → length d = (length (od_pop k d) + if decide (k ∈ d.*1) then 1 else 0)%nat.
Proof.
  induction d as [|[k2 v2] d IH]; [done|].
  rewrite fmap_cons, NoDup_cons, od_pop_cons; cbn. intros [Hk Hnd]. specialize (IH Hnd).
  destruct (decide (k2 = k)) as [->|Hne]; cbn.
  - rewrite (decide_False (P := k ∈ d.*1)) in IH by done.
    rewrite decide_True by (by left). lia.
  - destruct (decide (k ∈ d.*1)); [rewrite decide_True by (by right); lia|].
    rewrite decide_False; [lia|]. rewrite not_elem_of_cons. by split; [congruence|].
Qed.

Lemma od_pop_sub k d p : p ∈ od_pop k d → p ∈ d.
Proof. unfold od_pop. by intros [_ ?]%list_elem_of_filter. Qed.

Lemma od_pop_Forall (P : K * V → Prop) k d : Forall P d → Forall P (od_pop k d).
Proof. rewrite !Forall_forall. intros Hd p Hp. by eapply Hd, od_pop_sub. Qed.

(** [dict(items)] of duplicate-free items is the items. *)
Lemma od_set_fresh k v d : k ∉ d.*1 → od_set k v d = d ++ [(k, v)].
Proof.
  induction d as [|[k2 v2] d IH]; cbn; [done|].
  rewrite not_elem_of_cons. intros [? ?]. rewrite decide_False by done. by rewrite IH.
Qed.

Lemma od_of_list_acc acc l :
  NoDup (acc ++ l).*1 → foldl (λ d p, od_set p.1 p.2 d) acc l = acc ++ l.
Proof.
  revert acc; induction l as [|[k v] l IH]; intros acc Hnd; cbn; [by rewrite app_nil_r|].
  rewrite od_set_fresh.
  - rewrite IH, <-(assoc_L (++)); [done|]. by rewrite <-(assoc_L (++)).
  - rewrite fmap_app, NoDup_app in Hnd. destruct Hnd as (_ & Hnd & _).
    intros Hin. apply (Hnd k Hin). cbn. by left.
Qed.

Lemma od_of_list_id l : NoDup l.*1 → od_of_list l = l.
Proof. apply (od_of_list_acc []). Qed.

Lemma od_of_list_NoDup l : NoDup (od_of_list l).*1.
Proof.
  unfold od_of_list. cut (∀ acc, NoDup acc.*1 → NoDup (foldl (λ d p, od_set p.1 p.2 d) acc l).*1).
  { intros H. apply H. constructor. }
  induction l as [|[k v] l IH]; cbn; [done|]. intros acc Hnd. by apply IH, od_set_NoDup.
Qed.

Lemma od_set_length k v d :
  length (od_set k v d) = (length d + if decide (k ∈ d.*1) then 0 else 1)%nat.
Proof.
  rewrite <-!(length_fmap fst), od_set_keys. case_decide; [lia|].
  rewrite length_app; cbn; lia.
Qed.

Lemma od_of_list_length_acc acc l :
  NoDup acc.*1 →
  length (foldl (λ d p, od_set p.1 p.2 d) acc l) = (length acc + length l)%nat →
  NoDup (acc ++ l).*1.
Proof.
  revert acc; induction l as [|[k v] l IH]; intros acc Hnd; cbn; [by rewrite app_nil_r|].
  intros Hlen.
  assert (Hle : ∀ l' acc', (length (foldl (λ d p, od_set p.1 p.2 d) acc' l') ≤ length acc' + length l')%nat).
  { induction l' as [|[k2 v2] l' IH']; cbn; intros acc'; [lia|].
    specialize (IH' (od_set k2 v2 acc')). rewrite od_set_length in IH'. case_decide; lia. }
  pose proof (Hle l (od_set k v acc)) as Hl. rewrite od_set_length in Hl.
  case_decide as Hin; [lia|].
  rewrite (od_set_fresh k v acc Hin) in Hlen.
  specialize (IH (acc ++ [(k, v)])). rewrite <-(assoc_L (++)) in IH. apply IH.
  - rewrite <-(od_set_fresh k v acc Hin). by apply od_set_NoDup.
  - rewrite Hlen, length_app; cbn; lia.
Qed.

Lemma od_of_list_Forall (P : K * V → Prop) l : Forall P l → Forall P (od_of_list l).
Proof.
  intros Hl. unfold od_of_list. assert (Forall P []) as Hn by constructor.
  revert Hn. generalize (@nil (K * V)). induction Hl as [|[k v] l ? ? IH]; [done|].
  intros acc Hacc. cbn. by apply IH, od_set_Forall.
Qed.

Lemma od_of_list_le l : (length (od_of_list l) ≤ length l)%nat.
Proof.
  unfold od_of_list.
  cut (∀ acc, length (foldl (λ d p, od_set p.1 p.2 d) acc l) ≤ length acc + length l)%nat.
  { intros Hc. apply (Hc []). }
  induction l as [|[k v] l IH]; intros acc; cbn; [lia|]. etrans; [apply IH|].
  pose proof (od_set_length k v acc). case_decide; lia.
Qed.

(** [len(dict(items)) == len(items)] tests for duplicate keys. *)
Lemma od_of_list_length l : length (od_of_list l) = length l ↔ NoDup l.*1.
Proof.
  split.
  - intros H. apply (od_of_list_length_acc [] l); [constructor|done].
  - intros. by rewrite od_of_list_id.
Qed.
End dict.

#[export] Hint Resolve od_set_NoDup od_pop_NoDup od_of_list_NoDup : py_dict.

(** The unordered image of an ordered dictionary. *)
Section image.
Context {K : Type} `{!EqDecision K, !Countable K} {V : Type}.
Implicit Types (d : list (K * V)).

Definition od_map (d : list (K * V)) : gmap K V := list_to_map d.

Lemma lookup_od_map d k : od_map d !! k = od_get k d.
Proof.
  unfold od_map. induction d as [|[k2 v2] d IH]; cbn; [done|].
  case_decide; subst; [by rewrite lookup_insert_eq|]. by rewrite lookup_insert_ne.
Qed.

Lemma od_map_pop k d : od_map (od_pop k d) = delete k (od_map d).
Proof.
  apply map_eq. intros k'. rewrite lookup_delete, !lookup_od_map, od_get_pop.
  repeat case_decide; subst; done.
Qed.

Lemma od_map_set k v d : od_map (od_set k v d) = <[k:=v]> (od_map d).
Proof.
  apply map_eq. intros k'. rewrite lookup_insert, !lookup_od_map, od_get_set.
  repeat case_decide; subst; done.
Qed.

Lemma od_map_size d : NoDup d.*1 → size (od_map d) = length d.
Proof.
  intros Hnd. rewrite <-length_map_to_list. unfold od_map.
  by rewrite (map_to_list_to_map d Hnd).
Qed.
End image.

#[global] Arguments od_map {_ _ _ _} _ : simpl never.
#[global] Arguments od_pop {_ _ _} _ _ : simpl never.
