(* ===== verification/Bytes.v ===== *)
(** * Byte strings, [struct] packing, hexadecimal and SHA-256

    [bytes] objects are [list byte].  The packing functions are those of the
    formats the code uses ([<q], [<Q], [<I]); [Sha] is the interface through
    which every component uses [hashlib.sha256] (a function to 32 bytes), and
    [sha256_fips] is its executable instance. *)
From S2P Require Import Prelude.
From Stdlib Require Strings.Byte.
Export Corelib.Init.Byte(byte, x00).

#[export] Instance byte_eq_dec : EqDecision byte.
Proof. intros a b. exact (Byte.byte_eq_dec a b). Defined.

Definition byte_to_z (b : byte) : Z := Z.of_N (Byte.to_N b).
Definition z_to_byte (z : Z) : byte :=
  match Byte.of_N (Z.to_N (z mod 256)) with Some b => b | None => x00 end.

Lemma byte_to_z_range b : 0 ≤ byte_to_z b < 256.
Proof. unfold byte_to_z. pose proof (Byte.to_N_bounded b). lia. Qed.

Lemma byte_to_z_to_byte z : byte_to_z (z_to_byte z) = z mod 256.
Proof.
  unfold byte_to_z, z_to_byte. pose proof (Z.mod_pos_bound z 256 ltac:(lia)).
  destruct (Byte.of_N _) as [b|] eqn:E.
  - apply Byte.to_of_N in E. rewrite E. lia.
  - apply Byte.of_N_None_iff in E. lia.
Qed.

Lemma z_to_byte_to_z b : z_to_byte (byte_to_z b) = b.
Proof.
  unfold z_to_byte. rewrite Z.mod_small by apply byte_to_z_range.
  unfold byte_to_z. by rewrite N2Z.id, Byte.of_to_N.
Qed.

#[export] Instance byte_to_z_inj : Inj (=) (=) byte_to_z.
Proof. intros a b H. by rewrite <-(z_to_byte_to_z a), H, z_to_byte_to_z. Qed.

(** ** Little-endian integers *)
Fixpoint le_pack (n : nat) (z : Z) : list byte :=
  match n with
  | O => []
  | S n => z_to_byte z :: le_pack n (z / 256)
  end.

Fixpoint le_unpack (l : list byte) : Z :=
  match l with
  | [] => 0
  | b :: l => byte_to_z b + 256 * le_unpack l
  end.

Lemma le_pack_length n z : length (le_pack n z) = n.
Proof. revert z; induction n as [|n IH]; intros z; cbn; [done|]. by rewrite IH. Qed.

Lemma le_unpack_pack n z : le_unpack (le_pack n z) = z mod 256 ^ Z.of_nat n.
Proof.
  revert z; induction n as [|n IH]; intros z; cbn [le_pack le_unpack].
  - by rewrite Z.mod_1_r.
  - rewrite IH, byte_to_z_to_byte, Nat2Z.inj_succ, Z.pow_succ_r by lia.
    rewrite Z.rem_mul_r by lia. lia.
Qed.

Lemma le_pack_inj n a b :
  0 ≤ a < 256 ^ Z.of_nat n → 0 ≤ b < 256 ^ Z.of_nat n → le_pack n a = le_pack n b → a = b.
Proof.
  intros Ha Hb H. apply (f_equal le_unpack) in H.
  rewrite !le_unpack_pack, !Z.mod_small in H by lia. done.
Qed.

Arguments le_pack : simpl never.
Arguments le_unpack : simpl never.

(** [struct.Struct("<Q").pack(z)], [struct.Struct("<q").pack(z)] and
    [struct.Struct("<I").pack(z)]: out-of-range values raise [struct.error]. *)
Definition pack_Q (z : Z) : result (list byte) :=
  if (0 <=? z) && (z <? 2 ^ 64) then Ok (le_pack 8 z)
  else raise StructError "argument out of range".
Definition pack_q (z : Z) : result (list byte) :=
  if (- 2 ^ 63 <=? z) && (z <? 2 ^ 63) then Ok (le_pack 8 (z mod 2 ^ 64))
  else raise StructError "argument out of range".
Definition pack_I (z : Z) : result (list byte) :=
  if (0 <=? z) && (z <? 2 ^ 32) then Ok (le_pack 4 z)
  else raise StructError "argument out of range".

Lemma pack_Q_spec z l : pack_Q z = Ok l ↔ 0 ≤ z < 2 ^ 64 ∧ l = le_pack 8 z.
Proof.
  unfold pack_Q, raise. case_match eqn:E; bsimp; (split; [|intros [? ->]; try lia; done]).
  - intros H. split; [lia|]. congruence.
  - done.
Qed.

Lemma pack_q_spec z l : pack_q z = Ok l ↔ - 2 ^ 63 ≤ z < 2 ^ 63 ∧ l = le_pack 8 (z mod 2 ^ 64).
Proof.
  unfold pack_q, raise. case_match eqn:E; bsimp; (split; [|intros [? ->]; try lia; done]).
  - intros H. split; [lia|]. congruence.
  - done.
Qed.

Lemma pack_Q_Ok z l : pack_Q z = Ok l → length l = 8%nat.
Proof. intros [_ ->]%pack_Q_spec. apply le_pack_length. Qed.

Lemma pack_q_Ok z l : pack_q z = Ok l → length l = 8%nat.
Proof. intros [_ ->]%pack_q_spec. apply le_pack_length. Qed.

Lemma pack_Q_inj a b l : pack_Q a = Ok l → pack_Q b = Ok l → a = b.
Proof.
  intros [Ha ->]%pack_Q_spec [Hb H]%pack_Q_spec.
  change (2 ^ 64) with (256 ^ Z.of_nat 8) in *. exact (le_pack_inj 8 a b Ha Hb H).
Qed.

Lemma pack_q_inj a b l : pack_q a = Ok l → pack_q b = Ok l → a = b.
Proof.
  intros [Ha ->]%pack_q_spec [Hb H]%pack_q_spec.
  pose proof (Z.mod_pos_bound a (2 ^ 64) ltac:(lia)) as Ma.
  pose proof (Z.mod_pos_bound b (2 ^ 64) ltac:(lia)) as Mb.
  change (2 ^ 64) with (256 ^ Z.of_nat 8) in Ma, Mb at 2.
  pose proof (le_pack_inj 8 _ _ Ma Mb H) as E. Z.to_euclidean_division_equations; lia.
Qed.

(** ** Hexadecimal text *)
Definition hex_digit (n : Z) : Z := if n <? 10 then 48 + n else 87 + n.
Definition hex_value (c : Z) : Z := if c <=? 57 then c - 48 else c - 87.

(** [b.hex()] / [hexdigest()] *)
Fixpoint bytes_hex (l : list byte) : pystr :=
  match l with
  | [] => []
  | b :: l => hex_digit (byte_to_z b / 16) :: hex_digit (byte_to_z b mod 16) :: bytes_hex l
  end.

(** [bytes.fromhex(s)], on text already checked to be lowercase hexadecimal *)
Fixpoint bytes_fromhex (s : pystr) : list byte :=
  match s with
  | a :: b :: s => z_to_byte (16 * hex_value a + hex_value b) :: bytes_fromhex s
  | _ => []
  end.

Lemma hex_value_digit n : 0 ≤ n < 16 → hex_value (hex_digit n) = n.
Proof. intros. unfold hex_value, hex_digit. repeat case_match; bsimp; lia. Qed.

Lemma hex_digit_value c : is_hex c = true → hex_digit (hex_value c) = c ∧ 0 ≤ hex_value c < 16.
Proof.
  unfold is_hex, hex_value, hex_digit. intros H. bsimp. repeat case_match; bsimp; lia.
Qed.

Lemma is_hex_digit n : 0 ≤ n < 16 → is_hex (hex_digit n) = true.
Proof. intros. unfold is_hex, hex_digit. case_match; bsimp; lia. Qed.

Lemma bytes_fromhex_hex l : bytes_fromhex (bytes_hex l) = l.
Proof.
  induction l as [|b l IH]; [done|]. cbn [bytes_hex bytes_fromhex].
  pose proof (byte_to_z_range b).
  rewrite !hex_value_digit by (Z.to_euclidean_division_equations; lia).
  rewrite <-Z.div_mod by lia. by rewrite z_to_byte_to_z, IH.
Qed.

#[export] Instance bytes_hex_inj : Inj (=) (=) bytes_hex.
Proof. intros a b H. by rewrite <-(bytes_fromhex_hex a), H, bytes_fromhex_hex. Qed.

Lemma bytes_hex_length l : length (bytes_hex l) = (2 * length l)%nat.
Proof. induction l as [|b l IH]; [done|]. cbn. rewrite IH. lia. Qed.

Lemma bytes_hex_is_hex l : forallb is_hex (bytes_hex l) = true.
Proof.
  induction l as [|b l IH]; [done|]. cbn. pose proof (byte_to_z_range b).
  rewrite !is_hex_digit by (Z.to_euclidean_division_equations; lia). done.
Qed.

Lemma bytes_hex_fromhex n s :
  length s = (2 * n)%nat → forallb is_hex s = true → bytes_hex (bytes_fromhex s) = s.
Proof.
  revert s; induction n as [|n IH]; intros [|a [|b s]]; cbn [length]; try done; try lia.
  intros Hl Hs. cbn in Hs. bsimp. destruct Hs as (Ha & Hb & Hs).
  apply hex_digit_value in Ha as [Ha Ha']. apply hex_digit_value in Hb as [Hb Hb'].
  cbn [bytes_fromhex bytes_hex].
  rewrite byte_to_z_to_byte, Z.mod_small by lia.
  replace ((16 * hex_value a + hex_value b) / 16) with (hex_value a) by (Z.to_euclidean_division_equations; lia).
  replace ((16 * hex_value a + hex_value b) mod 16) with (hex_value b) by (Z.to_euclidean_division_equations; lia).
  rewrite Ha, Hb, IH; [done|lia|done].
Qed.

Lemma bytes_fromhex_inj s t :
  is_digest s = true → is_digest t = true → bytes_fromhex s = bytes_fromhex t → s = t.
Proof.
  unfold is_digest. intros Hs Ht H. bsimp. destruct Hs as [Hs1 Hs2], Ht as [Ht1 Ht2].
  rewrite <-(bytes_hex_fromhex 32 s), <-(bytes_hex_fromhex 32 t) by (done || lia). by rewrite H.
Qed.

Lemma bytes_fromhex_length n s : length s = (2 * n)%nat → length (bytes_fromhex s) = n.
Proof.
  revert s; induction n as [|n IH]; intros [|a [|b s]]; cbn [length]; try done; try lia.
  intros. cbn. f_equal. apply IH. lia.
Qed.

(** ** SHA-256 *)

(** What the components use of [hashlib.sha256]. *)
Class Sha := {
  sha256 : list byte → list byte;
  sha256_length : ∀ m, length (sha256 m) = 32%nat
}.

(** [hashlib.sha256(m).hexdigest()] *)
Definition sha256_hex `{Sha} (m : list byte) : pystr := bytes_hex (sha256 m).

Lemma sha256_hex_is_digest `{Sha} m : is_digest (sha256_hex m) = true.
Proof.
  unfold is_digest, sha256_hex. rewrite bytes_hex_length, sha256_length, bytes_hex_is_hex. done.
Qed.

(** A hash collision between two byte strings of a given list of hash inputs. *)
Definition collision `{Sha} (inputs : list (list byte)) : Prop :=
  ∃ x y, x ∈ inputs ∧ y ∈ inputs ∧ x ≠ y ∧ sha256 x = sha256 y.

Lemma collision_mono `{Sha} l k : l ⊆ k → collision l → collision k.
Proof. intros Hs (x & y & ? & ? & ? & ?). exists x, y. repeat split; auto. Qed.

Lemma sha256_eq_or_collision `{Sha} x y l :
  x ∈ l → y ∈ l → sha256 x = sha256 y → x = y ∨ collision l.
Proof. intros Hx Hy E. destruct (decide (x = y)); [by left|]. right. exists x, y. repeat split; auto. Qed.

Module Fips.
Definition w32 (z : Z) : Z := z mod 2 ^ 32.
Definition rotr (n x : Z) : Z := Z.lor (Z.shiftr x n) (w32 (Z.shiftl x (32 - n))).
Definition ch x y z := Z.lxor (Z.land x y) (Z.land (Z.lxor x 4294967295) z).
Definition maj x y z := Z.lxor (Z.lxor (Z.land x y) (Z.land x z)) (Z.land y z).
Definition bsig0 x := Z.lxor (Z.lxor (rotr 2 x) (rotr 13 x)) (rotr 22 x).
Definition bsig1 x := Z.lxor (Z.lxor (rotr 6 x) (rotr 11 x)) (rotr 25 x).
Definition ssig0 x := Z.lxor (Z.lxor (rotr 7 x) (rotr 18 x)) (Z.shiftr x 3).
Definition ssig1 x := Z.lxor (Z.lxor (rotr 17 x) (rotr 19 x)) (Z.shiftr x 10).

Definition K : list Z :=
[1116352408; 1899447441; 3049323471; 3921009573; 961987163; 1508970993;
 2453635748; 2870763221; 3624381080; 310598401; 607225278; 1426881987;
 1925078388; 2162078206; 2614888103; 3248222580; 3835390401; 4022224774;
 264347078; 604807628; 770255983; 1249150122; 1555081692; 1996064986;
 2554220882; 2821834349; 2952996808; 3210313671; 3336571891; 3584528711;
 113926993; 338241895; 666307205; 773529912; 1294757372; 1396182291;
 1695183700; 1986661051; 2177026350; 2456956037; 2730485921; 2820302411;
 3259730800; 3345764771; 3516065817; 3600352804; 4094571909; 275423344;
 430227734; 506948616; 659060556; 883997877; 958139571; 1322822218;
 1537002063; 1747873779; 1955562222; 2024104815; 2227730452; 2361852424;
 2428436474; 2756734187; 3204031479; 3329325298].
Definition H0 : list Z :=
[1779033703; 3144134277; 1013904242; 2773480762; 1359893119; 2600822924;
 528734635; 1541459225].

Definition be_word (l : list byte) : Z := foldl (λ acc b, 256 * acc + byte_to_z b) 0 l.
Definition be_bytes (n : nat) (z : Z) : list byte := reverse (le_pack n z).

Fixpoint words (n : nat) (l : list byte) : list Z :=
  match n with O => [] | S n => be_word (take 4 l) :: words n (drop 4 l) end.

(** The message schedule, kept reversed (the most recent word first). *)
Fixpoint schedule (n : nat) (w : list Z) : list Z :=
  match n with
  | O => w
  | S n =>
      let at_ i := nth i w 0 in
      schedule n (w32 (ssig1 (at_ 1%nat) + at_ 6%nat + ssig0 (at_ 14%nat) + at_ 15%nat) :: w)
  end.

Definition round (s : list Z) (kw : Z * Z) : list Z :=
  match s with
  | [a; b; c; d; e; f; g; h] =>
      let t1 := h + bsig1 e + ch e f g + kw.1 + kw.2 in
      let t2 := bsig0 a + maj a b c in
      [w32 (t1 + t2); a; b; c; w32 (d + t1); e; f; g]
  | _ => s
  end.

Definition compress (h : list Z) (block : list byte) : list Z :=
  let w := reverse (schedule 48 (reverse (words 16 block))) in
  zip_with (λ x y, w32 (x + y)) h (foldl round h (zip K w)).

Definition pad (m : list byte) : list byte :=
  let n := length m in
  let z := Z.to_nat ((55 - Z.of_nat n) mod 64) in
  m ++ [z_to_byte 128] ++ replicate z x00 ++ be_bytes 8 (8 * Z.of_nat n).

Fixpoint blocks (fuel : nat) (h : list Z) (l : list byte) : list Z :=
  match fuel, l with
  | O, _ | _, [] => h
  | S fuel, _ => blocks fuel (compress h (take 64 l)) (drop 64 l)
  end.

Definition digest (m : list byte) : list byte :=
  let p := pad m in
  blocks (length p) H0 p ≫= be_bytes 4.

Lemma round_length s kw : length s = 8%nat → length (round s kw) = 8%nat.
Proof. by destruct s as [|? [|? [|? [|? [|? [|? [|? [|? [|? ?]]]]]]]]]. Qed.

Lemma compress_length h b : length h = 8%nat → length (compress h b) = 8%nat.
Proof.
  intros Hh. unfold compress. rewrite length_zip_with, Hh.
  assert (∀ l s, length s = 8%nat → length (foldl round s l) = 8%nat) as H.
  { induction l as [|x l IH]; cbn; intros s Hs; [done|]. by apply IH, round_length. }
  by rewrite H.
Qed.

Lemma blocks_length n h l : length h = 8%nat → length (blocks n h l) = 8%nat.
Proof.
  revert h l; induction n as [|n IH]; intros h [|b l] Hh; cbn [blocks]; try done.
  by apply IH, compress_length.
Qed.

Lemma digest_length m : length (digest m) = 32%nat.
Proof.
  unfold digest. pose proof (blocks_length (length (pad m)) H0 (pad m) eq_refl) as Hl.
  destruct (blocks _ _ _) as [|? [|? [|? [|? [|? [|? [|? [|? [|? ?]]]]]]]]]; try done.
Qed.
End Fips.

(** The executable instance (FIPS 180-4). *)
Definition sha256_fips : Sha := {| sha256 := Fips.digest; sha256_length := Fips.digest_length |}.

(** A light digest of 32 bytes that stands in for [sha256_fips] where an example
    evaluates many hashes: the components rely on nothing but the length. *)
Definition light_digest (m : list byte) : list byte :=
  let s := foldl (λ s b, (s.1 + byte_to_z b, s.2 + s.1)) (1, 0) m in
  le_pack 16 s.1 ++ le_pack 16 s.2.
Lemma light_digest_length m : length (light_digest m) = 32%nat.
Proof. unfold light_digest. by rewrite length_app, !le_pack_length. Qed.
Definition light_sha : Sha := {| sha256 := light_digest; sha256_length := light_digest_length |}.

(** [b"..."] literals *)
Definition blit (s : string) : list byte := z_to_byte <$> lit s.

Example sha256_abc :
  @sha256_hex sha256_fips (blit "abc") =
  lit "ba7816bf8f01cfea414140de5dae2223b00361a396177a9cb410ff61f20015ad".
Proof. vm_compute. reflexivity. Qed.
