(* ===== verification/Utf8.v ===== *)
(** * [str.encode("utf-8")]

    Strict UTF-8: surrogates raise [UnicodeEncodeError].  The decoder of one
    code point shows that the encoding is prefix-free and injective. *)
From S2P Require Import Prelude Bytes.

Definition utf8_char (c : Z) : option (list byte) :=
  if (c <? 0) || (1114112 <=? c) then None
  else if c <? 128 then Some [z_to_byte c]
  else if c <? 2048 then Some [z_to_byte (192 + c / 64); z_to_byte (128 + c mod 64)]
  else if (55296 <=? c) && (c <? 57344) then None
  else if c <? 65536 then
    Some [z_to_byte (224 + c / 4096); z_to_byte (128 + c / 64 mod 64);
          z_to_byte (128 + c mod 64)]
  else
    Some [z_to_byte (240 + c / 262144); z_to_byte (128 + c / 4096 mod 64);
          z_to_byte (128 + c / 64 mod 64); z_to_byte (128 + c mod 64)].

Fixpoint utf8_encode (s : pystr) : option (list byte) :=
  match s with
  | [] => Some []
  | c :: s => a ← utf8_char c; b ← utf8_encode s; Some (a ++ b)
  end.

(** [s.encode("utf-8")] as an expression that may raise *)
Definition encode_utf8 (s : pystr) : result (list byte) :=
  match utf8_encode s with
  | Some b => Ok b
  | None => raise UnicodeError "surrogates not allowed"
  end.

(** Decoding one code point; [cont] is the value of a continuation byte. *)
Definition cont (b : byte) : Z := byte_to_z b - 128.

Definition utf8_decode1 (l : list byte) : option (Z * list byte) :=
  match l with
  | [] => None
  | b :: l =>
      let x := byte_to_z b in
      if x <? 128 then Some (x, l)
      else if x <? 224 then
        match l with b1 :: l => Some ((x - 192) * 64 + cont b1, l) | _ => None end
      else if x <? 240 then
        match l with
        | b1 :: b2 :: l => Some ((x - 224) * 4096 + cont b1 * 64 + cont b2, l)
        | _ => None
        end
      else
        match l with
        | b1 :: b2 :: b3 :: l =>
            Some ((x - 240) * 262144 + cont b1 * 4096 + cont b2 * 64 + cont b3, l)
        | _ => None
        end
  end.

Lemma utf8_decode1_char c a r : utf8_char c = Some a → utf8_decode1 (a ++ r) = Some (c, r).
Proof.
  unfold utf8_char. intros H.
  repeat case_match; try done; injection H as <-; bsimp; cbn [app utf8_decode1];
    unfold cont; rewrite !byte_to_z_to_byte;
    repeat (rewrite Z.mod_small by (Z.to_euclidean_division_equations; lia));
    rewrite ?(Z.mod_small _ 256) by (Z.to_euclidean_division_equations; lia);
    repeat case_match; bsimp; try (Z.to_euclidean_division_equations; lia);
    do 2 f_equal; Z.to_euclidean_division_equations; lia.
Qed.

Lemma utf8_char_nonempty c a : utf8_char c = Some a → a ≠ [].
Proof. unfold utf8_char. repeat case_match; by intros [= <-]. Qed.

Lemma utf8_encode_inj s t b : utf8_encode s = Some b → utf8_encode t = Some b → s = t.
Proof.
  revert t b; induction s as [|c s IH]; intros [|d t] b; cbn.
  - done.
  - intros [= <-]. destruct (utf8_char d) as [a|] eqn:E; cbn; [|done].
    apply utf8_char_nonempty in E. destruct (utf8_encode t); cbn; [|done]. by destruct a.
  - intros H [= <-]. destruct (utf8_char c) as [a|] eqn:E; cbn in *; [|done].
    apply utf8_char_nonempty in E. destruct (utf8_encode s); cbn in *; [|done]. by destruct a.
  - destruct (utf8_char c) as [a|] eqn:Ec; cbn; [|done].
    destruct (utf8_encode s) as [es|] eqn:Es; cbn; [|done].
    destruct (utf8_char d) as [a'|] eqn:Ed; cbn; [|done].
    destruct (utf8_encode t) as [et|] eqn:Et; cbn; [|done].
    intros [= <-] [= H].
    pose proof (utf8_decode1_char _ _ es Ec) as D1. pose proof (utf8_decode1_char _ _ et Ed) as D2.
    rewrite <-H, D2 in D1. injection D1 as -> ->. f_equal. by apply (IH t es).
Qed.

Lemma encode_utf8_inj s t b : encode_utf8 s = Ok b → encode_utf8 t = Ok b → s = t.
Proof.
  unfold encode_utf8, raise. destruct (utf8_encode s) eqn:E1; [|done].
  destruct (utf8_encode t) eqn:E2; [|done]. intros [= ->] [= ->]. by eapply utf8_encode_inj.
Qed.
