(* ===== verification/Config.v ===== *)
(** * Fixed bounds and validated settings ([src/spoolcache/config.py])

    [INVENTORY_ENTRY_BYTES] charges one inventory record with object sizes that
    the interpreter reports ([sys.getsizeof]); they are the fields of the
    interface [ObjectSizes], so every bound proved from it holds for any
    interpreter, and [cpython312] is the 64-bit CPython 3.12 instance. *)
From S2P Require Import Prelude Dict.

Definition MIB : Z := 1024 * 1024.
Definition GIB : Z := 1024 * MIB.
Definition STAGING_SLOT_BYTES : Z := 64 * MIB.
Definition STAGING_SLOT_COUNT : Z := 2.
Definition MAX_PENDING_RESTORES : Z := 2.
Definition MAX_PENDING_STORES : Z := 1.
Definition REPORT_BATCH_SIZE : Z := 64.
Definition INVENTORY_MEMORY_BYTES : Z := 512 * MIB.

(** [sys.getsizeof] of the sample objects of the accounting formula. *)
Class ObjectSizes := {
  size_key : Z;          (* "0" * 64 *)
  size_counter : Z;      (* (1 << 63) - 1 *)
  size_pair : Z;         (* (key, 1) *)
  size_dict1 : Z;        (* {key: 1} *)
  size_dict0 : Z;        (* {} *)
  size_set1 : Z;         (* {0} *)
  size_tuple1 : Z;       (* (None,) *)
  size_tuple0 : Z;       (* () *)
  sizes_positive : 0 < size_key ∧ 0 < size_counter ∧ 0 < size_pair ∧ 0 < size_set1;
  sizes_monotone : size_dict0 ≤ size_dict1 ∧ size_tuple0 ≤ size_tuple1
}.

Definition cpython312 : ObjectSizes.
Proof.
  refine {| size_key := 105; size_counter := 36; size_pair := 56; size_dict1 := 184;
            size_dict0 := 64; size_set1 := 216; size_tuple1 := 48; size_tuple0 := 40 |};
    lia.
Defined.

Section config.
Context `{ObjectSizes}.

Definition INVENTORY_ENTRY_BYTES : Z :=
  4 * (size_key + size_counter)
  + 6 * size_pair
  + 4 * (size_dict1 - size_dict0)
  + 2 * size_set1
  + 16 * (size_tuple1 - size_tuple0).

Lemma entry_bytes_positive : 0 < INVENTORY_ENTRY_BYTES.
Proof. unfold INVENTORY_ENTRY_BYTES. pose proof sizes_positive. pose proof sizes_monotone. lia. Qed.

Definition inventory_capacity (memory_bytes : pyval) : result Z :=
  match as_int memory_bytes with
  | Some m =>
      if m <? INVENTORY_ENTRY_BYTES
      then raise ConfigurationError "inventory memory budget cannot hold one record"
      else Ok (m / INVENTORY_ENTRY_BYTES)
  | None => raise ConfigurationError "inventory memory budget cannot hold one record"
  end.

Lemma inventory_capacity_Ok v n :
  inventory_capacity v = Ok n ↔
  ∃ m, v = VInt m ∧ INVENTORY_ENTRY_BYTES ≤ m ∧ n = m / INVENTORY_ENTRY_BYTES.
Proof.
  unfold inventory_capacity, raise. destruct v as [| |m| | | |]; cbn;
    try (split; [done|by intros (?&?&?)]).
  case_match eqn:E; bsimp; split; try done.
  - intros (m' & [= ->] & ? & ?). lia.
  - intros [= <-]. eauto.
  - by intros (m' & [= ->] & ? & ->).
Qed.
End config.

Definition aligned_chunk_tokens (alignment : pyval) : result Z :=
  match as_int alignment with
  | Some a =>
      if a <=? 0 then raise ConfigurationError "chunk alignment must be a positive integer"
      else Ok (((256 + a - 1) / a) * a)
  | None => raise ConfigurationError "chunk alignment must be a positive integer"
  end.

Lemma aligned_chunk_tokens_Ok a c :
  aligned_chunk_tokens (VInt a) = Ok c ↔ 0 < a ∧ c = ((256 + a - 1) / a) * a.
Proof.
  unfold aligned_chunk_tokens, raise; cbn. case_match eqn:E; bsimp; split; try done.
  - lia.
  - by intros [= <-].
  - by intros [_ ->].
Qed.

Lemma aligned_chunk_bounds a :
  0 < a → let c := ((256 + a - 1) / a) * a in
  (a | c) ∧ 256 ≤ c < 256 + a ∧ 0 < c.
Proof.
  intros Ha c. subst c. split; [apply Z.divide_factor_r|].
  Z.to_euclidean_division_equations; lia.
Qed.

(** ** [SpoolCacheConfig]

    The public capacity is an [int] or a [float] given by its exact ratio
    ([as_integer_ratio]: a positive denominator); everything else is refused. *)
Inductive size_value :=
  | SizeInt (z : Z)
  | SizeFinite (num : Z) (den : positive)
  | SizeNonFinite
  | SizeOther.

Definition size_ratio (s : size_value) : option (Z * positive) :=
  match s with
  | SizeInt z => Some (z, 1%positive)
  | SizeFinite n d => Some (n, d)
  | SizeNonFinite | SizeOther => None
  end.

Definition max_bytes_of_ratio (r : Z * positive) : Z := r.1 * GIB / Z.pos r.2.

(** The [max_size] part of [__post_init__], returning [max_bytes]. *)
Definition max_size_post_init (max_size : size_value) : result Z :=
  match size_ratio max_size with
  | None => raise ConfigurationError "max_size must be a finite number in GB"
  | Some r =>
      let b := max_bytes_of_ratio r in
      if b <? 2 then raise ConfigurationError "max_size must represent at least 2 bytes"
      else Ok b
  end.

Definition trigger_watermark_bytes (max_bytes : Z) : Z := (max_bytes * 4 + 4) / 5.

Definition setting_aliases : list (pystr * pystr) :=
  [(lit "spoolcache_path", lit "path"); (lit "spoolcache_max_size", lit "max_size")].
Definition dataclass_fields : list pystr := [lit "path"; lit "max_size"].

(** [from_mapping]: alias resolution with unknown and duplicate settings refused. *)
Definition normalize_setting {V} (normalized : list (pystr * V)) (item : pystr * V)
    : result (list (pystr * V)) :=
  let target := default item.1 (od_get item.1 setting_aliases) in
  _ ← raise_if (negb (bool_decide (target ∈ dataclass_fields))) ConfigurationError
        "unknown SpoolCache setting";
  _ ← raise_if (bool_decide (is_Some (od_get target normalized))) ConfigurationError
        "duplicate SpoolCache setting";
  Ok (od_set target item.2 normalized).

Fixpoint from_mapping_items {V} (normalized : list (pystr * V)) (raw : list (pystr * V))
    : result (list (pystr * V)) :=
  match raw with
  | [] => Ok normalized
  | item :: raw => n ← normalize_setting normalized item; from_mapping_items n raw
  end.

(** ** Properties *)

(** The chunk width is the smallest multiple of the runtime alignment that
    covers at least 256 tokens. *)
Theorem aligned_chunk_tokens_least (a c : Z) :
  aligned_chunk_tokens (VInt a) = Ok c →
  (a | c) ∧ 256 ≤ c ∧ 0 < c ∧ ∀ c', (a | c') → 256 ≤ c' → c ≤ c'.
Proof.
  intros [Ha ->]%aligned_chunk_tokens_Ok. pose proof (aligned_chunk_bounds a Ha) as (? & ? & ?).
  repeat split; try done; try lia.
  intros c' [k ->] Hk. apply Z.mul_le_mono_nonneg_r; [lia|].
  Z.to_euclidean_division_equations; nia.
Qed.

Lemma aligned_chunk_tokens_least_witness :
  aligned_chunk_tokens (VInt 192) = Ok 384 ∧ (192 | 384).
Proof. split; [reflexivity|]. by apply (aligned_chunk_tokens_least 192 384). Defined.

(** The capacity trigger is the first whole byte at or above 80% of the
    capacity, and never exceeds the capacity itself. *)
Theorem trigger_watermark_least (s : size_value) (b : Z) :
  max_size_post_init s = Ok b →
  let w := trigger_watermark_bytes b in
  4 * b ≤ 5 * w ∧ (∀ w', 4 * b ≤ 5 * w' → w ≤ w') ∧ 0 < w ≤ b.
Proof.
  unfold max_size_post_init, raise. destruct (size_ratio s); [|done].
  case_match eqn:E; [done|]. intros [= <-]; bsimp.
  unfold trigger_watermark_bytes. cbn. split; [|split]; [|intros w' ?|];
    Z.to_euclidean_division_equations; lia.
Qed.

Lemma trigger_watermark_least_witness :
  max_size_post_init (SizeFinite 3 2) = Ok 1610612736 ∧
  let w := trigger_watermark_bytes 1610612736 in
  4 * 1610612736 ≤ 5 * w ∧ (∀ w', 4 * 1610612736 ≤ 5 * w' → w ≤ w') ∧ 0 < w ≤ 1610612736.
Proof. split; [reflexivity|]. by apply (trigger_watermark_least (SizeFinite 3 2)). Defined.
