(* ===== verification/Prefix.v ===== *)
(** * Exact-prefix digests ([src/spoolcache/prefix.py])

    Token prefixes are identified by a SHA-256 chain over fixed-width chunks,
    seeded by the deployment and the cache salt; a boundary inside or after
    media hashes the ordered media identities on top.  [digest_loop] is the
    loop of [prefix_digests]; its fuel is the number of remaining tokens, which
    is enough because every iteration consumes a positive chunk
    ([digest_loop_spans]).  The main results: the reported boundaries are exactly
    the requested ones, a digest depends only on the exact prefix below it, and
    equal digests at one boundary force equal prefixes, salts, deployments and
    media, or exhibit a SHA-256 collision between two strings that were hashed. *)
From S2P Require Import Prelude Bytes Utf8.

Definition DOMAIN : list byte := blit "spoolcache-exact-prefix/v2" ++ [x00].
Definition MULTIMODAL_DOMAIN : list byte := blit "spoolcache-multimodal-prefix/v1" ++ [x00].

Record MultimodalFeatureIdentity := Feature {
  modality : pystr;
  identifier : pystr;
  offset : Z;
  feature_length : Z
}.

#[export] Instance feature_eq_dec : EqDecision MultimodalFeatureIdentity.
Proof. solve_decision. Defined.

Record PrefixDigest := MkPrefixDigest { span_tokens : Z; digest : pystr }.

#[export] Instance prefix_digest_eq_dec : EqDecision PrefixDigest.
Proof. solve_decision. Defined.

(** A feature before validation: not an instance, or an instance whose fields
    hold arbitrary objects. *)
Inductive raw_feature :=
  | NotAFeature
  | RawFeature (modality identifier offset length : pyval).

Definition nonempty_str (v : pyval) (msg : string) : result pystr :=
  match as_str v with
  | Some (c :: s) => Ok (c :: s)
  | _ => raise ValueError msg
  end.

(** One iteration of the validation loop: the feature and its end. *)
Definition validate_feature (token_count previous_end : Z) (raw : raw_feature)
    : result MultimodalFeatureIdentity :=
  match raw with
  | NotAFeature => raise ValueError "multimodal feature identity has an invalid type"
  | RawFeature m i o l =>
      m ← nonempty_str m "multimodal feature modality must be non-empty";
      i ← nonempty_str i "multimodal feature identifier must be non-empty";
      o ← need_int o (λ z, z <? 0) ValueError "multimodal feature geometry is invalid";
      l ← need_int l (λ z, z <=? 0) ValueError "multimodal feature geometry is invalid";
      _ ← raise_if (o <? previous_end) ValueError
            "multimodal feature ranges must be ordered and disjoint";
      _ ← raise_if (token_count <? o + l) ValueError
            "multimodal feature range exceeds the prompt";
      match utf8_encode m, utf8_encode i with
      | Some _, Some _ => Ok (Feature m i o l)
      | _, _ => raise ValueError "multimodal feature identity is not UTF-8"
      end
  end.

Fixpoint validate_features (token_count previous_end : Z) (raw : list raw_feature)
    : result (list MultimodalFeatureIdentity) :=
  match raw with
  | [] => Ok []
  | r :: raw =>
      f ← validate_feature token_count previous_end r;
      fs ← validate_features token_count (offset f + feature_length f) raw;
      Ok (f :: fs)
  end.

(** [features] is [None] when the argument is not iterable. *)
Definition validate_multimodal_features (features : option (list raw_feature))
    (token_count : pyval) : result (list MultimodalFeatureIdentity) :=
  match as_int token_count with
  | None => raise ValueError "multimodal token count must be an integer"
  | Some n =>
      _ ← raise_if (n <? 0) ValueError "multimodal token count must be non-negative";
      match features with
      | None => raise ValueError "multimodal features must be a sequence"
      | Some raw => validate_features n 0 raw
      end
  end.

(** The features that start before the boundary. *)
Definition active_features (features : list MultimodalFeatureIdentity) (span : Z) :=
  filter (λ f, offset f < span) features.

Definition encode_feature (f : MultimodalFeatureIdentity) : result (list byte) :=
  m ← encode_utf8 (modality f);
  i ← encode_utf8 (identifier f);
  o ← pack_Q (offset f);
  l ← pack_Q (feature_length f);
  ml ← pack_Q (Z.of_nat (length m));
  il ← pack_Q (Z.of_nat (length i));
  Ok (o ++ l ++ ml ++ m ++ il ++ i).

Definition multimodal_payload (features : list MultimodalFeatureIdentity) (span : Z)
    : result (list byte) :=
  let active := active_features features span in
  match active with
  | [] => Ok []
  | _ =>
      n ← pack_Q (Z.of_nat (length active));
      es ← mapM_result encode_feature active;
      Ok (MULTIMODAL_DOMAIN ++ n ++ concat es)
  end.

(** ** The reusable span *)
Fixpoint gcd_loop (fuel : nat) (left right : Z) : Z :=
  match fuel with
  | O => left
  | S fuel => if right =? 0 then left else gcd_loop fuel right (left mod right)
  end.

(** [_gcd]: the right operand decreases at every step. *)
Definition _gcd (left right : Z) : Z := gcd_loop (S (Z.to_nat right)) left right.

Definition aligned_prefix_span (prompt_tokens alignment chunk_tokens min_span_tokens : pyval)
    (max_span_tokens : option pyval) : result Z :=
  match as_int prompt_tokens, as_int alignment, as_int chunk_tokens, as_int min_span_tokens with
  | Some p, Some a, Some c, Some m =>
      if (p <=? 1) || (a <=? 0) || (c <=? 0) then Ok 0 else
      let quantum := a * c / _gcd a c in
      let span := ((p - 1) / quantum) * quantum in
      span ← match max_span_tokens with
             | None => Ok span
             | Some v =>
                 match as_int v with
                 | None => raise ValueError "max_span_tokens must be an integer"
                 | Some mx => Ok (Z.min span ((mx / quantum) * quantum))
                 end
             end;
      Ok (if m <=? span then span else 0)
  | _, _, _, _ => raise ValueError "prefix alignment values must be integers"
  end.

(** ** The digest chain *)
Section digests.
Context `{Sha}.

Definition initial_input (deployment_digest cache_salt : pystr) : result (list byte) :=
  _ ← raise_if (negb (is_digest deployment_digest)) IdentityError
        "deployment digest is not SHA-256";
  let deployment := bytes_fromhex deployment_digest in
  salt ← encode_utf8 cache_salt;
  n ← pack_Q (Z.of_nat (length salt));
  Ok (DOMAIN ++ deployment ++ n ++ salt).

Definition initial_digest (deployment_digest cache_salt : pystr) : result (list byte) :=
  i ← initial_input deployment_digest cache_salt; Ok (sha256 i).

Definition token_value (v : pyval) : result Z :=
  match as_int v with
  | None => raise ValueError "token IDs must be integers"
  | Some t =>
      if (- Z.shiftl 1 63 <=? t) && (t <? Z.shiftl 1 63) then Ok t
      else raise ValueError "token ID is outside signed 64-bit range"
  end.

Definition encode_chunk (chunk : list Z) : result (list byte) :=
  n ← pack_Q (Z.of_nat (length chunk));
  ts ← mapM_result pack_q chunk;
  Ok (n ++ concat ts).

(** [range(chunk, n + 1, chunk)] *)
Definition chunk_multiples (chunk n : Z) : list Z :=
  (λ i, chunk * Z.of_nat i) <$> seq 1 (Z.to_nat (n / chunk)).

Definition requested_boundaries (boundaries : option (list pyval)) (chunk n : Z)
    : result (list Z) :=
  match boundaries with
  | None => Ok (chunk_multiples chunk n)
  | Some bs =>
      mapM_result
        (λ v, need_int v (λ b, (b <=? 0) || (n <? b) || negb (b mod chunk =? 0))
                ValueError "prefix boundaries must be positive aligned token counts") bs
  end.

(** The digest reported at a boundary: the chain state, or its hash together
    with the media payload when media starts before the boundary. *)
Definition boundary_digest (previous media : list byte) : pystr :=
  match media with
  | [] => bytes_hex previous
  | _ => bytes_hex (sha256 (previous ++ media))
  end.

Fixpoint digest_loop (fuel : nat) (chunk_tokens : Z) (requested : list Z)
    (features : list MultimodalFeatureIdentity) (previous : list byte) (start : Z)
    (rest : list Z) : result (list PrefixDigest) :=
  match fuel with
  | O => Ok []
  | S fuel =>
      let chunk := take (Z.to_nat chunk_tokens) rest in
      if Z.of_nat (length chunk) <? chunk_tokens then Ok [] else
      encoded ← encode_chunk chunk;
      let previous := sha256 (previous ++ encoded) in
      let span := start + chunk_tokens in
      if decide (span ∈ requested) then
        media ← multimodal_payload features span;
        ds ← digest_loop fuel chunk_tokens requested features previous span
               (drop (Z.to_nat chunk_tokens) rest);
        Ok (MkPrefixDigest span (boundary_digest previous media) :: ds)
      else
        digest_loop fuel chunk_tokens requested features previous span
          (drop (Z.to_nat chunk_tokens) rest)
  end.

Definition prefix_digests (token_ids : list pyval) (deployment_digest cache_salt : pystr)
    (chunk_tokens : Z) (boundaries : option (list pyval))
    (multimodal_features : option (list raw_feature)) : result (list PrefixDigest) :=
  _ ← raise_if (chunk_tokens <=? 0) ValueError "chunk_tokens must be positive";
  tokens ← mapM_result token_value token_ids;
  let n := Z.of_nat (length tokens) in
  requested ← requested_boundaries boundaries chunk_tokens n;
  features ← validate_multimodal_features multimodal_features (VInt n);
  previous ← initial_digest deployment_digest cache_salt;
  digest_loop (length tokens) chunk_tokens requested features previous 0 tokens.
End digests.

(** ** Greatest common divisor and quantum *)
Lemma gcd_loop_gcd fuel a b :
  0 ≤ a → 0 ≤ b < Z.of_nat fuel → gcd_loop fuel a b = Z.gcd a b.
Proof.
  revert a b; induction fuel as [|fuel IH]; intros a b Ha Hb; cbn; [lia|].
  case_match eqn:E; bsimp.
  - subst. by rewrite Z.gcd_0_r, Z.abs_eq.
  - pose proof (Z.mod_pos_bound a b ltac:(lia)). rewrite IH by lia.
    by rewrite Z.gcd_comm, Z.gcd_mod, Z.gcd_comm by lia.
Qed.

Lemma _gcd_gcd a b : 0 ≤ a → 0 ≤ b → _gcd a b = Z.gcd a b.
Proof. intros. unfold _gcd. apply gcd_loop_gcd; lia. Qed.

Lemma quantum_lcm a c : 0 < a → 0 < c → a * c / _gcd a c = Z.lcm a c.
Proof.
  intros Ha Hc. rewrite _gcd_gcd by lia. unfold Z.lcm.
  assert (0 < Z.gcd a c).
  { pose proof (Z.gcd_nonneg a c). destruct (Z.eq_dec (Z.gcd a c) 0) as [E|]; [|lia].
    apply Z.gcd_eq_0 in E. lia. }
  rewrite Z.abs_eq.
  - apply Z.divide_div_mul_exact; [lia|apply Z.gcd_divide_r].
  - apply Z.mul_nonneg_nonneg; [lia|]. apply Z.div_pos; lia.
Qed.

Lemma lcm_pos a c : 0 < a → 0 < c → 0 < Z.lcm a c.
Proof.
  intros. pose proof (Z.lcm_nonneg a c). destruct (Z.eq_dec (Z.lcm a c) 0) as [E|]; [|lia].
  apply Z.lcm_eq_0 in E. lia.
Qed.

(** ** Encodings are injective and self-delimiting *)
Lemma app_inj_len {A} (a b a' b' : list A) :
  length a = length a' → a ++ b = a' ++ b' → a = a' ∧ b = b'.
Proof. intros Hl He. by apply app_inj_1 in He. Qed.

Lemma encode_chunk_Ok c e :
  encode_chunk c = Ok e →
  ∃ n ts, pack_Q (Z.of_nat (length c)) = Ok n ∧ Forall2 (λ t b, pack_q t = Ok b) c ts ∧
    e = n ++ concat ts.
Proof.
  unfold encode_chunk. intros H. inv_ok. eauto.
Qed.

Lemma packed_tokens_inj c ts c' ts' :
  Forall2 (λ t b, pack_q t = Ok b) c ts → Forall2 (λ t b, pack_q t = Ok b) c' ts' →
  length c = length c' → concat ts = concat ts' → c = c'.
Proof.
  intros H; revert c' ts'; induction H as [|t b c ts Ht H IH]; intros c' ts'.
  - intros _ Hl _. symmetry in Hl. by apply nil_length_inv in Hl.
  - destruct 1 as [|t' b' c' ts' Ht' H']; cbn; [done|]. intros Hl He.
    apply app_inj_len in He as [-> He].
    + rewrite (pack_q_inj _ _ _ Ht Ht'). f_equal. eapply IH; [done| |done]. lia.
    + by rewrite (pack_q_Ok _ _ Ht), (pack_q_Ok _ _ Ht').
Qed.

Lemma encode_chunk_inj c c' e :
  encode_chunk c = Ok e → encode_chunk c' = Ok e → c = c'.
Proof.
  intros (n & ts & Hn & Hts & ->)%encode_chunk_Ok (n' & ts' & Hn' & Hts' & He)%encode_chunk_Ok.
  apply app_inj_len in He as [-> He].
  - pose proof (pack_Q_inj _ _ _ Hn Hn'). eapply packed_tokens_inj; eauto. lia.
  - by rewrite (pack_Q_Ok _ _ Hn), (pack_Q_Ok _ _ Hn').
Qed.

Lemma encode_feature_Ok f e :
  encode_feature f = Ok e →
  ∃ m i o l ml il, encode_utf8 (modality f) = Ok m ∧ encode_utf8 (identifier f) = Ok i ∧
    pack_Q (offset f) = Ok o ∧ pack_Q (feature_length f) = Ok l ∧
    pack_Q (Z.of_nat (length m)) = Ok ml ∧ pack_Q (Z.of_nat (length i)) = Ok il ∧
    e = o ++ l ++ ml ++ m ++ il ++ i.
Proof.
  unfold encode_feature. intros H. inv_ok. by repeat (eexists || split).
Qed.

Lemma encode_feature_inj f g e e' r r' :
  encode_feature f = Ok e → encode_feature g = Ok e' → e ++ r = e' ++ r' → f = g ∧ r = r'.
Proof.
  intros (m & i & o & l & ml & il & Hm & Hi & Ho & Hl & Hml & Hil & ->)%encode_feature_Ok.
  intros (m' & i' & o' & l' & ml' & il' & Hm' & Hi' & Ho' & Hl' & Hml' & Hil' & ->)%encode_feature_Ok.
  rewrite <-!(assoc_L (++)). intros E.
  apply app_inj_len in E as [-> E]; [|by rewrite (pack_Q_Ok _ _ Ho), (pack_Q_Ok _ _ Ho')].
  apply app_inj_len in E as [-> E]; [|by rewrite (pack_Q_Ok _ _ Hl), (pack_Q_Ok _ _ Hl')].
  apply app_inj_len in E as [-> E]; [|by rewrite (pack_Q_Ok _ _ Hml), (pack_Q_Ok _ _ Hml')].
  apply app_inj_len in E as [-> E]; [|by apply Nat2Z.inj; eapply pack_Q_inj].
  apply app_inj_len in E as [-> E]; [|by rewrite (pack_Q_Ok _ _ Hil), (pack_Q_Ok _ _ Hil')].
  apply app_inj_len in E as [-> E]; [|by apply Nat2Z.inj; eapply pack_Q_inj].
  split; [|done]. destruct f, g; cbn in *. f_equal.
  - by eapply encode_utf8_inj.
  - by eapply encode_utf8_inj.
  - by eapply pack_Q_inj.
  - by eapply pack_Q_inj.
Qed.

Lemma encoded_features_inj fs es gs es' :
  Forall2 (λ f e, encode_feature f = Ok e) fs es → Forall2 (λ f e, encode_feature f = Ok e) gs es' →
  length fs = length gs → concat es = concat es' → fs = gs.
Proof.
  intros H; revert gs es'; induction H as [|f e fs es Hf H IH]; intros gs es'.
  - intros _ Hl _. symmetry in Hl. by apply nil_length_inv in Hl.
  - destruct 1 as [|g e' gs es' Hg H']; cbn; [done|]. intros Hl He.
    destruct (encode_feature_inj _ _ _ _ _ _ Hf Hg He) as [-> He'].
    f_equal. eapply IH; [done| |done]. lia.
Qed.

Lemma multimodal_payload_Ok fs k p :
  multimodal_payload fs k = Ok p →
  (active_features fs k = [] ∧ p = []) ∨
  ∃ n es, active_features fs k ≠ [] ∧ pack_Q (Z.of_nat (length (active_features fs k))) = Ok n ∧
    Forall2 (λ f e, encode_feature f = Ok e) (active_features fs k) es ∧
    p = MULTIMODAL_DOMAIN ++ n ++ concat es.
Proof.
  unfold multimodal_payload. destruct (active_features fs k) as [|f a] eqn:E.
  - intros [= <-]. by left.
  - intros H. inv_ok. right. eauto 10.
Qed.

Lemma multimodal_payload_inj fs gs k p :
  multimodal_payload fs k = Ok p → multimodal_payload gs k = Ok p →
  active_features fs k = active_features gs k.
Proof.
  intros [[-> ->]|(n & es & Hne & Hn & Hes & ->)]%multimodal_payload_Ok.
  - intros [[-> _]|(n & es & _ & _ & _ & E)]%multimodal_payload_Ok; [done|].
    by apply (f_equal length) in E.
  - intros [[_ E]|(n' & es' & Hne' & Hn' & Hes' & E)]%multimodal_payload_Ok.
    + by apply (f_equal length) in E.
    + apply app_inv_head in E.
      apply app_inj_len in E as [-> E]; [|by rewrite (pack_Q_Ok _ _ Hn), (pack_Q_Ok _ _ Hn')].
      eapply encoded_features_inj; eauto. pose proof (pack_Q_inj _ _ _ Hn Hn'). lia.
Qed.

(** ** The digest loop *)
Section loop.
Context `{Sha}.

(** The strings that one run of the loop hashes. *)
Fixpoint loop_inputs (fuel : nat) (chunk_tokens : Z) (requested : list Z)
    (features : list MultimodalFeatureIdentity) (previous : list byte) (start : Z)
    (rest : list Z) : list (list byte) :=
  match fuel with
  | O => []
  | S fuel =>
      let chunk := take (Z.to_nat chunk_tokens) rest in
      if Z.of_nat (length chunk) <? chunk_tokens then [] else
      match encode_chunk chunk with
      | Raise _ => []
      | Ok encoded =>
          let next := sha256 (previous ++ encoded) in
          let span := start + chunk_tokens in
          let media_input :=
            match multimodal_payload features span with
            | Ok (b :: media) => if decide (span ∈ requested) then [next ++ (b :: media)] else []
            | _ => []
            end in
          (previous ++ encoded) ::
            (media_input ++
             loop_inputs fuel chunk_tokens requested features next span
               (drop (Z.to_nat chunk_tokens) rest))
      end
  end.

Lemma digest_loop_S f c req fs prev start rest res :
  digest_loop (S f) c req fs prev start rest = Ok res →
  (Z.of_nat (length (take (Z.to_nat c) rest)) < c ∧ res = []) ∨
  ∃ e ds,
    c ≤ Z.of_nat (length (take (Z.to_nat c) rest)) ∧
    encode_chunk (take (Z.to_nat c) rest) = Ok e ∧
    digest_loop f c req fs (sha256 (prev ++ e)) (start + c) (drop (Z.to_nat c) rest) = Ok ds ∧
    (((start + c) ∉ req ∧ res = ds) ∨
     ∃ m, start + c ∈ req ∧ multimodal_payload fs (start + c) = Ok m ∧
       res = MkPrefixDigest (start + c) (boundary_digest (sha256 (prev ++ e)) m) :: ds).
Proof.
  cbn [digest_loop]. case_match eqn:El; bsimp.
  - intros [= <-]. by left.
  - intros H1. right. inv_ok. case_decide; inv_ok; repeat eexists; try done; [|by left].
    right. by repeat eexists.
Qed.

Lemma loop_inputs_S f c req fs prev start rest e :
  c ≤ Z.of_nat (length (take (Z.to_nat c) rest)) →
  encode_chunk (take (Z.to_nat c) rest) = Ok e →
  (prev ++ e) ∈ loop_inputs (S f) c req fs prev start rest ∧
  loop_inputs f c req fs (sha256 (prev ++ e)) (start + c) (drop (Z.to_nat c) rest)
    ⊆ loop_inputs (S f) c req fs prev start rest ∧
  (∀ b m, start + c ∈ req → multimodal_payload fs (start + c) = Ok (b :: m) →
    (sha256 (prev ++ e) ++ (b :: m)) ∈ loop_inputs (S f) c req fs prev start rest).
Proof.
  intros Hl He. cbn [loop_inputs]. rewrite He, (proj2 (Z.ltb_ge _ _)) by done.
  split; [by left|]. split; [set_solver|].
  intros b m Hr Hm. rewrite Hm, decide_True by done. set_solver.
Qed.

Lemma digest_loop_start f c req fs prev start rest res p :
  0 < c → digest_loop f c req fs prev start rest = Ok res → p ∈ res →
  start + c ≤ span_tokens p.
Proof.
  intros Hc. revert prev start rest res; induction f as [|f IH]; intros prev start rest res.
  { intros [= <-] Hp. by apply elem_of_nil in Hp. }
  intros [[_ ->]|(e & ds & _ & _ & Hds & Hres)]%digest_loop_S Hp; [by apply elem_of_nil in Hp|].
  destruct Hres as [[_ ->]|(m & _ & _ & ->)].
  - apply (IH _ _ _ _ Hds) in Hp. lia.
  - apply elem_of_cons in Hp as [->|Hp]; [cbn; lia|]. apply (IH _ _ _ _ Hds) in Hp. lia.
Qed.

(** The reported boundaries are the requested multiples, in order. *)
Lemma digest_loop_spans f c req fs prev start rest res :
  0 < c → (length rest ≤ f)%nat →
  digest_loop f c req fs prev start rest = Ok res →
  span_tokens <$> res =
    filter (λ s, s ∈ req)
      ((λ i, start + c * Z.of_nat i) <$> seq 1 (Z.to_nat (Z.of_nat (length rest) / c))).
Proof.
  intros Hc. revert prev start rest res; induction f as [|f IH]; intros prev start rest res Hf.
  { destruct rest; cbn in *; [|lia]. intros [= <-]. by rewrite Z.div_0_l by lia. }
  intros [[Hlt ->]|(e & ds & Hge & He & Hds & Hres)]%digest_loop_S.
  { rewrite length_take in Hlt. by rewrite Z.div_small by lia. }
  rewrite length_take in Hge. apply IH in Hds; [|rewrite length_drop; lia].
  rewrite length_drop in Hds.
  replace (Z.to_nat (Z.of_nat (length rest) / c))
    with (S (Z.to_nat (Z.of_nat (length rest - Z.to_nat c) / c))).
  2:{ replace (Z.of_nat (length rest - Z.to_nat c)) with (Z.of_nat (length rest) + (-1) * c) by lia.
      rewrite Z.div_add by lia. pose proof (Z.div_le_lower_bound (Z.of_nat (length rest)) c 1). lia. }
  cbn [seq fmap list_fmap]. rewrite <-fmap_S_seq, <-list_fmap_compose.
  rewrite (list_fmap_ext (_ ∘ S) (λ i, start + c + c * Z.of_nat i)) by (intros; cbn; lia).
  replace (start + c * Z.of_nat 1) with (start + c) by lia. rewrite filter_cons.
  destruct Hres as [[Hn ->]|(m & Hin & _ & ->)].
  - by rewrite decide_False by done.
  - rewrite decide_True by done. cbn. by rewrite Hds.
Qed.

(** A media payload starts with a text no chunk length can spell. *)
Lemma media_not_chunk fs k m x c e :
  0 < c < 2 ^ 62 → multimodal_payload fs k = Ok m → m ≠ [] →
  Z.of_nat (length (take (Z.to_nat c) x)) ≤ c →
  encode_chunk (take (Z.to_nat c) x) = Ok e → m ≠ e.
Proof.
  intros Hc [[_ ->]|(n & es & _ & _ & _ & ->)]%multimodal_payload_Ok Hm Hl; [done|].
  intros (n' & ts & [Hr ->]%pack_Q_spec & _ & ->)%encode_chunk_Ok E.
  apply (f_equal (take 8)) in E. rewrite (take_app_length' (le_pack 8 _)) in E.
  2:{ by rewrite le_pack_length. }
  apply (f_equal le_unpack) in E. rewrite le_unpack_pack in E.
  change (256 ^ Z.of_nat 8) with (2 ^ 64) in E. rewrite Z.mod_small in E by lia.
  assert (le_unpack (take 8 (MULTIMODAL_DOMAIN ++ n ++ concat es)) = 7161114199872991347) as E2.
  { rewrite take_app_le by (vm_compute; lia). by vm_compute. }
  rewrite E2 in E. lia.
Qed.

Lemma boundary_digest_inj c fs fs' k m m' p p' x x' e e' L :
  0 < c < 2 ^ 62 → length p = 32%nat → length p' = 32%nat →
  multimodal_payload fs k = Ok m → multimodal_payload fs' k = Ok m' →
  encode_chunk (take (Z.to_nat c) x) = Ok e → encode_chunk (take (Z.to_nat c) x') = Ok e' →
  (p ++ e) ∈ L → (p' ++ e') ∈ L →
  (∀ b r, m = b :: r → (sha256 (p ++ e) ++ m) ∈ L) →
  (∀ b r, m' = b :: r → (sha256 (p' ++ e') ++ m') ∈ L) →
  boundary_digest (sha256 (p ++ e)) m = boundary_digest (sha256 (p' ++ e')) m' →
  (m = m' ∧ p ++ e = p' ++ e') ∨ collision L.
Proof.
  intros Hc Hp Hp' Hm Hm' He He' HL HL' Hb Hb' E.
  assert (∀ y : list Z, Z.of_nat (length (take (Z.to_nat c) y)) ≤ c) as Hlen
    by (intros y; rewrite length_take; lia).
  destruct m as [|b r] eqn:Em, m' as [|b' r'] eqn:Em'; cbn [boundary_digest] in E;
    apply (inj bytes_hex) in E; rewrite <-?Em, <-?Em' in *.
  - destruct (sha256_eq_or_collision _ _ L HL HL' E); auto.
  - destruct (sha256_eq_or_collision _ _ L HL (Hb' _ _ Em') E) as [E'|]; [|by right].
    apply app_inj_len in E' as [_ E']; [|by rewrite sha256_length].
    exfalso. eapply (media_not_chunk fs' k m' x c e); eauto. by rewrite Em'.
  - destruct (sha256_eq_or_collision _ _ L (Hb _ _ Em) HL' E) as [E'|]; [|by right].
    apply app_inj_len in E' as [_ E']; [|by rewrite sha256_length].
    exfalso. eapply (media_not_chunk fs k m x' c e'); eauto. by rewrite Em.
  - destruct (sha256_eq_or_collision _ _ L (Hb _ _ Em) (Hb' _ _ Em') E) as [E'|]; [|by right].
    apply app_inj_len in E' as [E' ->]; [|by rewrite !sha256_length].
    destruct (sha256_eq_or_collision _ _ L HL HL' E'); auto.
Qed.

Lemma take_chunk {A} (k c : Z) (l : list A) :
  0 < c ≤ k →
  take (Z.to_nat k) l = take (Z.to_nat c) l ++ take (Z.to_nat (k - c)) (drop (Z.to_nat c) l).
Proof. intros. rewrite take_take_drop. f_equal. lia. Qed.

(** Equal digests at one boundary: equal chain states below it, or a collision. *)
Lemma digest_loop_binding c f f' req req' fs fs' p p' start x x' res res' k d L :
  0 < c < 2 ^ 62 → length p = 32%nat → length p' = 32%nat →
  digest_loop f c req fs p start x = Ok res → digest_loop f' c req' fs' p' start x' = Ok res' →
  MkPrefixDigest k d ∈ res → MkPrefixDigest k d ∈ res' →
  loop_inputs f c req fs p start x ⊆ L → loop_inputs f' c req' fs' p' start x' ⊆ L →
  (p = p' ∧ take (Z.to_nat (k - start)) x = take (Z.to_nat (k - start)) x' ∧
   active_features fs k = active_features fs' k) ∨ collision L.
Proof.
  intros Hc. revert f' p p' start x x' res res'.
  induction f as [|f IH]; intros f' p p' start x x' res res' Hp Hp'.
  { intros [= <-] _ Hin. by apply elem_of_nil in Hin. }
  destruct f' as [|f']. { intros _ [= <-] _ Hin. by apply elem_of_nil in Hin. }
  intros R R' Hin Hin' HL HL'.
  apply digest_loop_S in R as [[_ ->]|(e & ds & Hge & He & Hds & Hres)];
    [by apply elem_of_nil in Hin|].
  apply digest_loop_S in R' as [[_ ->]|(e' & ds' & Hge' & He' & Hds' & Hres')];
    [by apply elem_of_nil in Hin'|].
  destruct (loop_inputs_S f c req fs p start x e Hge He) as (Hi1 & Hi2 & Hi3).
  destruct (loop_inputs_S f' c req' fs' p' start x' e' Hge' He') as (Hi1' & Hi2' & Hi3').
  assert (Hstep : p ++ e = p' ++ e' →
    p = p' ∧ take (Z.to_nat c) x = take (Z.to_nat c) x').
  { intros E. apply app_inj_len in E as [-> ->]; [|congruence]. split; [done|].
    by eapply encode_chunk_inj. }
  destruct (decide (k = start + c)) as [->|Hne].
  - assert (∀ g q s y rr P, digest_loop g c q s P (start + c) y = Ok rr →
      MkPrefixDigest (start + c) d ∉ rr) as Hno.
    { intros g q s y rr P Hrr Hd.
      pose proof (digest_loop_start _ _ _ _ _ _ _ _ _ (proj1 Hc) Hrr Hd) as Hq. cbn in Hq. lia. }
    destruct Hres as [[_ ->]|(m & Hr & Hm & ->)]; [by destruct (Hno _ _ _ _ _ _ Hds)|].
    destruct Hres' as [[_ ->]|(m' & Hr' & Hm' & ->)]; [by destruct (Hno _ _ _ _ _ _ Hds')|].
    apply elem_of_cons in Hin as [[= Ed]|Hin]; [|by destruct (Hno _ _ _ _ _ _ Hds)].
    apply elem_of_cons in Hin' as [[= Ed']|Hin']; [|by destruct (Hno _ _ _ _ _ _ Hds')].
    destruct (boundary_digest_inj c fs fs' (start + c) m m' p p' x x' e e' L)
      as [[-> E]|]; auto; try congruence.
    + intros b r ->. by apply HL, Hi3.
    + intros b r ->. by apply HL', Hi3'.
    + left. replace (start + c - start) with c by lia. destruct (Hstep E). split; [done|].
      split; [done|]. by eapply multimodal_payload_inj.
  - assert (MkPrefixDigest k d ∈ ds) as Hd.
    { destruct Hres as [[_ ->]|(m & _ & _ & ->)]; [done|].
      apply elem_of_cons in Hin as [[= ? ?]|?]; done. }
    assert (MkPrefixDigest k d ∈ ds') as Hd'.
    { destruct Hres' as [[_ ->]|(m & _ & _ & ->)]; [done|].
      apply elem_of_cons in Hin' as [[= ? ?]|?]; done. }
    pose proof (digest_loop_start _ _ _ _ _ _ _ _ _ (proj1 Hc) Hds Hd) as Hk. cbn in Hk.
    destruct (IH _ _ _ _ _ _ _ _ (sha256_length _) (sha256_length _) Hds Hds' Hd Hd')
      as [(E & Et & Ea)|]; [set_solver..| |by right].
    destruct (sha256_eq_or_collision _ _ L (HL _ Hi1) (HL' _ Hi1') E) as [E'|]; [|by right].
    destruct (Hstep E') as [-> Htk]. left. split; [done|]. split; [|done].
    rewrite !(take_chunk (k - start) c) by lia.
    replace (k - start - c) with (k - (start + c)) by lia. congruence.
Qed.

(** A digest is a function of the tokens and media below its boundary. *)
Lemma digest_loop_stable c f f' req req' fs fs' p start x x' res res' k d d' :
  0 < c →
  digest_loop f c req fs p start x = Ok res → digest_loop f' c req' fs' p start x' = Ok res' →
  MkPrefixDigest k d ∈ res → MkPrefixDigest k d' ∈ res' →
  take (Z.to_nat (k - start)) x = take (Z.to_nat (k - start)) x' →
  active_features fs k = active_features fs' k → d = d'.
Proof.
  intros Hc. revert f' p start x x' res res'.
  induction f as [|f IH]; intros f' p start x x' res res'.
  { intros [= <-] _ Hin. by apply elem_of_nil in Hin. }
  destruct f' as [|f']. { intros _ [= <-] _ Hin. by apply elem_of_nil in Hin. }
  intros R R' Hin Hin' Ht Ha.
  pose proof (digest_loop_start _ _ _ _ _ _ _ _ _ Hc R Hin) as Hk. cbn in Hk.
  rewrite !(take_chunk (k - start) c) in Ht by lia.
  apply digest_loop_S in R as [[_ ->]|(e & ds & Hge & He & Hds & Hres)];
    [by apply elem_of_nil in Hin|].
  apply digest_loop_S in R' as [[_ ->]|(e' & ds' & Hge' & He' & Hds' & Hres')];
    [by apply elem_of_nil in Hin'|].
  apply app_inj_len in Ht as [Ht1 Ht2]; [|rewrite !length_take in *; lia].
  rewrite Ht1, He' in He. injection He as <-.
  assert (∀ m m', multimodal_payload fs k = Ok m → multimodal_payload fs' k = Ok m' → m = m') as Hm
    by (unfold multimodal_payload; rewrite Ha; congruence).
  destruct (decide (k = start + c)) as [->|Hne].
  - assert (∀ D g q s y rr P, digest_loop g c q s P (start + c) y = Ok rr →
      MkPrefixDigest (start + c) D ∉ rr) as Hno.
    { intros D g q s y rr P Hrr Hd.
      pose proof (digest_loop_start _ _ _ _ _ _ _ _ _ Hc Hrr Hd) as Hq. cbn in Hq. lia. }
    destruct Hres as [[_ ->]|(m & _ & Hm1 & ->)]; [by destruct (Hno _ _ _ _ _ _ _ Hds Hin)|].
    destruct Hres' as [[_ ->]|(m' & _ & Hm1' & ->)]; [by destruct (Hno _ _ _ _ _ _ _ Hds' Hin')|].
    apply elem_of_cons in Hin as [[= ->]|Hin]; [|by destruct (Hno _ _ _ _ _ _ _ Hds Hin)].
    apply elem_of_cons in Hin' as [[= ->]|Hin']; [|by destruct (Hno _ _ _ _ _ _ _ Hds' Hin')].
    f_equal. by apply Hm.
  - assert (MkPrefixDigest k d ∈ ds) as Hd.
    { destruct Hres as [[_ ->]|(m & _ & _ & ->)]; [done|].
      apply elem_of_cons in Hin as [[= ? ?]|?]; done. }
    assert (MkPrefixDigest k d' ∈ ds') as Hd'.
    { destruct Hres' as [[_ ->]|(m & _ & _ & ->)]; [done|].
      apply elem_of_cons in Hin' as [[= ? ?]|?]; done. }
    eapply IH; [exact Hds|exact Hds'|done|done| |done].
    by replace (k - (start + c)) with (k - start - c) by lia.
Qed.
End loop.

(** ** Properties *)
Section properties.
Context `{Sha}.

(** Everything one call of [prefix_digests] hashes. *)
Definition hash_inputs (token_ids : list pyval) (deployment_digest cache_salt : pystr)
    (chunk_tokens : Z) (boundaries : option (list pyval))
    (multimodal_features : option (list raw_feature)) : list (list byte) :=
  match mapM_result token_value token_ids with
  | Raise _ => []
  | Ok tokens =>
      let n := Z.of_nat (length tokens) in
      match requested_boundaries boundaries chunk_tokens n,
            validate_multimodal_features multimodal_features (VInt n),
            initial_input deployment_digest cache_salt with
      | Ok requested, Ok features, Ok i =>
          i :: loop_inputs (length tokens) chunk_tokens requested features (sha256 i) 0 tokens
      | _, _, _ => []
      end
  end.

Lemma token_values toks tokens :
  mapM_result token_value toks = Ok tokens → toks = VInt <$> tokens.
Proof.
  intros Et%mapM_result_Ok. induction Et as [|v t vs ts Hv _ IH]; [done|].
  rewrite fmap_cons, <-IH. f_equal. unfold token_value in Hv.
  destruct (as_int v) eqn:Ev; [|done]. apply as_int_Some in Ev as ->.
  case_match; [|done]. by injection Hv as ->.
Qed.

Lemma prefix_digests_Ok toks dep salt c bs fs res :
  prefix_digests toks dep salt c bs fs = Ok res →
  ∃ tokens req features i, 0 < c ∧ toks = VInt <$> tokens ∧
    requested_boundaries bs c (Z.of_nat (length tokens)) = Ok req ∧
    validate_multimodal_features fs (VInt (Z.of_nat (length tokens))) = Ok features ∧
    initial_input dep salt = Ok i ∧
    digest_loop (length tokens) c req features (sha256 i) 0 tokens = Ok res ∧
    hash_inputs toks dep salt c bs fs =
      i :: loop_inputs (length tokens) c req features (sha256 i) 0 tokens.
Proof.
  unfold prefix_digests, hash_inputs, initial_digest. intros R.
  apply result_bind_Ok in R as (? & Hc & R). apply raise_if_Ok in Hc. bsimp.
  apply result_bind_Ok in R as (tokens & Et & R). pose proof (token_values _ _ Et) as Ev.
  apply result_bind_Ok in R as (req & Er & R).
  apply result_bind_Ok in R as (features & Ef & R).
  apply result_bind_Ok in R as (prev & Ei & R).
  apply result_bind_Ok in Ei as (i & Ei & [= <-]).
  rewrite Et, Er, Ef, Ei. exists tokens, req, features, i. by repeat split.
Qed.

Lemma initial_input_inj dep dep' salt salt' i :
  initial_input dep salt = Ok i → initial_input dep' salt' = Ok i → dep = dep' ∧ salt = salt'.
Proof.
  unfold initial_input. intros H1 H2. inv_ok. bsimp.
  match goal with E : DOMAIN ++ _ = DOMAIN ++ _ |- _ => apply app_inv_head in E; rename E into E' end.
  assert (∀ d, is_digest d = true → length (bytes_fromhex d) = 32%nat) as Hl.
  { intros d Hd. unfold is_digest in Hd. bsimp. apply bytes_fromhex_length. lia. }
  apply app_inj_len in E' as [Ed E']; [|by rewrite !Hl].
  apply app_inj_len in E' as [_ ->]; [|by erewrite !pack_Q_Ok].
  split; [by apply bytes_fromhex_inj|by eapply encode_utf8_inj].
Qed.

(** [prefix_digests] reports exactly the requested boundaries that are
    multiples of the chunk width within the prompt, each once, in increasing
    order; the loop never stops before the last full chunk. *)
Theorem prefix_digests_boundaries toks dep salt c bs fs res req :
  prefix_digests toks dep salt c bs fs = Ok res →
  requested_boundaries bs c (Z.of_nat (length toks)) = Ok req →
  span_tokens <$> res = filter (λ s, s ∈ req) (chunk_multiples c (Z.of_nat (length toks))).
Proof.
  intros (tokens & req' & features & i & Hc & -> & Hr & _ & _ & Hl & _)%prefix_digests_Ok Hr'.
  rewrite length_fmap in Hr' |- *. rewrite Hr in Hr'. apply Ok_inj in Hr' as ->.
  apply digest_loop_spans in Hl; [|done..]. exact Hl.
Qed.

(** Two requests with the same deployment and salt whose prompts agree on
    the first [k] tokens and on the media that starts before [k] get the same
    digest at boundary [k], whatever follows: exact shared prefixes are found. *)
Theorem prefix_digest_shared_prefix toks toks' dep salt c bs bs' fs fs' feats feats' res res' k d d' :
  prefix_digests toks dep salt c bs fs = Ok res →
  prefix_digests toks' dep salt c bs' fs' = Ok res' →
  validate_multimodal_features fs (VInt (Z.of_nat (length toks))) = Ok feats →
  validate_multimodal_features fs' (VInt (Z.of_nat (length toks'))) = Ok feats' →
  take (Z.to_nat k) toks = take (Z.to_nat k) toks' →
  active_features feats k = active_features feats' k →
  MkPrefixDigest k d ∈ res → MkPrefixDigest k d' ∈ res' → d = d'.
Proof.
  intros (tokens & req & features & i & Hc & -> & Hr & Hf & Hi & Hl & _)%prefix_digests_Ok.
  intros (tokens' & req' & features' & i' & _ & -> & Hr' & Hf' & Hi' & Hl' & _)%prefix_digests_Ok.
  rewrite !length_fmap, Hf, Hf'. intros [= <-] [= <-] Ht Ha Hd Hd'.
  rewrite Hi in Hi'. injection Hi' as <-.
  eapply digest_loop_stable; [exact Hc|exact Hl|exact Hl'|exact Hd|exact Hd'| |exact Ha].
  rewrite Z.sub_0_r. rewrite <-!fmap_take in Ht. by apply list_fmap_eq_inj in Ht; [|apply _].
Qed.

(** C36: binding. Of two calls with one chunk width, below 2^62, equal digests reported
    at the same boundary identify the deployment, the salt, every token and every medium below the boundary,
    unless two of the strings that the two calls hashed collide under SHA-256. *)
Theorem prefix_digest_binding toks toks' dep dep' salt salt' c bs bs' fs fs' feats feats' res res' k d :
  c < 2 ^ 62 →
  prefix_digests toks dep salt c bs fs = Ok res →
  prefix_digests toks' dep' salt' c bs' fs' = Ok res' →
  validate_multimodal_features fs (VInt (Z.of_nat (length toks))) = Ok feats →
  validate_multimodal_features fs' (VInt (Z.of_nat (length toks'))) = Ok feats' →
  MkPrefixDigest k d ∈ res → MkPrefixDigest k d ∈ res' →
  (dep = dep' ∧ salt = salt' ∧ take (Z.to_nat k) toks = take (Z.to_nat k) toks' ∧
   active_features feats k = active_features feats' k) ∨
  collision (hash_inputs toks dep salt c bs fs ++ hash_inputs toks' dep' salt' c bs' fs').
Proof.
  intros Hc62.
  intros (tokens & req & features & i & Hc & -> & Hr & Hf & Hi & Hl & HI)%prefix_digests_Ok.
  intros (tokens' & req' & features' & i' & _ & -> & Hr' & Hf' & Hi' & Hl' & HI')%prefix_digests_Ok.
  rewrite !length_fmap, Hf, Hf', HI, HI'. intros [= <-] [= <-] Hd Hd'.
  match goal with |- _ ∨ collision ?l => set (L := l) end.
  destruct (digest_loop_binding c _ _ _ _ _ _ _ _ _ _ _ _ _ k d L (conj Hc Hc62)
    (sha256_length _) (sha256_length _) Hl Hl' Hd Hd') as [(Es & Et & Ea)|];
    [set_solver|set_solver| |by right].
  destruct (sha256_eq_or_collision i i' L) as [->|]; [set_solver|set_solver|done| |by right].
  destruct (initial_input_inj _ _ _ _ _ Hi Hi') as [-> ->]. left.
  rewrite Z.sub_0_r in Et. by rewrite <-!fmap_take, Et.
Qed.
End properties.

(** the reusable span is a common multiple of the alignment and the chunk
    width that leaves at least one prompt token to compute, respects both
    bounds, and is the largest such multiple unless that one is below the
    configured minimum. *)
Theorem aligned_prefix_span_spec p a c m mx span :
  aligned_prefix_span (VInt p) (VInt a) (VInt c) (VInt m) (Some (VInt mx)) = Ok span →
  0 < a → 0 < c → 1 < p → 0 ≤ mx →
  span = 0 ∨
  ((a | span) ∧ (c | span) ∧ m ≤ span ∧ span ≤ mx ∧ span ≤ p - 1 ∧
   ∀ s, (a | s) → (c | s) → s ≤ p - 1 → s ≤ mx → s ≤ span).
Proof.
  unfold aligned_prefix_span; cbn. intros Hs Ha Hc Hp Hmx.
  rewrite !(proj2 (Z.leb_gt _ _)) in Hs by lia. cbn in Hs.
  rewrite quantum_lcm in Hs by lia. pose proof (lcm_pos a c Ha Hc) as Hq.
  case_match eqn:E; injection Hs as <-; bsimp; [right|by left].
  set (q := Z.lcm a c) in *.
  assert (q | Z.min ((p - 1) / q * q) (mx / q * q)) as Hd.
  { destruct (Z.min_spec ((p - 1) / q * q) (mx / q * q)) as [[_ ->]|[_ ->]]; apply Z.divide_factor_r. }
  split; [etrans; [apply Z.divide_lcm_l|exact Hd]|].
  split; [etrans; [apply Z.divide_lcm_r|exact Hd]|].
  split; [done|]. split; [|split].
  - Z.to_euclidean_division_equations; nia.
  - Z.to_euclidean_division_equations; nia.
  - intros s Has Hcs Hs1 Hs2. destruct (Z.lcm_least _ _ _ Has Hcs) as [k ->]. fold q in Hs1, Hs2 |- *.
    apply Z.min_glb; apply Z.mul_le_mono_nonneg_r; try lia; apply Z.div_le_lower_bound; lia.
Qed.

(** ** Witnesses, evaluated with the executable SHA-256 *)
Module Examples.
#[local] Existing Instance sha256_fips.

Definition deployment : pystr := replicate 64 97.
Definition image (id : string) : raw_feature :=
  RawFeature (VStr (lit "image")) (VStr (lit id)) (VInt 1) (VInt 2).
Definition prompt1 : list pyval := VInt <$> [5; 6; 7; 8; 9].
Definition prompt2 : list pyval := VInt <$> [5; 6; 7; 8; 1; 2; 3].
Definition run (toks : list pyval) (bs : option (list pyval)) : list PrefixDigest :=
  match prefix_digests toks deployment (lit "salt") 2 bs (Some [image "cat"]) with
  | Ok ds => ds
  | Raise _ => []
  end.
Definition feats : list MultimodalFeatureIdentity := [Feature (lit "image") (lit "cat") 1 2].
Definition key4 : pystr := default [] (digest <$> run prompt1 None !! 1%nat).

Lemma key4_in_1 : MkPrefixDigest 4 key4 ∈ run prompt1 None.
Proof. apply list_elem_of_lookup. exists 1%nat. vm_compute. reflexivity. Defined.
Lemma key4_in_2 : MkPrefixDigest 4 key4 ∈ run prompt2 (Some [VInt 4]).
Proof. apply list_elem_of_lookup. exists 0%nat. vm_compute. reflexivity. Defined.

Lemma prefix_digests_boundaries_witness :
  span_tokens <$> run prompt1 None = filter (λ s, s ∈ [2; 4]) (chunk_multiples 2 5).
Proof.
  apply (prefix_digests_boundaries prompt1 deployment (lit "salt") 2 None (Some [image "cat"]));
    vm_compute; reflexivity.
Defined.

Lemma prefix_digest_shared_prefix_witness : key4 = key4.
Proof.
  apply (prefix_digest_shared_prefix prompt1 prompt2 deployment (lit "salt") 2 None
    (Some [VInt 4]) (Some [image "cat"]) (Some [image "cat"]) feats feats
    (run prompt1 None) (run prompt2 (Some [VInt 4])) 4);
    [vm_compute; reflexivity..|exact key4_in_1|exact key4_in_2].
Defined.

Lemma prefix_digest_binding_witness :
  (deployment = deployment ∧ lit "salt" = lit "salt" ∧
   take (Z.to_nat 4) prompt1 = take (Z.to_nat 4) prompt2 ∧
   active_features feats 4 = active_features feats 4) ∨
  collision (hash_inputs prompt1 deployment (lit "salt") 2 None (Some [image "cat"]) ++
             hash_inputs prompt2 deployment (lit "salt") 2 (Some [VInt 4]) (Some [image "cat"])).
Proof.
  apply (prefix_digest_binding prompt1 prompt2 deployment deployment (lit "salt") (lit "salt") 2
    None (Some [VInt 4]) (Some [image "cat"]) (Some [image "cat"]) feats feats
    (run prompt1 None) (run prompt2 (Some [VInt 4])) 4 key4);
    [lia|vm_compute; reflexivity..|exact key4_in_1|exact key4_in_2].
Defined.

Lemma aligned_prefix_span_spec_witness :
  aligned_prefix_span (VInt 1000) (VInt 6) (VInt 4) (VInt 12) (Some (VInt 500)) = Ok 492 ∧
  ((492 = 0) ∨ ((6 | 492) ∧ (4 | 492) ∧ 12 ≤ 492 ∧ 492 ≤ 500 ∧ 492 ≤ 1000 - 1 ∧
    ∀ s, (6 | s) → (4 | s) → s ≤ 1000 - 1 → s ≤ 500 → s ≤ 492)).
Proof.
  split; [reflexivity|].
  apply (aligned_prefix_span_spec 1000 6 4 12 500 492); [reflexivity|lia..].
Defined.
End Examples.
