(* ===== verification/Telemetry.v ===== *)
(** * Bounded telemetry ([src/spoolcache/telemetry.py])

    The finite metric vocabulary, the number validation, one role's delta buffer
    [TelemetryBuffer] and the payload codec: [drain] renders a buffer as a plain
    JSON-like payload, [_decode_records] validates one, [merge_metric_payloads]
    accumulates several.  A Python number is an [int] or a binary64 [float];
    float addition and the conversion of an integer round to nearest even, as in
    the Standard Library's specification of IEEE 754 arithmetic. *)
From Stdlib Require Import Floats.SpecFloat.
From S2P Require Import Prelude Dict.

Definition METRIC_PAYLOAD_SCHEMA : pystr := lit "spoolcache-metrics/v1".
Definition MAX_HISTOGRAM_OBSERVATIONS : Z := 4096.
Definition MAX_METRIC_RECORDS : Z := 4096.
Definition MAX_METRIC_VALUE : Z := Z.shiftl 1 63 - 1.

(** ** Numbers *)
Inductive num := NInt (z : Z) | NFloat (f : spec_float).

Definition float_of_int (z : Z) : spec_float := binary_normalize 53 1024 z 0 false.

(** [a + b]: exact on two integers, binary64 as soon as one operand is a float. *)
Definition num_add (a b : num) : num :=
  match a, b with
  | NInt x, NInt y => NInt (x + y)
  | NInt x, NFloat g => NFloat (SFadd 53 1024 (float_of_int x) g)
  | NFloat f, NInt y => NFloat (SFadd 53 1024 f (float_of_int y))
  | NFloat f, NFloat g => NFloat (SFadd 53 1024 f g)
  end.

(** [math.isfinite(f)] and [f < 0] *)
Definition float_is_finite (f : spec_float) : bool :=
  match f with S754_zero _ | S754_finite _ _ _ => true | _ => false end.

Definition float_negative (f : spec_float) : bool :=
  match f with S754_finite true _ _ | S754_infinity true => true | _ => false end.

(** [f > bound] for a non-negative integer bound: Python compares exactly. *)
Definition float_above (f : spec_float) (bound : Z) : bool :=
  match f with
  | S754_infinity s => negb s
  | S754_finite false m e =>
      if 0 <=? e then bound <? Z.shiftl (Zpos m) e else Z.shiftl bound (- e) <? Zpos m
  | _ => false
  end.

Definition invalid_number (n : num) : bool :=
  match n with
  | NInt z => (z <? 0) || (MAX_METRIC_VALUE <? z)
  | NFloat f => negb (float_is_finite f) || float_negative f || float_above f MAX_METRIC_VALUE
  end.

(** ** The values of a payload: the Python objects the codec inspects *)
Inductive mval :=
  | MNone
  | MBool (b : bool)
  | MNum (n : num)
  | MStr (s : pystr)
  | MList (l : list mval)
  | MMap (l : list (mval * mval))
  | MObj.

Definition as_mstr (v : mval) : option pystr := match v with MStr s => Some s | _ => None end.

(** [raw\[key\]] on a mapping. *)
Fixpoint map_get (key : pystr) (l : list (mval * mval)) : option mval :=
  match l with
  | [] => None
  | (MStr k, v) :: l => if decide (k = key) then Some v else map_get key l
  | _ :: l => map_get key l
  end.

(** [set(raw) == expected] *)
Definition keys_are (expected : list pystr) (l : list (mval * mval)) : bool :=
  forallb (λ p, match as_mstr p.1 with Some s => bool_decide (s ∈ expected) | None => false end) l
  && forallb (λ k, match map_get k l with Some _ => true | None => false end) expected.

Definition _validate_number (value : mval) (label : string) : result num :=
  match value with
  | MNum n =>
      if invalid_number n
      then raise ValueError (String.append label " must be a finite non-negative number") else Ok n
  | _ => raise ValueError (String.append label " must be a finite non-negative number")
  end.

(** ** Metric definitions *)
Inductive MetricKind := KCounter | KGauge | KHistogram.
#[export] Instance MetricKind_eq_dec : EqDecision MetricKind.
Proof. solve_decision. Defined.

Definition kind_value (k : MetricKind) : pystr :=
  match k with
  | KCounter => lit "counters" | KGauge => lit "gauges" | KHistogram => lit "histograms"
  end.

Record MetricDefinition := MkMetric {
  md_kind : MetricKind;
  documentation : pystr;
  label_names : list pystr;
  allowed_labels : list (list pystr);
  gauge_aggregation : pystr;
  buckets : list spec_float
}.

(** [tuple(sorted(set(buckets))) == buckets] for finite buckets. *)
Fixpoint strictly_increasing (l : list spec_float) : bool :=
  match l with
  | a :: (b :: _) as l => SFltb a b && strictly_increasing l
  | _ => true
  end.

Definition float_positive (f : spec_float) : bool :=
  match f with S754_finite false _ _ | S754_infinity false => true | _ => false end.

Definition metric_post_init (d : MetricDefinition) : result unit :=
  _ ← raise_if (bool_decide (documentation d = [])) ValueError "metric documentation cannot be empty";
  _ ← raise_if (bool_decide (allowed_labels d = [])) ValueError
        "metric label vocabulary cannot be empty";
  _ ← raise_if (existsb (λ ls, negb (length ls =? length (label_names d))%nat) (allowed_labels d))
        ValueError "metric label tuples do not match label names";
  _ ← raise_if (negb (bool_decide (NoDup (allowed_labels d)))) ValueError
        "metric label vocabulary contains duplicates";
  _ ← (if bool_decide (md_kind d = KGauge)
       then raise_if (negb (bool_decide (gauge_aggregation d ∈ [lit "max"; lit "sum"]))) ValueError
              "gauge aggregation is unsupported"
       else raise_if (negb (bool_decide (gauge_aggregation d = lit "max"))) ValueError
              "only gauges can select an aggregation");
  if bool_decide (md_kind d = KHistogram)
  then raise_if (bool_decide (buckets d = []) || negb (strictly_increasing (buckets d))
                 || existsb (λ f, negb (float_is_finite f) || negb (float_positive f)) (buckets d))
         ValueError "histogram buckets must be finite and increasing"
  else raise_if (negb (bool_decide (buckets d = []))) ValueError "only histograms can declare buckets".

Definition LOOKUP_LABELS : list (list pystr) :=
  [[lit "hit"; lit "ready_entry"]; [lit "bypass"; lit "request_skip_read"];
   [lit "miss"; lit "catalog_unavailable"]; [lit "miss"; lit "cache_salt"];
   [lit "miss"; lit "request_shape"]; [lit "miss"; lit "multimodal_identity"];
   [lit "miss"; lit "safe_span"]; [lit "miss"; lit "rank_quorum"];
   [lit "miss"; lit "restore_budget"]].

(** The binary64 values of 0.001, 0.005, 0.01, 0.025, 0.05, 0.1, 0.25, 0.5, 1.0,
    2.5, 5.0, 10.0, 30.0, 60.0 and 120.0 *)
Definition SECONDS_BUCKETS : list spec_float :=
  (λ p : positive * Z, S754_finite false p.1 p.2) <$>
  [(4611686018427388%positive, -62); (5764607523034235%positive, -60);
   (5764607523034235%positive, -59); (7205759403792794%positive, -58);
   (7205759403792794%positive, -57); (7205759403792794%positive, -56);
   (4503599627370496%positive, -54); (4503599627370496%positive, -53);
   (4503599627370496%positive, -52); (5629499534213120%positive, -51);
   (5629499534213120%positive, -50); (5629499534213120%positive, -49);
   (8444249301319680%positive, -48); (8444249301319680%positive, -47);
   (8444249301319680%positive, -46)].

Definition METRIC_DEFINITIONS : list (pystr * MetricDefinition) :=
  [(lit "spoolcache_lookup_total",
    MkMetric KCounter (lit "SpoolCache scheduler lookup attempts by bounded outcome and reason.")
      [lit "result"; lit "reason"]
      LOOKUP_LABELS
      (lit "max") []);
   (lit "spoolcache_hit_tokens_total",
    MkMetric KCounter (lit "Prompt tokens admitted for a SpoolCache external restore.")
      []
      [[]]
      (lit "max") []);
   (lit "spoolcache_restore_bytes_total",
    MkMetric KCounter (lit "Logical KV bytes restored from rank-local storage.")
      []
      [[]]
      (lit "max") []);
   (lit "spoolcache_restore_seconds",
    MkMetric KHistogram (lit "Synchronous authenticated rank-local restore duration.")
      []
      [[]]
      (lit "max") SECONDS_BUCKETS);
   (lit "spoolcache_store_bytes_total",
    MkMetric KCounter (lit "Logical KV bytes durably stored in rank-local storage.")
      []
      [[]]
      (lit "max") []);
   (lit "spoolcache_store_seconds",
    MkMetric KHistogram (lit "Synchronous durable rank-local store duration.")
      []
      [[]]
      (lit "max") SECONDS_BUCKETS);
   (lit "spoolcache_store_skipped_total",
    MkMetric KCounter (lit "Optional stores skipped by a bounded reason.")
      [lit "reason"]
      [[lit "duplicate"]; [lit "budget"]; [lit "busy"]; [lit "unsafe_boundary"]; [lit "error"]]
      (lit "max") []);
   (lit "spoolcache_post_admission_failure_total",
    MkMetric KCounter (lit "Fatal restore failures after scheduler admission.")
      [lit "phase"]
      [[lit "lookup"]; [lit "span"]; [lit "manifest"]; [lit "payload"]; [lit "unknown"]]
      (lit "max") []);
   (lit "spoolcache_rank_quorum_entries",
    MkMetric KGauge (lit "Entries currently offered by every required physical rank.")
      []
      [[]]
      (lit "max") []);
   (lit "spoolcache_rank_generation_changes_total",
    MkMetric KCounter (lit "Observed worker generation replacements after initial handshake.")
      []
      [[]]
      (lit "max") []);
   (lit "spoolcache_pinned_pool_bytes",
    MkMetric KGauge (lit "Configured pinned staging bytes across reporting physical ranks.")
      []
      [[]]
      (lit "sum") []);
   (lit "spoolcache_delayed_store_requests",
    MkMetric KGauge (lit "Requests waiting to reach a safe synchronous store boundary.")
      []
      [[]]
      (lit "max") []);
   (lit "spoolcache_disk_bytes",
    MkMetric KGauge (lit "Manifest and immutable-object bytes across reporting rank roots.")
      []
      [[]]
      (lit "sum") []);
   (lit "spoolcache_managed_disk_bytes",
    MkMetric KGauge (lit "All regular-file bytes owned by reporting rank-local cache roots.")
      []
      [[]]
      (lit "sum") []);
   (lit "spoolcache_quarantine_bytes",
    MkMetric KGauge (lit "Quarantined evidence bytes retained across reporting rank roots.")
      []
      [[]]
      (lit "sum") []);
   (lit "spoolcache_quarantined_entries_total",
    MkMetric KCounter (lit "Corrupt manifests or immutable objects quarantined by bounded reason.")
      [lit "reason"]
            [[lit "manifest_io"]; [lit "manifest_validation"]; [lit "object_collision"]; [lit
        "payload_checksum"]; [lit "payload_size"]; [lit "unknown"]]
      (lit "max") []);
   (lit "spoolcache_scrub_payload_bytes_total",
    MkMetric KCounter (lit "Stored payload bytes authenticated by rank-local deep scrub.")
      []
      [[]]
      (lit "max") []);
   (lit "spoolcache_scrub_objects_total",
    MkMetric KCounter (lit "Immutable objects authenticated by rank-local deep scrub.")
      []
      [[]]
      (lit "max") []);
   (lit "spoolcache_scrub_manifests_total",
    MkMetric KCounter (lit "Rank manifests fully authenticated by rank-local deep scrub.")
      []
      [[]]
      (lit "max") []);
   (lit "spoolcache_scrub_cycles_total",
    MkMetric KCounter (lit "Complete resumable rank-local deep scrub cycles.")
      []
      [[]]
      (lit "max") []);
   (lit "spoolcache_scrub_objects_quarantined_total",
    MkMetric KCounter (lit "Corrupt or unrecognized managed objects moved to quarantine by scrub.")
      []
      [[]]
      (lit "max") []);
   (lit "spoolcache_scrub_failures_total",
    MkMetric KCounter (lit "Unexpected scheduled deep scrub step failures.")
      []
      [[]]
      (lit "max") []);
   (lit "spoolcache_scrub_namespace_items_total",
    MkMetric KCounter (lit "Managed namespace entries examined by incremental deep scrub snapshots.")
      []
      [[]]
      (lit "max") []);
   (lit "spoolcache_scrub_shutdown_failures_total",
    MkMetric KCounter (lit "Scheduled deep scrub shutdowns that exceeded the fixed join timeout.")
      []
      [[]]
      (lit "max") []);
   (lit "spoolcache_orphan_objects_removed_total",
    MkMetric KCounter (lit "Unreferenced immutable objects removed after a complete manifest pass.")
      []
      [[]]
      (lit "max") []);
   (lit "spoolcache_orphan_bytes_removed_total",
    MkMetric KCounter (lit "Unreferenced immutable-object bytes reclaimed by deep scrub.")
      []
      [[]]
      (lit "max") []);
   (lit "spoolcache_temporary_files_removed_total",
    MkMetric KCounter (lit "Abandoned publication temporary files removed by deep scrub.")
      []
      [[]]
      (lit "max") []);
   (lit "spoolcache_required_ranks",
    MkMetric KGauge (lit "Physical ranks required by the scheduler topology.")
      []
      [[]]
      (lit "max") []);
   (lit "spoolcache_ready_ranks",
    MkMetric KGauge (lit "Physical ranks with a current synchronized inventory generation.")
      []
      [[]]
      (lit "max") []);
   (lit "spoolcache_readiness",
    MkMetric KGauge (lit "Boolean SpoolCache scheduler readiness conditions.")
      [lit "condition"]
      [[lit "rank_identity"]; [lit "inventory_quorum"]; [lit "fatal_clear"]]
      (lit "max") []);
   (lit "spoolcache_telemetry_dropped_total",
    MkMetric KCounter (lit "Telemetry observations dropped to preserve a fixed memory bound.")
      [lit "kind"]
      [[lit "histogram"]]
      (lit "max") [])].


(** ** Validation of one metric reference *)
Abbreviation metric_key := (pystr * list pystr)%type.

(** [isinstance(value, str)] for every label *)
Definition label_strings (labels : list mval) : option (list pystr) := mapM as_mstr labels.

Definition _validate_metric (name : mval) (labels : list mval) (kind : MetricKind)
    : result (metric_key * MetricDefinition) :=
  match as_mstr name with
  | None => raise ValueError "unknown SpoolCache metric"
  | Some s =>
      match od_get s METRIC_DEFINITIONS with
      | None => raise ValueError "unknown SpoolCache metric"
      | Some definition =>
          _ ← raise_if (negb (bool_decide (md_kind definition = kind))) TypeError
                "the metric is not of the requested kind";
          match label_strings labels with
          | None => raise TypeError "metric labels must be strings"
          | Some materialized =>
              _ ← raise_if (negb (bool_decide (materialized ∈ allowed_labels definition))) ValueError
                    "metric labels are outside the bounded vocabulary";
              Ok ((s, materialized), definition)
          end
      end
  end.

(** [_SOURCE_RE]: [scheduler], or [rank:] and a canonical decimal number. *)
Definition is_digit (c : Z) : bool := (48 <=? c) && (c <=? 57).

Definition canonical_decimal (s : pystr) : bool :=
  match s with
  | [] => false
  | c :: rest =>
      if c =? 48 then bool_decide (rest = [])
      else is_digit c && forallb is_digit rest
  end.

Definition source_matches (s : pystr) : bool :=
  bool_decide (s = lit "scheduler")
  || (bool_decide (take 5 s = lit "rank:") && canonical_decimal (drop 5 s)).

Definition _validate_source (source : mval) : result pystr :=
  match as_mstr source with
  | Some s =>
      if (32 <? Z.of_nat (length s)) || negb (source_matches s)
      then raise ValueError "metric source must be scheduler or a physical rank" else Ok s
  | None => raise ValueError "metric source must be scheduler or a physical rank"
  end.

(** ** One role's buffer *)
Record TelemetryBuffer := Buffer {
  tb_source : pystr;
  tb_counters : gmap metric_key num;
  tb_gauges : gmap metric_key num;
  tb_histograms : gmap metric_key (list num)
}.

Definition telemetry_init (source : mval) : result TelemetryBuffer :=
  s ← _validate_source source; Ok (Buffer s ∅ ∅ ∅).

Definition set_counters (m : gmap metric_key num) (b : TelemetryBuffer) : TelemetryBuffer :=
  Buffer (tb_source b) m (tb_gauges b) (tb_histograms b).
Definition set_gauges (m : gmap metric_key num) (b : TelemetryBuffer) : TelemetryBuffer :=
  Buffer (tb_source b) (tb_counters b) m (tb_histograms b).
Definition set_histograms (m : gmap metric_key (list num)) (b : TelemetryBuffer) : TelemetryBuffer :=
  Buffer (tb_source b) (tb_counters b) (tb_gauges b) m.

Definition increment (name value : mval) (labels : list mval) : SE TelemetryBuffer unit := λ b,
  match
    (kd ← _validate_metric name labels KCounter;
     amount ← _validate_number value "counter increment";
     total ← _validate_number (MNum (num_add (default (NInt 0) (tb_counters b !! kd.1)) amount))
               "counter total";
     Ok (kd.1, total))
  with
  | Ok (key, total) => (Ok tt, set_counters (<[key := total]> (tb_counters b)) b)
  | Raise e => (Raise e, b)
  end.

Definition set_gauge (name value : mval) (labels : list mval) : SE TelemetryBuffer unit := λ b,
  match
    (kd ← _validate_metric name labels KGauge;
     v ← _validate_number value "gauge value"; Ok (kd.1, v))
  with
  | Ok (key, v) => (Ok tt, set_gauges (<[key := v]> (tb_gauges b)) b)
  | Raise e => (Raise e, b)
  end.

(** The observation that would exceed the bound is counted as dropped instead. *)
Definition observe (name value : mval) (labels : list mval) : SE TelemetryBuffer unit := λ b,
  match
    (kd ← _validate_metric name labels KHistogram;
     v ← _validate_number value "histogram observation"; Ok (kd.1, v))
  with
  | Ok (key, v) =>
      let values := default [] (tb_histograms b !! key) in
      let b := set_histograms (<[key := values]> (tb_histograms b)) b in
      if MAX_HISTOGRAM_OBSERVATIONS <=? Z.of_nat (length values)
      then increment (MStr (lit "spoolcache_telemetry_dropped_total")) (MNum (NInt 1))
             [MStr (lit "histogram")] b
      else (Ok tt, set_histograms (<[key := values ++ [v]]> (tb_histograms b)) b)
  | Raise e => (Raise e, b)
  end.

(** ** Payloads *)

(** Lists of strings and the keys of the buffers, in the order of [sorted]. *)
Fixpoint strs_leb (a b : list pystr) : bool :=
  match a, b with
  | [], _ => true
  | _ :: _, [] => false
  | x :: a, y :: b => if decide (x = y) then strs_leb a b else str_leb x y
  end.

Definition key_leb (a b : metric_key) : bool :=
  if decide (a.1 = b.1) then strs_leb a.2 b.2 else str_leb a.1 b.1.
Definition item_le {V} (a b : metric_key * V) : Prop := key_leb a.1 b.1 = true.
#[export] Instance item_le_dec {V} : RelDecision (@item_le V).
Proof. intros a b. unfold item_le. apply _. Defined.

(** [sorted(d.items())]: the keys are distinct, so the values never decide. *)
Definition sorted_bindings {V} (m : gmap metric_key V) : list (metric_key * V) :=
  merge_sort item_le (map_to_list m).

Definition gauge_key_leb (a b : metric_key * pystr) : bool :=
  if decide (a.1 = b.1) then str_leb a.2 b.2 else key_leb a.1 b.1.
Definition gauge_item_le (a b : metric_key * pystr * num) : Prop := gauge_key_leb a.1 b.1 = true.
#[export] Instance gauge_item_le_dec : RelDecision gauge_item_le.
Proof. intros a b. unfold gauge_item_le. apply _. Defined.

Definition labels_val (labels : list pystr) : mval := MList (MStr <$> labels).

Definition counter_val (p : metric_key * num) : mval :=
  MMap [(MStr (lit "name"), MStr p.1.1); (MStr (lit "labels"), labels_val p.1.2);
        (MStr (lit "value"), MNum p.2)].
Definition gauge_val (p : metric_key * pystr * num) : mval :=
  MMap [(MStr (lit "name"), MStr p.1.1.1); (MStr (lit "labels"), labels_val p.1.1.2);
        (MStr (lit "source"), MStr p.1.2); (MStr (lit "value"), MNum p.2)].
Definition histogram_val (p : metric_key * list num) : mval :=
  MMap [(MStr (lit "name"), MStr p.1.1); (MStr (lit "labels"), labels_val p.1.2);
        (MStr (lit "values"), MList (MNum <$> p.2))].

(** The payload with the given record lists, in the order of the literal. *)
Definition payload_of (counters gauges histograms : list mval) : list (mval * mval) :=
  [(MStr (lit "schema"), MStr METRIC_PAYLOAD_SCHEMA);
   (MStr (kind_value KCounter), MList counters);
   (MStr (kind_value KGauge), MList gauges);
   (MStr (kind_value KHistogram), MList histograms)].

Definition empty_metric_payload : mval := MMap (payload_of [] [] []).

Definition drain (b : TelemetryBuffer) : mval * TelemetryBuffer :=
  (MMap (payload_of
     (counter_val <$> sorted_bindings (tb_counters b))
     ((λ p, gauge_val (p.1, tb_source b, p.2)) <$> sorted_bindings (tb_gauges b))
     (histogram_val <$> sorted_bindings (tb_histograms b))),
   Buffer (tb_source b) ∅ (tb_gauges b) ∅).

Record MetricRecord := MkRecord {
  mr_name : pystr;
  mr_labels : list pystr;
  mr_value : option num;
  mr_values : list num;
  mr_source : option pystr
}.

Definition mr_key (r : MetricRecord) : metric_key := (mr_name r, mr_labels r).

Definition expected_keys (kind : MetricKind) : list pystr :=
  [lit "name"; lit "labels"]
  ++ (match kind with KHistogram => [lit "values"] | _ => [lit "value"] end)
  ++ (match kind with KGauge => [lit "source"] | _ => [] end).

(** One record: its fields, and the key under which it must be unique. *)
Definition decode_record (kind : MetricKind) (raw : mval)
    (seen : gset (metric_key * option pystr)) : result MetricRecord :=
  match raw with
  | MMap fields =>
      _ ← raise_if (negb (keys_are (expected_keys kind) fields)) ValueError
            "metric record fields differ from the schema";
      let field k := default MNone (map_get k fields) in
      match field (lit "labels") with
      | MList labels =>
          kd ← _validate_metric (field (lit "name")) labels kind;
          source ← match kind with
                   | KGauge => s ← _validate_source (field (lit "source")); Ok (Some s)
                   | _ => Ok None
                   end;
          _ ← raise_if (bool_decide ((kd.1, source) ∈ seen)) ValueError
                "metric payload contains duplicate records";
          match kind with
          | KHistogram =>
              match field (lit "values") with
              | MList values =>
                  _ ← raise_if (MAX_HISTOGRAM_OBSERVATIONS <? Z.of_nat (length values)) ValueError
                        "histogram observations exceed the fixed bound";
                  vs ← mapM_result (λ v, _validate_number v "histogram observation") values;
                  Ok (MkRecord kd.1.1 kd.1.2 None vs None)
              | _ => raise ValueError "histogram values must be a list"
              end
          | KGauge =>
              v ← _validate_number (field (lit "value")) "gauge value";
              Ok (MkRecord kd.1.1 kd.1.2 (Some v) [] source)
          | KCounter =>
              v ← _validate_number (field (lit "value")) "counter value";
              Ok (MkRecord kd.1.1 kd.1.2 (Some v) [] source)
          end
      | _ => raise ValueError "metric record labels must be a list"
      end
  | _ => raise ValueError "metric record must be a mapping"
  end.

Fixpoint decode_all (kind : MetricKind) (raws : list mval) (seen : gset (metric_key * option pystr))
    : result (list MetricRecord) :=
  match raws with
  | [] => Ok []
  | raw :: raws =>
      r ← decode_record kind raw seen;
      rs ← decode_all kind raws ({[(mr_key r, mr_source r)]} ∪ seen);
      Ok (r :: rs)
  end.

(** [_decode_records] on the items of a mapping. *)
Definition _decode_records (payload : list (mval * mval)) (kind : MetricKind)
    : result (list MetricRecord) :=
  match map_get (kind_value kind) payload with
  | Some (MList raws) =>
      _ ← raise_if (MAX_METRIC_RECORDS <? Z.of_nat (length raws)) ValueError
            "metric payload record count exceeds the fixed bound";
      decode_all kind raws ∅
  | _ => raise ValueError "metric payload section must be a list"
  end.

(** The items of a payload that passed [validate_metric_payload]. *)
Definition validate_metric_payload (payload : mval) : result (list (mval * mval)) :=
  match payload with
  | MMap items =>
      _ ← raise_if (negb (keys_are [lit "schema"; kind_value KCounter; kind_value KGauge;
                                    kind_value KHistogram] items)) ValueError
            "metric payload fields differ from the schema";
      _ ← raise_if (negb (match map_get (lit "schema") items with
                          | Some (MStr s) => bool_decide (s = METRIC_PAYLOAD_SCHEMA)
                          | _ => false
                          end)) ValueError "metric payload schema is unsupported";
      _ ← _decode_records items KCounter;
      _ ← _decode_records items KGauge;
      _ ← _decode_records items KHistogram;
      Ok items
  | _ => raise ValueError "metric payload must be a mapping"
  end.

Definition iter_metric_records (payload : mval) (kind : MetricKind) : result (list MetricRecord) :=
  items ← validate_metric_payload payload; _decode_records items kind.

(** [not any(payload\[kind\] for kind in MetricKind)] *)
Definition metric_payload_is_empty (payload : mval) : result bool :=
  items ← validate_metric_payload payload;
  Ok (forallb (λ k, match map_get (kind_value k) items with Some (MList []) => true | _ => false end)
        [KCounter; KGauge; KHistogram]).

(** ** Aggregation *)
Record merge_state := MergeState {
  mg_counters : gmap metric_key num;
  mg_gauges : gmap (metric_key * pystr) num;
  mg_histograms : gmap metric_key (list num);
  mg_overflow : Z
}.

Fixpoint fold_result {A S} (f : S → A → result S) (s : S) (l : list A) : result S :=
  match l with
  | [] => Ok s
  | x :: l => s ← f s x; fold_result f s l
  end.

Definition merge_counter (c : gmap metric_key num) (r : MetricRecord) : result (gmap metric_key num) :=
  v ← _validate_number
        (MNum (num_add (default (NInt 0) (c !! mr_key r)) (default (NInt 0) (mr_value r))))
        "merged counter total";
  Ok (<[mr_key r := v]> c).

Definition merge_gauge (g : gmap (metric_key * pystr) num) (r : MetricRecord)
    : gmap (metric_key * pystr) num :=
  <[(mr_key r, default [] (mr_source r)) := default (NInt 0) (mr_value r)]> g.

Definition merge_histogram (ho : gmap metric_key (list num) * Z) (r : MetricRecord)
    : gmap metric_key (list num) * Z :=
  let values := default [] (ho.1 !! mr_key r) in
  let remaining := MAX_HISTOGRAM_OBSERVATIONS - Z.of_nat (length values) in
  (<[mr_key r := values ++ take (Z.to_nat remaining) (mr_values r)]> ho.1,
   ho.2 + Z.max 0 (Z.of_nat (length (mr_values r)) - remaining)).

Definition merge_payload (m : merge_state) (payload : mval) : result merge_state :=
  items ← validate_metric_payload payload;
  cs ← _decode_records items KCounter;
  counters ← fold_result merge_counter (mg_counters m) cs;
  gs ← _decode_records items KGauge;
  hs ← _decode_records items KHistogram;
  let ho := foldl merge_histogram (mg_histograms m, mg_overflow m) hs in
  Ok (MergeState counters (foldl merge_gauge (mg_gauges m) gs) ho.1 ho.2).

Definition dropped_key : metric_key :=
  (lit "spoolcache_telemetry_dropped_total", [lit "histogram"]).

(** The dropped observations join the counter of dropped observations. *)
Definition count_overflow (m : merge_state) : result (gmap metric_key num) :=
  if mg_overflow m =? 0 then Ok (mg_counters m)
  else
    v ← _validate_number
          (MNum (num_add (default (NInt 0) (mg_counters m !! dropped_key)) (NInt (mg_overflow m))))
          "merged dropped-observation total";
    Ok (<[dropped_key := v]> (mg_counters m)).

Definition merged_payload (counters : gmap metric_key num) (m : merge_state) : mval :=
  MMap (payload_of
    (counter_val <$> sorted_bindings counters)
    (gauge_val <$> merge_sort gauge_item_le (map_to_list (mg_gauges m)))
    (histogram_val <$> sorted_bindings (mg_histograms m))).

Definition merge_metric_payloads (payloads : list mval) : result mval :=
  m ← fold_result merge_payload (MergeState ∅ ∅ ∅ 0) payloads;
  counters ← count_overflow m;
  let merged := merged_payload counters m in
  _ ← validate_metric_payload merged;
  Ok merged.
