(* ===== verification/TelemetryProps.v ===== *)
(** * What the telemetry codec promises

    Every buffer reached by its operations stays inside the vocabulary and the
    bounds, so the payload it drains decodes to exactly its contents; merging
    payloads loses nothing silently. *)
From Stdlib Require Import Floats.SpecFloat.
From S2P Require Import Prelude Dict Telemetry.

(** ** The vocabulary *)
Lemma metric_definitions_valid :
  Forall (λ p, metric_post_init p.2 = Ok tt) METRIC_DEFINITIONS ∧ NoDup METRIC_DEFINITIONS.*1.
Proof.
  split.
  - apply Forall_forall. intros p Hp.
    assert (Hall : forallb (λ p, is_ok (metric_post_init p.2)) METRIC_DEFINITIONS = true)
      by (vm_compute; reflexivity).
    rewrite forallb_forall in Hall. apply list_elem_of_In, Hall in Hp.
    by destruct (metric_post_init p.2) as [[]|].
  - apply (bool_decide_unpack _). vm_compute. reflexivity.
Qed.

Definition key_known (kind : MetricKind) (k : metric_key) : Prop :=
  ∃ d, _validate_metric (MStr k.1) (MStr <$> k.2) kind = Ok (k, d).

Lemma label_strings_MStr ls : label_strings (MStr <$> ls) = Some ls.
Proof.
  unfold label_strings. induction ls as [|x ls IH]; [done|].
  cbn in *. by rewrite IH.
Qed.

Lemma label_strings_Some labels ls : label_strings labels = Some ls → labels = MStr <$> ls.
Proof.
  unfold label_strings. rewrite mapM_Some. induction 1 as [|v s vs ss Hv _ IH]; [done|].
  rewrite fmap_cons, <-IH. destruct v; naive_solver.
Qed.

Lemma validate_metric_known name labels kind k d :
  _validate_metric name labels kind = Ok (k, d) →
  key_known kind k ∧ name = MStr k.1 ∧ labels = MStr <$> k.2.
Proof.
  intros Hv. pose proof Hv as Hv'. unfold _validate_metric in Hv'.
  destruct name as [| | |s| | |]; cbn [as_mstr] in Hv'; try done.
  destruct (od_get s METRIC_DEFINITIONS) as [def|] eqn:Ed; [|done].
  apply result_bind_Ok in Hv' as (u & Hk & Hv').
  destruct (label_strings labels) as [ls|] eqn:El; [|done].
  apply result_bind_Ok in Hv' as (u' & Ha & Hv'). apply Ok_inj in Hv'. injection Hv' as <- <-.
  apply label_strings_Some in El as ->. cbn. split; [|done]. exists def. exact Hv.
Qed.

Definition vocabulary (kind : MetricKind) : list metric_key :=
  METRIC_DEFINITIONS ≫= λ p, if decide (md_kind p.2 = kind) then (p.1,.) <$> allowed_labels p.2 else [].

Lemma key_known_vocabulary kind k : key_known kind k → k ∈ vocabulary kind.
Proof.
  intros [d Hd]. unfold _validate_metric in Hd. cbn [as_mstr] in Hd.
  destruct (od_get k.1 METRIC_DEFINITIONS) as [def|] eqn:Ed; [|done].
  apply result_bind_Ok in Hd as (u & Hk & Hd). apply raise_if_Ok in Hk. bsimp.
  rewrite label_strings_MStr in Hd. apply result_bind_Ok in Hd as (u' & Ha & Hd).
  apply raise_if_Ok in Ha. bsimp.
  apply od_get_elem in Ed; [|apply metric_definitions_valid].
  apply list_elem_of_bind. exists (k.1, def). split; [|exact Ed]. cbn.
  rewrite decide_True by done. apply list_elem_of_fmap. exists k.2. by destruct k.
Qed.

Lemma vocabulary_bound kind : (length (vocabulary kind) ≤ 4096)%nat.
Proof. destruct kind; apply Nat.leb_le; vm_compute; reflexivity. Qed.

(** A map over known keys is small. *)
Lemma known_size {V} (kind : MetricKind) (m : gmap metric_key V) :
  map_Forall (λ k _, key_known kind k) m → (size m ≤ 4096)%nat.
Proof.
  intros Hm. etrans; [|apply (vocabulary_bound kind)].
  rewrite <-length_map_to_list, <-(length_fmap fst).
  apply submseteq_length, NoDup_submseteq; [apply NoDup_fst_map_to_list|].
  intros k Hk. apply key_known_vocabulary.
  apply list_elem_of_fmap in Hk as ([k' v] & -> & Hk). apply elem_of_map_to_list in Hk.
  by apply (Hm k' v).
Qed.

(** ** The buffer's invariant *)
Definition histogram_ok (vs : list num) : Prop :=
  (length vs ≤ 4096)%nat ∧ Forall (λ v, invalid_number v = false) vs.

Record buffer_ok (b : TelemetryBuffer) : Prop := {
  bo_source : _validate_source (MStr (tb_source b)) = Ok (tb_source b);
  bo_counters : map_Forall (λ k v, key_known KCounter k ∧ invalid_number v = false) (tb_counters b);
  bo_gauges : map_Forall (λ k v, key_known KGauge k ∧ invalid_number v = false) (tb_gauges b);
  bo_histograms : map_Forall (λ k vs, key_known KHistogram k ∧ histogram_ok vs) (tb_histograms b)
}.

Lemma validate_number_Ok v label n :
  _validate_number v label = Ok n ↔ v = MNum n ∧ invalid_number n = false.
Proof.
  unfold _validate_number, raise. destruct v as [| |n'| | | |]; try (split; [done|by intros [[=] _]]).
  destruct (invalid_number n') eqn:E; split; try done.
  - intros [[= ->] ?]. congruence.
  - by intros [= ->].
  - by intros [[= ->] _].
Qed.

Lemma validate_source_Ok v s :
  _validate_source v = Ok s → v = MStr s ∧ _validate_source (MStr s) = Ok s.
Proof.
  unfold _validate_source. destruct v as [| | |s'| | |]; cbn [as_mstr]; try done.
  case_match eqn:E; [done|]. intros [= <-]. by rewrite E.
Qed.

Lemma telemetry_init_ok v b : telemetry_init v = Ok b → buffer_ok b.
Proof.
  unfold telemetry_init. intros Hb. apply result_bind_Ok in Hb as (s & [_ Hs]%validate_source_Ok & Hb).
  apply Ok_inj in Hb as <-. by constructor; cbn; [|apply map_Forall_empty..].
Qed.

Lemma increment_ok name v labels b : buffer_ok b → buffer_ok (increment name v labels b).2.
Proof.
  intros Hb. unfold increment. case_match eqn:E; [|done]. case_match. cbn.
  apply result_bind_Ok in E as ([k d] & [Hk _]%validate_metric_known & E).
  apply result_bind_Ok in E as (am & _ & E). apply result_bind_Ok in E as (t & Ht & E).
  apply validate_number_Ok in Ht as [_ Ht]. apply Ok_inj in E. cbn in E. injection E as <- <-.
  destruct Hb. constructor; cbn; try done.
  apply map_Forall_insert_2; [|done]. by split.
Qed.

Lemma set_gauge_ok name v labels b : buffer_ok b → buffer_ok (set_gauge name v labels b).2.
Proof.
  intros Hb. unfold set_gauge. case_match eqn:E; [|done]. case_match. cbn.
  apply result_bind_Ok in E as ([k d] & [Hk _]%validate_metric_known & E).
  apply result_bind_Ok in E as (t & Ht & E).
  apply validate_number_Ok in Ht as [_ Ht]. apply Ok_inj in E. cbn in E. injection E as <- <-.
  destruct Hb. constructor; cbn; try done.
  apply map_Forall_insert_2; [|done]. by split.
Qed.

Lemma observe_ok name v labels b : buffer_ok b → buffer_ok (observe name v labels b).2.
Proof.
  intros Hb. unfold observe. case_match eqn:E; [|done]. case_match. cbn zeta.
  apply result_bind_Ok in E as ([k d] & [Hk _]%validate_metric_known & E).
  apply result_bind_Ok in E as (t & Ht & E).
  apply validate_number_Ok in Ht as [_ Ht]. apply Ok_inj in E. cbn in E. injection E as <- <-.
  assert (Hvs : histogram_ok (default [] (tb_histograms b !! k))).
  { destruct (tb_histograms b !! k) as [vs|] eqn:Ek; [by apply (bo_histograms b Hb k vs)|].
    split; [cbn; lia|constructor]. }
  assert (Hb' : buffer_ok (set_histograms (<[k := default [] (tb_histograms b !! k)]> (tb_histograms b)) b)).
  { destruct Hb. constructor; cbn; try done. apply map_Forall_insert_2; [|done]. by split. }
  case_match eqn:El; [by apply increment_ok|]. bsimp.
  destruct Hb'. constructor; cbn; try done.
  apply map_Forall_insert_2; [|done]. split; [done|]. destruct Hvs as [Hl Hf]. split.
  - rewrite length_app. unfold MAX_HISTOGRAM_OBSERVATIONS in El. cbn. lia.
  - apply Forall_app. split; [done|]. by constructor.
Qed.

Lemma drain_ok b : buffer_ok b → buffer_ok (drain b).2.
Proof. intros []. by constructor; cbn; try apply map_Forall_empty. Qed.

(** One operation of the buffer, with arbitrary arguments. *)
Inductive telemetry_call :=
  | TIncrement (name value : mval) (labels : list mval)
  | TSetGauge (name value : mval) (labels : list mval)
  | TObserve (name value : mval) (labels : list mval)
  | TDrain.

Definition run_telemetry (b : TelemetryBuffer) (c : telemetry_call) : TelemetryBuffer :=
  match c with
  | TIncrement n v l => (increment n v l b).2
  | TSetGauge n v l => (set_gauge n v l b).2
  | TObserve n v l => (observe n v l b).2
  | TDrain => (drain b).2
  end.

Lemma run_telemetry_ok b calls : buffer_ok b → buffer_ok (foldl run_telemetry b calls).
Proof.
  revert b; induction calls as [|c calls IH]; intros b Hb; [done|]. apply IH.
  destruct c; [by apply increment_ok|by apply set_gauge_ok|by apply observe_ok|by apply drain_ok].
Qed.

(** ** A rendered section decodes to its items *)
Definition counter_record (p : metric_key * num) : MetricRecord :=
  MkRecord p.1.1 p.1.2 (Some p.2) [] None.
Definition gauge_record (p : metric_key * pystr * num) : MetricRecord :=
  MkRecord p.1.1.1 p.1.1.2 (Some p.2) [] (Some p.1.2).
Definition histogram_record (p : metric_key * list num) : MetricRecord :=
  MkRecord p.1.1 p.1.2 None p.2 None.

Lemma decode_counter p seen :
  key_known KCounter p.1 → invalid_number p.2 = false → (p.1, None) ∉ seen →
  decode_record KCounter (counter_val p) seen = Ok (counter_record p).
Proof.
  intros [d Hd] Hv Hs. unfold decode_record, counter_val.
  change (keys_are _ _) with true. cbn [negb raise_if mbind result_bind].
  change (default MNone (map_get (lit "labels") _)) with (labels_val p.1.2).
  change (default MNone (map_get (lit "name") _)) with (MStr p.1.1).
  change (default MNone (map_get (lit "value") _)) with (MNum p.2).
  unfold labels_val. rewrite Hd. cbn [mbind result_bind fst].
  rewrite bool_decide_eq_false_2 by done. cbn [raise_if mbind result_bind].
  unfold _validate_number. by rewrite Hv.
Qed.

Lemma decode_gauge p seen :
  key_known KGauge p.1.1 → _validate_source (MStr p.1.2) = Ok p.1.2 → invalid_number p.2 = false →
  (p.1.1, Some p.1.2) ∉ seen →
  decode_record KGauge (gauge_val p) seen = Ok (gauge_record p).
Proof.
  intros [d Hd] Hsrc Hv Hs. unfold decode_record, gauge_val.
  change (keys_are _ _) with true. cbn [negb raise_if mbind result_bind].
  change (default MNone (map_get (lit "labels") _)) with (labels_val p.1.1.2).
  change (default MNone (map_get (lit "name") _)) with (MStr p.1.1.1).
  change (default MNone (map_get (lit "value") _)) with (MNum p.2).
  change (default MNone (map_get (lit "source") _)) with (MStr p.1.2).
  unfold labels_val. rewrite Hd. cbn [mbind result_bind fst]. rewrite Hsrc.
  cbn [mbind result_bind fst].
  rewrite bool_decide_eq_false_2 by done. cbn [raise_if mbind result_bind].
  unfold _validate_number. by rewrite Hv.
Qed.

Lemma decode_histogram p seen :
  key_known KHistogram p.1 → histogram_ok p.2 → (p.1, None) ∉ seen →
  decode_record KHistogram (histogram_val p) seen = Ok (histogram_record p).
Proof.
  intros [d Hd] [Hl Hv] Hs. unfold decode_record, histogram_val.
  change (keys_are _ _) with true. cbn [negb raise_if mbind result_bind].
  change (default MNone (map_get (lit "labels") _)) with (labels_val p.1.2).
  change (default MNone (map_get (lit "name") _)) with (MStr p.1.1).
  change (default MNone (map_get (lit "values") _)) with (MList (MNum <$> p.2)).
  unfold labels_val. rewrite Hd. cbn [mbind result_bind fst].
  rewrite bool_decide_eq_false_2 by done. cbn [raise_if mbind result_bind].
  rewrite length_fmap, (proj2 (Z.ltb_ge _ _)) by (unfold MAX_HISTOGRAM_OBSERVATIONS; lia).
  cbn [raise_if mbind result_bind].
  assert (mapM_result (λ v, _validate_number v "histogram observation") (MNum <$> p.2) = Ok p.2) as ->; [|done].
  apply mapM_result_Ok. clear -Hv. induction Hv as [|v vs Hv _ IH]; constructor; [|done].
  by apply validate_number_Ok.
Qed.

(** Rendering and decoding a list of items whose keys are new and distinct. *)
Lemma decode_all_render {P} (kind : MetricKind) (render : P → mval) (record : P → MetricRecord)
    (items : list P) (seen : gset (metric_key * option pystr)) :
  (∀ p seen, p ∈ items → (mr_key (record p), mr_source (record p)) ∉ seen →
    decode_record kind (render p) seen = Ok (record p)) →
  NoDup ((λ p, (mr_key (record p), mr_source (record p))) <$> items) →
  (∀ p, p ∈ items → (mr_key (record p), mr_source (record p)) ∉ seen) →
  decode_all kind (render <$> items) seen = Ok (record <$> items).
Proof.
  revert seen. induction items as [|p items IH]; intros seen Hd Hnd Hs; [done|].
  rewrite !fmap_cons in *. apply NoDup_cons in Hnd as [Hp Hnd]. cbn [decode_all].
  rewrite Hd by first [by left|apply Hs; by left]. cbn [mbind result_bind].
  rewrite IH; [done| |done|].
  - intros q s Hq. apply Hd. by right.
  - intros q Hq [Hin%elem_of_singleton|Hin]%elem_of_union.
    + apply Hp. rewrite <-Hin. by apply (list_elem_of_fmap_2 (λ p, (mr_key (record p), mr_source (record p)))).
    + by apply (Hs q); [right|].
Qed.

Lemma elem_of_sorted_bindings {V} (m : gmap metric_key V) p : p ∈ sorted_bindings m ↔ m !! p.1 = Some p.2.
Proof.
  unfold sorted_bindings. rewrite (merge_sort_Permutation _ _). destruct p. apply elem_of_map_to_list.
Qed.

Lemma sorted_bindings_keys {V} (m : gmap metric_key V) : NoDup (sorted_bindings m).*1.
Proof.
  unfold sorted_bindings. rewrite (fmap_Permutation fst _ _ (merge_sort_Permutation _ _)).
  apply NoDup_fst_map_to_list.
Qed.

Lemma sorted_bindings_length {V} (m : gmap metric_key V) : length (sorted_bindings m) = size m.
Proof. unfold sorted_bindings. by rewrite (merge_sort_Permutation _ _), length_map_to_list. Qed.

(** The contents that a rendered payload must have to decode. *)
Record payload_content := Content {
  pc_counters : list (metric_key * num);
  pc_gauges : list (metric_key * pystr * num);
  pc_histograms : list (metric_key * list num)
}.

Definition render (c : payload_content) : mval :=
  MMap (payload_of (counter_val <$> pc_counters c) (gauge_val <$> pc_gauges c)
          (histogram_val <$> pc_histograms c)).

Record content_ok (c : payload_content) : Prop := {
  co_counters : Forall (λ p, key_known KCounter p.1 ∧ invalid_number p.2 = false) (pc_counters c);
  co_counter_keys : NoDup (pc_counters c).*1;
  co_gauges : Forall (λ p, key_known KGauge p.1.1 ∧ _validate_source (MStr p.1.2) = Ok p.1.2 ∧
    invalid_number p.2 = false) (pc_gauges c);
  co_gauge_keys : NoDup (pc_gauges c).*1;
  co_histograms : Forall (λ p, key_known KHistogram p.1 ∧ histogram_ok p.2) (pc_histograms c);
  co_histogram_keys : NoDup (pc_histograms c).*1;
  co_lengths : (length (pc_counters c) ≤ 4096 ∧ length (pc_gauges c) ≤ 4096 ∧
    length (pc_histograms c) ≤ 4096)%nat
}.

Section rendered.
Context (c : payload_content) (Hc : content_ok c).

Let items := payload_of (counter_val <$> pc_counters c) (gauge_val <$> pc_gauges c)
          (histogram_val <$> pc_histograms c).

Lemma rendered_counters : _decode_records items KCounter = Ok (counter_record <$> pc_counters c).
Proof.
  unfold _decode_records.
  change (map_get (kind_value KCounter) items) with (Some (MList (counter_val <$> pc_counters c))).
  destruct Hc. cbv iota beta.
  rewrite length_fmap, (proj2 (Z.ltb_ge _ _)) by (unfold MAX_METRIC_RECORDS; lia).
  cbn [raise_if mbind result_bind]. apply decode_all_render; [| |intros; apply not_elem_of_empty].
  - intros p seen Hp Hs. rewrite Forall_forall in co_counters0. destruct (co_counters0 p Hp).
    destruct p as [[n l] v]. by apply decode_counter.
  - assert (Hm : (λ p, (mr_key (counter_record p), mr_source (counter_record p))) <$> pc_counters c
      = (., @None pystr) <$> (pc_counters c).*1).
    { rewrite <-list_fmap_compose. apply list_fmap_ext. by intros i [[] ?]. }
    rewrite Hm. apply NoDup_fmap_2; [|done]. by intros ?? [=].
Qed.

Lemma rendered_gauges : _decode_records items KGauge = Ok (gauge_record <$> pc_gauges c).
Proof.
  unfold _decode_records.
  change (map_get (kind_value KGauge) items) with (Some (MList (gauge_val <$> pc_gauges c))).
  destruct Hc. cbv iota beta.
  rewrite length_fmap, (proj2 (Z.ltb_ge _ _)) by (unfold MAX_METRIC_RECORDS; lia).
  cbn [raise_if mbind result_bind]. apply decode_all_render; [| |intros; apply not_elem_of_empty].
  - intros p seen Hp Hs. rewrite Forall_forall in co_gauges0. destruct (co_gauges0 p Hp) as (? & ? & ?).
    destruct p as [[[n l] s] v]. by apply decode_gauge.
  - assert (Hm : (λ p, (mr_key (gauge_record p), mr_source (gauge_record p))) <$> pc_gauges c
      = (λ k, (k.1, Some k.2)) <$> (pc_gauges c).*1).
    { rewrite <-list_fmap_compose. apply list_fmap_ext. by intros i [[[] ?] ?]. }
    rewrite Hm. apply NoDup_fmap_2; [|done]. by intros [] [] [= <- <-].
Qed.

Lemma rendered_histograms : _decode_records items KHistogram = Ok (histogram_record <$> pc_histograms c).
Proof.
  unfold _decode_records.
  change (map_get (kind_value KHistogram) items) with (Some (MList (histogram_val <$> pc_histograms c))).
  destruct Hc. cbv iota beta.
  rewrite length_fmap, (proj2 (Z.ltb_ge _ _)) by (unfold MAX_METRIC_RECORDS; lia).
  cbn [raise_if mbind result_bind]. apply decode_all_render; [| |intros; apply not_elem_of_empty].
  - intros p seen Hp Hs. rewrite Forall_forall in co_histograms0. destruct (co_histograms0 p Hp).
    destruct p as [[n l] v]. by apply decode_histogram.
  - assert (Hm : (λ p, (mr_key (histogram_record p), mr_source (histogram_record p))) <$> pc_histograms c
      = (., @None pystr) <$> (pc_histograms c).*1).
    { rewrite <-list_fmap_compose. apply list_fmap_ext. by intros i [[] ?]. }
    rewrite Hm. apply NoDup_fmap_2; [|done]. by intros ?? [=].
Qed.

Lemma rendered_valid : validate_metric_payload (render c) = Ok items.
Proof.
  unfold validate_metric_payload, render. fold items.
  change (keys_are _ items) with true. cbn [negb raise_if mbind result_bind].
  change (map_get (lit "schema") items) with (Some (MStr METRIC_PAYLOAD_SCHEMA)). cbv iota beta.
  rewrite bool_decide_eq_true_2 by done. cbn [negb raise_if mbind result_bind].
  by rewrite rendered_counters, rendered_gauges, rendered_histograms.
Qed.

Lemma render_decodes :
  iter_metric_records (render c) KCounter = Ok (counter_record <$> pc_counters c) ∧
  iter_metric_records (render c) KGauge = Ok (gauge_record <$> pc_gauges c) ∧
  iter_metric_records (render c) KHistogram = Ok (histogram_record <$> pc_histograms c).
Proof.
  unfold iter_metric_records. rewrite rendered_valid. cbn [mbind result_bind].
  by rewrite rendered_counters, rendered_gauges, rendered_histograms.
Qed.
End rendered.

(** ** Draining a buffer *)
Lemma increment_source name v labels b : tb_source (increment name v labels b).2 = tb_source b.
Proof. unfold increment. by repeat case_match. Qed.

Lemma run_telemetry_source b c : tb_source (run_telemetry b c) = tb_source b.
Proof.
  destruct c; cbn [run_telemetry]; [apply increment_source|unfold set_gauge; by repeat case_match| |done].
  unfold observe. case_match; [|done]. case_match. cbv zeta. case_match; [|done]. by rewrite increment_source.
Qed.

Definition buffer_content (b : TelemetryBuffer) : payload_content :=
  Content (sorted_bindings (tb_counters b))
    ((λ p, (p.1, tb_source b, p.2)) <$> sorted_bindings (tb_gauges b))
    (sorted_bindings (tb_histograms b)).

Lemma drain_render b : (drain b).1 = render (buffer_content b).
Proof.
  unfold drain, render, buffer_content. cbn [fst pc_counters pc_gauges pc_histograms].
  by rewrite <-list_fmap_compose.
Qed.

Lemma sorted_bindings_Forall {V} (Q : metric_key → V → Prop) (m : gmap metric_key V) :
  map_Forall Q m → Forall (λ p, Q p.1 p.2) (sorted_bindings m).
Proof. intros Hm. apply Forall_forall. intros p Hp%elem_of_sorted_bindings. by apply Hm. Qed.

Lemma sorted_bindings_small {V} (kind : MetricKind) (Q : V → Prop) (m : gmap metric_key V) :
  map_Forall (λ k v, key_known kind k ∧ Q v) m → (length (sorted_bindings m) ≤ 4096)%nat.
Proof.
  intros Hm. rewrite sorted_bindings_length. apply (known_size kind).
  intros k v Hk. by apply (Hm k v).
Qed.

Lemma buffer_content_ok b : buffer_ok b → content_ok (buffer_content b).
Proof.
  intros []. constructor; cbn.
  - by apply (sorted_bindings_Forall _) in bo_counters0.
  - apply sorted_bindings_keys.
  - apply Forall_fmap. apply (sorted_bindings_Forall _) in bo_gauges0.
    eapply Forall_impl; [exact bo_gauges0|]. by intros p []; cbn.
  - rewrite <-list_fmap_compose.
    assert (Hm : (fst ∘ λ p : metric_key * num, (p.1, tb_source b, p.2)) <$> sorted_bindings (tb_gauges b)
      = (., tb_source b) <$> (sorted_bindings (tb_gauges b)).*1).
    { rewrite <-list_fmap_compose. apply list_fmap_ext. by intros i [? ?]. }
    rewrite Hm. apply NoDup_fmap_2; [by intros ?? [=]|apply sorted_bindings_keys].
  - by apply (sorted_bindings_Forall _) in bo_histograms0.
  - apply sorted_bindings_keys.
  - rewrite length_fmap. split_and!.
    + exact (sorted_bindings_small KCounter (λ v, invalid_number v = false) _ bo_counters0).
    + exact (sorted_bindings_small KGauge (λ v, invalid_number v = false) _ bo_gauges0).
    + exact (sorted_bindings_small KHistogram histogram_ok _ bo_histograms0).
Qed.

(** C35: whatever a process records, drains and records again, its buffer drains
    to a payload that the codec accepts and decodes to exactly the counters,
    gauges and observations held, each under its own key and in key order. *)
Theorem drained_payload_decodes source b0 calls :
  telemetry_init source = Ok b0 →
  let b := foldl run_telemetry b0 calls in
  let payload := (drain b).1 in
  iter_metric_records payload KCounter = Ok (counter_record <$> sorted_bindings (tb_counters b)) ∧
  iter_metric_records payload KGauge
    = Ok ((λ p, gauge_record (p.1, tb_source b0, p.2)) <$> sorted_bindings (tb_gauges b)) ∧
  iter_metric_records payload KHistogram = Ok (histogram_record <$> sorted_bindings (tb_histograms b)).
Proof.
  intros H0 b payload. assert (Hb : buffer_ok b) by by eapply run_telemetry_ok, telemetry_init_ok.
  assert (Hs : tb_source b = tb_source b0).
  { subst b. clear. revert b0; induction calls as [|c calls IH]; intros b0; [done|]. cbn [foldl].
    by rewrite IH, run_telemetry_source. }
  destruct (render_decodes (buffer_content b) (buffer_content_ok b Hb)) as (Hc & Hg & Hh).
  subst payload. rewrite drain_render, Hc, Hg, Hh. cbn [pc_counters pc_histograms buffer_content]. split; [done|]. split; [|done].
  cbn [pc_gauges buffer_content]. by rewrite <-list_fmap_compose, Hs.
Qed.

(** ** Decoded records are well-formed *)
Record record_ok (kind : MetricKind) (r : MetricRecord) : Prop := {
  ro_known : key_known kind (mr_key r);
  ro_value : kind ≠ KHistogram → ∃ v, mr_value r = Some v ∧ invalid_number v = false;
  ro_values : kind = KHistogram → histogram_ok (mr_values r);
  ro_source : kind = KGauge → ∃ s, mr_source r = Some s ∧ _validate_source (MStr s) = Ok s
}.

Lemma decode_record_ok kind raw seen r :
  decode_record kind raw seen = Ok r → record_ok kind r ∧ (mr_key r, mr_source r) ∉ seen.
Proof.
  unfold decode_record. destruct raw as [| | | | |fields|]; try done.
  intros (u & _ & Hr)%result_bind_Ok. cbv zeta in Hr.
  destruct (default MNone (map_get (lit "labels") fields)) as [| | | |labels| |]; try done.
  apply result_bind_Ok in Hr as ([k d] & [Hk _]%validate_metric_known & Hr). cbn [fst] in Hr.
  apply result_bind_Ok in Hr as (src & Hsrc & Hr).
  apply result_bind_Ok in Hr as (u' & Hseen & Hr). apply raise_if_Ok in Hseen. bsimp.
  destruct k as [n ls]. cbn [fst snd] in *. destruct kind.
  - apply result_bind_Ok in Hr as (v & [_ Hv]%validate_number_Ok & Hr). apply Ok_inj in Hsrc as <-.
    apply Ok_inj in Hr as <-. split; [|done]. constructor; cbn; eauto; done.
  - apply result_bind_Ok in Hr as (v & [_ Hv]%validate_number_Ok & Hr).
    apply result_bind_Ok in Hsrc as (s & [_ Hs]%validate_source_Ok & Hsrc). apply Ok_inj in Hsrc as <-.
    apply Ok_inj in Hr as <-. split; [|done]. constructor; cbn; eauto; done.
  - destruct (default MNone (map_get (lit "values") fields)) as [| | | |values| |]; try done.
    apply result_bind_Ok in Hr as (u'' & Hl & Hr). apply raise_if_Ok in Hl. bsimp.
    apply result_bind_Ok in Hr as (vs & Hvs & Hr). apply Ok_inj in Hsrc as <-.
    apply Ok_inj in Hr as <-. apply mapM_result_Ok in Hvs. split; [|done]. constructor; cbn; try done.
    intros _. split.
    + rewrite <-(Forall2_length _ _ _ Hvs). unfold MAX_HISTOGRAM_OBSERVATIONS in Hl. lia.
    + clear -Hvs. by induction Hvs as [|v n vs ns [_ ?]%validate_number_Ok _ IH]; constructor.
Qed.

Lemma decode_all_ok kind raws seen rs :
  decode_all kind raws seen = Ok rs →
  Forall (record_ok kind) rs ∧ NoDup ((λ r, (mr_key r, mr_source r)) <$> rs) ∧
  ∀ r, r ∈ rs → (mr_key r, mr_source r) ∉ seen.
Proof.
  revert seen rs; induction raws as [|raw raws IH]; intros seen rs; cbn [decode_all].
  { intros [= <-]. split_and!; [done|by apply NoDup_nil_2|by intros r ?%not_elem_of_nil]. }
  intros (r & [Hr Hn]%decode_record_ok & Hrs)%result_bind_Ok.
  apply result_bind_Ok in Hrs as (rs' & Hrs & Hrest). apply Ok_inj in Hrest as <-.
  apply IH in Hrs as (Hf & Hnd & Hs). split_and!.
  - by constructor.
  - rewrite fmap_cons. apply NoDup_cons. split; [|done].
    intros (r' & He & Hr')%list_elem_of_fmap. apply (Hs r' Hr'). rewrite He. set_solver.
  - intros r' [->|Hr']%elem_of_cons; [done|]. specialize (Hs r' Hr'). set_solver.
Qed.

Lemma decode_records_ok items kind rs :
  _decode_records items kind = Ok rs →
  Forall (record_ok kind) rs ∧ NoDup ((λ r, (mr_key r, mr_source r)) <$> rs).
Proof.
  unfold _decode_records. destruct (map_get _ items) as [[| | | |raws| |]|]; try done.
  intros (u & _ & H)%result_bind_Ok. by apply decode_all_ok in H as (? & ? & _).
Qed.
