(* ===== verification/TelemetryMerge.v ===== *)
(** * Aggregating telemetry loses nothing silently

    [merge_metric_payloads] folds the records of its arguments; the folds are
    related to sums, concatenations and last values over all records. *)
From S2P Require Import Prelude Dict Telemetry TelemetryProps.

(** ** Measures of a list of records *)
Definition zsum (l : list Z) : Z := foldr Z.add 0 l.

Definition int_of (v : option num) : Z := match v with Some (NInt z) => z | _ => 0 end.
Definition is_int (v : num) : bool := match v with NInt _ => true | NFloat _ => false end.

Definition records_of (kind : MetricKind) (payload : mval) : list MetricRecord :=
  match iter_metric_records payload kind with Ok rs => rs | Raise _ => [] end.

Definition select (key : metric_key) (rs : list MetricRecord) : list MetricRecord :=
  filter (λ r, mr_key r = key) rs.

(** The integer total, the observations and the last gauge value under one key. *)
Definition total_at (key : metric_key) (rs : list MetricRecord) : Z :=
  zsum ((λ r, int_of (mr_value r)) <$> select key rs).
Definition values_at (key : metric_key) (rs : list MetricRecord) : list num :=
  select key rs ≫= mr_values.
Definition gauge_at (key : metric_key) (source : pystr) (rs : list MetricRecord) : option num :=
  last (filter (λ r, mr_source r = Some source) (select key rs)) ≫= mr_value.
Definition observation_count (rs : list MetricRecord) : Z :=
  zsum ((λ r, Z.of_nat (length (mr_values r))) <$> rs).

Lemma zsum_app l k : zsum (l ++ k) = zsum l + zsum k.
Proof. unfold zsum. induction l as [|x l IH]; cbn; [done|]. rewrite IH. lia. Qed.

Lemma zsum_perm l k : l ≡ₚ k → zsum l = zsum k.
Proof. unfold zsum. by induction 1; cbn in *; lia. Qed.

Lemma total_at_cons key r rs :
  total_at key (r :: rs) = (if decide (mr_key r = key) then int_of (mr_value r) else 0) + total_at key rs.
Proof. unfold total_at, select. rewrite filter_cons. by case_decide. Qed.

Lemma values_at_cons key r rs :
  values_at key (r :: rs) = (if decide (mr_key r = key) then mr_values r else []) ++ values_at key rs.
Proof. unfold values_at, select. rewrite filter_cons. by case_decide. Qed.

(** ** The three folds *)
Lemma fold_result_app {A S} (f : S → A → result S) s l k :
  fold_result f s (l ++ k) = (fold_result f s l ≫= λ s, fold_result f s k).
Proof.
  revert s; induction l as [|x l IH]; intros s; [done|]. cbn [app fold_result].
  destruct (f s x); cbn [mbind result_bind]; [apply IH|done].
Qed.

Definition all_ints (c : gmap metric_key num) : Prop := map_Forall (λ _ v, is_int v = true) c.

Lemma int_of_is_int v : is_int v = true → v = NInt (int_of (Some v)).
Proof. by destruct v. Qed.

Lemma merge_counters_total c rs c' :
  fold_result merge_counter c rs = Ok c' → all_ints c →
  Forall (λ r, ∃ v, mr_value r = Some v ∧ is_int v = true) rs →
  all_ints c' ∧ ∀ key, int_of (c' !! key) = int_of (c !! key) + total_at key rs.
Proof.
  intros Hf Hc Hi. revert c Hc Hf; induction Hi as [|r rs (v & Hr & Hv) _ IH]; intros c Hc; cbn [fold_result].
  - intros [= <-]. split; [done|]. intros key. cbn. lia.
  - intros (c1 & H1 & Hrest)%result_bind_Ok. unfold merge_counter in H1.
    apply result_bind_Ok in H1 as (t & [Ht _]%validate_number_Ok & H1). apply Ok_inj in H1 as <-.
    rewrite Hr in Ht. cbn [default] in Ht.
    assert (Hold : default (NInt 0) (c !! mr_key r) = NInt (int_of (c !! mr_key r))).
    { destruct (c !! mr_key r) as [w|] eqn:Ec; [|done]. by apply int_of_is_int, (Hc (mr_key r)). }
    rewrite Hold, (int_of_is_int v Hv) in Ht. cbn [num_add] in Ht. injection Ht as <-.
    apply IH in Hrest as [Ha Hk]; [|by apply map_Forall_insert_2].
    split; [done|]. intros key. rewrite Hk, total_at_cons, lookup_insert, Hr.
    repeat case_decide; subst; try done; cbn [int_of]; lia.
Qed.

Lemma merge_counters_known c rs c' :
  fold_result merge_counter c rs = Ok c' → Forall (record_ok KCounter) rs →
  map_Forall (λ k v, key_known KCounter k ∧ invalid_number v = false) c →
  map_Forall (λ k v, key_known KCounter k ∧ invalid_number v = false) c'.
Proof.
  intros Hf Hr. revert c Hf; induction Hr as [|r rs Hr _ IH]; intros c; cbn [fold_result]; [by intros [= <-]|].
  intros (c1 & H1 & Hrest)%result_bind_Ok Hc. apply (IH c1 Hrest).
  unfold merge_counter in H1. apply result_bind_Ok in H1 as (t & [_ Ht]%validate_number_Ok & H1).
  apply Ok_inj in H1 as <-. apply map_Forall_insert_2; [|done]. split; [apply Hr|done].
Qed.

Lemma merge_gauges_at g rs key s :
  Forall (record_ok KGauge) rs →
  foldl merge_gauge g rs !! (key, s) =
    match last (filter (λ r, mr_source r = Some s) (select key rs)) with
    | Some r => mr_value r
    | None => g !! (key, s)
    end.
Proof.
  induction rs as [|r rs IH] using rev_ind; [done|]. intros [Hrs Hr]%Forall_app.
  apply Forall_cons in Hr as [Hr _]. rewrite foldl_snoc. unfold merge_gauge at 1.
  destruct (ro_source _ _ Hr eq_refl) as (sr & Hsr & _).
  destruct (ro_value _ _ Hr ltac:(done)) as (v & Hv & _).
  unfold select. rewrite !filter_app, filter_cons, filter_nil, Hsr, Hv, lookup_insert.
  cbn [default id].
  destruct (decide (mr_key r = key)) as [<-|Hk].
  - rewrite filter_cons, filter_nil. destruct (decide (sr = s)) as [->|Hs].
    + rewrite !decide_True by congruence. by rewrite last_snoc.
    + rewrite !decide_False by congruence. rewrite app_nil_r. by apply IH.
  - rewrite decide_False by congruence. rewrite filter_nil, app_nil_r. by apply IH.
Qed.

Lemma merge_gauges_known g rs :
  Forall (record_ok KGauge) rs →
  map_Forall (λ k v, key_known KGauge k.1 ∧ _validate_source (MStr k.2) = Ok k.2 ∧
    invalid_number v = false) g →
  map_Forall (λ k v, key_known KGauge k.1 ∧ _validate_source (MStr k.2) = Ok k.2 ∧
    invalid_number v = false) (foldl merge_gauge g rs).
Proof.
  intros Hr. revert g; induction Hr as [|r rs Hr _ IH]; intros g Hg; [done|]. apply IH.
  destruct (ro_source _ _ Hr eq_refl) as (s & Hs & ?).
  destruct (ro_value _ _ Hr ltac:(done)) as (v & Hv & ?).
  unfold merge_gauge. rewrite Hs, Hv. apply map_Forall_insert_2; [|done]. split; [apply Hr|done].
Qed.

(** ** Histograms: the first observations are kept, the others are counted *)
Definition kept (h : gmap metric_key (list num)) : Z :=
  map_fold (λ _ vs n, Z.of_nat (length vs) + n) 0 h.

Lemma kept_insert k vs h :
  kept (<[k := vs]> h) = kept h - Z.of_nat (length (default [] (h !! k))) + Z.of_nat (length vs).
Proof.
  unfold kept. destruct (h !! k) as [old|] eqn:Ek.
  - rewrite (map_fold_delete_L _ _ k old h) by (first [done|intros; lia]).
    rewrite <-insert_delete_eq, map_fold_insert_L; cbn [default id]; [lia|intros; lia|apply lookup_delete_eq].
  - rewrite map_fold_insert_L; cbn [default id length]; [lia|intros; lia|done].
Qed.

Definition bounded_histograms (h : gmap metric_key (list num)) : Prop :=
  map_Forall (λ k vs, key_known KHistogram k ∧ histogram_ok vs) h.

Lemma bounded_lookup h k : bounded_histograms h → histogram_ok (default [] (h !! k)).
Proof.
  intros Hh. destruct (h !! k) as [vs|] eqn:Ek; [by apply (Hh k)|]. split; [cbn; lia|constructor].
Qed.

Lemma merge_histogram_kept h o r :
  bounded_histograms h → record_ok KHistogram r →
  let ho := merge_histogram (h, o) r in
  bounded_histograms ho.1 ∧
  ho.2 + kept ho.1 = o + kept h + Z.of_nat (length (mr_values r)) ∧ o ≤ ho.2 ∧
  ∀ key, default [] (ho.1 !! key) =
    take 4096 (default [] (h !! key) ++ (if decide (mr_key r = key) then mr_values r else [])).
Proof.
  intros Hh Hr ho. pose proof (bounded_lookup h (mr_key r) Hh) as [Hl Hv].
  destruct (ro_values _ _ Hr eq_refl) as [_ Hrv]. subst ho. unfold merge_histogram. cbn [fst snd].
  set (values := default [] (h !! mr_key r)) in *.
  assert (Hrem : Z.to_nat (MAX_HISTOGRAM_OBSERVATIONS - Z.of_nat (length values)) = (4096 - length values)%nat)
    by (unfold MAX_HISTOGRAM_OBSERVATIONS; lia).
  rewrite Hrem. unfold MAX_HISTOGRAM_OBSERVATIONS. split_and!.
  - apply map_Forall_insert_2; [|done]. split; [apply Hr|]. split.
    + rewrite length_app, length_take. lia.
    + apply Forall_app. split; [done|]. by apply Forall_take.
  - rewrite kept_insert. fold values. rewrite length_app, length_take. lia.
  - lia.
  - intros key. rewrite lookup_insert. case_decide as Hk; subst; cbn [default].
    + fold values. rewrite take_app, (take_ge values) by lia. done.
    + rewrite app_nil_r, take_ge; [done|]. by apply bounded_lookup.
Qed.

Lemma take_take_app {A} n (a b : list A) : take n (take n a ++ b) = take n (a ++ b).
Proof.
  rewrite !take_app, take_take, Nat.min_id, length_take. f_equal. f_equal. lia.
Qed.

Lemma merge_histograms_kept h o rs :
  bounded_histograms h → Forall (record_ok KHistogram) rs →
  let ho := foldl merge_histogram (h, o) rs in
  bounded_histograms ho.1 ∧
  ho.2 + kept ho.1 = o + kept h + observation_count rs ∧ o ≤ ho.2 ∧
  ∀ key, default [] (ho.1 !! key) = take 4096 (default [] (h !! key) ++ values_at key rs).
Proof.
  intros Hh Hr. revert h o Hh; induction Hr as [|r rs Hr _ IH]; intros h o Hh; cbn [foldl].
  - split_and!; [done|cbn; lia|cbn; lia|]. intros key. cbn. rewrite app_nil_r, take_ge; [done|].
    by apply bounded_lookup.
  - destruct (merge_histogram_kept h o r Hh Hr) as (Hb & Hk & Ho & Hv).
    destruct (merge_histogram (h, o) r) as [h1 o1]. cbn [fst snd] in *.
    destruct (IH h1 o1 Hb) as (Hb' & Hk' & Ho' & Hv'). split_and!; [done| |lia|].
    + change (observation_count (r :: rs)) with (Z.of_nat (length (mr_values r)) + observation_count rs). lia.
    + intros key. rewrite Hv', Hv, values_at_cons. rewrite (assoc_L (++)).
      apply take_take_app.
Qed.

(** ** The whole merge over the records of all payloads *)
Lemma records_of_ok kind p : Forall (record_ok kind) (records_of kind p).
Proof.
  unfold records_of, iter_metric_records.
  destruct (validate_metric_payload p) as [items|] eqn:Ev; cbn [mbind result_bind]; [|constructor].
  destruct (_decode_records items kind) as [rs|] eqn:Ed; [|constructor].
  by apply decode_records_ok in Ed as [? _].
Qed.

Lemma all_records_ok kind ps : Forall (record_ok kind) (ps ≫= records_of kind).
Proof.
  induction ps as [|p ps IH]; [constructor|]. rewrite bind_cons.
  apply Forall_app. split; [apply records_of_ok|done].
Qed.

Lemma records_of_valid kind p items rs :
  validate_metric_payload p = Ok items → _decode_records items kind = Ok rs → records_of kind p = rs.
Proof. unfold records_of, iter_metric_records. intros -> Hd. cbn. by rewrite Hd. Qed.

Lemma merge_payload_folds m p m' :
  merge_payload m p = Ok m' →
  fold_result merge_counter (mg_counters m) (records_of KCounter p) = Ok (mg_counters m') ∧
  mg_gauges m' = foldl merge_gauge (mg_gauges m) (records_of KGauge p) ∧
  (mg_histograms m', mg_overflow m') =
    foldl merge_histogram (mg_histograms m, mg_overflow m) (records_of KHistogram p).
Proof.
  unfold merge_payload. intros (items & Hv & H)%result_bind_Ok.
  apply result_bind_Ok in H as (cs & Hc & H). apply result_bind_Ok in H as (c & Hcs & H).
  apply result_bind_Ok in H as (gs & Hg & H). apply result_bind_Ok in H as (hs & Hh & H).
  apply Ok_inj in H as <-. cbn [mg_counters mg_gauges mg_histograms mg_overflow].
  rewrite (records_of_valid _ _ _ _ Hv Hc), (records_of_valid _ _ _ _ Hv Hg),
    (records_of_valid _ _ _ _ Hv Hh).
  split_and!; [done..|]. symmetry. apply surjective_pairing.
Qed.

Lemma merge_payloads_folds m ps m' :
  fold_result merge_payload m ps = Ok m' →
  fold_result merge_counter (mg_counters m) (ps ≫= records_of KCounter) = Ok (mg_counters m') ∧
  mg_gauges m' = foldl merge_gauge (mg_gauges m) (ps ≫= records_of KGauge) ∧
  (mg_histograms m', mg_overflow m') =
    foldl merge_histogram (mg_histograms m, mg_overflow m) (ps ≫= records_of KHistogram).
Proof.
  revert m; induction ps as [|p ps IH]; intros m; cbn [fold_result].
  - intros [= <-]. split_and!; [done..|]. by destruct m.
  - intros (m1 & (Hc & Hg & Hh)%merge_payload_folds & (Hc' & Hg' & Hh')%IH)%result_bind_Ok.
    rewrite !bind_cons, fold_result_app, !foldl_app, Hc, <-Hg, <-Hh. by cbn.
Qed.

(** ** The measures of a rendered section *)
Lemma select_render {P} (rec : P → MetricRecord) (key_of : P → metric_key) key l :
  (∀ p, mr_key (rec p) = key_of p) →
  select key (rec <$> l) = rec <$> filter (λ p, key_of p = key) l.
Proof.
  intros Hk. unfold select. induction l as [|p l IH]; [done|].
  rewrite fmap_cons, !filter_cons, Hk. case_decide; [by rewrite fmap_cons, IH|done].
Qed.

(** A key selects its own binding of a map's listing. *)
Lemma filter_listing {K V} `{!EqDecision K} (l : list (K * V)) key :
  NoDup l.*1 →
  filter (λ p, p.1 = key) l = match od_get key l with Some v => [(key, v)] | None => [] end.
Proof.
  induction l as [|[k v] l IH]; [done|]. rewrite fmap_cons. cbn [fst od_get].
  intros [Hk Hnd]%NoDup_cons. rewrite filter_cons. cbn [fst].
  destruct (decide (k = key)) as [->|Hne].
  - rewrite decide_True, IH by done.
    assert (od_get key l = None) as -> by by apply od_get_None. done.
  - rewrite decide_False by congruence. by apply IH.
Qed.

Lemma od_get_sorted_bindings {V} (m : gmap metric_key V) key : od_get key (sorted_bindings m) = m !! key.
Proof.
  apply option_eq. intros v. rewrite (od_get_elem _ _ _ (sorted_bindings_keys m)).
  by rewrite elem_of_sorted_bindings.
Qed.

Lemma total_at_rendered c key :
  total_at key (counter_record <$> sorted_bindings c) = int_of (c !! key).
Proof.
  unfold total_at. rewrite (select_render counter_record fst) by by intros [[] ?].
  rewrite (filter_listing _ _ (sorted_bindings_keys c)), od_get_sorted_bindings.
  destruct (c !! key); cbn; lia.
Qed.

Lemma values_at_rendered h key :
  values_at key (histogram_record <$> sorted_bindings h) = default [] (h !! key).
Proof.
  unfold values_at. rewrite (select_render histogram_record fst) by by intros [[] ?].
  rewrite (filter_listing _ _ (sorted_bindings_keys h)), od_get_sorted_bindings.
  destruct (h !! key); cbn; by rewrite ?app_nil_r.
Qed.

Lemma observation_count_rendered h :
  observation_count (histogram_record <$> sorted_bindings h) = kept h.
Proof.
  unfold observation_count, kept. rewrite map_fold_foldr, <-list_fmap_compose.
  unfold sorted_bindings. erewrite zsum_perm; [|apply fmap_Permutation, merge_sort_Permutation].
  unfold zsum. induction (map_to_list h) as [|[k v] l IH]; [done|]. cbn in *. by rewrite IH.
Qed.

Definition gauge_items (g : gmap (metric_key * pystr) num) : list (metric_key * pystr * num) :=
  merge_sort gauge_item_le (map_to_list g).

Lemma elem_of_gauge_items g p : p ∈ gauge_items g ↔ g !! p.1 = Some p.2.
Proof. unfold gauge_items. rewrite (merge_sort_Permutation _ _). destruct p. apply elem_of_map_to_list. Qed.

Lemma gauge_items_keys g : NoDup (gauge_items g).*1.
Proof.
  unfold gauge_items. rewrite (fmap_Permutation fst _ _ (merge_sort_Permutation _ _)).
  apply NoDup_fst_map_to_list.
Qed.

Lemma gauge_at_rendered g key s :
  gauge_at key s (gauge_record <$> gauge_items g) = g !! (key, s).
Proof.
  assert (Hf : ∀ l, filter (λ r, mr_source r = Some s) (select key (gauge_record <$> l))
      = gauge_record <$> filter (λ p, p.1 = (key, s)) l).
  { intros l. unfold select. induction l as [|[[k' s'] v] l IH]; [done|].
    rewrite fmap_cons, !filter_cons. unfold mr_key at 1. cbn [gauge_record mr_name mr_labels fst snd].
    destruct (decide (k' = key)) as [->|Hk].
    - rewrite decide_True by (by destruct key). rewrite filter_cons. cbn [mr_source].
      destruct (decide (s' = s)) as [->|Hs].
      + rewrite !decide_True by done. by rewrite fmap_cons, IH.
      + rewrite !decide_False by (intros [=]; done). exact IH.
    - rewrite decide_False by (by destruct k').
      rewrite decide_False by (intros [=]; done). exact IH. }
  unfold gauge_at. rewrite Hf, (filter_listing _ _ (gauge_items_keys g)).
  assert (od_get (key, s) (gauge_items g) = g !! (key, s)) as ->.
  { apply option_eq. intros v. rewrite (od_get_elem _ _ _ (gauge_items_keys g)).
    by rewrite elem_of_gauge_items. }
  by destruct (g !! (key, s)).
Qed.

(** ** The merged payload *)
Definition merged_content (counters : gmap metric_key num) (m : merge_state) : payload_content :=
  Content (sorted_bindings counters) (gauge_items (mg_gauges m)) (sorted_bindings (mg_histograms m)).

Lemma count_overflow_known m c :
  count_overflow m = Ok c →
  map_Forall (λ k v, key_known KCounter k ∧ invalid_number v = false) (mg_counters m) →
  map_Forall (λ k v, key_known KCounter k ∧ invalid_number v = false) c.
Proof.
  unfold count_overflow. intros Hc Hm. case_match; [by apply Ok_inj in Hc as <-|].
  apply result_bind_Ok in Hc as (v & [_ Hv]%validate_number_Ok & Hc). apply Ok_inj in Hc as <-.
  apply map_Forall_insert_2; [|done]. split; [|done]. eexists. vm_compute. reflexivity.
Qed.

Lemma count_overflow_total m c :
  count_overflow m = Ok c → all_ints (mg_counters m) →
  ∀ key, int_of (c !! key) =
    int_of (mg_counters m !! key) + (if decide (key = dropped_key) then mg_overflow m else 0).
Proof.
  unfold count_overflow. intros Hc Hm key. case_match eqn:Eo; bsimp.
  - apply Ok_inj in Hc as <-. rewrite Eo. case_decide; lia.
  - apply result_bind_Ok in Hc as (v & [Hv _]%validate_number_Ok & Hc). apply Ok_inj in Hc as <-.
    assert (Hold : default (NInt 0) (mg_counters m !! dropped_key)
      = NInt (int_of (mg_counters m !! dropped_key))).
    { destruct (mg_counters m !! dropped_key) as [w|] eqn:Ec; [|done].
      by apply int_of_is_int, (Hm dropped_key). }
    rewrite Hold in Hv. cbn [num_add] in Hv. injection Hv as <-.
    rewrite lookup_insert. repeat case_decide; subst; try done; cbn [int_of]; lia.
Qed.

(** Validation succeeded, so every section is within the record bound. *)
Lemma valid_section_length counters gauges histograms items :
  validate_metric_payload (MMap (payload_of counters gauges histograms)) = Ok items →
  (length gauges ≤ 4096)%nat.
Proof.
  unfold validate_metric_payload. intros (u & _ & H)%result_bind_Ok.
  apply result_bind_Ok in H as (u' & _ & H). apply result_bind_Ok in H as (cs & _ & H).
  apply result_bind_Ok in H as (gs & Hg & _). unfold _decode_records in Hg.
  change (map_get (kind_value KGauge) (payload_of counters gauges histograms))
    with (Some (MList gauges)) in Hg. cbv iota beta in Hg.
  apply result_bind_Ok in Hg as (u'' & Hl & _). apply raise_if_Ok in Hl. bsimp.
  unfold MAX_METRIC_RECORDS in Hl. lia.
Qed.

Lemma merged_content_ok ps m counters items :
  fold_result merge_payload (MergeState ∅ ∅ ∅ 0) ps = Ok m →
  count_overflow m = Ok counters →
  validate_metric_payload (merged_payload counters m) = Ok items →
  content_ok (merged_content counters m).
Proof.
  intros (Hc & Hg & Hh)%merge_payloads_folds Hov Hval. cbn [mg_counters mg_gauges mg_histograms mg_overflow] in *.
  assert (Hck := count_overflow_known _ _ Hov
    (merge_counters_known _ _ _ Hc (all_records_ok _ _) (map_Forall_empty _))).
  assert (Hgk := merge_gauges_known _ _ (all_records_ok KGauge ps) (map_Forall_empty _)).
  rewrite <-Hg in Hgk.
  destruct (merge_histograms_kept ∅ 0 _ (map_Forall_empty _) (all_records_ok KHistogram ps)) as (Hhk & _).
  rewrite <-Hh in Hhk. cbn [fst] in Hhk.
  apply valid_section_length in Hval. rewrite length_fmap in Hval.
  constructor; cbn [pc_counters pc_gauges pc_histograms merged_content].
  - exact (sorted_bindings_Forall _ _ Hck).
  - apply sorted_bindings_keys.
  - apply Forall_forall. intros p Hp%elem_of_gauge_items. exact (Hgk _ _ Hp).
  - apply gauge_items_keys.
  - exact (sorted_bindings_Forall _ _ Hhk).
  - apply sorted_bindings_keys.
  - split_and!; [|exact Hval|].
    + exact (sorted_bindings_small KCounter (λ v, invalid_number v = false) _ Hck).
    + exact (sorted_bindings_small KHistogram histogram_ok _ Hhk).
Qed.

(** C34: an aggregation that succeeds, of payloads whose counters are all integers (every
    counter of the code is one), preserves what its payloads report.  Each
    counter of the result is the sum over the payloads; every histogram
    keeps the first 4096 observations of its series in payload order; each source's
    gauge is the last one reported; and every observation that is not kept is
    counted in [spoolcache_telemetry_dropped_total], so none is lost silently. *)
Theorem merge_conserves ps merged :
  merge_metric_payloads ps = Ok merged →
  Forall (λ r, ∃ v, mr_value r = Some v ∧ is_int v = true) (ps ≫= records_of KCounter) →
  (∀ key, total_at key (records_of KCounter merged) = total_at key (ps ≫= records_of KCounter) +
     (if decide (key = dropped_key)
      then observation_count (ps ≫= records_of KHistogram) - observation_count (records_of KHistogram merged)
      else 0)) ∧
  (∀ key, values_at key (records_of KHistogram merged)
     = take 4096 (values_at key (ps ≫= records_of KHistogram))) ∧
  (∀ key source, gauge_at key source (records_of KGauge merged)
     = gauge_at key source (ps ≫= records_of KGauge)).
Proof.
  unfold merge_metric_payloads. intros (m & Hm & H)%result_bind_Ok Hi.
  apply result_bind_Ok in H as (c & Hov & H). apply result_bind_Ok in H as (items & Hval & H).
  apply Ok_inj in H as <-.
  pose proof (merged_content_ok _ _ _ _ Hm Hov Hval) as Hok.
  apply merge_payloads_folds in Hm as (Hc & Hg & Hh). cbn [mg_counters mg_gauges mg_histograms mg_overflow] in *.
  destruct (render_decodes _ Hok) as (Dc & Dg & Dh).
  assert (Hr : ∀ kind rs, iter_metric_records (merged_payload c m) kind = Ok rs →
    records_of kind (merged_payload c m) = rs) by (intros ?? Hd; unfold records_of; by rewrite Hd).
  rewrite (Hr _ _ Dc), (Hr _ _ Dg), (Hr _ _ Dh). clear Hr.
  cbn [pc_counters pc_gauges pc_histograms merged_content].
  destruct (merge_counters_total _ _ _ Hc (map_Forall_empty _) Hi) as [Ha Hk].
  destruct (merge_histograms_kept ∅ 0 _ (map_Forall_empty _) (all_records_ok KHistogram ps)) as (_ & Hkept & _ & Hv).
  rewrite <-Hh in Hkept, Hv. cbn [fst snd] in *. split_and!.
  - intros key. rewrite total_at_rendered, observation_count_rendered.
    rewrite (count_overflow_total _ _ Hov Ha), Hk, lookup_empty. change (kept ∅) with 0 in Hkept.
    cbn [int_of]. case_decide; lia.
  - intros key. rewrite values_at_rendered, Hv, lookup_empty. done.
  - intros key s. rewrite gauge_at_rendered, Hg, merge_gauges_at by apply all_records_ok.
    unfold gauge_at. by destruct (last _).
Qed.

(** ** Examples: a buffer drained twice, and the drop of an overflowing histogram *)
Module TelemetryExamples.
Definition hits : list telemetry_call :=
  [TIncrement (MStr (lit "spoolcache_hit_tokens_total")) (MNum (NInt 256)) [];
   TIncrement (MStr (lit "spoolcache_hit_tokens_total")) (MNum (NInt 512)) [];
   TIncrement (MStr (lit "spoolcache_lookup_total")) (MNum (NInt 1)) [MStr (lit "hit"); MStr (lit "nowhere")];
   TSetGauge (MStr (lit "spoolcache_required_ranks")) (MNum (NInt 2)) []].

Definition buffer0 : TelemetryBuffer := Buffer (lit "scheduler") ∅ ∅ ∅.
Definition drained : mval := (drain (foldl run_telemetry buffer0 hits)).1.
Definition total_key : metric_key := (lit "spoolcache_hit_tokens_total", []).

Lemma drained_payload_decodes_witness :
  iter_metric_records drained KCounter = Ok [MkRecord (lit "spoolcache_hit_tokens_total") [] (Some (NInt 768)) [] None].
Proof.
  destruct (drained_payload_decodes (MStr (lit "scheduler")) buffer0 hits) as (Hc & _);
    [vm_compute; reflexivity|].
  etrans; [exact Hc|]. vm_compute. reflexivity.
Defined.

Definition merged : mval := match merge_metric_payloads [drained; drained] with Ok m => m | Raise _ => MObj end.

Lemma merge_conserves_witness : total_at total_key (records_of KCounter merged) = 1536.
Proof.
  destruct (merge_conserves [drained; drained] merged) as (Hc & _).
  - vm_compute. reflexivity.
  - apply Forall_forall. intros r Hr.
    assert (Hall : forallb (λ r, match mr_value r with Some v => is_int v | None => false end)
      ([drained; drained] ≫= records_of KCounter) = true) by (vm_compute; reflexivity).
    rewrite forallb_forall in Hall. apply list_elem_of_In, Hall in Hr.
    destruct (mr_value r) as [v|]; [by exists v|done].
  - etrans; [exact (Hc total_key)|]. vm_compute. reflexivity.
Defined.
End TelemetryExamples.
