(* ===== verification/Inventory.v ===== *)
(** * Inventory records and their validation ([src/spoolcache/quorum.py])

    The frozen dataclasses that workers send to the scheduler, the raw objects
    as they arrive (every field may hold any Python object), and the validators
    that separate the two.  A validator of the code returns nothing or raises;
    here it returns the typed view of the object it accepted, and
    [validate_entries_Ok] and [validate_inventory_report_Ok] state that the
    view is the object. *)
From S2P Require Import Prelude Dict Config.

Definition MAX_GENERATION_LENGTH : Z := 128.
Definition MAX_INVENTORY_REPORTS : Z := 4096.
Definition GENERATION_HISTORY_LIMIT : nat := 64.

Record InventoryCheckpoint := Checkpoint {
  ck_sequence : Z;
  ck_cycle : Z;
  ck_index : Z;
  ck_count : Z;
  ck_held_count : Z;
  ck_entries : list (pystr * Z)
}.

Record InventoryDelta := Delta {
  d_sequence : Z;
  d_base_sequence : Z;
  d_added : list (pystr * Z);
  d_removed : list pystr
}.

Record WorkerInventoryReport := Report {
  r_rank : Z;
  r_generation : pystr;
  r_generation_epoch : Z;
  r_checkpoint : InventoryCheckpoint;
  r_delta : option InventoryDelta
}.

(** ** Objects as received *)
Inductive raw_checkpoint :=
  | NotACheckpoint
  | RawCheckpoint (sequence cycle index count held_count entries : pyval).

Inductive raw_delta :=
  | NoDelta
  | NotADelta
  | RawDelta (sequence base_sequence added removed : pyval).

Record raw_report := RawReport {
  raw_is_report : bool;
  raw_rank : pyval;
  raw_generation : pyval;
  raw_generation_epoch : pyval;
  raw_checkpoint_of : raw_checkpoint;
  raw_delta_of : raw_delta
}.

(** The object that carries a typed value. *)
Definition entry_val (p : pystr * Z) : pyval := VTuple [VStr p.1; VInt p.2].

Definition raw_of_checkpoint (c : InventoryCheckpoint) : raw_checkpoint :=
  RawCheckpoint (VInt (ck_sequence c)) (VInt (ck_cycle c)) (VInt (ck_index c))
    (VInt (ck_count c)) (VInt (ck_held_count c)) (VTuple (entry_val <$> ck_entries c)).

Definition raw_of_delta (d : option InventoryDelta) : raw_delta :=
  match d with
  | None => NoDelta
  | Some d => RawDelta (VInt (d_sequence d)) (VInt (d_base_sequence d))
                (VTuple (entry_val <$> d_added d)) (VTuple (VStr <$> d_removed d))
  end.

Definition raw_of_report (r : WorkerInventoryReport) : raw_report :=
  RawReport true (VInt (r_rank r)) (VStr (r_generation r)) (VInt (r_generation_epoch r))
    (raw_of_checkpoint (r_checkpoint r)) (raw_of_delta (r_delta r)).

#[export] Instance entry_val_inj : Inj (=) (=) entry_val.
Proof. by intros [] [] [= -> ->]. Qed.
#[export] Instance VStr_inj : Inj (=) (=) VStr.
Proof. by intros ?? [= ->]. Qed.

Lemma raw_of_report_inj r r' : raw_of_report r = raw_of_report r' → r = r'.
Proof.
  destruct r as [? ? ? [] d], r' as [? ? ? [] d']. intros E. injection E.
  cbn. intros Hd Hes -> -> -> -> -> -> -> ->. apply (inj (fmap entry_val)) in Hes as ->. f_equal.
  destruct d as [[]|], d' as [[]|]; cbn in *; try done.
  injection Hd as -> -> Ha Hr. apply (inj (fmap entry_val)) in Ha as ->.
  apply (inj (fmap VStr)) in Hr as ->. done.
Qed.

(** ** Validators *)
Definition validate_entry (item : pyval) : result (pystr * Z) :=
  match item with
  | VTuple [id; span] =>
      match as_str id with
      | Some s =>
          if is_digest s then
            z ← need_int span (λ z, (z <=? 0) || (MAX_COUNTER <? z)) ManifestError
                  "inventory token span is invalid";
            Ok (s, z)
          else raise ManifestError "inventory entry ID is malformed"
      | None => raise ManifestError "inventory entry ID is malformed"
      end
  | _ => raise ManifestError "inventory entry is malformed"
  end.

Definition validate_entries : list pyval → result (list (pystr * Z)) :=
  mapM_result validate_entry.

Definition valid_entry (p : pystr * Z) : Prop :=
  is_digest p.1 = true ∧ 0 < p.2 ≤ MAX_COUNTER.

(** The identity test shared by the report, the startup call and the reporter. *)
Definition generation_identity (generation epoch : pyval) : option (pystr * Z) :=
  match as_str generation, as_int epoch with
  | Some g, Some e =>
      if (Z.of_nat (length g) =? 0) || (MAX_GENERATION_LENGTH <? Z.of_nat (length g))
         || (e <? 0) || (MAX_COUNTER <? e)
      then None else Some (g, e)
  | _, _ => None
  end.

Definition validate_generation_identity (generation epoch : pyval) : result (pystr * Z) :=
  match generation_identity generation epoch with
  | Some ge => Ok ge
  | None => raise ValueError "inventory generation identity is invalid"
  end.

Section validate.
Context `{ObjectSizes}.

Definition validate_checkpoint (max_bytes max_report_entries : Z) (raw : raw_checkpoint)
    : result InventoryCheckpoint :=
  match raw with
  | RawCheckpoint s cy i n h (VTuple es) =>
      match as_int s, as_int cy, as_int i, as_int n, as_int h with
      | Some s, Some cy, Some i, Some n, Some h =>
          _ ← raise_if ((s <? 0) || (MAX_COUNTER <? s) || (cy <? 0) || (MAX_COUNTER <? cy)
                        || (n <=? 0) || (Z.max 1 h <? n) || negb ((0 <=? i) && (i <? n))
                        || (h <? 0)) ManifestError "checkpoint bounds are invalid";
          cap ← inventory_capacity (VInt max_bytes);
          _ ← raise_if ((cap <? h) || (max_report_entries <? Z.of_nat (length es))
                        || (h <? Z.of_nat (length es))) ManifestError
                "checkpoint bounds are invalid";
          entries ← validate_entries es;
          Ok (Checkpoint s cy i n h entries)
      | _, _, _, _, _ => raise ManifestError "checkpoint counters are malformed"
      end
  | _ => raise ManifestError "inventory checkpoint type is malformed"
  end.

Definition validate_delta (max_report_entries : Z) (raw : raw_delta)
    : result (option InventoryDelta) :=
  match raw with
  | NoDelta => Ok None
  | RawDelta s b (VTuple added) (VTuple removed) =>
      match as_int s, as_int b with
      | Some s, Some b =>
          _ ← raise_if ((b <? 0) || (MAX_COUNTER <? b) || (s <=? 0) || (MAX_COUNTER <? s)
                        || negb (s =? b + 1)) ManifestError "delta counters are malformed";
          a ← validate_entries added;
          r ← validate_entries ((λ id, VTuple [id; VInt 1]) <$> removed);
          _ ← raise_if ((max_report_entries <? Z.of_nat (length a) + Z.of_nat (length r))
                        || negb (bool_decide (NoDup a.*1)) || negb (bool_decide (NoDup r.*1))
                        || negb (bool_decide (Forall (λ k, k ∉ r.*1) a.*1))) ManifestError
                "inventory delta contains duplicate entry IDs";
          Ok (Some (Delta s b a r.*1))
      | _, _ => raise ManifestError "delta counters are malformed"
      end
  | _ => raise ManifestError "inventory delta type is malformed"
  end.

Definition validate_inventory_report (max_bytes max_report_entries : Z) (report : raw_report)
    : result WorkerInventoryReport :=
  _ ← raise_if (max_bytes <=? 0) ValueError "inventory validation bound must be positive";
  _ ← raise_if (max_report_entries <=? 0) ValueError "report validation bound must be positive";
  _ ← raise_if (negb (raw_is_report report)) ManifestError "inventory report type is malformed";
  rank ← need_int (raw_rank report) (λ z, (z <? 0) || (MAX_INVENTORY_REPORTS <=? z))
           ManifestError "inventory generation is malformed";
  ge ← match generation_identity (raw_generation report) (raw_generation_epoch report) with
       | Some ge => Ok ge
       | None => raise ManifestError "inventory generation is malformed"
       end;
  checkpoint ← validate_checkpoint max_bytes max_report_entries (raw_checkpoint_of report);
  delta ← validate_delta max_report_entries (raw_delta_of report);
  Ok (Report rank ge.1 ge.2 checkpoint delta).

(** ** What acceptance means *)
Lemma validate_entry_Ok item p :
  validate_entry item = Ok p ↔ item = entry_val p ∧ valid_entry p.
Proof.
  unfold validate_entry, entry_val, valid_entry. split.
  - intros V. repeat case_match; inv_ok; try done. bsimp.
    match goal with E : as_str _ = Some _ |- _ => apply as_str_Some in E as -> end.
    cbn. repeat split; try done; lia.
  - destruct p as [s z]; cbn. intros [-> [Hd Hz]]. cbn. rewrite Hd. cbn.
    case_match eqn:E; [bsimp; lia|done].
Qed.

Lemma validate_entries_Ok items l :
  validate_entries items = Ok l ↔ items = entry_val <$> l ∧ Forall valid_entry l.
Proof.
  unfold validate_entries. rewrite mapM_result_Ok. split.
  - induction 1 as [|i p its l Hi _ [-> IH]]; [done|]. apply validate_entry_Ok in Hi as [-> ?].
    split; [done|]. by constructor.
  - intros [-> Hl]. induction Hl as [|p l Hp Hl IH]; [constructor|].
    constructor; [by apply validate_entry_Ok|done].
Qed.

(** The validators raise [ManifestError] only. *)
Lemma validate_entry_Raise item e : validate_entry item = Raise e → exn_class e = ManifestError.
Proof.
  unfold validate_entry, need_int, raise, mbind, result_bind. intros V.
  repeat (case_match; simplify_eq/=; try done).
Qed.

Lemma validate_entries_Raise items e :
  validate_entries items = Raise e → exn_class e = ManifestError.
Proof.
  unfold validate_entries. induction items as [|i items IH]; cbn; [done|].
  unfold mbind, result_bind. destruct (validate_entry i) eqn:Ei.
  - destruct (mapM_result _ _) eqn:Em; [done|]. intros [= ->]. by apply IH.
  - intros [= <-]. by eapply validate_entry_Raise.
Qed.

Lemma removed_entries_Ok removed r :
  validate_entries ((λ id, VTuple [id; VInt 1]) <$> removed) = Ok r →
  removed = VStr <$> r.*1.
Proof.
  intros [E _]%validate_entries_Ok. revert r E; induction removed as [|v vs IH]; intros [|p r]; cbn;
    try done. intros [= -> _ E]. f_equal. by apply IH.
Qed.

Lemma generation_identity_Some g e ge :
  generation_identity g e = Some ge ↔
  g = VStr ge.1 ∧ e = VInt ge.2 ∧
  0 < Z.of_nat (length ge.1) ≤ MAX_GENERATION_LENGTH ∧ 0 ≤ ge.2 ≤ MAX_COUNTER.
Proof.
  unfold generation_identity. destruct ge as [gs es]; cbn. split.
  - destruct g, e; cbn; try done. case_match eqn:E; [done|]. intros [= -> ->]. bsimp.
    repeat split; try done; lia.
  - intros (-> & -> & ? & ?). cbn. case_match eqn:E; [bsimp; lia|done].
Qed.

(** The typed report is the received object, and satisfies every bound. *)
Record report_ok (max_bytes max_report_entries : Z) (r : WorkerInventoryReport) : Prop := {
  rok_rank : 0 ≤ r_rank r < MAX_INVENTORY_REPORTS;
  rok_generation : 0 < Z.of_nat (length (r_generation r)) ≤ MAX_GENERATION_LENGTH;
  rok_epoch : 0 ≤ r_generation_epoch r ≤ MAX_COUNTER;
  rok_sequence : 0 ≤ ck_sequence (r_checkpoint r) ≤ MAX_COUNTER;
  rok_cycle : 0 ≤ ck_cycle (r_checkpoint r) ≤ MAX_COUNTER;
  rok_index : 0 ≤ ck_index (r_checkpoint r) < ck_count (r_checkpoint r);
  rok_count : ck_count (r_checkpoint r) ≤ Z.max 1 (ck_held_count (r_checkpoint r));
  rok_held : 0 ≤ ck_held_count (r_checkpoint r) ≤ max_bytes / INVENTORY_ENTRY_BYTES;
  rok_page : Z.of_nat (length (ck_entries (r_checkpoint r))) ≤ max_report_entries;
  rok_page_held : Z.of_nat (length (ck_entries (r_checkpoint r))) ≤ ck_held_count (r_checkpoint r);
  rok_entries : Forall valid_entry (ck_entries (r_checkpoint r));
  rok_delta : ∀ d, r_delta r = Some d →
    d_sequence d = d_base_sequence d + 1 ∧ 0 ≤ d_base_sequence d < MAX_COUNTER ∧
    Forall valid_entry (d_added d) ∧
    Forall (λ k, is_digest k = true) (d_removed d) ∧
    Z.of_nat (length (d_added d)) + Z.of_nat (length (d_removed d)) ≤ max_report_entries ∧
    NoDup (d_added d).*1 ∧ NoDup (d_removed d) ∧
    (∀ k, k ∈ (d_added d).*1 → k ∉ d_removed d)
}.

Lemma validate_checkpoint_Ok mb me raw c :
  validate_checkpoint mb me raw = Ok c →
  raw = raw_of_checkpoint c ∧
  0 ≤ ck_sequence c ≤ MAX_COUNTER ∧ 0 ≤ ck_cycle c ≤ MAX_COUNTER ∧
  0 ≤ ck_index c < ck_count c ∧ ck_count c ≤ Z.max 1 (ck_held_count c) ∧
  0 ≤ ck_held_count c ≤ mb / INVENTORY_ENTRY_BYTES ∧
  Z.of_nat (length (ck_entries c)) ≤ me ∧
  Z.of_nat (length (ck_entries c)) ≤ ck_held_count c ∧
  Forall valid_entry (ck_entries c).
Proof.
  unfold validate_checkpoint. intros V.
  destruct raw as [|s cy i n h es]; [done|]. destruct es; try done.
  typed. inv_ok.
  match goal with E : inventory_capacity _ = Ok _ |- _ =>
    apply inventory_capacity_Ok in E as (m & [= <-] & ? & ->) end.
  match goal with E : validate_entries _ = Ok _ |- _ =>
    apply validate_entries_Ok in E as [-> ?] end.
  bsimp. rewrite length_fmap in *. cbn. repeat split; try done; lia.
Qed.

Lemma validate_delta_Ok me raw od :
  validate_delta me raw = Ok od →
  raw = raw_of_delta od ∧ ∀ d, od = Some d →
    d_sequence d = d_base_sequence d + 1 ∧ 0 ≤ d_base_sequence d < MAX_COUNTER ∧
    Forall valid_entry (d_added d) ∧
    Forall (λ k, is_digest k = true) (d_removed d) ∧
    Z.of_nat (length (d_added d)) + Z.of_nat (length (d_removed d)) ≤ me ∧
    NoDup (d_added d).*1 ∧ NoDup (d_removed d) ∧
    (∀ k, k ∈ (d_added d).*1 → k ∉ d_removed d).
Proof.
  unfold validate_delta. intros V.
  destruct raw as [| |s b added removed]; [by inv_ok|done|].
  destruct added; try done. destruct removed; try done. typed. inv_ok.
  match goal with E : validate_entries ((λ _, _) <$> _) = Ok _ |- _ =>
    pose proof (removed_entries_Ok _ _ E) as ->; apply validate_entries_Ok in E as [_ Hrv] end.
  match goal with E : validate_entries _ = Ok _ |- _ =>
    apply validate_entries_Ok in E as [-> ?] end.
  bsimp. split; [done|]. intros d [= <-]. cbn.
  destruct_and?. repeat match goal with E : Forall _ (_.*1) |- _ => rewrite Forall_forall in E end.
  repeat split; try done; try lia.
  - apply Forall_fmap. eapply Forall_impl; [exact Hrv|]. by intros p [? _].
  - rewrite length_fmap. lia.
Qed.

Lemma validate_inventory_report_Ok mb me raw r :
  validate_inventory_report mb me raw = Ok r → raw = raw_of_report r ∧ report_ok mb me r.
Proof.
  unfold validate_inventory_report. intros V. inv_ok. bsimp.
  destruct raw as [isr rk g e ck d]; cbn in *. subst.
  destruct (generation_identity g e) as [ge|] eqn:Ege; [|discriminate]. inv_ok.
  apply generation_identity_Some in Ege as (-> & -> & ? & ?).
  match goal with E : validate_checkpoint _ _ _ = Ok _ |- _ =>
    apply validate_checkpoint_Ok in E as (-> & ? & ? & ? & ? & ? & ? & ? & ?) end.
  match goal with E : validate_delta _ _ = Ok _ |- _ =>
    apply validate_delta_Ok in E as (-> & ?) end.
  split; [done|]. constructor; cbn; try done; lia.
Qed.

Lemma validate_checkpoint_Raise mb me raw e :
  INVENTORY_ENTRY_BYTES ≤ mb →
  validate_checkpoint mb me raw = Raise e → exn_class e = ManifestError.
Proof.
  intros Hmb Hv. unfold validate_checkpoint in Hv. repeat case_match; inv_raise.
  - unfold inventory_capacity in Hv; cbn in Hv. case_match eqn:E; [bsimp; lia|done].
  - by eapply validate_entries_Raise.
Qed.

Lemma validate_delta_Raise me raw e :
  validate_delta me raw = Raise e → exn_class e = ManifestError.
Proof.
  intros Hv. unfold validate_delta in Hv. repeat case_match; inv_raise;
    by eapply validate_entries_Raise.
Qed.

(** With sensible bounds, a refused report is a [ManifestError]. *)
Lemma validate_inventory_report_Raise mb me raw e :
  INVENTORY_ENTRY_BYTES ≤ mb → 0 < me →
  validate_inventory_report mb me raw = Raise e → exn_class e = ManifestError.
Proof.
  intros Hmb Hme Hv. unfold validate_inventory_report in Hv. pose proof entry_bytes_positive.
  inv_raise; try (bsimp; lia).
  - by destruct (generation_identity _ _); inv_raise.
  - by eapply validate_checkpoint_Raise.
  - by eapply validate_delta_Raise.
Qed.
End validate.
