(* ===== verification/Reporter.v ===== *)
(** * The worker's inventory reporter ([InventoryReporter], quorum.py)

    [held] is the worker's bounded catalog (oldest first), [observed] the image
    the scheduler has been told about.  [next_report] first emits the difference
    as one delta (or, when too many keys must be withdrawn at once, a deliberate
    sequence gap), then one page of the rolling checkpoint.  The reentrant lock
    of the code serializes whole methods, so each operation is one step. *)
From S2P Require Import Prelude Dict Config Inventory.

Definition HISTORY_LIMIT : nat := 64.

Record InventoryReporter := Reporter {
  rp_rank : Z;
  rp_generation : pystr;
  rp_generation_epoch : Z;
  rp_max_bytes : Z;
  rp_max_report_entries : Z;
  held : list (pystr * Z);
  observed : gmap pystr Z;
  dirty : bool;
  sequence : Z;
  history : list InventoryDelta;
  delta_cursor : Z;
  checkpoint_items : list (pystr * Z);
  checkpoint_sequence : Z;
  checkpoint_cycle : Z;
  checkpoint_index : Z
}.

(** Field updates. *)
Definition set_held (h : list (pystr * Z)) (d : bool) (r : InventoryReporter) :=
  Reporter (rp_rank r) (rp_generation r) (rp_generation_epoch r) (rp_max_bytes r)
    (rp_max_report_entries r) h (observed r) d (sequence r) (history r) (delta_cursor r)
    (checkpoint_items r) (checkpoint_sequence r) (checkpoint_cycle r) (checkpoint_index r).

Definition set_dirty (d : bool) (r : InventoryReporter) := set_held (held r) d r.

Definition set_delta_cursor (c : Z) (r : InventoryReporter) :=
  Reporter (rp_rank r) (rp_generation r) (rp_generation_epoch r) (rp_max_bytes r)
    (rp_max_report_entries r) (held r) (observed r) (dirty r) (sequence r) (history r) c
    (checkpoint_items r) (checkpoint_sequence r) (checkpoint_cycle r) (checkpoint_index r).

Definition set_page (cycle index : Z) (r : InventoryReporter) :=
  Reporter (rp_rank r) (rp_generation r) (rp_generation_epoch r) (rp_max_bytes r)
    (rp_max_report_entries r) (held r) (observed r) (dirty r) (sequence r) (history r)
    (delta_cursor r) (checkpoint_items r) (checkpoint_sequence r) cycle index.

(** [sorted(d.items())] of an unordered dictionary *)
Definition sorted_items (m : gmap pystr Z) : list (pystr * Z) := py_sorted_items (map_to_list m).

Section reporter.
Context `{ObjectSizes}.

Definition reporter_init (rank generation generation_epoch max_bytes max_report_entries : pyval)
    : result InventoryReporter :=
  match as_int rank, generation_identity generation generation_epoch with
  | Some rk, Some (g, e) =>
      _ ← raise_if ((rk <? 0) || (MAX_INVENTORY_REPORTS <=? rk)) ValueError
            "worker inventory identity is invalid";
      mb ← need_int max_bytes (λ z, z <=? 0) ValueError "worker inventory bound must be positive";
      me ← need_int max_report_entries (λ z, z <=? 0) ValueError
             "worker report bound must be positive";
      _ ← inventory_capacity (VInt mb);
      Ok (Reporter rk g e mb me [] ∅ false 0 [] 0 [] 0 0 0)
  | _, _ => raise ValueError "worker inventory identity is invalid"
  end.

(** The newest entries that fit the record allowance. *)
Fixpoint select_bounded (max_bytes : Z) (selected : list (pyval * pyval))
    (items : list (pyval * pyval)) : list (pyval * pyval) :=
  match items with
  | [] => selected
  | item :: items =>
      if max_bytes <? (Z.of_nat (length selected) + 1) * INVENTORY_ENTRY_BYTES then selected
      else select_bounded max_bytes (selected ++ [item]) items
  end.

Definition replace (entries : list (pyval * pyval)) : SE InventoryReporter unit := λ r,
  let selected := select_bounded (rp_max_bytes r) [] entries in
  match validate_entries ((λ p, VTuple [p.1; p.2]) <$> selected) with
  | Raise e => (Raise e, r)
  | Ok l => (Ok tt, set_held (od_of_list (reverse l)) true r)
  end.

(** The catalog after one entry is added, evicting the oldest if it is full. *)
Definition add_held (max_bytes : Z) (id : pystr) (span : Z) (h : list (pystr * Z))
    : list (pystr * Z) :=
  let h := od_pop id h in
  let h := if max_bytes <? (Z.of_nat (length h) + 1) * INVENTORY_ENTRY_BYTES
           then match h with [] => [] | p :: _ => od_pop p.1 h end
           else h in
  od_set id span h.

Definition add (entry_id span_tokens : pyval) : SE InventoryReporter unit := λ r,
  match validate_entry (VTuple [entry_id; span_tokens]) with
  | Raise e => (Raise e, r)
  | Ok (id, span) =>
      let previous := od_get id (held r) in
      (Ok tt, set_held (add_held (rp_max_bytes r) id span (held r))
                (dirty r || negb (bool_decide (previous = Some span))) r)
  end.

Definition remove (entry_id : pystr) (r : InventoryReporter) : InventoryReporter :=
  set_held (od_pop entry_id (held r))
    (dirty r || bool_decide (is_Some (od_get entry_id (held r)))) r.

Definition held_entry_ids (r : InventoryReporter) : list pystr := (held r).*1.

Definition startup (r : InventoryReporter) : list (pystr * Z) * InventoryReporter :=
  let inventory := py_sorted_items (held r) in
  (inventory,
   Reporter (rp_rank r) (rp_generation r) (rp_generation_epoch r) (rp_max_bytes r)
     (rp_max_report_entries r) (held r) (od_map (held r)) false (sequence r) (history r)
     (delta_cursor r) inventory (sequence r) (checkpoint_cycle r) (checkpoint_index r)).

(** Advertised keys that the catalog no longer holds with the same span. *)
Definition removed_keys (r : InventoryReporter) : list pystr :=
  py_sorted_keys (map_to_list (filter (λ p, od_get p.1 (held r) ≠ Some p.2) (observed r))).*1.

(** Held entries whose key has not been advertised. *)
Definition unadvertised (r : InventoryReporter) : list (pystr * Z) :=
  py_sorted_items (filter (λ p, observed r !! p.1 = None) (held r)).

(** The mutation branch of [next_report]: the state after emitting one delta. *)
Definition emit_mutation (batch_size : Z) (r : InventoryReporter) : InventoryReporter :=
  let removed := removed_keys r in
  let base := sequence r in
  let fits := Z.of_nat (length removed) <=? batch_size in
  let added := if fits
               then take (Z.to_nat (batch_size - Z.of_nat (length removed))) (unadvertised r)
               else [] in
  let sequence' := if fits then base + 1 else base + 2 in
  let delta := Delta sequence' (sequence' - 1) added (if fits then removed else []) in
  let observed' :=
    if fits
    then list_to_map added ∪ foldr delete (observed r) removed
    else od_map (held r) in
  let history' := deque_append HISTORY_LIMIT (if fits then history r else []) delta in
  Reporter (rp_rank r) (rp_generation r) (rp_generation_epoch r) (rp_max_bytes r)
    (rp_max_report_entries r) (held r) observed' (dirty r) sequence' history'
    (Z.of_nat (length history') - 1)
    (sorted_items observed') sequence' (checkpoint_cycle r + 1) 0.

(** One page of the rolling checkpoint. *)
Definition checkpoint_page (batch_size : Z) (r : InventoryReporter) : InventoryCheckpoint :=
  let n := Z.of_nat (length (checkpoint_items r)) in
  let count := Z.max 1 ((n + batch_size - 1) / batch_size) in
  let index := checkpoint_index r in
  Checkpoint (checkpoint_sequence r) (checkpoint_cycle r) index count n
    (take (Z.to_nat batch_size) (drop (Z.to_nat (index * batch_size)) (checkpoint_items r))).

Definition advance_page (batch_size : Z) (r : InventoryReporter) : InventoryReporter :=
  let index := checkpoint_index r + 1 in
  if ck_count (checkpoint_page batch_size r) <=? index
  then set_page (checkpoint_cycle r + 1) 0 r
  else set_page (checkpoint_cycle r) index r.

(** The retained delta at the cursor, and the rotated cursor. *)
Definition rotate_delta (r : InventoryReporter) : option InventoryDelta * InventoryReporter :=
  match history r with
  | [] => (None, r)
  | _ =>
      let n := Z.of_nat (length (history r)) in
      (history r !! Z.to_nat (delta_cursor r mod n),
       set_delta_cursor ((delta_cursor r + 1) mod n) r)
  end.

(** The state in which the page and the delta are read. *)
Definition settle (batch_size : Z) (r : InventoryReporter) : InventoryReporter :=
  let r := if dirty r && negb (bool_decide (od_map (held r) = observed r))
           then emit_mutation batch_size r else r in
  set_dirty (negb (Z.of_nat (length (held r)) =? Z.of_nat (size (observed r)))) r.

Definition next_report (batch_size : pyval) : SE InventoryReporter WorkerInventoryReport := λ r,
  match need_int batch_size (λ b, (b <=? 0) || (rp_max_report_entries r <? b)) ValueError
          "inventory batch size exceeds its fixed bound" with
  | Raise e => (Raise e, r)
  | Ok b =>
      let r := settle b r in
      let checkpoint := checkpoint_page b r in
      let r := advance_page b r in
      let (delta, r) := rotate_delta r in
      (Ok (Report (rp_rank r) (rp_generation r) (rp_generation_epoch r) checkpoint delta), r)
  end.
End reporter.
