(* ===== verification/Catalog.v ===== *)
(** * The scheduler's quorum catalog ([QuorumCatalog], quorum.py)

    One image per rank ([rank_entries], insertion-ordered), the inverse index
    [entry_ranks], an LRU order over its keys, the pending rolling checkpoint of
    every rank, and the withdrawal sets.  Methods that may raise after changing
    the object are in the state-and-exception monad [SE]: the state survives. *)
From S2P Require Import Prelude Dict Config Inventory.

Record PendingCheckpoint := Pending {
  p_sequence : Z;
  p_cycle : Z;
  p_count : Z;
  p_held_count : Z;
  p_pages : gmap Z (list (pystr * Z));
  p_entry_count : Z
}.

Record QuorumCatalog := Catalog {
  expected_ranks : gset Z;
  max_bytes : Z;
  max_report_entries : Z;
  generation : gmap Z (pystr * Z);
  generation_history : gmap Z (list (pystr * Z));
  sequences : gmap Z Z;
  rank_entries : gmap Z (list (pystr * Z));
  entry_ranks : gmap pystr (gset Z);
  pending : gmap Z PendingCheckpoint;
  desynchronized : gset Z;
  generation_conflicts : gset Z;
  recency : list pystr;
  generation_changes_total : Z;
  quorum_count_cache : option Z
}.

(** ** Field updates *)
Definition set_index (re : gmap Z (list (pystr * Z))) (er : gmap pystr (gset Z))
    (rc : list pystr) (qc : option Z) (c : QuorumCatalog) : QuorumCatalog :=
  Catalog (expected_ranks c) (max_bytes c) (max_report_entries c) (generation c)
    (generation_history c) (sequences c) re er (pending c) (desynchronized c)
    (generation_conflicts c) rc (generation_changes_total c) qc.

Definition set_protocol (sq : gmap Z Z) (pd : gmap Z PendingCheckpoint) (ds : gset Z)
    (c : QuorumCatalog) : QuorumCatalog :=
  Catalog (expected_ranks c) (max_bytes c) (max_report_entries c) (generation c)
    (generation_history c) sq (rank_entries c) (entry_ranks c) pd ds
    (generation_conflicts c) (recency c) (generation_changes_total c) (quorum_count_cache c).

Definition set_generation (g : gmap Z (pystr * Z)) (h : gmap Z (list (pystr * Z)))
    (gc : gset Z) (n : Z) (c : QuorumCatalog) : QuorumCatalog :=
  Catalog (expected_ranks c) (max_bytes c) (max_report_entries c) g h (sequences c)
    (rank_entries c) (entry_ranks c) (pending c) (desynchronized c) gc (recency c) n
    (quorum_count_cache c).

Definition set_sequence (rank z : Z) (c : QuorumCatalog) :=
  set_protocol (<[rank := z]> (sequences c)) (pending c) (desynchronized c) c.
Definition set_pending (rank : Z) (p : PendingCheckpoint) (c : QuorumCatalog) :=
  set_protocol (sequences c) (<[rank := p]> (pending c)) (desynchronized c) c.
Definition pop_pending (rank : Z) (c : QuorumCatalog) :=
  set_protocol (sequences c) (delete rank (pending c)) (desynchronized c) c.
Definition desync_add (rank : Z) (c : QuorumCatalog) :=
  set_protocol (sequences c) (pending c) ({[rank]} ∪ desynchronized c) c.
Definition desync_discard (rank : Z) (c : QuorumCatalog) :=
  set_protocol (sequences c) (pending c) (desynchronized c ∖ {[rank]}) c.

(** The image of one rank, and the sequence it reflects. *)
Definition entries_of (c : QuorumCatalog) (rank : Z) : list (pystr * Z) :=
  default [] (rank_entries c !! rank).
Definition sequence_of (c : QuorumCatalog) (rank : Z) : Z := default 0 (sequences c !! rank).

Section catalog.
Context `{ObjectSizes}.

Definition catalog_init (expected : list pyval) (mb me : pyval) : result QuorumCatalog :=
  let materialized := take (Z.to_nat (MAX_INVENTORY_REPORTS + 1)) expected in
  ranks ← mapM_result (λ v, need_int v (λ z, z <? 0) ValueError "expected ranks are invalid")
            materialized;
  let n := Z.of_nat (length ranks) in
  _ ← raise_if ((n =? 0) || (MAX_INVENTORY_REPORTS <? n) || negb (bool_decide (NoDup ranks))
                || negb (bool_decide (list_to_set ranks =@{gset Z} list_to_set (seqZ 0 n))))
        ValueError "expected ranks are invalid";
  mb ← need_int mb (λ z, z <=? 0) ValueError "catalog max_bytes must be positive";
  me ← need_int me (λ z, z <=? 0) ValueError "catalog report bound must be positive";
  _ ← inventory_capacity (VInt mb);
  let expected := list_to_set ranks in
  Ok (Catalog expected mb me ∅ (gset_to_gmap [] expected) ∅ (gset_to_gmap [] expected) ∅ ∅
        expected ∅ [] 0 None).

(** ** Withdrawal and replacement of one rank's image *)

(** The index after [rank] stops offering [entry_id]. *)
Definition withdraw_entry (rank : Z) (ix : gmap pystr (gset Z) * list pystr) (entry_id : pystr)
    : gmap pystr (gset Z) * list pystr :=
  match ix.1 !! entry_id with
  | None => ix
  | Some ranks =>
      let ranks := ranks ∖ {[rank]} in
      if decide (ranks = ∅)
      then (delete entry_id ix.1, filter (λ e, e ≠ entry_id) ix.2)
      else (<[entry_id := ranks]> ix.1, ix.2)
  end.

Definition withdraw_rank (rank : Z) (c : QuorumCatalog) : QuorumCatalog :=
  let ix := foldl (withdraw_entry rank) (entry_ranks c, recency c) (entries_of c rank).*1 in
  set_index (<[rank := []]> (rank_entries c)) ix.1 ix.2 None c.

(** [_touch]: move to the most recent end. *)
Definition touch_list (entry_id : pystr) (l : list pystr) : list pystr :=
  filter (λ e, e ≠ entry_id) l ++ [entry_id].

Definition touch (entry_id : pystr) (c : QuorumCatalog) : QuorumCatalog :=
  set_index (rank_entries c) (entry_ranks c) (touch_list entry_id (recency c))
    (quorum_count_cache c) c.

Definition offer_entry (rank : Z) (ix : gmap pystr (gset Z) * list pystr) (entry_id : pystr)
    : gmap pystr (gset Z) * list pystr :=
  (<[entry_id := {[rank]} ∪ default ∅ (ix.1 !! entry_id)]> ix.1, touch_list entry_id ix.2).

(** One eviction: the least recent entry leaves every image. *)
Definition evict_entry (entry_id : pystr) (re : gmap Z (list (pystr * Z)))
    (er : gmap pystr (gset Z)) : gmap Z (list (pystr * Z)) * gmap pystr (gset Z) :=
  let ranks := default ∅ (er !! entry_id) in
  (foldl (λ m r, alter (od_pop entry_id) r m) re (elements ranks), delete entry_id er).

Fixpoint enforce_loop (mb : Z) (todo : list pystr) (re : gmap Z (list (pystr * Z)))
    (er : gmap pystr (gset Z)) (qc : option Z)
    : gmap Z (list (pystr * Z)) * gmap pystr (gset Z) * list pystr * option Z :=
  if mb <? Z.of_nat (size er) * INVENTORY_ENTRY_BYTES then
    match todo with
    | [] => (re, er, [], qc)
    | entry_id :: todo =>
        let (re, er) := evict_entry entry_id re er in
        enforce_loop mb todo re er None
    end
  else (re, er, todo, qc).

Definition enforce_bound (c : QuorumCatalog) : QuorumCatalog :=
  let '(re, er, rc, qc) :=
    enforce_loop (max_bytes c) (recency c) (rank_entries c) (entry_ranks c)
      (quorum_count_cache c) in
  set_index re er rc qc c.

(** The mutations of [_replace_rank]. *)
Definition install_rank (rank : Z) (entries : list (pystr * Z)) (c : QuorumCatalog)
    : QuorumCatalog :=
  let c := withdraw_rank rank c in
  let ix := foldl (offer_entry rank) (entry_ranks c, recency c) entries.*1 in
  let c := set_index (<[rank := entries]> (rank_entries c)) ix.1 ix.2 (quorum_count_cache c) c in
  enforce_bound (desync_discard rank c).

(** [_replace_rank]: the entries are validated again before any change. *)
Definition replace_rank (rank : Z) (entries : list (pystr * Z)) : SE QuorumCatalog unit := λ c,
  match validate_entries (entry_val <$> entries) with
  | Raise e => (Raise e, c)
  | Ok _ => (Ok tt, install_rank rank entries c)
  end.

(** The repeated withdrawal of the report handler. *)
Definition withdraw_and_desync (rank : Z) (c : QuorumCatalog) : QuorumCatalog :=
  desync_add rank (withdraw_rank rank c).

(** ** Generations *)
Inductive disposition := Initial | Stale | Conflict | Newer | Current.

Definition generation_disposition (c : QuorumCatalog) (rank : Z) (g : pystr) (epoch : Z)
    : disposition :=
  match generation c !! rank with
  | None => Initial
  | Some (previous_generation, previous_epoch) =>
      if epoch <? previous_epoch then
        if decide ((g, epoch) ∈ default [] (generation_history c !! rank))
        then Stale else Conflict
      else if previous_epoch <? epoch then Newer
      else if decide (g ≠ previous_generation ∨ rank ∈ generation_conflicts c)
      then Conflict else Current
  end.

Definition adopt_generation (rank : Z) (g : pystr) (epoch : Z) (c : QuorumCatalog)
    : QuorumCatalog :=
  let identity := (g, epoch) in
  let '(hist, total) :=
    match generation c !! rank with
    | Some previous =>
        if decide (previous = identity)
        then (generation_history c, generation_changes_total c)
        else
          let h := default [] (generation_history c !! rank) in
          ((if decide (previous ∈ h) then generation_history c
            else <[rank := deque_append GENERATION_HISTORY_LIMIT h previous]>
                   (generation_history c)),
           generation_changes_total c + 1)
    | None => (generation_history c, generation_changes_total c)
    end in
  let conflicts := generation_conflicts c ∖ {[rank]} in
  let c := withdraw_rank rank c in
  let c := set_generation (<[rank := identity]> (generation c)) hist conflicts total c in
  desync_add rank (pop_pending rank (set_sequence rank 0 c)).

Definition mark_generation_conflict (rank : Z) (c : QuorumCatalog) : QuorumCatalog :=
  let total := if decide (rank ∈ generation_conflicts c) then generation_changes_total c
               else generation_changes_total c + 1 in
  let c := withdraw_rank rank c in
  let c := desync_add rank (pop_pending rank c) in
  set_generation (generation c) (generation_history c)
    ({[rank]} ∪ generation_conflicts c) total c.

(** [rank] must be a literal expected rank. *)
Definition need_rank (c : QuorumCatalog) (rank : pyval) : result Z :=
  match as_int rank with
  | Some rk =>
      if decide (rk ∈ expected_ranks c) then Ok rk
      else raise ValueError "inventory report came from an unexpected rank"
  | None => raise ValueError "inventory report came from an unexpected rank"
  end.

(** ** Startup images *)

(** The part of [apply_startup] that follows the adoption of the generation. *)
Definition install_startup (rk : Z) (entries : list pyval) : SE QuorumCatalog unit := λ c,
  match inventory_capacity (VInt (max_bytes c)) with
  | Raise e => (Raise e, c)
  | Ok cap =>
      let items := take (Z.to_nat (cap + 1)) entries in
      match validate_entries items with
      | Raise e => (Raise e, c)
      | Ok l =>
          if max_bytes c <? Z.of_nat (length l) * INVENTORY_ENTRY_BYTES
          then (raise ManifestError "startup inventory exceeds the catalog bound", c)
          else
            let materialized := od_of_list l in
            if negb (Z.of_nat (length materialized) =? Z.of_nat (length l))
            then (raise ManifestError "startup inventory contains duplicate entry IDs", c)
            else replace_rank rk materialized c
      end
  end.

Definition apply_startup (rank gen epoch : pyval) (entries : list pyval)
    : SE QuorumCatalog unit := λ c,
  match need_rank c rank with
  | Raise e => (Raise e, c)
  | Ok rk =>
      match validate_generation_identity gen epoch with
      | Raise e => (Raise e, mark_generation_conflict rk c)
      | Ok (g, ep) =>
          match generation_disposition c rk g ep with
          | Stale => (Ok tt, c)
          | Conflict => (Ok tt, mark_generation_conflict rk c)
          | Current => (Ok tt, c)
          | Initial | Newer =>
              install_startup rk entries (adopt_generation rk g ep c)
          end
      end
  end.

(** ** Rolling reports *)
Definition apply_delta_items (d : InventoryDelta) (entries : list (pystr * Z))
    : list (pystr * Z) :=
  let updated := foldl (λ u k, od_pop k u) entries (d_removed d) in
  foldl (λ u p, od_set p.1 p.2 u) updated (d_added d).

(** A delta advances only a synchronized base. *)
Definition handle_delta (rank : Z) (delta : option InventoryDelta) : SE QuorumCatalog unit := λ c,
  match delta with
  | None => (Ok tt, c)
  | Some d =>
      if decide (rank ∈ desynchronized c) then (Ok tt, c) else
      let current := sequence_of c rank in
      if (d_base_sequence d =? current) && (d_sequence d =? current + 1) then
        let updated := apply_delta_items d (entries_of c rank) in
        replace_rank rank updated (set_sequence rank (d_sequence d) c)
      else if current <? d_sequence d then (Ok tt, withdraw_and_desync rank c)
      else (Ok tt, c)
  end.

(** A checkpoint from a newer worker state withdraws the image. *)
Definition handle_gap (rank : Z) (ck : InventoryCheckpoint) (c : QuorumCatalog)
    : QuorumCatalog :=
  if decide (rank ∈ desynchronized c) then c
  else if sequence_of c rank <? ck_sequence ck then withdraw_and_desync rank c
  else c.

(** The pending checkpoint this page belongs to. *)
Definition pending_for (rank : Z) (ck : InventoryCheckpoint) (c : QuorumCatalog)
    : PendingCheckpoint :=
  let fresh := Pending (ck_sequence ck) (ck_cycle ck) (ck_count ck) (ck_held_count ck) ∅ 0 in
  match pending c !! rank with
  | None => fresh
  | Some p =>
      if (p_cycle p =? ck_cycle ck) && (p_sequence p =? ck_sequence ck) then p else fresh
  end.

Definition flatten_pages (p : PendingCheckpoint) : list (pystr * Z) :=
  seqZ 0 (p_count p) ≫= λ i, default [] (p_pages p !! i).

(** A complete checkpoint becomes the image, unless a delta superseded it. *)
Definition complete_checkpoint (rank : Z) (p : PendingCheckpoint) : SE QuorumCatalog unit := λ c,
  let flattened := flatten_pages p in
  let current := sequence_of c rank in
  (do_ (if p_sequence p <? current then se_ret tt
        else if negb (Z.of_nat (length flattened) =? p_held_count p)
                || negb (Z.of_nat (length (od_of_list flattened)) =? Z.of_nat (length flattened))
        then se_modify (withdraw_and_desync rank)
        else do_ se_modify (set_sequence rank (p_sequence p));
             replace_rank rank (od_of_list flattened));
   se_modify (pop_pending rank))%py c.

Definition handle_checkpoint (rank : Z) (ck : InventoryCheckpoint) : SE QuorumCatalog unit := λ c,
  let p := pending_for rank ck c in
  let c := set_pending rank p c in
  if (ck_count ck <=? 0) || negb ((0 <=? ck_index ck) && (ck_index ck <? ck_count ck))
     || negb (ck_count ck =? p_count p) || negb (ck_held_count ck =? p_held_count p)
  then (Ok tt, withdraw_and_desync rank (pop_pending rank c))
  else
    let previous_page := default [] (p_pages p !! ck_index ck) in
    let projected := p_entry_count p - Z.of_nat (length previous_page)
                     + Z.of_nat (length (ck_entries ck)) in
    if p_held_count p <? projected
    then (Ok tt, withdraw_and_desync rank (pop_pending rank c))
    else
      let p := Pending (p_sequence p) (p_cycle p) (p_count p) (p_held_count p)
                 (<[ck_index ck := ck_entries ck]> (p_pages p)) projected in
      let c := set_pending rank p c in
      if Z.of_nat (size (p_pages p)) =? p_count p then complete_checkpoint rank p c
      else (Ok tt, c).

(** The body of [apply_report] once the report has been validated. *)
Definition apply_valid_report (r : WorkerInventoryReport) : SE QuorumCatalog unit :=
  let rank := r_rank r in
  (do_ handle_delta rank (r_delta r);
   do_ se_modify (handle_gap rank (r_checkpoint r));
   handle_checkpoint rank (r_checkpoint r))%py.

(** The part of [apply_report] that follows the generation checks. *)
Definition absorb_report (rk : Z) (report : raw_report) : SE QuorumCatalog unit := λ c,
  match validate_inventory_report (max_bytes c) (max_report_entries c) report with
  | Ok r => apply_valid_report r c
  | Raise e =>
      match exn_class e with
      | ManifestError => (Ok tt, desync_add rk (pop_pending rk (withdraw_rank rk c)))
      | _ => (Raise e, c)
      end
  end.

Definition apply_report (report : raw_report) : SE QuorumCatalog unit := λ c,
  match need_rank c (raw_rank report) with
  | Raise e => (Raise e, c)
  | Ok rk =>
      match validate_generation_identity (raw_generation report)
              (raw_generation_epoch report) with
      | Raise e => (Raise e, mark_generation_conflict rk c)
      | Ok (g, ep) =>
          match generation_disposition c rk g ep with
          | Stale => (Ok tt, c)
          | Conflict => (Ok tt, mark_generation_conflict rk c)
          | (Initial | Newer | Current) as d =>
              let c := match d with
                       | Current => c
                       | _ => adopt_generation rk g ep c
                       end in
              absorb_report rk report c
          end
      end
  end.

(** ** Queries *)
Definition has_quorum (c : QuorumCatalog) (entry_id : pystr) (span_tokens : option Z) : bool :=
  let ranks := default ∅ (entry_ranks c !! entry_id) in
  if decide (ranks = expected_ranks c) then
    let spans : gset (option Z) := set_map (λ r, od_get entry_id (entries_of c r)) ranks in
    match elements spans with
    | [only] =>
        match span_tokens with
        | Some s => bool_decide (only = Some s)
        | None => bool_decide (is_Some only)
        end
    | _ => false
    end
  else false.

(** [sorted(candidates, reverse=True)], then the first candidate with quorum. *)
Definition candidate_leb (a b : Z * pystr) : bool :=
  (b.1 <? a.1) || ((b.1 =? a.1) && str_leb b.2 a.2).

Definition candidate_ge (a b : Z * pystr) : Prop := candidate_leb a b = true.
#[global] Instance candidate_ge_dec : RelDecision candidate_ge.
Proof. intros a b. unfold candidate_ge. apply _. Defined.

#[global] Instance candidate_ge_trans : Transitive candidate_ge.
Proof.
  intros [s1 e1] [s2 e2] [s3 e3]. unfold candidate_ge, candidate_leb; cbn. intros H1 H2. bsimp.
  destruct H1 as [|[-> H1]], H2 as [|[-> H2]]; try (left; lia).
  right. split; [done|]. by eapply str_leb_trans.
Qed.
#[global] Instance candidate_ge_total : Total candidate_ge.
Proof.
  intros [s1 e1] [s2 e2]. unfold candidate_ge, candidate_leb; cbn. bsimp.
  destruct (Z.lt_trichotomy s1 s2) as [|[->|]]; [by right; left| |by left; left].
  destruct (str_leb_total e1 e2); [right|left]; right; by split.
Qed.

Fixpoint first_quorum (c : QuorumCatalog) (candidates : list (Z * pystr))
    : option (Z * pystr) :=
  match candidates with
  | [] => None
  | (span, entry_id) :: rest =>
      if has_quorum c entry_id (Some span) then Some (span, entry_id) else first_quorum c rest
  end.

Definition longest (candidates : list (Z * pystr)) (c : QuorumCatalog)
    : option (Z * pystr) * QuorumCatalog :=
  match first_quorum c (merge_sort candidate_ge candidates) with
  | Some (span, entry_id) => (Some (span, entry_id), touch entry_id c)
  | None => (None, c)
  end.

Definition count_quorum (c : QuorumCatalog) : Z :=
  Z.of_nat (length (filter (λ e, has_quorum c e None = true) (map_to_list (entry_ranks c)).*1)).

(** The cached property: the value, and the state that remembers it. *)
Definition quorum_count (c : QuorumCatalog) : Z * QuorumCatalog :=
  match quorum_count_cache c with
  | Some n => (n, c)
  | None =>
      let n := count_quorum c in
      (n, set_index (rank_entries c) (entry_ranks c) (recency c) (Some n) c)
  end.

Definition ready_rank_count (c : QuorumCatalog) : Z :=
  Z.of_nat (size (expected_ranks c ∖ desynchronized c)).

Definition has_all_rank_identities (c : QuorumCatalog) : bool :=
  bool_decide (dom (generation c) = expected_ranks c).

Definition is_ready (c : QuorumCatalog) : bool :=
  has_all_rank_identities c && bool_decide (desynchronized c = ∅).
End catalog.
