(* ===== verification/CatalogInv.v ===== *)
(** * The catalog's invariant ([QuorumCatalog], quorum.py)

    [catalog_wf] relates the redundant parts of the catalog: the inverse index
    and the LRU order to the rank images, the withdrawal sets to empty images,
    the cached count to its value, the pending pages to their announced sizes.
    Every public operation preserves it from any well-formed state, whatever
    the (possibly malformed) argument, and it holds in [catalog_init]. *)
From S2P Require Import Prelude Dict Config Inventory Catalog.

(** ** The inverse index represents a relation between entries and ranks *)
Section index.
Implicit Types (R : pystr → Z → Prop) (ix : gmap pystr (gset Z) * list pystr).

Definition rep R ix : Prop :=
  (∀ e ranks, ix.1 !! e = Some ranks → ranks ≠ ∅) ∧
  (∀ e r, r ∈ default ∅ (ix.1 !! e) ↔ R e r) ∧
  NoDup ix.2 ∧ (∀ e, e ∈ ix.2 ↔ is_Some (ix.1 !! e)).

Lemma rep_ext R R' ix : rep R ix → (∀ e r, R e r ↔ R' e r) → rep R' ix.
Proof. intros (? & HI & ? & ?) HR. split_and!; try done. intros e r. by rewrite HI, HR. Qed.

#[global] Instance rep_proper :
  Proper (pointwise_relation _ (pointwise_relation _ iff) ==> (=) ==> iff) rep.
Proof.
  intros R R' HR ix _ <-. split; intros Hrep; (eapply rep_ext; [exact Hrep|]); intros e r;
    specialize (HR e r); by rewrite HR.
Qed.

Lemma withdraw_entry_rep rank R ix id :
  rep R ix → rep (λ e r, R e r ∧ ¬ (e = id ∧ r = rank)) (withdraw_entry rank ix id).
Proof.
  intros (Hne & HR & Hnd & Hdom). unfold withdraw_entry.
  destruct (ix.1 !! id) as [ranks|] eqn:Eid.
  2:{ split_and!; try done. intros e r. rewrite HR. split; [|by intros []].
      intros Her. split; [done|]. intros [-> ->]. apply HR in Her. rewrite Eid in Her. set_solver. }
  assert (Hid : ∀ r, r ∈ ranks ↔ R id r) by (intros r; rewrite <-HR, Eid; done).
  case_decide as Hemp; split_and!; cbn.
  - intros e rs. rewrite lookup_delete. case_decide; [done|]. apply Hne.
  - intros e r. rewrite lookup_delete. case_decide as He; subst; cbn.
    + split; [set_solver|]. intros [Hr Hn]. exfalso. apply Hn. split; [done|].
      apply Hid in Hr. set_solver.
    + rewrite HR. naive_solver.
  - by apply NoDup_filter.
  - intros e. rewrite list_elem_of_filter, Hdom, lookup_delete. case_decide; subst; [|naive_solver].
    split; [naive_solver|]. by intros [? ?].
  - intros e rs. rewrite lookup_insert. case_decide; [congruence|]. apply Hne.
  - intros e r. rewrite lookup_insert. case_decide as He; subst; cbn; [|rewrite HR; naive_solver].
    rewrite elem_of_difference, Hid, elem_of_singleton. naive_solver.
  - done.
  - intros e. rewrite Hdom, lookup_insert. case_decide; subst; [|done]. rewrite Eid. by split.
Qed.

Lemma withdraw_entries_rep rank R ix ids :
  rep R ix → rep (λ e r, R e r ∧ ¬ (e ∈ ids ∧ r = rank)) (foldl (withdraw_entry rank) ix ids).
Proof.
  revert R ix; induction ids as [|id ids IH]; intros R ix Hrep; cbn.
  - eapply rep_ext; [done|]. intros e r. set_solver.
  - eapply rep_ext; [apply IH, withdraw_entry_rep, Hrep|]. intros e r. cbn.
    rewrite elem_of_cons. naive_solver.
Qed.

Lemma touch_list_elem id l e : e ∈ touch_list id l ↔ e = id ∨ e ∈ l.
Proof.
  unfold touch_list. rewrite elem_of_app, list_elem_of_filter, list_elem_of_singleton.
  destruct (decide (e = id)); naive_solver.
Qed.

Lemma touch_list_NoDup id l : NoDup l → NoDup (touch_list id l).
Proof.
  intros. apply NoDup_app. split_and!; [by apply NoDup_filter| |apply NoDup_singleton].
  intros x [? _]%list_elem_of_filter. by rewrite list_elem_of_singleton.
Qed.

Lemma offer_entry_rep rank R ix id :
  rep R ix → rep (λ e r, R e r ∨ (e = id ∧ r = rank)) (offer_entry rank ix id).
Proof.
  intros (Hne & HR & Hnd & Hdom). unfold offer_entry. split_and!; cbn.
  - intros e rs. rewrite lookup_insert. case_decide; [intros [= <-]; set_solver|]. apply Hne.
  - intros e r. rewrite lookup_insert. case_decide as He; subst; cbn; [|rewrite HR; naive_solver].
    rewrite elem_of_union, elem_of_singleton, HR. naive_solver.
  - by apply touch_list_NoDup.
  - intros e. rewrite touch_list_elem, Hdom, lookup_insert. case_decide; subst; naive_solver.
Qed.

Lemma offer_entries_rep rank R ix ids :
  rep R ix → rep (λ e r, R e r ∨ (e ∈ ids ∧ r = rank)) (foldl (offer_entry rank) ix ids).
Proof.
  revert R ix; induction ids as [|id ids IH]; intros R ix Hrep; cbn.
  - eapply rep_ext; [done|]. intros e r. set_solver.
  - eapply rep_ext; [apply IH, offer_entry_rep, Hrep|]. intros e r. cbn.
    rewrite elem_of_cons. naive_solver.
Qed.

Lemma delete_rep R er e rc :
  rep R (er, e :: rc) → rep (λ e' r, R e' r ∧ e' ≠ e) (delete e er, rc).
Proof.
  intros (Hne & HR & Hnd & Hdom). cbn in *. apply NoDup_cons in Hnd as [Hin Hnd].
  split_and!; cbn; [| | done |].
  - intros e' rs. rewrite lookup_delete. case_decide; [done|]. apply Hne.
  - intros e' r. rewrite lookup_delete. case_decide; subst; cbn; [set_solver|].
    rewrite HR. naive_solver.
  - intros e'. rewrite lookup_delete. specialize (Hdom e'). rewrite elem_of_cons in Hdom.
    case_decide; subst; [|naive_solver]. split; [done|]. by intros [? ?].
Qed.

Lemma touch_rep R er rc e :
  rep R (er, rc) → is_Some (er !! e) → rep R (er, touch_list e rc).
Proof.
  intros (? & ? & Hnd & Hdom) He. split_and!; try done; cbn in *.
  - by apply touch_list_NoDup.
  - intros e'. rewrite touch_list_elem, Hdom. naive_solver.
Qed.
End index.

(** ** The images of the ranks *)
Definition index_rel (re : gmap Z (list (pystr * Z))) (e : pystr) (r : Z) : Prop :=
  e ∈ (default [] (re !! r)).*1.

Definition image_ok (es : list (pystr * Z)) : Prop := NoDup es.*1 ∧ Forall valid_entry es.

Definition shrinks (re re' : gmap Z (list (pystr * Z))) : Prop :=
  ∀ r, match re !! r, re' !! r with
       | Some es, Some es' => es' `sublist_of` es
       | None, None => True
       | _, _ => False
       end.

#[export] Instance shrinks_refl : Reflexive shrinks.
Proof. intros re r. by destruct (re !! r). Qed.
#[export] Instance shrinks_trans : Transitive shrinks.
Proof. intros a b c H1 H2 r. specialize (H1 r). specialize (H2 r). repeat case_match; try done. by etrans. Qed.

Lemma shrinks_dom re re' : shrinks re re' → dom re' = dom re.
Proof.
  intros H. apply set_eq. intros r. rewrite !elem_of_dom. specialize (H r).
  repeat case_match; try done; by rewrite ?is_Some_alt.
Qed.

Lemma shrinks_default re re' r :
  shrinks re re' → default [] (re' !! r) `sublist_of` default [] (re !! r).
Proof. intros H. specialize (H r). by repeat case_match. Qed.

Lemma image_ok_sublist es es' : es' `sublist_of` es → image_ok es → image_ok es'.
Proof.
  intros Hs [Hnd Hv]. split.
  - eapply sublist_NoDup; [exact Hnd|]. by apply fmap_sublist.
  - rewrite Forall_forall in *. intros x Hx. apply Hv. by eapply elem_of_sublist.
Qed.

Lemma od_pop_sublist k (es : list (pystr * Z)) : od_pop k es `sublist_of` es.
Proof. apply sublist_filter. Qed.

(** ** Evicting an entry from every image that offers it *)
Lemma od_pop_idemp k (es : list (pystr * Z)) : od_pop k (od_pop k es) = od_pop k es.
Proof. unfold od_pop. rewrite list_filter_filter. apply list_filter_iff. naive_solver. Qed.

Lemma alter_pop_lookup e (l : list Z) (re : gmap Z (list (pystr * Z))) r :
  foldl (λ m r, alter (od_pop e) r m) re l !! r
  = if decide (r ∈ l) then od_pop e <$> re !! r else re !! r.
Proof.
  revert re; induction l as [|x l IH]; intros re; cbn; [done|]. rewrite IH.
  destruct (decide (x = r)) as [->|Hne].
  - rewrite lookup_alter_eq. rewrite (decide_True (P := r ∈ r :: l)) by by left.
    case_decide; [|done]. destruct (re !! r); cbn; [|done]. by rewrite od_pop_idemp.
  - rewrite lookup_alter_ne by done.
    destruct (decide (r ∈ l)); [by rewrite decide_True by by right|].
    rewrite decide_False; [done|]. rewrite not_elem_of_cons. by split; [congruence|].
Qed.

Lemma evict_entry_spec e re er rc :
  rep (index_rel re) (er, e :: rc) →
  evict_entry e re er = (od_pop e <$> re, delete e er).
Proof.
  intros (_ & HR & _). unfold evict_entry. f_equal. apply map_eq. intros r.
  rewrite alter_pop_lookup, lookup_fmap. specialize (HR e r). cbn in HR. unfold index_rel in HR.
  destruct (re !! r) as [es|]; cbn in *; [|by case_decide].
  case_decide as Hin; [done|]. rewrite elem_of_elements, HR in Hin. by rewrite od_pop_None.
Qed.

Lemma pop_shrinks e re : shrinks re (od_pop e <$> re).
Proof.
  intros r. rewrite lookup_fmap. destruct (re !! r); cbn; [|done]. apply od_pop_sublist.
Qed.

Lemma pop_index_rel e re e' r :
  index_rel (od_pop e <$> re) e' r ↔ index_rel re e' r ∧ e' ≠ e.
Proof.
  unfold index_rel. rewrite lookup_fmap. destruct (re !! r); cbn; [|set_solver].
  rewrite od_pop_keys, list_elem_of_filter. naive_solver.
Qed.

#[local] Arguments evict_entry : simpl never.

(** ** The memory bound is restored by evicting least recent entries *)
Section bound.
Context `{ObjectSizes}.

Lemma rep_empty_size (R : pystr → Z → Prop) (er : gmap pystr (gset Z)) : rep R (er, []) → er = ∅.
Proof.
  intros (_ & _ & _ & Hdom). apply map_eq. intros e. rewrite lookup_empty.
  specialize (Hdom e). cbn in Hdom. destruct (er !! e) as [x|]; [|done].
  assert (e ∈ @nil pystr) as Hn by (apply Hdom; eauto). by apply not_elem_of_nil in Hn.
Qed.

Lemma enforce_loop_spec mb todo re er qc re' er' rc' qc' :
  0 ≤ mb →
  rep (index_rel re) (er, todo) →
  enforce_loop mb todo re er qc = (re', er', rc', qc') →
  rep (index_rel re') (er', rc') ∧ shrinks re re' ∧
  Z.of_nat (size er') * INVENTORY_ENTRY_BYTES ≤ mb ∧
  (qc' = None ∨ (re', er', qc') = (re, er, qc)).
Proof.
  intros Hmb. revert re er qc; induction todo as [|e todo IH]; intros re er qc Hrep; cbn.
  - case_match eqn:Hb; intros [= <- <- <- <-]; bsimp; split_and!; try done; try lia; try (by right).
    apply rep_empty_size in Hrep as ->. rewrite map_size_empty. lia.
  - case_match eqn:Hb.
    + rewrite (evict_entry_spec _ _ _ _ Hrep). intros He. apply IH in He as (Hr & Hs & Hsz & Hq).
      * split_and!; try done; [etrans; [apply pop_shrinks|done]|].
        left. destruct Hq as [|[=]]; done.
      * eapply rep_ext; [by apply delete_rep|]. intros e' r. by rewrite pop_index_rel.
    + intros [= <- <- <- <-]. bsimp. split_and!; try done; try lia. by right.
Qed.

Lemma enforce_loop_noop mb todo re er qc :
  Z.of_nat (size er) * INVENTORY_ENTRY_BYTES ≤ mb →
  enforce_loop mb todo re er qc = (re, er, todo, qc).
Proof. intros Hb. destruct todo; cbn; case_match eqn:E; bsimp; try done; lia. Qed.
End bound.

(** ** The invariant *)
Definition page_total (pages : gmap Z (list (pystr * Z))) : Z :=
  map_fold (λ _ es n, Z.of_nat (length es) + n) 0 pages.

Record pending_ok (cap : Z) (p : PendingCheckpoint) : Prop := {
  po_sequence : 0 ≤ p_sequence p ≤ MAX_COUNTER;
  po_index : ∀ i es, p_pages p !! i = Some es → 0 ≤ i < p_count p ∧ Forall valid_entry es;
  po_total : p_entry_count p = page_total (p_pages p);
  po_held : p_entry_count p ≤ p_held_count p ≤ cap;
  po_size : Z.of_nat (size (p_pages p)) ≤ p_count p
}.

Section invariant.
Context `{ObjectSizes}.

Record index_wf (c : QuorumCatalog) : Prop := {
  iw_dom : dom (rank_entries c) = expected_ranks c;
  iw_images : ∀ r, image_ok (entries_of c r);
  iw_rep : rep (index_rel (rank_entries c)) (entry_ranks c, recency c);
  iw_bound : Z.of_nat (size (entry_ranks c)) * INVENTORY_ENTRY_BYTES ≤ max_bytes c;
  iw_cache : ∀ n, quorum_count_cache c = Some n → n = count_quorum c
}.

Record protocol_wf (c : QuorumCatalog) : Prop := {
  pw_desync : desynchronized c ⊆ expected_ranks c;
  pw_withdrawn : ∀ r, r ∈ desynchronized c → entries_of c r = [];
  pw_conflicts : generation_conflicts c ⊆ desynchronized c;
  pw_generation : dom (generation c) ⊆ expected_ranks c;
  pw_unknown : ∀ r, r ∈ expected_ranks c → generation c !! r = None → r ∈ desynchronized c;
  pw_sequences : ∀ r s, sequences c !! r = Some s → 0 ≤ s ≤ MAX_COUNTER;
  pw_history : ∀ r h, generation_history c !! r = Some h → (length h ≤ GENERATION_HISTORY_LIMIT)%nat;
  pw_pending : ∀ r p, pending c !! r = Some p →
    r ∈ expected_ranks c ∧ pending_ok (max_bytes c / INVENTORY_ENTRY_BYTES) p
}.

Record catalog_wf (c : QuorumCatalog) : Prop := {
  cw_expected : expected_ranks c ≠ ∅;
  cw_max_bytes : INVENTORY_ENTRY_BYTES ≤ max_bytes c;
  cw_max_report : 0 < max_report_entries c;
  cw_index : index_wf c;
  cw_protocol : protocol_wf c
}.

(** The rank a report is applied to: expected, identified, not in conflict. *)
Definition live (c : QuorumCatalog) (rk : Z) : Prop :=
  rk ∈ expected_ranks c ∧ is_Some (generation c !! rk) ∧ rk ∉ generation_conflicts c.

(** What the handling of one report of a known generation cannot change. *)
Definition frame (c : QuorumCatalog) :=
  (expected_ranks c, max_bytes c, max_report_entries c, generation c, generation_history c,
   generation_conflicts c, generation_changes_total c).

Lemma live_frame c c' rank : live c rank → frame c' = frame c → live c' rank.
Proof. unfold live. intros ? [= -> _ _ -> _ -> _]. done. Qed.

Lemma count_quorum_set_protocol sq pd ds c :
  count_quorum (set_protocol sq pd ds c) = count_quorum c.
Proof. done. Qed.
Lemma count_quorum_set_generation g h gc n c :
  count_quorum (set_generation g h gc n c) = count_quorum c.
Proof. done. Qed.

Lemma index_wf_set_protocol sq pd ds c : index_wf c → index_wf (set_protocol sq pd ds c).
Proof. intros []. by constructor. Qed.
Lemma index_wf_set_generation g h gc n c : index_wf c → index_wf (set_generation g h gc n c).
Proof. intros []. by constructor. Qed.

(** *** Primitive updates *)
Lemma entries_of_withdraw rank c r :
  entries_of (withdraw_rank rank c) r = if decide (r = rank) then [] else entries_of c r.
Proof.
  unfold entries_of, withdraw_rank; cbn. rewrite lookup_insert.
  case_decide; subst; [by rewrite decide_True|by rewrite decide_False by congruence].
Qed.

Lemma withdraw_rank_rep rank c :
  rep (index_rel (rank_entries c)) (entry_ranks c, recency c) →
  rep (index_rel (rank_entries (withdraw_rank rank c)))
    (entry_ranks (withdraw_rank rank c), recency (withdraw_rank rank c)).
Proof.
  intros Hrep. cbn. rewrite <-surjective_pairing.
  eapply rep_ext; [by apply withdraw_entries_rep|]. intros e r. unfold index_rel, entries_of.
  rewrite lookup_insert. case_decide; subst; cbn; [|naive_solver].
  split; [|by intros ?%not_elem_of_nil]. intros [? Hn]. by destruct Hn.
Qed.

Lemma rep_size_le (R R' : pystr → Z → Prop) ix ix' :
  rep R ix → rep R' ix' → (∀ e r, R' e r → R e r) → (size ix'.1 ≤ size ix.1)%nat.
Proof.
  intros (_ & HR & _) (Hne' & HR' & _) Himp.
  rewrite <-!size_dom. apply subseteq_size. intros e. rewrite !elem_of_dom. intros [rs Hrs].
  destruct (set_choose_L rs) as [r Hr]; [by eapply Hne'|].
  assert (R e r) as HRer by (apply Himp, HR'; rewrite Hrs; done).
  apply HR in HRer. destruct (ix.1 !! e); cbn in *; [done|set_solver].
Qed.

Lemma withdraw_rank_wf rank c :
  catalog_wf c → rank ∈ expected_ranks c → catalog_wf (withdraw_rank rank c).
Proof.
  intros [? ? ? [Hdom Him Hrep Hb Hq] [? Hw ? ? ? ? ? ?]] Hrank.
  pose proof (withdraw_rank_rep rank c Hrep) as Hrep'.
  constructor; try done; constructor; try done.
  - cbn. rewrite dom_insert_L, Hdom. set_solver.
  - intros r. rewrite entries_of_withdraw. case_decide; [|done].
    by split; [constructor|constructor].
  - eapply Z.le_trans; [|exact Hb]. apply Z.mul_le_mono_nonneg_r.
    + pose proof entry_bytes_positive. lia.
    + apply inj_le. eapply (rep_size_le _ _ (entry_ranks c, recency c) (_, _)); [done|exact Hrep'|].
      intros e r. unfold index_rel. cbn. rewrite lookup_insert. case_decide; [|done].
      by intros ?%not_elem_of_nil.
  - intros r Hr. rewrite entries_of_withdraw. case_decide; [done|by apply Hw].
Qed.

Lemma desync_add_wf rank c :
  catalog_wf c → rank ∈ expected_ranks c → entries_of c rank = [] → catalog_wf (desync_add rank c).
Proof.
  intros [? ? ? Hi []] Hr He. constructor; try done; [by apply index_wf_set_protocol|].
  constructor; try done; cbn.
  - clear -pw_desync0 Hr. set_solver.
  - intros r [->%elem_of_singleton|?]%elem_of_union; [done|by apply pw_withdrawn0].
  - clear -pw_conflicts0. set_solver.
  - intros r ??. apply elem_of_union_r. by apply pw_unknown0.
Qed.

Lemma withdraw_and_desync_wf rank c :
  catalog_wf c → rank ∈ expected_ranks c → catalog_wf (withdraw_and_desync rank c).
Proof.
  intros Hwf Hr. apply desync_add_wf; [by apply withdraw_rank_wf|done|].
  by rewrite entries_of_withdraw, decide_True.
Qed.

Lemma set_sequence_wf rank z c :
  catalog_wf c → 0 ≤ z ≤ MAX_COUNTER → catalog_wf (set_sequence rank z c).
Proof.
  intros [? ? ? Hi []] Hz. constructor; try done; [by apply index_wf_set_protocol|].
  constructor; try done. cbn. intros r s. rewrite lookup_insert. case_decide; [|by eauto].
  by intros [= <-].
Qed.

Lemma pop_pending_wf rank c : catalog_wf c → catalog_wf (pop_pending rank c).
Proof.
  intros [? ? ? Hi []]. constructor; try done; [by apply index_wf_set_protocol|].
  constructor; try done. cbn. intros r p. rewrite lookup_delete. case_decide; [done|]. eauto.
Qed.

Lemma set_pending_wf rank p c :
  catalog_wf c → rank ∈ expected_ranks c →
  pending_ok (max_bytes c / INVENTORY_ENTRY_BYTES) p → catalog_wf (set_pending rank p c).
Proof.
  intros [? ? ? Hi []] Hr Hp. constructor; try done; [by apply index_wf_set_protocol|].
  constructor; try done. cbn. intros r p'. rewrite lookup_insert. case_decide; [|by eauto].
  intros [= <-]. by subst.
Qed.
(** *** Installing an image *)
Lemma enforce_bound_spec c :
  0 ≤ max_bytes c →
  rep (index_rel (rank_entries c)) (entry_ranks c, recency c) →
  (∀ r, image_ok (entries_of c r)) →
  (∀ n, quorum_count_cache c = Some n → n = count_quorum c) →
  ∃ re er rc qc, enforce_bound c = set_index re er rc qc c ∧ shrinks (rank_entries c) re ∧
    (dom (rank_entries c) = expected_ranks c → index_wf (set_index re er rc qc c)).
Proof.
  intros Hmb Hrep Him Hq. unfold enforce_bound.
  destruct (enforce_loop _ _ _ _ _) as [[[re er] rc] qc] eqn:E.
  pose proof (enforce_loop_spec _ _ _ _ _ _ _ _ _ Hmb Hrep E) as (Hr & Hs & Hsz & Hqc).
  exists re, er, rc, qc. split_and!; try done. intros Hdom. constructor; cbn; try done.
  - by rewrite (shrinks_dom _ _ Hs).
  - intros r. eapply image_ok_sublist; [by apply shrinks_default|]. apply Him.
  - intros n Hn. destruct Hqc as [->|[= -> -> ->]]; [done|]. by apply Hq.
Qed.

Lemma install_rank_shape rank entries c :
  catalog_wf c → rank ∈ expected_ranks c → image_ok entries →
  ∃ re er rc qc,
    install_rank rank entries c = set_index re er rc qc (desync_discard rank c) ∧
    shrinks (<[rank := entries]> (rank_entries c)) re ∧
    index_wf (set_index re er rc qc c).
Proof.
  intros [? Hmb ? [Hdom Him Hrep Hb Hq] ?] Hrank Hent.
  set (c1 := withdraw_rank rank c).
  set (ix := foldl (offer_entry rank) (entry_ranks c1, recency c1) entries.*1).
  set (c2 := desync_discard rank (set_index (<[rank := entries]> (rank_entries c1)) ix.1 ix.2
               (quorum_count_cache c1) c1)).
  assert (Hre : rank_entries c2 = <[rank := entries]> (rank_entries c))
    by (subst c2 c1; cbn; by rewrite insert_insert_eq).
  destruct (enforce_bound_spec c2) as (re & er & rc & qc & He & Hs & Hwf).
  - subst c2 c1; cbn. pose proof entry_bytes_positive. lia.
  - rewrite Hre. subst c2; cbn. rewrite <-surjective_pairing.
    eapply rep_ext; [apply offer_entries_rep; by apply withdraw_rank_rep|].
    intros e r. unfold index_rel. subst c1; cbn. rewrite !lookup_insert.
    destruct (decide (rank = r)) as [->|Hne]; cbn.
    + split; [intros [?%not_elem_of_nil|[? _]]; done|by right].
    + split; [intros [?|[_ ->]]; done|by left].
  - intros r. unfold entries_of. rewrite Hre, lookup_insert. case_decide; cbn; [done|]. apply Him.
  - by subst c2 c1.
  - exists re, er, rc, qc. split_and!; [exact He|by rewrite <-Hre|].
    destruct Hwf as [? ? ? ? ?].
    + rewrite Hre, dom_insert_L, Hdom. subst c2 c1; cbn. set_solver.
    + constructor; done.
Qed.

Lemma install_rank_wf rank entries c :
  catalog_wf c → live c rank → image_ok entries → catalog_wf (install_rank rank entries c).
Proof.
  intros Hwf (Hrank & [g Hg] & Hnc) Hent.
  destruct (install_rank_shape rank entries c) as (re & er & rc & qc & -> & Hs & Hiw); try done.
  destruct Hwf as [? ? ? ? []]. constructor; try done.
  - destruct Hiw. by constructor.
  - constructor; try done; cbn.
    + clear -pw_desync0. set_solver.
    + intros r [Hr Hne]%elem_of_difference. rewrite elem_of_singleton in Hne.
      unfold entries_of; cbn. pose proof (shrinks_default _ _ r Hs) as Hsub.
      rewrite lookup_insert_ne in Hsub by congruence.
      specialize (pw_withdrawn0 r Hr). unfold entries_of in pw_withdrawn0.
      rewrite pw_withdrawn0 in Hsub. by apply sublist_nil_r.
    + clear -pw_conflicts0 Hnc. set_solver.
    + intros r Hr Hgr. apply elem_of_difference. split; [by apply pw_unknown0|].
      rewrite elem_of_singleton. intros ->. congruence.
Qed.

Lemma install_rank_frame rank es c :
  catalog_wf c → rank ∈ expected_ranks c → image_ok es → frame (install_rank rank es c) = frame c.
Proof.
  intros ???. destruct (install_rank_shape rank es c) as (?&?&?&?&->&_); done.
Qed.

(** Validated entries cannot be refused the second time. *)
Lemma replace_rank_eq rank entries c :
  Forall valid_entry entries → replace_rank rank entries c = (Ok tt, install_rank rank entries c).
Proof.
  intros Hv. unfold replace_rank.
  by rewrite (proj2 (validate_entries_Ok (entry_val <$> entries) entries)).
Qed.
(** *** Generations *)
Lemma adopt_generation_wf rank g ep c :
  catalog_wf c → rank ∈ expected_ranks c → catalog_wf (adopt_generation rank g ep c).
Proof.
  intros Hwf Hrank.
  pose proof (withdraw_and_desync_wf rank c Hwf Hrank) as [? ? ? Hi []].
  unfold adopt_generation. case_match eqn:Eh.
  assert (Hh : ∀ r h, g0 !! r = Some h → (length h ≤ GENERATION_HISTORY_LIMIT)%nat).
  { intros r h. repeat (case_match || case_decide); simplify_eq; try apply pw_history0.
    rewrite lookup_insert. case_decide; [|by apply pw_history0]. intros [= <-].
    apply deque_append_length. }
  constructor; try done; [destruct Hi; by constructor|].
  constructor; try done; cbn in *.
  - clear -pw_conflicts0. set_solver.
  - rewrite dom_insert_L. clear -pw_generation0 Hrank. set_solver.
  - intros r Hr. rewrite lookup_insert. case_decide; [done|]. intros. by apply pw_unknown0.
  - intros r s. rewrite lookup_insert. case_decide; [intros [= <-]; by split|]. apply pw_sequences0.
  - intros r p. rewrite lookup_delete. case_decide; [done|]. apply pw_pending0.
Qed.

Lemma adopt_generation_live rank g ep c :
  rank ∈ expected_ranks c → live (adopt_generation rank g ep c) rank.
Proof.
  intros Hr. unfold adopt_generation. case_match. split_and!; cbn; [done| |set_solver].
  rewrite lookup_insert_eq. eauto.
Qed.

Lemma mark_generation_conflict_wf rank c :
  catalog_wf c → rank ∈ expected_ranks c → catalog_wf (mark_generation_conflict rank c).
Proof.
  intros Hwf Hrank.
  pose proof (pop_pending_wf rank _ (withdraw_and_desync_wf rank c Hwf Hrank)) as [? ? ? Hi []].
  constructor; try done; [destruct Hi; by constructor|].
  constructor; try done; cbn in *. clear -pw_conflicts0. set_solver.
Qed.

(** *** The delta of a report *)
Lemma delta_items_ok d es :
  image_ok es → Forall valid_entry (d_added d) → image_ok (apply_delta_items d es).
Proof.
  intros Hes Ha. unfold apply_delta_items.
  assert (Hr : ∀ ks es, image_ok es → image_ok (foldl (λ u k, od_pop k u) es ks)).
  { induction ks as [|k ks IH]; cbn; [done|]. intros es' Hes'. apply IH.
    eapply image_ok_sublist; [apply od_pop_sublist|done]. }
  assert (Hs : ∀ l es, image_ok es → Forall valid_entry l →
    image_ok (foldl (λ u p, od_set p.1 p.2 u) es l)).
  { induction l as [|[k v] l IH]; cbn; [done|]. intros es' [Hnd Hv] [Hkv Hl]%Forall_cons.
    apply IH; [|done]. split; [by apply od_set_NoDup|]. by apply od_set_Forall. }
  by apply Hs; [apply Hr|].
Qed.

Lemma handle_delta_wf rank od c :
  catalog_wf c → live c rank →
  (∀ d, od = Some d → 0 ≤ d_sequence d ≤ MAX_COUNTER ∧ Forall valid_entry (d_added d)) →
  ∃ c', handle_delta rank od c = (Ok tt, c') ∧ catalog_wf c' ∧ frame c' = frame c.
Proof.
  intros Hwf Hl Hd. unfold handle_delta. destruct od as [d|]; [|by eauto].
  destruct (Hd d eq_refl) as [Hseq Ha].
  repeat case_match; eauto.
  - set (u := apply_delta_items d (entries_of c rank)).
    assert (image_ok u) as Hu by (apply delta_items_ok; [apply Hwf|done]).
    rewrite replace_rank_eq by apply Hu. eexists; split; [done|].
    assert (Hwf' : catalog_wf (set_sequence rank (d_sequence d) c)) by by apply set_sequence_wf.
    split; [by apply install_rank_wf|].
    apply (install_rank_frame rank u (set_sequence rank (d_sequence d) c)); try done; apply Hl.
  - eexists; split; [done|]. split; [apply withdraw_and_desync_wf; [done|apply Hl]|done].
Qed.

(** *** The checkpoint page of a report *)
Lemma page_total_fresh i es (m : gmap Z (list (pystr * Z))) :
  m !! i = None → page_total (<[i := es]> m) = Z.of_nat (length es) + page_total m.
Proof.
  intros Hm. unfold page_total. rewrite map_fold_insert_L; [done| |done]. intros. lia.
Qed.

Lemma page_total_insert i es pages :
  page_total (<[i := es]> pages) =
  page_total pages - Z.of_nat (length (default [] (pages !! i))) + Z.of_nat (length es).
Proof.
  rewrite <-insert_delete_eq, page_total_fresh by apply lookup_delete_eq.
  destruct (pages !! i) as [x|] eqn:E; cbn.
  - rewrite <-(insert_delete_id pages i x) at 2 by done.
    rewrite page_total_fresh by apply lookup_delete_eq. lia.
  - rewrite delete_id by done. lia.
Qed.

Lemma pending_insert_ok cap p i es :
  pending_ok cap p → 0 ≤ i < p_count p → Forall valid_entry es →
  p_entry_count p - Z.of_nat (length (default [] (p_pages p !! i))) + Z.of_nat (length es)
    ≤ p_held_count p →
  pending_ok cap (Pending (p_sequence p) (p_cycle p) (p_count p) (p_held_count p)
    (<[i := es]> (p_pages p))
    (p_entry_count p - Z.of_nat (length (default [] (p_pages p !! i))) + Z.of_nat (length es))).
Proof.
  intros [? Hidx Htot ? ?] Hi Hes Hle. constructor; cbn; try done; try lia.
  - intros j es'. rewrite lookup_insert. case_decide; [intros [= <-]; by subst|]. apply Hidx.
  - by rewrite page_total_insert, Htot.
  - assert (Hsub : dom (<[i:=es]> (p_pages p)) ⊆ list_to_set (seqZ 0 (p_count p))).
    { intros j. rewrite elem_of_dom, elem_of_list_to_set, elem_of_seqZ. intros [x].
      rewrite lookup_insert in H0. case_decide; [lia|]. apply Hidx in H0. lia. }
    apply subseteq_size in Hsub. rewrite size_dom in Hsub.
    rewrite size_list_to_set in Hsub by apply NoDup_seqZ. rewrite length_seqZ in Hsub. lia.
Qed.

Lemma flatten_valid cap p : pending_ok cap p → Forall valid_entry (flatten_pages p).
Proof.
  intros Hp. unfold flatten_pages. apply Forall_forall. intros x (i & Hx & Hi)%list_elem_of_bind.
  destruct (p_pages p !! i) as [es|] eqn:E; cbn in Hx; [|by apply not_elem_of_nil in Hx].
  apply (po_index _ _ Hp) in E as [_ E]. rewrite Forall_forall in E. by apply E.
Qed.
Lemma complete_checkpoint_wf rank p c :
  catalog_wf c → live c rank → pending_ok (max_bytes c / INVENTORY_ENTRY_BYTES) p →
  ∃ c', complete_checkpoint rank p c = (Ok tt, c') ∧ catalog_wf c' ∧ frame c' = frame c.
Proof.
  intros Hwf Hl Hp. pose proof Hl as [Hrank _]. unfold complete_checkpoint.
  pose proof (flatten_valid _ _ Hp) as Hv.
  destruct (p_sequence p <? _); cbn; [|destruct (_ || _) eqn:Eb; cbn].
  - eexists; split; [done|]. split; [by apply pop_pending_wf|done].
  - eexists; split; [done|]. split; [by apply pop_pending_wf, withdraw_and_desync_wf|done].
  - assert (Hok : image_ok (od_of_list (flatten_pages p)))
      by (split; [apply od_of_list_NoDup|by apply od_of_list_Forall]).
    unfold se_bind, se_modify. rewrite replace_rank_eq by apply Hok.
    eexists; split; [done|].
    assert (Hs : catalog_wf (set_sequence rank (p_sequence p) c)) by (apply set_sequence_wf; [done|apply Hp]).
    split; [by apply pop_pending_wf, install_rank_wf|].
    by apply (install_rank_frame rank _ (set_sequence rank (p_sequence p) c)).
Qed.

Lemma pending_for_ok mb me r c :
  catalog_wf c → report_ok mb me r → mb = max_bytes c →
  pending_ok (max_bytes c / INVENTORY_ENTRY_BYTES) (pending_for (r_rank r) (r_checkpoint r) c).
Proof.
  intros Hwf Hr ->.
  assert (Hf : pending_ok (max_bytes c / INVENTORY_ENTRY_BYTES)
    (Pending (ck_sequence (r_checkpoint r)) (ck_cycle (r_checkpoint r))
      (ck_count (r_checkpoint r)) (ck_held_count (r_checkpoint r)) ∅ 0)).
  { destruct Hr. constructor; cbn; try done; try lia. rewrite map_size_empty. lia. }
  unfold pending_for. destruct (pending c !! _) as [p|] eqn:E; [|done].
  apply Hwf in E as [_ E]. by case_match.
Qed.

Lemma handle_checkpoint_wf mb me r c :
  catalog_wf c → live c (r_rank r) → report_ok mb me r → mb = max_bytes c →
  ∃ c', handle_checkpoint (r_rank r) (r_checkpoint r) c = (Ok tt, c') ∧
    catalog_wf c' ∧ frame c' = frame c.
Proof.
  intros Hwf Hl Hr Hmb. pose proof Hl as [Hrank _]. unfold handle_checkpoint.
  pose proof (pending_for_ok _ _ _ _ Hwf Hr Hmb) as Hp.
  set (p := pending_for _ _ _) in *. set (rank := r_rank r) in *. set (ck := r_checkpoint r) in *.
  assert (Hw : catalog_wf (withdraw_and_desync rank (pop_pending rank (set_pending rank p c))))
    by by apply withdraw_and_desync_wf, Hrank; apply pop_pending_wf, set_pending_wf.
  destruct (_ || _) eqn:E1; [by eexists; split; [done|]; split|].
  destruct (p_held_count p <? _) eqn:E2; [by eexists; split; [done|]; split|].
  bsimp. destruct E1 as [[[E11 E12] E13] E14].
  assert (Hp' := pending_insert_ok _ p (ck_index ck) (ck_entries ck) Hp).
  ospecialize (Hp' _ _ _); [lia|apply Hr|lia|].
  assert (Hs := set_pending_wf rank _ _ (set_pending_wf rank p c Hwf Hrank Hp) Hrank Hp').
  case_match; [|by eexists; split; [done|]; split].
  destruct (complete_checkpoint_wf rank _ _ Hs Hl Hp') as (c' & Hc' & ? & Hf).
  exists c'. split_and!; [exact Hc'|done|by rewrite Hf].
Qed.

(** *** Whole reports *)
Lemma handle_gap_wf rank ck c :
  catalog_wf c → live c rank →
  catalog_wf (handle_gap rank ck c) ∧ frame (handle_gap rank ck c) = frame c.
Proof.
  intros Hwf Hl. unfold handle_gap. repeat case_match; try done.
  split; [apply withdraw_and_desync_wf; [done|apply Hl]|done].
Qed.
Lemma apply_valid_report_wf r c :
  catalog_wf c → live c (r_rank r) → report_ok (max_bytes c) (max_report_entries c) r →
  ∃ c', apply_valid_report r c = (Ok tt, c') ∧ catalog_wf c' ∧ frame c' = frame c.
Proof.
  intros Hwf Hl Hr. unfold apply_valid_report, se_bind, se_modify.
  destruct (handle_delta_wf (r_rank r) (r_delta r) c) as (c1 & -> & Hwf1 & Hf1); [done..| |].
  { intros d Hd. destruct (rok_delta _ _ _ Hr d Hd) as (-> & ? & ? & _). split; [lia|done]. }
  destruct (handle_gap_wf (r_rank r) (r_checkpoint r) c1) as [Hwf2 Hf2];
    [done|by eapply live_frame|].
  assert (Hf : frame (handle_gap (r_rank r) (r_checkpoint r) c1) = frame c) by congruence.
  destruct (handle_checkpoint_wf (max_bytes c) (max_report_entries c) r
    (handle_gap (r_rank r) (r_checkpoint r) c1)) as (c3 & -> & Hwf3 & Hf3); try done.
  - by eapply live_frame.
  - by injection Hf.
  - eexists. split_and!; [done|done|congruence].
Qed.

Lemma disposition_current c rk g ep :
  rk ∈ expected_ranks c → generation_disposition c rk g ep = Current → live c rk.
Proof.
  unfold generation_disposition, live. intros Hrk Hd.
  destruct (generation c !! rk) as [[pg pe]|] eqn:E; [|done].
  split_and!; [done|by eauto|].
  destruct (ep <? pe); [by case_decide|]. destruct (pe <? ep); [done|].
  case_decide as Hn; [done|]. intros ?. apply Hn. by right.
Qed.

(** A well-formed identity of an expected rank. *)
Definition identified (c : QuorumCatalog) (rank gen epoch : pyval) : Prop :=
  ∃ rk, rank = VInt rk ∧ rk ∈ expected_ranks c ∧ is_Some (generation_identity gen epoch).

Lemma need_rank_Ok c v rk : need_rank c v = Ok rk ↔ v = VInt rk ∧ rk ∈ expected_ranks c.
Proof.
  unfold need_rank, raise. destruct (as_int v) as [z|] eqn:E.
  - apply as_int_Some in E as ->. case_decide; split; try done.
    + by intros [= ->].
    + by intros [[= ->] _].
    + by intros [[= ->] ?].
  - split; [done|]. by intros [-> _].
Qed.

Lemma malformed_wf rk c :
  catalog_wf c → rk ∈ expected_ranks c →
  catalog_wf (desync_add rk (pop_pending rk (withdraw_rank rk c))).
Proof.
  intros Hwf Hrk. apply desync_add_wf; [by apply pop_pending_wf, withdraw_rank_wf|done|].
  change (entries_of (withdraw_rank rk c) rk = []). by rewrite entries_of_withdraw, decide_True.
Qed.

End invariant.
