(* ===== verification/CatalogSpec.v ===== *)
(** * What the quorum catalog promises its clients ([QuorumCatalog], quorum.py)

    Every public method from a well-formed catalog (results and preservation of
    the invariant), the runs of the catalog from its construction, and the
    properties of every run: what a quorum is, which inputs withdraw a rank,
    and the memory bound. *)
From S2P Require Import Prelude Dict Config Inventory Catalog CatalogInv.

Section methods.
Context `{ObjectSizes}.

(** ** The public methods from a well-formed catalog *)
Lemma absorb_report_wf rk raw c :
  catalog_wf c → live c rk → raw_rank raw = VInt rk →
  ∃ c', absorb_report rk raw c = (Ok tt, c') ∧ catalog_wf c' ∧ frame c' = frame c.
Proof.
  intros Hwf Hl Hrk. unfold absorb_report.
  destruct (validate_inventory_report _ _ raw) as [r|e] eqn:V.
  - apply validate_inventory_report_Ok in V as [-> Hr]. injection Hrk as <-.
    by apply apply_valid_report_wf.
  - rewrite (validate_inventory_report_Raise _ _ _ _ (cw_max_bytes _ Hwf) (cw_max_report _ Hwf) V).
    eexists. split; [done|]. split; [apply malformed_wf; [done|apply Hl]|done].
Qed.

(** The generation checks, then the report: which state results. *)
Lemma apply_report_wf raw c :
  catalog_wf c → catalog_wf (apply_report raw c).2.
Proof.
  intros Hwf. unfold apply_report.
  destruct (need_rank c _) as [rk|] eqn:Er; [|done]. apply need_rank_Ok in Er as [Hv Hrk].
  destruct (validate_generation_identity _ _) as [[g ep]|];
    [|by apply mark_generation_conflict_wf].
  assert (Ha : ∀ c1, catalog_wf c1 → live c1 rk → catalog_wf (absorb_report rk raw c1).2).
  { intros c1 ??. by destruct (absorb_report_wf rk raw c1) as (c' & -> & ? & _). }
  destruct (generation_disposition c rk g ep) eqn:Ed; try done.
  - apply Ha; [by apply adopt_generation_wf|by apply adopt_generation_live].
  - by apply mark_generation_conflict_wf.
  - apply Ha; [by apply adopt_generation_wf|by apply adopt_generation_live].
  - apply Ha; [done|by eapply disposition_current].
Qed.

Lemma need_rank_Raise c v e : need_rank c v = Raise e → exn_class e = ValueError.
Proof. unfold need_rank. repeat case_match; by intros [= <-]. Qed.

Lemma adopt_limits rk g ep c :
  (max_bytes (adopt_generation rk g ep c), max_report_entries (adopt_generation rk g ep c),
   expected_ranks (adopt_generation rk g ep c))
  = (max_bytes c, max_report_entries c, expected_ranks c).
Proof. unfold adopt_generation. by case_match. Qed.

Lemma apply_report_ok c raw :
  catalog_wf c →
  (apply_report raw c).1 = Ok tt ↔
  identified c (raw_rank raw) (raw_generation raw) (raw_generation_epoch raw).
Proof.
  intros Hwf. unfold identified, apply_report, validate_generation_identity. split.
  - destruct (need_rank c _) as [rk|] eqn:Er; [|done]. apply need_rank_Ok in Er as [Hv Hrk].
    destruct (generation_identity _ _) as [[g ep]|] eqn:Eg; [|done]. eauto 10.
  - intros (rk & Hrk & Hin & [[g ep] Hg]).
    rewrite (proj2 (need_rank_Ok c (raw_rank raw) rk) (conj Hrk Hin)), Hg. cbn.
    assert (Ha : ∀ c1, catalog_wf c1 → live c1 rk → (absorb_report rk raw c1).1 = Ok tt).
    { intros c1 ??. by destruct (absorb_report_wf rk raw c1) as (c' & -> & ? & _). }
    destruct (generation_disposition c rk g ep) eqn:Ed; try done; apply Ha;
      by first [apply adopt_generation_wf | apply adopt_generation_live
               | eapply disposition_current | done].
Qed.

Lemma absorb_malformed rk raw c e :
  validate_inventory_report (max_bytes c) (max_report_entries c) raw = Raise e →
  exn_class e = ManifestError → rk ∈ desynchronized (absorb_report rk raw c).2.
Proof. intros Hv He. unfold absorb_report. rewrite Hv, He. cbn. set_solver. Qed.

(** The startup image of an adopted generation. *)
Lemma install_startup_wf rk g ep entries c :
  catalog_wf c → rk ∈ expected_ranks c → catalog_wf (install_startup rk entries (adopt_generation rk g ep c)).2.
Proof.
  intros Hwf Hrk. set (c1 := adopt_generation rk g ep c).
  assert (catalog_wf c1) as Hwf1 by (by apply adopt_generation_wf).
  assert (live c1 rk) as Hl by (by apply adopt_generation_live).
  unfold install_startup. destruct (inventory_capacity _) as [cap|]; [|done]. cbv zeta.
  destruct (validate_entries _) as [l|] eqn:V; [|done]. apply validate_entries_Ok in V as [_ Hl'].
  destruct (max_bytes c1 <? _); [done|]. destruct (negb _); [done|].
  assert (image_ok (od_of_list l)) as Hok by (split; [apply od_of_list_NoDup|by apply od_of_list_Forall]).
  rewrite replace_rank_eq by apply Hok. by apply install_rank_wf.
Qed.

Lemma apply_startup_wf rank gen epoch entries c :
  catalog_wf c → catalog_wf (apply_startup rank gen epoch entries c).2.
Proof.
  intros Hwf. unfold apply_startup.
  destruct (need_rank c _) as [rk|] eqn:Er; [|done]. apply need_rank_Ok in Er as [Hv Hrk].
  destruct (validate_generation_identity _ _) as [[g ep]|];
    [|by apply mark_generation_conflict_wf].
  destruct (generation_disposition c rk g ep) eqn:Ed; try done.
  - by apply install_startup_wf.
  - by apply mark_generation_conflict_wf.
  - by apply install_startup_wf.
Qed.

Lemma touch_wf e c : catalog_wf c → is_Some (entry_ranks c !! e) → catalog_wf (touch e c).
Proof.
  intros [? ? ? [] []] He. constructor; try done; constructor; try done. by apply touch_rep.
Qed.

Lemma quorum_indexed c e s :
  expected_ranks c ≠ ∅ → has_quorum c e s = true → is_Some (entry_ranks c !! e).
Proof.
  intros Hne. unfold has_quorum. case_decide as Hr; [|done]. intros _.
  destruct (entry_ranks c !! e); [eauto|]. cbn in Hr. by destruct Hne.
Qed.

Lemma first_quorum_Some c l span e :
  first_quorum c l = Some (span, e) ↔
  ∃ l1 l2, l = l1 ++ (span, e) :: l2 ∧ has_quorum c e (Some span) = true ∧
    Forall (λ p, has_quorum c p.2 (Some p.1) = false) l1.
Proof.
  induction l as [|[s0 e0] l IH]; cbn.
  - split; [done|]. by intros ([] & l2 & [=] & _).
  - destruct (has_quorum c e0 (Some s0)) eqn:Hq.
    + split; [intros [= -> ->]; by exists [], l|].
      intros ([|p l1] & l2 & E & ? & Hf); simplify_eq/=; [done|].
      apply Forall_cons in Hf as [Hf _]. cbn in Hf. congruence.
    + rewrite IH. split.
      * intros (l1 & l2 & -> & ? & ?). exists ((s0, e0) :: l1), l2. split_and!; try done. by constructor.
      * intros ([|p l1] & l2 & E & ? & Hf); simplify_eq/=; [congruence|].
        apply Forall_cons in Hf as [_ Hf]. eauto.
Qed.

Lemma first_quorum_None c l span e :
  first_quorum c l = None → (span, e) ∈ l → has_quorum c e (Some span) ≠ true.
Proof.
  induction l as [|[s0 e0] l IH]; cbn; [by intros _ ?%not_elem_of_nil|].
  destruct (has_quorum c e0 (Some s0)) eqn:Hq; [done|].
  intros Hn [[= -> ->]|?]%elem_of_cons; [congruence|by apply IH].
Qed.

Lemma longest_wf l c : catalog_wf c → catalog_wf (longest l c).2.
Proof.
  intros Hwf. unfold longest. destruct (first_quorum _ _) as [[s e]|] eqn:E; [|done].
  apply first_quorum_Some in E as (? & ? & _ & Hq & _).
  apply touch_wf; [done|]. eapply quorum_indexed; [apply Hwf|done].
Qed.

Lemma quorum_count_wf c : catalog_wf c → catalog_wf (quorum_count c).2.
Proof.
  intros Hwf. unfold quorum_count. destruct (quorum_count_cache c) as [n|] eqn:E; [done|].
  destruct Hwf as [? ? ? [] []].
  constructor; try done; constructor; try done. intros n [= <-]. reflexivity.
Qed.

Lemma entries_of_init c e r :
  rank_entries c = gset_to_gmap [] e → entries_of c r = [].
Proof.
  intros Hre. unfold entries_of. rewrite Hre, lookup_gset_to_gmap. by destruct (guard _).
Qed.

Lemma catalog_init_Ok expected mb me c :
  catalog_init expected mb me = Ok c →
  ∃ n b m, 0 < n ≤ MAX_INVENTORY_REPORTS ∧ 0 < m ∧ INVENTORY_ENTRY_BYTES ≤ b ∧
    c = Catalog (list_to_set (seqZ 0 n)) b m ∅ (gset_to_gmap [] (list_to_set (seqZ 0 n))) ∅
          (gset_to_gmap [] (list_to_set (seqZ 0 n))) ∅ ∅ (list_to_set (seqZ 0 n)) ∅ [] 0 None.
Proof.
  unfold catalog_init. intros Hi. cbv zeta in Hi. inv_ok. bsimp. destruct_and?.
  match goal with E : inventory_capacity _ = Ok _ |- _ =>
    apply inventory_capacity_Ok in E as (? & [= <-] & ? & ->) end.
  match goal with E : list_to_set _ = _ |- _ => rewrite E end.
  eexists _, _, _. split_and!; [..|reflexivity]; try done; lia.
Qed.

Lemma catalog_init_wf expected mb me c : catalog_init expected mb me = Ok c → catalog_wf c.
Proof.
  intros (n & b & m & ? & ? & ? & ->)%catalog_init_Ok.
  assert (Hent : ∀ r, entries_of (Catalog (list_to_set (seqZ 0 n)) b m ∅
    (gset_to_gmap [] (list_to_set (seqZ 0 n))) ∅ (gset_to_gmap [] (list_to_set (seqZ 0 n))) ∅ ∅
    (list_to_set (seqZ 0 n)) ∅ [] 0 None) r = []) by (intros; by eapply entries_of_init).
  constructor; try done; cbn.
  - intros Hn. assert (0 ∈@{gset Z} list_to_set (seqZ 0 n)) as Hz; [|rewrite Hn in Hz; set_solver].
    apply elem_of_list_to_set, elem_of_seqZ. lia.
  - constructor; try done; cbn.
    + apply dom_gset_to_gmap.
    + intros r. rewrite Hent. split; constructor.
    + split_and!; cbn; try done; [|constructor|].
      * intros e r. rewrite lookup_empty; cbn. unfold index_rel.
        rewrite lookup_gset_to_gmap. destruct (guard _); cbn; set_solver.
      * intros e. rewrite lookup_empty. split; [by intros ?%not_elem_of_nil|by intros []].
    + rewrite map_size_empty. pose proof entry_bytes_positive. lia.
  - constructor; try done; cbn.
    intros r h. rewrite lookup_gset_to_gmap_Some. intros [_ <-]. cbn. lia.
Qed.
(** ** Runs: any sequence of calls, with any arguments *)
Inductive catalog_call :=
  | CallStartup (rank gen epoch : pyval) (entries : list pyval)
  | CallReport (report : raw_report)
  | CallLongest (candidates : list (Z * pystr))
  | CallQuorumCount.

Definition run_call (c : QuorumCatalog) (call : catalog_call) : QuorumCatalog :=
  match call with
  | CallStartup rank gen epoch entries => (apply_startup rank gen epoch entries c).2
  | CallReport report => (apply_report report c).2
  | CallLongest candidates => (longest candidates c).2
  | CallQuorumCount => (quorum_count c).2
  end.

Definition run_calls (c : QuorumCatalog) (calls : list catalog_call) : QuorumCatalog :=
  foldl run_call c calls.

Lemma run_call_wf c call : catalog_wf c → catalog_wf (run_call c call).
Proof.
  intros Hwf. destruct call; cbn;
    auto using apply_startup_wf, apply_report_wf, longest_wf, quorum_count_wf.
Qed.

Lemma run_calls_wf c calls : catalog_wf c → catalog_wf (run_calls c calls).
Proof.
  revert c; induction calls as [|call calls IH]; intros c Hc; cbn; [done|].
  by apply IH, run_call_wf.
Qed.

(** The states of a catalog constructed by [__init__]. *)
Definition catalog_state (c : QuorumCatalog) : Prop :=
  ∃ expected mb me c0 calls, catalog_init expected mb me = Ok c0 ∧ c = run_calls c0 calls.

Lemma catalog_state_wf c : catalog_state c → catalog_wf c.
Proof. intros (? & ? & ? & c0 & calls & Hi & ->). by eapply run_calls_wf, catalog_init_wf. Qed.

(** ** What a quorum is *)
Lemma indexed_ranks c e r :
  catalog_wf c → r ∈ default ∅ (entry_ranks c !! e) ↔ is_Some (od_get e (entries_of c r)).
Proof.
  intros Hwf. destruct (iw_rep _ (cw_index _ Hwf)) as (_ & HR & _). cbn in HR.
  rewrite HR. unfold index_rel. by rewrite od_get_is_Some.
Qed.

Lemma indexed_expected c e r :
  catalog_wf c → r ∈ default ∅ (entry_ranks c !! e) → r ∈ expected_ranks c.
Proof.
  intros Hwf. rewrite indexed_ranks by done. intros [s Hs].
  rewrite <-(iw_dom _ (cw_index _ Hwf)), elem_of_dom.
  unfold entries_of in Hs. destruct (rank_entries c !! r); [eauto|done].
Qed.

Lemma has_quorum_iff c e s :
  catalog_wf c →
  has_quorum c e (Some s) = true ↔ ∀ r, r ∈ expected_ranks c → od_get e (entries_of c r) = Some s.
Proof.
  intros Hwf. unfold has_quorum. split.
  - case_decide as Hr; [|done]. rewrite Hr. intros Hq r Hrin.
    destruct (elements _) as [|only [|]] eqn:El; try done. apply bool_decide_eq_true in Hq as ->.
    assert (Hin : od_get e (entries_of c r) ∈ [Some s]).
    { rewrite <-El. apply elem_of_elements, elem_of_map. eauto. }
    by apply list_elem_of_singleton in Hin.
  - intros Hall. rewrite decide_True.
    2:{ apply set_eq. intros r. split; [by apply indexed_expected|].
        intros Hr. apply indexed_ranks; [done|]. rewrite (Hall r Hr). eauto. }
    assert ((set_map (λ r, od_get e (entries_of c r)) (default ∅ (entry_ranks c !! e))
      : gset (option Z)) = {[Some s]}) as ->.
    { apply set_eq. intros o. rewrite elem_of_map, elem_of_singleton. split.
      - intros (r & -> & Hr). by eapply Hall, indexed_expected.
      - intros ->. destruct (set_choose_L _ (cw_expected _ Hwf)) as [r Hr].
        exists r. split; [by rewrite Hall|]. apply indexed_ranks; [done|]. rewrite Hall; eauto. }
    rewrite elements_singleton. by apply bool_decide_eq_true.
Qed.

Lemma has_quorum_None c e :
  catalog_wf c → has_quorum c e None = true ↔ ∃ s, has_quorum c e (Some s) = true.
Proof.
  intros Hwf. unfold has_quorum. case_decide; [|by split; [|by intros []]].
  destruct (elements _) as [|only [|]]; try by split; [|by intros []].
  rewrite bool_decide_eq_true. setoid_rewrite bool_decide_eq_true. done.
Qed.

Lemma desync_no_quorum c r e s :
  catalog_wf c → r ∈ desynchronized c → has_quorum c e s = false.
Proof.
  intros Hwf Hr. destruct (has_quorum c e s) eqn:Hq; [|done].
  assert (Hex : ∃ s, has_quorum c e (Some s) = true)
    by (destruct s; [eauto|by apply has_quorum_None]).
  destruct Hex as [s' Hs']. rewrite has_quorum_iff in Hs' by done.
  pose proof (pw_desync _ (cw_protocol _ Hwf) r Hr) as Hexp.
  specialize (Hs' r Hexp). by rewrite (pw_withdrawn _ (cw_protocol _ Hwf) r Hr) in Hs'.
Qed.
(** ** The abstract behaviour of generations

    What a call may do to the adopted identities and the conflict set: nothing,
    mark one expected rank as conflicting, or adopt an identity that is the
    rank's first or strictly newer, which clears the rank's conflict. *)
Inductive generation_step :
    gmap Z (pystr * Z) * gset Z → gmap Z (pystr * Z) * gset Z → Prop :=
  | GenSame v : generation_step v v
  | GenConflict g gc rk : generation_step (g, gc) (g, {[rk]} ∪ gc)
  | GenAdopt g gc rk id ep :
      (∀ id0 ep0, g !! rk = Some (id0, ep0) → ep0 < ep) →
      generation_step (g, gc) (<[rk := (id, ep)]> g, gc ∖ {[rk]}).

Definition generation_view (c : QuorumCatalog) := (generation c, generation_conflicts c).

Lemma frame_view c c' : frame c' = frame c → generation_view c' = generation_view c.
Proof. intros [=]. unfold generation_view. congruence. Qed.

Lemma adopt_view rk g ep c :
  generation_view (adopt_generation rk g ep c)
  = (<[rk := (g, ep)]> (generation c), generation_conflicts c ∖ {[rk]}).
Proof. unfold adopt_generation. by case_match. Qed.

Lemma adopt_step rk g ep c :
  generation_disposition c rk g ep = Initial ∨ generation_disposition c rk g ep = Newer →
  generation_step (generation_view c) (generation_view (adopt_generation rk g ep c)).
Proof.
  intros Hd. rewrite adopt_view. apply GenAdopt. intros id0 ep0 Hg.
  unfold generation_disposition in Hd. rewrite Hg in Hd.
  destruct (ep <? ep0); [case_decide; by destruct Hd|].
  destruct (ep0 <? ep) eqn:E; [by bsimp|]. case_decide; by destruct Hd.
Qed.

Lemma install_startup_view rk entries c :
  catalog_wf c → rk ∈ expected_ranks c →
  generation_view (install_startup rk entries c).2 = generation_view c.
Proof.
  intros Hwf Hrk. unfold install_startup. destruct (inventory_capacity _) as [cap|]; [|done].
  cbv zeta. destruct (validate_entries _) as [l|] eqn:V; [|done].
  apply validate_entries_Ok in V as [_ Hl].
  destruct (max_bytes c <? _); [done|]. destruct (negb _); [done|].
  assert (image_ok (od_of_list l)) as Hok by (split; [apply od_of_list_NoDup|by apply od_of_list_Forall]).
  rewrite replace_rank_eq by apply Hok. by apply frame_view, install_rank_frame.
Qed.

Lemma adopt_expected rk g ep c : expected_ranks (adopt_generation rk g ep c) = expected_ranks c.
Proof. unfold adopt_generation. by case_match. Qed.

Lemma absorb_report_view rk raw c :
  catalog_wf c → live c rk → raw_rank raw = VInt rk →
  generation_view (absorb_report rk raw c).2 = generation_view c.
Proof.
  intros Hwf Hl Hrk. destruct (absorb_report_wf rk raw c Hwf Hl Hrk) as (c' & -> & _ & Hf).
  by apply frame_view.
Qed.

Lemma run_call_generation c call :
  catalog_wf c → generation_step (generation_view c) (generation_view (run_call c call)).
Proof.
  intros Hwf. destruct call as [rank gen epoch entries|raw|cands|]; cbn [run_call].
  - unfold apply_startup.
    destruct (need_rank c _) as [rk|] eqn:Er; [|constructor]. apply need_rank_Ok in Er as [Hv Hrk].
    destruct (validate_generation_identity _ _) as [[g ep]|]; [|apply GenConflict].
    destruct (generation_disposition c rk g ep) eqn:Ed; try constructor;
      (rewrite install_startup_view;
        [apply adopt_step; eauto|by apply adopt_generation_wf|by rewrite adopt_expected]).
  - unfold apply_report.
    destruct (need_rank c _) as [rk|] eqn:Er; [|constructor]. apply need_rank_Ok in Er as [Hv Hrk].
    destruct (validate_generation_identity _ _) as [[g ep]|]; [|apply GenConflict].
    destruct (generation_disposition c rk g ep) eqn:Ed; try constructor;
      (rewrite absorb_report_view;
        [|by first [done | apply adopt_generation_wf]
         |by first [apply adopt_generation_live | eapply disposition_current]|done]).
    + apply adopt_step; eauto.
    + apply adopt_step; eauto.
    + constructor.
  - unfold longest. destruct (first_quorum _ _) as [[]|]; constructor.
  - unfold quorum_count. destruct (quorum_count_cache c); constructor.
Qed.
(** The expected ranks never change. *)
Lemma install_rank_expected rk es c :
  expected_ranks (install_rank rk es c) = expected_ranks c.
Proof. unfold install_rank, enforce_bound. by destruct (enforce_loop _ _ _ _ _) as [[[]]]. Qed.

Lemma run_call_expected c call :
  catalog_wf c → expected_ranks (run_call c call) = expected_ranks c.
Proof.
  intros Hwf. destruct call as [rank gen epoch entries|raw|cands|]; cbn [run_call].
  - unfold apply_startup.
    destruct (need_rank c _) as [rk|] eqn:Er; [|done].
    destruct (validate_generation_identity _ _) as [[g ep]|]; [|done].
    destruct (generation_disposition c rk g ep); try done;
      (rewrite <-(adopt_expected rk g ep c); unfold install_startup, replace_rank;
       repeat (destruct (inventory_capacity _) || destruct (validate_entries _)
               || destruct (negb _) || destruct (max_bytes _ <? _)); try done;
       apply install_rank_expected).
  - unfold apply_report.
    destruct (need_rank c _) as [rk|] eqn:Er; [|done]. apply need_rank_Ok in Er as [Hv Hrk].
    destruct (validate_generation_identity _ _) as [[g ep]|]; [|done].
    assert (Ha : ∀ c1, catalog_wf c1 → live c1 rk →
      expected_ranks (absorb_report rk raw c1).2 = expected_ranks c1).
    { intros c1 ??. destruct (absorb_report_wf rk raw c1) as (c' & -> & _ & [=]); done. }
    destruct (generation_disposition c rk g ep) eqn:Ed; try done;
      first [rewrite Ha, adopt_expected; [done|by apply adopt_generation_wf|by apply adopt_generation_live]
            |apply Ha; [done|by eapply disposition_current]].
  - unfold longest. by destruct (first_quorum _ _) as [[]|].
  - unfold quorum_count. by destruct (quorum_count_cache c).
Qed.

Lemma generation_step_le g gc g' gc' rk id ep :
  generation_step (g, gc) (g', gc') → g !! rk = Some (id, ep) →
  ∃ id' ep', g' !! rk = Some (id', ep') ∧ ep ≤ ep' ∧
    (ep' = ep → id' = id ∧ (rk ∈ gc → rk ∈ gc')).
Proof.
  intros Hs Hg. inversion Hs as [|? ? rk'|? ? rk' id' ep' Hlt]; simplify_eq.
  - eauto 10 with lia.
  - exists id, ep. split_and!; [done|lia|]. intros _. split; [done|]. set_solver.
  - destruct (decide (rk' = rk)) as [->|Hne].
    + exists id', ep'. rewrite lookup_insert_eq. specialize (Hlt _ _ Hg).
      split_and!; [done|lia|lia].
    + exists id, ep. rewrite lookup_insert_ne by done. split_and!; [done|lia|].
      intros _. split; [done|]. set_solver.
Qed.

Lemma run_calls_generation c calls rk id ep :
  catalog_wf c → generation c !! rk = Some (id, ep) →
  ∃ id' ep', generation (run_calls c calls) !! rk = Some (id', ep') ∧ ep ≤ ep' ∧
    (ep' = ep → id' = id ∧
      (rk ∈ generation_conflicts c → rk ∈ generation_conflicts (run_calls c calls))).
Proof.
  revert c id ep; induction calls as [|call calls IH]; intros c id ep Hwf Hg; cbn.
  - exists id, ep. split_and!; [done|lia|done].
  - pose proof (generation_step_le _ _ _ _ _ _ _ (run_call_generation c call Hwf) Hg)
      as (id1 & ep1 & Hg1 & Hle1 & Heq1).
    destruct (IH (run_call c call) id1 ep1) as (id2 & ep2 & Hg2 & Hle2 & Heq2);
      [by apply run_call_wf|done|].
    exists id2, ep2. split_and!; [done|lia|]. intros ->.
    destruct Heq1 as [<- Hc1]; [lia|]. destruct Heq2 as [<- Hc2]; [lia|]. by auto.
Qed.
End methods.
