(* ===== verification/CatalogProps.v ===== *)
(** * Properties of the quorum catalog ([QuorumCatalog], quorum.py)

    Stated for every state a catalog can be in: [catalog_state] is any run of
    its public methods, with arbitrary arguments, from [catalog_init]. *)
From S2P Require Import Prelude Dict Config Inventory Catalog CatalogInv CatalogSpec.

(** ** Concrete states for the witnesses: two ranks, both reporting one entry *)
Module CatalogExamples.
#[local] Existing Instance cpython312.

Definition key0 : pystr := replicate 64 48.
Definition key1 : pystr := replicate 64 97.
Definition expected2 : list pyval := [VInt 0; VInt 1].
Definition bytes4 : Z := 4 * INVENTORY_ENTRY_BYTES.
Definition startup_call (rank : Z) (epoch : Z) (es : list (pystr * Z)) : catalog_call :=
  CallStartup (VInt rank) (VStr (lit "gen")) (VInt epoch) (entry_val <$> es).
Definition c0 : QuorumCatalog :=
  match catalog_init expected2 (VInt bytes4) (VInt 8) with
  | Ok c => c
  | Raise _ => Catalog ∅ 0 0 ∅ ∅ ∅ ∅ ∅ ∅ ∅ ∅ [] 0 None
  end.
Definition calls2 : list catalog_call :=
  [startup_call 0 5 [(key0, 256); (key1, 512)]; startup_call 1 5 [(key1, 512)]].
Definition c2 : QuorumCatalog := run_calls c0 calls2.

Lemma c2_state : catalog_state c2.
Proof.
  exists expected2, (VInt bytes4), (VInt 8), c0, calls2. split; [by vm_compute|reflexivity].
Defined.

Example c2_quorum :
  has_quorum c2 key1 (Some 512) = true ∧ has_quorum c2 key0 None = false ∧
  (longest [(256, key0); (512, key1)] c2).1 = Some (512, key1).
Proof. by vm_compute. Qed.

(** A report of rank 1 whose epoch is a string. *)
Definition bad_epoch : raw_report :=
  RawReport true (VInt 1) (VStr (lit "gen")) (VStr (lit "5")) NotACheckpoint NoDelta.
(** A well-identified report of rank 1 with no checkpoint in it. *)
Definition bad_body : raw_report :=
  RawReport true (VInt 1) (VStr (lit "gen")) (VInt 5) NotACheckpoint NoDelta.
End CatalogExamples.

Section props.
Context `{ObjectSizes}.

(** C8: every state of a catalog satisfies the invariant: the inverse index is
    exactly the inverse of the rank images, the LRU order lists exactly the
    indexed entries once, withdrawn ranks have empty images, ranks without a
    generation and ranks in conflict are withdrawn, images and pending pages
    hold valid entries only, and the cached quorum count is the count. *)
Theorem catalog_invariant c : catalog_state c → catalog_wf c.
Proof. apply catalog_state_wf. Qed.

(** an entry has quorum at a span exactly when the image of every expected
    rank offers it with that span, and no entry has quorum while any rank is
    withdrawn. *)
Theorem quorum_iff_every_rank c e s :
  catalog_state c →
  (has_quorum c e (Some s) = true
     ↔ ∀ r, r ∈ expected_ranks c → od_get e (entries_of c r) = Some s) ∧
  (∀ r o, r ∈ desynchronized c → has_quorum c e o = false).
Proof.
  intros Hwf%catalog_state_wf. split; [by apply has_quorum_iff|].
  intros r o ?. by eapply desync_no_quorum.
Qed.

(** C40: the entries the catalog indexes, the image of each rank and the pages a
    rank has pending stay within the configured memory bound at
    [INVENTORY_ENTRY_BYTES] per record. *)
Theorem catalog_memory_bound c r :
  catalog_state c →
  Z.of_nat (size (entry_ranks c)) * INVENTORY_ENTRY_BYTES ≤ max_bytes c ∧
  Z.of_nat (length (entries_of c r)) * INVENTORY_ENTRY_BYTES ≤ max_bytes c ∧
  (∀ p, pending c !! r = Some p →
    page_total (p_pages p) * INVENTORY_ENTRY_BYTES ≤ max_bytes c).
Proof.
  intros Hwf%catalog_state_wf. pose proof entry_bytes_positive as Hpos.
  pose proof (iw_bound _ (cw_index _ Hwf)) as Hb. split_and!; [done| |].
  - etrans; [|exact Hb]. apply Z.mul_le_mono_nonneg_r; [lia|]. apply inj_le.
    rewrite <-size_dom, <-(length_fmap fst), <-(size_list_to_set (C := gset pystr)) by apply Hwf.
    apply subseteq_size. intros e He. apply elem_of_list_to_set, od_get_is_Some in He.
    apply indexed_ranks in He; [|done]. apply elem_of_dom.
    destruct (entry_ranks c !! e); [eauto|cbn in He; set_solver].
  - intros p Hp. apply Hwf in Hp as [_ [_ _ Ht [Hh1 Hh2] _]].
    rewrite Ht in Hh1. pose proof (Z.mul_div_le (max_bytes c) INVENTORY_ENTRY_BYTES Hpos).
    assert (Hle : page_total (p_pages p) ≤ max_bytes c / INVENTORY_ENTRY_BYTES) by lia. nia.
Qed.

(** applying a report returns normally exactly when its rank is expected and
    its generation identity is well formed; otherwise it raises [ValueError],
    and when the rank is expected it is left in conflict, without quorum. *)
Theorem apply_report_outcome c raw :
  catalog_state c →
  ((apply_report raw c).1 = Ok tt
     ↔ identified c (raw_rank raw) (raw_generation raw) (raw_generation_epoch raw)) ∧
  (∀ e, (apply_report raw c).1 = Raise e →
     exn_class e = ValueError ∧
     ∀ rk, raw_rank raw = VInt rk → rk ∈ expected_ranks c →
       rk ∈ generation_conflicts (apply_report raw c).2 ∧
       ∀ k o, has_quorum (apply_report raw c).2 k o = false).
Proof.
  intros Hwf%catalog_state_wf. pose proof (apply_report_wf raw c Hwf) as Hwf'.
  pose proof (apply_report_ok c raw Hwf) as Hok. split; [exact Hok|].
  intros e He. revert He Hwf'. unfold apply_report.
  destruct (need_rank c (raw_rank raw)) as [rk|e'] eqn:Er.
  - apply need_rank_Ok in Er as [Hrk Hin]. unfold validate_generation_identity.
    destruct (generation_identity _ _) as [[g ep]|] eqn:Eg; cbn.
    { intros He. exfalso. assert (Hi : identified c (raw_rank raw) (raw_generation raw)
        (raw_generation_epoch raw)) by (exists rk; rewrite Eg; eauto).
      apply Hok in Hi. revert He Hi. unfold apply_report, validate_generation_identity.
      rewrite (proj2 (need_rank_Ok c (raw_rank raw) rk) (conj Hrk Hin)), Eg. cbn. congruence. }
    intros [= <-] Hwf'. split; [done|]. intros rk' Hrk' _. rewrite Hrk in Hrk'.
    injection Hrk' as <-. split; [set_solver|]. intros k o.
    apply (desync_no_quorum _ rk); [exact Hwf'|]. cbn. set_solver.
  - intros [= <-] _. split; [by eapply need_rank_Raise|].
    intros rk Hrk Hin. by rewrite (proj2 (need_rank_Ok c (raw_rank raw) rk) (conj Hrk Hin)) in Er.
Qed.

(** C9: a report that is attributed to an expected rank and does not come from a
    known older process, but that fails validation, withdraws the rank: no
    entry has quorum afterwards. *)
Theorem malformed_report_withdraws c raw rk g ep e k o :
  catalog_state c → raw_rank raw = VInt rk → rk ∈ expected_ranks c →
  generation_identity (raw_generation raw) (raw_generation_epoch raw) = Some (g, ep) →
  generation_disposition c rk g ep ≠ Stale →
  validate_inventory_report (max_bytes c) (max_report_entries c) raw = Raise e →
  (apply_report raw c).1 = Ok tt ∧ has_quorum (apply_report raw c).2 k o = false.
Proof.
  intros Hwf%catalog_state_wf Hrk Hin Hg Hd Hv.
  split; [apply apply_report_ok; [done|]; exists rk; rewrite Hg; eauto|].
  pose proof (apply_report_wf raw c Hwf) as Hwf'.
  apply (desync_no_quorum _ rk); [done|]. clear Hwf'.
  unfold apply_report, validate_generation_identity.
  rewrite (proj2 (need_rank_Ok c (raw_rank raw) rk) (conj Hrk Hin)), Hg.
  pose proof (validate_inventory_report_Raise _ _ _ _ (cw_max_bytes _ Hwf) (cw_max_report _ Hwf) Hv)
    as Hc.
  pose proof (adopt_limits rk g ep c) as [= Hm He _].
  destruct (generation_disposition c rk g ep); try done;
    try (apply absorb_malformed with e; [by rewrite ?Hm, ?He|done]).
  cbn. set_solver.
Qed.

(** [longest] returns a candidate that has quorum and that no longer candidate
    with quorum exists for; it returns nothing exactly when no candidate has
    quorum. *)
Theorem longest_is_longest c candidates :
  (∀ span k, (longest candidates c).1 = Some (span, k) →
     (span, k) ∈ candidates ∧ has_quorum c k (Some span) = true ∧
     ∀ span' k', (span', k') ∈ candidates → has_quorum c k' (Some span') = true → span' ≤ span) ∧
  ((longest candidates c).1 = None ↔
     ∀ span k, (span, k) ∈ candidates → has_quorum c k (Some span) = false).
Proof.
  unfold longest. set (l := merge_sort candidate_ge candidates).
  assert (Hperm : ∀ p, p ∈ l ↔ p ∈ candidates) by (intros p; apply elem_of_Permutation_proper, merge_sort_Permutation).
  assert (Hsort : StronglySorted candidate_ge l) by (apply StronglySorted_merge_sort; apply _).
  split.
  - intros span k Hl. destruct (first_quorum c l) as [[s e]|] eqn:E; [|done].
    injection Hl as -> ->. apply first_quorum_Some in E as (l1 & l2 & El & Hq & Hf).
    rewrite <-Hperm, El. split_and!; [set_solver|done|].
    intros span' k' Hin Hq'. rewrite <-Hperm, El in Hin.
    apply elem_of_app in Hin as [Hin|[[= -> ->]|Hin]%elem_of_cons]; [|done|].
    + rewrite Forall_forall in Hf. specialize (Hf _ Hin). cbn in Hf. congruence.
    + rewrite El in Hsort. apply StronglySorted_app in Hsort as (_ & _ & Hs).
      apply StronglySorted_inv in Hs as [_ Hs]. rewrite Forall_forall in Hs.
      specialize (Hs _ Hin). unfold candidate_ge, candidate_leb in Hs; cbn in Hs. bsimp. lia.
  - setoid_rewrite <-Hperm. destruct (first_quorum c l) as [[s e]|] eqn:E; cbn.
    + split; [done|]. intros Hall. apply first_quorum_Some in E as (l1 & l2 & El & Hq & _).
      rewrite (Hall s e) in Hq; [done|]. rewrite El. set_solver.
    + split; [|done]. intros _ span k Hin. destruct (has_quorum c k (Some span)) eqn:Hq; [|done].
      exfalso. by eapply first_quorum_None.
Qed.
(** C37: a rank's adopted epoch never decreases, an epoch keeps one identity, and a
    rank in conflict stays in conflict (so nothing has quorum) until a strictly
    newer epoch is adopted, whatever calls follow. *)
Theorem generation_never_rolls_back c calls rk id ep :
  catalog_state c → generation c !! rk = Some (id, ep) →
  ∃ id' ep', generation (run_calls c calls) !! rk = Some (id', ep') ∧ ep ≤ ep' ∧
    (ep' = ep → id' = id ∧
      (rk ∈ generation_conflicts c →
         rk ∈ generation_conflicts (run_calls c calls) ∧
         ∀ k o, has_quorum (run_calls c calls) k o = false)).
Proof.
  intros Hwf%catalog_state_wf Hg. pose proof (run_calls_wf c calls Hwf) as Hwf'.
  destruct (run_calls_generation c calls rk id ep Hwf Hg) as (id' & ep' & Hg' & Hle & Heq).
  exists id', ep'. split_and!; [done|done|]. intros Hep. destruct (Heq Hep) as [Hid Hc].
  split; [done|]. intros Hin. specialize (Hc Hin). split; [done|]. intros k o.
  apply (desync_no_quorum _ rk); [done|]. by apply Hwf'.
Qed.

(** A report from a process the catalog has already seen replaced (a lower
    epoch recorded in the bounded history) changes nothing. *)
Theorem stale_report_ignored c raw rk g ep :
  raw_rank raw = VInt rk → rk ∈ expected_ranks c →
  generation_identity (raw_generation raw) (raw_generation_epoch raw) = Some (g, ep) →
  generation_disposition c rk g ep = Stale →
  apply_report raw c = (Ok tt, c).
Proof.
  intros Hrk Hin Hg Hd. unfold apply_report, validate_generation_identity.
  by rewrite (proj2 (need_rank_Ok c (raw_rank raw) rk) (conj Hrk Hin)), Hg, Hd.
Qed.
End props.

(** ** Witnesses *)
Module CatalogWitnesses.
Import CatalogExamples.
#[local] Existing Instance cpython312.

Lemma rank1_expected : 1 ∈ expected_ranks c2.
Proof. apply (bool_decide_eq_true_1 _). by vm_compute. Defined.

Lemma catalog_invariant_witness : catalog_wf c2.
Proof. exact (catalog_invariant c2 c2_state). Defined.

Lemma quorum_iff_every_rank_witness :
  has_quorum c2 key1 (Some 512) = true ∧
  ∀ r, r ∈ expected_ranks c2 → od_get key1 (entries_of c2 r) = Some 512.
Proof.
  assert (Hq : has_quorum c2 key1 (Some 512) = true) by (by vm_compute).
  split; [exact Hq|]. exact (proj1 (proj1 (quorum_iff_every_rank c2 key1 512 c2_state)) Hq).
Defined.

Lemma catalog_memory_bound_witness :
  Z.of_nat (size (entry_ranks c2)) * INVENTORY_ENTRY_BYTES ≤ max_bytes c2.
Proof. exact (proj1 (catalog_memory_bound c2 0 c2_state)). Defined.

Lemma apply_report_outcome_witness :
  1 ∈ generation_conflicts (apply_report bad_epoch c2).2 ∧
  has_quorum (apply_report bad_epoch c2).2 key1 (Some 512) = false.
Proof.
  destruct (proj2 (apply_report_outcome c2 bad_epoch c2_state) (Exn ValueError "inventory generation identity is invalid"))
    as [_ Hc]; [by vm_compute|].
  destruct (Hc 1) as [H1 H2]; [done|exact rank1_expected|].
  split; [exact H1|apply H2].
Defined.

Lemma malformed_report_withdraws_witness :
  (apply_report bad_body c2).1 = Ok tt ∧
  has_quorum (apply_report bad_body c2).2 key1 (Some 512) = false.
Proof.
  apply (malformed_report_withdraws c2 bad_body 1 (lit "gen") 5
           (Exn ManifestError "inventory checkpoint type is malformed") key1 (Some 512) c2_state);
    [done|exact rank1_expected|by vm_compute|by vm_compute|by vm_compute].
Defined.

(** Rank 1 restarts with epoch 6, and the old process reports again. *)
Definition restarted : QuorumCatalog := run_calls c2 [startup_call 1 6 []].

Lemma generation_never_rolls_back_witness :
  ∃ id' ep', generation restarted !! 1 = Some (id', ep') ∧ 5 ≤ ep'.
Proof.
  destruct (generation_never_rolls_back c2 [startup_call 1 6 []] 1 (lit "gen") 5 c2_state)
    as (id' & ep' & H1 & H2 & _); [by vm_compute|].
  exact (ex_intro _ id' (ex_intro _ ep' (conj H1 H2))).
Defined.

Lemma stale_report_ignored_witness : apply_report bad_body restarted = (Ok tt, restarted).
Proof.
  apply (stale_report_ignored restarted bad_body 1 (lit "gen") 5).
  - reflexivity.
  - apply (bool_decide_eq_true_1 _). by vm_compute.
  - by vm_compute.
  - by vm_compute.
Defined.
End CatalogWitnesses.
