(* ===== verification/ReporterInv.v ===== *)
(** * The reporter's invariant ([InventoryReporter], quorum.py)

    [reporter_wf] holds of a constructed reporter and every method preserves
    it: the held catalog is duplicate free and within its memory bound, the
    checkpoint image is exactly the advertised image at the current sequence,
    and whenever no mutation is pending everything advertised is still held. *)
From S2P Require Import Prelude Dict Config Inventory Reporter.

Record delta_genuine (base img : gmap pystr Z) (d : InventoryDelta) : Prop := {
  dg_image : img = list_to_map (d_added d) ∪ foldr delete base (d_removed d);
  dg_added : NoDup (d_added d).*1
}.

Lemma lookup_foldr_del (m : gmap pystr Z) ks k :
  foldr delete m ks !! k = if decide (k ∈ ks) then None else m !! k.
Proof.
  induction ks as [|k' ks IH]; cbn; [done|]. rewrite lookup_delete.
  destruct (decide (k' = k)) as [->|Hne]; [by rewrite decide_True by by left|].
  rewrite IH. destruct (decide (k ∈ ks)); [by rewrite decide_True by by right|].
  rewrite decide_False; [done|]. rewrite not_elem_of_cons. by split; [congruence|].
Qed.

Section reporter.
Context `{ObjectSizes}.

Record reporter_wf (r : InventoryReporter) : Prop := {
  rw_rank : 0 ≤ rp_rank r < MAX_INVENTORY_REPORTS;
  rw_generation : 0 < Z.of_nat (length (rp_generation r)) ≤ MAX_GENERATION_LENGTH;
  rw_epoch : 0 ≤ rp_generation_epoch r ≤ MAX_COUNTER;
  rw_max_bytes : INVENTORY_ENTRY_BYTES ≤ rp_max_bytes r;
  rw_max_report : 0 < rp_max_report_entries r;
  rw_nodup : NoDup (held r).*1;
  rw_valid : Forall valid_entry (held r);
  rw_capacity : Z.of_nat (length (held r)) * INVENTORY_ENTRY_BYTES ≤ rp_max_bytes r;
  rw_clean : dirty r = false → observed r ⊆ od_map (held r);
  rw_observed : map_Forall (λ k s, valid_entry (k, s)) (observed r);
  rw_observed_size : Z.of_nat (size (observed r)) * INVENTORY_ENTRY_BYTES ≤ rp_max_bytes r;
  rw_sequence : 0 ≤ sequence r;
  rw_checkpoint : checkpoint_sequence r = sequence r ∧ checkpoint_items r ≡ₚ map_to_list (observed r);
  rw_page : 0 ≤ checkpoint_index r ∧ 0 ≤ checkpoint_cycle r
}.

(** The held catalog as a map is valid and as large as the list. *)
Lemma held_size r : NoDup (held r).*1 → size (od_map (held r)) = length (held r).
Proof. apply od_map_size. Qed.

Lemma held_lookup r k s :
  NoDup (held r).*1 → od_map (held r) !! k = Some s ↔ (k, s) ∈ held r.
Proof. intros. rewrite lookup_od_map. by apply od_get_elem. Qed.

Lemma sub_held_wf r m :
  reporter_wf r → m ⊆ od_map (held r) →
  map_Forall (λ k s, valid_entry (k, s)) m ∧
  Z.of_nat (size m) * INVENTORY_ENTRY_BYTES ≤ rp_max_bytes r.
Proof.
  intros Hwf Hsub. split.
  - intros k s Hk. eapply lookup_weaken in Hk; [|exact Hsub].
    apply held_lookup in Hk; [|apply Hwf]. pose proof (rw_valid _ Hwf) as Hv.
    rewrite Forall_forall in Hv. by apply Hv.
  - pose proof entry_bytes_positive. etrans; [|apply (rw_capacity _ Hwf)].
    apply Z.mul_le_mono_nonneg_r; [lia|]. rewrite <-held_size by apply Hwf.
    apply inj_le. rewrite <-!size_dom. by apply subseteq_size, subseteq_dom.
Qed.

(** ** The delta that [next_report] emits *)
Lemma removed_keys_elem r k :
  k ∈ removed_keys r ↔ ∃ s, observed r !! k = Some s ∧ od_get k (held r) ≠ Some s.
Proof.
  unfold removed_keys. rewrite (elem_of_Permutation_proper _ _ _ (py_sorted_keys_perm _)).
  rewrite list_elem_of_fmap. setoid_rewrite elem_of_map_to_list'.
  setoid_rewrite map_lookup_filter_Some. split.
  - intros ([k' s] & -> & ? & ?). eauto.
  - intros (s & ? & ?). by exists (k, s).
Qed.

Lemma removed_keys_NoDup r : NoDup (removed_keys r).
Proof. unfold removed_keys. rewrite py_sorted_keys_perm. apply NoDup_fst_map_to_list. Qed.

Lemma unadvertised_elem r p : p ∈ unadvertised r ↔ p ∈ held r ∧ observed r !! p.1 = None.
Proof.
  unfold unadvertised. rewrite (elem_of_Permutation_proper _ _ _ (py_sorted_items_perm _)).
  rewrite list_elem_of_filter. tauto.
Qed.

Lemma unadvertised_NoDup r : NoDup (held r).*1 → NoDup (unadvertised r).*1.
Proof.
  intros Hnd. unfold unadvertised.
  assert ((py_sorted_items (filter (λ p, observed r !! p.1 = None) (held r))).*1
    ≡ₚ (filter (λ p, observed r !! p.1 = None) (held r)).*1) as ->
    by by rewrite py_sorted_items_perm.
  eapply sublist_NoDup; [exact Hnd|]. apply fmap_sublist, sublist_filter.
Qed.

Lemma take_NoDup_fst n (l : list (pystr * Z)) : NoDup l.*1 → NoDup (take n l).*1.
Proof. intros. rewrite fmap_take. eapply sublist_NoDup; [done|]. apply sublist_take. Qed.

(** Everything advertised after the mutation is held with the same span. *)
Lemma emit_sub_held b r :
  NoDup (held r).*1 → observed (emit_mutation b r) ⊆ od_map (held r).
Proof.
  intros Hnd. cbn. destruct (_ <=? b) eqn:Eb; [|done].
  apply map_subseteq_spec. intros k s. rewrite lookup_union_Some_raw.
  intros [Hk|[_ Hk]].
  - apply elem_of_list_to_map_2, elem_of_take in Hk as (i & Hi & _).
    apply list_elem_of_lookup_2, unadvertised_elem in Hi as [Hi _]. by apply held_lookup.
  - rewrite lookup_foldr_del in Hk. case_decide as Hn; [done|].
    rewrite lookup_od_map. destruct (decide (od_get k (held r) = Some s)); [done|].
    destruct Hn. apply removed_keys_elem. eauto.
Qed.

Lemma settle_sub_held b r : reporter_wf r → observed (settle b r) ⊆ od_map (held (settle b r)).
Proof.
  intros Hwf. unfold settle. case_match eqn:E.
  - change (observed (emit_mutation b r) ⊆ od_map (held r)). apply emit_sub_held, Hwf.
  - change (observed r ⊆ od_map (held r)). destruct (dirty r) eqn:Ed; [|by apply Hwf].
    cbn in E. apply negb_false_iff, bool_decide_eq_true in E. by rewrite E.
Qed.

Lemma emit_items_perm b r :
  checkpoint_items (emit_mutation b r) ≡ₚ map_to_list (observed (emit_mutation b r)).
Proof. apply py_sorted_items_perm. Qed.

Lemma settle_wf b r : reporter_wf r → reporter_wf (settle b r).
Proof.
  intros Hwf. pose proof (settle_sub_held b r Hwf) as Hsub.
  assert (Hh : held (settle b r) = held r) by (unfold settle; by case_match).
  rewrite Hh in Hsub. destruct (sub_held_wf _ _ Hwf Hsub) as [Hv Hsz].
  destruct Hwf. unfold settle in *. case_match; constructor; try done.
  - cbn. case_match; lia.
  - split; [done|apply emit_items_perm].
  - cbn. lia.
Qed.

Lemma next_report_wf b r : reporter_wf r → reporter_wf (next_report b r).2.
Proof.
  intros Hwf. unfold next_report. destruct (need_int _ _ _ _) as [bz|] eqn:Eb; [|done].
  apply need_int_Ok in Eb as [-> Eb]. cbv zeta.
  pose proof (settle_wf bz r Hwf) as Hwf'. set (r' := settle bz r) in *. clearbody r'.
  assert (Ha : reporter_wf (advance_page bz r')).
  { unfold advance_page. destruct Hwf'. case_match; constructor; try done; cbn; lia. }
  destruct (rotate_delta _) as [d r''] eqn:Er. cbn. unfold rotate_delta in Er.
  destruct (history _); injection Er as <- <-; [done|]. destruct Ha. by constructor.
Qed.

(** ** The catalog operations *)
Lemma add_held_spec mb id span h :
  NoDup h.*1 → Forall valid_entry h → valid_entry (id, span) →
  INVENTORY_ENTRY_BYTES ≤ mb → Z.of_nat (length h) * INVENTORY_ENTRY_BYTES ≤ mb →
  NoDup (add_held mb id span h).*1 ∧ Forall valid_entry (add_held mb id span h) ∧
  Z.of_nat (length (add_held mb id span h)) * INVENTORY_ENTRY_BYTES ≤ mb.
Proof.
  intros Hnd Hv Hid Hmb Hlen. unfold add_held.
  pose proof (od_pop_NoDup id h Hnd) as Hnd1.
  assert (Hv1 : Forall valid_entry (od_pop id h)) by by apply od_pop_Forall.
  assert (Hid1 : id ∉ (od_pop id h).*1)
    by (rewrite <-od_get_None, od_get_pop; by case_decide).
  assert (Hl1 : (length (od_pop id h) ≤ length h)%nat)
    by (pose proof (od_pop_length id h Hnd); lia).
  set (h1 := od_pop id h) in *. clearbody h1.
  set (h2 := if mb <? _ then _ else h1).
  assert (NoDup h2.*1 ∧ Forall valid_entry h2 ∧ id ∉ h2.*1 ∧
    Z.of_nat (S (length h2)) * INVENTORY_ENTRY_BYTES ≤ mb) as (? & ? & Hid2 & ?).
  { subst h2. case_match eqn:Ec; bsimp; [|split_and!; try done; lia].
    destruct h1 as [|[k v] h1]; cbn [length fst] in *; [lia|].
    pose proof (od_pop_length k ((k, v) :: h1) Hnd1) as Hl.
    rewrite decide_True in Hl by (by left). cbn [length] in Hl.
    split_and!; [by apply od_pop_NoDup|by apply od_pop_Forall| |nia].
    rewrite od_pop_keys, list_elem_of_filter. by intros [_ ?]. }
  rewrite od_set_fresh by done. split_and!.
  - rewrite fmap_app. apply NoDup_app. split_and!; [done| |apply NoDup_singleton].
    intros x Hx ->%list_elem_of_singleton. done.
  - apply Forall_app. split; [done|]. by constructor.
  - rewrite length_app. cbn. by rewrite Nat.add_1_r.
Qed.

(** Re-adding what is already held changes no key and no span. *)
Lemma add_held_same mb id span h :
  NoDup h.*1 → Z.of_nat (length h) * INVENTORY_ENTRY_BYTES ≤ mb →
  od_get id h = Some span → od_map (add_held mb id span h) = od_map h.
Proof.
  intros Hnd Hlen Hg. unfold add_held. pose proof (od_pop_length id h Hnd) as Hl.
  rewrite decide_True in Hl by (apply od_get_is_Some; eauto).
  assert (mb <? (Z.of_nat (length (od_pop id h)) + 1) * INVENTORY_ENTRY_BYTES = false) as ->
    by (bsimp; nia).
  rewrite od_map_set, od_map_pop, insert_delete_eq. apply insert_id. by rewrite lookup_od_map.
Qed.

Lemma add_wf id span r : reporter_wf r → reporter_wf (add id span r).2.
Proof.
  intros Hwf. unfold add. destruct (validate_entry _) as [[i s]|] eqn:V; [|done]. cbn.
  apply validate_entry_Ok in V as [_ V].
  destruct (add_held_spec (rp_max_bytes r) i s (held r)) as (? & ? & ?);
    [apply Hwf|apply Hwf|done|apply Hwf|apply Hwf|].
  pose proof (Hsame := add_held_same (rp_max_bytes r) i s (held r) (rw_nodup _ Hwf) (rw_capacity _ Hwf)).
  destruct Hwf. constructor; try done. cbn. intros Hd. bsimp. destruct Hd as [Hd Hs].
  rewrite Hsame by done. by apply rw_clean0.
Qed.

Lemma remove_wf id r : reporter_wf r → reporter_wf (remove id r).
Proof.
  intros Hwf. assert (Hl := od_pop_length id (held r) (rw_nodup _ Hwf)).
  pose proof entry_bytes_positive.
  destruct Hwf. constructor; try done; cbn.
  - by apply od_pop_NoDup.
  - by apply od_pop_Forall.
  - nia.
  - intros Hd. bsimp. destruct Hd as [Hd Hn]. rewrite <-not_eq_None_Some in Hn.
    apply dec_stable in Hn. rewrite od_pop_None by by apply od_get_None. by apply rw_clean0.
Qed.

Lemma select_bounded_length mb items sel :
  Z.of_nat (length sel) * INVENTORY_ENTRY_BYTES ≤ mb →
  Z.of_nat (length (select_bounded mb sel items)) * INVENTORY_ENTRY_BYTES ≤ mb.
Proof.
  revert sel; induction items as [|i items IH]; intros sel Hs; cbn; [done|].
  case_match eqn:E; bsimp; [done|]. apply IH. rewrite length_app. cbn. lia.
Qed.

Lemma replace_wf entries r : reporter_wf r → reporter_wf (replace entries r).2.
Proof.
  intros Hwf. unfold replace. destruct (validate_entries _) as [l|] eqn:V; [|done]. cbn.
  apply validate_entries_Ok in V as [Hl Hv]. apply (f_equal length) in Hl.
  rewrite !length_fmap in Hl.
  assert (Hb : Z.of_nat (length l) * INVENTORY_ENTRY_BYTES ≤ rp_max_bytes r).
  { rewrite <-Hl. apply select_bounded_length. cbn. pose proof entry_bytes_positive.
    destruct Hwf. lia. }
  assert (Hle := od_of_list_le (reverse l)). rewrite length_reverse in Hle.
  pose proof entry_bytes_positive.
  destruct Hwf. constructor; try done; cbn.
  - apply od_of_list_NoDup.
  - apply od_of_list_Forall. by apply Forall_reverse.
  - nia.
Qed.

Lemma startup_wf r : reporter_wf r → reporter_wf (startup r).2.
Proof.
  intros Hwf. destruct (sub_held_wf r (od_map (held r)) Hwf) as [? ?]; [done|].
  destruct Hwf. constructor; try done. cbn. split; [done|].
  rewrite py_sorted_items_perm. unfold od_map. by rewrite map_to_list_to_map.
Qed.

Lemma reporter_init_wf rank g ep mb me r : reporter_init rank g ep mb me = Ok r → reporter_wf r.
Proof.
  unfold reporter_init. intros Hi. destruct (as_int rank) as [rk|]; [|done].
  destruct (generation_identity g ep) as [[gi epi]|] eqn:Eg; [|done].
  apply generation_identity_Some in Eg as (_ & _ & ? & ?). inv_ok. bsimp.
  match goal with E : inventory_capacity _ = Ok _ |- _ =>
    apply inventory_capacity_Ok in E as (? & [= <-] & ? & ->) end.
  pose proof entry_bytes_positive.
  constructor; try done; cbn; try lia.
  - constructor.
  - rewrite map_size_empty. lia.
Qed.
End reporter.
