(* ===== verification/RankView.v ===== *)
(** * The view of one rank in the catalog ([QuorumCatalog], quorum.py)

    A method applied to another rank can only shrink this rank's image (the
    memory bound evicts entries from every image); everything else the catalog
    knows of the rank is unchanged.  These frame lemmas let the protocol proof
    reason about one rank at a time. *)
From S2P Require Import Prelude Dict Config Inventory Catalog CatalogInv CatalogSpec.

Record same_rank (r : Z) (c c' : QuorumCatalog) : Prop := {
  sr_generation : generation c' !! r = generation c !! r;
  sr_conflict : r ∈ generation_conflicts c' ↔ r ∈ generation_conflicts c;
  sr_sequence : sequences c' !! r = sequences c !! r;
  sr_pending : pending c' !! r = pending c !! r;
  sr_desync : r ∈ desynchronized c' ↔ r ∈ desynchronized c;
  sr_entries : entries_of c' r `sublist_of` entries_of c r
}.

#[export] Instance same_rank_refl r : Reflexive (same_rank r).
Proof. intros c. by constructor. Qed.
#[export] Instance same_rank_trans r : Transitive (same_rank r).
Proof. intros a b c [] []. constructor; try congruence; try (by etrans); tauto. Qed.

Section view.
Context `{ObjectSizes}.
Implicit Types (c : QuorumCatalog) (r rk : Z).

(** ** Operations on another rank *)
Lemma withdraw_rank_other r rk c : r ≠ rk → same_rank r c (withdraw_rank rk c).
Proof. intros Hne. constructor; try done. by rewrite entries_of_withdraw, decide_False. Qed.

Lemma desync_add_other r rk c : r ≠ rk → same_rank r c (desync_add rk c).
Proof. intros Hne. constructor; try done. cbn. set_solver. Qed.

Lemma set_sequence_other r rk z c : r ≠ rk → same_rank r c (set_sequence rk z c).
Proof. intros Hne. constructor; try done. cbn. by rewrite lookup_insert_ne. Qed.

Lemma set_pending_other r rk p c : r ≠ rk → same_rank r c (set_pending rk p c).
Proof. intros Hne. constructor; try done. cbn. by rewrite lookup_insert_ne. Qed.

Lemma pop_pending_other r rk c : r ≠ rk → same_rank r c (pop_pending rk c).
Proof. intros Hne. constructor; try done. cbn. by rewrite lookup_delete_ne. Qed.

Lemma install_rank_other r rk es c :
  r ≠ rk → catalog_wf c → rk ∈ expected_ranks c → image_ok es →
  same_rank r c (install_rank rk es c).
Proof.
  intros Hne Hwf Hrk Hes.
  destruct (install_rank_shape rk es c Hwf Hrk Hes) as (re & er & rc & qc & -> & Hs & _).
  constructor; try done; cbn; [set_solver|].
  unfold entries_of; cbn. pose proof (shrinks_default _ _ r Hs) as Hsub.
  by rewrite lookup_insert_ne in Hsub.
Qed.

Lemma withdraw_and_desync_other r rk c : r ≠ rk → same_rank r c (withdraw_and_desync rk c).
Proof. intros. etrans; [by apply withdraw_rank_other|by apply desync_add_other]. Qed.

Lemma adopt_generation_other r rk g ep c : r ≠ rk → same_rank r c (adopt_generation rk g ep c).
Proof.
  intros Hne. unfold adopt_generation. case_match.
  constructor; cbn; rewrite ?lookup_insert_ne, ?lookup_delete_ne by done; try done; try set_solver.
  change (entries_of (withdraw_rank rk c) r `sublist_of` entries_of c r).
  by rewrite entries_of_withdraw, decide_False.
Qed.

Lemma mark_conflict_other r rk c : r ≠ rk → same_rank r c (mark_generation_conflict rk c).
Proof.
  intros Hne. constructor; cbn; rewrite ?lookup_delete_ne by done; try done; try set_solver.
  change (entries_of (withdraw_rank rk c) r `sublist_of` entries_of c r).
  by rewrite entries_of_withdraw, decide_False.
Qed.

Lemma handle_delta_other r rk od c :
  r ≠ rk → catalog_wf c → rk ∈ expected_ranks c →
  (∀ d, od = Some d → 0 ≤ d_sequence d ≤ MAX_COUNTER ∧ Forall valid_entry (d_added d)) →
  same_rank r c (handle_delta rk od c).2.
Proof.
  intros Hne Hwf Hrk Hd. unfold handle_delta. destruct od as [d|]; [|done].
  destruct (Hd d eq_refl) as [Hseq Ha]. repeat case_match; try done.
  - assert (image_ok (apply_delta_items d (entries_of c rk))) as Hu
      by (apply delta_items_ok; [apply Hwf|done]).
    rewrite replace_rank_eq by apply Hu. etrans; [by apply (set_sequence_other r rk (d_sequence d))|].
    apply install_rank_other; try done. by apply set_sequence_wf.
  - by apply withdraw_and_desync_other.
Qed.

Lemma complete_checkpoint_other r rk p c :
  r ≠ rk → catalog_wf c → rk ∈ expected_ranks c →
  pending_ok (max_bytes c / INVENTORY_ENTRY_BYTES) p →
  same_rank r c (complete_checkpoint rk p c).2.
Proof.
  intros Hne Hwf Hrk Hp. unfold complete_checkpoint. pose proof (flatten_valid _ _ Hp) as Hv.
  destruct (p_sequence p <? _); cbn; [|destruct (_ || _) eqn:Eb; cbn].
  - by apply pop_pending_other.
  - etrans; [by apply withdraw_and_desync_other|by apply pop_pending_other].
  - assert (Hok : image_ok (od_of_list (flatten_pages p)))
      by (split; [apply od_of_list_NoDup|by apply od_of_list_Forall]).
    unfold se_bind, se_modify. rewrite replace_rank_eq by apply Hok. cbn.
    etrans; [by apply (set_sequence_other r rk (p_sequence p))|].
    etrans; [|by apply pop_pending_other].
    apply install_rank_other; try done. apply set_sequence_wf; [done|apply Hp].
Qed.

Lemma handle_checkpoint_other r mb me rp c :
  r ≠ r_rank rp → catalog_wf c → r_rank rp ∈ expected_ranks c → report_ok mb me rp →
  mb = max_bytes c → same_rank r c (handle_checkpoint (r_rank rp) (r_checkpoint rp) c).2.
Proof.
  intros Hne Hwf Hrk Hr Hmb. unfold handle_checkpoint.
  pose proof (pending_for_ok _ _ _ _ Hwf Hr Hmb) as Hp.
  set (p := pending_for _ _ _) in *. set (rank := r_rank rp) in *. set (ck := r_checkpoint rp) in *.
  assert (Hs0 : same_rank r c (set_pending rank p c)) by by apply set_pending_other.
  assert (Hw : same_rank r c (withdraw_and_desync rank (pop_pending rank (set_pending rank p c)))).
  { etrans; [exact Hs0|]. etrans; [by apply pop_pending_other|by apply withdraw_and_desync_other]. }
  destruct (_ || _) eqn:E1; [done|]. destruct (p_held_count p <? _) eqn:E2; [done|].
  bsimp. destruct E1 as [[[E11 E12] E13] E14].
  assert (Hp' := pending_insert_ok _ p (ck_index ck) (ck_entries ck) Hp).
  ospecialize (Hp' _ _ _); [lia|apply Hr|lia|].
  assert (Hs1 := set_pending_wf rank p c Hwf Hrk Hp).
  case_match; [|cbn; etrans; [exact Hs0|by apply set_pending_other]].
  etrans; [exact Hs0|]. etrans; [|apply complete_checkpoint_other; [done| |done|done]].
  - by apply set_pending_other.
  - by apply set_pending_wf.
Qed.

Lemma handle_gap_other r rk ck c : r ≠ rk → same_rank r c (handle_gap rk ck c).
Proof. intros. unfold handle_gap. repeat case_match; try done. by apply withdraw_and_desync_other. Qed.
Lemma absorb_report_other r rk raw c :
  r ≠ rk → catalog_wf c → live c rk → raw_rank raw = VInt rk →
  same_rank r c (absorb_report rk raw c).2.
Proof.
  intros Hne Hwf Hl Hrk. unfold absorb_report.
  destruct (validate_inventory_report _ _ raw) as [rp|e] eqn:V.
  - apply validate_inventory_report_Ok in V as [-> Hr]. injection Hrk as <-.
    pose proof Hl as [Hin _].
    assert (Hd : ∀ d, r_delta rp = Some d → 0 ≤ d_sequence d ≤ MAX_COUNTER ∧
      Forall valid_entry (d_added d)).
    { intros d Hd. destruct (rok_delta _ _ _ Hr d Hd) as (-> & ? & ? & _). split; [lia|done]. }
    pose proof (handle_delta_other r _ _ c Hne Hwf Hin Hd) as Ho1.
    unfold apply_valid_report, se_bind, se_modify.
    destruct (handle_delta_wf (r_rank rp) (r_delta rp) c) as (c1 & E1 & Hwf1 & Hf1); [done..|].
    rewrite E1 in *. cbn in Ho1.
    destruct (handle_gap_wf (r_rank rp) (r_checkpoint rp) c1) as [Hwf2 Hf2];
      [done|by eapply live_frame|].
    assert (Hf : frame (handle_gap (r_rank rp) (r_checkpoint rp) c1) = frame c) by congruence.
    injection Hf as Hx Hm _ _ _ _ _.
    etrans; [exact Ho1|]. etrans; [by apply (handle_gap_other r (r_rank rp) (r_checkpoint rp))|].
    eapply handle_checkpoint_other; [done|done| |exact Hr|congruence]. congruence.
  - destruct (exn_class e); try done. cbn.
    etrans; [by apply withdraw_rank_other|]. etrans; [by apply (pop_pending_other r rk)|].
    by apply desync_add_other.
Qed.

Lemma install_startup_other r rk entries c :
  r ≠ rk → catalog_wf c → rk ∈ expected_ranks c →
  same_rank r c (install_startup rk entries c).2.
Proof.
  intros Hne Hwf Hrk. unfold install_startup. destruct (inventory_capacity _) as [cap|]; [|done].
  cbv zeta. destruct (validate_entries _) as [l|] eqn:V; [|done].
  apply validate_entries_Ok in V as [_ Hl].
  destruct (max_bytes c <? _); [done|]. destruct (negb _); [done|].
  assert (image_ok (od_of_list l)) as Hok by (split; [apply od_of_list_NoDup|by apply od_of_list_Forall]).
  rewrite replace_rank_eq by apply Hok. by apply install_rank_other.
Qed.

(** The identity a call speaks for. *)
Definition call_speaks (call : catalog_call) : option (pyval * pyval * pyval) :=
  match call with
  | CallStartup rank gen epoch _ => Some (rank, gen, epoch)
  | CallReport raw => Some (raw_rank raw, raw_generation raw, raw_generation_epoch raw)
  | _ => None
  end.

(** A call for another rank (or a query). *)
Lemma run_call_other r c call :
  catalog_wf c → (∀ gen epoch, call_speaks call ≠ Some (VInt r, gen, epoch)) →
  same_rank r c (run_call c call).
Proof.
  intros Hwf Hne. destruct call as [rank gen epoch entries|raw|cands|]; cbn [run_call call_speaks] in *.
  - unfold apply_startup.
    destruct (need_rank c _) as [rk|] eqn:Er; [|done]. apply need_rank_Ok in Er as [-> Hrk].
    assert (r ≠ rk) by (intros ->; by eapply Hne).
    destruct (validate_generation_identity _ _) as [[g ep]|]; [|by apply mark_conflict_other].
    destruct (generation_disposition c rk g ep); try done;
      try (by apply mark_conflict_other);
      (etrans; [by apply (adopt_generation_other r rk g ep)|]; apply install_startup_other;
        [done|by apply adopt_generation_wf|by rewrite adopt_expected]).
  - unfold apply_report.
    destruct (need_rank c _) as [rk|] eqn:Er; [|done]. apply need_rank_Ok in Er as [Hv Hrk].
    rewrite Hv in Hne. assert (r ≠ rk) by (intros ->; by eapply Hne).
    destruct (validate_generation_identity _ _) as [[g ep]|]; [|by apply mark_conflict_other].
    destruct (generation_disposition c rk g ep) eqn:Ed; try done;
      try (by apply mark_conflict_other).
    1,2: etrans; [by apply (adopt_generation_other r rk g ep)|]; apply absorb_report_other;
      [done|by apply adopt_generation_wf|by apply adopt_generation_live|done].
    apply absorb_report_other; try done. by eapply disposition_current.
  - unfold longest. by destruct (first_quorum _ _) as [[]|].
  - unfold quorum_count. by destruct (quorum_count_cache c).
Qed.
End view.
