(* ===== verification/Protocol.v ===== *)
(** * Reporter and catalog together (quorum.py)

    One worker's [InventoryReporter] and the scheduler's [QuorumCatalog] joined
    by a network that may lose, duplicate, delay and reorder the worker's
    messages, while other ranks and other processes of the same rank call the
    catalog with arbitrary arguments.

    The proof keeps a ghost map [E] from every sequence number the reporter has
    used to the image it advertised at that number.  [genuine] messages are
    those that tell the truth about [E]; [synced] says that the catalog's image
    of the rank is contained in the image of the sequence it has reached. *)
From S2P Require Import Prelude Dict Config Inventory Reporter ReporterInv Catalog CatalogInv CatalogSpec RankView.

Lemma od_map_sublist (es es' : list (pystr * Z)) :
  es' `sublist_of` es → NoDup es.*1 → od_map es' ⊆ od_map es.
Proof.
  intros Hs Hnd. apply map_subseteq_spec. intros k s. rewrite !lookup_od_map.
  assert (NoDup es'.*1) by (eapply sublist_NoDup; [exact Hnd|by apply fmap_sublist]).
  rewrite !od_get_elem by done. intros ?. by eapply elem_of_sublist.
Qed.

Lemma od_map_elem (es : list (pystr * Z)) m :
  NoDup es.*1 → od_map es ⊆ m ↔ Forall (λ p, m !! p.1 = Some p.2) es.
Proof.
  intros Hnd. rewrite map_subseteq_spec, Forall_forall. split.
  - intros Hsub [k s] Hin. apply Hsub. rewrite lookup_od_map. by apply od_get_elem.
  - intros Hall k s. rewrite lookup_od_map, od_get_elem by done. intros Hin. by apply (Hall (k, s)).
Qed.

(** The image a delta computes, as a map. *)
Lemma od_map_delta d es :
  NoDup (d_added d).*1 →
  od_map (apply_delta_items d es) = list_to_map (d_added d) ∪ foldr delete (od_map es) (d_removed d).
Proof.
  intros Ha. unfold apply_delta_items.
  assert (Hr : ∀ (ks : list pystr) (es : list (pystr * Z)), od_map (foldl (λ u k, od_pop k u) es ks) = foldr delete (od_map es) ks).
  { induction ks as [|k ks IH]; intros es'; cbn; [done|]. rewrite IH, od_map_pop.
    apply map_eq. intros k'. rewrite lookup_delete, !lookup_foldr_del, lookup_delete.
    repeat case_decide; done. }
  assert (Hs : ∀ l (es : list (pystr * Z)), NoDup l.*1 →
    od_map (foldl (λ u p, od_set p.1 p.2 u) es l) = list_to_map l ∪ od_map es).
  { induction l as [|[k v] l IH]; intros es'; cbn; [intros; by rewrite map_empty_union|].
    intros [Hk Hl]%NoDup_cons. rewrite IH, od_map_set by done.
    rewrite <-insert_union_l, <-insert_union_r; [done|]. by apply not_elem_of_list_to_map_1. }
  by rewrite Hs, Hr.
Qed.

Section protocol.
Context `{ObjectSizes} (rk : Z) (g : pystr) (ep : Z).
Implicit Types (E : gmap Z (gmap pystr Z)) (c : QuorumCatalog).

Definition page_of (img : gmap pystr Z) (es : list (pystr * Z)) : Prop :=
  Forall (λ p, img !! p.1 = Some p.2) es.

Definition delta_true E (d : InventoryDelta) : Prop :=
  ∃ base img, E !! d_base_sequence d = Some base ∧ E !! d_sequence d = Some img ∧
    delta_genuine base img d.

Record genuine E (m : WorkerInventoryReport) : Prop := {
  gn_rank : r_rank m = rk;
  gn_generation : r_generation m = g;
  gn_epoch : r_generation_epoch m = ep;
  gn_page : ∃ img, E !! ck_sequence (r_checkpoint m) = Some img ∧
                   page_of img (ck_entries (r_checkpoint m));
  gn_delta : ∀ d, r_delta m = Some d → delta_true E d
}.

Definition pending_true E (p : PendingCheckpoint) : Prop :=
  ∃ img, E !! p_sequence p = Some img ∧ ∀ i es, p_pages p !! i = Some es → page_of img es.

Record synced E c : Prop := {
  sy_image : ∃ img, E !! sequence_of c rk = Some img ∧ od_map (entries_of c rk) ⊆ img;
  sy_pending : ∀ p, pending c !! rk = Some p → pending_true E p
}.

(** ** One genuine report *)
Lemma synced_withdraw E c : synced E c → synced E (withdraw_and_desync rk c).
Proof.
  intros [(img & Hs & _) Hp]. constructor; [|done]. exists img. split; [done|].
  change (entries_of (withdraw_and_desync rk c) rk) with (entries_of (withdraw_rank rk c) rk).
  rewrite entries_of_withdraw, decide_True by done. apply map_empty_subseteq.
Qed.

Lemma synced_pop E c : synced E c → synced E (pop_pending rk c).
Proof. intros [? Hp]. constructor; [done|]. cbn. intros p. by rewrite lookup_delete_eq. Qed.

Lemma synced_set_pending E c p : synced E c → pending_true E p → synced E (set_pending rk p c).
Proof. intros [? Hp] ?. constructor; [done|]. cbn. intros p'. rewrite lookup_insert_eq. by intros [= <-]. Qed.

Lemma synced_install E c es img :
  catalog_wf c → rk ∈ expected_ranks c → image_ok es →
  (∀ p, pending c !! rk = Some p → pending_true E p) →
  E !! sequence_of c rk = Some img → od_map es ⊆ img → synced E (install_rank rk es c).
Proof.
  intros Hwf Hrk Hes Hp Hs Hsub.
  destruct (install_rank_shape rk es c Hwf Hrk Hes) as (re & er & rc & qc & -> & Hsh & _).
  constructor; [|done]. exists img. split; [done|].
  unfold entries_of; cbn. pose proof (shrinks_default _ _ rk Hsh) as Hsl.
  rewrite lookup_insert_eq in Hsl. etrans; [|exact Hsub]. apply od_map_sublist; [done|apply Hes].
Qed.

Lemma synced_delta E c od :
  catalog_wf c → live c rk → synced E c →
  (∀ d, od = Some d → delta_true E d ∧ 0 ≤ d_sequence d ≤ MAX_COUNTER ∧ Forall valid_entry (d_added d)) →
  synced E (handle_delta rk od c).2.
Proof.
  intros Hwf Hl Hsy Hd. unfold handle_delta. destruct od as [d|]; [|done].
  destruct (Hd d eq_refl) as ((base & img & Hb & Hi & Hg) & Hseq & Ha).
  repeat case_match; try done; [|by apply synced_withdraw].
  match goal with E : _ && _ = true |- _ => apply andb_true_iff in E as [Eb Es] end. bsimp.
  assert (image_ok (apply_delta_items d (entries_of c rk))) as Hu
    by (apply delta_items_ok; [apply Hwf|done]).
  rewrite replace_rank_eq by apply Hu. destruct Hsy as [(img0 & Hs & Hsub) Hp].
  rewrite <-Eb, Hb in Hs. injection Hs as <-.
  apply (synced_install _ _ _ img); try done.
  - by apply set_sequence_wf.
  - apply Hl.
  - unfold sequence_of; cbn. by rewrite lookup_insert_eq.
  - rewrite od_map_delta, (dg_image _ _ _ Hg) by apply Hg.
    apply map_union_mono_l. apply map_subseteq_spec. intros k s. rewrite !lookup_foldr_del.
    destruct (decide (k ∈ d_removed d)); [done|]. intros. by eapply lookup_weaken.
Qed.

Lemma synced_gap E c ck : synced E c → synced E (handle_gap rk ck c).
Proof. intros. unfold handle_gap. repeat case_match; try done. by apply synced_withdraw. Qed.

Lemma flatten_page_of E p :
  pending_true E p → ∃ img, E !! p_sequence p = Some img ∧ page_of img (flatten_pages p).
Proof.
  intros (img & Hi & Hp). exists img. split; [done|]. apply Forall_forall.
  intros x (i & Hx & _)%list_elem_of_bind. destruct (p_pages p !! i) as [es|] eqn:Ee; cbn in Hx.
  - specialize (Hp _ _ Ee). unfold page_of in Hp. rewrite Forall_forall in Hp. by apply Hp.
  - by apply not_elem_of_nil in Hx.
Qed.

Lemma synced_complete E c p :
  catalog_wf c → live c rk → synced E c → pending_true E p →
  pending_ok (max_bytes c / INVENTORY_ENTRY_BYTES) p →
  synced E (complete_checkpoint rk p c).2.
Proof.
  intros Hwf Hl Hsy Hpt Hp. unfold complete_checkpoint. pose proof (flatten_valid _ _ Hp) as Hv.
  destruct (p_sequence p <? _); cbn; [|destruct (_ || _) eqn:Eb; cbn].
  - by apply synced_pop.
  - by apply synced_pop, synced_withdraw.
  - assert (Hok : image_ok (od_of_list (flatten_pages p)))
      by (split; [apply od_of_list_NoDup|by apply od_of_list_Forall]).
    unfold se_bind, se_modify. rewrite replace_rank_eq by apply Hok. cbn.
    destruct (flatten_page_of _ _ Hpt) as (img & Hi & Hf).
    apply synced_pop, (synced_install _ _ _ img); try done.
    + apply set_sequence_wf; [done|apply Hp].
    + apply Hl.
    + apply Hsy.
    + unfold sequence_of; cbn. by rewrite lookup_insert_eq.
    + apply od_map_elem; [apply od_of_list_NoDup|]. by apply od_of_list_Forall.
Qed.

Lemma pending_for_true E c ck img :
  synced E c → E !! ck_sequence ck = Some img →
  pending_true E (pending_for rk ck c) ∧ p_sequence (pending_for rk ck c) = ck_sequence ck.
Proof.
  intros Hsy Hi. unfold pending_for. destruct (pending c !! rk) as [p|] eqn:Ep.
  - case_match eqn:Ec; [bsimp; destruct Ec; split; [by apply Hsy|done]|].
    split; [|done]. by exists img.
  - split; [|done]. by exists img.
Qed.
(** What the catalog has reached after a checkpoint page. *)
Definition reached (s : Z) c : Prop := rk ∈ desynchronized c ∨ s ≤ sequence_of c rk.

Lemma handle_gap_reached ck c : reached (ck_sequence ck) (handle_gap rk ck c).
Proof.
  unfold reached, handle_gap. case_decide; [by left|]. case_match eqn:E; bsimp; [|by right].
  left. cbn. set_solver.
Qed.

Lemma install_sequence es c r :
  catalog_wf c → rk ∈ expected_ranks c → image_ok es →
  sequence_of (install_rank rk es c) r = sequence_of c r.
Proof.
  intros ???. by destruct (install_rank_shape rk es c) as (? & ? & ? & ? & -> & _).
Qed.

Lemma complete_reached s p c :
  catalog_wf c → live c rk → pending_ok (max_bytes c / INVENTORY_ENTRY_BYTES) p →
  p_sequence p = s → reached s c → reached s (complete_checkpoint rk p c).2.
Proof.
  intros Hwf Hl Hp <- Hr. unfold complete_checkpoint. pose proof (flatten_valid _ _ Hp) as Hv.
  destruct (p_sequence p <? _) eqn:Es; cbn; [exact Hr|]. destruct (_ || _) eqn:Eb; cbn.
  - left. cbn. set_solver.
  - assert (Hok : image_ok (od_of_list (flatten_pages p)))
      by (split; [apply od_of_list_NoDup|by apply od_of_list_Forall]).
    unfold se_bind, se_modify. rewrite replace_rank_eq by apply Hok. right. cbn.
    change (p_sequence p ≤ sequence_of
      (install_rank rk (od_of_list (flatten_pages p)) (set_sequence rk (p_sequence p) c)) rk).
    rewrite install_sequence; [|apply set_sequence_wf; [done|apply Hp]|apply Hl|done].
    unfold sequence_of; cbn. by rewrite lookup_insert_eq.
Qed.

Lemma synced_checkpoint E mb me m c :
  catalog_wf c → live c rk → synced E c → report_ok mb me m → mb = max_bytes c → genuine E m →
  reached (ck_sequence (r_checkpoint m)) c →
  synced E (handle_checkpoint rk (r_checkpoint m) c).2 ∧
  reached (ck_sequence (r_checkpoint m)) (handle_checkpoint rk (r_checkpoint m) c).2.
Proof.
  intros Hwf Hl Hsy Hr Hmb Hg Hre. pose proof Hl as [Hrk _].
  destruct (gn_page _ _ Hg) as (img & Hi & Hpg).
  pose proof (pending_for_ok _ _ _ _ Hwf Hr Hmb) as Hp. rewrite (gn_rank _ _ Hg) in Hp.
  unfold handle_checkpoint. set (ck := r_checkpoint m) in *.
  destruct (pending_for_true E c ck img Hsy Hi) as [Hpt Hps].
  set (p := pending_for _ _ _) in *.
  assert (Hs0 : synced E (set_pending rk p c)) by by apply synced_set_pending.
  assert (Hw : synced E (withdraw_and_desync rk (pop_pending rk (set_pending rk p c))) ∧
    reached (ck_sequence ck) (withdraw_and_desync rk (pop_pending rk (set_pending rk p c)))).
  { split; [by apply synced_withdraw, synced_pop|]. left. cbn. set_solver. }
  destruct (_ || _) eqn:E1; [done|]. destruct (p_held_count p <? _) eqn:E2; [done|].
  bsimp. destruct E1 as [[[E11 E12] E13] E14].
  assert (Hp' := pending_insert_ok _ p (ck_index ck) (ck_entries ck) Hp).
  ospecialize (Hp' _ _ _); [lia|apply Hr|lia|].
  assert (Hs1 := set_pending_wf rk p c Hwf Hrk Hp).
  set (p' := Pending _ _ _ _ _ _) in *.
  assert (Hpt' : pending_true E p').
  { exists img. split; [cbn; congruence|]. cbn. intros i es. rewrite lookup_insert.
    case_decide; [by intros [= <-]|]. destruct Hpt as (img' & Hi' & Hall). rewrite Hps, Hi in Hi'.
    injection Hi' as <-. by apply Hall. }
  assert (Hs2 : synced E (set_pending rk p' (set_pending rk p c))) by by apply synced_set_pending.
  case_match; [|split; [done|exact Hre]].
  assert (catalog_wf (set_pending rk p' (set_pending rk p c))) by by apply set_pending_wf.
  split; [by apply synced_complete|by apply complete_reached].
Qed.

(** A genuine report applied to its own generation. *)
Lemma synced_report E m c :
  catalog_wf c → live c rk → synced E c → genuine E m →
  synced E (absorb_report rk (raw_of_report m) c).2 ∧
  reached (ck_sequence (r_checkpoint m)) (absorb_report rk (raw_of_report m) c).2.
Proof.
  intros Hwf Hl Hsy Hg. unfold absorb_report.
  destruct (validate_inventory_report _ _ _) as [m'|e] eqn:V.
  - apply validate_inventory_report_Ok in V as [<-%raw_of_report_inj Hr].
    assert (Hd : ∀ d, r_delta m = Some d → delta_true E d ∧ 0 ≤ d_sequence d ≤ MAX_COUNTER ∧
      Forall valid_entry (d_added d)).
    { intros d Hd. split; [by eapply gn_delta|].
      destruct (rok_delta _ _ _ Hr d Hd) as (-> & ? & ? & _). split; [lia|done]. }
    pose proof (synced_delta E c (r_delta m) Hwf Hl Hsy Hd) as Hs1.
    unfold apply_valid_report, se_bind, se_modify. rewrite (gn_rank _ _ Hg).
    destruct (handle_delta_wf rk (r_delta m) c) as (c1 & E1 & Hwf1 & Hf1); [done|done|by apply Hd|].
    rewrite E1 in *. cbn in Hs1.
    destruct (handle_gap_wf rk (r_checkpoint m) c1) as [Hwf2 Hf2]; [done|by eapply live_frame|].
    assert (Hf : frame (handle_gap rk (r_checkpoint m) c1) = frame c) by congruence.
    eapply synced_checkpoint; [done|by eapply live_frame|by apply synced_gap|exact Hr| |done|
      apply handle_gap_reached].
    by injection Hf.
  - pose proof (validate_inventory_report_Raise _ _ _ _ (cw_max_bytes _ Hwf) (cw_max_report _ Hwf) V)
      as He. rewrite He. split; [|left; cbn; set_solver].
    apply (synced_withdraw E (pop_pending rk c)). by apply synced_pop.
Qed.
(** ** The truth about [E] survives its extension *)
Lemma delta_true_mono E E' d : E ⊆ E' → delta_true E d → delta_true E' d.
Proof. intros Hs (b & i & Hb & Hi & ?). exists b, i. split_and!; [by eapply lookup_weaken..|done]. Qed.

Lemma genuine_mono E E' m : E ⊆ E' → genuine E m → genuine E' m.
Proof.
  intros Hs [? ? ? (img & Hi & ?) Hd]. constructor; try done.
  - exists img. split; [by eapply lookup_weaken|done].
  - intros d ?. by eapply delta_true_mono, Hd.
Qed.

Lemma synced_mono E E' c : E ⊆ E' → synced E c → synced E' c.
Proof.
  intros Hs [(img & Hi & ?) Hp]. constructor.
  - exists img. split; [by eapply lookup_weaken|done].
  - intros p Hp'. destruct (Hp p Hp') as (i & ? & ?). exists i. split; [by eapply lookup_weaken|done].
Qed.

(** ** The reporter's side *)
Record reporter_inv E (r : InventoryReporter) : Prop := {
  ri_wf : reporter_wf r;
  ri_rank : rp_rank r = rk;
  ri_generation : rp_generation r = g;
  ri_epoch : rp_generation_epoch r = ep;
  ri_now : E !! sequence r = Some (observed r);
  ri_past : ∀ s, is_Some (E !! s) → 0 ≤ s ≤ sequence r;
  ri_zero : is_Some (E !! 0);
  ri_history : Forall (delta_true E) (history r)
}.

Lemma deque_append_Forall {A} (P : A → Prop) n l x : Forall P l → P x → Forall P (deque_append n l x).
Proof. intros ??. apply Forall_drop, Forall_app. split; [done|by constructor]. Qed.

Lemma emit_inv E b r :
  reporter_inv E r → reporter_wf (set_dirty (negb (Z.of_nat (length (held r)) =? Z.of_nat (size
    (observed (emit_mutation b r))))) (emit_mutation b r)) →
  ∃ E', E ⊆ E' ∧ reporter_inv E' (set_dirty (negb (Z.of_nat (length (held r)) =? Z.of_nat (size
    (observed (emit_mutation b r))))) (emit_mutation b r)).
Proof.
  intros [Hwf Hrk Hg Hep Hnow Hpast Hz Hh] Hwf'.
  assert (Hnone : ∀ s, sequence r < s → E !! s = None).
  { intros s Hs. apply eq_None_not_Some. intros Hsome%Hpast. lia. }
  remember (observed (emit_mutation b r)) as o eqn:Ho. cbn in Ho.
  destruct (Z.of_nat (length (removed_keys r)) <=? b) eqn:Eb.
  - exists (<[sequence r + 1 := o]> E).
    assert (Hsub : E ⊆ <[sequence r + 1 := o]> E) by (apply insert_subseteq, Hnone; lia).
    split; [done|]. constructor; try done; cbn; rewrite ?Eb.
    + by rewrite lookup_insert_eq, Ho.
    + intros s. rewrite lookup_insert. case_decide; [destruct Hwf; lia|].
      intros [? ?]%Hpast. lia.
    + eapply lookup_weaken_is_Some; [exact Hz|exact Hsub].
    + apply deque_append_Forall; [eapply Forall_impl; [done|]; intros; by eapply delta_true_mono|].
      exists (observed r), o. cbn. split_and!; [|by rewrite lookup_insert_eq|].
      * replace (sequence r + 1 - 1) with (sequence r) by lia. by eapply lookup_weaken.
      * constructor; [done|].
        apply take_NoDup_fst, unadvertised_NoDup, Hwf.
  - set (E1 := <[sequence r + 1 := o]> E).
    assert (Hsub1 : E ⊆ E1) by (apply insert_subseteq, Hnone; lia).
    assert (Hsub2 : E1 ⊆ <[sequence r + 2 := o]> E1).
    { apply insert_subseteq. subst E1. rewrite lookup_insert_ne by lia. apply Hnone. lia. }
    exists (<[sequence r + 2 := o]> E1). split; [by etrans|].
    constructor; try done; cbn; rewrite ?Eb.
    + by rewrite lookup_insert_eq, Ho.
    + intros s. subst E1. rewrite !lookup_insert. repeat case_decide; try (destruct Hwf; lia).
      intros [? ?]%Hpast. lia.
    + eapply lookup_weaken_is_Some; [exact Hz|]. by etrans.
    + apply deque_append_Forall; [constructor|].
      exists o, o. cbn. split_and!; [|by rewrite lookup_insert_eq|].
      * rewrite lookup_insert_ne by lia. subst E1.
        replace (sequence r + 2 - 1) with (sequence r + 1) by lia. by rewrite lookup_insert_eq.
      * constructor; cbn; [|constructor]. by rewrite map_empty_union.
Qed.

Lemma settle_inv E b r :
  reporter_inv E r → ∃ E', E ⊆ E' ∧ reporter_inv E' (settle b r).
Proof.
  intros Hr. pose proof (settle_wf b r (ri_wf _ _ Hr)) as Hwf. revert Hwf. unfold settle.
  case_match; [exact (emit_inv E b r Hr)|]. intros Hwf. exists E. split; [done|].
  destruct Hr. by constructor.
Qed.

Lemma page_elem b r p :
  p ∈ ck_entries (checkpoint_page b r) → p ∈ checkpoint_items r.
Proof.
  cbn. intros Hin. eapply elem_of_sublist; [exact Hin|].
  etrans; [apply sublist_take|apply sublist_drop].
Qed.

(** The report of [next_report] tells the truth, and the state it leaves
    advertises only what the worker holds. *)
Lemma next_report_inv E b r m r' :
  reporter_inv E r → next_report b r = (Ok m, r') →
  ∃ E', E ⊆ E' ∧ reporter_inv E' r' ∧ genuine E' m ∧
    ck_sequence (r_checkpoint m) = sequence r' ∧ observed r' ⊆ od_map (held r').
Proof.
  intros Hr Hn. pose proof (next_report_wf b r (ri_wf _ _ Hr)) as Hwf'. rewrite Hn in Hwf'.
  unfold next_report in Hn. destruct (need_int _ _ _ _) as [bz|]; [|done]. cbv zeta in Hn.
  pose proof (settle_sub_held bz r (ri_wf _ _ Hr)) as Hsub.
  destruct (settle_inv E bz r Hr) as (E' & HE & Hs). set (s := settle bz r) in *. clearbody s.
  destruct Hs as [Hwf ? ? ? ? ? ? Hh]. exists E'. split; [done|].
  pose proof (rw_checkpoint _ Hwf) as [Hcs Hci].
  assert (Hpage : page_of (observed s) (ck_entries (checkpoint_page bz s))).
  { apply Forall_forall. intros [k v] Hin%page_elem. rewrite Hci in Hin.
    by apply elem_of_map_to_list in Hin. }
  set (s' := advance_page bz s) in *.
  assert (Hs' : rp_rank s' = rk ∧ rp_generation s' = g ∧ rp_generation_epoch s' = ep ∧
    sequence s' = sequence s ∧ observed s' = observed s ∧ held s' = held s ∧ history s' = history s)
    by (subst s'; unfold advance_page; destruct (ck_count _ <=? _); split_and!; done).
  destruct Hs' as (? & ? & ? & Hseq & Hobs & Hheld & Hhist). clearbody s'.
  unfold rotate_delta in Hn. rewrite Hhist in Hn.
  destruct (history s) as [|d0 h] eqn:Ehist; injection Hn as <- <-; cbn.
  - split_and!; [|constructor; cbn; try done; exists (observed s); split; [congruence|done]
                 |congruence|by rewrite Hobs, Hheld].
    constructor; try done; try congruence.
    intros z Hz. rewrite Hseq. auto.
  - split_and!; [|constructor; cbn; try done|cbn; congruence|by cbn; rewrite Hobs, Hheld].
    + constructor; cbn; try done; try congruence.
      intros z Hz. rewrite Hseq. auto.
    + exists (observed s). split; [congruence|done].
    + intros d Hd%list_elem_of_lookup_2. rewrite Forall_forall in Hh. by apply Hh.
Qed.

(** ** Calls on the catalog *)

(** While the catalog follows our process, its image of the rank is true. *)
Definition ours c : Prop := generation c !! rk = Some (g, ep).
Definition catalog_inv E c : Prop :=
  catalog_wf c ∧ rk ∈ expected_ranks c ∧ (ours c → synced E c).

Definition foreign (call : catalog_call) : Prop :=
  call_speaks call ≠ Some (VInt rk, VStr g, VInt ep).

Lemma synced_conflict E c : synced E c → synced E (mark_generation_conflict rk c).
Proof.
  intros Hsy. pose proof (synced_pop E _ (synced_withdraw E c Hsy)) as [Hi Hp]. by constructor.
Qed.

Lemma synced_same_rank E c c' :
  catalog_wf c → same_rank rk c c' → synced E c → synced E c'.
Proof.
  intros Hwf [_ _ Hs Hp _ He] [(img & Hi & Hsub) Hpend]. constructor.
  - exists img. unfold sequence_of in *. rewrite Hs. split; [done|]. etrans; [|exact Hsub].
    apply od_map_sublist; [done|apply Hwf].
  - by rewrite Hp.
Qed.

Lemma view_other c c' id e :
  generation_view c' = (<[rk := (id, e)]> (generation c), generation_conflicts c ∖ {[rk]}) →
  (id, e) ≠ (g, ep) → ¬ ours c'.
Proof. unfold ours. intros [= Hg _]. rewrite Hg, lookup_insert_eq. congruence. Qed.

Lemma same_rank_inv E c c' :
  catalog_wf c → same_rank rk c c' → (ours c → synced E c) → ours c' → synced E c'.
Proof.
  intros Hwf Hs Hsy Ho. eapply synced_same_rank; [done|exact Hs|]. apply Hsy. red.
  by rewrite <-(sr_generation _ _ _ Hs).
Qed.

Lemma speaks_rank call :
  (∀ gen epoch, call_speaks call ≠ Some (VInt rk, gen, epoch)) ∨
  ∃ gen epoch, call_speaks call = Some (VInt rk, gen, epoch).
Proof.
  destruct (call_speaks call) as [[[rank gen] epoch]|]; [|by left].
  destruct (as_int rank) as [rk'|] eqn:Er.
  - apply as_int_Some in Er as ->. destruct (decide (rk' = rk)) as [->|]; [right; eauto|].
    left. by intros ?? [= ? _ _].
  - left. by intros ?? [= -> _ _].
Qed.

(** Another process of the rank: the catalog stops following ours, ignores the
    call, or marks the conflict. *)
Lemma foreign_startup_cases c gen epoch entries :
  catalog_wf c → rk ∈ expected_ranks c → (gen, epoch) ≠ (VStr g, VInt ep) →
  let c' := (apply_startup (VInt rk) gen epoch entries c).2 in
  ours c' → c' = c ∨ c' = mark_generation_conflict rk c.
Proof.
  intros Hwf Hrk Hne. unfold apply_startup, validate_generation_identity.
  rewrite (proj2 (need_rank_Ok c (VInt rk) rk) (conj eq_refl Hrk)).
  destruct (generation_identity gen epoch) as [[g' ep']|] eqn:Eg; [|by right].
  apply generation_identity_Some in Eg as (-> & -> & _ & _). cbn [fst snd] in *.
  assert (Hid : (g', ep') ≠ (g, ep)) by congruence.
  destruct (generation_disposition c rk g' ep'); try (by left); try (by right).
  all: intros Ho; exfalso; eapply view_other; [|exact Hid|exact Ho];
    rewrite install_startup_view; [apply adopt_view|by apply adopt_generation_wf|by rewrite adopt_expected].
Qed.

Lemma foreign_report_cases c raw :
  catalog_wf c → rk ∈ expected_ranks c → raw_rank raw = VInt rk →
  (raw_generation raw, raw_generation_epoch raw) ≠ (VStr g, VInt ep) →
  let c' := (apply_report raw c).2 in
  ours c' → c' = c ∨ c' = mark_generation_conflict rk c.
Proof.
  intros Hwf Hrk Hr Hne. unfold apply_report, validate_generation_identity.
  rewrite (proj2 (need_rank_Ok c (raw_rank raw) rk) (conj Hr Hrk)).
  destruct (generation_identity (raw_generation raw) (raw_generation_epoch raw)) as [[g' ep']|] eqn:Eg;
    [|by right].
  apply generation_identity_Some in Eg as (Hg & He & _ & _). rewrite Hg, He in Hne.
  cbn [fst snd] in *. assert (Hid : (g', ep') ≠ (g, ep)) by congruence.
  destruct (generation_disposition c rk g' ep') eqn:Ed; try (by left); try (by right).
  1,2: intros Ho; exfalso; eapply view_other; [|exact Hid|exact Ho];
    rewrite absorb_report_view; [apply adopt_view|by apply adopt_generation_wf|
      by apply adopt_generation_live|done].
  intros Ho. exfalso. unfold ours in Ho.
  pose proof (absorb_report_view rk raw c Hwf (disposition_current _ _ _ _ Hrk Ed) Hr) as [= Hv _].
  rewrite Hv in Ho. unfold generation_disposition in Ed. rewrite Ho in Ed.
  destruct (ep' <? ep) eqn:E1; [by case_decide|]. destruct (ep <? ep') eqn:E2; [done|].
  case_decide as Hd; [done|]. bsimp. apply Hid. f_equal; [|lia].
  destruct (decide (g' = g)); [done|]. destruct Hd. by left.
Qed.

Lemma foreign_cases c call :
  catalog_wf c → rk ∈ expected_ranks c → foreign call → ours (run_call c call) →
  same_rank rk c (run_call c call) ∨ run_call c call = mark_generation_conflict rk c.
Proof.
  intros Hwf Hrk Hf Ho. destruct (speaks_rank call) as [Hn|(gen & epoch & Hs)].
  { left. by apply run_call_other. }
  unfold foreign in Hf. rewrite Hs in Hf.
  assert (run_call c call = c ∨ run_call c call = mark_generation_conflict rk c) as [->|]; [|by left|by right].
  destruct call as [rank gen' epoch' entries|raw| |]; cbn in Hs; try done; injection Hs as Hr Hg He.
  - subst. apply foreign_startup_cases; try done. congruence.
  - apply foreign_report_cases; try done. congruence.
Qed.

Lemma foreign_call_inv E c call :
  catalog_inv E c → foreign call → catalog_inv E (run_call c call).
Proof.
  intros (Hwf & Hrk & Hsy) Hf.
  split_and!; [by apply run_call_wf|by rewrite run_call_expected by done|]. intros Ho.
  destruct (foreign_cases c call Hwf Hrk Hf Ho) as [Hs|Hc].
  - by apply same_rank_inv with c.
  - rewrite Hc in *. by apply synced_conflict, Hsy.
Qed.

Lemma foreign_call_reached s c call :
  catalog_wf c → rk ∈ expected_ranks c → foreign call → (ours c → reached s c) →
  ours (run_call c call) → reached s (run_call c call).
Proof.
  intros Hwf Hrk Hf Hre Ho. destruct (foreign_cases c call Hwf Hrk Hf Ho) as [Hs|Hc].
  - unfold reached, sequence_of. rewrite (sr_desync _ _ _ Hs), (sr_sequence _ _ _ Hs).
    apply Hre. red. by rewrite <-(sr_generation _ _ _ Hs).
  - left. rewrite Hc. cbn. set_solver.
Qed.

(** A foreign call never makes the catalog follow our process. *)
Lemma foreign_not_ours c call :
  catalog_wf c → rk ∈ expected_ranks c → foreign call → ¬ ours c → ¬ ours (run_call c call).
Proof.
  intros Hwf Hrk Hf Hn Ho.
  destruct (foreign_call_inv ∅ c call) as (_ & _ & Hsy); [by split_and!|done|].
  destruct (Hsy Ho) as [(img & Hi & _) _]. by rewrite lookup_empty in Hi.
Qed.

(** ** The worker's own messages *)
Lemma adopt_synced E c : is_Some (E !! 0) → synced E (adopt_generation rk g ep c).
Proof.
  intros [img Hz]. unfold adopt_generation. case_match.
  constructor; cbn; [|intros p; by rewrite lookup_delete_eq].
  exists img. unfold sequence_of, entries_of; cbn. rewrite !lookup_insert_eq. cbn.
  split; [done|apply map_empty_subseteq].
Qed.

Lemma own_identity_Some : 0 < Z.of_nat (length g) ≤ MAX_GENERATION_LENGTH → 0 ≤ ep ≤ MAX_COUNTER →
  generation_identity (VStr g) (VInt ep) = Some (g, ep).
Proof. intros. by apply generation_identity_Some. Qed.

Lemma own_report_inv E c m :
  catalog_inv E c → genuine E m → is_Some (E !! 0) →
  generation_identity (VStr g) (VInt ep) = Some (g, ep) →
  catalog_inv E (apply_report (raw_of_report m) c).2 ∧
  (ours (apply_report (raw_of_report m) c).2 →
   reached (ck_sequence (r_checkpoint m)) (apply_report (raw_of_report m) c).2).
Proof.
  intros (Hwf & Hrk & Hsy) Hg Hz Hid.
  pose proof (run_call_wf c (CallReport (raw_of_report m)) Hwf) as Hwf'.
  pose proof (run_call_expected c (CallReport (raw_of_report m)) Hwf) as He. cbn [run_call] in *.
  assert (Hgoal : ours (apply_report (raw_of_report m) c).2 →
    synced E (apply_report (raw_of_report m) c).2 ∧
    reached (ck_sequence (r_checkpoint m)) (apply_report (raw_of_report m) c).2).
  2:{ split; [|intros Ho; by apply Hgoal]. split_and!; [done|by rewrite He|intros Ho; by apply Hgoal]. }
  clear Hwf' He.
  unfold apply_report, validate_generation_identity. cbn [raw_rank raw_generation raw_generation_epoch raw_of_report].
  rewrite (gn_rank _ _ Hg), (gn_generation _ _ Hg), (gn_epoch _ _ Hg), Hid.
  rewrite (proj2 (need_rank_Ok c (VInt rk) rk) (conj eq_refl Hrk)).
  change (RawReport _ _ _ _ _ _) with (raw_of_report m).
  destruct (generation_disposition c rk g ep) eqn:Ed; intros Ho.
  - apply synced_report; [by apply adopt_generation_wf|by apply adopt_generation_live|
      by apply adopt_synced|done].
  - exfalso. unfold ours in Ho; cbn in Ho. unfold generation_disposition in Ed. rewrite Ho in Ed.
    rewrite Z.ltb_irrefl in Ed. case_decide; done.
  - split; [by apply synced_conflict, Hsy|]. left. cbn. set_solver.
  - apply synced_report; [by apply adopt_generation_wf|by apply adopt_generation_live|
      by apply adopt_synced|done].
  - assert (Hl : live c rk) by by eapply disposition_current.
    apply synced_report; [done|done| |done]. apply Hsy. red.
    destruct (absorb_report_wf rk (raw_of_report m) c Hwf Hl) as (c' & E1 & _ & Hf);
      [by cbn; rewrite (gn_rank _ _ Hg)|].
    rewrite E1 in Ho. cbn in Ho. injection Hf as _ _ _ Hf _ _ _. unfold ours in Ho. congruence.
Qed.

Lemma own_startup_inv E c l img :
  catalog_inv E c → NoDup l.*1 → E !! 0 = Some img → od_map l ⊆ img →
  generation_identity (VStr g) (VInt ep) = Some (g, ep) →
  catalog_inv E (apply_startup (VInt rk) (VStr g) (VInt ep) (entry_val <$> l) c).2.
Proof.
  intros (Hwf & Hrk & Hsy) Hnd Hz Hsub Hid.
  pose proof (run_call_wf c (CallStartup (VInt rk) (VStr g) (VInt ep) (entry_val <$> l)) Hwf) as Hwf'.
  pose proof (run_call_expected c (CallStartup (VInt rk) (VStr g) (VInt ep) (entry_val <$> l)) Hwf) as He.
  cbn [run_call] in *. split_and!; [done|by rewrite He|]. clear Hwf' He.
  unfold apply_startup, validate_generation_identity.
  rewrite (proj2 (need_rank_Ok c (VInt rk) rk) (conj eq_refl Hrk)), Hid.
  assert (Ha : synced E (install_startup rk (entry_val <$> l) (adopt_generation rk g ep c)).2).
  { set (c1 := adopt_generation rk g ep c).
    assert (synced E c1) as Hs1 by (apply adopt_synced; eauto).
    unfold install_startup. destruct (inventory_capacity _) as [cap|]; [|done]. cbv zeta.
    destruct (validate_entries _) as [l'|] eqn:V; [|done]. apply validate_entries_Ok in V as [El Hl].
    destruct (max_bytes c1 <? _); [done|]. destruct (negb _); [done|].
    rewrite <-fmap_take in El. apply (inj (fmap entry_val)) in El. subst l'.
    assert (image_ok (od_of_list (take (Z.to_nat (cap + 1)) l))) as Hok
      by (split; [apply od_of_list_NoDup|by apply od_of_list_Forall]).
    rewrite replace_rank_eq by apply Hok.
    apply synced_install with img; [by apply adopt_generation_wf|by subst c1; rewrite adopt_expected|done|
      apply Hs1| |].
    - replace (sequence_of c1 rk) with 0; [done|].
      subst c1. unfold adopt_generation. case_match. unfold sequence_of; cbn.
      by rewrite lookup_insert_eq.
    - rewrite od_of_list_id by by apply take_NoDup_fst.
      etrans; [|exact Hsub]. apply od_map_sublist; [apply sublist_take|done]. }
  destruct (generation_disposition c rk g ep); auto. intros Ho. by apply synced_conflict, Hsy.
Qed.
End protocol.
