(* ===== verification/Freshness.v ===== *)
(** * No ghost entries (quorum.py)

    The system of [Protocol]: a worker that mutates its catalog and emits
    reports at any time, a network that keeps every message it was ever given
    and delivers any of them any number of times, and arbitrary foreign calls.
    The safety theorem: once the newest report of the worker has been applied,
    the scheduler's image of that worker contains nothing that the worker does
    not hold. *)
From S2P Require Import Prelude Dict Config Inventory Reporter ReporterInv Catalog CatalogInv CatalogSpec RankView Protocol.

Record system := System {
  worker : InventoryReporter;
  scheduler : QuorumCatalog;
  sent : list WorkerInventoryReport;
  started : option (list (pystr * Z))
}.

Section system.
Context `{ObjectSizes} (rk : Z) (g : pystr) (ep : Z).

Definition set_worker (w : InventoryReporter) (s : system) : system :=
  System w (scheduler s) (sent s) (started s).
Definition set_scheduler (c : QuorumCatalog) (s : system) : system :=
  System (worker s) c (sent s) (started s).

(** The startup inventory is sent once, before the first report. *)
Inductive system_step : system → system → Prop :=
  | StepReplace s entries : system_step s (set_worker (replace entries (worker s)).2 s)
  | StepAdd s id span : system_step s (set_worker (add id span (worker s)).2 s)
  | StepRemove s id : system_step s (set_worker (remove id (worker s)) s)
  | StepStartup s :
      sent s = [] → started s = None →
      system_step s (System (startup (worker s)).2 (scheduler s) []
                       (Some (startup (worker s)).1))
  | StepReport s b m w' :
      next_report b (worker s) = (Ok m, w') →
      system_step s (System w' (scheduler s) (m :: sent s) (started s))
  | StepDeliver s m :
      m ∈ sent s →
      system_step s (set_scheduler (apply_report (raw_of_report m) (scheduler s)).2 s)
  | StepDeliverStartup s l :
      started s = Some l →
      system_step s (set_scheduler
        (apply_startup (VInt rk) (VStr g) (VInt ep) (entry_val <$> l) (scheduler s)).2 s)
  | StepForeign s call :
      foreign rk g ep call →
      system_step s (set_scheduler (run_call (scheduler s) call) s).

(** A new process: its generation has not been seen by the scheduler. *)
Definition system_init (s : system) : Prop :=
  (∃ mb me, reporter_init (VInt rk) (VStr g) (VInt ep) mb me = Ok (worker s)) ∧
  catalog_state (scheduler s) ∧ rk ∈ expected_ranks (scheduler s) ∧
  generation (scheduler s) !! rk ≠ Some (g, ep) ∧ sent s = [] ∧ started s = None.

Definition system_reachable (s : system) : Prop := ∃ s0, system_init s0 ∧ rtc system_step s0 s.

Record system_inv (s : system) : Prop := {
  si_truth : ∃ E, reporter_inv rk g ep E (worker s) ∧ Forall (genuine rk g ep E) (sent s) ∧
    catalog_inv rk g ep E (scheduler s) ∧
    (∀ l, started s = Some l → NoDup l.*1 ∧ ∃ img, E !! 0 = Some img ∧ od_map l ⊆ img);
  si_quiet : sent s = [] → sequence (worker s) = 0 ∧ history (worker s) = [];
  si_unseen : sent s = [] → started s = None → ¬ ours rk g ep (scheduler s)
}.

Lemma own_identity E w :
  reporter_inv rk g ep E w → generation_identity (VStr g) (VInt ep) = Some (g, ep).
Proof.
  intros Hr. apply own_identity_Some; destruct Hr as [[]]; subst; done.
Qed.

Lemma reporter_inv_held E r h d :
  reporter_inv rk g ep E r → reporter_wf (set_held h d r) → reporter_inv rk g ep E (set_held h d r).
Proof. intros [] ?. by constructor. Qed.

Lemma mutation_held r r' :
  (∃ entries, r' = (replace entries r).2) ∨ (∃ id span, r' = (add id span r).2)
    ∨ (∃ id, r' = remove id r) →
  r' = r ∨ ∃ h d, r' = set_held h d r.
Proof.
  intros [(es & ->)|[(id & span & ->)|(id & ->)]].
  - unfold replace. destruct (validate_entries _); cbn; eauto.
  - unfold add. destruct (validate_entry _) as [[]|]; cbn; eauto.
  - unfold remove. eauto.
Qed.

Lemma mutation_inv s r' :
  ((∃ entries, r' = (replace entries (worker s)).2) ∨ (∃ id span, r' = (add id span (worker s)).2)
    ∨ (∃ id, r' = remove id (worker s))) →
  system_inv s → system_inv (set_worker r' s).
Proof.
  intros Hr' [(E & Hr & ? & ? & ?) Hq Hu].
  assert (Hwf : reporter_wf r').
  { destruct Hr' as [(? & ->)|[(? & ? & ->)|(? & ->)]];
      [apply replace_wf|apply add_wf|apply remove_wf]; apply Hr. }
  destruct (mutation_held _ _ Hr') as [->|(h & d & ->)]; [by destruct s; constructor; eauto|].
  constructor; [|done|done]. exists E. split_and!; try done. by apply reporter_inv_held.
Qed.

Lemma startup_inv s :
  sent s = [] → started s = None → system_inv s →
  system_inv (System (startup (worker s)).2 (scheduler s) [] (Some (startup (worker s)).1)).
Proof.
  intros Hs Hst [(E & Hr & _ & (Hwf & Hrk & _) & _) Hq Hu].
  destruct (Hq Hs) as [Hseq Hh]. specialize (Hu Hs Hst).
  constructor; [|done|done]. exists {[0 := od_map (held (worker s))]}.
  cbn [worker scheduler sent started].
  pose proof (startup_wf _ (ri_wf _ _ _ _ _ Hr)) as Hwf'.
  pose proof (rw_nodup _ (ri_wf _ _ _ _ _ Hr)) as Hnd. destruct Hr.
  assert (Hp : (py_sorted_items (held (worker s))).*1 ≡ₚ (held (worker s)).*1)
    by by rewrite py_sorted_items_perm.
  split_and!; [|done|split_and!; [done|done|by intros ?]|].
  - assert (Hseq' : sequence (startup (worker s)).2 = 0) by exact Hseq.
    assert (Hh' : history (startup (worker s)).2 = []) by exact Hh.
    constructor; [done|done|done|done| | | |by rewrite Hh']; rewrite ?Hseq'.
    + apply lookup_singleton_eq.
    + intros z [? [<- _]%lookup_singleton_Some]. lia.
    + rewrite lookup_singleton_eq. eauto.
  - cbn. intros l [= <-]. split; [by rewrite Hp|].
    exists (od_map (held (worker s))). split; [by rewrite lookup_singleton_eq|].
    unfold od_map. rewrite (list_to_map_proper (py_sorted_items (held (worker s))) (held (worker s)));
      [done|by rewrite Hp|apply py_sorted_items_perm].
Qed.

Lemma report_inv s b m w' :
  next_report b (worker s) = (Ok m, w') → system_inv s →
  system_inv (System w' (scheduler s) (m :: sent s) (started s)).
Proof.
  intros Hn [(E & Hr & Hs & (Hwf & Hrk & Hsy) & Hst) Hq Hu].
  destruct (next_report_inv rk g ep E b _ m w' Hr Hn) as (E' & HE & Hr' & Hm & _).
  constructor; [|done|done]. exists E'. cbn. split_and!; [done| | |].
  - constructor; [done|]. eapply Forall_impl; [exact Hs|]. intros. by eapply genuine_mono.
  - split_and!; [done|done|]. intros Ho. eapply synced_mono; [exact HE|]. by apply Hsy.
  - intros l Hl. destruct (Hst l Hl) as (? & img & ? & ?). split; [done|].
    exists img. split; [by eapply lookup_weaken|done].
Qed.

Lemma system_step_inv s s' : system_step s s' → system_inv s → system_inv s'.
Proof.
  intros Hstep Hi. destruct Hstep as [s es|s id span|s id|s Hs Hst|s b m w' Hn|s m Hm|s l Hl|s call Hf].
  - eapply mutation_inv; eauto.
  - eapply mutation_inv; eauto.
  - eapply mutation_inv; eauto.
  - by apply startup_inv.
  - by eapply report_inv.
  - destruct Hi as [(E & Hr & Hs & Hc & Hst) Hq Hu].
    pose proof Hs as Hall. rewrite Forall_forall in Hall.
    constructor; [|done|]; cbn.
    + exists E. split_and!; try done.
      apply own_report_inv; [done|by apply Hall|apply Hr|by eapply own_identity].
    + intros Hn. rewrite Hn in Hm. by apply not_elem_of_nil in Hm.
  - destruct Hi as [(E & Hr & Hs & Hc & Hst) Hq Hu].
    destruct (Hst l Hl) as (Hnd & img & Hz & Hsub).
    constructor; [|done|]; cbn; [|by intros _; rewrite Hl].
    exists E. split_and!; try done. eapply own_startup_inv; try done. by eapply own_identity.
  - destruct Hi as [(E & Hr & Hs & Hc & Hst) Hq Hu].
    constructor; [|done|]; cbn; [exists E; split_and!; try done; by apply foreign_call_inv|].
    intros Hn1 Hn2. by apply (foreign_not_ours rk g ep (scheduler s)); [apply Hc|apply Hc| |apply Hu].
Qed.
Lemma reporter_init_fields mb me w :
  reporter_init (VInt rk) (VStr g) (VInt ep) mb me = Ok w →
  rp_rank w = rk ∧ rp_generation w = g ∧ rp_generation_epoch w = ep ∧ sequence w = 0 ∧
  observed w = ∅ ∧ history w = [].
Proof.
  unfold reporter_init. intros Hw.
  destruct (generation_identity _ _) as [[g' ep']|] eqn:Eg; [|done].
  apply generation_identity_Some in Eg as ([= ->] & [= ->] & _). cbn in Hw. inv_ok. done.
Qed.

Lemma system_reachable_inv s : system_reachable s → system_inv s.
Proof.
  intros (s0 & ((mb & me & Hw) & Hc & Hrk & Hg & Hs & Hst) & Hsteps).
  assert (H0 : system_inv s0).
  { pose proof (reporter_init_wf _ _ _ _ _ _ Hw) as Hwf.
    destruct (reporter_init_fields _ _ _ Hw) as (? & ? & ? & Hseq & Hobs & Hh).
    constructor; [|done|done].
    exists {[0 := ∅]}. split_and!; [|by rewrite Hs|split_and!|by rewrite Hst].
    - constructor; [done|done|done|done| | | |by rewrite Hh].
      + rewrite Hseq, Hobs. apply lookup_singleton_eq.
      + rewrite Hseq. intros z [? [<- _]%lookup_singleton_Some]. lia.
      + exists ∅. apply lookup_singleton_eq.
    - by apply catalog_state_wf.
    - done.
    - by intros ?. }
  clear -H0 Hsteps. induction Hsteps as [|s s1 s2 Hstep _ IH]; [done|].
  apply IH. by eapply system_step_inv.
Qed.

(** C7: no ghost entries.  In every reachable state, when the worker emits a report
    and the scheduler applies it, then, as long as the scheduler follows this
    worker process and whatever foreign calls and repetitions of that report
    come after it, every entry the scheduler offers for the rank is held by the
    worker with the same span; in particular everything with quorum is. *)
Theorem newest_report_is_fresh s b m w' calls :
  system_reachable s → next_report b (worker s) = (Ok m, w') →
  Forall (λ call, call = CallReport (raw_of_report m) ∨ foreign rk g ep call) calls →
  let c := run_calls (scheduler s) (CallReport (raw_of_report m) :: calls) in
  ours rk g ep c →
  (∀ k span, od_get k (entries_of c rk) = Some span → od_get k (held w') = Some span) ∧
  (∀ k span, has_quorum c k (Some span) = true → od_get k (held w') = Some span).
Proof.
  intros [(E & Hr & Hs & Hc & Hst) _ _]%system_reachable_inv Hn Hcalls c Ho.
  destruct (next_report_inv rk g ep E b _ m w' Hr Hn) as (E' & HE & Hr' & Hm & Hseq & Hsub).
  assert (Hc' : catalog_inv rk g ep E' (scheduler s)).
  { destruct Hc as (? & ? & Hsy). split_and!; try done. intros. eapply synced_mono; eauto. }
  assert (Hid := own_identity _ _ Hr').
  destruct (own_report_inv rk g ep E' (scheduler s) m Hc' Hm (ri_zero _ _ _ _ _ Hr') Hid) as [H1 H2].
  assert (Hall : catalog_inv rk g ep E' c ∧
    (ours rk g ep c → reached rk (ck_sequence (r_checkpoint m)) c)).
  { subst c. cbn [run_calls foldl run_call]. revert H1 H2. clear Ho Hc'.
    generalize ((apply_report (raw_of_report m) (scheduler s)).2).
    induction Hcalls as [|call calls [->|Hf] _ IH]; intros c1 H1 H2; cbn; [done| |].
    - destruct (own_report_inv rk g ep E' c1 m H1 Hm (ri_zero _ _ _ _ _ Hr') Hid). by apply IH.
    - apply IH; [by apply foreign_call_inv|].
      apply foreign_call_reached; [apply H1|apply H1|done|done]. }
  clearbody c. clear H1 H2. destruct Hall as [(Hwf & Hrk & Hsy) Hre].
  specialize (Hsy Ho). specialize (Hre Ho).
  assert (Himg : ∀ k span, od_get k (entries_of c rk) = Some span → od_get k (held w') = Some span).
  { intros k span Hk. destruct Hre as [Hd|Hge].
    { by rewrite (pw_withdrawn _ (cw_protocol _ Hwf) _ Hd) in Hk. }
    destruct (sy_image _ _ _ Hsy) as (img & Hi & Himg).
    assert (sequence_of c rk = sequence w') as Heq.
    { pose proof (ri_past _ _ _ _ _ Hr' (sequence_of c rk)) as Hp. rewrite Hi in Hp.
      ospecialize (Hp _); [eauto|]. lia. }
    rewrite Heq, (ri_now _ _ _ _ _ Hr') in Hi. injection Hi as <-.
    rewrite <-lookup_od_map in Hk |- *. eapply lookup_weaken; [|exact Hsub].
    by eapply lookup_weaken. }
  split; [done|]. intros k span Hq. apply Himg. rewrite has_quorum_iff in Hq by done. by apply Hq.
Qed.
End system.

(** ** A run: a worker adds two entries, reports, loses one and reports again *)
Module FreshnessExamples.
#[local] Existing Instance cpython312.

Definition key0 : pystr := replicate 64 48.
Definition key1 : pystr := replicate 64 97.
Definition name : pystr := lit "worker-1".
Definition bytes8 : pyval := VInt (8 * INVENTORY_ENTRY_BYTES).

Definition get {A} (d : A) (r : result A) : A := match r with Ok a => a | Raise _ => d end.
Definition no_report : WorkerInventoryReport := Report 0 [] 0 (Checkpoint 0 0 0 0 0 []) None.
Definition no_worker : InventoryReporter := Reporter 0 [] 0 0 0 [] ∅ false 0 [] 0 [] 0 0 0.
Definition no_catalog : QuorumCatalog := Catalog ∅ 0 0 ∅ ∅ ∅ ∅ ∅ ∅ ∅ ∅ [] 0 None.

Definition cat0 : QuorumCatalog := get no_catalog (catalog_init [VInt 0; VInt 1] bytes8 (VInt 64)).
Definition w0 : InventoryReporter :=
  get no_worker (reporter_init (VInt 1) (VStr name) (VInt 7) bytes8 (VInt 64)).
Definition w1 : InventoryReporter := (add (VStr key0) (VInt 256) w0).2.
Definition w2 : InventoryReporter := (add (VStr key1) (VInt 512) w1).2.
Definition report1 := next_report (VInt 64) w2.
Definition m1 : WorkerInventoryReport := get no_report report1.1.
Definition cat1 : QuorumCatalog := (apply_report (raw_of_report m1) cat0).2.
Definition w3 : InventoryReporter := remove key0 report1.2.
Definition report2 := next_report (VInt 64) w3.
Definition m2 : WorkerInventoryReport := get no_report report2.1.
Definition s3 : system := System w3 cat1 [m1] None.
Definition cat2 : QuorumCatalog := run_calls cat1 [CallReport (raw_of_report m2)].

(** The image follows: both entries after the first report, one after the second. *)
Example images :
  entries_of cat1 1 = [(key0, 256); (key1, 512)] ∧ entries_of cat2 1 = [(key1, 512)].
Proof. split; by vm_compute. Qed.

Lemma get_ok {A S} (d : A) (p : result A * S) : is_ok p.1 = true → p = (Ok (get d p.1), p.2).
Proof. by destruct p as [[]]. Defined.

Lemma report1_run : next_report (VInt 64) w2 = (Ok m1, report1.2).
Proof. apply (get_ok no_report report1). vm_compute. reflexivity. Defined.
Lemma report2_run : next_report (VInt 64) w3 = (Ok m2, report2.2).
Proof. apply (get_ok no_report report2). vm_compute. reflexivity. Defined.

Lemma s3_reachable : system_reachable 1 name 7 s3.
Proof.
  exists (System w0 cat0 [] None). split.
  - refine (conj _ (conj _ (conj _ (conj _ (conj eq_refl eq_refl))))).
    + exists bytes8, (VInt 64). by vm_compute.
    + exists [VInt 0; VInt 1], bytes8, (VInt 64), cat0, []. split; by vm_compute.
    + apply (bool_decide_eq_true_1 _). by vm_compute.
    + by vm_compute.
  - eapply rtc_l; [exact (StepAdd 1 name 7 (System w0 cat0 [] None) (VStr key0) (VInt 256))|].
    eapply rtc_l; [exact (StepAdd 1 name 7 (System w1 cat0 [] None) (VStr key1) (VInt 512))|].
    eapply rtc_l; [exact (StepReport 1 name 7 (System w2 cat0 [] None) (VInt 64) m1 _ report1_run)|].
    eapply rtc_l; [exact (StepDeliver 1 name 7 (System report1.2 cat0 [m1] None) m1 (list_elem_of_here m1 []))|].
    eapply rtc_l; [exact (StepRemove 1 name 7 (System report1.2 cat1 [m1] None) key0)|].
    apply rtc_refl.
Defined.

Lemma newest_report_is_fresh_witness :
  od_get key1 (entries_of cat2 1) = Some 512 ∧ od_get key1 (held report2.2) = Some 512 ∧
  od_get key0 (entries_of cat2 1) = None.
Proof.
  assert (Hk : od_get key1 (entries_of cat2 1) = Some 512) by (by vm_compute).
  split; [exact Hk|]. split; [|by vm_compute].
  refine (proj1 (newest_report_is_fresh 1 name 7 s3 (VInt 64) m2 report2.2 [] s3_reachable
    report2_run _ _) key1 512 Hk).
  - constructor.
  - by vm_compute.
Defined.
End FreshnessExamples.
