(* ===== verification/Topology.v ===== *)
(** * Worker topology ([src/spoolcache/topology.py])

    [WorkerCoordinate.from_runtime] accepts one worker's runtime ranks;
    [expected_worker_coordinates] lists every worker of the [PP x TP] layout.
    The two are proved to describe the same set, in global-rank order. *)
From S2P Require Import Prelude.

Definition positive_integer (value : pyval) : result Z :=
  need_int value (λ z, z <=? 0) ValueError "degree must be a positive integer".

Definition rank_integer (value : pyval) (degree : Z) : result Z :=
  need_int value (λ z, (z <? 0) || (degree <=? z)) ValueError "rank is outside the runtime topology".

Record WorkerCoordinate := Coordinate {
  global_rank : Z;
  pp_rank : Z;
  tp_rank : Z;
  dcp_rank : Z
}.

#[export] Instance WorkerCoordinate_eq_dec : EqDecision WorkerCoordinate.
Proof. solve_decision. Defined.

Definition from_runtime (global_rank pp_rank tp_rank dcp_rank tp_degree pp_degree dcp_degree : pyval)
    : result WorkerCoordinate :=
  tp_size ← positive_integer tp_degree;
  pp_size ← positive_integer pp_degree;
  dcp_size ← positive_integer dcp_degree;
  _ ← raise_if (negb (tp_size mod dcp_size =? 0)) ValueError
        "decode-context degree must divide tensor parallelism";
  let world_size := tp_size * pp_size in
  resolved_global ← rank_integer global_rank world_size;
  resolved_pp ← rank_integer pp_rank pp_size;
  resolved_tp ← rank_integer tp_rank tp_size;
  resolved_dcp ← rank_integer dcp_rank dcp_size;
  _ ← raise_if (negb (resolved_global =? resolved_pp * tp_size + resolved_tp)) ValueError
        "global rank disagrees with PP/TP coordinates";
  _ ← raise_if (negb (resolved_dcp =? resolved_tp mod dcp_size)) ValueError
        "decode-context rank disagrees with TP subdivision";
  Ok (Coordinate resolved_global resolved_pp resolved_tp resolved_dcp).

(** [for pp_rank in range(pp_size) for tp_rank in range(tp_size)] *)
Definition rank_pairs (tp_size pp_size : Z) : list (Z * Z) :=
  seqZ 0 pp_size ≫= λ pp, (λ tp, (pp, tp)) <$> seqZ 0 tp_size.

Definition expected_worker_coordinates (tp_degree pp_degree dcp_degree : pyval)
    : result (list WorkerCoordinate) :=
  tp_size ← positive_integer tp_degree;
  pp_size ← positive_integer pp_degree;
  dcp_size ← positive_integer dcp_degree;
  _ ← raise_if (negb (tp_size mod dcp_size =? 0)) ValueError
        "decode-context degree must divide tensor parallelism";
  mapM_result (λ '(pp, tp),
    from_runtime (VInt (pp * tp_size + tp)) (VInt pp) (VInt tp) (VInt (tp mod dcp_size))
      (VInt tp_size) (VInt pp_size) (VInt dcp_size)) (rank_pairs tp_size pp_size).

(** ** Lemmas *)
Definition coordinate_of (tp_size dcp_size : Z) (p : Z * Z) : WorkerCoordinate :=
  Coordinate (p.1 * tp_size + p.2) p.1 p.2 (p.2 mod dcp_size).

Lemma from_runtime_Ok g p t d T P D c :
  from_runtime (VInt g) (VInt p) (VInt t) (VInt d) (VInt T) (VInt P) (VInt D) = Ok c ↔
  0 < T ∧ 0 < P ∧ 0 < D ∧ T mod D = 0 ∧ 0 ≤ p < P ∧ 0 ≤ t < T ∧
  g = p * T + t ∧ d = t mod D ∧ c = coordinate_of T D (p, t).
Proof.
  unfold from_runtime, positive_integer, rank_integer. split.
  - intros Hr. inv_ok. simplify_eq. bsimp. subst. cbn.
    split_and!; try done; lia.
  - intros (? & ? & ? & ? & ? & ? & -> & -> & ->).
    assert (0 ≤ t mod D < D) by (apply Z.mod_pos_bound; lia).
    assert (p * T + t < T * P) by nia.
    apply result_bind_Ok. exists T. split; [apply need_int_Ok; split; [done|bsimp; lia]|].
    apply result_bind_Ok. exists P. split; [apply need_int_Ok; split; [done|bsimp; lia]|].
    apply result_bind_Ok. exists D. split; [apply need_int_Ok; split; [done|bsimp; lia]|].
    apply result_bind_Ok. exists tt. split; [apply raise_if_Ok; bsimp; lia|]. cbv zeta.
    apply result_bind_Ok. exists (p * T + t). split; [apply need_int_Ok; split; [done|bsimp; split; nia]|].
    apply result_bind_Ok. exists p. split; [apply need_int_Ok; split; [done|bsimp; lia]|].
    apply result_bind_Ok. exists t. split; [apply need_int_Ok; split; [done|bsimp; lia]|].
    apply result_bind_Ok. exists (t mod D). split; [apply need_int_Ok; split; [done|bsimp; lia]|].
    apply result_bind_Ok. exists tt. split; [apply raise_if_Ok; bsimp; lia|].
    apply result_bind_Ok. exists tt. split; [apply raise_if_Ok; bsimp; lia|]. done.
Qed.

Lemma rank_pairs_elem T P p : p ∈ rank_pairs T P ↔ 0 ≤ p.1 < P ∧ 0 ≤ p.2 < T.
Proof.
  unfold rank_pairs. rewrite list_elem_of_bind. destruct p as [a b]; cbn. split.
  - intros (pp & (tp & [= -> ->] & Ht%elem_of_seqZ)%list_elem_of_fmap & Hp%elem_of_seqZ). lia.
  - intros [? ?]. exists a. rewrite list_elem_of_fmap, elem_of_seqZ. split; [|lia].
    exists b. rewrite elem_of_seqZ. split; [done|lia].
Qed.

Lemma rank_pairs_length T P : 0 ≤ T → 0 ≤ P → Z.of_nat (length (rank_pairs T P)) = P * T.
Proof.
  intros HT HP. unfold rank_pairs.
  assert (Hl : ∀ l : list Z, length (l ≫= λ pp, (λ tp, (pp, tp)) <$> seqZ 0 T) = (length l * Z.to_nat T)%nat).
  { induction l as [|x l IH]; cbn; [done|]. by rewrite length_app, length_fmap, length_seqZ, IH. }
  rewrite Hl, length_seqZ. lia.
Qed.

(** Position [p * T + t] holds the pair [(p, t)]: global-rank order. *)
Lemma rank_pairs_lookup T n m p t :
  0 ≤ t < T → m ≤ p < m + n →
  (seqZ m n ≫= λ pp, (λ tp, (pp, tp)) <$> seqZ 0 T) !! Z.to_nat ((p - m) * T + t) = Some (p, t).
Proof.
  intros Ht Hp. assert (0 ≤ n) as Hn by lia. revert m Hp.
  pattern n. apply natlike_ind; [|clear n Hn|done]; [intros; lia|].
  intros n Hn IH m Hp. rewrite (seqZ_cons m (Z.succ n)), bind_cons by lia.
  destruct (decide (p = m)) as [->|Hne].
  - rewrite lookup_app_l by (rewrite length_fmap, length_seqZ; lia).
    rewrite list_lookup_fmap, (lookup_seqZ_lt 0 T) by lia. cbn. do 2 f_equal. lia.
  - rewrite lookup_app_r by (rewrite length_fmap, length_seqZ; nia).
    rewrite length_fmap, length_seqZ.
    replace (Z.to_nat ((p - m) * T + t) - Z.to_nat T)%nat with (Z.to_nat ((p - Z.succ m) * T + t)) by nia.
    replace (Z.pred (Z.succ n)) with n by lia. apply IH. lia.
Qed.

Lemma mapM_result_all {A B} (f : A → result B) (h : A → B) l :
  (∀ x, x ∈ l → f x = Ok (h x)) → mapM_result f l = Ok (h <$> l).
Proof.
  induction l as [|x l IH]; intros Hf; cbn; [done|].
  rewrite (Hf x) by by left. cbn. rewrite IH; [done|]. intros y Hy. apply Hf. by right.
Qed.

Lemma expected_worker_coordinates_Ok T P D :
  0 < T → 0 < P → 0 < D → T mod D = 0 →
  expected_worker_coordinates (VInt T) (VInt P) (VInt D)
  = Ok (coordinate_of T D <$> rank_pairs T P).
Proof.
  intros HT HP HD Hdiv. unfold expected_worker_coordinates, positive_integer, need_int; cbn.
  assert (T <=? 0 = false) as -> by (bsimp; lia). assert (P <=? 0 = false) as -> by (bsimp; lia).
  assert (D <=? 0 = false) as -> by (bsimp; lia). cbn. rewrite Hdiv. cbn.
  apply mapM_result_all. intros [p t] Hin%rank_pairs_elem. cbn in Hin.
  apply from_runtime_Ok. split_and!; try done; lia.
Qed.

(** for valid degrees the expected workers are listed without a gap in global
    rank order, [tp_degree * pp_degree] of them, and a worker's runtime ranks are
    accepted exactly when they are the ones listed at its global rank. *)
Theorem expected_coordinates_complete T P D :
  0 < T → 0 < P → 0 < D → T mod D = 0 →
  ∃ l, expected_worker_coordinates (VInt T) (VInt P) (VInt D) = Ok l ∧
    Z.of_nat (length l) = T * P ∧
    (∀ i c, l !! i = Some c → global_rank c = Z.of_nat i) ∧
    (∀ g p t d c, 0 ≤ g →
       from_runtime (VInt g) (VInt p) (VInt t) (VInt d) (VInt T) (VInt P) (VInt D) = Ok c ↔
       l !! Z.to_nat g = Some c ∧ c = Coordinate g p t d).
Proof.
  intros HT HP HD Hdiv. exists (coordinate_of T D <$> rank_pairs T P).
  assert (Hat : ∀ p t, 0 ≤ p < P → 0 ≤ t < T →
    (coordinate_of T D <$> rank_pairs T P) !! Z.to_nat (p * T + t) = Some (coordinate_of T D (p, t))).
  { intros p t Hp Ht. rewrite list_lookup_fmap.
    pose proof (rank_pairs_lookup T P 0 p t Ht ltac:(lia)) as Hl. rewrite Z.sub_0_r in Hl.
    unfold rank_pairs. by rewrite Hl. }
  assert (Hidx : ∀ i c, (coordinate_of T D <$> rank_pairs T P) !! i = Some c →
    ∃ p t, 0 ≤ p < P ∧ 0 ≤ t < T ∧ Z.of_nat i = p * T + t ∧ c = coordinate_of T D (p, t)).
  { intros i c Hi. pose proof (lookup_lt_Some _ _ _ Hi) as Hlt.
    rewrite length_fmap in Hlt. pose proof (rank_pairs_length T P ltac:(lia) ltac:(lia)) as Hlen.
    exists (Z.of_nat i / T), (Z.of_nat i mod T).
    pose proof (Z.div_mod (Z.of_nat i) T ltac:(lia)). pose proof (Z.mod_pos_bound (Z.of_nat i) T HT).
    assert (0 ≤ Z.of_nat i / T < P)
      by (split; [apply Z.div_pos; lia|apply Z.div_lt_upper_bound; lia]).
    pose proof (Hat (Z.of_nat i / T) (Z.of_nat i mod T) ltac:(lia) ltac:(lia)) as Ha.
    replace (Z.to_nat (Z.of_nat i / T * T + Z.of_nat i mod T)) with i in Ha by lia.
    rewrite Hi in Ha. injection Ha as ->. split_and!; try done; lia. }
  split_and!.
  - by apply expected_worker_coordinates_Ok.
  - rewrite length_fmap, rank_pairs_length by lia. lia.
  - intros i c (p & t & _ & _ & Hi & ->)%Hidx. by rewrite Hi.
  - intros g p t d c Hg. rewrite from_runtime_Ok. split.
    + intros (_ & _ & _ & _ & Hp & Ht & -> & -> & ->). split; [by apply Hat|done].
    + intros [(p' & t' & ? & ? & Hi & Hc)%Hidx ->]. unfold coordinate_of in *; cbn in *.
      injection Hc as ? ? ? ?. subst. split_and!; try done; lia.
Qed.

Lemma expected_coordinates_complete_witness :
  ∃ l, expected_worker_coordinates (VInt 4) (VInt 2) (VInt 2) = Ok l ∧ Z.of_nat (length l) = 8.
Proof.
  destruct (expected_coordinates_complete 4 2 2) as (l & Hl & Hn & _); [lia|lia|lia|reflexivity|].
  exists l. split; [exact Hl|exact Hn].
Defined.

(** Global rank 6 of [TP=4, PP=2, DCP=2] is accepted; a permuted TP rank is not. *)
Example from_runtime_accepts :
  from_runtime (VInt 6) (VInt 1) (VInt 2) (VInt 0) (VInt 4) (VInt 2) (VInt 2)
    = Ok (Coordinate 6 1 2 0) ∧
  is_ok (from_runtime (VInt 6) (VInt 0) (VInt 2) (VInt 0) (VInt 4) (VInt 2) (VInt 2)) = false.
Proof. by vm_compute. Qed.
