(* ===== verification/Admission.v ===== *)
(** * Store admission ([src/spoolcache/admission.py])

    The pure policy that deduplicates and bounds the Store plans of one
    scheduler step: longest spans first, input order breaking ties. *)
From S2P Require Import Prelude Dict.

(** The structural interface of a plan ([class StorePlanLike(Protocol)]). *)
Class StorePlanLike (PlanT : Type) := {
  request_id : PlanT → pystr;
  plan_entry_id : PlanT → pystr;
  plan_span_tokens : PlanT → Z
}.

Record StoreAdmissionResult (PlanT : Type) := AdmissionResult {
  admitted : list PlanT;
  skipped_duplicate : Z;
  skipped_budget : Z
}.
Arguments AdmissionResult {PlanT}.
Arguments admitted {PlanT}.
Arguments skipped_duplicate {PlanT}.
Arguments skipped_budget {PlanT}.

Section admission.
Context {PlanT : Type} `{!StorePlanLike PlanT}.

Definition skipped (r : StoreAdmissionResult PlanT) : Z := skipped_duplicate r + skipped_budget r.

Definition malformed_plan (plan : PlanT) : bool :=
  (Z.of_nat (length (request_id plan)) =? 0) || (Z.of_nat (length (plan_entry_id plan)) =? 0)
  || (plan_span_tokens plan <=? 0).

(** The deduplicating loop: [unique] in input order, the spans seen, the count. *)
Fixpoint collect_unique (position : Z) (plans : list PlanT) (unique : list (Z * PlanT))
    (spans_by_entry : gmap pystr Z) (duplicates : Z) : result (list (Z * PlanT) * Z) :=
  match plans with
  | [] => Ok (unique, duplicates)
  | plan :: plans =>
      if malformed_plan plan
      then raise ValueError "store admission received a malformed plan"
      else
        match spans_by_entry !! plan_entry_id plan with
        | Some previous_span =>
            if negb (previous_span =? plan_span_tokens plan)
            then raise ValueError "one store entry ID has conflicting token spans"
            else collect_unique (position + 1) plans unique spans_by_entry (duplicates + 1)
        | None =>
            collect_unique (position + 1) plans (unique ++ [(position, plan)])
              (<[plan_entry_id plan := plan_span_tokens plan]> spans_by_entry) duplicates
        end
  end.

(** [key=lambda item: (-item[1].span_tokens, item[0])] *)
Definition priority_leb (a b : Z * PlanT) : bool :=
  (plan_span_tokens b.2 <? plan_span_tokens a.2)
  || ((plan_span_tokens b.2 =? plan_span_tokens a.2) && (a.1 <=? b.1)).
Definition priority_le (a b : Z * PlanT) : Prop := priority_leb a b = true.
#[global] Instance priority_le_dec : RelDecision priority_le.
Proof. intros a b. unfold priority_le. apply _. Defined.
#[global] Instance priority_le_trans : Transitive priority_le.
Proof. intros [] [] []. unfold priority_le, priority_leb; cbn. intros. bsimp. lia. Qed.
#[global] Instance priority_le_total : Total priority_le.
Proof. intros [] []. unfold priority_le, priority_leb; cbn. bsimp. lia. Qed.

Definition admit_store_plans (plans : list PlanT) (max_plans : pyval)
    : result (StoreAdmissionResult PlanT) :=
  match as_int max_plans with
  | None => raise ValueError "store admission budget must be an integer"
  | Some budget =>
      if budget <? 0 then raise ValueError "store admission budget cannot be negative"
      else
        ud ← collect_unique 0 plans [] ∅ 0;
        let prioritized := merge_sort priority_le ud.1 in
        let admitted := (take (Z.to_nat budget) prioritized).*2 in
        Ok (AdmissionResult admitted ud.2
              (Z.max 0 (Z.of_nat (length prioritized) - Z.of_nat (length admitted))))
  end.

(** ** What the loop keeps: the first plan of every entry *)
Record unique_inv (pos : Z) (u : list (Z * PlanT)) (spans : gmap pystr Z) (dup : Z) : Prop := {
  ui_nodup : NoDup (plan_entry_id <$> u.*2);
  ui_spans : ∀ e s, spans !! e = Some s ↔ ∃ p, p ∈ u.*2 ∧ plan_entry_id p = e ∧ plan_span_tokens p = s;
  ui_sorted : StronglySorted Z.lt u.*1;
  ui_below : Forall (λ i, i < pos) u.*1;
  ui_count : Z.of_nat (length u) + dup = pos
}.

Lemma collect_unique_spec plans pos u spans dup u' dup' :
  unique_inv pos u spans dup →
  collect_unique pos plans u spans dup = Ok (u', dup') →
  ∃ spans', unique_inv (pos + Z.of_nat (length plans)) u' spans' dup' ∧
    u `prefix_of` u' ∧
    (∀ i p, (i, p) ∈ u' → (i, p) ∈ u ∨ plans !! Z.to_nat (i - pos) = Some p ∧ pos ≤ i) ∧
    (∀ p, p ∈ plans → malformed_plan p = false ∧
       spans' !! plan_entry_id p = Some (plan_span_tokens p)).
Proof.
  revert pos u spans dup; induction plans as [|plan plans IH]; intros pos u spans dup Hi; cbn.
  - intros [= <- <-]. exists spans. split_and!; [by rewrite Z.add_0_r|done|by left|].
    by intros p ?%not_elem_of_nil.
  - destruct (malformed_plan plan) eqn:Hm; [done|].
    destruct (spans !! plan_entry_id plan) as [s|] eqn:Hs.
    + destruct (negb _) eqn:Hns; [done|]. bsimp. subst s. intros Hc.
      apply IH in Hc as (spans' & Hi' & Hpre & Hfrom & Hall).
      2:{ destruct Hi. constructor; try done; [|lia]. eapply Forall_impl; [done|]. cbn. lia. }
      assert (Hpin : spans' !! plan_entry_id plan = Some (plan_span_tokens plan)).
      { apply (ui_spans _ _ _ _ Hi') . apply (ui_spans _ _ _ _ Hi) in Hs as (p & Hp & ? & ?).
        exists p. split; [|done]. destruct Hpre as [k ->]. rewrite fmap_app. set_solver. }
      exists spans'. split_and!; [by rewrite Nat2Z.inj_succ, <-Z.add_succ_comm|done| |].
      * intros i p Hin. destruct (Hfrom i p Hin) as [?|[Hl ?]]; [by left|right].
        split; [|lia]. replace (Z.to_nat (i - pos)) with (S (Z.to_nat (i - (pos + 1)))) by lia. done.
      * intros p [->|?]%elem_of_cons; [done|by apply Hall].
    + intros Hc. apply IH in Hc as (spans' & Hi' & Hpre & Hfrom & Hall).
      2:{ destruct Hi. constructor.
          - rewrite !fmap_app. cbn. apply NoDup_app. split_and!; [done| |apply NoDup_singleton].
            intros e He ->%list_elem_of_singleton. apply list_elem_of_fmap in He as (p & He & Hp).
            assert (spans !! plan_entry_id plan = Some (plan_span_tokens p)) by (apply ui_spans0; eauto).
            congruence.
          - intros e s. rewrite lookup_insert, fmap_app. case_decide as He; subst.
            + split.
              * intros [= <-]. exists plan. split; [set_solver|done].
              * intros (p & [Hp|Hp]%elem_of_app & Hpe & <-).
                { assert (spans !! plan_entry_id plan = Some (plan_span_tokens p)) by (apply ui_spans0; eauto).
                  congruence. }
                cbn in Hp. apply list_elem_of_singleton in Hp as ->. done.
            + rewrite ui_spans0. split.
              * intros (p & ? & ?). exists p. split; [set_solver|done].
              * intros (p & [Hp|Hp]%elem_of_app & Hpe & Hps); [eauto|].
                cbn in Hp. apply list_elem_of_singleton in Hp as ->. done.
          - rewrite fmap_app. cbn. apply StronglySorted_app. split_and!; [|done|by repeat constructor].
            intros x y Hx ->%list_elem_of_singleton. rewrite Forall_forall in ui_below0. by apply ui_below0.
          - rewrite fmap_app. cbn. apply Forall_app. split; [|by repeat constructor; lia].
            eapply Forall_impl; [done|]. cbn. lia.
          - rewrite length_app. cbn. lia. }
      exists spans'. split_and!; [by rewrite Nat2Z.inj_succ, <-Z.add_succ_comm| | |].
      * etrans; [by apply prefix_app_r|done].
      * intros i p Hin. destruct (Hfrom i p Hin) as [Hu|[Hl ?]].
        { apply elem_of_app in Hu as [?|Hu]; [by left|]. apply list_elem_of_singleton in Hu.
          injection Hu as -> ->. right. by rewrite Z.sub_diag. }
        right. split; [|lia].
        replace (Z.to_nat (i - pos)) with (S (Z.to_nat (i - (pos + 1)))) by lia. done.
      * intros p [->|?]%elem_of_cons; [|by apply Hall]. split; [done|].
        apply (ui_spans _ _ _ _ Hi'). exists plan. split; [|done]. destruct Hpre as [k ->].
        rewrite !fmap_app. set_solver.
Qed.

Lemma unique_inv_nil : unique_inv 0 [] ∅ 0.
Proof.
  constructor; cbn; [apply NoDup_nil_2| |apply SSorted_nil|apply Forall_nil_2|lia].
  intros e s. rewrite lookup_empty. split; [done|]. by intros (p & ?%not_elem_of_nil & _).
Qed.

(** The loop fails only on a malformed plan or a conflicting span. *)
Lemma collect_unique_total (plans : list PlanT) (pos : Z) (u : list (Z * PlanT)) (spans : gmap pystr Z) (dup : Z) :
  Forall (λ p, malformed_plan p = false) plans →
  (∀ p s, p ∈ plans → spans !! plan_entry_id p = Some s → plan_span_tokens p = s) →
  (∀ p q, p ∈ plans → q ∈ plans → plan_entry_id p = plan_entry_id q →
     plan_span_tokens p = plan_span_tokens q) →
  ∃ ud, collect_unique pos plans u spans dup = Ok ud.
Proof.
  intros Hm. revert pos u spans dup; induction Hm as [|plan plans Hp Hm IH];
    intros pos u spans dup Hs Hc; cbn; [eauto|].
  rewrite Hp. destruct (spans !! plan_entry_id plan) as [s|] eqn:E.
  - assert (Heq : plan_span_tokens plan = s) by (apply Hs; [by left|done]).
    rewrite Heq, Z.eqb_refl. cbn. apply IH; [|intros p q ??; by apply Hc; right].
    intros p z ?. by apply Hs; right.
  - apply IH; [|intros p q ??; by apply Hc; right].
    intros p z Hin. rewrite lookup_insert. case_decide as He.
    + intros [= <-]. symmetry. apply Hc; [by left|by right|done].
    + by apply Hs; right.
Qed.

(** Admission succeeds exactly for a non-negative budget and well-formed plans
    in which one entry ID always carries one span. *)
Theorem admit_store_plans_total plans budget :
  (∃ r, admit_store_plans plans (VInt budget) = Ok r) ↔
  0 ≤ budget ∧ Forall (λ p, malformed_plan p = false) plans ∧
  ∀ p q, p ∈ plans → q ∈ plans → plan_entry_id p = plan_entry_id q →
    plan_span_tokens p = plan_span_tokens q.
Proof.
  unfold admit_store_plans; cbn. split.
  - intros [r Hr]. case_match eqn:Hb; [done|]. bsimp. inv_ok.
    match goal with E : collect_unique _ _ _ _ _ = Ok ?x |- _ => destruct x as [u d]; rename E into Hc end.
    destruct (collect_unique_spec _ _ _ _ _ _ _ unique_inv_nil Hc) as (spans & _ & _ & _ & Hall).
    split_and!; [done|apply Forall_forall; intros p Hp; by apply Hall|].
    intros p q [_ Hp]%Hall [_ Hq]%Hall He. rewrite He in Hp. congruence.
  - intros (Hb & Hm & Hc). assert (budget <? 0 = false) as -> by (bsimp; lia).
    destruct (collect_unique_total plans 0 [] ∅ 0) as [ud ->]; [done| |done|cbn; eauto].
    intros p s _. by rewrite lookup_empty.
Qed.

(** The admitted plans are plans of the step, within the budget. *)
Lemma admitted_from_plans plans budget r :
  admit_store_plans plans (VInt budget) = Ok r →
  (∀ p, p ∈ admitted r → p ∈ plans) ∧ Z.of_nat (length (admitted r)) ≤ budget.
Proof.
  unfold admit_store_plans; cbn. intros Hr. case_match eqn:Hb; [done|]. bsimp. inv_ok. cbn.
  match goal with E : collect_unique _ _ _ _ _ = Ok ?x |- _ => destruct x as [u d]; rename E into Hc end.
  destruct (collect_unique_spec _ _ _ _ _ _ _ unique_inv_nil Hc) as (spans & _ & _ & Hfrom & _).
  split; [|cbn; rewrite length_fmap, length_take; lia].
  intros p ((i & q) & -> & Hq)%list_elem_of_fmap.
  apply (elem_of_sublist _ (merge_sort priority_le u)) in Hq; [|apply sublist_take].
  rewrite (merge_sort_Permutation priority_le u) in Hq.
  destruct (Hfrom i q Hq) as [?%not_elem_of_nil|[Hl _]]; [done|].
  by apply list_elem_of_lookup_2 in Hl.
Qed.

(** The admitted plans are plans of the step with pairwise distinct entry IDs,
    at most the budget, in decreasing span order; every plan is admitted or
    counted as skipped; and a plan whose entry was not admitted lost to a full
    budget of plans at least as long. *)
Theorem admit_store_plans_spec plans budget r :
  admit_store_plans plans (VInt budget) = Ok r →
  (∀ p, p ∈ admitted r → p ∈ plans) ∧
  NoDup (plan_entry_id <$> admitted r) ∧
  Z.of_nat (length (admitted r)) ≤ budget ∧
  StronglySorted (λ p q, plan_span_tokens q ≤ plan_span_tokens p) (admitted r) ∧
  Z.of_nat (length plans) = Z.of_nat (length (admitted r)) + skipped r ∧
  (∀ p, p ∈ plans → plan_entry_id p ∉ plan_entry_id <$> admitted r →
     Z.of_nat (length (admitted r)) = budget ∧
     ∀ q, q ∈ admitted r → plan_span_tokens p ≤ plan_span_tokens q).
Proof.
  intros Hr. destruct (admitted_from_plans _ _ _ Hr) as [Hin Hbudget]. revert Hr Hin Hbudget.
  unfold admit_store_plans; cbn. intros Hr. case_match eqn:Hb; [done|]. bsimp. inv_ok. cbn.
  intros Hin Hbudget.
  match goal with E : collect_unique _ _ _ _ _ = Ok ?x |- _ => destruct x as [u d]; rename E into Hc end.
  destruct (collect_unique_spec _ _ _ _ _ _ _ unique_inv_nil Hc) as (spans & Hi & _ & _ & Hall).
  cbn. set (l := merge_sort priority_le u). set (n := Z.to_nat budget).
  assert (Hperm : l ≡ₚ u) by apply merge_sort_Permutation.
  assert (Hsort : StronglySorted priority_le l) by (apply StronglySorted_merge_sort; apply _).
  assert (Hnd : NoDup (plan_entry_id <$> l.*2)) by (rewrite Hperm; apply Hi).
  assert (Hlen : length l = length u) by by rewrite Hperm.
  pose proof (ui_count _ _ _ _ Hi) as Hcount.
  assert (Hpr : ∀ a b, priority_le a b → plan_span_tokens b.2 ≤ plan_span_tokens a.2).
  { intros a b. unfold priority_le, priority_leb. intros. bsimp. lia. }
  split_and!; [exact Hin| |exact Hbudget| | |].
  - eapply sublist_NoDup; [exact Hnd|]. apply fmap_sublist, fmap_sublist, sublist_take.
  - assert (Hst : StronglySorted priority_le (take n l))
      by (rewrite <-(take_drop n l) in Hsort; by apply StronglySorted_app in Hsort as (_ & ? & _)).
    clear -Hst Hpr. induction Hst as [|a k Hk IH Ha]; cbn; constructor; [done|].
    apply Forall_fmap. eapply Forall_impl; [exact Ha|]. intros b. apply Hpr.
  - unfold skipped; cbn. rewrite length_fmap, length_take. lia.
  - intros p Hp Hn. destruct (Hall p Hp) as [_ Hs].
    apply (ui_spans _ _ _ _ Hi) in Hs as (q & Hq & He & Hsp).
    apply list_elem_of_fmap in Hq as ([i q'] & -> & Hq). cbn in *.
    rewrite <-Hperm, <-(take_drop n l) in Hq. apply elem_of_app in Hq as [Hq|Hq].
    { destruct Hn. rewrite <-He. apply list_elem_of_fmap_2, (list_elem_of_fmap_2 snd _ (i, q') Hq). }
    assert (Hfull : (n < length l)%nat).
    { destruct (decide (n < length l)%nat); [done|]. rewrite drop_ge in Hq by lia.
      by apply not_elem_of_nil in Hq. }
    split; [rewrite length_fmap, length_take; lia|].
    intros q0 ([j q1] & -> & Hq1)%list_elem_of_fmap. cbn. rewrite <-Hsp.
    rewrite <-(take_drop n l) in Hsort. apply StronglySorted_app in Hsort as (Hcross & _ & _).
    apply (Hpr (j, q1) (i, q')). by apply Hcross.
Qed.

End admission.

(** ** Witness: three plans, one a duplicate, a budget of one *)
Module AdmissionExamples.
Record example_plan := Plan { ep_request : pystr; ep_entry : pystr; ep_span : Z }.
#[local] Instance example_store_plan : StorePlanLike example_plan :=
  {| request_id := ep_request; plan_entry_id := ep_entry; plan_span_tokens := ep_span |}.
Definition p1 : example_plan := Plan (lit "r1") (lit "k1") 256.
Definition p2 : example_plan := Plan (lit "r2") (lit "k2") 512.
Definition p3 : example_plan := Plan (lit "r3") (lit "k1") 256.

Example admits_longest :
  admit_store_plans [p1; p2; p3] (VInt 1) = Ok (AdmissionResult [p2] 1 1).
Proof. by vm_compute. Qed.

Lemma admit_store_plans_spec_witness :
  NoDup (plan_entry_id <$> [p2]) ∧ plan_span_tokens p1 ≤ plan_span_tokens p2.
Proof.
  destruct (admit_store_plans_spec [p1; p2; p3] 1 (AdmissionResult [p2] 1 1)) as (_ & H1 & _ & _ & _ & H2);
    [reflexivity|]. split; [exact H1|].
  apply (H2 p1); [by left| |by left]. cbn. intros [?|Hn]%elem_of_cons; [done|].
  by apply not_elem_of_nil in Hn.
Defined.
End AdmissionExamples.
