(* ===== verification/Json.v ===== *)
(** * Canonical JSON ([canonical_json], src/spoolcache/identity.py)

    [json.dumps] with [ensure_ascii=False], [sort_keys=True] and the separators
    [","] and [":"], on the values the repository encodes: null, booleans,
    integers, strings, lists and mappings with string keys.  [parse] reads the
    canonical text back; the round trip shows that two values with the same
    text are the same up to the order of their keys. *)
From S2P Require Import Prelude Bytes Utf8.

Inductive json :=
  | JNull
  | JBool (b : bool)
  | JInt (z : Z)
  | JStr (s : pystr)
  | JArr (l : list json)
  | JObj (l : list (pystr * json)).

Section json_ind.
Context (P : json → Prop) (Hnull : P JNull) (Hbool : ∀ b, P (JBool b)) (Hint : ∀ z, P (JInt z))
  (Hstr : ∀ s, P (JStr s)) (Harr : ∀ l, Forall P l → P (JArr l))
  (Hobj : ∀ l, Forall (λ p, P p.2) l → P (JObj l)).
Fixpoint json_ind' (v : json) : P v :=
  match v with
  | JNull => Hnull
  | JBool b => Hbool b
  | JInt z => Hint z
  | JStr s => Hstr s
  | JArr l => Harr l ((fix go l : Forall P l := match l with
                       | [] => Forall_nil_2 P
                       | x :: l => Forall_cons_2 P x l (json_ind' x) (go l) end) l)
  | JObj l => Hobj l ((fix go l : Forall (λ p, P p.2) l := match l with
                       | [] => Forall_nil_2 _
                       | x :: l => Forall_cons_2 (λ p, P p.2) x l (json_ind' x.2) (go l) end) l)
  end.
End json_ind.

(** ** Sorting by key

    Python sorts the items of a mapping; its keys are distinct, so the values
    are never compared and any stable sort by key gives the same list. *)
Fixpoint insert_key {A} (p : pystr * A) (l : list (pystr * A)) : list (pystr * A) :=
  match l with
  | [] => [p]
  | q :: l' => if str_leb p.1 q.1 then p :: l else q :: insert_key p l'
  end.

Definition sort_keys {A} (l : list (pystr * A)) : list (pystr * A) := foldr insert_key [] l.

Lemma insert_key_map {A B} (f : A → B) p l :
  insert_key (p.1, f p.2) (map (λ q, (q.1, f q.2)) l) = map (λ q, (q.1, f q.2)) (insert_key p l).
Proof. induction l as [|q l IH]; cbn; [done|]. case_match; cbn; [done|]. by rewrite IH. Qed.

Lemma sort_keys_map {A B} (f : A → B) l :
  sort_keys (map (λ q, (q.1, f q.2)) l) = map (λ q, (q.1, f q.2)) (sort_keys l).
Proof.
  unfold sort_keys. induction l as [|p l IH]; cbn; [done|]. by rewrite IH, insert_key_map.
Qed.

Lemma insert_key_perm {A} (p : pystr * A) l : insert_key p l ≡ₚ p :: l.
Proof.
  induction l as [|q l IH]; cbn; [done|]. case_match; [done|]. rewrite IH. constructor.
Qed.

Lemma sort_keys_perm {A} (l : list (pystr * A)) : sort_keys l ≡ₚ l.
Proof.
  unfold sort_keys. induction l as [|p l IH]; cbn; [done|]. by rewrite insert_key_perm, IH.
Qed.

Lemma insert_key_sorted {A} (p : pystr * A) l :
  StronglySorted (λ p q, str_leb p.1 q.1 = true) l →
  StronglySorted (λ p q, str_leb p.1 q.1 = true) (insert_key p l).
Proof.
  induction 1 as [|q l Hl IH Hq]; cbn; [by repeat constructor|].
  case_match eqn:E.
  - constructor; [by constructor|]. constructor; [done|].
    eapply Forall_impl; [exact Hq|]. intros x Hx. by eapply str_leb_trans.
  - constructor; [done|]. rewrite insert_key_perm. constructor; [|done].
    by destruct (str_leb_total p.1 q.1); [congruence|].
Qed.

Lemma sort_keys_sorted {A} (l : list (pystr * A)) :
  StronglySorted (λ p q, str_leb p.1 q.1 = true) (sort_keys l).
Proof. unfold sort_keys. induction l; cbn; [constructor|]. by apply insert_key_sorted. Qed.

Lemma sort_keys_idemp {A} (l : list (pystr * A)) : sort_keys (sort_keys l) = sort_keys l.
Proof.
  pose proof (sort_keys_sorted l) as Hs. revert Hs. generalize (sort_keys l). clear l.
  unfold sort_keys. induction 1 as [|p l Hl IH Hp]; cbn; [done|]. rewrite IH.
  destruct l as [|q l]; cbn; [done|]. apply Forall_cons in Hp as [Hp _]. by rewrite Hp.
Qed.

(** ** The text *)
Fixpoint digits (fuel : nat) (z : Z) : pystr :=
  match fuel with
  | O => []
  | S fuel => if z <? 10 then [48 + z] else digits fuel (z / 10) ++ [48 + z mod 10]
  end.

Definition print_nat (z : Z) : pystr := digits (S (Z.to_nat (Z.log2 z))) z.
Definition print_int (z : Z) : pystr := if z <? 0 then 45 :: print_nat (- z) else print_nat z.

(** [ESCAPE_DCT] of [json.encoder]: control characters, quote and backslash. *)
Definition escape (c : Z) : pystr :=
  if c =? 34 then [92; 34]
  else if c =? 92 then [92; 92]
  else if c =? 10 then [92; 110]
  else if c =? 13 then [92; 114]
  else if c =? 9 then [92; 116]
  else if c =? 12 then [92; 102]
  else if c =? 8 then [92; 98]
  else if (0 <=? c) && (c <? 32) then [92; 117; 48; 48; hex_digit (c / 16); hex_digit (c mod 16)]
  else [c].

Definition quote (s : pystr) : pystr := 34 :: (s ≫= escape) ++ [34].

Fixpoint join (sep : Z) (l : list pystr) : pystr :=
  match l with
  | [] => []
  | [x] => x
  | x :: l => x ++ sep :: join sep l
  end.

Fixpoint print (v : json) : pystr :=
  match v with
  | JNull => lit "null"
  | JBool b => if b then lit "true" else lit "false"
  | JInt z => print_int z
  | JStr s => quote s
  | JArr l => 91 :: join 44 (map print l) ++ [93]
  | JObj l =>
      123 :: join 44 (map (λ p, quote p.1 ++ 58 :: p.2)
                        (sort_keys (map (λ p, (p.1, print p.2)) l))) ++ [125]
  end.

(** The value the text determines: every mapping in key order. *)
Fixpoint canon (v : json) : json :=
  match v with
  | JArr l => JArr (map canon l)
  | JObj l => JObj (sort_keys (map (λ p, (p.1, canon p.2)) l))
  | _ => v
  end.

Definition canonical_json (v : json) : result (list byte) :=
  match encode_utf8 (print v) with
  | Ok b => Ok b
  | Raise _ => raise IdentityError "identity contains a non-canonical value"
  end.

Definition sha256_json `{Sha} (v : json) : result pystr :=
  b ← canonical_json v; Ok (sha256_hex b).

Example print_example :
  print (JObj [(lit "b", JArr [JInt (-12); JNull]); (lit "a", JStr (lit "x"))])
  = lit "{" ++ [34] ++ lit "a" ++ [34] ++ lit ":" ++ [34] ++ lit "x" ++ [34] ++ lit ","
    ++ [34] ++ lit "b" ++ [34] ++ lit ":[-12,null]}".
Proof. by vm_compute. Qed.

(** ** Reading the canonical text back *)
Definition is_digit (c : Z) : bool := (48 <=? c) && (c <=? 57).

Fixpoint span_digits (s : pystr) : pystr * pystr :=
  match s with
  | c :: s' => if is_digit c then let (d, r) := span_digits s' in (c :: d, r) else ([], s)
  | [] => ([], [])
  end.

Definition digits_value (l : pystr) : Z := foldl (λ acc c, 10 * acc + (c - 48)) 0 l.

(** The rest of a string after its opening quote. *)
Definition unescape (e : Z) : Z :=
  if e =? 110 then 10 else if e =? 114 then 13 else if e =? 116 then 9
  else if e =? 102 then 12 else if e =? 98 then 8 else e.

Fixpoint parse_str (s : pystr) : option (pystr * pystr) :=
  match s with
  | [] => None
  | c :: s1 =>
      if c =? 34 then Some ([], s1)
      else if c =? 92 then
        match s1 with
        | [] => None
        | e :: s2 =>
            if e =? 117 then
              match s2 with
              | _ :: _ :: a :: b :: s3 =>
                  '(t, r) ← parse_str s3; Some (16 * hex_value a + hex_value b :: t, r)
              | _ => None
              end
            else '(t, r) ← parse_str s2; Some (unescape e :: t, r)
        end
      else '(t, r) ← parse_str s1; Some (c :: t, r)
  end.

(** [s] without the prefix [w] *)
Fixpoint eat (w s : pystr) : option pystr :=
  match w, s with
  | [], _ => Some s
  | x :: w, y :: s => if x =? y then eat w s else None
  | _ :: _, [] => None
  end.

Section lists.
Context (pv : pystr → option (json * pystr)).

Fixpoint parse_elems (n : nat) (s : pystr) : option (list json * pystr) :=
  match n with
  | O => None
  | S n =>
      '(v, s) ← pv s;
      match s with
      | [] => None
      | c :: s =>
          if c =? 44 then '(l, s) ← parse_elems n s; Some (v :: l, s)
          else if c =? 93 then Some ([v], s) else None
      end
  end.

Fixpoint parse_fields (n : nat) (s : pystr) : option (list (pystr * json) * pystr) :=
  match n with
  | O => None
  | S n =>
      s ← eat [34] s; '(k, s) ← parse_str s; s ← eat [58] s; '(v, s) ← pv s;
      match s with
      | [] => None
      | c :: s =>
          if c =? 44 then '(l, s) ← parse_fields n s; Some ((k, v) :: l, s)
          else if c =? 125 then Some ([(k, v)], s) else None
      end
  end.
End lists.

Fixpoint parse (fuel : nat) (s : pystr) : option (json * pystr) :=
  match fuel, s with
  | S fuel, c :: s1 =>
      if is_digit c then let (d, r) := span_digits s in Some (JInt (digits_value d), r)
      else if c =? 45 then let (d, r) := span_digits s1 in Some (JInt (- digits_value d), r)
      else if c =? 34 then '(t, r) ← parse_str s1; Some (JStr t, r)
      else if c =? 91 then
        match eat [93] s1 with
        | Some r => Some (JArr [], r)
        | None => '(l, r) ← parse_elems (parse fuel) (length s1) s1; Some (JArr l, r)
        end
      else if c =? 123 then
        match eat [125] s1 with
        | Some r => Some (JObj [], r)
        | None => '(l, r) ← parse_fields (parse fuel) (length s1) s1; Some (JObj l, r)
        end
      else if c =? 110 then r ← eat (lit "ull") s1; Some (JNull, r)
      else if c =? 116 then r ← eat (lit "rue") s1; Some (JBool true, r)
      else if c =? 102 then r ← eat (lit "alse") s1; Some (JBool false, r)
      else None
  | _, _ => None
  end.

(** ** Round trips *)
Definition no_digit_head (s : pystr) : Prop :=
  match s with c :: _ => is_digit c = false | [] => True end.

Lemma span_digits_app d r :
  Forall (λ c, is_digit c = true) d → no_digit_head r → span_digits (d ++ r) = (d, r).
Proof.
  intros Hd Hr. induction Hd as [|c d Hc Hd IH]; cbn.
  - destruct r as [|c r]; cbn; [done|]. by rewrite Hr.
  - by rewrite Hc, IH.
Qed.

Lemma digits_spec fuel z :
  0 ≤ z → z < 10 ^ Z.of_nat fuel →
  Forall (λ c, is_digit c = true) (digits fuel z) ∧ digits_value (digits fuel z) = z ∧
  (0 < fuel → digits fuel z ≠ [])%nat.
Proof.
  revert z; induction fuel as [|fuel IH]; intros z Hz Hlt; cbn [digits].
  - cbn in Hlt. split; [constructor|]. split; [cbn; lia|lia].
  - destruct (z <? 10) eqn:E; bsimp.
    + unfold is_digit. split; [repeat constructor; bsimp; lia|]. split; [cbn; lia|done].
    + rewrite Nat2Z.inj_succ, Z.pow_succ_r in Hlt by lia.
      pose proof (Z.mod_pos_bound z 10 ltac:(lia)). pose proof (Z.div_mod z 10 ltac:(lia)).
      destruct (IH (z / 10)) as (Hf & Hv & _); [apply Z.div_pos; lia|apply Z.div_lt_upper_bound; lia|].
      split_and!.
      * apply Forall_app. split; [done|]. unfold is_digit. repeat constructor. bsimp. lia.
      * unfold digits_value in *. rewrite foldl_app, Hv. cbn. lia.
      * intros _. by intros [_ ?]%app_eq_nil.
Qed.

Lemma print_nat_spec z :
  0 ≤ z → Forall (λ c, is_digit c = true) (print_nat z) ∧ digits_value (print_nat z) = z ∧
  print_nat z ≠ [].
Proof.
  intros Hz. destruct (digits_spec (S (Z.to_nat (Z.log2 z))) z Hz) as (? & ? & Hn).
  - destruct (decide (z = 0)) as [->|Hne]; [done|].
    pose proof (Z.log2_spec z ltac:(lia)) as [_ Hl]. pose proof (Z.log2_nonneg z).
    eapply Z.lt_le_trans; [exact Hl|]. rewrite Nat2Z.inj_succ, Z2Nat.id by lia.
    apply Z.pow_le_mono_l. lia.
  - split_and!; [done|done|apply Hn; lia].
Qed.

Lemma parse_str_quote s r : parse_str ((s ≫= escape) ++ 34 :: r) = Some (s, r).
Proof.
  induction s as [|c s IH]; [done|]. rewrite bind_cons, <-(assoc_L (++)).
  revert IH. generalize ((s ≫= escape) ++ 34 :: r). intros tl Htl. unfold escape.
  repeat match goal with
  | |- context [c =? ?k] => destruct (c =? k) eqn:?; [bsimp; subst c; cbn; by rewrite Htl|]
  end.
  destruct ((0 <=? c) && (c <? 32)) eqn:Hctl; bsimp.
  - destruct Hctl as [? ?]. cbn. rewrite Htl. cbn. do 3 f_equal.
    pose proof (Z.mod_pos_bound c 16 ltac:(lia)). pose proof (Z.div_mod c 16 ltac:(lia)).
    rewrite !hex_value_digit; [lia|lia|]. split; [apply Z.div_pos; lia|apply Z.div_lt_upper_bound; lia].
  - cbn. rewrite (proj2 (Z.eqb_neq c 34)), (proj2 (Z.eqb_neq c 92)) by done. by rewrite Htl.
Qed.

Lemma eat_app w s : eat w (w ++ s) = Some s.
Proof. induction w as [|c w IH]; cbn; [done|]. by rewrite Z.eqb_refl. Qed.

(** The first character of a text decides the branch of the parser. *)
Lemma print_head v : ∃ c s, print v = c :: s ∧ (is_digit c = true ∨ c ∈ [45; 34; 91; 123; 110; 116; 102]).
Proof.
  destruct v as [|b|z|s|l|l]; cbn [print].
  - do 2 eexists. split; [done|]. right. set_solver.
  - destruct b; do 2 eexists; (split; [done|]); right; set_solver.
  - unfold print_int. case_match; [do 2 eexists; split; [done|]; right; set_solver|]. bsimp.
    destruct (print_nat_spec z) as (Hd & _ & Hn); [lia|].
    destruct (print_nat z) as [|c s]; [done|]. exists c, s. split; [done|]. left.
    by apply Forall_cons in Hd as [? _].
  - do 2 eexists. split; [done|]. right. set_solver.
  - do 2 eexists. split; [done|]. right. set_solver.
  - do 2 eexists. split; [done|]. right. set_solver.
Qed.

Lemma print_ne v : (0 < length (print v))%nat.
Proof. destruct (print_head v) as (c & s & -> & _). cbn. lia. Qed.

(** Nesting depth bounds the fuel. *)
Fixpoint depth (v : json) : nat :=
  match v with
  | JArr l => S (foldr (λ x n, Nat.max (depth x) n) O l)
  | JObj l => S (foldr (λ p n, Nat.max (depth p.2) n) O l)
  | _ => 1
  end.

Lemma parse_elems_print pv (l : list json) n r :
  (∀ v s, v ∈ l → no_digit_head s → pv (print v ++ s) = Some (canon v, s)) →
  l ≠ [] → (length l ≤ n)%nat →
  parse_elems pv n (join 44 (map print l) ++ 93 :: r) = Some (map canon l, r).
Proof.
  intros Hpv. revert n; induction l as [|v l IH]; intros n Hne Hn; [done|].
  destruct n as [|n]; [cbn in Hn; lia|]. cbn [length] in Hn. cbn [map].
  assert (Hl : ∀ w s, w ∈ l → no_digit_head s → pv (print w ++ s) = Some (canon w, s))
    by (intros; apply Hpv; [by right|done]).
  destruct l as [|w l].
  - cbn [map join parse_elems]. rewrite Hpv; [done|by left|done].
  - change (join 44 (print v :: map print (w :: l))) with
      (print v ++ 44 :: join 44 (map print (w :: l))).
    rewrite <-(assoc_L (++)). cbn [parse_elems app]. rewrite Hpv; [|by left|done].
    cbn [mbind option_bind]. rewrite Z.eqb_refl. rewrite IH; [done|done|done|lia].
Qed.

Lemma parse_fields_print pv (l : list (pystr * json)) n r :
  (∀ p s, p ∈ l → no_digit_head s → pv (print p.2 ++ s) = Some (canon p.2, s)) →
  l ≠ [] → (length l ≤ n)%nat →
  parse_fields pv n (join 44 (map (λ p, quote p.1 ++ 58 :: p.2)
    (map (λ p, (p.1, print p.2)) l)) ++ 125 :: r) = Some (map (λ p, (p.1, canon p.2)) l, r).
Proof.
  intros Hpv. revert n; induction l as [|[k v] l IH]; intros n Hne Hn; [done|].
  destruct n as [|n]; [cbn in Hn; lia|]. cbn [length] in Hn. cbn [map fst snd].
  assert (Hl : ∀ p s, p ∈ l → no_digit_head s → pv (print p.2 ++ s) = Some (canon p.2, s))
    by (intros; apply Hpv; [by right|done]).
  assert (Hv : ∀ s, no_digit_head s → pv (print v ++ s) = Some (canon v, s))
    by (intros s Hs; apply (Hpv (k, v) s); [by left|done]).
  assert (Hq : ∀ s, eat [34] (quote k ++ s) = Some ((k ≫= escape) ++ 34 :: s))
    by (intros s; unfold quote; cbn; by rewrite <-(assoc_L (++))).
  destruct l as [|w l].
  - cbn [map join parse_fields]. rewrite <-!(assoc_L (++)), Hq. cbn [mbind option_bind].
    rewrite parse_str_quote. cbn. by rewrite Hv.
  - set (rest := map (λ p, quote p.1 ++ 58 :: p.2) (map (λ p, (p.1, print p.2)) (w :: l))) in *.
    change (join 44 ((quote k ++ 58 :: print v) :: rest)) with
      ((quote k ++ 58 :: print v) ++ 44 :: join 44 rest).
    rewrite <-!(assoc_L (++)). cbn [parse_fields]. rewrite Hq. cbn [mbind option_bind].
    rewrite parse_str_quote. cbn [mbind option_bind app eat]. rewrite Z.eqb_refl.
    cbn [mbind option_bind]. rewrite Hv by done. cbn [mbind option_bind]. rewrite Z.eqb_refl.
    rewrite IH; [done|done|done|lia].
Qed.

(** A comma-separated list is at least as long as its number of items. *)
Lemma join_length l : Forall (λ x : pystr, (0 < length x)%nat) l → (length l ≤ length (join 44%Z l))%nat.
Proof.
  induction 1 as [|x l Hx Hl IH]; cbn; [done|]. destruct l as [|y l]; [cbn in *; lia|].
  rewrite length_app. cbn [length] in *. lia.
Qed.

Lemma depth_elem_arr (l : list json) v : v ∈ l → (depth v ≤ foldr (λ x n, Nat.max (depth x) n) O l)%nat.
Proof. induction l as [|w l IH]; cbn; [by intros ?%not_elem_of_nil|]. intros [->|?%IH]%elem_of_cons; lia. Qed.
Lemma depth_elem_obj (l : list (pystr * json)) p :
  p ∈ l → (depth p.2 ≤ foldr (λ p n, Nat.max (depth p.2) n) O l)%nat.
Proof. induction l as [|w l IH]; cbn; [by intros ?%not_elem_of_nil|]. intros [->|?%IH]%elem_of_cons; lia. Qed.

Lemma parse_print v fuel r :
  (depth v ≤ fuel)%nat → no_digit_head r → parse fuel (print v ++ r) = Some (canon v, r).
Proof.
  revert fuel r; induction v as [|b|z|s|l IH|l IH] using json_ind'; intros fuel r Hf Hr;
    (destruct fuel as [|fuel]; [cbn in Hf; lia|]).
  - reflexivity.
  - by destruct b.
  - cbn [print canon]. unfold print_int. case_match eqn:Ez; bsimp.
    + destruct (print_nat_spec (- z)) as (Hd & Hv & _); [lia|].
      change (parse (S fuel) ((45 :: print_nat (- z)) ++ r)) with
        (let (d, r) := span_digits (print_nat (- z) ++ r) in Some (JInt (- digits_value d), r)).
      rewrite (span_digits_app _ _ Hd Hr), Hv. do 3 f_equal. lia.
    + destruct (print_nat_spec z) as (Hd & Hv & Hn); [lia|].
      pose proof (span_digits_app _ _ Hd Hr) as Hs.
      destruct (print_nat z) as [|c d]; [done|]. cbn [app] in *. cbn [parse].
      apply Forall_cons in Hd as [Hc _]. rewrite Hc, Hs. by rewrite Hv.
  - cbn [print canon]. unfold quote. rewrite <-app_comm_cons, <-(assoc_L (++)).
    cbn. by rewrite parse_str_quote.
  - cbn [print canon]. rewrite <-app_comm_cons, <-(assoc_L (++)). cbn [app].
    destruct l as [|v l]; [reflexivity|].
    assert (Hne : eat [93] (join 44 (map print (v :: l)) ++ 93 :: r) = None).
    { destruct (print_head v) as (c & s & Hp & Hc). cbn [map].
      assert (Hj : ∃ s', join 44 (print v :: map print l) = c :: s')
        by (rewrite Hp; cbn; destruct (map print l); eauto).
      destruct Hj as [s' ->]. cbn [app eat]. destruct (93 =? c) eqn:E; [|done]. bsimp. subst c.
      exfalso. destruct Hc as [Hc|Hc]; [discriminate Hc|set_solver]. }
    set (s1 := join 44 (map print (v :: l)) ++ 93 :: r) in *.
    change (parse (S fuel) (91 :: s1)) with
      (match eat [93] s1 with
       | Some r => Some (JArr [], r)
       | None => '(l, r) ← parse_elems (parse fuel) (length s1) s1; Some (JArr l, r)
       end). rewrite Hne. subst s1.
    rewrite (parse_elems_print _ (v :: l)); [done| |done|].
    + intros w s Hw Hs. rewrite Forall_forall in IH. apply IH; [done| |done].
      apply depth_elem_arr in Hw. cbn [depth] in Hf. cbn in *. lia.
    + rewrite length_app. cbn [length]. pose proof (join_length (map print (v :: l))) as Hj.
      rewrite length_map in Hj. ospecialize (Hj _); [|cbn [length] in *; lia].
      apply Forall_forall. intros x (w & -> & _)%list_elem_of_fmap. apply print_ne.
  - cbn [print canon]. rewrite <-app_comm_cons, <-(assoc_L (++)). cbn [app].
    rewrite !sort_keys_map. destruct l as [|p0 l]; [reflexivity|].
    pose proof (sort_keys_perm (p0 :: l)) as Hperm.
    assert (IH' : ∀ p s, p ∈ sort_keys (p0 :: l) → no_digit_head s →
      parse fuel (print p.2 ++ s) = Some (canon p.2, s)).
    { intros p s Hp Hs. rewrite Hperm in Hp. rewrite Forall_forall in IH. apply IH; [done| |done].
      apply depth_elem_obj in Hp. cbn [depth] in Hf. cbn in *. lia. }
    destruct (sort_keys (p0 :: l)) as [|p1 k] eqn:Ek; [by apply Permutation_nil_cons in Hperm|].
    clear Hperm IH Ek.
    assert (Hne : eat [125] (join 44 (map (λ p, quote p.1 ++ 58 :: p.2)
      (map (λ p, (p.1, print p.2)) (p1 :: k))) ++ 125 :: r) = None)
      by (cbn; by destruct (map _ (map _ k))).
    set (s1 := join 44 (map (λ p, quote p.1 ++ 58 :: p.2) (map (λ p, (p.1, print p.2)) (p1 :: k)))
      ++ 125 :: r) in *.
    change (parse (S fuel) (123 :: s1)) with
      (match eat [125] s1 with
       | Some r => Some (JObj [], r)
       | None => '(l, r) ← parse_fields (parse fuel) (length s1) s1; Some (JObj l, r)
       end). rewrite Hne. subst s1.
    rewrite (parse_fields_print _ (p1 :: k)); [done|exact IH'|done|].
    rewrite length_app. pose proof (join_length (map (λ p, quote p.1 ++ 58 :: p.2)
      (map (λ p, (p.1, print p.2)) (p1 :: k)))) as Hj.
    rewrite !length_map in Hj. ospecialize (Hj _); [|lia].
    apply Forall_forall. intros x (w & -> & _)%list_elem_of_fmap.
    rewrite length_app. cbn [length]. lia.
Qed.

(** Equal texts, equal values up to key order. *)
Lemma print_inj v w : print v = print w → canon v = canon w.
Proof.
  intros Heq. set (n := Nat.max (depth v) (depth w)).
  pose proof (parse_print v n [] ltac:(lia) I) as Hv.
  pose proof (parse_print w n [] ltac:(lia) I) as Hw.
  rewrite Heq, Hw in Hv. by injection Hv.
Qed.

Lemma canonical_json_Ok v b : canonical_json v = Ok b ↔ encode_utf8 (print v) = Ok b.
Proof. unfold canonical_json. by destruct (encode_utf8 (print v)). Qed.

Lemma canonical_json_inj v w b : canonical_json v = Ok b → canonical_json w = Ok b → canon v = canon w.
Proof. rewrite !canonical_json_Ok. intros Hv Hw. by eapply print_inj, encode_utf8_inj. Qed.

Lemma print_canon v : print (canon v) = print v.
Proof.
  induction v as [|b|z|s|l IH|l IH] using json_ind'; cbn [canon print]; try done.
  - do 3 f_equal. induction IH as [|v l Hv Hl IHl]; cbn; [done|]. by rewrite Hv, IHl.
  - do 3 f_equal. f_equal.
    assert (Hs : ∀ k : list (pystr * json), Forall (λ p, print (canon p.2) = print p.2) k →
      map (λ p, (p.1, print p.2)) (map (λ p, (p.1, canon p.2)) k) = map (λ p, (p.1, print p.2)) k).
    { induction 1 as [|p k Hp Hk IHk]; cbn; [done|]. by rewrite Hp, IHk. }
    rewrite !sort_keys_map. rewrite sort_keys_idemp. apply Hs.
    rewrite (sort_keys_perm l). done.
Qed.

(** One digest, one value: equal digests exhibit equal values or a collision. *)
Lemma sha256_json_inj `{Sha} v w d :
  sha256_json v = Ok d → sha256_json w = Ok d →
  ∃ b1 b2, canonical_json v = Ok b1 ∧ canonical_json w = Ok b2 ∧
    (canon v = canon w ∨ collision [b1; b2]).
Proof.
  unfold sha256_json. intros (b1 & H1 & [= <-])%result_bind_Ok (b2 & H2 & Hd)%result_bind_Ok.
  exists b1, b2. split_and!; [done|done|]. injection Hd as Hd.
  assert (Hs : sha256 b2 = sha256 b1).
  { unfold sha256_hex in Hd. apply (f_equal bytes_fromhex) in Hd. by rewrite !bytes_fromhex_hex in Hd. }
  destruct (decide (b1 = b2)) as [->|Hne]; [left; by eapply canonical_json_inj|].
  right. exists b1, b2. split_and!; try done; set_solver.
Qed.

Lemma sort_keys_unique {A} (l k : list (pystr * A)) : NoDup l.*1 → l ≡ₚ k → sort_keys l = sort_keys k.
Proof.
  intros Hnd Hp.
  assert (Hk : sort_keys l ≡ₚ sort_keys k) by by rewrite !sort_keys_perm.
  assert (Hn : NoDup (sort_keys l).*1) by by rewrite sort_keys_perm.
  pose proof (sort_keys_sorted l) as Hl. pose proof (sort_keys_sorted k) as Hs.
  revert Hk Hn Hl Hs. generalize (sort_keys l) (sort_keys k). clear.
  induction l as [|p l IH]; intros k Hp Hn Hl Hs; [by apply Permutation_nil in Hp|].
  destruct k as [|q k]; [by symmetry in Hp; apply Permutation_nil in Hp|].
  apply StronglySorted_inv in Hl as [Hl Hpl]. apply StronglySorted_inv in Hs as [Hs Hqk].
  assert (p = q) as ->.
  { assert (Hpq : p ∈ q :: k) by (rewrite <-Hp; by left).
    assert (Hqp : q ∈ p :: l) by (rewrite Hp; by left).
    apply elem_of_cons in Hpq as [|Hpq]; [done|]. apply elem_of_cons in Hqp as [|Hqp]; [done|].
    rewrite Forall_forall in Hpl, Hqk. specialize (Hpl _ Hqp). specialize (Hqk _ Hpq).
    pose proof (str_leb_antisym _ _ Hpl Hqk) as He.
    cbn in Hn. apply NoDup_cons in Hn as [Hn _]. destruct Hn. rewrite He. by apply list_elem_of_fmap_2. }
  f_equal. apply IH; [by apply Permutation_cons_inv in Hp| |done|done].
  cbn in Hn. by apply NoDup_cons in Hn as [_ ?].
Qed.

(** canonical JSON is a normal form: the text of a mapping does not depend on
    the order of its items, the text of a value is the text of its canonical
    value, and two values have the same bytes only if their canonical values
    (all mappings in key order) are equal. *)
Theorem canonical_json_normal_form :
  (∀ l k, NoDup l.*1 → l ≡ₚ k → canonical_json (JObj l) = canonical_json (JObj k)) ∧
  (∀ v, canonical_json (canon v) = canonical_json v) ∧
  (∀ v w b, canonical_json v = Ok b → canonical_json w = Ok b → canon v = canon w).
Proof.
  split_and!.
  - intros l k Hnd Hp. unfold canonical_json. cbn [print].
    rewrite !sort_keys_map. by rewrite (sort_keys_unique l k).
  - intros v. unfold canonical_json. by rewrite print_canon.
  - apply canonical_json_inj.
Qed.
