(* ===== verification/Identity.v ===== *)
(** * Deployment and rank identities ([src/spoolcache/identity.py])

    The validated identity records and their digests, and the rank ownership
    digest of [topology.py].  A digest binds every field: two valid identities
    with the same digest are equal or exhibit a SHA-256 collision. *)
From S2P Require Import Prelude Dict Bytes Utf8 Json Topology.

(** ** Objects in canonical JSON *)
Lemma fst_list_eq {K V} (l k : list (K * V)) :
  NoDup l.*1 → l.*1 = k.*1 → l ≡ₚ k → l = k.
Proof.
  intros Hnd Hk Hp. apply list_eq_same_length with (length l); [by rewrite Hp|done|].
  intros i [a x] [b y] _ Hl Hr.
  assert (a = b) as <-.
  { apply (f_equal (λ l, l !! i)) in Hk. rewrite !list_lookup_fmap, Hl, Hr in Hk. by injection Hk. }
  f_equal. apply (NoDup_fst_lookup k a x y).
  - by rewrite <-Hk.
  - rewrite <-Hp. by apply list_elem_of_lookup_2 in Hl.
  - by apply list_elem_of_lookup_2 in Hr.
Qed.

Lemma canon_obj_perm l k :
  canon (JObj l) = canon (JObj k) →
  map (λ p, (p.1, canon p.2)) l ≡ₚ map (λ p, (p.1, canon p.2)) k.
Proof.
  cbn [canon]. intros Hs. injection Hs as Hs.
  by rewrite <-(sort_keys_perm (map _ l)), Hs, sort_keys_perm.
Qed.

Lemma map_fst_canon (l : list (pystr * json)) : (map (λ p, (p.1, canon p.2)) l).*1 = l.*1.
Proof. induction l as [|p l IH]; [done|]. cbn. f_equal. exact IH. Qed.

(** Records with the same field names: equal canonical objects, equal fields. *)
Lemma canon_obj_inj l k :
  NoDup l.*1 → l.*1 = k.*1 → canon (JObj l) = canon (JObj k) →
  map (λ p, canon p.2) l = map (λ p, canon p.2) k.
Proof.
  intros Hnd Hk Hc%canon_obj_perm.
  apply fst_list_eq in Hc; [|by rewrite map_fst_canon|by rewrite !map_fst_canon].
  apply (f_equal (map snd)) in Hc. by rewrite !map_map in Hc.
Qed.

(** Python values that appear in identities. *)
Definition json_of (v : pyval) : json :=
  match v with
  | VNone | VObj => JNull
  | VBool b => JBool b
  | VInt z => JInt z
  | VStr s => JStr s
  | VTuple _ | VList _ => JNull
  end.

(** ** Model locator *)

(** [getattr(model_config, name, default)] of the three public attributes. *)
Record ModelConfig := MkModelConfig {
  mc_model : pyval;
  mc_model_weights : option pyval;
  mc_revision : option pyval
}.

Section identity.
Context `{Sha}.

Definition model_namespace_sha256 (mc : ModelConfig) : result pystr :=
  match as_str (mc_model mc) with
  | None => raise IdentityError "vLLM model locator must be a non-empty string"
  | Some model =>
      if bool_decide (model = [])
      then raise IdentityError "vLLM model locator must be a non-empty string"
      else
        let original := match mc_model_weights mc with
                        | None => VStr []
                        | Some VNone => VStr []
                        | Some v => v
                        end in
        match as_str original with
        | None => raise IdentityError "vLLM original model locator must be a string"
        | Some original =>
            match default VNone (mc_revision mc) with
            | (VNone | VStr _) as revision =>
                sha256_json (JObj [
                  (lit "schema", JStr (lit "spoolcache-model-namespace/v1"));
                  (lit "locator", JStr (if bool_decide (original = []) then model else original));
                  (lit "revision", json_of revision)])
            | _ => raise IdentityError "vLLM model revision must be a string or null"
            end
        end
  end.
End identity.

(** ** Deployment identity *)
Record DeploymentIdentity := Deployment {
  dep_schema : pystr;
  dep_profile : pystr;
  dep_model_namespace_sha256 : pystr;
  dep_model_config_sha256 : pystr;
  dep_execution_config_sha256 : pystr;
  dep_vllm_version : pystr;
  dep_vllm_build_sha256 : pystr;
  dep_kv_cache_dtype : pystr;
  dep_topology : list (pystr * pyval);
  dep_layout_sha256 : pystr;
  dep_chunk_tokens : pyval;
  dep_spoolcache_version : pystr;
  dep_publication_policy : pystr
}.

Definition required_topology : gset pystr :=
  list_to_set (lit <$> ["tp"; "pp"; "dcp"; "dp"; "dp_rank"; "world_size"; "world_size_across_dp"]%string).

Definition nonempty (s : pystr) : bool := negb (bool_decide (s = [])).

(** [self.topology[name]] of a field proved to be an integer. *)
Definition topology_int (t : list (pystr * pyval)) (name : string) : Z :=
  match od_get (lit name) t with Some (VInt z) => z | _ => 0 end.

Definition deployment_post_init (d : DeploymentIdentity) : result unit :=
  _ ← raise_if (negb (forallb is_digest [dep_model_namespace_sha256 d; dep_model_config_sha256 d;
         dep_execution_config_sha256 d; dep_vllm_build_sha256 d; dep_layout_sha256 d]))
        IdentityError "deployment identity contains a malformed SHA-256";
  _ ← raise_if (negb (bool_decide (dep_schema d = lit "spoolcache-deployment/v2")))
        IdentityError "deployment identity schema is unsupported";
  _ ← raise_if (negb (nonempty (dep_profile d)) || negb (nonempty (dep_vllm_version d))
                || negb (nonempty (dep_spoolcache_version d)) || negb (nonempty (dep_kv_cache_dtype d))
                || negb (bool_decide (dep_publication_policy d = lit "prompt-snapshot-v1")))
        IdentityError "deployment identity is incomplete";
  let t := dep_topology d in
  _ ← raise_if (negb (bool_decide (list_to_set t.*1 = required_topology)))
        IdentityError "deployment topology fields are incomplete";
  _ ← raise_if (negb (forallb (λ p, bool_decide (p.1 = lit "dp_rank")
         || match as_int p.2 with Some z => 0 <? z | None => false end) t))
        IdentityError "topology values must be positive integers";
  dp_rank ← need_int (default VNone (od_get (lit "dp_rank") t)) (λ z, z <? 0)
              IdentityError "dp_rank must be a non-negative integer";
  _ ← raise_if (topology_int t "dp" <=? dp_rank) IdentityError "dp_rank must be below the data-parallel size";
  _ ← raise_if (negb (topology_int t "world_size" =? topology_int t "tp" * topology_int t "pp"))
        IdentityError "world_size must equal tp multiplied by pp";
  _ ← raise_if (negb (topology_int t "world_size_across_dp" =? topology_int t "world_size" * topology_int t "dp"))
        IdentityError "world_size_across_dp must include the data-parallel size";
  _ ← raise_if (negb (topology_int t "tp" mod topology_int t "dcp" =? 0)) IdentityError "dcp must divide tp";
  _ ← need_int (dep_chunk_tokens d) (λ z, z <=? 0) IdentityError "chunk_tokens must be positive";
  Ok tt.

(** [asdict(self)] *)
Definition deployment_dict (d : DeploymentIdentity) : json :=
  JObj [(lit "schema", JStr (dep_schema d)); (lit "profile", JStr (dep_profile d));
        (lit "model_namespace_sha256", JStr (dep_model_namespace_sha256 d));
        (lit "model_config_sha256", JStr (dep_model_config_sha256 d));
        (lit "execution_config_sha256", JStr (dep_execution_config_sha256 d));
        (lit "vllm_version", JStr (dep_vllm_version d));
        (lit "vllm_build_sha256", JStr (dep_vllm_build_sha256 d));
        (lit "kv_cache_dtype", JStr (dep_kv_cache_dtype d));
        (lit "topology", JObj (map (λ p, (p.1, json_of p.2)) (dep_topology d)));
        (lit "layout_sha256", JStr (dep_layout_sha256 d));
        (lit "chunk_tokens", json_of (dep_chunk_tokens d));
        (lit "spoolcache_version", JStr (dep_spoolcache_version d));
        (lit "publication_policy", JStr (dep_publication_policy d))].

(** ** Rank identity *)
Record RankIdentity := Rank {
  rk_deployment_digest : pystr;
  rk_physical_rank : pyval;
  rk_shard_layout_sha256 : pystr;
  rk_layer_ownership_sha256 : pystr
}.

Definition rank_post_init (r : RankIdentity) : result unit :=
  _ ← raise_if (negb (forallb is_digest [rk_deployment_digest r; rk_shard_layout_sha256 r;
         rk_layer_ownership_sha256 r])) IdentityError "rank identity contains a malformed SHA-256";
  _ ← need_int (rk_physical_rank r) (λ z, z <? 0) IdentityError
        "physical_rank must be a non-negative integer";
  Ok tt.

Definition rank_dict (r : RankIdentity) : json :=
  JObj [(lit "deployment_digest", JStr (rk_deployment_digest r));
        (lit "physical_rank", json_of (rk_physical_rank r));
        (lit "shard_layout_sha256", JStr (rk_shard_layout_sha256 r));
        (lit "layer_ownership_sha256", JStr (rk_layer_ownership_sha256 r))].

(** A target of an alias; anything but a string is not an owned layer. *)
Definition owned_string (v : pyval) : result pystr :=
  match as_str v with
  | Some s => Ok s
  | None => raise ValueError "shared layer aliases are invalid"
  end.

Section digests.
Context `{Sha}.

Definition deployment_digest (d : DeploymentIdentity) : result pystr := sha256_json (deployment_dict d).
Definition rank_digest (r : RankIdentity) : result pystr := sha256_json (rank_dict r).

(** The loop over [shared_aliases]: names new and non-empty, targets owned. *)
Fixpoint shared_aliases_ok (owned seen : list pystr) (l : list (pyval * list pyval))
    : result (list (pystr * list pystr)) :=
  match l with
  | [] => Ok []
  | (name, targets) :: l =>
      match as_str name, mapM_result owned_string targets with
      | Some s, Ok ts =>
          if nonempty s && negb (bool_decide (s ∈ seen)) && negb (bool_decide (ts = []))
             && bool_decide (Forall (λ t, t ∈ owned) ts)
          then rest ← shared_aliases_ok owned (s :: seen) l; Ok ((s, ts) :: rest)
          else raise ValueError "shared layer aliases are invalid"
      | _, _ => raise ValueError "shared layer aliases are invalid"
      end
  end.

(** ** Layer ownership ([rank_ownership_sha256], topology.py) *)
Definition rank_ownership_sha256 (layer_names : list pyval)
    (shared_aliases : list (pyval * list pyval)) (coordinate : WorkerCoordinate)
    (pp_degree dp_rank : pyval) : result pystr :=
  layers ← mapM_result (λ v, match as_str v with
                             | Some s => if nonempty s then Ok s
                                         else raise ValueError "owned layer names must be non-empty strings"
                             | None => raise ValueError "owned layer names must be non-empty strings"
                             end) layer_names;
  _ ← raise_if (negb (bool_decide (NoDup layers))) ValueError "owned layer names must be unique";
  pp ← need_int pp_degree (λ z, z <=? 0) ValueError "pipeline-parallel degree must be positive";
  dp ← need_int dp_rank (λ z, z <? 0) ValueError "data-parallel rank must be non-negative";
  aliases ← shared_aliases_ok layers [] shared_aliases;
  sha256_json (JObj (
    [(lit "layers", JArr (JStr <$> layers)); (lit "pp", JInt pp); (lit "dp_rank", JInt dp)]
    ++ (if bool_decide (aliases = []) then []
        else [(lit "shared_layer_aliases",
               JArr ((λ a, JArr [JStr a.1; JArr (JStr <$> a.2)]) <$> aliases))])
    ++ (if pp <=? 1 then []
        else [(lit "worker_coordinate",
               JObj [(lit "global_rank", JInt (global_rank coordinate));
                     (lit "pp_rank", JInt (pp_rank coordinate));
                     (lit "tp_rank", JInt (tp_rank coordinate));
                     (lit "dcp_rank", JInt (dcp_rank coordinate))])]))).
End digests.

(** ** What a digest binds *)
Lemma as_int_json v w z : as_int v = Some z → json_of v = json_of w → (∃ z', as_int w = Some z') → v = w.
Proof. intros Hv%as_int_Some Hj [z' Hw%as_int_Some]. subst. cbn in Hj. by injection Hj as ->. Qed.

(** The values of a valid topology are integers. *)
Definition int_values (t : list (pystr * pyval)) : Prop := Forall (λ p, ∃ z, p.2 = VInt z) t.

Lemma deployment_post_init_Ok d :
  NoDup (dep_topology d).*1 → deployment_post_init d = Ok tt →
  int_values (dep_topology d) ∧ ∃ c, dep_chunk_tokens d = VInt c ∧ 0 < c.
Proof.
  unfold deployment_post_init. intros Hnd Hi. cbv zeta in Hi. inv_ok.
  repeat match goal with E : need_int _ _ _ _ = _ |- _ => apply need_int_Ok in E as [? ?] end.
  bsimp. split; [|eexists; split; [done|]; lia].
  match goal with E : forallb _ (dep_topology d) = true |- _ => rename E into Hall end.
  match goal with E : default VNone _ = VInt ?z |- _ => rename E into Hdp end.
  apply Forall_forall. intros [k v] Hin.
  assert (Hk := proj1 (forallb_forall _ _) Hall (k, v) (proj1 (list_elem_of_In _ _) Hin)).
  cbn in Hk |- *. apply orb_true_iff in Hk as [Hk|Hk].
  - apply bool_decide_eq_true in Hk as ->. apply od_get_elem in Hin; [|done].
    rewrite Hin in Hdp. cbn in Hdp. eauto.
  - destruct (as_int v) as [z|] eqn:E; [|done]. apply as_int_Some in E as ->. eauto.
Qed.

(** The same deployment: every field equal, the topology as a mapping. *)
Definition same_deployment (a b : DeploymentIdentity) : Prop :=
  dep_schema a = dep_schema b ∧ dep_profile a = dep_profile b ∧
  dep_model_namespace_sha256 a = dep_model_namespace_sha256 b ∧
  dep_model_config_sha256 a = dep_model_config_sha256 b ∧
  dep_execution_config_sha256 a = dep_execution_config_sha256 b ∧
  dep_vllm_version a = dep_vllm_version b ∧
  dep_vllm_build_sha256 a = dep_vllm_build_sha256 b ∧
  dep_kv_cache_dtype a = dep_kv_cache_dtype b ∧
  dep_topology a ≡ₚ dep_topology b ∧
  dep_layout_sha256 a = dep_layout_sha256 b ∧
  dep_chunk_tokens a = dep_chunk_tokens b ∧
  dep_spoolcache_version a = dep_spoolcache_version b ∧
  dep_publication_policy a = dep_publication_policy b.

Lemma topology_canon t u :
  int_values t → int_values u →
  canon (JObj (map (λ p, (p.1, json_of p.2)) t)) = canon (JObj (map (λ p, (p.1, json_of p.2)) u)) →
  t ≡ₚ u.
Proof.
  intros Ht Hu Hc%canon_obj_perm. rewrite !map_map in Hc. cbn in Hc.
  assert (Hinv : ∀ t, int_values t →
    map (λ p : pystr * json, (p.1, match p.2 with JInt z => VInt z | _ => VNone end))
      (map (λ p, (p.1, canon (json_of p.2))) t) = t).
  { induction 1 as [|[k v] l [z Hz] Hl IH]; [done|]. cbn in *. subst v. by rewrite IH. }
  rewrite <-(Hinv t Ht), <-(Hinv u Hu). by apply (Permutation_map (λ p : pystr * json, (p.1, match p.2 with JInt z => VInt z | _ => VNone end))).
Qed.

(** C39: a deployment digest binds the deployment: two valid identities with the same
    digest agree on every field (the topology as a mapping), or their canonical
    encodings are a SHA-256 collision. *)
Theorem deployment_digest_binding `{Sha} a b digest :
  NoDup (dep_topology a).*1 → NoDup (dep_topology b).*1 →
  deployment_post_init a = Ok tt → deployment_post_init b = Ok tt →
  deployment_digest a = Ok digest → deployment_digest b = Ok digest →
  same_deployment a b ∨
  ∃ x y, canonical_json (deployment_dict a) = Ok x ∧ canonical_json (deployment_dict b) = Ok y ∧
    collision [x; y].
Proof.
  intros Ha Hb Hia Hib Hda Hdb.
  destruct (deployment_post_init_Ok a Ha Hia) as (Hta & ca & Hca & _).
  destruct (deployment_post_init_Ok b Hb Hib) as (Htb & cb & Hcb & _).
  destruct (sha256_json_inj _ _ _ Hda Hdb) as (x & y & Hx & Hy & [Hc|Hc]); [left|right; eauto].
  unfold deployment_dict in Hc. apply canon_obj_inj in Hc; [|apply (bool_decide_eq_true_1 _); by vm_compute|done].
  assert (Hi : ∀ i, nth i (map (λ p, canon p.2) _) JNull = nth i _ JNull)
    by (intros i; exact (f_equal (λ l, nth i l JNull) Hc)). clear Hc.
  unfold same_deployment. repeat split;
    [injection (Hi 0%nat)|injection (Hi 1%nat)|injection (Hi 2%nat)|injection (Hi 3%nat)
    |injection (Hi 4%nat)|injection (Hi 5%nat)|injection (Hi 6%nat)|injection (Hi 7%nat)
    |apply topology_canon; [done|done|exact (Hi 8%nat)]
    |injection (Hi 9%nat)|rewrite Hca, Hcb; pose proof (Hi 10%nat) as Hk; cbn in Hk; rewrite Hca, Hcb in Hk;
     injection Hk|injection (Hi 11%nat)|injection (Hi 12%nat)]; congruence.
Qed.

(** A rank digest binds the deployment digest, the physical rank and the two
    layout digests, up to a SHA-256 collision. *)
Theorem rank_digest_binding `{Sha} a b digest :
  rank_post_init a = Ok tt → rank_post_init b = Ok tt →
  rank_digest a = Ok digest → rank_digest b = Ok digest →
  a = b ∨
  ∃ x y, canonical_json (rank_dict a) = Ok x ∧ canonical_json (rank_dict b) = Ok y ∧
    collision [x; y].
Proof.
  intros Hia Hib Hda Hdb.
  assert (Hint : ∀ r, rank_post_init r = Ok tt → ∃ z, rk_physical_rank r = VInt z).
  { intros r Hr. unfold rank_post_init in Hr. inv_ok.
    eauto. }
  destruct (Hint a Hia) as [za Hza], (Hint b Hib) as [zb Hzb].
  destruct (sha256_json_inj _ _ _ Hda Hdb) as (x & y & Hx & Hy & [Hc|Hc]); [left|right; eauto].
  unfold rank_dict in Hc. apply canon_obj_inj in Hc; [|apply (bool_decide_eq_true_1 _); by vm_compute|done].
  destruct a as [a1 a2 a3 a4], b as [b1 b2 b3 b4]; cbn in *. subst. by injection Hc as -> -> -> ->.
Qed.

(** ** Witnesses: one deployment, its topology given in two orders *)
Module IdentityExamples.
#[local] Existing Instance sha256_fips.

Definition d0 : pystr := replicate 64 97.
Definition topology0 : list (pystr * pyval) :=
  [(lit "tp", VInt 4); (lit "pp", VInt 2); (lit "dcp", VInt 2); (lit "dp", VInt 1);
   (lit "dp_rank", VInt 0); (lit "world_size", VInt 8); (lit "world_size_across_dp", VInt 8)].
Definition deploy (t : list (pystr * pyval)) : DeploymentIdentity :=
  Deployment (lit "spoolcache-deployment/v2") (lit "vllm-runtime-kv-v1") d0 d0 d0 (lit "0.11")
    d0 (lit "auto") t d0 (VInt 256) (lit "0.1") (lit "prompt-snapshot-v1").
Definition a : DeploymentIdentity := deploy topology0.
Definition b : DeploymentIdentity := deploy (reverse topology0).
Definition the_digest : pystr := match deployment_digest a with Ok s => s | Raise _ => [] end.

Lemma deployment_digest_binding_witness :
  same_deployment a b ∨
  ∃ x y, canonical_json (deployment_dict a) = Ok x ∧ canonical_json (deployment_dict b) = Ok y ∧
    collision [x; y].
Proof.
  apply (deployment_digest_binding a b the_digest);
    first [apply (bool_decide_eq_true_1 _); vm_compute; reflexivity | vm_compute; reflexivity].
Defined.

Definition r0 : RankIdentity := Rank d0 (VInt 3) d0 d0.
Lemma rank_digest_binding_witness :
  r0 = r0 ∨
  ∃ x y, canonical_json (rank_dict r0) = Ok x ∧ canonical_json (rank_dict r0) = Ok y ∧
    collision [x; y].
Proof.
  apply (rank_digest_binding r0 r0 (match rank_digest r0 with Ok s => s | Raise _ => [] end));
    vm_compute; reflexivity.
Defined.
End IdentityExamples.
