(* ===== verification/Runtime.v ===== *)
(** * The contract of the serving runtime (src/spoolcache/vllm/compat.py)

    [signature] is [inspect.Signature]: a list of parameters; [bind] is its [bind] and
    [bind_partial], as of Python 3.11.  The classes of the runtime are what [getattr] and
    [inspect] answer about them, and the installed package is what the operating system
    answers while it is read: both are inputs of the checks. *)
From S2P Require Import Prelude Dict Bytes Utf8 Json Identity.

(** ** Signatures *)
Inductive pkind := POSITIONAL_ONLY | POSITIONAL_OR_KEYWORD | VAR_POSITIONAL | KEYWORD_ONLY | VAR_KEYWORD.
#[export] Instance pkind_eq_dec : EqDecision pkind.
Proof. solve_decision. Defined.

(** [p_default]: [parameter.default is not inspect.Parameter.empty]. *)
Record parameter := Param { p_name : pystr; p_kind : pkind; p_default : bool }.
#[export] Instance parameter_eq_dec : EqDecision parameter.
Proof. solve_decision. Defined.

Abbreviation signature := (list parameter).

Definition of_kind (k : pkind) (p : parameter) : Prop := p_kind p = k.
#[export] Instance of_kind_dec k p : Decision (of_kind k p).
Proof. unfold of_kind. apply _. Defined.
#[global] Typeclasses Opaque of_kind.
Definition has_kind (k : pkind) (sig : signature) : bool := existsb (λ p, bool_decide (p_kind p = k)) sig.

(** [kind in {POSITIONAL_ONLY, POSITIONAL_OR_KEYWORD}] *)
Definition takes_position (p : parameter) : Prop :=
  p_kind p = POSITIONAL_ONLY ∨ p_kind p = POSITIONAL_OR_KEYWORD.
#[export] Instance takes_position_dec p : Decision (takes_position p).
Proof. unfold takes_position. apply _. Defined.
#[global] Typeclasses Opaque takes_position.

Section bind.
Context {V : Type}.

(** A value of [BoundArguments.arguments]: of a plain parameter, of the variadic
    positional one, of the variadic keyword one. *)
Inductive bound := One (v : V) | Rest (vs : list V) | Keywords (kw : list (pystr * V)).
Definition arguments : Type := list (pystr * bound).

(** The first loop: the positional arguments, and the parameters left to the second. *)
Fixpoint bind_args (partial : bool) (kw : list pystr) (ps : list parameter) (args : list V)
    : result (arguments * list parameter) :=
  match args, ps with
  | [], [] => Ok ([], [])
  | [], p :: rest =>
      if decide (p_kind p = VAR_POSITIONAL) then Ok ([], rest)
      else if decide (p_name p ∈ kw) then
        if decide (p_kind p = POSITIONAL_ONLY)
        then raise TypeError "parameter is positional only, but was passed as a keyword"
        else Ok ([], ps)
      else if bool_decide (p_kind p = VAR_KEYWORD) || p_default p || partial then Ok ([], ps)
      else raise TypeError "missing a required argument"
  | _ :: _, [] => raise TypeError "too many positional arguments"
  | a :: more, p :: rest =>
      match p_kind p with
      | VAR_KEYWORD | KEYWORD_ONLY => raise TypeError "too many positional arguments"
      | VAR_POSITIONAL => Ok ([(p_name p, Rest args)], rest)
      | k =>
          if decide (p_name p ∈ kw ∧ k ≠ POSITIONAL_ONLY) then raise TypeError "multiple values for argument"
          else r ← bind_args partial kw rest more; Ok ((p_name p, One a) :: r.1, r.2)
      end
  end.

(** The second loop: the keyword arguments, those left over, and the variadic parameter. *)
Fixpoint bind_keywords (partial : bool) (ps : list parameter) (kw : list (pystr * V))
    : result (arguments * list (pystr * V) * option parameter) :=
  match ps with
  | [] => Ok ([], kw, None)
  | p :: ps =>
      match p_kind p with
      | VAR_KEYWORD => r ← bind_keywords partial ps kw; Ok (r.1, Some (default p r.2))
      | VAR_POSITIONAL => bind_keywords partial ps kw
      | k =>
          match od_get (p_name p) kw with
          | Some v =>
              if decide (k = POSITIONAL_ONLY)
              then raise TypeError "parameter is positional only, but was passed as a keyword"
              else r ← bind_keywords partial ps (od_pop (p_name p) kw); Ok ((p_name p, One v) :: r.1.1, r.1.2, r.2)
          | None =>
              if negb partial && negb (p_default p) then raise TypeError "missing a required argument"
              else bind_keywords partial ps kw
          end
      end
  end.

Definition bind (partial : bool) (sig : signature) (args : list V) (kw : list (pystr * V)) : result arguments :=
  b ← bind_args partial kw.*1 sig args;
  r ← bind_keywords partial b.2 kw;
  match r.1.2, r.2 with
  | [], _ => Ok (b.1 ++ r.1.1)
  | extra, Some p => Ok (b.1 ++ r.1.1 ++ [(p_name p, Keywords extra)])
  | _, None => raise TypeError "got an unexpected keyword argument"
  end.
End bind.
Arguments bound : clear implicits.
Arguments arguments : clear implicits.

(** ** Call shapes

    The values are [object()]s, told apart by a number. *)
Abbreviation obj := nat.
Definition call : Type := list obj * list (pystr * obj).

(** The loops below, over the next fresh object and the call so far. *)
Definition call_shape (step : nat → parameter → call → nat * call) (sig : signature) : call :=
  (foldl (λ s p, step s.1 p s.2) (0%nat, ([], [])) sig).2.

Definition add_arg (v : obj) (c : call) : call := (c.1 ++ [v], c.2).
Definition add_keyword (name : pystr) (v : obj) (c : call) : call := (c.1, od_set name v c.2).
Definition future_keyword : pystr := lit "__spoolcache_future_keyword__".

Definition minimum_step (n : nat) (p : parameter) (c : call) : nat * call :=
  if p_default p then (n, c)
  else match p_kind p with
       | POSITIONAL_ONLY | POSITIONAL_OR_KEYWORD => (S n, add_arg n c)
       | KEYWORD_ONLY => (S n, add_keyword (p_name p) n c)
       | _ => (S n, c)
       end.
Definition _minimum_call_shape : signature → call := call_shape minimum_step.

Definition maximal_positional_step (n : nat) (p : parameter) (c : call) : nat * call :=
  match p_kind p with
  | POSITIONAL_ONLY | POSITIONAL_OR_KEYWORD => (S n, add_arg n c)
  | KEYWORD_ONLY => (S n, add_keyword (p_name p) n c)
  | VAR_POSITIONAL => (3 + n, add_arg (2 + n) (add_arg (1 + n) c))%nat
  | VAR_KEYWORD => (2 + n, add_keyword future_keyword (1 + n) c)%nat
  end.
Definition _maximal_positional_call_shape : signature → call := call_shape maximal_positional_step.

Definition maximal_keyword_step (n : nat) (p : parameter) (c : call) : nat * call :=
  match p_kind p with
  | POSITIONAL_ONLY => (S n, add_arg n c)
  | POSITIONAL_OR_KEYWORD | KEYWORD_ONLY => (S n, add_keyword (p_name p) n c)
  | VAR_POSITIONAL => (S n, c)
  | VAR_KEYWORD => (2 + n, add_keyword future_keyword (1 + n) c)%nat
  end.
Definition _maximal_keyword_call_shape : signature → call := call_shape maximal_keyword_step.

(** ** The checks of one callable *)

(** What [inspect.signature] answers: [None] when it raises. *)
Abbreviation callable := (option signature).

Definition _inspect_signature (c : callable) : result signature :=
  match c with
  | Some sig => Ok sig
  | None => raise UnsupportedRuntimeError "cannot inspect a callable"
  end.

Definition variadic_tail (variadic_keyword : option pystr) (extension : list parameter) : result (list parameter) :=
  match variadic_keyword with
  | None => Ok extension
  | Some name =>
      match last extension with
      | Some p =>
          if decide (p_name p = name ∧ p_kind p = VAR_KEYWORD) then Ok (removelast extension)
          else raise UnsupportedRuntimeError "contract differs"
      | None => raise UnsupportedRuntimeError "contract differs"
      end
  end.

Definition _accepts_required_prefix (c : callable) (required : list pystr) (variadic_keyword : option pystr)
    : result (list pystr) :=
  parameters ← _inspect_signature c;
  let names := p_name <$> parameters in
  let n := length required in
  _ ← raise_if (negb (bool_decide (take n names = required))
                || negb (forallb (λ p, bool_decide (p_kind p = POSITIONAL_OR_KEYWORD)) (take n parameters)))
        UnsupportedRuntimeError "contract differs";
  extension ← variadic_tail variadic_keyword (drop n parameters);
  _ ← raise_if (existsb (λ p, negb (bool_decide (p_kind p = VAR_POSITIONAL)) && negb (bool_decide (p_kind p = VAR_KEYWORD))
                              && negb (p_default p)) extension)
        UnsupportedRuntimeError "adds a required parameter";
  Ok names.

(** [try: signature.bind(...) except TypeError] *)
Definition binds (sig : signature) (c : call) (k : exn_kind) (msg : string) : result unit :=
  match bind false sig c.1 c.2 with Ok _ => Ok tt | Raise _ => raise k msg end.

Definition try_shape (base override : signature) (c : call) : result unit :=
  _ ← binds base c AssertionError "generated an invalid base call shape";
  binds override c UnsupportedRuntimeError "override cannot accept vLLM call shape".

(** Where the override puts the object: the first argument that is it or holds it. *)
Definition holds_marker (marker : obj) (b : bound obj) : bool :=
  match b with One v => bool_decide (v = marker) | Rest vs => bool_decide (marker ∈ vs) | Keywords _ => false end.

Fixpoint destination (marker : obj) (items : list (pystr * bound obj)) : option pystr :=
  match items with
  | [] => None
  | (name, bound_value) :: items => if holds_marker marker bound_value then Some name else destination marker items
  end.

(** One turn of the loop over the positional parameters of the base. *)
Definition same_position (override : signature) (base_bound override_bound : arguments obj) (p : parameter) : result unit :=
  match od_get (p_name p) base_bound with
  | Some (One marker) =>
      match destination marker override_bound with
      | None => raise AssertionError "override binding lost a positional argument"
      | Some name =>
          match od_get name ((λ q, (p_name q, q)) <$> override) with
          | None => raise KeyError "destination"
          | Some q => raise_if (negb (bool_decide (name = p_name p)) && negb (bool_decide (p_kind q = VAR_POSITIONAL)))
                        UnsupportedRuntimeError "override reorders vLLM positional parameters"
          end
      end
  | _ => raise KeyError "parameter"
  end.

Definition _assert_override_substitutable (base override : callable) : result unit :=
  base ← _inspect_signature base;
  override ← _inspect_signature override;
  _ ← raise_if (has_kind VAR_POSITIONAL base && negb (has_kind VAR_POSITIONAL override))
        UnsupportedRuntimeError "override cannot accept vLLM call shape (*args)";
  _ ← raise_if (has_kind VAR_KEYWORD base && negb (has_kind VAR_KEYWORD override))
        UnsupportedRuntimeError "override cannot accept vLLM call shape (**kwargs)";
  _ ← mapM_result (try_shape base override)
        [_minimum_call_shape base; _maximal_positional_call_shape base; _maximal_keyword_call_shape base];
  let positional_parameters := filter takes_position base in
  let markers := seq 0 (length positional_parameters) in
  base_bound ← bind true base markers [];
  override_bound ← bind true override markers [];
  _ ← mapM_result (same_position override base_bound override_bound) positional_parameters;
  Ok tt.

(** ** The runtime's classes *)

(** [getattr(object, name, None)]: the value is callable or not, and has a signature. *)
Inductive attribute := Missing | Attribute (is_callable : bool) (sig : callable).

Definition is_callable (a : attribute) : bool := match a with Attribute c _ => c | Missing => false end.
Definition signature_of (a : attribute) : callable := match a with Attribute _ s => s | Missing => None end.

(** [connector_base.__init__] always exists. *)
Record pyclass := PyClass { cl_init : callable; cl_attr : pystr → attribute }.

Definition contract : Type := list pystr * option pystr.

Definition _CONNECTOR_HOOK_CONTRACTS : list (pystr * contract) :=
  let row name (required : list string) (variadic : option string) :=
    (lit name, (lit <$> required, lit <$> variadic)) in
  [row "register_kv_caches" ["self"; "kv_caches"] None;
   row "start_load_kv" ["self"; "forward_context"] (Some "kwargs");
   row "wait_for_layer_load" ["self"; "layer_name"] None;
   row "save_kv_layer" ["self"; "layer_name"; "kv_layer"; "attn_metadata"] (Some "kwargs");
   row "wait_for_save" ["self"] None;
   row "get_num_new_matched_tokens" ["self"; "request"; "num_computed_tokens"] None;
   row "on_new_request" ["self"; "request"] None;
   row "update_state_after_alloc" ["self"; "request"; "blocks"; "num_external_tokens"] None;
   row "build_connector_meta" ["self"; "scheduler_output"] None;
   row "get_finished" ["self"; "finished_req_ids"] None;
   row "get_block_ids_with_load_errors" ["self"] None;
   row "get_kv_connector_stats" ["self"] None;
   row "build_kv_connector_stats" ["data"] None;
   row "build_prom_metrics" ["vllm_config"; "metric_types"; "labelnames"; "per_engine_labelvalues"] None;
   row "update_connector_output" ["self"; "connector_output"] None;
   row "get_handshake_metadata" ["self"] None;
   row "set_xfer_handshake_metadata" ["self"; "metadata"] None;
   row "shutdown" ["self"] None]%string.

Definition pp_aware_name : pystr := lit "set_xfer_handshake_metadata_pp_aware".
Definition _PP_AWARE_HANDSHAKE_CONTRACT : list (pystr * contract) :=
  [(pp_aware_name, ([lit "self"; lit "metadata"], None))].

(** [resolver] is the argument, or what the public module has under that name. *)
Definition _verify_spec_kind_resolver (resolver : attribute) : result unit :=
  match resolver with
  | Missing => raise UnsupportedRuntimeError "vLLM lacks the public KV cache semantic-kind resolver"
  | Attribute callable sig =>
      _ ← raise_if (negb callable) UnsupportedRuntimeError "vLLM KV cache semantic-kind resolver is not callable";
      signature ← _inspect_signature sig;
      binds signature ([0%nat], []) UnsupportedRuntimeError
        "vLLM KV cache semantic-kind resolver cannot accept one cache spec"
  end.

Definition check_hook (base connector : pyclass) (hook : pystr * contract) : result unit :=
  let '(name, (required, variadic_keyword)) := hook in
  let base_hook := signature_of (cl_attr base name) in
  _ ← _accepts_required_prefix base_hook required variadic_keyword;
  _assert_override_substitutable base_hook (signature_of (cl_attr connector name)).

(** The table of hooks, completed when the base offers the PP-aware handshake. *)
Definition hook_contracts (base : pyclass) : list (pystr * contract) :=
  if is_callable (cl_attr base pp_aware_name)
  then foldl (λ d p, od_set p.1 p.2 d) _CONNECTOR_HOOK_CONTRACTS _PP_AWARE_HANDSHAKE_CONTRACT
  else _CONNECTOR_HOOK_CONTRACTS.

Definition check_hooks (base connector : pyclass) (require_pp_aware : bool) : result unit :=
  let contracts := hook_contracts base in
  _ ← raise_if (require_pp_aware && negb (is_callable (cl_attr base pp_aware_name)))
        UnsupportedRuntimeError "vLLM connector API lacks the PP-aware handshake hook";
  _ ← raise_if (existsb (λ h, negb (is_callable (cl_attr base h.1))) contracts)
        UnsupportedRuntimeError "vLLM connector API is missing hooks";
  _ ← raise_if (existsb (λ h, negb (is_callable (cl_attr connector h.1))) contracts)
        UnsupportedRuntimeError "SpoolCache connector is missing hooks";
  _ ← mapM_result (check_hook base connector) contracts;
  Ok tt.

(** The constructor and the completion hook of [SupportsHMA]: their parameter names. *)
Definition check_constructor (base connector : pyclass) : result (list pystr) :=
  names ← _accepts_required_prefix (cl_init base)
            [lit "self"; lit "vllm_config"; lit "role"; lit "kv_cache_config"] None;
  _ ← _assert_override_substitutable (cl_init base) (cl_init connector);
  Ok names.

Definition completion_name : pystr := lit "request_finished_all_groups".

Definition check_completion (supports_hma connector : pyclass) : result (list pystr) :=
  match cl_attr supports_hma completion_name with
  | Missing => raise AttributeError "request_finished_all_groups"
  | Attribute _ sig =>
      names ← _accepts_required_prefix sig [lit "self"; lit "request"; lit "block_ids"] None;
      let hma_override := cl_attr connector completion_name in
      _ ← raise_if (negb (is_callable hma_override)) UnsupportedRuntimeError
            "SpoolCache connector is missing request_finished_all_groups";
      _ ← _assert_override_substitutable sig (signature_of hma_override);
      Ok names
  end.

(** ** The installed package *)

(** The fields of [os.stat_result] that are compared. *)
Record stat := Stat { st_dev : Z; st_ino : Z; st_size : Z; st_mtime_ns : Z }.
#[export] Instance stat_eq_dec : EqDecision stat.
Proof. solve_decision. Defined.

(** An entry that [rglob] yields: the parts of its path below the root. *)
Record entry := Entry { en_parts : list pystr; en_is_file : bool }.

(** What opening and reading one file answers; [None] is [OSError], of [open] and the
    first [fstat], then of the reads and the second [fstat]. *)
Definition file_view : Type := option (stat * option (list byte * stat)).

(** What the system answers about one root while it is hashed: the listings before and
    after ([None]: [OSError]), and each file. *)
Record root_view := RootView {
  rv_before : option (list entry);
  rv_after : option (list entry);
  rv_read : pystr → file_view
}.

Definition as_posix (parts : list pystr) : pystr := join 47 parts.

(** [PurePath.suffix] of the last part *)
Fixpoint rfind (c : Z) (s : pystr) : option nat :=
  match s with
  | [] => None
  | x :: s => match rfind c s with
              | Some i => Some (S i)
              | None => if x =? c then Some 0%nat else None
              end
  end.
Definition suffix (parts : list pystr) : pystr :=
  let name := default [] (last parts) in
  match rfind 46 name with
  | Some i => if bool_decide (0 < i < length name - 1)%nat then drop i name else []
  | None => []
  end.

Definition _IGNORED_PACKAGE_PARTS : list pystr := [lit ".git"; lit "__pycache__"].
Definition _IGNORED_PACKAGE_SUFFIXES : list pystr := [lit ".pyc"; lit ".pyo"].

Definition package_file (e : entry) : Prop :=
  en_is_file e = true ∧ (Forall (λ p, p ∉ _IGNORED_PACKAGE_PARTS) (en_parts e)) ∧
  suffix (en_parts e) ∉ _IGNORED_PACKAGE_SUFFIXES.
#[export] Instance package_file_dec e : Decision (package_file e).
Proof. unfold package_file. apply _. Defined.

(** The names of the files, sorted: paths below a root are told apart by them. *)
Definition _package_files (listing : option (list entry)) : result (list pystr) :=
  match listing with
  | None => raise UnsupportedRuntimeError "cannot enumerate vLLM package content"
  | Some entries => Ok (py_sorted_keys (as_posix ∘ en_parts <$> filter package_file entries))
  end.

(** [z.to_bytes(n, "big")] *)
Definition to_bytes_big (n : nat) (z : Z) : result (list byte) :=
  if (0 <=? z) && (z <? 256 ^ Z.of_nat n) then Ok (reverse (le_pack n z))
  else raise OverflowError "int too big to convert".

(** What one file adds to the digest. *)
Definition hash_file (read : pystr → file_view) (name : pystr) : result (list byte) :=
  match read name with
  | None => raise UnsupportedRuntimeError "cannot read vLLM package content"
  | Some (before, rest) =>
      relative_name ← encode_utf8 name;
      size ← to_bytes_big 8 (st_size before);
      match rest with
      | None => raise UnsupportedRuntimeError "cannot read vLLM package content"
      | Some (content, after) =>
          _ ← raise_if (negb (bool_decide (before = after))) UnsupportedRuntimeError
                "vLLM package content changed while hashing";
          Ok (relative_name ++ x00 :: size ++ content)
      end
  end.

Definition hash_root (root_index : Z) (v : root_view) : result (list byte * nat) :=
  before_names ← _package_files (rv_before v);
  index ← to_bytes_big 4 root_index;
  files ← mapM_result (hash_file (rv_read v)) before_names;
  after_names ← _package_files (rv_after v);
  _ ← raise_if (negb (bool_decide (before_names = after_names))) UnsupportedRuntimeError
        "vLLM package file set changed while hashing";
  Ok (index ++ concat files, length before_names).

Definition package_magic : list byte :=
  (z_to_byte <$> lit "spoolcache:vllm-installed-package:v1") ++ [x00].

(** The bytes that are hashed, and [total_files]. *)
Definition package_stream (roots : list root_view) : result (list byte * nat) :=
  parts ← mapM_result (λ p, hash_root p.1 p.2) (zip (seqZ 0 (Z.of_nat (length roots))) roots);
  Ok (package_magic ++ concat parts.*1, sum_list parts.*2).

Definition _installed_package_sha256 `{Sha} (roots : list root_view) : result pystr :=
  s ← package_stream roots;
  _ ← raise_if (bool_decide (s.2 = 0%nat)) UnsupportedRuntimeError "vLLM package root contains no stable files";
  Ok (sha256_hex s.1).

(** [_package_roots]: [resolve] is [Path(os.fspath(raw)).resolve(strict=True)]. *)
Section roots.
Context (resolve : pystr → option pystr) (is_dir : pystr → bool) (parent : pystr → pystr).

Fixpoint resolve_roots (raw : list pystr) (roots : list pystr) : result (list pystr) :=
  match raw with
  | [] => Ok roots
  | r :: raw =>
      match resolve r with
      | None => raise UnsupportedRuntimeError "vLLM package root is unreadable"
      | Some root =>
          _ ← raise_if (negb (is_dir root)) UnsupportedRuntimeError "vLLM package root is not a directory";
          resolve_roots raw (if decide (root ∈ roots) then roots else roots ++ [root])
      end
  end.

(** [module_path] and [module_file] are the module's [__path__] and [__file__]. *)
Definition _package_roots (supplied : option (list pystr)) (module_path : list pystr) (module_file : option pystr)
    : result (list pystr) :=
  let raw := match supplied, module_path, module_file with
             | Some roots, _, _ => roots
             | None, _ :: _, _ => module_path
             | None, [], Some file => if nonempty file then [parent file] else []
             | None, [], None => []
             end in
  roots ← resolve_roots raw [];
  _ ← raise_if (bool_decide (roots = [])) UnsupportedRuntimeError "cannot locate a vLLM package root";
  Ok roots.
End roots.

(** ** The receipt *)
Record RuntimeReceipt := Receipt {
  vllm_version : pystr;
  vllm_build_sha256 : pystr;
  build_fingerprint_kind : pystr;
  compatibility_mode : pystr;
  connector_constructor : list pystr;
  supports_hma_parameters : list pystr;
  capabilities : list pystr
}.

(** [sha256_json(asdict(self))] *)
Definition receipt_digest `{Sha} (r : RuntimeReceipt) : result pystr :=
  let names l := JArr (JStr <$> l) in
  sha256_json (JObj [
    (lit "vllm_version", JStr (vllm_version r)); (lit "vllm_build_sha256", JStr (vllm_build_sha256 r));
    (lit "build_fingerprint_kind", JStr (build_fingerprint_kind r)); (lit "compatibility_mode", JStr (compatibility_mode r));
    (lit "connector_constructor", names (connector_constructor r));
    (lit "supports_hma_parameters", names (supports_hma_parameters r)); (lit "capabilities", names (capabilities r))]).

(** The arguments of [verify_vllm_runtime], after its imports, and what the system answers
    about the package. *)
Record runtime := Runtime {
  rt_base : pyclass;
  rt_connector : option (pyclass * bool);  (* with [inspect.isabstract] *)
  rt_hma : pyclass;
  rt_resolver : attribute;
  rt_require_pp_aware : pyval;
  rt_version : pyval;                      (* [__version__] of the module *)
  rt_distribution : option pystr;          (* [importlib.metadata.version] *)
  rt_roots : result (list pystr);          (* of [_package_roots] *)
  rt_view : pystr → root_view
}.

Definition detected_version (r : runtime) : result pystr :=
  match rt_version r, rt_distribution r with
  | VStr (_ :: _ as version), _ => Ok version
  | _, Some version => Ok version
  | _, None => raise UnsupportedRuntimeError "cannot determine the vLLM version"
  end.

Definition verify_vllm_runtime `{Sha} (r : runtime) : result RuntimeReceipt :=
  match rt_connector r with
  | None => raise UnsupportedRuntimeError "SpoolCache connector type is required for override verification"
  | Some (connector, abstract) =>
      match rt_require_pp_aware r with
      | VBool require_pp_aware =>
          _ ← raise_if abstract UnsupportedRuntimeError "SpoolCache connector does not implement vLLM abstract hooks";
          _ ← _verify_spec_kind_resolver (rt_resolver r);
          detected ← detected_version r;
          constructor ← check_constructor (rt_base r) connector;
          hma_parameters ← check_completion (rt_hma r) connector;
          _ ← check_hooks (rt_base r) connector require_pp_aware;
          roots ← rt_roots r;
          build_sha256 ← _installed_package_sha256 (rt_view r <$> roots);
          Ok (Receipt detected build_sha256 (lit "installed-package-content-sha256") (lit "automatic-contract")
                constructor hma_parameters
                (py_sorted_keys ((hook_contracts (rt_base r)).*1 ++ [lit "get_kv_cache_spec_kind"])))
      | _ => raise UnsupportedRuntimeError "PP-aware compatibility request is invalid"
      end
  end.

(** ** The allocator's environment *)

(** [str.split] and [str.partition] on one character *)
Fixpoint split_on (c : Z) (s : pystr) : list pystr :=
  match s with
  | [] => [[]]
  | x :: s => if x =? c then [] :: split_on c s
              else match split_on c s with h :: t => (x :: h) :: t | [] => [[x]] end
  end.
Fixpoint partition_on (c : Z) (s : pystr) : pystr * option pystr :=
  match s with
  | [] => ([], None)
  | x :: s => if x =? c then ([], Some s) else let r := partition_on c s in (x :: r.1, r.2)
  end.

(** [str.isspace] of a character, and [str.strip] *)
Definition is_space (c : Z) : bool :=
  ((9 <=? c) && (c <=? 13)) || ((28 <=? c) && (c <=? 32)) || bool_decide (c ∈ [133; 160; 5760; 8232; 8233; 8239; 8287; 12288])
  || ((8192 <=? c) && (c <=? 8202)).
Fixpoint lstrip (s : pystr) : pystr :=
  match s with [] => [] | c :: s' => if is_space c then lstrip s' else s end.
Definition strip (s : pystr) : pystr := reverse (lstrip (reverse (lstrip s))).

(** [str.lower], on the characters whose lower case can be one of a setting's: the ASCII
    letters.  (Of the others only U+212A has an ASCII lower case, and no setting has a k.) *)
Definition lower (s : pystr) : pystr := (λ c, if (65 <=? c) && (c <=? 90) then c + 32 else c) <$> s.

Definition enables_expandable (setting : pystr) : bool :=
  match partition_on 58 setting with
  | (key, Some raw_value) =>
      bool_decide (lower (strip key) = lit "expandable_segments")
      && bool_decide (lower (strip raw_value) ∈ [lit "1"; lit "true"; lit "yes"; lit "on"])
  | (_, None) => false
  end.

Definition expandable_segments_enabled (values : list (pystr * pystr)) : bool :=
  existsb (λ variable, existsb enables_expandable (split_on 44 (default [] (od_get (lit variable) values))))
    ["PYTORCH_ALLOC_CONF"; "PYTORCH_CUDA_ALLOC_CONF"]%string.

Definition require_qualified_allocator (values : list (pystr * pystr)) : result unit :=
  raise_if (expandable_segments_enabled values) UnsupportedRuntimeError
    "SpoolCache GPU access is incompatible with expandable_segments:True".
