(* ===== verification/RuntimeProps.v ===== *)
(** * What a verified runtime promises

    Which calls a signature accepts; an override that passes the check accepts the calls
    of its base; a fingerprint of the installed package binds its files. *)
From S2P Require Import Prelude Dict Bytes Utf8 Json Identity Runtime.

(** ** Signatures

    What the constructor of [inspect.Signature] ensures of a list of parameters. *)
Record signature_ok (sig : signature) : Prop := {
  so_names : NoDup (p_name <$> sig);
  so_order : sig = filter takes_position sig ++ filter (of_kind VAR_POSITIONAL) sig
                   ++ filter (of_kind KEYWORD_ONLY) sig ++ filter (of_kind VAR_KEYWORD) sig;
  so_positional : filter takes_position sig = filter (of_kind POSITIONAL_ONLY) sig ++ filter (of_kind POSITIONAL_OR_KEYWORD) sig;
  so_variadic : (length (filter (of_kind VAR_POSITIONAL) sig) ≤ 1)%nat;
  so_defaults : ∀ i j p q, (i < j)%nat → filter takes_position sig !! i = Some p →
    filter takes_position sig !! j = Some q → p_default p = true → p_default q = true
}.

Lemma has_kind_iff k sig : has_kind k sig = true ↔ ∃ p, p ∈ sig ∧ p_kind p = k.
Proof.
  unfold has_kind. rewrite existsb_exists. split; intros (p & Hp & Hk); exists p; (split; [by apply list_elem_of_In|]); by bsimp.
Qed.

(** ** The calls a signature accepts *)
Definition named (p : parameter) : Prop := p_kind p = POSITIONAL_OR_KEYWORD ∨ p_kind p = KEYWORD_ONLY.

(** What a parameter that received no position asks of the keywords. *)
Definition fills (K : list pystr) (p : parameter) : Prop :=
  match p_kind p with
  | POSITIONAL_ONLY => p_name p ∉ K ∧ p_default p = true
  | POSITIONAL_OR_KEYWORD | KEYWORD_ONLY => p_name p ∈ K ∨ p_default p = true
  | _ => True
  end.

Record accepts (sig : signature) (n : nat) (K : list pystr) : Prop := {
  ac_room : (n ≤ length (filter takes_position sig))%nat ∨ has_kind VAR_POSITIONAL sig = true;
  ac_once : ∀ i p, filter takes_position sig !! i = Some p → (i < n)%nat → p_kind p = POSITIONAL_OR_KEYWORD → p_name p ∉ K;
  ac_rest : ∀ i p, filter takes_position sig !! i = Some p → (n ≤ i)%nat → fills K p;
  ac_only : ∀ p, p ∈ sig → p_kind p = KEYWORD_ONLY → p_name p ∈ K ∨ p_default p = true;
  ac_known : ∀ k, k ∈ K → (∃ p, p ∈ sig ∧ named p ∧ p_name p = k) ∨ has_kind VAR_KEYWORD sig = true
}.

Section bind.
Context {V : Type}.
Implicit Types (kw : list (pystr * V)) (args : list V).

Lemma pop_keys (k x : pystr) kw : x ∈ (od_pop k kw).*1 ↔ x ∈ kw.*1 ∧ x ≠ k.
Proof.
  unfold od_pop. rewrite !list_elem_of_fmap. setoid_rewrite list_elem_of_filter. naive_solver.
Qed.

Lemma fills_pop (k : pystr) kw p : p_name p ≠ k → fills (od_pop k kw).*1 p ↔ fills kw.*1 p.
Proof.
  intros Hk. assert (p_name p ∈ (od_pop k kw).*1 ↔ p_name p ∈ kw.*1) as E by (rewrite pop_keys; naive_solver).
  unfold fills. by destruct (p_kind p); rewrite ?E.
Qed.

(** The second loop returns when every parameter is filled. *)
Lemma bind_keywords_Ok ps kw :
  NoDup (p_name <$> ps) → (∃ r, bind_keywords false ps kw = Ok r) ↔ Forall (fills kw.*1) ps.
Proof.
  revert kw; induction ps as [|p ps IH]; intros kw Hnd; [split; [constructor|by eexists]|].
  cbn in Hnd. apply NoDup_cons in Hnd as [Hp Hnd]. rewrite Forall_cons.
  assert (Hpop : Forall (fills (od_pop (p_name p) kw).*1) ps ↔ Forall (fills kw.*1) ps).
  { rewrite !Forall_forall. apply forall_proper. intros q.
    destruct (decide (q ∈ ps)) as [Hq|]; [|naive_solver]. rewrite fills_pop; [done|]. intros E. apply Hp. rewrite <-E. by apply list_elem_of_fmap_2. }
  assert (Hsub : ∀ kw' (f : _ → result (arguments V * list (pystr * V) * option parameter)), (∀ r, ∃ r', f r = Ok r') →
                   (∃ r, (bind_keywords false ps kw' ≫= f) = Ok r) ↔ Forall (fills kw'.*1) ps).
  { intros kw' f Hf. rewrite <-IH by done. setoid_rewrite result_bind_Ok. split; [naive_solver|].
    intros [r Hr]. destruct (Hf r) as [r' Hr']. eauto. }
  pose proof (od_get_is_Some (p_name p) kw) as Hin. cbn [bind_keywords]. unfold fills at 1.
  destruct (p_kind p) eqn:Ek.
  - destruct (od_get (p_name p) kw) as [v|].
    + rewrite decide_True by done. split; [by intros [r [=]]|]. intros [[Hn _] _]. destruct Hn. by apply Hin.
    + destruct (p_default p); cbn; [|split; [by intros [r [=]]|by intros [[_ [=]] _]]].
      rewrite IH by done. split; [|by intros [_ ?]]. intros ?. split; [split; [|done]|done]. intros Hk%Hin. by destruct Hk.
  - destruct (od_get (p_name p) kw) as [v|].
    + rewrite decide_False by done. rewrite Hsub, Hpop by eauto. split; [|naive_solver]. intros ?. split; [left; by apply Hin|done].
    + destruct (p_default p); cbn; [rewrite IH by done; naive_solver|].
      split; [by intros [r [=]]|]. intros [[Hk%Hin|[=]] _]. by destruct Hk.
  - rewrite IH by done. naive_solver.
  - destruct (od_get (p_name p) kw) as [v|].
    + rewrite decide_False by done. rewrite Hsub, Hpop by eauto. split; [|naive_solver]. intros ?. split; [left; by apply Hin|done].
    + destruct (p_default p); cbn; [rewrite IH by done; naive_solver|].
      split; [by intros [r [=]]|]. intros [[Hk%Hin|[=]] _]. by destruct Hk.
  - rewrite Hsub by eauto. naive_solver.
Qed.

(** It leaves the keywords that name no parameter. *)
Definition unnamed (k : pystr) (ps : list parameter) : Prop := Forall (λ p, named p → p_name p ≠ k) ps.

Lemma bind_keywords_left ps kw r :
  bind_keywords false ps kw = Ok r →
  (∀ k, k ∈ r.1.2.*1 ↔ k ∈ kw.*1 ∧ unnamed k ps) ∧ (is_Some r.2 ↔ Exists (of_kind VAR_KEYWORD) ps).
Proof.
  revert kw r; induction ps as [|p ps IH]; intros kw r.
  { intros [= <-]. cbn. rewrite Exists_nil. split; [|by split; [intros [? [=]]|]].
    intros k. split; [|by intros [? _]]. intros Hk. split; [done|constructor]. }
  cbn [bind_keywords]. unfold unnamed in *. setoid_rewrite Forall_cons. rewrite Exists_cons. unfold of_kind at 1, named at 1.
  pose proof (od_get_None (p_name p) kw) as Hn.
  assert (Hout : ∀ k, od_get (p_name p) kw = None → k ∈ kw.*1 → p_name p ≠ k) by (intros k Hg ? <-; by apply Hn).
  assert (Hskip : ∀ kw', bind_keywords false ps kw' = Ok r → p_kind p ≠ VAR_KEYWORD →
            (∀ k, k ∈ r.1.2.*1 ↔ k ∈ kw'.*1 ∧ Forall (λ q, named q → p_name q ≠ k) ps) ∧
            (is_Some r.2 ↔ p_kind p = VAR_KEYWORD ∨ Exists (of_kind VAR_KEYWORD) ps)).
  { intros kw' [Hl Hv]%IH Hk. split; [done|]. rewrite Hv. split; [by right|]. by intros [?|?]. }
  assert (Hpop : ∀ v, p_kind p ≠ VAR_KEYWORD →
            (r ← bind_keywords false ps (od_pop (p_name p) kw); Ok ((p_name p, One v) :: r.1.1, r.1.2, r.2)) = Ok r →
            (∀ k, k ∈ r.1.2.*1 ↔ (k ∈ kw.*1 ∧ k ≠ p_name p) ∧ Forall (λ q, named q → p_name q ≠ k) ps) ∧
            (is_Some r.2 ↔ p_kind p = VAR_KEYWORD ∨ Exists (of_kind VAR_KEYWORD) ps)).
  { intros v Hk (r1 & [Hl Hv]%IH & [= <-])%result_bind_Ok. cbn. rewrite Hv. split; [intros k; by rewrite Hl, pop_keys|].
    split; [by right|]. by intros [?|?]. }
  destruct (p_kind p) eqn:Ek.
  - destruct (od_get _ kw) as [v|]; [by rewrite decide_True by done|]. case_match; [done|].
    intros [Hl Hv]%Hskip; [|done]. split; [|done]. intros k. rewrite Hl. intuition congruence.
  - destruct (od_get _ kw) as [v|].
    + rewrite decide_False by done. intros [Hl Hv]%Hpop; [|done]. split; [|done]. intros k. rewrite Hl. intuition congruence.
    + case_match; [done|]. intros [Hl Hv]%Hskip; [|done]. split; [|done]. intros k. rewrite Hl. specialize (Hout k eq_refl). tauto.
  - intros [Hl Hv]%Hskip; [|done]. split; [|done]. intros k. rewrite Hl. intuition congruence.
  - destruct (od_get _ kw) as [v|].
    + rewrite decide_False by done. intros [Hl Hv]%Hpop; [|done]. split; [|done]. intros k. rewrite Hl. intuition congruence.
    + case_match; [done|]. intros [Hl Hv]%Hskip; [|done]. split; [|done]. intros k. rewrite Hl. specialize (Hout k eq_refl). tauto.
  - intros (r1 & [Hl Hv]%IH & [= <-])%result_bind_Ok. cbn. split; [intros k; rewrite Hl; intuition congruence|].
    split; [by left|]. by eexists.
Qed.

(** ** The whole binding *)
Definition finish (bound : arguments V) (ps : list parameter) kw : result (arguments V) :=
  r ← bind_keywords false ps kw;
  match r.1.2, r.2 with
  | [], _ => Ok (bound ++ r.1.1)
  | extra, Some p => Ok (bound ++ r.1.1 ++ [(p_name p, Keywords extra)])
  | _, None => raise TypeError "got an unexpected keyword argument"
  end.

(** What the parameters without a position ask of the keywords. *)
Definition rest_ok kw (ps : list parameter) : Prop :=
  Forall (fills kw.*1) ps ∧ ((∀ k, k ∈ kw.*1 → ¬ unnamed k ps) ∨ Exists (of_kind VAR_KEYWORD) ps).

Lemma finish_Ok bound ps kw : NoDup (p_name <$> ps) → (∃ b, finish bound ps kw = Ok b) ↔ rest_ok kw ps.
Proof.
  intros Hnd. unfold finish, rest_ok. rewrite <-(bind_keywords_Ok ps kw Hnd). setoid_rewrite result_bind_Ok. split.
  - intros (b & r & Hr & Hb). split; [by eexists|]. destruct (bind_keywords_left ps kw r Hr) as [Hl Hv].
    destruct r as [[more extra] vk]; cbn in *. destruct extra as [|[k v] extra]; [left|right; apply Hv; by destruct vk].
    intros k Hk Hu. apply (not_elem_of_nil k). by apply (Hl k).
  - intros ((r & Hr) & Hk). destruct (bind_keywords_left ps kw r Hr) as [Hl Hv].
    destruct r as [[more extra] vk]; cbn in *. destruct extra as [|[k v] extra]; [by eexists _, _|].
    destruct vk as [p|]; [by eexists _, _|].
    exfalso. destruct Hk as [Hk|Hk%Hv]; [|by destruct Hk].
    destruct (proj1 (Hl k)) as [Hin Hu]; [by left|]. exact (Hk k Hin Hu).
Qed.

(** When no position is left: the first loop stops before the parameter or behind [*args]. *)
Lemma no_args_stops K ps b : bind_args (V:=V) false K ps [] = Ok b →
  b.1 = [] ∧ (b.2 = ps ∨ ∃ p, ps = p :: b.2 ∧ p_kind p = VAR_POSITIONAL).
Proof.
  destruct ps as [|p ps]; cbn; [intros [= <-]; auto|]. repeat case_match; intros [= <-]; cbn; eauto.
Qed.

Lemma no_args_Ok K ps : Forall (fills K) ps → ∃ b, bind_args (V:=V) false K ps [] = Ok b.
Proof.
  destruct ps as [|p ps]; cbn; [by eexists|]. intros [Hp _]%Forall_cons. unfold fills in Hp.
  case_decide; [by eexists|]. case_decide as Hin; [case_decide as Hk; [|by eexists]|].
  - rewrite Hk in Hp. by destruct Hp.
  - destruct (p_default p); [rewrite orb_true_r; by eexists|].
    destruct (p_kind p); cbn; try done; try (by eexists); destruct Hp; done.
Qed.

Lemma rest_ok_variadic kw p ps : p_kind p = VAR_POSITIONAL → rest_ok kw (p :: ps) ↔ rest_ok kw ps.
Proof.
  intros Hk. unfold rest_ok, unnamed. setoid_rewrite Forall_cons. rewrite Exists_cons.
  assert (fills kw.*1 p) by (unfold fills; by rewrite Hk).
  assert (∀ k, named p → p_name p ≠ k) by (unfold named; rewrite Hk; by intros k [?|?]).
  assert (¬ of_kind VAR_KEYWORD p) by (unfold of_kind; by rewrite Hk). naive_solver.
Qed.

Lemma bind_no_args kw ps :
  (∃ b, bind_args (V:=V) false kw.*1 ps [] = Ok b ∧ rest_ok kw b.2) ↔ rest_ok kw ps.
Proof.
  assert (∀ b, bind_args (V:=V) false kw.*1 ps [] = Ok b → rest_ok kw b.2 ↔ rest_ok kw ps) as Hb.
  { intros b [_ [->|(p & -> & Hk)]]%no_args_stops; [done|]. by rewrite rest_ok_variadic. }
  split; [by intros (b & Hr & ?); apply (Hb b Hr)|]. intros Hr. destruct (no_args_Ok kw.*1 ps) as [b E]; [apply Hr|].
  exists b. split; [done|]. by apply (Hb b E).
Qed.

Lemma bind_args_Ok kw ps tail args :
  Forall takes_position ps → (∀ p, head tail = Some p → ¬ takes_position p) →
  (∃ b, bind_args false kw.*1 (ps ++ tail) args = Ok b ∧ rest_ok kw b.2) ↔
  ((length args ≤ length ps)%nat ∨ ∃ p, head tail = Some p ∧ p_kind p = VAR_POSITIONAL) ∧
  (∀ i p, ps !! i = Some p → (i < length args)%nat → p_kind p = POSITIONAL_OR_KEYWORD → p_name p ∉ kw.*1) ∧
  rest_ok kw (drop (length args) ps ++ tail).
Proof.
  intros Hps Htail. revert args. induction Hps as [|p ps Hp Hps IH]; intros args.
  - destruct args as [|a args]; cbn [app length].
    { rewrite bind_no_args. split; [|tauto]. intros ?. split; [left; lia|]. done. }
    rewrite drop_nil. cbn [app]. destruct tail as [|p tail]; cbn [bind_args head].
    + split; [by intros (? & [=] & _)|]. intros [[?|(p & [=] & _)] _]. cbn in *. lia.
    + specialize (Htail p eq_refl). unfold takes_position in Htail.
      destruct (p_kind p) eqn:Ek; try tauto;
        try (split; [by intros (? & [=] & _)|intros [[?|(q & [= <-] & Hq)] _]; [cbn in *; lia|congruence]]).
      rewrite rest_ok_variadic by done. split; [intros (b & [= <-] & Hr)|intros (_ & _ & Hr); by eexists].
      split; [right; by exists p|]. done.
  - destruct args as [|a args].
    { rewrite bind_no_args. cbn [length drop]. split; [|tauto]. intros ?. split; [left; lia|].
      split; [|done]. intros; lia. }
    specialize (IH args). cbn [app length drop bind_args].
    assert (∀ k, takes_position p → p_kind p = k →
      (∃ b, (if decide (p_name p ∈ kw.*1 ∧ k ≠ POSITIONAL_ONLY) then raise TypeError "multiple values for argument" else
        x ← bind_args false kw.*1 (ps ++ tail) args; Ok ((p_name p, One a) :: x.1, x.2)) = Ok b ∧ rest_ok kw b.2) ↔
      ¬ (p_name p ∈ kw.*1 ∧ k ≠ POSITIONAL_ONLY) ∧ ∃ b, bind_args false kw.*1 (ps ++ tail) args = Ok b ∧ rest_ok kw b.2) as Hstep.
    { intros k _ _. case_decide as Hd; [split; [by intros (? & [=] & _)|by intros [? _]]|].
      setoid_rewrite result_bind_Ok. split; [intros (b & (x & Hx & [= <-]) & Hr); eauto|].
      intros (_ & x & Hx & Hr). eexists. split; [exists x; eauto|done]. }
    assert (Hgoal : (¬ (p_name p ∈ kw.*1 ∧ p_kind p ≠ POSITIONAL_ONLY) ∧ ∃ b, bind_args false kw.*1 (ps ++ tail) args = Ok b ∧ rest_ok kw b.2) ↔
      ((S (length args) ≤ S (length ps))%nat ∨ ∃ q, head tail = Some q ∧ p_kind q = VAR_POSITIONAL) ∧
      (∀ i q, (p :: ps) !! i = Some q → (i < S (length args))%nat → p_kind q = POSITIONAL_OR_KEYWORD → p_name q ∉ kw.*1) ∧
      rest_ok kw (drop (length args) ps ++ tail)).
    { rewrite IH. split.
      - intros (Hn & Hroom & Hi & Hr). split; [destruct Hroom; [left; lia|by right]|]. split; [|done].
        intros [|i] q; cbn; [intros [= <-] _ Hk Hin; apply Hn; by rewrite Hk|]. intros Hq Hlt. apply (Hi i q Hq). lia.
      - intros (Hroom & Hi & Hr). split.
        + intros [Hin Hk]. destruct Hp as [|Hp]; [done|]. apply (Hi 0%nat p); [done|lia|done..].
        + split; [destruct Hroom; [left; lia|by right]|]. split; [|done]. intros i q Hq Hlt. apply (Hi (S i) q Hq). lia. }
    rewrite <-Hgoal. destruct Hp as [Hp|Hp]; rewrite Hp; apply Hstep; try done; [by left|by right].
Qed.

(** The parameters that take no position. *)
Definition tail_of (sig : signature) : list parameter :=
  filter (of_kind VAR_POSITIONAL) sig ++ filter (of_kind KEYWORD_ONLY) sig ++ filter (of_kind VAR_KEYWORD) sig.

Lemma tail_elem (sig : signature) p : p ∈ tail_of sig ↔ p ∈ sig ∧ ¬ takes_position p.
Proof.
  unfold tail_of, takes_position, of_kind. rewrite !elem_of_app, !list_elem_of_filter.
  destruct (p_kind p); intuition congruence.
Qed.

Lemma tail_head sig : (∃ p, head (tail_of sig) = Some p ∧ p_kind p = VAR_POSITIONAL) ↔ has_kind VAR_POSITIONAL sig = true.
Proof.
  rewrite has_kind_iff. split.
  - intros (p & Hp & Hk). exists p. split; [|done]. apply tail_elem. destruct (tail_of sig); [done|]. injection Hp as ->. by left.
  - intros (p & Hp & Hk). unfold tail_of.
    assert (p ∈ filter (of_kind VAR_POSITIONAL) sig) as Hin by (by apply list_elem_of_filter).
    destruct (filter (of_kind VAR_POSITIONAL) sig) as [|q l] eqn:E; [by apply elem_of_nil in Hin|].
    exists q. split; [done|]. assert (q ∈ q :: l) as Hq by left. rewrite <-E in Hq. by apply list_elem_of_filter in Hq as [? _].
Qed.

Lemma so_split sig : signature_ok sig → sig = filter takes_position sig ++ tail_of sig.
Proof. intros H. apply H. Qed.

Lemma positional_elem (sig : signature) (i : nat) p : filter takes_position sig !! i = Some p → p ∈ sig ∧ takes_position p.
Proof. intros Hp%list_elem_of_lookup_2. apply list_elem_of_filter in Hp. tauto. Qed.

Lemma bind_args_suffix partial K ps args b : bind_args (V:=V) partial K ps args = Ok b → ∃ k, b.2 = drop k ps.
Proof.
  revert args b; induction ps as [|p ps IH]; intros [|a args] b; cbn; try done; [intros [= <-]; by exists 0%nat|..].
  - repeat case_match; intros [= <-]; first [by exists 0%nat|by exists 1%nat].
  - destruct (p_kind p); try done; try (intros [= <-]; by exists 1%nat);
      (case_decide; [done|]); intros (x & [k Hk]%IH & [= <-])%result_bind_Ok; by exists (S k).
Qed.

Lemma not_unnamed k ps : ¬ unnamed k ps ↔ ∃ p, p ∈ ps ∧ named p ∧ p_name p = k.
Proof.
  assert (∀ p, Decision (named p)) by (unfold named; apply _). unfold unnamed. split.
  - intros Hall%not_Forall_Exists; [|apply _]. apply Exists_exists in Hall as (p & Hp & Hk). exists p. split; [done|].
    destruct (decide (named p)); [|destruct Hk; by intros]. split; [done|].
    destruct (decide (p_name p = k)); [done|]. destruct Hk. by intros.
  - intros (p & Hp & Hk & Hn) Hall. rewrite Forall_forall in Hall. by eapply Hall.
Qed.

(** [bind] returns on exactly the calls that the signature accepts. *)
Lemma bind_iff sig args kw :
  signature_ok sig → (∃ b, bind false sig args kw = Ok b) ↔ accepts sig (length args) kw.*1.
Proof.
  intros Hok. pose proof (so_names sig Hok) as Hnd. set (ps := filter takes_position sig). set (n := length args).
  transitivity (∃ b, bind_args false kw.*1 (ps ++ tail_of sig) args = Ok b ∧ rest_ok kw b.2).
  { unfold ps. rewrite <-so_split by done. unfold bind. setoid_rewrite result_bind_Ok.
    assert (∀ b, bind_args false kw.*1 sig args = Ok b → (∃ r, finish b.1 b.2 kw = Ok r) ↔ rest_ok kw b.2) as Hb.
    { intros b [k E]%bind_args_suffix. apply finish_Ok. rewrite E, fmap_drop. eapply sublist_NoDup; [done|apply sublist_drop]. }
    split; [intros (r & b & Hr & Hf); exists b; split; [done|]; apply (Hb b Hr); by exists r|].
    intros (b & Hr & Hf). apply (Hb b Hr) in Hf as [r Hf]. by exists r, b. }
  rewrite bind_args_Ok; [|apply Forall_forall; intros p Hp; by apply list_elem_of_filter in Hp as [? _]|].
  2:{ intros p Hp. destruct (tail_of sig) eqn:E; [done|]. injection Hp as ->. apply (tail_elem sig). rewrite E. by left. }
  rewrite tail_head. unfold rest_ok. setoid_rewrite not_unnamed. rewrite (Forall_app _ (drop (length args) ps) (tail_of sig)), (Forall_forall _ (drop (length args) ps)), (Forall_forall _ (tail_of sig)), Exists_exists.
  setoid_rewrite (λ x, elem_of_app (drop (length args) ps) (tail_of sig) x). setoid_rewrite tail_elem.
  assert (Hdrop : ∀ p, p ∈ drop n ps ↔ ∃ i, ps !! i = Some p ∧ (n ≤ i)%nat).
  { intros p. rewrite list_elem_of_lookup. setoid_rewrite lookup_drop. split; [intros [i Hi]; exists (n + i)%nat; split; [done|lia]|].
    intros (i & Hi & Hle). exists (i - n)%nat. by rewrite <-Hi; f_equal; lia. }
  split.
  - intros (Hroom & Honce & [Hrest Htail] & Hknown). split; [done|done|..].
    + intros i p Hp Hle. apply Hrest, Hdrop. eauto.
    + intros p Hp Hk. assert (fills kw.*1 p) as Hf by (apply Htail; split; [done|]; unfold takes_position; rewrite Hk; by intros [?|?]).
      unfold fills in Hf. by rewrite Hk in Hf.
    + intros k Hk. destruct Hknown as [Hknown|(p & Hp & Hv)].
      * destruct (Hknown k Hk) as (p & Hp & Hn). left. exists p. split; [|done].
        destruct Hp as [(i & Hi & _)%Hdrop|[? _]]; [|done]. by apply (positional_elem sig i).
      * right. apply has_kind_iff. exists p. split; [|done]. destruct Hp as [(i & Hi & _)%Hdrop|[? _]]; [|done]. by apply (positional_elem sig i).
  - intros [Hroom Honce Hrest Honly Hknown]. split; [done|]. split; [done|]. split; [split|].
    + intros p (i & Hi & Hle)%Hdrop. by apply (Hrest i).
    + intros p [Hp Hn]. unfold fills. destruct (p_kind p) eqn:Ek; try done; [destruct Hn; by left|destruct Hn; by right|by apply Honly].
    + destruct (has_kind VAR_KEYWORD sig) eqn:Ev.
      { right. apply has_kind_iff in Ev as (p & Hp & Hk). exists p. split; [|done]. right. split; [done|].
        unfold takes_position. rewrite Hk. by intros [?|?]. }
      left. intros k Hk. destruct (Hknown k Hk) as [(p & Hp & Hn & Hx)|[=]]. exists p. split; [|done].
      destruct (decide (takes_position p)) as [Ht|]; [left|right; done]. apply Hdrop.
      assert (p ∈ ps) as [i Hi]%list_elem_of_lookup by (by apply list_elem_of_filter). exists i. split; [done|].
      destruct (decide (n ≤ i)%nat); [done|]. exfalso. apply (Honce i p Hi); [lia| |by rewrite Hx].
      destruct Hn as [|Hn]; [done|]. destruct Ht as [Ht|Ht]; by rewrite Hn in Ht.
Qed.

(** ** Where the positional arguments go *)
Definition placed (ps tail : list parameter) (b : arguments V) (i : nat) (a : V) : Prop :=
  (∀ p, ps !! i = Some p → b !! i = Some (p_name p, One a)) ∧
  (ps !! i = None → ∃ v vs, v ∈ tail ∧ p_kind v = VAR_POSITIONAL ∧ b !! length ps = Some (p_name v, Rest vs) ∧ a ∈ vs).

Lemma bind_args_places partial K ps tail args r :
  Forall takes_position ps → (∀ p, head tail = Some p → ¬ takes_position p) →
  bind_args partial K (ps ++ tail) args = Ok r → ∀ i a, args !! i = Some a → placed ps tail r.1 i a.
Proof.
  intros Hps Htail. revert args r. induction Hps as [|p ps Hp Hps IH]; intros [|a args] r Hr i x Hx; try done.
  - split; [done|]. intros _. cbn [app] in Hr. destruct tail as [|v tail]; [done|]. cbn in Hr.
    specialize (Htail v eq_refl). unfold takes_position in Htail. exists v, (a :: args).
    assert (p_kind v = VAR_POSITIONAL ∧ r.1 = [(p_name v, Rest (a :: args))]) as [Hk ->].
    { destruct (p_kind v); try tauto; try done. by injection Hr as <-. }
    split; [by left|]. split; [done|]. split; [done|]. by eapply list_elem_of_lookup_2.
  - assert (∃ x, bind_args partial K (ps ++ tail) args = Ok x ∧ r.1 = (p_name p, One a) :: x.1) as (y & Hy & ->).
    { cbn [app bind_args] in Hr. destruct Hp as [Hp|Hp]; rewrite Hp in Hr; (case_decide; [done|]);
        apply result_bind_Ok in Hr as (y & Hy & [= <-]); by exists y. }
    destruct i as [|i]; cbn in Hx.
    + injection Hx as ->. split; [by intros q [= <-]|done].
    + exact (IH args y Hy i x Hx).
Qed.

Lemma bind_places partial sig args kw b :
  signature_ok sig → bind partial sig args kw = Ok b →
  ∀ i a, args !! i = Some a → placed (filter takes_position sig) (tail_of sig) b i a.
Proof.
  intros Hok Hb i a Ha. unfold bind in Hb. apply result_bind_Ok in Hb as (r & Hr & Hb).
  rewrite (so_split sig) in Hr by done.
  assert (placed (filter takes_position sig) (tail_of sig) r.1 i a) as [H1 H2].
  { eapply bind_args_places; [..|exact Hr|exact Ha]; [apply Forall_forall; intros p Hp; by apply list_elem_of_filter in Hp as [? _]|].
    intros p Hp. destruct (tail_of sig) eqn:E; [done|]. injection Hp as ->. apply (tail_elem sig). rewrite E. by left. }
  apply result_bind_Ok in Hb as (q & _ & Hb).
  assert (∃ more, b = r.1 ++ more) as [more ->].
  { destruct q.1.2; [|destruct q.2; [|done]]; injection Hb as <-; eauto. }
  split; [intros p Hp; by apply lookup_app_l_Some, H1|]. intros Hn. destruct (H2 Hn) as (v & vs & ? & ? & Hl & ?).
  exists v, vs. split_and!; try done. by apply lookup_app_l_Some.
Qed.
End bind.

(** ** The order of the positional parameters *)
Lemma od_get_first {A} (d : list (pystr * A)) (i : nat) k v :
  d !! i = Some (k, v) → (∀ j x, (j < i)%nat → d !! j = Some x → x.1 ≠ k) → od_get k d = Some v.
Proof.
  revert i; induction d as [|[k' v'] d IH]; intros [|i]; cbn; try done.
  - intros [= -> ->] _. by rewrite decide_True.
  - intros Hi Hj. rewrite decide_False; [apply (IH i Hi); intros j x Hlt; apply (Hj (S j)); lia|].
    intros ->. by apply (Hj 0%nat (k', v') ltac:(lia)).
Qed.

Lemma destination_first (marker : obj) (b : list (pystr * bound obj)) i name :
  b !! i = Some (name, One marker) → (∀ j x, (j < i)%nat → b !! j = Some x → ∃ v, x.2 = One v ∧ v ≠ marker) →
  destination marker b = Some name.
Proof.
  revert i; induction b as [|[k x] b IH]; intros [|i] Hi Hj; try done; cbn.
  - injection Hi as -> ->. cbn. by rewrite bool_decide_true.
  - destruct (Hj 0%nat (k, x) ltac:(lia) eq_refl) as (v & Hx & Hv). cbn in Hx. subst x. cbn. rewrite bool_decide_false by done.
    apply (IH i Hi). intros j y Hlt. apply (Hj (S j)). lia.
Qed.

Lemma positional_inj (sig : signature) i j p q :
  signature_ok sig → filter takes_position sig !! i = Some p → filter takes_position sig !! j = Some q →
  p_name p = p_name q → i = j.
Proof.
  intros Hok Hp Hq Hn. pose proof (so_names sig Hok) as Hnd. rewrite (so_split sig) in Hnd by done.
  rewrite fmap_app in Hnd. apply NoDup_app in Hnd as (Hnd & _ & _).
  eapply (NoDup_lookup _ i j (p_name p) Hnd); rewrite list_lookup_fmap; [by rewrite Hp|rewrite Hq; cbn; by rewrite Hn].
Qed.

(** The entries of a call with positions only, before one of them. *)
Lemma places_before (sig : signature) n (b : list (pystr * bound obj)) i p :
  signature_ok sig → (∀ j a, seq 0 n !! j = Some a → placed (filter takes_position sig) (tail_of sig) b j a) →
  filter takes_position sig !! i = Some p → (i < n)%nat →
  b !! i = Some (p_name p, One i) ∧
  ∀ j x, (j < i)%nat → b !! j = Some x → x.1 ≠ p_name p ∧ x.2 = One j.
Proof.
  intros Hok Pb Hp Hi. assert (Hseq : ∀ j, (j < n)%nat → seq 0 n !! j = Some j) by (intros j Hj; by apply lookup_seq_lt).
  split; [by apply (Pb i i (Hseq i Hi))|]. intros j x Hj Hx.
  destruct (lookup_lt_is_Some_2 (filter takes_position sig) j) as [p' Hp']; [apply lookup_lt_Some in Hp; lia|].
  pose proof (eq_trans (eq_sym Hx) (proj1 (Pb j j (Hseq j ltac:(lia))) p' Hp')) as E. injection E as ->. split; [|done]. cbn. intros Hn.
  pose proof (positional_inj sig j i p' p Hok Hp' Hp Hn). lia.
Qed.

(** ** The generated shapes *)
Lemma od_set_key_elem {A} (k x : pystr) (v : A) d : x ∈ (od_set k v d).*1 ↔ x ∈ d.*1 ∨ x = k.
Proof. rewrite <-!od_get_is_Some, od_get_set. case_decide; [|naive_solver]. split; [by right|]. by eexists. Qed.

Section call_shape.
Context (step : nat → parameter → call → nat * call) (new_args : parameter → nat) (new_keys : parameter → list pystr).
Context (Hstep : ∀ n p c, length (step n p c).2.1 = (length c.1 + new_args p)%nat ∧
                          ∀ k, k ∈ (step n p c).2.2.*1 ↔ k ∈ c.2.*1 ∨ k ∈ new_keys p).

Lemma shape_spec sig :
  length (call_shape step sig).1 = sum_list (new_args <$> sig) ∧
  ∀ k, k ∈ (call_shape step sig).2.*1 ↔ ∃ p, p ∈ sig ∧ k ∈ new_keys p.
Proof.
  unfold call_shape. assert (∀ s : nat * call, let r := (foldl (λ s p, step s.1 p s.2) s sig).2 in
    length r.1 = (length s.2.1 + sum_list (new_args <$> sig))%nat ∧
    ∀ k, k ∈ r.2.*1 ↔ k ∈ s.2.2.*1 ∨ ∃ p, p ∈ sig ∧ k ∈ new_keys p) as Hall.
  { induction sig as [|p sig IH]; intros s; cbn.
    - split; [lia|]. intros k. split; [by left|]. intros [?|(p & Hp & _)]; [done|by apply elem_of_nil in Hp].
    - destruct (IH (step s.1 p s.2)) as [E1 E2], (Hstep s.1 p s.2) as [F1 F2]. cbn in *. rewrite E1, F1. split; [lia|].
      intros k. rewrite E2, F2. setoid_rewrite elem_of_cons. naive_solver. }
  destruct (Hall (0%nat, ([], []))) as [E1 E2]. cbn in *. split; [done|]. intros k. rewrite E2. split; [|by right].
  intros [Hk|?]; [by apply elem_of_nil in Hk|done].
Qed.
End call_shape.

Definition min_args (p : parameter) : nat := if decide (takes_position p ∧ p_default p = false) then 1 else 0.
Definition min_keys (p : parameter) : list pystr :=
  if decide (p_kind p = KEYWORD_ONLY ∧ p_default p = false) then [p_name p] else [].
Definition future_of (p : parameter) : list pystr := if decide (p_kind p = VAR_KEYWORD) then [future_keyword] else [].
Definition pos_args (p : parameter) : nat :=
  if decide (takes_position p) then 1 else if decide (p_kind p = VAR_POSITIONAL) then 2 else 0.
Definition pos_keys (p : parameter) : list pystr := if decide (p_kind p = KEYWORD_ONLY) then [p_name p] else future_of p.
Definition key_args (p : parameter) : nat := if decide (p_kind p = POSITIONAL_ONLY) then 1 else 0.
Definition key_keys (p : parameter) : list pystr :=
  if decide (p_kind p = POSITIONAL_OR_KEYWORD ∨ p_kind p = KEYWORD_ONLY) then [p_name p] else future_of p.

Ltac shape_step :=
  intros n p c; destruct (p_kind p) eqn:Ek; cbn; unfold takes_position; rewrite ?Ek;
  repeat case_decide; try (exfalso; intuition congruence); cbn; rewrite ?length_app; cbn;
  (split; [lia|]; intros k; rewrite ?od_set_key_elem; set_solver).

Lemma minimum_shape sig :
  length (_minimum_call_shape sig).1 = sum_list (min_args <$> sig) ∧
  ∀ k, k ∈ (_minimum_call_shape sig).2.*1 ↔ ∃ p, p ∈ sig ∧ k ∈ min_keys p.
Proof.
  apply shape_spec. unfold minimum_step, min_args, min_keys. intros n p c. destruct (p_default p) eqn:Ed.
  - rewrite !decide_False by (by intros [_ ?]). cbn. split; [lia|]. set_solver.
  - revert n p c Ed. shape_step.
Qed.

Lemma positional_shape sig :
  length (_maximal_positional_call_shape sig).1 = sum_list (pos_args <$> sig) ∧
  ∀ k, k ∈ (_maximal_positional_call_shape sig).2.*1 ↔ ∃ p, p ∈ sig ∧ k ∈ pos_keys p.
Proof. apply shape_spec. unfold maximal_positional_step, pos_args, pos_keys, future_of. shape_step. Qed.

Lemma keyword_shape sig :
  length (_maximal_keyword_call_shape sig).1 = sum_list (key_args <$> sig) ∧
  ∀ k, k ∈ (_maximal_keyword_call_shape sig).2.*1 ↔ ∃ p, p ∈ sig ∧ k ∈ key_keys p.
Proof. apply shape_spec. unfold maximal_keyword_step, key_args, key_keys, future_of. shape_step. Qed.

Lemma sum_cons (f : parameter → nat) p (sig : signature) : sum_list (f <$> p :: sig) = (f p + sum_list (f <$> sig))%nat.
Proof. done. Qed.

Lemma sum_pos_args (sig : signature) :
  sum_list (pos_args <$> sig) = (length (filter takes_position sig) + 2 * length (filter (of_kind VAR_POSITIONAL) sig))%nat.
Proof.
  induction sig as [|p sig IH]; [done|]. rewrite sum_cons, !filter_cons, IH. unfold pos_args, of_kind.
  repeat case_decide; cbn [length]; try lia; unfold takes_position in *; intuition congruence.
Qed.

Lemma sum_min_args (sig : signature) :
  sum_list (min_args <$> sig) = length (filter (λ p, p_default p = false) (filter takes_position sig)).
Proof.
  induction sig as [|p sig IH]; [done|]. rewrite sum_cons, filter_cons, IH. unfold min_args.
  case_decide as Ht; case_decide as Hp; rewrite ?filter_cons; repeat case_decide; cbn [length]; try lia; tauto.
Qed.

Lemma sum_key_args (sig : signature) : sum_list (key_args <$> sig) = length (filter (of_kind POSITIONAL_ONLY) sig).
Proof.
  induction sig as [|p sig IH]; [done|]. rewrite sum_cons, filter_cons, IH. unfold key_args. fold (of_kind POSITIONAL_ONLY p). by repeat case_decide.
Qed.

(** Required parameters come first. *)
Lemma none_required (l : list parameter) : (∀ p, p ∈ l → p_default p = true) → filter (λ p, p_default p = false) l = [].
Proof.
  induction l as [|x l IH]; intros Hl; [done|]. rewrite filter_cons, decide_False; [apply IH; intros; apply Hl; by right|].
  rewrite (Hl x); [done|by left].
Qed.

Lemma required_first (l : list parameter) i p :
  (∀ i j p q, (i < j)%nat → l !! i = Some p → l !! j = Some q → p_default p = true → p_default q = true) →
  l !! i = Some p → (i < length (filter (λ p, p_default p = false) l))%nat ↔ p_default p = false.
Proof.
  revert i; induction l as [|x l IH]; intros i Hm Hp; [done|]. rewrite filter_cons. destruct (p_default x) eqn:Ex.
  - rewrite decide_False by done. rewrite none_required.
    2:{ intros y [j Hy]%list_elem_of_lookup. exact (Hm 0%nat (S j) x y ltac:(lia) eq_refl Hy Ex). }
    cbn. split; [lia|]. intros E. destruct i as [|i]; [injection Hp as ->; congruence|].
    pose proof (Hm 0%nat (S i) x p ltac:(lia) eq_refl Hp Ex). congruence.
  - rewrite decide_True by done. cbn [length]. destruct i as [|i]; [injection Hp as ->; split; [done|lia]|].
    rewrite <-(IH i); [lia| |done]. intros i' j' p' q' Hlt H1 H2. apply (Hm (S i') (S j')); [lia|done..].
Qed.

Lemma positional_only_first (sig : signature) i p : signature_ok sig → filter takes_position sig !! i = Some p →
  (i < length (filter (of_kind POSITIONAL_ONLY) sig))%nat ↔ p_kind p = POSITIONAL_ONLY.
Proof.
  intros Hok Hp. rewrite (so_positional sig Hok) in Hp. apply lookup_app_Some in Hp as [Hp|[Hle Hp]].
  - split; [|by apply lookup_lt_Some in Hp]. intros _. apply list_elem_of_lookup_2, list_elem_of_filter in Hp. tauto.
  - split; [lia|]. apply list_elem_of_lookup_2, list_elem_of_filter in Hp as [Hk _]. unfold of_kind in Hk. by rewrite Hk.
Qed.

Section override.
Context (base override : signature) (Hb : signature_ok base) (Ho : signature_ok override).
Context (Hchecked : _assert_override_substitutable (Some base) (Some override) = Ok tt).

Lemma checked_facts :
  (has_kind VAR_POSITIONAL base = true → has_kind VAR_POSITIONAL override = true) ∧
  (has_kind VAR_KEYWORD base = true → has_kind VAR_KEYWORD override = true) ∧
  (∀ c, c ∈ [_minimum_call_shape base; _maximal_positional_call_shape base; _maximal_keyword_call_shape base] →
     ∃ b, bind false override c.1 c.2 = Ok b) ∧
  ∃ bb ob, let markers := seq 0 (length (filter takes_position base)) in
    bind true base markers [] = Ok bb ∧ bind true override markers [] = Ok ob ∧
    ∀ p, p ∈ filter takes_position base → same_position override bb ob p = Ok tt.
Proof.
  unfold _assert_override_substitutable in Hchecked. cbn [_inspect_signature] in Hchecked.
  apply result_bind_Ok in Hchecked as (? & [= <-] & H1). apply result_bind_Ok in H1 as (? & [= <-] & H1).
  apply result_bind_Ok in H1 as (? & H2%raise_if_Ok & H1). apply result_bind_Ok in H1 as (? & H3%raise_if_Ok & H1).
  apply result_bind_Ok in H1 as (? & H4%mapM_result_Ok & H1). cbn zeta in H1.
  apply result_bind_Ok in H1 as (bb & Hbb & H1). apply result_bind_Ok in H1 as (ob & Hob & H1).
  apply result_bind_Ok in H1 as (? & H5%mapM_result_Ok & _).
  split; [intros E; rewrite E in H2; by destruct (has_kind VAR_POSITIONAL override)|].
  split; [intros E; rewrite E in H3; by destruct (has_kind VAR_KEYWORD override)|]. split.
  - intros c [i Hc]%list_elem_of_lookup. destruct (Forall2_lookup_l _ _ _ _ _ H4 Hc) as (u & _ & Ht).
    unfold try_shape, binds in Ht. apply result_bind_Ok in Ht as (? & _ & Ht). destruct (bind false override _ _) as [b|]; [by exists b|done].
  - exists bb, ob. split; [done|]. split; [done|]. intros p [i Hp]%list_elem_of_lookup.
    by destruct (Forall2_lookup_l _ _ _ _ _ H5 Hp) as ([] & _ & Ht).
Qed.

Lemma same_names i p q :
  filter takes_position base !! i = Some p → filter takes_position override !! i = Some q → p_name p = p_name q.
Proof.
  intros Hp Hq. destruct checked_facts as (_ & _ & _ & bb & ob & Hbb & Hob & Hs).
  set (n := length (filter takes_position base)) in *. cbn in *.
  assert (i < n)%nat as Hi by (by eapply lookup_lt_Some).
  destruct (places_before base n bb i p Hb (bind_places _ _ _ _ _ Hb Hbb) Hp Hi) as [B1 B2].
  destruct (places_before override n ob i q Ho (bind_places _ _ _ _ _ Ho Hob) Hq Hi) as [O1 O2].
  specialize (Hs p (list_elem_of_lookup_2 _ _ _ Hp)). unfold same_position in Hs.
  rewrite (od_get_first bb i (p_name p) (One i) B1) in Hs by (intros j x Hj Hx; by apply (B2 j x)).
  rewrite (destination_first i ob i (p_name q) O1) in Hs.
  2:{ intros j x Hj Hx. exists j. split; [by apply (O2 j x)|lia]. }
  assert (od_get (p_name q) ((λ q, (p_name q, q)) <$> override) = Some q) as Hg.
  { apply od_get_elem; [rewrite <-list_fmap_compose; apply Ho|]. apply list_elem_of_fmap. exists q. split; [done|]. by apply (positional_elem override i). }
  rewrite Hg in Hs. apply raise_if_Ok in Hs. destruct (decide (p_name q = p_name p)) as [|Hne]; [done|].
  rewrite !bool_decide_false in Hs; [done| |done]. destruct (positional_elem override i q Hq) as [_ [Hk|Hk]]; by rewrite Hk.
Qed.

Lemma shape_accepted c :
  c ∈ [_minimum_call_shape base; _maximal_positional_call_shape base; _maximal_keyword_call_shape base] →
  accepts override (length c.1) c.2.*1.
Proof. intros Hc. apply (bind_iff _ c.1 c.2 Ho). by apply checked_facts. Qed.

(** The calls of the base that the check speaks for: at most two positional arguments
    beyond the named ones, and no extra keyword that the override names. *)
Definition covered_call (n : nat) (K : list pystr) : Prop :=
  (n ≤ length (filter takes_position base) + 2)%nat ∧
  ∀ k, k ∈ K → (∃ p, p ∈ base ∧ named p ∧ p_name p = k) ∨ ∀ q, q ∈ override → p_name q ≠ k.

Lemma named_unique p q : p ∈ base → q ∈ base → p_name p = p_name q → p = q.
Proof.
  intros [i Hi]%list_elem_of_lookup [j Hj]%list_elem_of_lookup Hn.
  assert (i = j) as ->; [|congruence]. eapply (NoDup_lookup _ i j (p_name p) (so_names base Hb)); rewrite list_lookup_fmap; [by rewrite Hi|rewrite Hj; cbn; by rewrite Hn].
Qed.

Lemma override_accepts n K : accepts base n K → covered_call n K → accepts override n K.
Proof.
  intros [Broom Bonce Brest Bonly Bknown] [Hn HK].
  destruct (shape_accepted (_minimum_call_shape base)) as [_ _ Mrest Monly _]; [by left|].
  destruct (shape_accepted (_maximal_positional_call_shape base)) as [Proom Ponce _ _ _]; [by right; left|].
  destruct (shape_accepted (_maximal_keyword_call_shape base)) as [_ _ Krest _ Kknown]; [by right; right; left|].
  destruct (minimum_shape base) as [ML MK], (positional_shape base) as [PL PK], (keyword_shape base) as [KL KK].
  rewrite sum_min_args in ML. rewrite sum_pos_args in PL. rewrite sum_key_args in KL.
  assert (Hlen : (n ≤ length (_maximal_positional_call_shape base).1)%nat).
  { rewrite PL. destruct Broom as [?|(p & Hp & Hk)%has_kind_iff]; [lia|].
    assert (p ∈ filter (of_kind VAR_POSITIONAL) base) as Hin by (by apply list_elem_of_filter).
    destruct (filter (of_kind VAR_POSITIONAL) base); [by apply elem_of_nil in Hin|]. cbn. lia. }
  assert (Hkey : ∀ p, p ∈ base → named p → p_name p ∈ (_maximal_keyword_call_shape base).2.*1).
  { intros p Hp Hnm. apply KK. exists p. split; [done|]. unfold key_keys. rewrite decide_True by done. by left. }
  assert (Hbase : ∀ q, q ∈ override → p_name q ∈ K → ∃ p, p ∈ base ∧ named p ∧ p_name p = p_name q).
  { intros q Hq Hin. destruct (HK _ Hin) as [?|Hf]; [done|]. by destruct (Hf q Hq). }
  split.
  - destruct Proom as [?|?]; [left; lia|by right].
  - intros i q Hq Hi Hk Hin. destruct (positional_elem _ _ _ Hq) as [Hqo _].
    destruct (Hbase q Hqo Hin) as (p & Hp & Hnm & Hpq). destruct Hnm as [Hnm|Hnm].
    + assert (p ∈ filter takes_position base) as [j Hj]%list_elem_of_lookup by (apply list_elem_of_filter; split; [by right|done]).
      assert (¬ (j < n)%nat) as Hge by (intros Hj'; apply (Bonce j p Hj Hj' Hnm); by rewrite Hpq).
      destruct (lookup_lt_is_Some_2 (filter takes_position base) i) as [p' Hp']; [apply lookup_lt_Some in Hj; lia|].
      pose proof (same_names i p' q Hp' Hq) as E.
      pose proof (positional_inj base i j p' p Hb Hp' Hj (eq_trans E (eq_sym Hpq))). lia.
    + apply (Ponce i q Hq); [lia|done|]. apply PK. exists p. split; [done|]. unfold pos_keys. rewrite decide_True by done.
      rewrite Hpq. by left.
  - intros i q Hq Hi. destruct (positional_elem _ _ _ Hq) as [Hqo Ht].
    assert (Honly : p_kind q = POSITIONAL_ONLY → p_name q ∉ K).
    { intros Hk Hin. destruct (Hbase q Hqo Hin) as (p & Hp & Hnm & Hpq).
      destruct (decide (i < length (filter (of_kind POSITIONAL_ONLY) base))%nat) as [Hlt|Hge].
      - destruct (lookup_lt_is_Some_2 (filter takes_position base) i) as [p' Hp'].
        { rewrite (so_positional base Hb), length_app. lia. }
        pose proof (same_names i p' q Hp' Hq) as E. destruct (positional_elem _ _ _ Hp') as [Hpb _].
        rewrite (named_unique p' p Hpb Hp (eq_trans E (eq_sym Hpq))) in Hp'.
        apply (positional_only_first base i p Hb Hp') in Hlt. destruct Hnm as [Hnm|Hnm]; congruence.
      - specialize (Krest i q Hq ltac:(lia)). unfold fills in Krest. rewrite Hk in Krest. destruct Krest as [Hout _].
        apply Hout. rewrite <-Hpq. by apply Hkey. }
    assert (Hreq : p_default q = false → p_name q ∈ K).
    { intros Hd. destruct (decide (i < length (_minimum_call_shape base).1)%nat) as [Hlt|Hge].
      - rewrite ML in Hlt. destruct (lookup_lt_is_Some_2 (filter takes_position base) i) as [p Hp].
        { eapply Nat.lt_le_trans; [exact Hlt|apply length_filter]. }
        apply (required_first _ i p (so_defaults base Hb) Hp) in Hlt. rewrite <-(same_names i p q Hp Hq).
        specialize (Brest i p Hp Hi). unfold fills in Brest. rewrite Hlt in Brest.
        destruct (positional_elem _ _ _ Hp) as [_ [Hk|Hk]]; rewrite Hk in Brest; destruct Brest; done.
      - specialize (Mrest i q Hq ltac:(lia)). unfold fills in Mrest. rewrite Hd in Mrest.
        assert (p_name q ∈ (_minimum_call_shape base).2.*1) as (p & Hp & Hk)%MK.
        { destruct Ht as [Hk|Hk]; rewrite Hk in Mrest; destruct Mrest; done. }
        unfold min_keys in Hk. case_decide as Hd'; [|by apply elem_of_nil in Hk]. apply list_elem_of_singleton in Hk as ->.
        destruct Hd' as [Hk Hpd]. destruct (Bonly p Hp Hk); congruence. }
    unfold fills. destruct (p_default q) eqn:Hd; destruct Ht as [Hk|Hk]; rewrite Hk; auto. by destruct (Honly Hk); apply Hreq.
  - intros q Hq Hk. destruct (Monly q Hq Hk) as [(p & Hp & Hin)%MK|]; [|by right]. left.
    unfold min_keys in Hin. case_decide as Hd; [|by apply elem_of_nil in Hin]. apply list_elem_of_singleton in Hin as ->.
    destruct Hd as [Hpk Hpd]. destruct (Bonly p Hp Hpk); congruence.
  - intros k Hk. assert (Hnamed : (∃ p, p ∈ base ∧ named p ∧ p_name p = k) →
      (∃ p, p ∈ override ∧ named p ∧ p_name p = k) ∨ has_kind VAR_KEYWORD override = true).
    { intros (p & Hp & Hnm & <-). by apply Kknown, Hkey. }
    destruct (HK k Hk) as [?|_]; [by apply Hnamed|]. destruct (Bknown k Hk) as [?|Hv]; [by apply Hnamed|].
    right. by apply checked_facts.
Qed.

(** An accepted call reaches both, and the override has each positional argument where
    the base has it, or in its [*args]. *)
Definition same_landing {V} (args : list V) (bb ob : list (pystr * bound V)) : Prop :=
  ∀ i p a, filter takes_position base !! i = Some p → args !! i = Some a →
    bb !! i = Some (p_name p, One a) ∧
    (ob !! i = Some (p_name p, One a) ∨ ∃ name vs, (name, Rest vs) ∈ ob ∧ a ∈ vs).

Lemma override_binds {V} (args : list V) (kw : list (pystr * V)) bb :
  bind false base args kw = Ok bb → covered_call (length args) kw.*1 →
  ∃ ob, bind false override args kw = Ok ob ∧ same_landing args bb ob.
Proof.
  intros Hbb Hc. assert (accepts base (length args) kw.*1) as Ha by (apply (bind_iff _ _ _ Hb); by exists bb).
  apply (override_accepts _ _ Ha), (bind_iff _ args kw Ho) in Hc as [ob Hob]. exists ob. split; [done|].
  intros i p a Hp Hi. destruct (bind_places _ _ _ _ _ Hb Hbb i a Hi) as [B1 _], (bind_places _ _ _ _ _ Ho Hob i a Hi) as [O1 O2].
  split; [by apply B1|]. destruct (filter takes_position override !! i) as [q|] eqn:Hq.
  - left. rewrite (same_names i p q Hp Hq). by apply O1.
  - right. destruct (O2 eq_refl) as (v & vs & _ & _ & Hl & Hin). exists (p_name v), vs. split; [|done]. by eapply list_elem_of_lookup_2.
Qed.
End override.

(** ** The hooks of a verified runtime *)
Lemma variadic_tail_Ok variadic extension ext :
  variadic_tail variadic extension = Ok ext →
  (variadic = None ∧ ext = extension) ∨ ∃ p, extension = ext ++ [p] ∧ p_kind p = VAR_KEYWORD ∧ is_Some variadic.
Proof.
  unfold variadic_tail. destruct variadic as [name|]; [|intros [= <-]; by left]. destruct (last extension) as [p|] eqn:El; [|done].
  case_decide as Hd; [|done]. intros [= <-]. right. apply last_Some in El as [l ->]. exists p.
  rewrite removelast_last. destruct Hd. by eauto.
Qed.

Lemma prefix_accepts sig required variadic names K :
  signature_ok sig → _accepts_required_prefix (Some sig) required variadic = Ok names →
  (variadic = None → K = []) → (∀ k p, k ∈ K → p ∈ sig → p_name p ≠ k) →
  (length required ≤ length (filter takes_position sig))%nat ∧ accepts sig (length required) K ∧
  ∀ i name, required !! i = Some name → ∃ p, filter takes_position sig !! i = Some p ∧ p_name p = name.
Proof.
  intros Hok Hr HK Hfresh. unfold _accepts_required_prefix in Hr. cbn [_inspect_signature] in Hr.
  apply result_bind_Ok in Hr as (? & [= <-] & Hr). apply result_bind_Ok in Hr as (? & Hg%raise_if_Ok & Hr).
  apply result_bind_Ok in Hr as (ext & Hext & Hr). apply result_bind_Ok in Hr as (? & Hd%raise_if_Ok & _).
  set (n := length required) in *. apply orb_false_iff in Hg as [Hn Hk]. apply negb_false_iff, bool_decide_eq_true in Hn.
  apply negb_false_iff in Hk. rewrite forallb_forall in Hk.
  assert (Htake : ∀ p, p ∈ take n sig → p_kind p = POSITIONAL_OR_KEYWORD).
  { intros p Hp%list_elem_of_In%Hk. by bsimp. }
  assert (Hdrop : ∀ p, p ∈ drop n sig → p_kind p = VAR_POSITIONAL ∨ p_kind p = VAR_KEYWORD ∨ p_default p = true).
  { assert (∀ p, p ∈ ext → p_kind p = VAR_POSITIONAL ∨ p_kind p = VAR_KEYWORD ∨ p_default p = true) as Hin.
    { intros p Hp%list_elem_of_In. destruct (p_default p) eqn:Ed; [auto|].
      destruct (decide (p_kind p = VAR_POSITIONAL)); [auto|]. destruct (decide (p_kind p = VAR_KEYWORD)); [auto|].
      exfalso. apply not_true_iff_false in Hd. apply Hd, existsb_exists. exists p. split; [done|]. by rewrite !bool_decide_false, Ed. }
    intros p Hp. apply variadic_tail_Ok in Hext as [[_ ->]|(q & E & Hq & _)]; [by apply Hin|].
    rewrite E, elem_of_app, list_elem_of_singleton in Hp. destruct Hp as [?| ->]; auto. }
  assert (Hpos : filter takes_position sig = take n sig ++ filter takes_position (drop n sig)).
  { rewrite <-(take_drop n sig) at 1. rewrite filter_app. f_equal.
    assert (Forall takes_position (take n sig)) as Hf by (apply Forall_forall; intros p Hp; right; by apply Htake).
    clear -Hf. induction Hf as [|p l Hp Hf IH]; [done|]. by rewrite filter_cons, decide_True, IH. }
  assert (Hlen : length (take n sig) = n).
  { apply (f_equal length) in Hn. rewrite length_take, length_fmap in Hn. rewrite length_take. done. }
  split; [rewrite Hpos, length_app; lia|]. split; [split|].
  - left. rewrite Hpos, length_app. lia.
  - intros i p Hp _ _ Hin. destruct (positional_elem _ _ _ Hp) as [Hp' _]. by apply (Hfresh _ p Hin).
  - intros i p Hp Hi. destruct (positional_elem _ _ _ Hp) as [Hps Ht].
    rewrite Hpos in Hp. apply lookup_app_Some in Hp as [Hp|[_ Hp]]; [apply lookup_lt_Some in Hp; lia|].
    apply list_elem_of_lookup_2, list_elem_of_filter in Hp as [_ [Hk'|[Hk'|Hp]]%Hdrop].
    + destruct Ht as [Ht|Ht]; congruence.
    + destruct Ht as [Ht|Ht]; congruence.
    + unfold fills. destruct Ht as [Ht|Ht]; rewrite Ht; [|by right]. split; [|done]. intros Hin. by apply (Hfresh _ p Hin).
  - intros p Hp Hko. right. rewrite <-(take_drop n sig) in Hp. apply elem_of_app in Hp as [Hp%Htake|[Hp|[Hp|Hp]]%Hdrop]; congruence.
  - intros k Hin. right. apply variadic_tail_Ok in Hext as [[Hv _]|(q & E & Hq & _)].
    + rewrite (HK Hv) in Hin. by apply elem_of_nil in Hin.
    + apply has_kind_iff. exists q. split; [|done]. rewrite <-(take_drop n sig), E, !elem_of_app. right. right. by left.
  - intros i name Hi. rewrite <-Hn, <-fmap_take, list_lookup_fmap in Hi. rewrite Hpos.
    destruct (take n sig !! i) as [p|] eqn:Ep; [|done]. injection Hi as <-. exists p. split; [by apply lookup_app_l_Some|done].
Qed.

(** Every signature that the runtime shows is one. *)
Definition class_ok (c : pyclass) : Prop :=
  (∀ sig, cl_init c = Some sig → signature_ok sig) ∧
  ∀ name sig, signature_of (cl_attr c name) = Some sig → signature_ok sig.

Lemma check_hook_Ok base connector name required variadic u :
  check_hook base connector (name, (required, variadic)) = Ok u →
  ∃ bs os, signature_of (cl_attr base name) = Some bs ∧ signature_of (cl_attr connector name) = Some os ∧
  (∃ names, _accepts_required_prefix (Some bs) required variadic = Ok names) ∧
  _assert_override_substitutable (Some bs) (Some os) = Ok tt.
Proof.
  unfold check_hook. intros (names & Hn & Hs)%result_bind_Ok.
  destruct (signature_of (cl_attr base name)) as [bs|]; [|done].
  destruct (signature_of (cl_attr connector name)) as [os|]; [|done]. exists bs, os. destruct u. eauto.
Qed.

Lemma verified_hooks `{Sha} r receipt connector abstract :
  rt_connector r = Some (connector, abstract) → verify_vllm_runtime r = Ok receipt →
  ∀ h, h ∈ hook_contracts (rt_base r) → check_hook (rt_base r) connector h = Ok tt.
Proof.
  intros Hc Hr h Hh. unfold verify_vllm_runtime in Hr. rewrite Hc in Hr. destruct (rt_require_pp_aware r); try done.
  inv_ok. match goal with H : check_hooks _ _ _ = _ |- _ => unfold check_hooks in H; cbn zeta in H end. inv_ok.
  match goal with H : Forall2 _ (hook_contracts _) _ |- _ => rename H into Hall end.
  apply list_elem_of_lookup in Hh as [i Hi]. by destruct (Forall2_lookup_l _ _ _ _ _ Hall Hi) as ([] & _ & ?).
Qed.

(** ** The fingerprint of the package *)
Lemma nonzero_byte z : z mod 256 ≠ 0 → z_to_byte z ≠ x00.
Proof. intros Hz E. apply (f_equal byte_to_z) in E. by rewrite byte_to_z_to_byte in E. Qed.

Lemma utf8_char_nonzero c a : utf8_char c = Some a → c ≠ 0 → x00 ∉ a.
Proof.
  unfold utf8_char. intros Ha Hc. repeat (case_match; bsimp; try done); injection Ha as <-;
    repeat (apply not_elem_of_cons; split; [apply not_eq_sym, nonzero_byte; Z.to_euclidean_division_equations; lia|]); apply not_elem_of_nil.
Qed.

Lemma encode_nonzero s b : encode_utf8 s = Ok b → 0 ∉ s → x00 ∉ b.
Proof.
  unfold encode_utf8. destruct (utf8_encode s) as [u|] eqn:E; [|done]. intros [= <-]. revert u E.
  induction s as [|c s IH]; intros u; cbn; [intros [= <-] _; apply not_elem_of_nil|].
  destruct (utf8_char c) as [a|] eqn:Ec; cbn; [|done]. destruct (utf8_encode s) as [r|]; cbn; [|done]. intros [= <-] Hs.
  apply not_elem_of_cons in Hs as [Hc Hs]. rewrite elem_of_app. intros [Hin|Hin]; [by apply (utf8_char_nonzero c a)|by apply (IH r)].
Qed.

Lemma split_at_zero (u v s t : list byte) : x00 ∉ u → x00 ∉ v → u ++ x00 :: s = v ++ x00 :: t → u = v ∧ s = t.
Proof.
  revert v; induction u as [|a u IH]; intros [|b v] Hu Hv; cbn.
  - by intros [= ->].
  - intros [= <- _]. destruct Hv. by left.
  - intros [= -> _]. destruct Hu. by left.
  - intros [= -> E]. apply not_elem_of_cons in Hu as [_ Hu]. apply not_elem_of_cons in Hv as [_ Hv].
    by destruct (IH v Hu Hv E) as [-> ->].
Qed.

Lemma to_bytes_big_Ok n z b : to_bytes_big n z = Ok b → 0 ≤ z < 256 ^ Z.of_nat n ∧ b = reverse (le_pack n z).
Proof. unfold to_bytes_big. case_match; [|done]. intros [= <-]. bsimp. split; [lia|done]. Qed.

Lemma to_bytes_big_length n z b : to_bytes_big n z = Ok b → length b = n.
Proof. intros [_ ->]%to_bytes_big_Ok. by rewrite length_reverse, le_pack_length. Qed.

Lemma to_bytes_big_inj n y z b : to_bytes_big n y = Ok b → to_bytes_big n z = Ok b → y = z.
Proof. intros [Hy ->]%to_bytes_big_Ok [Hz E]%to_bytes_big_Ok. apply (inj reverse) in E. by apply (le_pack_inj n). Qed.

(** The four bytes of a small index begin with zero. *)
Lemma index_zero i b : to_bytes_big 4 i = Ok b → i < 2 ^ 24 → ∃ t, b = x00 :: t.
Proof.
  intros [Hi ->]%to_bytes_big_Ok Hlt. unfold le_pack. cbn. unfold reverse. cbn.
  rewrite (Z.div_small (i / 256 / 256) 256) by (Z.to_euclidean_division_equations; lia). by eexists.
Qed.

(** What is read of one root; a file whose [fstat] did not change has as many bytes as its
    size says, and names are made of non-empty parts without a NUL. *)
Definition content_of (v : root_view) (name : pystr) : list byte :=
  match rv_read v name with Some (_, Some (content, _)) => content | _ => [] end.
Definition root_files (v : root_view) : list (pystr * list byte) :=
  match _package_files (rv_before v) with
  | Ok names => (λ name, (name, content_of v name)) <$> names
  | Raise _ => []
  end.

Record view_ok (v : root_view) : Prop := {
  vo_names : ∀ names name, _package_files (rv_before v) = Ok names → name ∈ names → name ≠ [] ∧ 0 ∉ name;
  vo_sizes : ∀ name s content, rv_read v name = Some (s, Some (content, s)) → Z.of_nat (length content) = st_size s
}.

(** A block of the stream: the name, the size and the bytes of a file. *)
Definition block (f : pystr * list byte) (b : list byte) : Prop :=
  ∃ name size, encode_utf8 f.1 = Ok name ∧ to_bytes_big 8 (Z.of_nat (length f.2)) = Ok size ∧
  b = name ++ x00 :: size ++ f.2 ∧ f.1 ≠ [] ∧ 0 ∉ f.1.

Lemma block_inj f g b c r s : block f b → block g c → b ++ r = c ++ s → f = g ∧ r = s.
Proof.
  intros (n1 & z1 & Hn1 & Hz1 & -> & _ & H1) (n2 & z2 & Hn2 & Hz2 & -> & _ & H2) E.
  rewrite <-!app_assoc in E. cbn in E. apply split_at_zero in E as [-> E]; [|by eapply encode_nonzero..].
  rewrite <-!app_assoc in E. apply app_inj_1 in E as [-> E].
  2:{ apply to_bytes_big_length in Hz1 as ->. by apply to_bytes_big_length in Hz2 as ->. }
  pose proof (to_bytes_big_inj _ _ _ _ Hz1 Hz2) as Hl. apply app_inj_1 in E as [E ->]; [|lia].
  split; [|done]. destruct f, g; cbn in *. f_equal; [by eapply encode_utf8_inj|done].
Qed.

Lemma block_start f b : block f b → ∃ x t, b = x :: t ∧ x ≠ x00.
Proof.
  intros (n & z & Hn & Hz & -> & Hf & H0). pose proof (encode_nonzero _ _ Hn H0) as Hx.
  destruct n as [|x n]; [|exists x; eexists; split; [done|]; intros ->; apply Hx; by left].
  unfold encode_utf8 in Hn. destruct f.1 as [|c s]; [done|]. cbn in Hn.
  destruct (utf8_char c) as [a|] eqn:E; cbn in Hn; [|done]. apply utf8_char_nonempty in E.
  destruct (utf8_encode s); cbn in Hn; [|done]. injection Hn as Hn. by destruct a.
Qed.

(** The bytes behind the files of a root: none, or an index that begins with zero. *)
Definition after_files (r : list byte) : Prop := r = [] ∨ ∃ t, r = x00 :: t.

Lemma blocks_inj fs gs bs cs r s :
  Forall2 block fs bs → Forall2 block gs cs → after_files r → after_files s →
  concat bs ++ r = concat cs ++ s → fs = gs ∧ r = s.
Proof.
  intros Hf. revert gs cs. induction Hf as [|f b fs bs Hb Hf IH]; intros gs cs Hg Hr Hs; inversion_clear Hg as [|g c gs' cs' Hc Hg']; cbn.
  - done.
  - destruct (block_start g c Hc) as (x & t & -> & Hx). intros ->. destruct Hr as [[=]|[u [= -> _]]]. done.
  - destruct (block_start f b Hb) as (x & t & -> & Hx). intros <-. destruct Hs as [[=]|[u [= -> _]]]. done.
  - rewrite <-!app_assoc. intros E. destruct (block_inj _ _ _ _ _ _ Hb Hc E) as [-> E'].
    by destruct (IH gs' cs' Hg' Hr Hs E') as [-> ->].
Qed.

Lemma hash_file_block v name b :
  view_ok v → name ≠ [] → 0 ∉ name → hash_file (rv_read v) name = Ok b → block (name, content_of v name) b.
Proof.
  intros Hv Hn H0 Hb. unfold hash_file in Hb. unfold content_of. destruct (rv_read v name) as [[before rest]|] eqn:Er; [|done].
  apply result_bind_Ok in Hb as (u & Hu & Hb). apply result_bind_Ok in Hb as (size & Hz & Hb).
  destruct rest as [[content after]|]; [|done]. apply result_bind_Ok in Hb as (? & Hg%raise_if_Ok & [= <-]).
  apply negb_false_iff, bool_decide_eq_true in Hg as <-. exists u, size. cbn. split_and!; try done.
  by rewrite (vo_sizes v Hv name before content Er).
Qed.

Lemma hash_root_blocks i v r : view_ok v → hash_root i v = Ok r →
  ∃ index bs, to_bytes_big 4 i = Ok index ∧ r.1 = index ++ concat bs ∧ Forall2 block (root_files v) bs.
Proof.
  intros Hv Hr. unfold hash_root in Hr. apply result_bind_Ok in Hr as (names & Hn & Hr).
  apply result_bind_Ok in Hr as (index & Hi & Hr). apply result_bind_Ok in Hr as (bs & Hbs%mapM_result_Ok & Hr).
  apply result_bind_Ok in Hr as (after & _ & Hr). apply result_bind_Ok in Hr as (? & _ & [= <-]).
  exists index, bs. split; [done|]. split; [done|]. unfold root_files. rewrite Hn. apply Forall2_fmap_l.
  assert (∀ name, name ∈ names → name ≠ [] ∧ 0 ∉ name) as Hok by (intros name; by apply (vo_names v Hv)).
  clear -Hv Hbs Hok. induction Hbs as [|name b names bs Hb Hbs IH]; constructor.
  - destruct (Hok name) as [? ?]; [by left|]. by apply hash_file_block.
  - apply IH. intros x Hx. apply Hok. by right.
Qed.

Definition hashed (k : Z) (vs : list root_view) (parts : list (list byte * nat)) : Prop :=
  Forall2 (λ p r, hash_root p.1 p.2 = Ok r) (zip (seqZ k (Z.of_nat (length vs))) vs) parts.

Lemma hashed_cons k v vs parts : hashed k (v :: vs) parts →
  ∃ r rest, parts = r :: rest ∧ hash_root k v = Ok r ∧ hashed (k + 1) vs rest.
Proof.
  unfold hashed. cbn [length]. rewrite Nat2Z.inj_succ, seqZ_cons by lia. cbn [zip].
  inversion 1 as [|? r ? rest Hr Hrest]; subst. exists r, rest. split; [done|]. split; [done|].
  replace (Z.of_nat (length vs)) with (Z.pred (Z.succ (Z.of_nat (length vs)))) by lia.
  replace (k + 1) with (Z.succ k) by lia. done.
Qed.

Lemma hashed_after k vs parts : Forall view_ok vs → 0 ≤ k → k + Z.of_nat (length vs) ≤ 2 ^ 24 → hashed k vs parts →
  after_files (concat parts.*1).
Proof.
  intros Hv Hk Hle Hh. destruct vs as [|v vs]; [inversion Hh; by left|]. right.
  apply hashed_cons in Hh as (r & rest & -> & Hr & _). apply Forall_cons in Hv as [Hv _].
  destruct (hash_root_blocks _ _ _ Hv Hr) as (index & bs & Hi & E & _). cbn. rewrite E.
  destruct (index_zero _ _ Hi) as [t ->]; [cbn [length] in Hle; lia|]. by eexists.
Qed.

Lemma hashed_inj k vs ws ps qs : Forall view_ok vs → Forall view_ok ws → 0 ≤ k →
  k + Z.of_nat (length vs) ≤ 2 ^ 24 → k + Z.of_nat (length ws) ≤ 2 ^ 24 →
  hashed k vs ps → hashed k ws qs → concat ps.*1 = concat qs.*1 → root_files <$> vs = root_files <$> ws.
Proof.
  intros Hv. revert k ws ps qs. induction Hv as [|v vs Hv Hvs IH]; intros k ws ps qs Hw Hk Hl1 Hl2 Hp Hq E.
  - inversion Hp; subst. destruct ws as [|w ws]; [done|]. apply hashed_cons in Hq as (r & rest & -> & Hr & _).
    apply Forall_cons in Hw as [Hw _]. destruct (hash_root_blocks _ _ _ Hw Hr) as (index & bs & Hi & E' & _).
    cbn in E. rewrite E' in E. apply to_bytes_big_length in Hi. by destruct index.
  - apply hashed_cons in Hp as (r & ps' & -> & Hr & Hp). destruct (hash_root_blocks _ _ _ Hv Hr) as (index & bs & Hi & Er & Hb).
    destruct ws as [|w ws].
    { inversion Hq; subst. cbn in E. rewrite Er in E. apply to_bytes_big_length in Hi. by destruct index. }
    apply hashed_cons in Hq as (r' & qs' & -> & Hr' & Hq). apply Forall_cons in Hw as [Hw Hws].
    destruct (hash_root_blocks _ _ _ Hw Hr') as (index' & bs' & Hi' & Er' & Hb').
    rewrite Hi in Hi'. injection Hi' as <-. cbn in E. rewrite Er, Er', <-!app_assoc in E. apply app_inv_head in E.
    cbn [length] in Hl1, Hl2. apply (blocks_inj _ _ _ _ _ _ Hb Hb') in E as [Ef E];
      [|apply (hashed_after (k + 1) vs); [done|lia..|done]|apply (hashed_after (k + 1) ws); [done|lia..|done]].
    cbn. f_equal; [done|]. apply (IH (k + 1) ws ps' qs' Hws); [lia..|done|done|done].
Qed.

Lemma package_stream_inj vs ws s t : Forall view_ok vs → Forall view_ok ws →
  Z.of_nat (length vs) ≤ 2 ^ 24 → Z.of_nat (length ws) ≤ 2 ^ 24 →
  package_stream vs = Ok s → package_stream ws = Ok t → s.1 = t.1 → root_files <$> vs = root_files <$> ws.
Proof.
  intros Hv Hw Hl1 Hl2 Hs Ht E. unfold package_stream in Hs, Ht.
  apply result_bind_Ok in Hs as (ps & Hp%mapM_result_Ok & <-%Ok_inj). apply result_bind_Ok in Ht as (qs & Hq%mapM_result_Ok & <-%Ok_inj).
  change (package_magic ++ concat ps.*1 = package_magic ++ concat qs.*1) in E. apply app_inv_head in E. by apply (hashed_inj 0 vs ws ps qs Hv Hw).
Qed.

(** ** Properties *)

(** C16: An override that passes the check receives the calls of its base: every call that
    the base accepts is accepted by the override, each positional argument under the
    name it has in the base or in [*args], if the call has at most two positional
    arguments beyond the named ones and its extra keywords name no parameter of the
    override. *)
Theorem override_receives_calls {V} (base override : signature) (args : list V) (kw : list (pystr * V)) (bb : arguments V) :
  signature_ok base → signature_ok override → _assert_override_substitutable (Some base) (Some override) = Ok tt →
  bind false base args kw = Ok bb → covered_call base override (length args) kw.*1 →
  ∃ ob, bind false override args kw = Ok ob ∧ same_landing base args bb ob.
Proof. intros Hb Ho Hc. by apply override_binds. Qed.

(** C21: In a verified runtime every hook of the table answers the call of its contract, in
    the base and in the connector: the required arguments by position, with any fresh
    keywords where the contract has a variadic one.  The base gives each argument its name
    in the contract, and so does the connector unless it takes it in [*args]. *)
Theorem verified_hooks_answer `{Sha} {V} (r : runtime) (receipt : RuntimeReceipt) (connector : pyclass) (abstract : bool)
    (name : pystr) (required : list pystr) (variadic : option pystr) (args : list V) (kw : list (pystr * V)) :
  rt_connector r = Some (connector, abstract) → class_ok (rt_base r) → class_ok connector →
  verify_vllm_runtime r = Ok receipt → (name, (required, variadic)) ∈ hook_contracts (rt_base r) →
  length args = length required → (variadic = None → kw = []) →
  (∀ c sig p k, c = rt_base r ∨ c = connector → signature_of (cl_attr c name) = Some sig → p ∈ sig → k ∈ kw.*1 → p_name p ≠ k) →
  ∃ bs os bb ob, signature_of (cl_attr (rt_base r) name) = Some bs ∧ signature_of (cl_attr connector name) = Some os ∧
    bind false bs args kw = Ok bb ∧ bind false os args kw = Ok ob ∧
    ∀ i parameter a, required !! i = Some parameter → args !! i = Some a →
      bb !! i = Some (parameter, One a) ∧
      (ob !! i = Some (parameter, One a) ∨ ∃ star vs, (star, Rest vs) ∈ ob ∧ a ∈ vs).
Proof.
  intros Hc Hb Ho Hr Hh Hlen Hkw Hfresh.
  destruct (check_hook_Ok _ _ _ _ _ _ (verified_hooks r receipt connector abstract Hc Hr _ Hh)) as (bs & os & Hbs & Hos & [names Hn] & Hs).
  pose proof (proj2 Hb _ _ Hbs) as Bok. pose proof (proj2 Ho _ _ Hos) as Ook.
  destruct (prefix_accepts bs required variadic names kw.*1 Bok Hn) as (Hle & Ha & Hnames);
    [intros Hv; by rewrite (Hkw Hv)|intros k p Hk Hp; apply (Hfresh (rt_base r) bs p k); auto|].
  rewrite <-Hlen in Ha, Hle. apply (bind_iff bs args kw Bok) in Ha as [bb Hbb].
  destruct (override_binds bs os Bok Ook Hs args kw bb Hbb) as (ob & Hob & Hland).
  { split; [lia|]. intros k Hk. right. intros q Hq. apply (Hfresh connector os q k); auto. }
  exists bs, os, bb, ob. split_and!; try done. intros i parameter a Hi Ha.
  destruct (Hnames i parameter Hi) as (p & Hp & <-). by apply (Hland i p a).
Qed.

(** C19: The fingerprint binds the package: two installations with the same digest have the
    same roots in the same order, with the same file names and the same bytes, unless the
    two hashed streams collide under SHA-256. *)
Theorem package_digest_binding `{Sha} (vs ws : list root_view) (d : pystr) (s t : list byte * nat) :
  Forall view_ok vs → Forall view_ok ws → Z.of_nat (length vs) ≤ 2 ^ 24 → Z.of_nat (length ws) ≤ 2 ^ 24 →
  _installed_package_sha256 vs = Ok d → _installed_package_sha256 ws = Ok d →
  package_stream vs = Ok s → package_stream ws = Ok t →
  root_files <$> vs = root_files <$> ws ∨ collision [s.1; t.1].
Proof.
  intros Hv Hw Hl1 Hl2 Hd Hd' Hs Ht. unfold _installed_package_sha256 in Hd, Hd'. rewrite Hs in Hd. rewrite Ht in Hd'. cbn in Hd, Hd'.
  apply result_bind_Ok in Hd as (_ & _ & [= Hd]). apply result_bind_Ok in Hd' as (_ & _ & [= Hd']).
  rewrite <-Hd in Hd'. apply bytes_hex_inj in Hd'.
  destruct (sha256_eq_or_collision t.1 s.1 [s.1; t.1]) as [E|]; [set_solver|set_solver|done| |by right].
  left. by apply (package_stream_inj vs ws s t).
Qed.

(** ** A small runtime *)
Module RuntimeExamples.
#[local] Existing Instance sha256_fips.

Definition required (names : list string) : signature := (λ n, Param (lit n) POSITIONAL_OR_KEYWORD false) <$> names.
Definition star (name : string) : parameter := Param (lit name) VAR_POSITIONAL false.
Definition keywords (name : string) : parameter := Param (lit name) VAR_KEYWORD false.

(** A signature without defaults is checked by evaluation. *)
Definition plain (sig : signature) : bool :=
  bool_decide (NoDup (p_name <$> sig)) &&
  bool_decide (sig = filter takes_position sig ++ filter (of_kind VAR_POSITIONAL) sig
                     ++ filter (of_kind KEYWORD_ONLY) sig ++ filter (of_kind VAR_KEYWORD) sig) &&
  bool_decide (filter takes_position sig = filter (of_kind POSITIONAL_ONLY) sig ++ filter (of_kind POSITIONAL_OR_KEYWORD) sig) &&
  bool_decide (length (filter (of_kind VAR_POSITIONAL) sig) ≤ 1)%nat && bool_decide (Forall (λ p, p_default p = false) sig).
Lemma plain_ok sig : plain sig = true → signature_ok sig.
Proof.
  unfold plain. intros Hp. repeat (apply andb_true_iff in Hp as [Hp ?]).
  repeat match goal with H : bool_decide _ = true |- _ => apply bool_decide_eq_true in H end. split; try done.
  intros i j p q _ Hi _ Hd. destruct (positional_elem _ _ _ Hi) as [Hin _].
  match goal with H : Forall _ sig |- _ => rewrite Forall_forall in H; specialize (H p Hin) end. congruence.
Qed.

(** vLLM's [save_kv_layer], and an override that takes the tensors in [*args]. *)
Definition save_base : signature :=
  required ["self"; "layer_name"; "kv_layer"; "attn_metadata"]%string ++ [keywords "kwargs"].
Definition save_override : signature := required ["self"; "layer_name"]%string ++ [star "args"; keywords "kwargs"].
Definition save_call : list (pystr * nat) := [(lit "extra", 5%nat)].
Definition save_bound : arguments nat :=
  [(lit "self", One 1%nat); (lit "layer_name", One 2%nat); (lit "kv_layer", One 3%nat); (lit "attn_metadata", One 4%nat);
   (lit "kwargs", Keywords save_call)].

Lemma override_receives_calls_witness :
  ∃ ob, bind false save_override [1; 2; 3; 4]%nat save_call = Ok ob ∧ same_landing save_base [1; 2; 3; 4]%nat save_bound ob.
Proof.
  apply (override_receives_calls save_base save_override [1; 2; 3; 4]%nat save_call save_bound
           (plain_ok save_base eq_refl) (plain_ok save_override eq_refl) eq_refl eq_refl).
  split; [by apply Nat.leb_le|]. intros k Hk. right. intros q Hq E. subst k.
  revert Hk. apply (bool_decide_eq_true_1 (p_name q ∉ save_call.*1)). revert q Hq.
  apply (Forall_forall (λ q, bool_decide (p_name q ∉ save_call.*1) = true)). repeat constructor.
Defined.

(** The check does not see these two calls: three arguments beyond the named ones, where
    two were tried, and a keyword for the base's [**kwargs] that the override names. *)
Definition optional (name : string) : parameter := Param (lit name) POSITIONAL_OR_KEYWORD true.
Definition only (name : string) : parameter := Param (lit name) KEYWORD_ONLY true.
Definition star_base : signature := required ["self"]%string ++ [star "args"; only "key"].
Definition star_override : signature :=
  required ["self"]%string ++ [optional "first"; optional "second"; optional "key"; star "args"].
Definition slash_base : signature := [Param (lit "x") POSITIONAL_ONLY false; keywords "kwargs"].
Definition slash_override : signature := required ["x"]%string ++ [keywords "kwargs"].

Lemma substitution_check_is_partial :
  _assert_override_substitutable (Some star_base) (Some star_override) = Ok tt ∧
  is_ok (bind false star_base [1; 2; 3; 4]%nat [(lit "key", 5%nat)]) = true ∧
  is_ok (bind false star_override [1; 2; 3; 4]%nat [(lit "key", 5%nat)]) = false ∧
  _assert_override_substitutable (Some slash_base) (Some slash_override) = Ok tt ∧
  is_ok (bind false slash_base [1]%nat [(lit "x", 2%nat)]) = true ∧
  is_ok (bind false slash_override [1]%nat [(lit "x", 2%nat)]) = false.
Proof. repeat split; vm_compute; reflexivity. Qed.

(** A runtime whose hooks are the contracts themselves, and its package of one module. *)
Definition signature_of_contract (c : contract) : signature :=
  ((λ n, Param n POSITIONAL_OR_KEYWORD false) <$> c.1) ++ match c.2 with Some n => [Param n VAR_KEYWORD false] | None => [] end.
Definition hooks : list (pystr * contract) :=
  (completion_name, ([lit "self"; lit "request"; lit "block_ids"], None)) :: _CONNECTOR_HOOK_CONTRACTS.
Definition the_class : pyclass :=
  PyClass (Some (required ["self"; "vllm_config"; "role"; "kv_cache_config"]%string))
    (λ name, match od_get name hooks with Some c => Attribute true (Some (signature_of_contract c)) | None => Missing end).

Lemma the_class_ok : class_ok the_class.
Proof.
  split; [intros sig [= <-]; by apply plain_ok|]. intros name sig. cbn [the_class cl_attr]. destruct (od_get name hooks) as [c|] eqn:E; [|done].
  intros [= <-]. apply plain_ok. assert (c ∈ hooks.*2) as Hc.
  { apply (proj1 (od_get_elem name c hooks ltac:(apply (bool_decide_eq_true_1 _); vm_compute; reflexivity))) in E.
    exact (list_elem_of_fmap_2 snd _ _ E). }
  revert c Hc E. assert (Forall (λ c, plain (signature_of_contract c) = true) hooks.*2) as Hall by (repeat constructor).
  intros c Hc _. rewrite Forall_forall in Hall. by apply Hall.
Qed.

Definition module_stat : stat := Stat 1 2 3 4.
Definition module_bytes : list byte := z_to_byte <$> [120; 61; 49].
Definition listing (l : list (list string)) : list entry := (λ p, Entry (lit <$> p) true) <$> l.
Definition view (l : list (list string)) : root_view :=
  RootView (Some (listing l)) (Some (listing l)) (λ _, Some (module_stat, Some (module_bytes, module_stat))).

Definition vllm : runtime :=
  Runtime the_class (Some (the_class, false)) the_class (Attribute true (Some (required ["spec"]%string)))
    (VBool false) (VStr (lit "0.11.0")) None (Ok [lit "/vllm"]) (λ _, view [["a.py"]; ["a.pyc"]]%string).
Definition no_receipt : RuntimeReceipt := Receipt [] [] [] [] [] [] [].
Definition receipt : RuntimeReceipt := match verify_vllm_runtime vllm with Ok r => r | Raise _ => no_receipt end.
Lemma verified : verify_vllm_runtime vllm = Ok receipt.
Proof.
  assert (is_ok (verify_vllm_runtime vllm) = true) as Hok by (vm_compute; reflexivity). unfold receipt.
  by destruct (verify_vllm_runtime vllm).
Qed.

Example receipt_capabilities : length (capabilities receipt) = 19%nat.
Proof. vm_compute. reflexivity. Qed.

Definition start_hook : pystr * contract := (lit "start_load_kv", ([lit "self"; lit "forward_context"], Some (lit "kwargs"))).
Lemma start_listed : start_hook ∈ hook_contracts the_class.
Proof. apply (bool_decide_eq_true_1 _). vm_compute. reflexivity. Qed.

Lemma verified_hooks_answer_witness :
  ∃ bs os bb ob, signature_of (cl_attr the_class start_hook.1) = Some bs ∧ signature_of (cl_attr the_class start_hook.1) = Some os ∧
    bind false bs [1; 2]%nat save_call = Ok bb ∧ bind false os [1; 2]%nat save_call = Ok ob ∧
    ∀ i parameter a, start_hook.2.1 !! i = Some parameter → [1; 2]%nat !! i = Some a →
      bb !! i = Some (parameter, One a) ∧
      (ob !! i = Some (parameter, One a) ∨ ∃ star vs, (star, Rest vs) ∈ ob ∧ a ∈ vs).
Proof.
  apply (verified_hooks_answer vllm receipt the_class false start_hook.1 start_hook.2.1 start_hook.2.2 [1; 2]%nat save_call
           eq_refl the_class_ok the_class_ok verified start_listed eq_refl); [done|].
  intros c sig p k Hc. assert (c = the_class) as -> by tauto. intros Hs. injection Hs as <-. intros Hp Hk.
  apply list_elem_of_singleton in Hk as ->. revert p Hp.
  apply (Forall_forall (λ p, p_name p ≠ lit "extra")). apply (bool_decide_eq_true_1 _). vm_compute. reflexivity.
Defined.

Lemma view_is_ok l : Forall (λ p, p ≠ [] ∧ 0 ∉ p) (as_posix ∘ en_parts <$> listing l) → view_ok (view l).
Proof.
  intros Hl. split; [|by intros name s content [= <- <-]]. intros names name [= <-] Hn. unfold py_sorted_keys in Hn.
  rewrite merge_sort_Permutation in Hn. apply list_elem_of_fmap in Hn as (e & -> & He). apply list_elem_of_filter in He as [_ He].
  rewrite Forall_forall in Hl. by apply Hl, list_elem_of_fmap_2.
Qed.

Definition listed_one_way : root_view := view [["a.py"]; ["a.pyc"]; ["c"; "b.py"]]%string.
Definition listed_another : root_view := view [["c"; "b.py"]; [".git"; "x"]; ["a.py"]]%string.
Lemma listed_ok : Forall view_ok [listed_one_way] ∧ Forall view_ok [listed_another].
Proof.
  split; (constructor; [|constructor]); apply view_is_ok; apply (bool_decide_eq_true_1 _); vm_compute; reflexivity.
Qed.
Definition value {A} (r : result A) (d : A) : A := match r with Ok a => a | Raise _ => d end.
Abbreviation digest := (value (_installed_package_sha256 [listed_one_way]) []).
Abbreviation stream := (value (package_stream [listed_one_way]) ([], 0%nat)).

Lemma package_digest_binding_witness :
  root_files <$> [listed_one_way] = root_files <$> [listed_another] ∨ collision [stream.1; stream.1].
Proof.
  apply (package_digest_binding [listed_one_way] [listed_another] digest stream stream (proj1 listed_ok) (proj2 listed_ok));
    [cbn; lia|cbn; lia|vm_compute; reflexivity..].
Defined.
End RuntimeExamples.
