(* ===== verification/Hma.v ===== *)
(** * HMA page geometry ([src/spoolcache/hma.py])

    The frozen layout of a worker: layers, manager groups with their reuse
    policy, and the page selection that a cache span implies.  Digests are the
    SHA-256 of canonical JSON, as in [HMALayout.digest] and its two relatives.
    [math.ceil((window - 1) / width)] is written as the exact ceiling: Python's
    true division of integers below [2 ** 53] rounds to the same ceiling. *)
From S2P Require Import Prelude Bytes Utf8 Json.

Definition LAYOUT_SCHEMA : pystr := lit "spoolcache-hma-layout/v4".
Definition VLLM_RUNTIME_KV_PROFILE : pystr := lit "vllm-runtime-kv-v1".

Record LayerGeometry := Layer {
  layer_name : pystr;
  layer_spec_name : pystr;
  page_size_bytes : Z
}.

Inductive policy := PFull | PSliding | PRecurrentAlign | PCircularOne.
#[export] Instance policy_eq_dec : EqDecision policy.
Proof. solve_decision. Defined.

Definition policy_name (p : policy) : pystr :=
  match p with
  | PFull => lit "full" | PSliding => lit "sliding"
  | PRecurrentAlign => lit "recurrent_align" | PCircularOne => lit "circular_one"
  end.

Record GroupGeometry := Group {
  group_index : Z;
  group_spec_name : pystr;
  block_size : Z;
  storage_block_size : Z;
  manager_page_size_bytes : Z;
  dcp_replicated : bool;
  dcp_shard_count : Z;
  logical_tokens_per_page : Z;
  reuse_policy : policy;
  reuse_window_tokens : option Z;
  running_state_tail_pages : Z;
  is_eagle_group : bool;
  layers : list LayerGeometry
}.

Definition layer_post_init (l : LayerGeometry) : result unit :=
  let n := Z.of_nat (length (layer_name l)) in
  _ ← raise_if ((n =? 0) || (512 <? n)) LayoutError "HMA layer name is invalid";
  raise_if ((Z.of_nat (length (layer_spec_name l)) =? 0) || (page_size_bytes l <=? 0)) LayoutError
    "HMA layer page geometry is incomplete".

Definition group_post_init (g : GroupGeometry) : result unit :=
  _ ← raise_if ((group_index g <? 0)
        || existsb (λ v, v <=? 0) [block_size g; storage_block_size g; manager_page_size_bytes g;
                                   dcp_shard_count g; logical_tokens_per_page g])
        LayoutError "HMA group geometry must be positive";
  _ ← raise_if (block_size g <? storage_block_size g) LayoutError
        "HMA storage block exceeds its logical block";
  _ ← raise_if (negb (logical_tokens_per_page g =? block_size g * dcp_shard_count g)) LayoutError
        "HMA logical page width is inconsistent";
  _ ← match reuse_policy g with
      | PSliding => match reuse_window_tokens g with
                    | None => raise LayoutError "sliding HMA group has an invalid window"
                    | Some w => raise_if (w <=? 1) LayoutError "sliding HMA group has an invalid window"
                    end
      | _ => raise_if (bool_decide (is_Some (reuse_window_tokens g))) LayoutError
               "non-sliding HMA group declares a window"
      end;
  _ ← raise_if (running_state_tail_pages g <? 0) LayoutError
        "HMA running-state tail must not be negative";
  _ ← raise_if (negb (bool_decide (reuse_policy g = PRecurrentAlign))
                && negb (running_state_tail_pages g =? 0)) LayoutError
        "only recurrent HMA groups may declare a state tail";
  let names := layer_name <$> layers g in
  raise_if (negb (bool_decide (names = py_sorted_keys names)) || negb (bool_decide (NoDup names)))
    LayoutError "HMA group layers must be sorted and unique".

Definition ceil_div (a b : Z) : Z := (a + b - 1) / b.

Definition selected_page_count (g : GroupGeometry) (span_tokens : pyval) : result Z :=
  span ← need_int span_tokens (λ z, z <=? 0) LayoutError "HMA span must be positive";
  match reuse_policy g with
  | PCircularOne => Ok 1
  | p =>
      _ ← raise_if (negb (span mod logical_tokens_per_page g =? 0)) LayoutError
            "HMA span is not aligned to every manager group";
      let required := span / logical_tokens_per_page g in
      match p with
      | PFull => Ok required
      | PSliding =>
          let window_pages :=
            ceil_div (default 0 (reuse_window_tokens g) - 1) (logical_tokens_per_page g) in
          Ok (Z.min required window_pages)
      | PRecurrentAlign => Ok 1
      | PCircularOne => Ok 1
      end
  end.

(** A physical block identifier: vLLM's null block is 0. *)
Definition valid_page (v : pyval) : result Z :=
  need_int v (λ z, z <=? 0) LayoutError "selected HMA page contains vLLM's null/invalid block".

(** The pages of the block table that one group persists for a span. *)
Definition candidate_pages (g : GroupGeometry) (block_table : list pyval) (span selected : Z)
    : result (list pyval) :=
  let boundary_pages := span / logical_tokens_per_page g in
  let n := Z.of_nat (length block_table) in
  match reuse_policy g with
  | PCircularOne =>
      if n =? 1 then Ok block_table
      else raise LayoutError "circular HMA group must expose exactly one page"
  | PRecurrentAlign =>
      let active_index := n - 1 - running_state_tail_pages g in
      if active_index <? boundary_pages
      then raise LayoutError "recurrent HMA block table lacks the active running-state page"
      else Ok (take 1 (drop (Z.to_nat active_index) block_table))
  | _ =>
      if n <? boundary_pages
      then raise LayoutError "request block table is shorter than the cache span"
      else Ok (take (Z.to_nat selected) (drop (Z.to_nat (boundary_pages - selected)) block_table))
  end.

Definition select_physical_pages (g : GroupGeometry) (block_table : list pyval) (span_tokens : pyval)
    : result (list Z) :=
  selected ← selected_page_count g span_tokens;
  span ← need_int span_tokens (λ _, false) LayoutError "HMA span must be an integer";
  pages ← candidate_pages g block_table span selected;
  pages ← mapM_result valid_page pages;
  _ ← raise_if (negb (bool_decide (NoDup pages))) LayoutError
        "selected HMA page range contains duplicates";
  Ok pages.

(** ** The layout *)
Record HMALayout := Layout {
  num_manager_blocks : Z;
  dcp_degree : Z;
  groups : list GroupGeometry
}.

Definition layer_names (l : HMALayout) : list pystr := groups l ≫= λ g, layer_name <$> layers g.

Definition layout_post_init (l : HMALayout) : result unit :=
  _ ← raise_if ((num_manager_blocks l <=? 0) || (dcp_degree l <=? 0)) LayoutError
        "HMA manager capacity and DCP degree must be positive";
  _ ← raise_if (negb (bool_decide (group_index <$> groups l = seqZ 0 (Z.of_nat (length (groups l))))))
        LayoutError "HMA groups must be complete and ordered";
  _ ← raise_if (bool_decide (layer_names l = [])) LayoutError "HMA layout has no worker-owned layers";
  raise_if (negb (bool_decide (NoDup (layer_names l)))) LayoutError
    "one HMA layer belongs to multiple groups".

(** [math.lcm] of the widths of the groups that constrain alignment. *)
Definition alignment_tokens (l : HMALayout) : Z :=
  foldr Z.lcm 1 (logical_tokens_per_page <$>
    filter (λ g, reuse_policy g ≠ PCircularOne) (groups l)).

Definition selected_page_counts (l : HMALayout) (span_tokens : pyval) : result (list Z) :=
  mapM_result (λ g, selected_page_count g span_tokens) (groups l).

Definition layout_select_physical_pages (l : HMALayout) (block_tables : list (list pyval))
    (span_tokens : pyval) : result (list (list Z)) :=
  if negb (Z.of_nat (length block_tables) =? Z.of_nat (length (groups l)))
  then raise LayoutError "request block tables disagree with HMA groups"
  else mapM_result (λ p, select_physical_pages p.1 p.2 span_tokens) (zip (groups l) block_tables).

(** ** Layout identities *)
Definition opt_json (o : option Z) : json := match o with Some z => JInt z | None => JNull end.

Definition layer_dict (l : LayerGeometry) : json :=
  JObj [(lit "name", JStr (layer_name l)); (lit "spec_name", JStr (layer_spec_name l));
        (lit "page_size_bytes", JInt (page_size_bytes l))].

(** [asdict(group)] *)
Definition group_dict (g : GroupGeometry) : json :=
  JObj [(lit "group_index", JInt (group_index g)); (lit "spec_name", JStr (group_spec_name g));
        (lit "block_size", JInt (block_size g));
        (lit "storage_block_size", JInt (storage_block_size g));
        (lit "manager_page_size_bytes", JInt (manager_page_size_bytes g));
        (lit "dcp_replicated", JBool (dcp_replicated g));
        (lit "dcp_shard_count", JInt (dcp_shard_count g));
        (lit "logical_tokens_per_page", JInt (logical_tokens_per_page g));
        (lit "reuse_policy", JStr (policy_name (reuse_policy g)));
        (lit "reuse_window_tokens", opt_json (reuse_window_tokens g));
        (lit "running_state_tail_pages", JInt (running_state_tail_pages g));
        (lit "is_eagle_group", JBool (is_eagle_group g));
        (lit "layers", JArr (layer_dict <$> layers g))].

(** The page-selection semantics every pipeline stage shares. *)
Definition coordination_fields (g : GroupGeometry) : list (pystr * json) :=
  [(lit "group_index", JInt (group_index g)); (lit "block_size", JInt (block_size g));
   (lit "dcp_replicated", JBool (dcp_replicated g));
   (lit "dcp_shard_count", JInt (dcp_shard_count g));
   (lit "logical_tokens_per_page", JInt (logical_tokens_per_page g));
   (lit "reuse_policy", JStr (policy_name (reuse_policy g)));
   (lit "reuse_window_tokens", opt_json (reuse_window_tokens g));
   (lit "running_state_tail_pages", JInt (running_state_tail_pages g))].

Definition layout_dict (l : HMALayout) (gs : list json) : json :=
  JObj [(lit "schema", JStr LAYOUT_SCHEMA); (lit "profile", JStr VLLM_RUNTIME_KV_PROFILE);
        (lit "dcp_degree", JInt (dcp_degree l)); (lit "groups", JArr gs)].

Section digests.
Context `{Sha}.

Definition layout_digest (l : HMALayout) : result pystr :=
  sha256_json (layout_dict l (group_dict <$> groups l)).

Definition logical_digest (l : HMALayout) : result pystr :=
  sha256_json (layout_dict l ((λ g, JObj (coordination_fields g ++
    [(lit "is_eagle_group", JBool (is_eagle_group g));
     (lit "layers", JArr (JStr <$> (layer_name <$> layers g)))])) <$> groups l)).

Definition coordination_digest (l : HMALayout) : result pystr :=
  sha256_json (layout_dict l ((λ g, JObj (coordination_fields g)) <$> groups l)).
End digests.
