(* ===== verification/HmaSpec.v ===== *)
(** * Properties of the page geometry ([src/spoolcache/hma.py])

    What a valid group selects for a span, which spans are aligned, and what a
    layout digest binds. *)
From S2P Require Import Prelude Bytes Utf8 Json Identity Hma.

(** ** Valid groups *)
Record group_ok (g : GroupGeometry) : Prop := {
  go_index : 0 ≤ group_index g;
  go_block : 0 < block_size g;
  go_shards : 0 < dcp_shard_count g;
  go_width : 0 < logical_tokens_per_page g;
  go_width_eq : logical_tokens_per_page g = block_size g * dcp_shard_count g;
  go_window : match reuse_policy g with
              | PSliding => ∃ w, reuse_window_tokens g = Some w ∧ 1 < w
              | _ => reuse_window_tokens g = None
              end;
  go_tail : 0 ≤ running_state_tail_pages g;
  go_names : NoDup (layer_name <$> layers g)
}.

Lemma group_post_init_Ok g : group_post_init g = Ok tt → group_ok g.
Proof.
  unfold group_post_init. intros Hi. cbv zeta in Hi. inv_ok. bsimp. cbn [existsb] in *. bsimp.
  destruct_and?. constructor; try done; try lia.
  destruct (reuse_policy g).
  - inv_ok. bsimp. destruct (reuse_window_tokens g); [|done].
    match goal with E : ¬ is_Some _ |- _ => by destruct E end.
  - destruct (reuse_window_tokens g) as [w|]; inv_ok. bsimp. eauto.
  - inv_ok. bsimp. destruct (reuse_window_tokens g); [|done].
    match goal with E : ¬ is_Some _ |- _ => by destruct E end.
  - inv_ok. bsimp. destruct (reuse_window_tokens g); [|done].
    match goal with E : ¬ is_Some _ |- _ => by destruct E end.
Qed.

Lemma ceil_div_bounds a b : 0 < b → (ceil_div a b - 1) * b < a ≤ ceil_div a b * b.
Proof. intros Hb. unfold ceil_div. Z.to_euclidean_division_equations. nia. Qed.

(** The page count of a valid group, by policy. *)
Lemma selected_page_count_Ok g span n :
  group_ok g →
  selected_page_count g (VInt span) = Ok n ↔
  0 < span ∧
  match reuse_policy g with
  | PCircularOne => n = 1
  | PRecurrentAlign => span mod logical_tokens_per_page g = 0 ∧ n = 1
  | PFull => span mod logical_tokens_per_page g = 0 ∧ n = span / logical_tokens_per_page g
  | PSliding => span mod logical_tokens_per_page g = 0 ∧
      n = Z.min (span / logical_tokens_per_page g)
            (ceil_div (default 0 (reuse_window_tokens g) - 1) (logical_tokens_per_page g))
  end.
Proof.
  intros Hg. unfold selected_page_count, need_int, raise_if; cbn.
  destruct (span <=? 0) eqn:Es; bsimp; cbn; [split; [done|lia]|].
  destruct (reuse_policy g); cbn.
  4:{ split; [by intros [= <-]|by intros [_ ->]]. }
  all: destruct (span mod _ =? 0) eqn:Em; bsimp; cbn; split; try done;
    try (by intros [= <-]); try (by intros (_ & _ & ->)); try (by intros (_ & ? & _)).
Qed.

Lemma aligned_pages span w : 0 < w → 0 < span → span mod w = 0 → span / w * w = span ∧ 0 < span / w.
Proof. intros. Z.to_euclidean_division_equations. nia. Qed.

Lemma selected_positive g span n :
  group_ok g → selected_page_count g (VInt span) = Ok n →
  0 < n ∧ (reuse_policy g ≠ PCircularOne → n ≤ span / logical_tokens_per_page g).
Proof.
  intros Hg Hn%selected_page_count_Ok; [|done]. destruct Hn as [Hs Hn]. pose proof (go_width g Hg) as Hpos.
  pose proof (go_window g Hg) as Hw.
  destruct (reuse_policy g); destruct_and?; subst; try (split; [lia|done]).
  - pose proof (aligned_pages span _ Hpos Hs ltac:(done)). split; [|intros _]; lia.
  - pose proof (aligned_pages span _ Hpos Hs ltac:(done)).
    destruct Hw as (w & -> & Hw). cbn [default].
    pose proof (ceil_div_bounds (w - 1) (logical_tokens_per_page g) Hpos). 
    set (c := ceil_div _ _) in *. assert (0 < c) by (clear -H1 Hpos Hw; nia).
    split; [|intros _]; lia.
  - pose proof (aligned_pages span _ Hpos Hs ltac:(done)). split; [|intros _]; lia.
Qed.

(** what a valid sliding group persists is the fewest whole pages that hold the
    last [window - 1] tokens before the boundary (or the whole prefix when it is
    shorter); a full group persists every page of the prefix. *)
Theorem selected_pages_cover_window g span n :
  group_post_init g = Ok tt → selected_page_count g (VInt span) = Ok n →
  match reuse_policy g with
  | PFull => n * logical_tokens_per_page g = span
  | PSliding => ∃ w, reuse_window_tokens g = Some w ∧
      (n - 1) * logical_tokens_per_page g < Z.min span (w - 1) ≤ n * logical_tokens_per_page g
  | PRecurrentAlign | PCircularOne => n = 1
  end.
Proof.
  intros Hg%group_post_init_Ok Hn%selected_page_count_Ok; [|done]. destruct Hn as [Hs Hn].
  pose proof (go_width g Hg) as Hpos. pose proof (go_window g Hg) as Hw.
  destruct (reuse_policy g); destruct_and?; subst; try done.
  - by destruct (aligned_pages span _ Hpos Hs ltac:(done)).
  - destruct Hw as (w & -> & Hw). exists w. split; [done|]. cbn [default].
    pose proof (ceil_div_bounds (w - 1) (logical_tokens_per_page g) Hpos).
    destruct (aligned_pages span _ Hpos Hs ltac:(done)) as [Hq Hq0].
    set (c := ceil_div _ _) in *. set (q := span / _) in *. clearbody c q.
    destruct (Z.min_spec q c) as [[? ->]|[? ->]], (Z.min_spec span (w - 1)) as [[? ->]|[? ->]]; nia.
Qed.

(** The slice of the block table that [select_physical_pages] returns. *)
Definition table_slice (g : GroupGeometry) (table : list pyval) (span n : Z) : list pyval :=
  match reuse_policy g with
  | PCircularOne => table
  | PRecurrentAlign =>
      take 1 (drop (Z.to_nat (Z.of_nat (length table) - 1 - running_state_tail_pages g)) table)
  | _ => take (Z.to_nat n) (drop (Z.to_nat (span / logical_tokens_per_page g - n)) table)
  end.

Lemma mapM_need_int l k bad e msg :
  mapM_result (λ v, need_int v bad e msg) l = Ok k → l = VInt <$> k ∧ Forall (λ z, bad z = false) k.
Proof.
  intros Hl%mapM_result_Ok. induction Hl as [|v z l k Hv _ [-> IH]]; [done|].
  apply need_int_Ok in Hv as [-> Hz]. split; [done|]. by constructor.
Qed.

Lemma select_physical_pages_Ok g table span pages :
  group_post_init g = Ok tt → select_physical_pages g table (VInt span) = Ok pages →
  ∃ n, selected_page_count g (VInt span) = Ok n ∧
    VInt <$> pages = table_slice g table span n ∧
    Z.of_nat (length pages) = n ∧ NoDup pages ∧ Forall (λ p, 0 < p) pages.
Proof.
  intros Hg%group_post_init_Ok Hs. unfold select_physical_pages in Hs. inv_ok.
  match goal with E : selected_page_count _ _ = Ok ?x |- _ => rename x into n; rename E into Hn end.
  match goal with E : VInt span = VInt ?x |- _ => injection E as <- end.
  match goal with E : candidate_pages _ _ _ _ = Ok ?x |- _ => rename x into raw; rename E into Hc end.
  match goal with E : Forall2 _ raw pages |- _ => apply mapM_result_Ok in E;
    apply mapM_need_int in E as [-> Hpos] end. bsimp.
  exists n. destruct (selected_positive g span n Hg Hn) as [Hn0 Hle].
  assert (Hpos' : Forall (λ p, 0 < p) pages) by (eapply Forall_impl; [exact Hpos|]; cbn; intros; by bsimp).
  unfold candidate_pages in Hc. unfold table_slice. pose proof (go_tail g Hg).
  destruct (reuse_policy g) eqn:Ep.
  4:{ case_match eqn:E1; inv_ok. bsimp. split_and!; try done.
      apply selected_page_count_Ok in Hn; [|done]. rewrite Ep in Hn. destruct Hn as [_ ->].
      rewrite length_fmap in E1. lia. }
  - case_match eqn:E1; inv_ok. bsimp. split_and!; try done.
    apply (f_equal length) in Hc. rewrite length_fmap in Hc. rewrite <-Hc, length_take, length_drop.
    specialize (Hle ltac:(done)). lia.
  - case_match eqn:E1; inv_ok. bsimp. split_and!; try done.
    apply (f_equal length) in Hc. rewrite length_fmap in Hc. rewrite <-Hc, length_take, length_drop.
    specialize (Hle ltac:(done)). lia.
  - case_match eqn:E1; inv_ok. bsimp. split_and!; try done.
    apply (f_equal length) in Hc. rewrite length_fmap in Hc. rewrite <-Hc, length_take, length_drop.
    specialize (Hle ltac:(done)). apply selected_page_count_Ok in Hn; [|done]. rewrite Ep in Hn.
    destruct Hn as (? & ? & ->). lia.
Qed.

(** The selected physical pages are exactly the group's slice of the block
    table, there are as many as [selected_page_count], and all are distinct
    non-null blocks. *)
Theorem select_physical_pages_spec g table span pages :
  group_post_init g = Ok tt → select_physical_pages g table (VInt span) = Ok pages →
  ∃ n, selected_page_count g (VInt span) = Ok n ∧
    VInt <$> pages = table_slice g table span n ∧
    Z.of_nat (length pages) = n ∧ NoDup pages ∧ Forall (λ p, 0 < p) pages.
Proof. apply select_physical_pages_Ok. Qed.

#[local] Arguments selected_page_count : simpl never.

(** ** Alignment *)
Record layout_ok (l : HMALayout) : Prop := {
  lo_dcp : 0 < dcp_degree l;
  lo_index : group_index <$> groups l = seqZ 0 (Z.of_nat (length (groups l)));
  lo_layers : layer_names l ≠ [];
  lo_names : NoDup (layer_names l)
}.

(** A layout whose constructors all succeeded. *)
Record valid_layout (layout : HMALayout) : Prop := {
  vl_layout : layout_post_init layout = Ok tt;
  vl_groups : Forall (λ g, group_post_init g = Ok tt) (groups layout);
  vl_layers : Forall (λ g, Forall (λ l, layer_post_init l = Ok tt) (layers g)) (groups layout)
}.

Lemma layout_post_init_Ok l : layout_post_init l = Ok tt → layout_ok l.
Proof. unfold layout_post_init. intros Hi. inv_ok. bsimp. destruct_and?. by constructor. Qed.

Lemma foldr_lcm_divide ws m : (foldr Z.lcm 1 ws | m) ↔ Forall (λ w, (w | m)) ws.
Proof.
  induction ws as [|w ws IH]; cbn; [split; [constructor|intros; apply Z.divide_1_l]|].
  rewrite Forall_cons, <-IH. split.
  - intros Hd. split; (etrans; [|exact Hd]); [apply Z.divide_lcm_l|apply Z.divide_lcm_r].
  - intros [? ?]. by apply Z.lcm_least.
Qed.

Lemma foldr_lcm_pos ws : Forall (λ w, 0 < w) ws → 0 < foldr Z.lcm 1 ws.
Proof.
  induction 1 as [|w ws Hw Hws IH]; cbn; [lia|].
  pose proof (Z.lcm_nonneg w (foldr Z.lcm 1 ws)).
  assert (Z.lcm w (foldr Z.lcm 1 ws) ≠ 0) by (intros ?%Z.lcm_eq_0; lia). lia.
Qed.

Lemma mapM_result_some {A B} (f : A → result B) l :
  (∃ k, mapM_result f l = Ok k) ↔ Forall (λ x, ∃ y, f x = Ok y) l.
Proof.
  split.
  - intros [k Hk%mapM_result_Ok]. induction Hk; constructor; eauto.
  - induction 1 as [|x l [y Hy] Hl [k Hk]]; [by exists []|]. exists (y :: k). cbn. by rewrite Hy, Hk.
Qed.

(** [alignment_tokens] is exactly the constraint on spans: every group of a valid
    layout yields a page count for a positive span if and only if the alignment
    divides the span; it is positive, and every divisor condition it imposes comes
    from a group whose pages are prefix-addressed. *)
Theorem alignment_is_exact l span :
  Forall (λ g, group_post_init g = Ok tt) (groups l) → 0 < span →
  0 < alignment_tokens l ∧
  ((∃ counts, selected_page_counts l (VInt span) = Ok counts) ↔ (alignment_tokens l | span)).
Proof.
  intros Hg Hs.
  assert (Hok : Forall group_ok (groups l)) by (eapply Forall_impl; [exact Hg|apply group_post_init_Ok]).
  assert (Hpos : Forall (λ w, 0 < w) (logical_tokens_per_page <$>
    filter (λ g, reuse_policy g ≠ PCircularOne) (groups l))).
  { apply Forall_fmap, Forall_forall. intros g [_ Hin]%list_elem_of_filter.
    rewrite Forall_forall in Hok. by apply go_width, Hok. }
  split; [by apply foldr_lcm_pos|]. unfold selected_page_counts, alignment_tokens.
  rewrite mapM_result_some, foldr_lcm_divide, Forall_fmap, !Forall_forall. cbn.
  split.
  - intros Hall g [Hp Hin]%list_elem_of_filter. cbn. destruct (Hall g Hin) as [n Hn].
    rewrite Forall_forall in Hok. apply selected_page_count_Ok in Hn as [_ Hn]; [|by apply Hok].
    apply Z.mod_divide; [pose proof (go_width g (Hok g Hin)); lia|].
    destruct (reuse_policy g); by destruct_and?.
  - intros Hall g Hin. rewrite Forall_forall in Hok. specialize (Hok g Hin).
    pose proof (go_width g Hok).
    assert (Hm : reuse_policy g ≠ PCircularOne → span mod logical_tokens_per_page g = 0).
    { intros Hp. apply Z.mod_divide; [lia|]. apply Hall. by apply list_elem_of_filter. }
    destruct (reuse_policy g) eqn:Ep;
      (eexists; apply (selected_page_count_Ok g span _ Hok); rewrite Ep; split; [done|]);
      try (split; [by apply Hm|reflexivity]). done.
Qed.

(** ** What the layout digest binds *)
Lemma policy_name_inj p q : policy_name p = policy_name q → p = q.
Proof. by destruct p, q. Qed.

Lemma opt_json_inj o o' : canon (opt_json o) = canon (opt_json o') → o = o'.
Proof. destruct o, o'; cbn; congruence. Qed.

(** Fields of canonical objects that share their key list. *)
Ltac same_keys H i :=
  match type of H with
  | canon (JObj ?l) = canon (JObj ?k) =>
      let E := fresh "E" in
      assert (E : nth i (map (λ p, canon p.2) l) JNull = nth i (map (λ p, canon p.2) k) JNull)
        by (f_equal; apply canon_obj_inj;
            [apply (bool_decide_eq_true_1 _); vm_compute; reflexivity|reflexivity|exact H]);
      cbn [nth map snd] in E
  end.

Lemma layer_dict_inj a b : canon (layer_dict a) = canon (layer_dict b) → a = b.
Proof.
  intros Hc. unfold layer_dict in Hc. same_keys Hc 0%nat. same_keys Hc 1%nat. same_keys Hc 2%nat.
  destruct a, b. cbn in *. congruence.
Qed.

Lemma map_canon_inj {A} (f : A → json) (l k : list A) :
  (∀ a b, canon (f a) = canon (f b) → a = b) → canon (JArr (f <$> l)) = canon (JArr (f <$> k)) → l = k.
Proof.
  intros Hf Hc. cbn [canon] in Hc. injection Hc as Hc.
  revert k Hc; induction l as [|a l IH]; intros [|b k]; cbn; try done.
  intros Hc. injection Hc as Ha Hl. f_equal; [by apply Hf|by apply IH].
Qed.

Lemma group_dict_inj a b : canon (group_dict a) = canon (group_dict b) → a = b.
Proof.
  intros Hc. unfold group_dict in Hc.
  same_keys Hc 0%nat. same_keys Hc 1%nat. same_keys Hc 2%nat. same_keys Hc 3%nat.
  same_keys Hc 4%nat. same_keys Hc 5%nat. same_keys Hc 6%nat. same_keys Hc 7%nat.
  same_keys Hc 8%nat. same_keys Hc 9%nat. same_keys Hc 10%nat. same_keys Hc 11%nat.
  same_keys Hc 12%nat.
  apply opt_json_inj in E8. apply map_canon_inj in E11; [|apply layer_dict_inj].
  destruct a, b. cbn in *. injection E7 as E7. apply policy_name_inj in E7. congruence.
Qed.

(** A layout digest binds everything except the allocation capacity: two layouts
    with the same digest have the same DCP degree and the same groups, down to
    every layer and byte size, or their encodings are a SHA-256 collision. *)
Theorem layout_digest_binding `{Sha} a b d :
  layout_digest a = Ok d → layout_digest b = Ok d →
  (dcp_degree a = dcp_degree b ∧ groups a = groups b) ∨
  ∃ x y, canonical_json (layout_dict a (group_dict <$> groups a)) = Ok x ∧
    canonical_json (layout_dict b (group_dict <$> groups b)) = Ok y ∧ collision [x; y].
Proof.
  intros Ha Hb. destruct (sha256_json_inj _ _ _ Ha Hb) as (x & y & Hx & Hy & [Hc|Hc]); [left|right; eauto].
  unfold layout_dict in Hc. same_keys Hc 2%nat. same_keys Hc 3%nat.
  split; [by injection E|]. by apply map_canon_inj in E0; [|apply group_dict_inj].
Qed.

(** ** Witnesses: a full group, a sliding group and a recurrent group *)
Module HmaExamples.
#[local] Existing Instance sha256_fips.

Definition full_group : GroupGeometry :=
  Group 0 (lit "FullSpec") 64 64 4096 false 1 64 PFull None 0 false
    [Layer (lit "layer.0") (lit "FullSpec") 4096].
Definition sliding_group : GroupGeometry :=
  Group 1 (lit "SlidingSpec") 16 16 1024 false 2 32 PSliding (Some 100) 0 false
    [Layer (lit "layer.1") (lit "SlidingSpec") 1024].
Definition layout0 : HMALayout := Layout 100 2 [full_group; sliding_group].

Lemma selected_pages_cover_window_witness :
  ∃ w, reuse_window_tokens sliding_group = Some w ∧
    (4 - 1) * logical_tokens_per_page sliding_group < Z.min 256 (w - 1)
      ≤ 4 * logical_tokens_per_page sliding_group.
Proof. apply (selected_pages_cover_window sliding_group 256 4); vm_compute; reflexivity. Defined.

Definition table8 : list pyval := VInt <$> [11; 12; 13; 14; 15; 16; 17; 18].
Lemma select_physical_pages_spec_witness :
  VInt <$> [15; 16; 17; 18] = table_slice sliding_group table8 256 4 ∧ NoDup [15; 16; 17; 18].
Proof.
  destruct (select_physical_pages_spec sliding_group table8 256 [15; 16; 17; 18])
    as (n & Hn & Hs & _ & Hnd & _); [vm_compute; reflexivity|vm_compute; reflexivity|].
  split; [|exact Hnd]. vm_compute in Hn. injection Hn as <-. exact Hs.
Defined.

Lemma alignment_is_exact_witness :
  0 < alignment_tokens layout0 ∧ (alignment_tokens layout0 | 256).
Proof.
  destruct (alignment_is_exact layout0 256) as [H1 H2];
    [repeat constructor|lia|].
  split; [exact H1|]. apply H2. exists [4; 4]. vm_compute. reflexivity.
Defined.

Lemma layout_digest_binding_witness :
  (dcp_degree layout0 = dcp_degree (Layout 7 2 (groups layout0))
     ∧ groups layout0 = groups (Layout 7 2 (groups layout0))) ∨
  ∃ x y, canonical_json (layout_dict layout0 (group_dict <$> groups layout0)) = Ok x ∧
    canonical_json (layout_dict (Layout 7 2 (groups layout0))
      (group_dict <$> groups (Layout 7 2 (groups layout0)))) = Ok y ∧ collision [x; y].
Proof.
  apply (layout_digest_binding layout0 (Layout 7 2 (groups layout0))
    (match layout_digest layout0 with Ok s => s | Raise _ => [] end)); vm_compute; reflexivity.
Defined.
End HmaExamples.
