(* ===== verification/HmaDiscovery.v ===== *)
(** * Discovery of the page layout ([src/spoolcache/hma.py])

    [build_hma_layout] and the capability readers it uses.  The runtime's cache
    specifications are foreign objects read by [getattr]: an attribute is missing,
    raises, or has a value, and a method contract is missing, raises, is not
    callable, or is a function of the runtime's own arguments.  The semantic-kind
    resolver is a foreign function. *)
From S2P Require Import Prelude Dict Bytes Utf8 Json Hma HmaSpec.

Inductive attr := AMissing | ARaises (e : exn) | AVal (v : pyval).

(** [getattr(obj, name, default)] *)
Definition getattr (a : attr) (d : pyval) : result pyval :=
  match a with AMissing => Ok d | ARaises e => Raise e | AVal v => Ok v end.

Inductive contract (A : Type) :=
  | CMissing | CRaises (e : exn) | CNotCallable | CCallable (f : A).
Arguments CMissing {A}.
Arguments CRaises {A} e.
Arguments CNotCallable {A}.
Arguments CCallable {A} f.

(** [vllm_config]: the two bounds discovery reads. *)
Record VllmConfig := VllmCfg {
  vc_model_config : result (option attr);
  vc_max_in_flight_tokens : attr
}.

Record KVSpec := Spec {
  sp_type_name : pystr;
  sp_block_size : attr;
  sp_storage_block_size : attr;
  sp_page_size_bytes : attr;
  sp_sliding_window : attr;
  sp_mamba_cache_mode : attr;
  sp_num_speculative_blocks : attr;
  sp_dcp_replicated : attr;
  sp_participates_in_prefix_caching : attr;
  sp_prefix_cacheable : attr;
  sp_max_admission_blocks_per_request : contract (Z → Z → result pyval);
  sp_max_num_blocks_per_req : contract (VllmConfig → Z → result pyval);
  sp_max_memory_usage_bytes : contract (VllmConfig → result pyval)
}.

(** [kv_cache_specs] of a group specification. *)
Inductive per_layer_specs :=
  | PLNone | PLOther | PLMapping (m : list (pystr * KVSpec)).

Record RuntimeGroup := RtGroup {
  rg_layer_names : list pystr;
  rg_spec : KVSpec;
  rg_per_layer : per_layer_specs;
  rg_is_eagle_group : attr
}.

(** What the resolver returns: the object and its [value] attribute. *)
Record KindResult := Kind { kr_self : pyval; kr_value : attr }.
Definition resolver := option (KVSpec → result KindResult).

Definition positive_int (v : pyval) (label : string) : result Z :=
  need_int v (λ z, z <=? 0) LayoutError (label ++ " must be a positive integer").
Definition nonnegative_int (v : pyval) (label : string) : result Z :=
  need_int v (λ z, z <? 0) LayoutError (label ++ " must be a non-negative integer").

(** [except LayoutError: raise] before [except Exception]. *)
Definition as_layout_error {A} (msg : string) (r : result A) : result A :=
  match r with
  | Raise e => match exn_class e with LayoutError => Raise e | _ => raise LayoutError msg end
  | _ => r
  end.

(** [except Exception] around a foreign call. *)
Definition any_layout_error {A} (msg : string) (r : result A) : result A :=
  match r with Raise _ => raise LayoutError msg | _ => r end.

Definition _optional_bool_capability (a : attr) : result (option bool) :=
  match a with
  | AMissing => Ok None
  | ARaises _ => raise LayoutError "cannot read HMA capability"
  | AVal (VBool b) => Ok (Some b)
  | AVal _ => raise LayoutError "HMA capability must be boolean"
  end.

(** [None] is [_MISSING]. *)
Definition _optional_contract {A} (c : contract A) : result (option (option A)) :=
  match c with
  | CMissing => Ok None
  | CRaises _ => raise LayoutError "cannot read non-prefix HMA contract"
  | CNotCallable => Ok (Some None)
  | CCallable f => Ok (Some (Some f))
  end.

Definition _prefix_participation_state (spec : KVSpec) : result (option bool) :=
  p ← _optional_bool_capability (sp_participates_in_prefix_caching spec);
  q ← _optional_bool_capability (sp_prefix_cacheable spec);
  match p, q with
  | Some a, Some b =>
      if Bool.eqb a b then Ok (Some a)
      else raise LayoutError "HMA prefix participation capabilities conflict"
  | Some a, None | None, Some a => Ok (Some a)
  | None, None => Ok None
  end.

Definition _is_non_prefix_state (spec : KVSpec) : result bool :=
  s ← _prefix_participation_state spec; Ok (bool_decide (s = Some false)).

(** The admission contract, when there is one, grants exactly one block. *)
Definition check_admission (spec : KVSpec) (vc : VllmConfig) (max_model_len : Z) : result unit :=
  admission ← _optional_contract (sp_max_admission_blocks_per_request spec);
  match admission with
  | None => Ok tt
  | Some None => raise LayoutError "non-prefix HMA state has an invalid admission-block contract"
  | Some (Some f) =>
      tokens ← getattr (vc_max_in_flight_tokens vc) VNone;
      tokens ← positive_int tokens "vLLM maximum in-flight token count";
      blocks ← as_layout_error "cannot evaluate non-prefix HMA admission-block contract"
        (v ← f tokens max_model_len; positive_int v "non-prefix HMA admission-block result");
      raise_if (negb (blocks =? 1)) LayoutError
        "non-prefix HMA state must admit exactly one admission block per request"
  end.

Definition _single_page_non_prefix_policy (spec : KVSpec) (vllm_config : option VllmConfig)
    : result (policy * option Z) :=
  match vllm_config with
  | None => raise LayoutError "non-prefix HMA state requires the current vLLM config"
  | Some vc =>
      model_config ← vc_model_config vc;
      len ← getattr (default AMissing model_config) VNone;
      max_model_len ← positive_int len "vLLM maximum model length";
      _ ← check_admission spec vc max_model_len;
      block_table ← _optional_contract (sp_max_num_blocks_per_req spec);
      match block_table with
      | Some (Some block_table) =>
          memory_usage ← _optional_contract (sp_max_memory_usage_bytes spec);
          match memory_usage with
          | Some (Some memory_usage) =>
              pair ← as_layout_error "cannot evaluate non-prefix HMA page-ownership contracts"
                (v ← block_table vc max_model_len;
                 b ← positive_int v "non-prefix HMA block-table result";
                 w ← memory_usage vc;
                 m ← positive_int w "non-prefix HMA memory-bound result";
                 Ok (b, m));
              _ ← raise_if (negb (pair.1 =? 1)) LayoutError
                    "non-prefix HMA state must own exactly one block-table page per request";
              size ← getattr (sp_page_size_bytes spec) VNone;
              size ← positive_int size "non-prefix HMA page size";
              _ ← raise_if (negb (pair.2 =? size)) LayoutError
                    "non-prefix HMA state must occupy exactly one physical page per request";
              Ok (PCircularOne, None)
          | _ => raise LayoutError "non-prefix HMA state lacks a physical-memory bound contract"
          end
      | _ => raise LayoutError "non-prefix HMA state lacks a block-table ownership contract"
      end
  end.

Definition _public_semantic_kind (spec : KVSpec) (r : resolver) : result pystr :=
  match r with
  | None => raise LayoutError "vLLM KV cache semantic-kind resolver is not callable"
  | Some f =>
      res ← any_layout_error "cannot resolve public KV cache semantic kind" (f spec);
      v ← any_layout_error "cannot read public KV cache semantic kind"
            (getattr (kr_value res) (kr_self res));
      match as_str v with
      | Some s => if bool_decide (s = [])
                  then raise LayoutError "vLLM returned an invalid public KV cache semantic kind"
                  else Ok s
      | None => raise LayoutError "vLLM returned an invalid public KV cache semantic kind"
      end
  end.

(** The policy of a reusable-prefix kind. *)
Definition kind_policy (spec : KVSpec) (kind : pystr) : result (policy * option Z) :=
  if bool_decide (kind ∈ [lit "sliding_window"; lit "sliding_window_mla"]) then
    w ← getattr (sp_sliding_window spec) VNone;
    window ← positive_int w "sliding window";
    _ ← raise_if (window <=? 1) LayoutError "sliding window must exceed one token";
    Ok (PSliding, Some window)
  else if bool_decide (kind ∈ [lit "full_attention"; lit "mla_attention"]) then Ok (PFull, None)
  else if bool_decide (kind = lit "mamba") then
    mode ← getattr (sp_mamba_cache_mode spec) VNone;
    _ ← raise_if (negb (bool_decide (as_str mode = Some (lit "align")))) LayoutError
          "recurrent HMA state requires mamba_cache_mode='align'";
    Ok (PRecurrentAlign, None)
  else raise LayoutError "unsupported public KV cache semantic kind".

Definition _reuse_policy (vllm_config : option VllmConfig) (r : resolver)
    (declared_kind : option pystr) (spec : KVSpec) : result (policy * option Z) :=
  scratch ← _is_non_prefix_state spec;
  if (scratch : bool) then _single_page_non_prefix_policy spec vllm_config
  else
    kind ← match declared_kind with Some k => Ok k | None => _public_semantic_kind spec r end;
    kind_policy spec kind.

(** ** One manager group *)

(** The recurrent state tail a member declares. *)
Definition state_tail (p : policy) (spec : KVSpec) : result (option Z) :=
  match p with
  | PRecurrentAlign =>
      v ← getattr (sp_num_speculative_blocks spec) (VInt 0);
      n ← nonnegative_int v "recurrent state tail"; Ok (Some n)
  | _ => Ok None
  end.

Record member := Member {
  mb_policy : policy * option Z;
  mb_tail : option Z;
  mb_layer : option LayerGeometry
}.

Definition discover_layer (vc : option VllmConfig) (r : resolver) (declared : option pystr)
    (g : RuntimeGroup) (block : Z) (name : pystr) : result member :=
  spec ← match rg_per_layer g with
         | PLMapping m => match od_get name m with Some s => Ok s | None => raise KeyError "layer" end
         | _ => Ok (rg_spec g)
         end;
  b ← getattr (sp_block_size spec) (VInt block);
  layer_block ← positive_int b "layer block size";
  _ ← raise_if (negb (layer_block =? block)) LayoutError
        "one HMA group mixes different layer block sizes";
  s ← getattr (sp_page_size_bytes spec) VNone;
  page_size ← positive_int s "layer page size";
  p ← _reuse_policy vc r declared spec;
  tail ← state_tail p.1 spec;
  let layer := Layer name (sp_type_name spec) page_size in
  _ ← layer_post_init layer;
  Ok (Member p tail (Some layer)).

Definition discover_semantics (vc : option VllmConfig) (r : resolver) (declared : option pystr)
    (spec : KVSpec) : result member :=
  p ← _reuse_policy vc r declared spec;
  tail ← state_tail p.1 spec;
  Ok (Member p tail None).

Definition is_mapping (p : per_layer_specs) : bool :=
  match p with PLMapping _ => true | _ => false end.

(** The specifications that classify a group without layers. *)
Definition semantic_specs (g : RuntimeGroup) : list KVSpec :=
  match rg_per_layer g with
  | PLMapping ((_ :: _) as m) => m.*2
  | _ => [rg_spec g]
  end.

(** The aggregate kind a uniform group declares, [None] when unknown. *)
Definition group_kind (r : resolver) (g : RuntimeGroup) (prefix_state : option bool)
    : result (option pystr) :=
  if is_mapping (rg_per_layer g) && negb (bool_decide (prefix_state = Some false)) then
    kind ← _public_semantic_kind (rg_spec g) r;
    Ok (if bool_decide (kind = lit "unknown") then None else Some kind)
  else Ok None.

(** One policy, and one state tail when it is recurrent. *)
Definition uniform_policy (ms : list member) : result (policy * option Z * Z) :=
  match remove_dups (mb_policy <$> ms) with
  | [(p, window)] =>
      match p with
      | PRecurrentAlign =>
          match remove_dups (omap mb_tail ms) with
          | [tail] => Ok (p, window, tail)
          | _ => raise LayoutError "one recurrent HMA group mixes different state tails"
          end
      | _ => Ok (p, window, 0)
      end
  | _ => raise LayoutError "one HMA group mixes incompatible reuse policies"
  end.

(** Participation and page-size consistency of the group and its members. *)
Definition check_group (vc : option VllmConfig) (g : RuntimeGroup) (prefix_state : option bool)
    (declared : option pystr) (p : policy) (manager_page_size : Z) (ls : list LayerGeometry)
    : result unit :=
  if is_mapping (rg_per_layer g) then
    let circular := bool_decide (p = PCircularOne) in
    _ ← raise_if ((bool_decide (prefix_state = Some false) && negb circular)
                  || (bool_decide (prefix_state = Some true) && circular)
                  || (bool_decide (is_Some declared) && circular))
          LayoutError "HMA group/member prefix participation conflict";
    _ ← (if circular then _single_page_non_prefix_policy (rg_spec g) vc
         else Ok (p, None));
    raise_if (negb (bool_decide (rg_layer_names g = []))
              && negb (manager_page_size =? foldr Z.add 0 (page_size_bytes <$> ls)))
      LayoutError "packed manager page size differs from its layers"
  else
    raise_if (existsb (λ l, negb (page_size_bytes l =? manager_page_size)) ls)
      LayoutError "manager and layer page sizes disagree".

Definition bool_flag (v : pyval) : result bool :=
  match v with VBool b => Ok b | _ => raise LayoutError "HMA DCP/EAGLE flags must be booleans" end.

Definition discover_group (dcp : Z) (vc : option VllmConfig) (r : resolver) (index : Z)
    (assigned : list pystr) (g : RuntimeGroup) : result GroupGeometry :=
  let names := py_sorted_keys (rg_layer_names g) in
  _ ← raise_if (negb (bool_decide (NoDup names))) LayoutError "HMA group requires unique layers";
  _ ← raise_if (existsb (λ n, bool_decide (n ∈ assigned)) names) LayoutError
        "one runtime layer belongs to multiple HMA groups";
  let spec := rg_spec g in
  b ← getattr (sp_block_size spec) VNone;
  block ← positive_int b "group block size";
  sb ← getattr (sp_storage_block_size spec) (VInt block);
  storage_block ← positive_int sb "group storage block size";
  ps ← getattr (sp_page_size_bytes spec) VNone;
  manager_page_size ← positive_int ps "group manager page size";
  _ ← match rg_per_layer g with
      | PLOther => raise LayoutError "per-layer HMA specifications must be a mapping"
      | PLMapping m =>
          raise_if (negb (bool_decide (names = []))
                    && negb (bool_decide (list_to_set m.*1 =@{gset pystr} list_to_set names)))
            LayoutError "per-layer HMA specifications disagree with group layers"
      | PLNone => Ok tt
      end;
  prefix_state ← _prefix_participation_state spec;
  declared ← group_kind r g prefix_state;
  members ← (if bool_decide (names = [])
             then mapM_result (discover_semantics vc r declared) (semantic_specs g)
             else mapM_result (discover_layer vc r declared g block) names);
  uniform ← uniform_policy members;
  let '(p, window, tail) := uniform in
  let ls := omap mb_layer members in
  _ ← check_group vc g prefix_state declared p manager_page_size ls;
  replicated ← getattr (sp_dcp_replicated spec) (VBool false);
  eagle ← getattr (rg_is_eagle_group g) (VBool false);
  replicated ← bool_flag replicated;
  eagle ← bool_flag eagle;
  let shards := if (replicated : bool) then 1 else dcp in
  let group := Group index (sp_type_name spec) block storage_block manager_page_size replicated
                 shards (block * shards) p window tail eagle ls in
  _ ← group_post_init group;
  Ok group.

Fixpoint discover_groups (dcp : Z) (vc : option VllmConfig) (r : resolver) (index : Z)
    (assigned : list pystr) (gs : list RuntimeGroup) : result (list GroupGeometry) :=
  match gs with
  | [] => Ok []
  | g :: gs =>
      geometry ← discover_group dcp vc r index assigned g;
      rest ← discover_groups dcp vc r (index + 1) (assigned ++ rg_layer_names g) gs;
      Ok (geometry :: rest)
  end.

Definition build_hma_layout (num_blocks : attr) (runtime_groups : list RuntimeGroup)
    (dcp_degree : pyval) (vllm_config : option VllmConfig) (r : resolver) : result HMALayout :=
  dcp ← positive_int dcp_degree "DCP degree";
  nb ← getattr num_blocks VNone;
  num_blocks ← positive_int nb "manager block count";
  _ ← raise_if (bool_decide (runtime_groups = [])) LayoutError "vLLM reported no KV cache groups";
  groups ← discover_groups dcp vllm_config r 0 [] runtime_groups;
  let layout := Layout num_blocks dcp groups in
  _ ← layout_post_init layout;
  Ok layout.

(** ** What a discovered layout guarantees *)

(** The specification the code reads for one layer of a group. *)
Definition layer_spec (g : RuntimeGroup) (name : pystr) : option KVSpec :=
  match rg_per_layer g with PLMapping m => od_get name m | _ => Some (rg_spec g) end.

(** The public declarations that justify a reuse policy. *)
Definition justified (vc : option VllmConfig) (r : resolver) (declared : option pystr)
    (spec : KVSpec) (p : policy) (w : option Z) : Prop :=
  match p with
  | PCircularOne =>
      w = None ∧ _prefix_participation_state spec = Ok (Some false) ∧
      ∃ c len table memory size, vc = Some c ∧
        sp_max_num_blocks_per_req spec = CCallable table ∧ table c len = Ok (VInt 1) ∧
        sp_max_memory_usage_bytes spec = CCallable memory ∧ memory c = Ok (VInt size) ∧
        sp_page_size_bytes spec = AVal (VInt size)
  | _ =>
      _prefix_participation_state spec ≠ Ok (Some false) ∧
      ∃ kind, match declared with
              | Some k => kind = k
              | None => _public_semantic_kind spec r = Ok kind
              end ∧
      match p with
      | PFull => w = None ∧ kind ∈ [lit "full_attention"; lit "mla_attention"]
      | PSliding => ∃ n, w = Some n ∧ 1 < n ∧ sp_sliding_window spec = AVal (VInt n) ∧
                      kind ∈ [lit "sliding_window"; lit "sliding_window_mla"]
      | _ => w = None ∧ kind = lit "mamba" ∧ sp_mamba_cache_mode spec = AVal (VStr (lit "align"))
      end
  end.

Lemma getattr_none a v : getattr a VNone = Ok v → v ≠ VNone → a = AVal v.
Proof. destruct a; cbn; [by intros [= <-]|done|by intros [= ->]]. Qed.

Lemma as_layout_error_Ok {A} msg (r : result A) a : as_layout_error msg r = Ok a → r = Ok a.
Proof. destruct r as [|e]; cbn; [done|]. by destruct (exn_class e). Qed.

Lemma positive_int_Ok v label z : positive_int v label = Ok z ↔ v = VInt z ∧ 0 < z.
Proof. unfold positive_int. rewrite need_int_Ok. by rewrite Z.leb_gt. Qed.

Lemma optional_contract_Ok {A} (c : contract A) f :
  _optional_contract c = Ok (Some (Some f)) → c = CCallable f.
Proof. by destruct c; cbn; intros [= ->]. Qed.

Lemma single_page_Ok spec vc p w :
  _single_page_non_prefix_policy spec vc = Ok (p, w) →
  p = PCircularOne ∧ w = None ∧
  ∃ c len table memory size, vc = Some c ∧
    sp_max_num_blocks_per_req spec = CCallable table ∧ table c len = Ok (VInt 1) ∧
    sp_max_memory_usage_bytes spec = CCallable memory ∧ memory c = Ok (VInt size) ∧
    sp_page_size_bytes spec = AVal (VInt size).
Proof.
  unfold _single_page_non_prefix_policy. destruct vc as [c|]; [|done]. intros H. inv_ok.
  match goal with E : context [match ?o with Some _ => _ | None => _ end] |- _ =>
    destruct o as [[table|]|] eqn:?; try done end.
  inv_ok.
  match goal with E : context [match ?o with Some _ => _ | None => _ end] |- _ =>
    destruct o as [[memory|]|] eqn:?; try done end.
  inv_ok.
  repeat match goal with
  | E : as_layout_error _ _ = Ok _ |- _ => apply as_layout_error_Ok in E
  | E : positive_int _ _ = Ok _ |- _ => apply positive_int_Ok in E as [-> ?]
  | E : _optional_contract _ = Ok (Some (Some _)) |- _ => apply optional_contract_Ok in E
  end.
  inv_ok.
  repeat match goal with
  | E : positive_int _ _ = Ok _ |- _ => apply positive_int_Ok in E as [-> ?]
  end. cbn in *. bsimp. subst.
  simplify_eq. split_and!; [done|done|]. repeat eexists; try done.
  by apply getattr_none.
Qed.

Lemma kind_policy_justified vc r declared spec kind p w :
  _prefix_participation_state spec ≠ Ok (Some false) →
  match declared with Some k => kind = k | None => _public_semantic_kind spec r = Ok kind end →
  kind_policy spec kind = Ok (p, w) → justified vc r declared spec p w.
Proof.
  intros Hs Hk. unfold kind_policy. repeat case_bool_decide; intros Hp; inv_ok; simplify_eq.
  - split; [done|]. exists kind. split; [done|].
    match goal with E : positive_int _ _ = Ok _ |- _ => apply positive_int_Ok in E as [-> ?] end.
    bsimp. eexists. split_and!; [done|lia| |done]. by apply getattr_none.
  - split; [done|]. by exists kind.
  - split; [done|]. eexists. split_and!; [done|done|done|]. bsimp.
    match goal with E : as_str _ = Some _ |- _ => apply as_str_Some in E as -> end.
    by apply getattr_none.
Qed.

Lemma reuse_policy_justified vc r declared spec p w :
  _reuse_policy vc r declared spec = Ok (p, w) → justified vc r declared spec p w.
Proof.
  unfold _reuse_policy, _is_non_prefix_state. intros H. inv_ok. case_bool_decide as Hs.
  - subst. match goal with E : _single_page_non_prefix_policy _ _ = _ |- _ =>
      apply single_page_Ok in E as (-> & -> & ?) end. by split_and!.
  - inv_ok. eapply kind_policy_justified; [| |done].
    + congruence.
    + destruct declared; [by inv_ok|done].
Qed.

Lemma discover_layer_Ok vc r declared g block name m :
  discover_layer vc r declared g block name = Ok m →
  ∃ spec l, layer_spec g name = Some spec ∧ mb_layer m = Some l ∧ layer_post_init l = Ok tt ∧
    layer_name l = name ∧ layer_spec_name l = sp_type_name spec ∧
    sp_page_size_bytes spec = AVal (VInt (page_size_bytes l)) ∧
    justified vc r declared spec (mb_policy m).1 (mb_policy m).2.
Proof.
  unfold discover_layer. intros H. inv_ok.
  match goal with E : positive_int _ "layer page size" = Ok _ |- _ => apply positive_int_Ok in E as [-> ?] end.
  match goal with E : layer_post_init (Layer name (sp_type_name ?s) ?z) = Ok ?u, P : _reuse_policy _ _ _ _ = Ok ?p |- _ =>
    destruct u; exists s, (Layer name (sp_type_name s) z); destruct p as [p w];
    apply reuse_policy_justified in P end.
  split_and!; try done.
  - unfold layer_spec. destruct (rg_per_layer g); [by inv_ok|by inv_ok|].
    case_match; by inv_ok.
  - by apply getattr_none.
Qed.

Lemma uniform_policy_Ok ms p w t m :
  uniform_policy ms = Ok (p, w, t) → m ∈ ms → mb_policy m = (p, w).
Proof.
  unfold uniform_policy. intros H Hm.
  assert (Hin : mb_policy m ∈ remove_dups (mb_policy <$> ms)) by by apply elem_of_remove_dups, list_elem_of_fmap_2.
  destruct (remove_dups (mb_policy <$> ms)) as [|[p' w'] [|]]; try done.
  apply list_elem_of_singleton in Hin as ->.
  destruct p'; try by simplify_eq. by destruct (remove_dups (omap mb_tail ms)) as [|? [|]]; simplify_eq.
Qed.

(** How one group of the layout follows from the runtime's group. *)
Record discovered (vc : option VllmConfig) (r : resolver) (dcp : Z) (g : GroupGeometry)
    (rg : RuntimeGroup) : Prop := {
  ds_valid : group_post_init g = Ok tt;
  ds_names : layer_name <$> layers g = py_sorted_keys (rg_layer_names rg);
  ds_layers : Forall (λ l, layer_post_init l = Ok tt) (layers g);
  ds_shards : dcp_shard_count g = if dcp_replicated g then 1 else dcp;
  ds_justified : ∀ l, l ∈ layers g → ∃ spec declared,
    layer_spec rg (layer_name l) = Some spec ∧ layer_spec_name l = sp_type_name spec ∧
    sp_page_size_bytes spec = AVal (VInt (page_size_bytes l)) ∧
    justified vc r declared spec (reuse_policy g) (reuse_window_tokens g)
}.

Lemma members_layers vc r declared rg block names ms :
  mapM_result (discover_layer vc r declared rg block) names = Ok ms →
  layer_name <$> omap mb_layer ms = names ∧
  Forall (λ l, layer_post_init l = Ok tt) (omap mb_layer ms) ∧
  ∀ l, l ∈ omap mb_layer ms → ∃ spec m, m ∈ ms ∧
    layer_spec rg (layer_name l) = Some spec ∧ layer_spec_name l = sp_type_name spec ∧
    sp_page_size_bytes spec = AVal (VInt (page_size_bytes l)) ∧
    justified vc r declared spec (mb_policy m).1 (mb_policy m).2.
Proof.
  intros Hm%mapM_result_Ok. induction Hm as [|n m names ms Hn _ IH]; [split_and!; [done|by cbn|]|].
  - intros l Hl. by apply not_elem_of_nil in Hl.
  - apply discover_layer_Ok in Hn as (spec & l & Hspec & Hl & Hinit & Hname & Hrest).
    destruct IH as (IH1 & IH2 & IH3). cbn. rewrite Hl. split_and!.
    + rewrite fmap_cons, Hname. by f_equal.
    + by constructor.
    + intros l' [->|Hl']%elem_of_cons.
      * exists spec, m. rewrite Hname. split; [by left|]. by destruct_and!; split_and!.
      * destruct (IH3 l' Hl') as (s & m' & ? & ?). exists s, m'. split; [by right|done].
Qed.

Lemma discover_semantics_layer vc r declared specs ms :
  mapM_result (discover_semantics vc r declared) specs = Ok ms → omap mb_layer ms = [].
Proof.
  intros Hm%mapM_result_Ok. induction Hm as [|s m specs ms Hs _ IH]; [done|].
  unfold discover_semantics in Hs. inv_ok. exact IH.
Qed.

Lemma discover_group_Ok dcp vc r index assigned rg g :
  discover_group dcp vc r index assigned rg = Ok g →
  group_index g = index ∧ discovered vc r dcp g rg.
Proof.
  unfold discover_group. cbv zeta. intros H. inv_ok.
  match goal with E : context [let '(_, _) := ?u in _] |- _ => destruct u as [[p w] t] end.
  inv_ok. split; [done|].
  match goal with E : group_post_init _ = Ok ?u |- _ => destruct u; rename E into Hgroup end.
  match goal with E : uniform_policy ?ms = _ |- _ => rename E into Hu; rename ms into members end.
  case_bool_decide as Hnames.
  - match goal with E : mapM_result _ (semantic_specs rg) = Ok members |- _ =>
      apply discover_semantics_layer in E as Hms end.
    rewrite Hms in *. constructor; [done|by rewrite Hnames|by cbn|done|].
    intros l Hl. by apply not_elem_of_nil in Hl.
  - match goal with E : mapM_result _ (py_sorted_keys _) = Ok members |- _ =>
      apply members_layers in E as (Hn & Hi & Hj) end.
    constructor; [done|done|done|done|]. intros l Hl.
    destruct (Hj l Hl) as (spec & m & Hm & Hs & Hsn & Hps & Hjust).
    exists spec. eexists. split_and!; [done|done|done|].
    cbn. by rewrite (uniform_policy_Ok _ _ _ _ _ Hu Hm) in Hjust.
Qed.

Lemma discover_groups_Ok dcp vc r index assigned rgs gs :
  discover_groups dcp vc r index assigned rgs = Ok gs →
  Forall2 (discovered vc r dcp) gs rgs.
Proof.
  revert index assigned gs; induction rgs as [|rg rgs IH]; intros index assigned gs; cbn; intros H; inv_ok;
    constructor; [by eapply discover_group_Ok|by eapply IH].
Qed.

(** C38: a layout that discovery accepts is valid (every constructor check passes), has
    one group per runtime group, in order, with exactly that group's layers in
    sorted order and the shard count its replication implies. *)
Theorem discovered_layout_valid nb rgs dcp vc r layout :
  build_hma_layout nb rgs dcp vc r = Ok layout →
  valid_layout layout ∧
  ∃ d, dcp = VInt d ∧ 0 < d ∧ dcp_degree layout = d ∧ nb = AVal (VInt (num_manager_blocks layout)) ∧
  Forall2 (λ g rg, layer_name <$> layers g = py_sorted_keys (rg_layer_names rg) ∧
                   dcp_shard_count g = (if dcp_replicated g then 1 else d))
    (groups layout) rgs.
Proof.
  unfold build_hma_layout. intros H. inv_ok.
  repeat match goal with E : positive_int _ _ = Ok _ |- _ => apply positive_int_Ok in E as [-> ?] end.
  match goal with E : discover_groups _ _ _ _ _ _ = _ |- _ => apply discover_groups_Ok in E as Hd end.
  match goal with E : layout_post_init _ = Ok ?u |- _ => destruct u end.
  split.
  - constructor; [done| |]; apply Forall_forall; cbn; intros g Hg;
      destruct (list_elem_of_lookup_1 _ _ Hg) as [i Hi];
      destruct (Forall2_lookup_l _ _ _ _ _ Hd Hi) as (rg & _ & Hdisc); apply Hdisc.
  - eexists. split_and!; [done|done|done|by apply getattr_none|].
    cbn. eapply Forall2_impl; [exact Hd|]. intros g rg Hg. split; [apply (ds_names _ _ _ _ _ Hg)|apply Hg].
Qed.

(** discovery fails closed.  Every layer of an accepted layout is a layer of the
    matching runtime group whose page size the runtime declared, and its group's
    reuse policy is justified by what that layer's specification advertises:
    a supported semantic kind with the window or cache mode it needs, or, for
    scratch state, explicit non-participation and contracts that bound it to one
    block-table page and one physical page. *)
Theorem discovery_fails_closed nb rgs dcp vc r layout i g l :
  build_hma_layout nb rgs dcp vc r = Ok layout →
  groups layout !! i = Some g → l ∈ layers g →
  ∃ rg spec declared, rgs !! i = Some rg ∧ layer_name l ∈ rg_layer_names rg ∧
    layer_spec rg (layer_name l) = Some spec ∧ layer_spec_name l = sp_type_name spec ∧
    sp_page_size_bytes spec = AVal (VInt (page_size_bytes l)) ∧
    justified vc r declared spec (reuse_policy g) (reuse_window_tokens g).
Proof.
  unfold build_hma_layout. intros H Hi Hl. inv_ok. cbn in Hi.
  match goal with E : discover_groups _ _ _ _ _ _ = _ |- _ => apply discover_groups_Ok in E as Hd end.
  destruct (Forall2_lookup_l _ _ _ _ _ Hd Hi) as (rg & Hrg & Hg).
  destruct (ds_justified _ _ _ _ _ Hg l Hl) as (spec & declared & ?).
  exists rg, spec, declared. split_and!; try done; try (by destruct_and!).
  rewrite <-(py_sorted_keys_perm (rg_layer_names rg)), <-(ds_names _ _ _ _ _ Hg).
  by apply list_elem_of_fmap_2.
Qed.

Module DiscoveryExamples.
Definition ok_kind (s : string) : KindResult := Kind VObj (AVal (VStr (lit s))).
(** A resolver that knows two specification classes. *)
Definition kinds : resolver := Some (λ s,
  if bool_decide (sp_type_name s = lit "FullAttentionSpec") then Ok (ok_kind "full_attention")
  else if bool_decide (sp_type_name s = lit "SlidingWindowSpec") then Ok (ok_kind "sliding_window")
  else Ok (ok_kind "unknown")).
Definition spec (name : string) (window : attr) : KVSpec :=
  Spec (lit name) (AVal (VInt 16)) AMissing (AVal (VInt 4096)) window AMissing AMissing AMissing
    AMissing AMissing CMissing CMissing CMissing.
Definition scratch : KVSpec :=
  Spec (lit "ScratchSpec") (AVal (VInt 16)) AMissing (AVal (VInt 4096)) AMissing AMissing AMissing
    AMissing (AVal (VBool false)) AMissing CMissing (CCallable (λ _ _, Ok (VInt 1)))
    (CCallable (λ _, Ok (VInt 4096))).
Definition vc0 : VllmConfig := VllmCfg (Ok (Some (AVal (VInt 8192)))) AMissing.
Definition runtime : list RuntimeGroup :=
  [RtGroup [lit "b"; lit "a"] (spec "FullAttentionSpec" AMissing) PLNone AMissing;
   RtGroup [lit "c"] (spec "SlidingWindowSpec" (AVal (VInt 64))) PLNone (AVal (VBool true));
   RtGroup [lit "s"] scratch PLNone AMissing].
Definition built : result HMALayout :=
  build_hma_layout (AVal (VInt 100)) runtime (VInt 2) (Some vc0) kinds.
Definition built_layout : HMALayout := Eval vm_compute in
  match built with Ok l => l | Raise _ => Layout 0 0 [] end.
Definition first_group : GroupGeometry := Eval vm_compute in
  match groups built_layout with g :: _ => g | [] => Group 0 [] 0 0 0 false 0 0 PFull None 0 false [] end.

Lemma built_ok : built = Ok built_layout.
Proof. vm_compute. reflexivity. Qed.

Lemma discovered_layout_valid_witness : built = Ok built_layout ∧ valid_layout built_layout.
Proof.
  split; [exact built_ok|].
  exact (proj1 (discovered_layout_valid _ _ _ _ _ _ built_ok)).
Defined.

Lemma discovery_fails_closed_witness :
  ∃ rg spec declared, runtime !! 0%nat = Some rg ∧ lit "a" ∈ rg_layer_names rg ∧
    layer_spec rg (lit "a") = Some spec ∧ justified (Some vc0) kinds declared spec PFull None.
Proof.
  destruct (discovery_fails_closed _ _ _ _ _ _ 0 first_group (Layer (lit "a") (lit "FullAttentionSpec") 4096)
              built_ok eq_refl) as (rg & s & d & H1 & H2 & H3 & _ & _ & H4).
  - vm_compute. apply list_elem_of_here.
  - exists rg, s, d. split; [exact H1|]. split; [exact H2|]. split; [exact H3|exact H4].
Defined.
End DiscoveryExamples.
