(* ===== verification/Manifest.v ===== *)
(** * Page slices and manifest coverage

    [PageSlice], [TokenSegments], [TokenFileDescriptor] and [TokenSnapshot] of
    [src/spoolcache/manifest.py], and [HMALayout.validate_manifest_coverage] of
    [src/spoolcache/hma.py].  A snapshot is a list of descriptors, one per token
    file; its segments are derived from the layout as they are consumed. *)
From S2P Require Import Prelude Dict Bytes Utf8 Json Hma HmaSpec.

Record PageSlice := Slice {
  sl_group_index : Z;
  sl_layer_name : pystr;
  page_start : Z;
  page_count : Z;
  sl_byte_length : Z
}.

#[export] Instance PageSlice_eq_dec : EqDecision PageSlice.
Proof. solve_decision. Defined.

Definition slice_post_init (s : PageSlice) : result unit :=
  _ ← raise_if ((sl_group_index s <? 0) || (page_start s <? 0) || (page_count s <=? 0)
                || (sl_byte_length s <=? 0)) ManifestError "page slice range is invalid";
  let n := Z.of_nat (length (sl_layer_name s)) in
  raise_if (negb ((0 <? n) && (n <=? 512))) ManifestError "page slice layer is invalid".

Inductive file_kind := KData | KState.
#[export] Instance file_kind_eq_dec : EqDecision file_kind.
Proof. solve_decision. Defined.

Definition kind_name (k : file_kind) : pystr :=
  match k with KData => lit "data" | KState => lit "state" end.

(** The groups whose pages a file of this kind holds. *)
Definition kind_holds (k : file_kind) (g : GroupGeometry) : bool :=
  Bool.eqb (bool_decide (reuse_policy g = PFull)) (bool_decide (k = KData)).

(** [TokenSegments.__iter__]: the slices of one group; each is validated when it
    is constructed. *)
Definition group_slices (g : GroupGeometry) (start count : Z) : list PageSlice :=
  (λ l, Slice (group_index g) (layer_name l) start count (count * page_size_bytes l)) <$> layers g.

Definition construct (s : PageSlice) : result PageSlice := _ ← slice_post_init s; Ok s.

Definition group_segments (span_tokens chunk_tokens : Z) (k : file_kind) (g : GroupGeometry)
    : result (list PageSlice) :=
  if negb (kind_holds k g) then Ok []
  else
    match k with
    | KData =>
        mapM_result construct
          (group_slices g ((span_tokens - chunk_tokens) / logical_tokens_per_page g)
             (chunk_tokens / logical_tokens_per_page g))
    | KState =>
        count ← selected_page_count g (VInt span_tokens);
        mapM_result construct (group_slices g 0 count)
    end.

Definition token_segments (layout : HMALayout) (span_tokens chunk_tokens : Z) (k : file_kind)
    : result (list PageSlice) :=
  l ← mapM_result (group_segments span_tokens chunk_tokens k) (groups layout);
  Ok (concat l).

(** [TokenSegments.__len__] *)
Definition token_segments_len (layout : HMALayout) (k : file_kind) : Z :=
  foldr (λ g n, (if kind_holds k g then Z.of_nat (length (layers g)) else 0) + n) 0 (groups layout).

Record TokenFileDescriptor := Descriptor {
  td_key : pystr;
  td_parent : option pystr;
  td_span_tokens : Z;
  td_segments : list PageSlice;
  td_byte_length : Z;
  td_sha256 : pystr;
  td_payload_offset : Z;
  td_metadata_digest : pystr;
  td_kind : file_kind;
  td_block_sha256 : list pystr
}.

#[export] Instance TokenFileDescriptor_eq_dec : EqDecision TokenFileDescriptor.
Proof. solve_decision. Defined.

Definition stored_length (d : TokenFileDescriptor) : Z := td_payload_offset d + td_byte_length d.

Record TokenSnapshot := Snapshot {
  ts_entry_id : pystr;
  ts_span_tokens : Z;
  ts_profile : pystr;
  ts_layout_digest : pystr;
  ts_objects : list TokenFileDescriptor
}.

(** ** Coverage *)
Definition slice_key (s : PageSlice) : Z * pystr := (sl_group_index s, sl_layer_name s).

(** The [expected] mapping: page count and page size of every layer. *)
Definition expected_of (p : GroupGeometry * Z) : list ((Z * pystr) * (Z * Z)) :=
  (λ l, ((group_index p.1, layer_name l), (p.2, page_size_bytes l))) <$> layers p.1.

Definition expected_pages (layout : HMALayout) (counts : list Z) : gmap (Z * pystr) (Z * Z) :=
  list_to_map (zip (groups layout) counts ≫= expected_of).

Fixpoint cover_loop (expected : gmap (Z * pystr) (Z * Z)) (cursors : gmap (Z * pystr) Z)
    (segments : list PageSlice) : result (gmap (Z * pystr) Z) :=
  match segments with
  | [] => Ok cursors
  | s :: segments =>
      match expected !! slice_key s with
      | None => raise LayoutError "manifest does not contain exactly every HMA layer"
      | Some (_, size) =>
          if negb (page_start s =? default 0 (cursors !! slice_key s))
          then raise LayoutError "manifest HMA page ranges contain a gap"
          else if negb (sl_byte_length s =? page_count s * size)
          then raise LayoutError "manifest HMA object byte length differs"
          else cover_loop expected (<[slice_key s := page_start s + page_count s]> cursors) segments
      end
  end.

Definition cover_pages (layout : HMALayout) (span_tokens : Z) (segments : list PageSlice)
    : result unit :=
  expected_counts ← selected_page_counts layout (VInt span_tokens);
  let expected := expected_pages layout expected_counts in
  cursors ← cover_loop expected ∅ segments;
  _ ← raise_if (negb (bool_decide (dom cursors = dom expected))) LayoutError
        "manifest does not contain exactly every HMA layer";
  raise_if (negb (bool_decide (map_Forall (λ k p, cursors !! k = Some p.1) expected))) LayoutError
    "manifest HMA page coverage is incomplete".

Definition validate_manifest_coverage `{Sha} (layout : HMALayout) (manifest : TokenSnapshot)
    : result unit :=
  digest ← layout_digest layout;
  _ ← raise_if (negb (bool_decide (ts_profile manifest = VLLM_RUNTIME_KV_PROFILE))
                || negb (bool_decide (ts_layout_digest manifest = digest)))
        LayoutError "manifest layout identity differs from this worker";
  cover_pages layout (ts_span_tokens manifest) (ts_objects manifest ≫= td_segments).

(** ** What a successful coverage check means *)

(** [l] covers the pages from [start] to [stop] in order, without a gap. *)
Fixpoint contiguous (start stop : Z) (l : list PageSlice) : Prop :=
  match l with
  | [] => start = stop
  | s :: l => page_start s = start ∧ contiguous (start + page_count s) stop l
  end.

Definition slices_of (key : Z * pystr) (l : list PageSlice) : list PageSlice :=
  filter (λ s, slice_key s = key) l.

Lemma slices_of_cons key s l :
  slices_of key (s :: l) = if decide (slice_key s = key) then s :: slices_of key l else slices_of key l.
Proof. unfold slices_of. rewrite filter_cons. by destruct (decide _). Qed.

Lemma contiguous_app a c l k :
  contiguous a c (l ++ k) ↔ ∃ b, contiguous a b l ∧ contiguous b c k.
Proof.
  revert a; induction l as [|s l IH]; intros a; cbn.
  - split; [eauto|]. by intros (b & -> & ?).
  - rewrite IH. naive_solver.
Qed.

(** The cursor of one layer before and after its slices. *)
Fixpoint covered (o o' : option Z) (l : list PageSlice) : Prop :=
  match l with
  | [] => o' = o
  | s :: l => page_start s = default 0 o ∧ covered (Some (page_start s + page_count s)) o' l
  end.

Definition slice_ok (expected : gmap (Z * pystr) (Z * Z)) (s : PageSlice) : Prop :=
  ∃ count size, expected !! slice_key s = Some (count, size) ∧ sl_byte_length s = page_count s * size.

Lemma cover_loop_spec expected segs cursors cursors' :
  cover_loop expected cursors segs = Ok cursors' ↔
  Forall (slice_ok expected) segs ∧
  ∀ k, covered (cursors !! k) (cursors' !! k) (slices_of k segs).
Proof.
  revert cursors; induction segs as [|s segs IH]; intros cursors; cbn [cover_loop].
  - split.
    + intros [= <-]. split; [constructor|done].
    + intros [_ Hk]. f_equal. apply map_eq. intros k. symmetry. apply (Hk k).
  - rewrite Forall_cons. unfold slice_ok at 1.
    destruct (expected !! slice_key s) as [[count size]|] eqn:Ee;
      [|split; [done|by intros [[(? & ? & ? & _) _] _]]].
    assert (Hk : (∀ k, covered (cursors !! k) (cursors' !! k) (slices_of k (s :: segs))) ↔
      page_start s = default 0 (cursors !! slice_key s) ∧
      ∀ k, covered (<[slice_key s := page_start s + page_count s]> cursors !! k) (cursors' !! k)
             (slices_of k segs)).
    { split.
      - intros Hall. pose proof (Hall (slice_key s)) as Hs. rewrite slices_of_cons, decide_True in Hs by done.
        cbn in Hs. destruct Hs as [Hs1 Hs2]. split; [done|]. intros k. rewrite lookup_insert.
        case_decide as Hd; [by subst|]. specialize (Hall k). by rewrite slices_of_cons, decide_False in Hall.
      - intros [Hs Hall] k. specialize (Hall k). rewrite lookup_insert in Hall. rewrite slices_of_cons.
        case_decide as Hd; [subst; by cbn|done]. }
    rewrite Hk. destruct (page_start s =? _) eqn:E1; bsimp; cbn [negb];
      [|split; [done|by intros (_ & ? & _)]].
    destruct (sl_byte_length s =? _) eqn:E2; bsimp; cbn [negb].
    + rewrite IH. split; [intros [? ?]; split_and!; eauto|intros [[_ ?] [_ ?]]; done].
    + split; [done|]. intros [[(? & ? & [= <- <-] & Hb) _] _]. by destruct E2.
Qed.

Lemma covered_contiguous o stop l :
  l ≠ [] → covered o (Some stop) l ↔ contiguous (default 0 o) stop l.
Proof.
  revert o; induction l as [|s l IH]; intros o Hne; [done|].
  destruct l as [|s' l].
  - cbn. split; [intros [-> [= ->]]; done|intros [-> <-]; done].
  - assert (Hl := IH (Some (page_start s + page_count s)) ltac:(done)). cbn [default] in Hl.
    change (covered o (Some stop) (s :: s' :: l)) with
      (page_start s = default 0 o ∧ covered (Some (page_start s + page_count s)) (Some stop) (s' :: l)).
    rewrite Hl. split; (intros [Hs Hc]; split; [done|]); by rewrite ?Hs in *.
Qed.

Lemma covered_None o' l : covered None o' l → o' = None → l = [].
Proof.
  destruct l as [|s l]; [done|]. cbn. intros [_ Hc] ->. exfalso. revert Hc.
  generalize (page_start s + page_count s). induction l as [|s' l IH]; intros z; cbn; [done|].
  intros [_ Hc]. by eapply IH.
Qed.

Record covers_exactly (expected : gmap (Z * pystr) (Z * Z)) (segs : list PageSlice) : Prop := {
  ce_slices : Forall (slice_ok expected) segs;
  ce_layers : ∀ k count size, expected !! k = Some (count, size) →
    slices_of k segs ≠ [] ∧ contiguous 0 count (slices_of k segs)
}.

Lemma cover_pages_iff layout span segs :
  cover_pages layout span segs = Ok tt ↔
  ∃ counts, selected_page_counts layout (VInt span) = Ok counts ∧
    covers_exactly (expected_pages layout counts) segs.
Proof.
  unfold cover_pages. split.
  - intros Hc. inv_ok. bsimp.
    match goal with E : selected_page_counts _ _ = Ok ?x |- _ => exists x; split; [done|];
      set (expected := expected_pages layout x) in * end.
    match goal with E : cover_loop _ _ _ = Ok ?x |- _ => rename x into cursors; rename E into Hl end.
    apply cover_loop_spec in Hl as [Hs Hk]. constructor; [done|].
    intros k count size He.
    match goal with E : map_Forall _ expected |- _ => pose proof (E k _ He) as Hcur end. cbn in Hcur.
    specialize (Hk k). rewrite lookup_empty, Hcur in Hk.
    assert (Hne : slices_of k segs ≠ []) by (intros Hn; by rewrite Hn in Hk).
    split; [done|]. by apply covered_contiguous in Hk.
  - intros (counts & Hcnt & [Hs Hk]). rewrite Hcnt. cbn.
    set (expected := expected_pages layout counts) in *.
    set (cursors := (λ p, p.1) <$> expected).
    assert (Hl : cover_loop expected ∅ segs = Ok cursors).
    { apply cover_loop_spec. split; [done|]. intros k. rewrite lookup_empty. subst cursors.
      rewrite lookup_fmap. destruct (expected !! k) as [[count size]|] eqn:He; cbn.
      - destruct (Hk k count size He) as [Hne Hc]. by apply covered_contiguous.
      - destruct (slices_of k segs) as [|s l] eqn:El; [done|].
        assert (Hin : s ∈ slices_of k segs) by (rewrite El; by left).
        unfold slices_of in Hin. apply list_elem_of_filter in Hin as [<- Hin].
        rewrite Forall_forall in Hs. destruct (Hs s Hin) as (? & ? & ? & _). congruence. }
    rewrite Hl. cbn. rewrite !bool_decide_eq_true_2; [done| |].
    + apply dom_fmap_L.
    + intros k [count size] He. subst cursors. rewrite lookup_fmap, He. done.
Qed.

(** the coverage check succeeds exactly when the span is aligned, every slice
    belongs to a layer of the layout with that layer's byte length, and the slices
    of every layer, in the order they are stored, cover its required pages from 0
    to the selected count without gap or overlap. *)
Theorem coverage_is_exact layout span segs :
  cover_pages layout span segs = Ok tt ↔
  ∃ counts, selected_page_counts layout (VInt span) = Ok counts ∧
    covers_exactly (expected_pages layout counts) segs.
Proof. apply cover_pages_iff. Qed.

(** ** A complete chain covers the layout *)
Definition has_boundary_state (layout : HMALayout) : bool :=
  existsb (λ g, negb (bool_decide (reuse_policy g = PFull))) (groups layout).

(** The segments of the [n] data files of a prefix, then of its boundary state. *)
Definition chain_segments (layout : HMALayout) (chunk_tokens n : Z) : result (list PageSlice) :=
  data ← mapM_result (λ i, token_segments layout (i * chunk_tokens) chunk_tokens KData) (seqZ 1 n);
  state ← (if has_boundary_state layout
           then token_segments layout (n * chunk_tokens) chunk_tokens KState else Ok []);
  Ok (concat data ++ state).

Lemma slices_of_app k l m : slices_of k (l ++ m) = slices_of k l ++ slices_of k m.
Proof. apply filter_app. Qed.

Lemma slices_of_bind {A} k (l : list A) f : slices_of k (l ≫= f) = l ≫= λ x, slices_of k (f x).
Proof. induction l as [|x l IH]; [done|]. rewrite !bind_cons, <-IH. apply slices_of_app. Qed.

Lemma slices_of_concat k (l : list (list PageSlice)) :
  slices_of k (concat l) = concat (slices_of k <$> l).
Proof. induction l as [|x l IH]; [done|]. rewrite fmap_cons. cbn [concat]. by rewrite slices_of_app, IH. Qed.

(** Only one element of a list with distinct tags contributes. *)
Lemma bind_unique {A B T} (tag : A → T) (l : list A) (f : A → list B) x :
  NoDup (tag <$> l) → x ∈ l → (∀ y, y ∈ l → tag y ≠ tag x → f y = []) → l ≫= f = f x.
Proof.
  induction l as [|y l IH]; [by intros _ ?%not_elem_of_nil|].
  rewrite fmap_cons, NoDup_cons, bind_cons. intros [Hy Hnd] [->|Hx]%elem_of_cons Hf.
  - assert (l ≫= f = []) as ->; [|by rewrite app_nil_r].
    assert (Hall : ∀ z, z ∈ l → f z = []).
    { intros z Hz. apply Hf; [by right|]. intros Ht. destruct Hy. rewrite <-Ht. by apply list_elem_of_fmap_2. }
    clear -Hall. induction l as [|z l IH]; [done|]. rewrite bind_cons, Hall by by left.
    apply IH. intros w Hw. apply Hall. by right.
  - rewrite (Hf y); [|by left|].
    + apply IH; [done|done|]. intros z Hz. apply Hf. by right.
    + intros Ht. destruct Hy. rewrite Ht. by apply list_elem_of_fmap_2.
Qed.

Definition slice_for (g : GroupGeometry) (start count : Z) (l : LayerGeometry) : PageSlice :=
  Slice (group_index g) (layer_name l) start count (count * page_size_bytes l).

Lemma slices_of_none k (f : LayerGeometry → PageSlice) ls :
  (∀ l, l ∈ ls → slice_key (f l) ≠ k) → slices_of k (f <$> ls) = [].
Proof.
  induction ls as [|m ls IH]; intros Hne; [done|]. rewrite fmap_cons, slices_of_cons, decide_False.
  - apply IH. intros l Hl. apply Hne. by right.
  - apply Hne. by left.
Qed.

Lemma slices_of_group g start count l :
  NoDup (layer_name <$> layers g) → l ∈ layers g →
  slices_of (group_index g, layer_name l) (group_slices g start count) = [slice_for g start count l].
Proof.
  intros Hnd Hl. change (group_slices g start count) with (slice_for g start count <$> layers g).
  induction (layers g) as [|m ls IH]; [by apply not_elem_of_nil in Hl|].
  cbn in Hnd. apply NoDup_cons in Hnd as [Hm Hnd].
  rewrite fmap_cons, slices_of_cons. apply elem_of_cons in Hl as [->|Hl].
  - rewrite decide_True by done. f_equal. apply slices_of_none. intros l' Hl' [= He].
    destruct Hm. rewrite <-He. by apply list_elem_of_fmap_2.
  - rewrite decide_False; [by apply IH|]. intros [= He]. destruct Hm. rewrite He.
    by apply list_elem_of_fmap_2.
Qed.

Lemma slices_of_other g start count gi ln :
  gi ≠ group_index g → slices_of (gi, ln) (group_slices g start count) = [].
Proof.
  intros Hne. change (group_slices g start count) with (slice_for g start count <$> layers g).
  apply slices_of_none. intros l _ [= He _]. congruence.
Qed.

Section chain.
Context (layout : HMALayout) (Hv : valid_layout layout).

Lemma vl_group_ok g : g ∈ groups layout → group_ok g.
Proof.
  intros Hg. pose proof (vl_groups _ Hv) as Ha. rewrite Forall_forall in Ha.
  by apply group_post_init_Ok, Ha.
Qed.

Lemma vl_index_nodup : NoDup (group_index <$> groups layout).
Proof. rewrite (lo_index _ (layout_post_init_Ok _ (vl_layout _ Hv))). apply NoDup_seqZ. Qed.

Lemma group_slices_construct g start count :
  g ∈ groups layout → 0 ≤ start → 0 < count →
  mapM_result construct (group_slices g start count) = Ok (group_slices g start count).
Proof.
  intros Hg Hs Hc. pose proof (vl_layers _ Hv) as Hl. rewrite Forall_forall in Hl.
  specialize (Hl g Hg). apply mapM_result_Ok. unfold group_slices.
  pose proof (go_index _ (vl_group_ok g Hg)) as Hi.
  induction Hl as [|l ls Hl _ IH]; constructor; [|exact IH].
  unfold layer_post_init in Hl. cbv zeta in Hl. inv_ok. bsimp. destruct_and?.
  unfold construct, slice_post_init. cbn.
  assert ((group_index g <? 0) || (start <? 0) || (count <=? 0) || (count * page_size_bytes l <=? 0) = false)
    as -> by (bsimp; nia).
  cbn. assert ((0 <? Z.of_nat (length (layer_name l))) && (Z.of_nat (length (layer_name l)) <=? 512) = true)
    as -> by (bsimp; lia). done.
Qed.

(** The segments of one file, without the construction checks. *)
Definition file_slices (span chunk : Z) (k : file_kind) (g : GroupGeometry) : list PageSlice :=
  if kind_holds k g then
    match k with
    | KData => group_slices g ((span - chunk) / logical_tokens_per_page g)
                 (chunk / logical_tokens_per_page g)
    | KState => group_slices g 0 (match selected_page_count g (VInt span) with Ok n => n | Raise _ => 0 end)
    end
  else [].

Lemma kind_holds_data g : kind_holds KData g = true ↔ reuse_policy g = PFull.
Proof. unfold kind_holds. destruct (reuse_policy g); by vm_compute. Qed.
Lemma kind_holds_state g : kind_holds KState g = true ↔ reuse_policy g ≠ PFull.
Proof. unfold kind_holds. destruct (reuse_policy g); by vm_compute. Qed.
End chain.
