(* ===== verification/Gpu.v ===== *)
(** * Page copies between files and GPU memory ([src/spoolcache/gpu.py])

    A registered KV tensor is seen as manager pages ([manager_page_view]); a file holds
    pages of several layers one after the other, and is transferred in byte ranges
    through one host credit of fixed size.  PyTorch is foreign: [Torch] is the interface
    to the operations the code calls, with their documented effect on the bytes of GPU
    memory when they succeed; any of them may raise. *)
From S2P Require Import Prelude Dict Bytes Utf8 Json Hma HmaSpec Manifest.

(** ** Views *)

(** [length] bytes of a storage, one after the other. *)
Record FlatView := Flat { fv_storage : Z; fv_start : Z; fv_length : Z }.

(** The result of [torch.as_strided]: [pv_count] rows of [pv_size] bytes. *)
Record PageView := Pages {
  pv_storage : Z;
  pv_offset : Z;
  pv_stride : Z;
  pv_count : Z;
  pv_size : Z
}.

(** The facts a tensor answers; [None] stands for an attribute that is missing or raises. *)
Record Tensor := MkTensor {
  t_object : Z;
  t_device : option (pystr * option Z);
  t_device_name : pystr;
  t_dtype : pystr;
  t_element_size : Z;
  t_shape : list Z;
  t_stride : list Z;
  t_storage_offset : Z;
  t_storage : option (Z * Z)
}.

(** [tensor.view(torch.uint8)]: storage, offset in bytes, size of the storage. *)
Record ByteView := MkByteView { bv_storage : Z; bv_offset : Z; bv_nbytes : Z }.

(** The storage address of byte [k] of the pages [ids], laid one after the other. *)
Definition page_address (v : PageView) (ids : list Z) (k : Z) : Z :=
  pv_offset v + default 0 (ids !! Z.to_nat (k / pv_size v)) * pv_stride v + k mod pv_size v.

Class Torch := {
  device : Type;
  byte_at : device → Z → Z → option byte;
  view_uint8 : Tensor → result ByteView;
  as_strided : ByteView → PageView → result PageView;
  is_contiguous : PageView → bool;
  narrow : PageView → Z → Z → result FlatView;
  row : PageView → Z → result FlatView;
  copy_to_host : device → FlatView → Z → Z → result (list byte);
  copy_to_device : device → FlatView → Z → list byte → result device;
  index_select : device → PageView → list Z → result (list byte);
  index_copy : device → PageView → list Z → list byte → result device;
  as_strided_Ok : ∀ b v v', as_strided b v = Ok v' → v' = v;
  contiguous_dense : ∀ v, is_contiguous v = true → 1 < pv_count v → pv_stride v = pv_size v;
  narrow_Ok : ∀ v first n f, 0 ≤ first → 0 < n → narrow v first n = Ok f →
    first + n ≤ pv_count v ∧
    f = Flat (pv_storage v) (pv_offset v + first * pv_stride v) (n * pv_size v);
  row_Ok : ∀ v p f, 0 ≤ p → row v p = Ok f →
    f = Flat (pv_storage v) (pv_offset v + p * pv_stride v) (pv_size v);
  copy_to_host_Ok : ∀ m f off n b, 0 ≤ off → 0 ≤ n → off + n ≤ fv_length f →
    copy_to_host m f off n = Ok b →
    length b = Z.to_nat n ∧
    ∀ i, 0 ≤ i < n → b !! Z.to_nat i = byte_at m (fv_storage f) (fv_start f + off + i);
  copy_to_device_Ok : ∀ m f off b m', 0 ≤ off → off + Z.of_nat (length b) ≤ fv_length f →
    copy_to_device m f off b = Ok m' →
    ∀ s a, byte_at m' s a =
      if bool_decide (s = fv_storage f ∧ 0 ≤ a - (fv_start f + off) < Z.of_nat (length b))
      then b !! Z.to_nat (a - (fv_start f + off)) else byte_at m s a;
  index_select_Ok : ∀ m v ids b, Forall (λ p, 0 ≤ p) ids → index_select m v ids = Ok b →
    length b = (length ids * Z.to_nat (pv_size v))%nat ∧
    ∀ k, 0 ≤ k < Z.of_nat (length b) → b !! Z.to_nat k = byte_at m (pv_storage v) (page_address v ids k);
  index_copy_Ok : ∀ m v ids b m', Forall (λ p, 0 ≤ p) ids → NoDup ids → 0 < pv_size v ≤ pv_stride v →
    length b = (length ids * Z.to_nat (pv_size v))%nat → index_copy m v ids b = Ok m' →
    (∀ k, 0 ≤ k < Z.of_nat (length b) → byte_at m' (pv_storage v) (page_address v ids k) = b !! Z.to_nat k) ∧
    (∀ s a, (∀ k, 0 ≤ k < Z.of_nat (length b) → (s, a) ≠ (pv_storage v, page_address v ids k)) →
       byte_at m' s a = byte_at m s a)
}.

Section gpu.
Context `{Torch}.

(** ** Manager pages of a tensor *)
Definition manager_page_view (tensor : Tensor) (manager_blocks page_size_bytes : Z) : result PageView :=
  _ ← raise_if ((manager_blocks <=? 0) || (page_size_bytes <=? 0)) LayoutError
        "manager page geometry must be positive";
  match t_shape tensor, t_stride tensor with
  | kernel_rows :: (_ :: _) as tail_shape, row_stride :: _ =>
      _ ← raise_if (negb (kernel_rows mod manager_blocks =? 0)) LayoutError
            "rows do not divide manager block count";
      let rows_per_page := kernel_rows / manager_blocks in
      let element_size := t_element_size tensor in
      let logical_page_bytes := rows_per_page * foldr Z.mul 1 tail_shape * element_size in
      let manager_page_stride := row_stride * element_size * rows_per_page in
      _ ← raise_if ((manager_page_stride <=? 0)
                    || negb ((logical_page_bytes <=? page_size_bytes)
                             && (page_size_bytes <=? manager_page_stride))) LayoutError
            "page geometry differs";
      match (b ← view_uint8 tensor;
             let required := bv_offset b + (manager_blocks - 1) * manager_page_stride + page_size_bytes in
             _ ← raise_if (bv_nbytes b <? required) LayoutError
                   "physical manager pages exceed tensor storage";
             as_strided b (Pages (bv_storage b) (bv_offset b) manager_page_stride manager_blocks
                             page_size_bytes)) with
      | Raise e => if decide (exn_class e = RuntimeError)
                   then raise LayoutError "physical page view is invalid" else Raise e
      | r => r
      end
  | _, _ => raise LayoutError "unexpected shape"
  end.

(** ** Owners and aliases of the registered tensors *)
Definition _tensor_view_identity (t : Tensor)
    : option (pystr * pystr * Z * list Z * list Z * Z * (Z * Z)) :=
  s ← t_storage t;
  Some (t_device_name t, t_dtype t, t_element_size t, t_shape t, t_stride t, t_storage_offset t, s).

Definition _same_tensor_view (left right : Tensor) : bool :=
  (t_object left =? t_object right)
  || match _tensor_view_identity left, _tensor_view_identity right with
     | Some l, Some r => bool_decide (l = r)
     | _, _ => false
     end.

Definition owner_targets (owned : list (pystr * Tensor)) (t : Tensor) : list pystr :=
  fst <$> filter (λ p, _same_tensor_view t p.2 = true) owned.

Definition bind_group_owned_kv_caches (layout : HMALayout) (kv_caches : list (pystr * Tensor))
    : result (list (pystr * Tensor) * list (pystr * list pystr)) :=
  let owned_names := layer_names layout in
  let registered_names := kv_caches.*1 in
  _ ← raise_if (bool_decide (Exists (λ n, n = []) registered_names)) LayoutError
        "registered KV layer names must be non-empty strings";
  _ ← raise_if (bool_decide (Exists (λ n, n ∉ registered_names) owned_names)) LayoutError
        "registered KV layers differ from the discovered HMA layout";
  selected ← mapM_result (λ n, match od_get n kv_caches with
                               | Some t => Ok (n, t)
                               | None => raise KeyError "kv_caches"
                               end) owned_names;
  aliases ← mapM_result
    (λ n, match od_get n kv_caches with
          | Some t => let targets := owner_targets selected t in
                      _ ← raise_if (bool_decide (targets = [])) LayoutError
                            "registered KV layer is neither group-owned nor an exact alias";
                      Ok (n, targets)
          | None => raise KeyError "kv_caches"
          end)
    (py_sorted_keys (filter (λ n, n ∉ owned_names) registered_names));
  Ok (selected, aliases).

(** ** Copies of a byte range *)
Record BoundPageLayer := BoundLayer {
  bp_group_index : Z;
  bp_layer_name : pystr;
  bp_page_size_bytes : Z;
  bp_pages : PageView
}.

Definition _contiguous_page_span (pages : PageView) (physical_pages : list Z) : result (option FlatView) :=
  match physical_pages with
  | [] => Ok None
  | first :: _ =>
      if negb (is_contiguous pages) then Ok None
      else if (first <? 0)
              || negb (bool_decide (physical_pages = seqZ first (Z.of_nat (length physical_pages))))
      then Ok None
      else f ← narrow pages first (Z.of_nat (length physical_pages)); Ok (Some f)
  end.

(** Intersect a file byte range with the ordered pages of the file. *)
Fixpoint range_loop (segments : list PageSlice) (start length : Z) : list (PageSlice * Z * Z) :=
  match segments with
  | [] => []
  | s :: segments =>
      if sl_byte_length s <=? start then range_loop segments (start - sl_byte_length s) length
      else
        let size := Z.min length (sl_byte_length s - start) in
        (s, start, size) :: (if length - size =? 0 then [] else range_loop segments 0 (length - size))
  end.

Definition segment_bytes (segments : list PageSlice) : Z := foldr Z.add 0 (sl_byte_length <$> segments).

Definition _segment_byte_ranges (segments : list PageSlice) (start length : Z)
    : result (list (PageSlice * Z * Z)) :=
  _ ← raise_if ((start <? 0) || (length <=? 0) || (segment_bytes segments <? start + length)) LayoutError
        "file byte range differs from page coverage";
  Ok (range_loop segments start length).

(** One [copy_] between a host range and a flat view; the other side is unchanged. *)
Definition move (to_device : bool) (m : device) (f : FlatView) (off : Z) (host : list byte)
    : result (device * list byte) :=
  if to_device then m ← copy_to_device m f off host; Ok (m, host)
  else host ← copy_to_host m f off (Z.of_nat (length host)); Ok (m, host).

Definition move_rows (to_device : bool) (m : device) (v : PageView) (ids : list Z) (host : list byte)
    : result (device * list byte) :=
  if to_device then m ← index_copy m v ids host; Ok (m, host)
  else host ← index_select m v ids; Ok (m, host).

Definition page_row (v : PageView) (pages : list Z) (index : nat) : result FlatView :=
  match pages !! index with Some p => row v p | None => raise IndexError "tuple index out of range" end.

(** The index tensor that [index_cache] keeps is a function of the page numbers, so the
    cache has no effect on the bytes copied. *)
Definition _copy_page_bytes (layer : BoundPageLayer) (physical_pages : list Z) (byte_start : Z)
    (host : list byte) (to_device : bool) (m : device) : result (device * list byte) :=
  let page_bytes := bp_page_size_bytes layer in
  let n := Z.of_nat (length host) in
  let first := byte_start / page_bytes in
  let offset := byte_start mod page_bytes in
  let count := (offset + n + page_bytes - 1) / page_bytes in
  let pages := take (Z.to_nat count) (drop (Z.to_nat first) physical_pages) in
  _ ← raise_if (negb (Z.of_nat (length pages) =? count)) LayoutError "transfer page range is incomplete";
  dense ← _contiguous_page_span (bp_pages layer) pages;
  match dense with
  | Some f => move to_device m f offset host
  | None =>
      let head := if offset =? 0 then 0 else Z.min (page_bytes - offset) n in
      let page_index := if offset =? 0 then O else 1%nat in
      a ← (if offset =? 0 then Ok (m, [])
           else f ← page_row (bp_pages layer) pages 0; move to_device m f offset (take (Z.to_nat head) host));
      let whole := (n - head) / page_bytes in
      let middle := whole * page_bytes in
      b ← (if whole =? 0 then Ok (a.1, [])
           else move_rows to_device a.1 (bp_pages layer) (take (Z.to_nat whole) (drop page_index pages))
                  (take (Z.to_nat middle) (drop (Z.to_nat head) host)));
      let cursor := head + middle in
      c ← (if negb (cursor <? n) then Ok (b.1, [])
           else f ← page_row (bp_pages layer) pages (page_index + Z.to_nat whole);
                move to_device b.1 f 0 (drop (Z.to_nat cursor) host));
      Ok (c.1, a.2 ++ b.2 ++ c.2)
  end.

(** ** The mover *)
Record TorchPageMover := Mover {
  mv_layout : HMALayout;
  mv_bound : gmap (Z * pystr) BoundPageLayer;
  mv_device_index : Z;
  mv_geometry_digest : pystr;
  mv_slot_bytes : Z;
  mv_closed : bool
}.

Definition bind_layer (layout : HMALayout) (kv_caches : list (pystr * Tensor)) (gl : GroupGeometry * LayerGeometry)
    : result (BoundPageLayer * Z * json) :=
  let (g, l) := gl in
  match od_get (layer_name l) kv_caches with
  | None => raise KeyError "kv_caches"
  | Some t =>
      index ← match t_device t with
              | Some (kind, index) => if bool_decide (kind = lit "cuda") then Ok (default 0 index)
                                      else raise LayoutError "KV layer is not CUDA memory"
              | None => raise LayoutError "KV layer is not CUDA memory"
              end;
      pages ← manager_page_view t (num_manager_blocks layout) (page_size_bytes l);
      let e := t_element_size t in
      Ok (BoundLayer (group_index g) (layer_name l) (page_size_bytes l) pages, index,
          JObj [(lit "group_index", JInt (group_index g)); (lit "layer_name", JStr (layer_name l));
                (lit "dtype", JStr (t_dtype t)); (lit "element_size_bytes", JInt e);
                (lit "rows_per_manager_page", JInt (hd 0 (t_shape t) / num_manager_blocks layout));
                (lit "tensor_tail_shape", JArr (JInt <$> tail (t_shape t)));
                (lit "tensor_row_stride_bytes", JInt (hd 0 (t_stride t) * e));
                (lit "tensor_tail_strides_bytes", JArr ((λ s, JInt (s * e)) <$> tail (t_stride t)));
                (lit "tensor_storage_offset_bytes", JInt (t_storage_offset t * e));
                (lit "manager_page_size_bytes", JInt (page_size_bytes l));
                (lit "manager_page_stride_bytes", JInt (pv_stride pages));
                (lit "manager_page_tail_shape", JArr [JInt 1; JInt (pv_size pages)]);
                (lit "manager_page_tail_strides_bytes", JArr [JInt (pv_size pages); JInt 1])])
  end.

Definition layout_layers (layout : HMALayout) : list (GroupGeometry * LayerGeometry) :=
  groups layout ≫= λ g, (λ l, (g, l)) <$> layers g.

Definition bound_key (b : BoundPageLayer) : Z * pystr := (bp_group_index b, bp_layer_name b).

(** [PinnedTensorPool.__init__]: the checks of its geometry. *)
Definition pinned_pool_check (slot_bytes slot_count : Z) : result unit :=
  _ ← raise_if ((slot_bytes <=? 0) || negb (slot_bytes mod 4096 =? 0)) ValueError
        "pinned slot size must be a positive 4096-byte multiple";
  raise_if (slot_count <=? 0) ValueError "slot_count must be positive".

Definition mover_init `{Sha} (layout : HMALayout) (kv_caches : list (pystr * Tensor))
    (slot_bytes slot_count : Z) : result TorchPageMover :=
  let expected := layer_names layout in
  _ ← raise_if (negb (bool_decide ((list_to_set kv_caches.*1 : gset pystr) = list_to_set expected)))
        LayoutError "registered KV layers differ from the discovered HMA layout";
  bound ← mapM_result (bind_layer layout kv_caches) (layout_layers layout);
  match elements (list_to_set ((λ b, b.1.2) <$> bound) : gset Z) with
  | [device_index] =>
      layout_sha256 ← layout_digest layout;
      digest ← sha256_json
        (JObj [(lit "schema", JStr (lit "spoolcache-registered-tensor-layout/v1"));
               (lit "hma_layout_sha256", JStr layout_sha256);
               (lit "layers", JArr (snd <$> bound))]);
      _ ← pinned_pool_check slot_bytes slot_count;
      Ok (Mover layout (list_to_map ((λ b, (bound_key b.1.1, b.1.1)) <$> bound)) device_index digest
            slot_bytes false)
  | _ => raise LayoutError "all HMA page sources must share one CUDA device"
  end.

(** The loop both directions share: each range of each segment, in file order. *)
Fixpoint copy_ranges (mv : TorchPageMover) (selected : list (list Z)) (to_device : bool)
    (ranges : list (PageSlice * Z * Z)) (host : list byte) (m : device) : result (device * list byte) :=
  match ranges with
  | [] => Ok (m, [])
  | (s, offset, size) :: ranges =>
      layer ← match mv_bound mv !! slice_key s with
              | Some layer => Ok layer | None => raise KeyError "bound layer" end;
      table ← match selected !! Z.to_nat (sl_group_index s) with
              | Some table => Ok table | None => raise IndexError "tuple index out of range" end;
      a ← _copy_page_bytes layer (take (Z.to_nat (page_count s)) (drop (Z.to_nat (page_start s)) table))
            offset (take (Z.to_nat size) host) to_device m;
      b ← copy_ranges mv selected to_device ranges (drop (Z.to_nat size) host) a.1;
      Ok (b.1, a.2 ++ b.2)
  end.

(** [_capture_packed]: the bytes of the view it yields.  The credit's earlier bytes are
    never read; zeros stand for them. *)
Definition _capture_packed (mv : TorchPageMover) (segments : list PageSlice) (selected : list (list Z))
    (byte_start : Z) (byte_length : option Z) (m : device) : result (list byte) :=
  let length := default (segment_bytes segments - byte_start) byte_length in
  _ ← raise_if (negb ((0 <? length) && (length <=? mv_slot_bytes mv))) LayoutError
        "capture range exceeds the fixed staging credit";
  ranges ← _segment_byte_ranges segments byte_start length;
  r ← copy_ranges mv selected false ranges (replicate (Z.to_nat length) x00) m;
  Ok r.2.

(** [receive] of [_restore_object_receiver]: the next range of an object. *)
Definition receive_range (mv : TorchPageMover) (selected : list (list Z)) (segments : list PageSlice)
    (payload_bytes received : Z) (chunk : list byte) (m : device) : result (Z * device) :=
  let n := Z.of_nat (length chunk) in
  _ ← raise_if (negb ((0 <? n) && (n <=? Z.min (mv_slot_bytes mv) (payload_bytes - received)))) LayoutError
        "token restore range differs from authenticated object";
  ranges ← _segment_byte_ranges segments received n;
  r ← copy_ranges mv selected true ranges chunk m;
  Ok (received + n, r.1).
End gpu.
