(* ===== verification/GpuCopy.v ===== *)
(** * What a page copy does ([src/spoolcache/gpu.py])

    [moved d m h addr m' h']: byte [i] of the host range [h] and the byte of GPU memory at
    [addr i] were made equal, towards the device or towards the host, and nothing else
    changed.  The relation composes, so the copies of pages, of segments and of whole
    files are all instances of it. *)
From S2P Require Import Prelude Dict Bytes Json Hma HmaSpec Manifest Gpu.

Section copies.
Context `{Torch}.

Abbreviation address := (Z * Z)%type.
Definition at_address (m : device) (x : address) : option byte := byte_at m x.1 x.2.

Definition moved (to_device : bool) (m : device) (host : list byte) (addr : Z → address)
    (m' : device) (host' : list byte) : Prop :=
  length host' = length host ∧
  if to_device then
    host' = host ∧
    (∀ i, 0 ≤ i < Z.of_nat (length host) → at_address m' (addr i) = host !! Z.to_nat i) ∧
    (∀ x, (∀ i, 0 ≤ i < Z.of_nat (length host) → x ≠ addr i) → at_address m' x = at_address m x)
  else
    m' = m ∧ ∀ i, 0 ≤ i < Z.of_nat (length host) → host' !! Z.to_nat i = at_address m (addr i).

Definition inj_upto (n : Z) (addr : Z → address) : Prop :=
  ∀ i j, 0 ≤ i < n → 0 ≤ j < n → addr i = addr j → i = j.

(** Writing needs distinct addresses; reading does not. *)
Definition separate (to_device : bool) (n : Z) (addr : Z → address) : Prop :=
  to_device = true → inj_upto n addr.

Lemma moved_nil d m addr : moved d m [] addr m [].
Proof. split; [done|]. destruct d; [|split; [done|]; cbn; lia]. split_and!; [done|cbn; lia|done]. Qed.

Lemma moved_ext d m h addr addr' m' h' :
  (∀ i, 0 ≤ i < Z.of_nat (length h) → addr i = addr' i) → moved d m h addr m' h' → moved d m h addr' m' h'.
Proof.
  intros He [Hl Hm]. split; [done|]. destruct d.
  - destruct Hm as (-> & Hin & Hout). split_and!; [done|intros i Hi; rewrite <- He by done; by apply Hin|].
    intros x Hx. apply Hout. intros i Hi. rewrite He by done. by apply Hx.
  - destruct Hm as [-> Hm]. split; [done|]. intros i Hi. rewrite <- He by done. by apply Hm.
Qed.

Lemma lookup_app_split (l k : list byte) i :
  0 ≤ i → (l ++ k) !! Z.to_nat i =
    if i <? Z.of_nat (length l) then l !! Z.to_nat i else k !! Z.to_nat (i - Z.of_nat (length l)).
Proof.
  intros Hi. destruct (i <? Z.of_nat (length l)) eqn:E; bsimp.
  - rewrite lookup_app_l by lia. done.
  - rewrite lookup_app_r by lia. f_equal. lia.
Qed.

Lemma moved_app d m h1 h2 addr m1 h1' m2 h2' :
  separate d (Z.of_nat (length h1 + length h2)) addr →
  moved d m h1 addr m1 h1' → moved d m1 h2 (λ i, addr (Z.of_nat (length h1) + i)) m2 h2' →
  moved d m (h1 ++ h2) addr m2 (h1' ++ h2').
Proof.
  intros Hinj [L1 M1] [L2 M2]. split; [rewrite !length_app; lia|].
  destruct d.
  - destruct M1 as (-> & I1 & O1), M2 as (-> & I2 & O2). split; [done|]. rewrite length_app. split.
    + intros i Hi. rewrite lookup_app_split by lia. destruct (i <? _) eqn:E; bsimp.
      * rewrite O2, I1; [done|lia|]. intros j Hj Heq. apply (Hinj eq_refl) in Heq; lia.
      * specialize (I2 (i - Z.of_nat (length h1)) ltac:(lia)). rewrite <- I2. do 2 f_equal. lia.
    + intros x Hx. rewrite O2, O1; [done| |]; intros i Hi; apply Hx; lia.
  - destruct M1 as [-> I1], M2 as [-> I2]. split; [done|]. intros i Hi. rewrite length_app in Hi.
    rewrite lookup_app_split, L1 by lia. destruct (i <? _) eqn:E; bsimp; [apply I1; lia|].
    rewrite I2 by lia. do 2 f_equal. lia.
Qed.

Lemma separate_sub d n k l addr :
  separate d n addr → 0 ≤ k → k + l ≤ n → separate d l (λ i, addr (k + i)).
Proof. intros Hi Hk Hl Hd i j Hi' Hj' Heq. apply (Hi Hd) in Heq; lia. Qed.

Lemma split_three (a b : nat) (l : list byte) : l = take a l ++ take b (drop a l) ++ drop (a + b) l.
Proof.
  rewrite <- (take_drop a l) at 1. f_equal. rewrite <- (take_drop b (drop a l)) at 1. by rewrite drop_drop.
Qed.

Lemma moved_three d m h a b addr m1 h1 m2 h2 m3 h3 :
  (a + b ≤ length h)%nat → separate d (Z.of_nat (length h)) addr →
  moved d m (take a h) addr m1 h1 →
  moved d m1 (take b (drop a h)) (λ i, addr (Z.of_nat a + i)) m2 h2 →
  moved d m2 (drop (a + b) h) (λ i, addr (Z.of_nat (a + b) + i)) m3 h3 →
  moved d m h addr m3 (h1 ++ h2 ++ h3).
Proof.
  intros Hl Hi M1 M2 M3. rewrite (split_three a b h).
  assert (length (take a h) = a) as L1 by (rewrite length_take; lia).
  assert (length (take b (drop a h)) = b) as L2 by (rewrite length_take, length_drop; lia).
  assert (length (drop (a + b) h) = length h - (a + b))%nat as L3 by (by rewrite length_drop).
  eapply moved_app; [|exact M1|eapply moved_app].
  - rewrite length_app, L1, L2, L3. eapply (separate_sub _ _ 0); [exact Hi|lia..].
  - rewrite L1, L2, L3. eapply separate_sub; [exact Hi|lia..].
  - eapply moved_ext; [|exact M2]. intros i _. by rewrite L1.
  - eapply moved_ext; [|exact M3]. intros i _. rewrite L1, L2. f_equal. lia.
Qed.

Lemma NoDup_slice {A} a b (l : list A) : NoDup l → NoDup (take a (drop b l)).
Proof. intros Hl. eapply sublist_NoDup; [exact Hl|]. etrans; [apply sublist_take|apply sublist_drop]. Qed.

(** ** One copy *)
Lemma move_moved d m f off h m' h' :
  0 ≤ off → off + Z.of_nat (length h) ≤ fv_length f → move d m f off h = Ok (m', h') →
  moved d m h (λ i, (fv_storage f, fv_start f + off + i)) m' h'.
Proof.
  intros Ho Hl. unfold move. destruct d.
  - intros (m1 & Hc & [= <- <-])%result_bind_Ok.
    pose proof (copy_to_device_Ok _ _ _ _ _ Ho Hl Hc) as Hb. split_and!; try done; unfold at_address; cbn.
    + intros i Hi. rewrite Hb, bool_decide_eq_true_2 by lia. f_equal. lia.
    + intros [s a] Hx. cbn. rewrite Hb, bool_decide_eq_false_2; [done|]. intros [-> Ha].
      apply (Hx (a - (fv_start f + off)) Ha). f_equal. lia.
  - intros (b & Hc & [= <- <-])%result_bind_Ok.
    apply copy_to_host_Ok in Hc as [Hn Hb]; [|lia..]. split; [lia|]. split; [done|].
    intros i Hi. by rewrite Hb.
Qed.

Section pages.
Context (v : PageView) (Hsize : 0 < pv_size v ≤ pv_stride v).

Lemma page_address_drop ids n k : 0 ≤ k →
  page_address v (drop n ids) k = page_address v ids (Z.of_nat n * pv_size v + k).
Proof.
  intros Hk. unfold page_address. pose proof (Z.div_pos k (pv_size v) Hk ltac:(lia)).
  rewrite lookup_drop, Z.div_add_l, (Z.add_comm (Z.of_nat n * _)), Z.mod_add by lia.
  by replace (Z.to_nat (Z.of_nat n + k / pv_size v)) with (n + Z.to_nat (k / pv_size v))%nat by lia.
Qed.

Lemma page_address_take ids n k : 0 ≤ k < Z.of_nat n * pv_size v →
  page_address v (take n ids) k = page_address v ids k.
Proof.
  intros Hk. unfold page_address. rewrite lookup_take_lt; [done|].
  apply Nat2Z.inj_lt. rewrite Z2Nat.id by (apply Z.div_pos; lia). apply Z.div_lt_upper_bound; lia.
Qed.

Lemma page_address_inj ids i j : NoDup ids → Forall (λ p, 0 ≤ p) ids →
  0 ≤ i < Z.of_nat (length ids) * pv_size v → 0 ≤ j < Z.of_nat (length ids) * pv_size v →
  page_address v ids i = page_address v ids j → i = j.
Proof.
  intros Hd Hp Hi Hj. unfold page_address.
  pose proof (Z.mod_pos_bound i (pv_size v) ltac:(lia)). pose proof (Z.mod_pos_bound j (pv_size v) ltac:(lia)).
  assert (∀ k, 0 ≤ k < Z.of_nat (length ids) * pv_size v → is_Some (ids !! Z.to_nat (k / pv_size v))) as Hs.
  { intros k Hk. apply lookup_lt_is_Some. apply Nat2Z.inj_lt. rewrite Z2Nat.id by (apply Z.div_pos; lia).
    apply Z.div_lt_upper_bound; lia. }
  destruct (Hs i Hi) as [p Ep], (Hs j Hj) as [q Eq]. rewrite Ep, Eq. cbn. intros Ha.
  assert (p = q) as <- by nia.
  pose proof (NoDup_lookup _ _ _ _ Hd Ep Eq) as Hq.
  apply Z2Nat.inj in Hq; [|apply Z.div_pos; lia..].
  rewrite (Z.div_mod i (pv_size v)), (Z.div_mod j (pv_size v)) by lia. rewrite Hq. lia.
Qed.

Lemma move_rows_moved d m ids h m' h' :
  NoDup ids → Forall (λ p, 0 ≤ p) ids → length h = (length ids * Z.to_nat (pv_size v))%nat →
  move_rows d m v ids h = Ok (m', h') →
  moved d m h (λ i, (pv_storage v, page_address v ids i)) m' h'.
Proof.
  intros Hn Hp Hl. unfold move_rows. destruct d.
  - intros (m1 & Hc & [= <- <-])%result_bind_Ok.
    apply index_copy_Ok in Hc as [Hin Hout]; [|done..]. split_and!; [done..|intros i Hi; by apply Hin|].
    intros [s a] Hx. by apply Hout.
  - intros (b & Hc & [= <- <-])%result_bind_Ok. apply index_select_Ok in Hc as [Hb Hin]; [|done].
    split; [congruence|]. split; [done|]. intros i Hi. rewrite Hin by lia. done.
Qed.

Lemma page_row_moved d m ids index off h m' h' :
  Forall (λ p, 0 ≤ p) ids → 0 ≤ off → off + Z.of_nat (length h) ≤ pv_size v →
  (f ← page_row v ids index; move d m f off h) = Ok (m', h') →
  moved d m h (λ i, (pv_storage v, page_address v ids (Z.of_nat index * pv_size v + off + i))) m' h'.
Proof.
  intros Hp Ho Hl (f & Hf & Hm)%result_bind_Ok. unfold page_row in Hf.
  destruct (ids !! index) as [p|] eqn:E; [|done].
  rewrite Forall_lookup in Hp. apply row_Ok in Hf as ->; [|by eapply Hp].
  apply move_moved in Hm; [|done..]. cbn in Hm. eapply moved_ext; [|exact Hm]. intros i Hi. cbn. f_equal.
  unfold page_address. rewrite <- (Z.add_assoc (_ * _)), Z.div_add_l by lia.
  rewrite (Z.div_small (off + i)) by lia. rewrite Z.add_0_r, Nat2Z.id, E. cbn.
  rewrite (Z.add_comm (_ * _)), Z.mod_add, Z.mod_small by lia. lia.
Qed.

(** The three pieces of a copy: a partial page, whole pages, a partial page. *)
Lemma copy_pieces_moved d m pages offset h m' h' :
  let n := Z.of_nat (length h) in
  NoDup pages → Forall (λ p, 0 ≤ p) pages → 0 ≤ offset < pv_size v →
  offset + n ≤ Z.of_nat (length pages) * pv_size v →
  inj_upto n (λ i, (pv_storage v, page_address v pages (offset + i))) →
  (let head := if offset =? 0 then 0 else Z.min (pv_size v - offset) n in
   let page_index := if offset =? 0 then O else 1%nat in
   a ← (if offset =? 0 then Ok (m, [])
        else f ← page_row v pages 0; move d m f offset (take (Z.to_nat head) h));
   let whole := (n - head) / pv_size v in
   let middle := whole * pv_size v in
   b ← (if whole =? 0 then Ok (a.1, [])
        else move_rows d a.1 v (take (Z.to_nat whole) (drop page_index pages))
               (take (Z.to_nat middle) (drop (Z.to_nat head) h)));
   let cursor := head + middle in
   c ← (if negb (cursor <? n) then Ok (b.1, [])
        else f ← page_row v pages (page_index + Z.to_nat whole); move d b.1 f 0 (drop (Z.to_nat cursor) h));
   Ok (c.1, a.2 ++ b.2 ++ c.2)) = Ok (m', h') →
  moved d m h (λ i, (pv_storage v, page_address v pages (offset + i))) m' h'.
Proof.
  intros n Hd Hp Hoff Hfit Hinj. cbv zeta. set (size := pv_size v) in *.
  set (head := if offset =? 0 then 0 else _). set (index := if offset =? 0 then O else 1%nat).
  assert (0 ≤ head ≤ n ∧ (head < n → offset + head = Z.of_nat index * size)) as [Hh Hpos].
  { unfold head, index. destruct (offset =? 0) eqn:E; bsimp; lia. }
  intros ([m1 h1] & Ha & Hr)%result_bind_Ok. cbn [fst snd] in Hr.
  set (whole := (n - head) / size) in *. set (middle := whole * size) in *.
  assert (0 ≤ whole ∧ 0 ≤ middle ≤ n - head ∧ n - head - middle < size) as (Hw & Hm & Hrest).
  { pose proof (Z.div_mod (n - head) size ltac:(lia)). pose proof (Z.mod_pos_bound (n - head) size ltac:(lia)).
    pose proof (Z.div_pos (n - head) size ltac:(lia) ltac:(lia)). unfold middle, whole. lia. }
  apply result_bind_Ok in Hr as ([m2 h2] & Hb & Hr). cbn [fst snd] in Hr.
  apply result_bind_Ok in Hr as ([m3 h3] & Hc & Hr). cbn [fst snd] in Hr. injection Hr as <- <-.
  set (addr := λ i, (pv_storage v, page_address v pages (offset + i))) in *.
  apply (moved_three d m h (Z.to_nat head) (Z.to_nat middle) addr m1 h1 m2 h2 m3 h3); [lia|by intros _|..].
  - destruct (offset =? 0) eqn:E.
    + injection Ha as <- <-. unfold head. cbn [Z.to_nat take]. apply moved_nil.
    + apply page_row_moved in Ha; [|done|lia|rewrite length_take; unfold head; fold size; lia].
      eapply moved_ext; [|exact Ha]. intros i Hi. reflexivity.
  - destruct (whole =? 0) eqn:E; bsimp.
    + injection Hb as <- <-. assert (middle = 0) as -> by (unfold middle; lia). cbn [Z.to_nat take]. apply moved_nil.
    + assert (length (take (Z.to_nat whole) (drop index pages)) = Z.to_nat whole) as Lw.
      { rewrite length_take, length_drop. nia. }
      apply move_rows_moved in Hb.
      * eapply moved_ext; [|exact Hb]. intros i Hi. unfold addr.
        rewrite length_take, length_drop in Hi.
        rewrite page_address_take by (fold size; lia). rewrite page_address_drop by lia. fold size.
        do 2 f_equal. lia.
      * by apply NoDup_slice.
      * by apply Forall_take, Forall_drop.
      * rewrite Lw, length_take, length_drop. fold size. unfold middle. nia.
  - rewrite <- Z2Nat.inj_add in * by lia. destruct (head + middle <? n) eqn:E; cbn [negb] in Hc; bsimp.
    + apply page_row_moved in Hc; [|done|lia|rewrite length_drop; fold size; lia].
      eapply moved_ext; [|exact Hc]. intros i Hi. unfold addr. do 2 f_equal. fold size. nia.
    + injection Hc as <- <-. rewrite drop_ge by lia. apply moved_nil.
Qed.

Lemma contiguous_span_address ids f : Forall (λ p, 0 ≤ p) ids →
  _contiguous_page_span v ids = Ok (Some f) →
  fv_storage f = pv_storage v ∧ fv_length f = Z.of_nat (length ids) * pv_size v ∧
  ∀ k, 0 ≤ k < Z.of_nat (length ids) * pv_size v → page_address v ids k = fv_start f + k.
Proof.
  intros Hp. unfold _contiguous_page_span. destruct ids as [|first ids]; [done|]. set (l := first :: ids) in *.
  destruct (is_contiguous v) eqn:Ec; cbn [negb]; [|done].
  case_match eqn:Eb; [done|]. bsimp. destruct Eb as [Hf Hseq].
  intros (g & Hg & [= ->])%result_bind_Ok.
  apply narrow_Ok in Hg as [Hc ->]; [|lia|cbn; lia]. cbn [fv_storage fv_length fv_start].
  split_and!; [done..|]. intros k Hk. unfold page_address.
  assert (0 ≤ k / pv_size v < Z.of_nat (length l)) as Hi.
  { split; [apply Z.div_pos; lia|]. apply Z.div_lt_upper_bound; lia. }
  assert (l !! Z.to_nat (k / pv_size v) = Some (first + k / pv_size v)) as ->.
  { rewrite Hseq. apply lookup_seqZ. lia. }
  cbn [default id]. pose proof (Z.div_mod k (pv_size v) ltac:(lia)) as Hdm.
  destruct (decide (1 < pv_count v)) as [H1|H1].
  - rewrite (contiguous_dense v Ec H1). unfold id. nia.
  - unfold id. assert (k / pv_size v = 0) as E0 by lia. rewrite E0 in *. nia.
Qed.

Lemma copy_page_bytes_moved d m name index ids start h m' h' :
  NoDup ids → Forall (λ p, 0 ≤ p) ids → 0 ≤ start → h ≠ [] →
  _copy_page_bytes (BoundLayer index name (pv_size v) v) ids start h d m = Ok (m', h') →
  start + Z.of_nat (length h) ≤ Z.of_nat (length ids) * pv_size v ∧
  moved d m h (λ i, (pv_storage v, page_address v ids (start + i))) m' h'.
Proof.
  intros Hd Hp Hs Hne. assert (0 < length h)%nat as Hn0 by (destruct h; [done|cbn; lia]).
  unfold _copy_page_bytes. cbn [bp_page_size_bytes bp_pages].
  set (size := pv_size v) in *. set (n := Z.of_nat (length h)).
  pose proof (Z.div_mod start size ltac:(lia)) as Hdm.
  pose proof (Z.mod_pos_bound start size ltac:(lia)) as Hoff. pose proof (Z.div_pos start size ltac:(lia) ltac:(lia)) as Hfirst.
  set (first := start / size) in *. set (offset := start mod size) in *.
  set (count := (offset + n + size - 1) / size).
  assert (offset + n ≤ count * size) as Hcount.
  { pose proof (Z.div_mod (offset + n + size - 1) size ltac:(lia)).
    pose proof (Z.mod_pos_bound (offset + n + size - 1) size ltac:(lia)). unfold count. lia. }
  assert (0 < count) as Hc0 by nia.
  set (pages := take (Z.to_nat count) (drop (Z.to_nat first) ids)).
  intros (u & Hlen%raise_if_Ok & Hr)%result_bind_Ok. bsimp.
  assert (count ≤ Z.of_nat (length ids) - first) as Hfit.
  { unfold pages in Hlen. rewrite length_take, length_drop in Hlen. lia. }
  split; [nia|]. clear u.
  assert (Forall (λ p, 0 ≤ p) pages) as Hpp by (by apply Forall_take, Forall_drop).
  assert (NoDup pages) as Hpd by (by apply NoDup_slice).
  assert (∀ i, 0 ≤ i < n → page_address v pages (offset + i) = page_address v ids (start + i)) as Haddr.
  { intros i Hi. unfold pages. rewrite page_address_take by (fold size; lia).
    rewrite page_address_drop by lia. fold size. f_equal. lia. }
  set (addr := λ i, (pv_storage v, page_address v pages (offset + i))).
  assert (inj_upto n addr) as Hinj.
  { intros i j Hi Hj Heq. unfold addr in Heq. injection Heq as Heq.
    apply page_address_inj in Heq; [lia|done|done|fold size; lia..]. }
  cut (moved d m h addr m' h').
  { apply moved_ext. intros i Hi. unfold addr. by rewrite Haddr. }
  clear Haddr. apply result_bind_Ok in Hr as (dense & Hdense & Hr). destruct dense as [f|].
  - apply contiguous_span_address in Hdense as (Est & El & Ha); [|done].
    apply move_moved in Hr; [|lia|fold size in El; fold n; lia].
    eapply moved_ext; [|exact Hr]. intros i Hi. fold n in Hi. unfold addr. rewrite Ha by (fold size; lia).
    rewrite Est. f_equal. lia.
  - clear Hdense. apply (copy_pieces_moved d m pages offset h m' h'); [done|done|lia|fold size; lia|done|exact Hr].
Qed.
End pages.

(** ** Segments and files *)
Definition bound_ok (mv : TorchPageMover) : Prop :=
  map_Forall (λ k b, bound_key b = k ∧ bp_page_size_bytes b = pv_size (bp_pages b) ∧
                     0 < pv_size (bp_pages b) ≤ pv_stride (bp_pages b)) (mv_bound mv).

Definition selection_ok (selected : list (list Z)) : Prop :=
  Forall (λ ids, NoDup ids ∧ Forall (λ p, 0 ≤ p) ids) selected.

Section files.
Context (mv : TorchPageMover) (selected : list (list Z)) (Hb : bound_ok mv) (Hsel : selection_ok selected).

Definition segment_pages (s : PageSlice) : list Z :=
  take (Z.to_nat (page_count s)) (drop (Z.to_nat (page_start s))
    (default [] (selected !! Z.to_nat (sl_group_index s)))).

(** Where byte [off] of a segment lives in GPU memory. *)
Definition segment_address (s : PageSlice) (off : Z) : address :=
  match mv_bound mv !! slice_key s with
  | Some layer => (pv_storage (bp_pages layer), page_address (bp_pages layer) (segment_pages s) off)
  | None => (0, 0)
  end.

(** Where byte [k] of a file's payload lives in GPU memory. *)
Fixpoint file_address (segments : list PageSlice) (k : Z) : address :=
  match segments with
  | [] => (0, 0)
  | s :: segments => if k <? sl_byte_length s then segment_address s k
                     else file_address segments (k - sl_byte_length s)
  end.

Lemma selection_slice i a b ids : selected !! i = Some ids →
  NoDup (take a (drop b ids)) ∧ Forall (λ p, 0 ≤ p) (take a (drop b ids)).
Proof.
  intros Hi. unfold selection_ok in Hsel. rewrite Forall_lookup in Hsel. destruct (Hsel _ _ Hi).
  split; [by apply NoDup_slice|by apply Forall_take, Forall_drop].
Qed.

Lemma copy_segment_moved d m s layer table off h m' h' :
  mv_bound mv !! slice_key s = Some layer → selected !! Z.to_nat (sl_group_index s) = Some table →
  0 ≤ off → h ≠ [] →
  _copy_page_bytes layer (take (Z.to_nat (page_count s)) (drop (Z.to_nat (page_start s)) table))
    off h d m = Ok (m', h') →
  moved d m h (λ i, segment_address s (off + i)) m' h'.
Proof.
  intros Hl Ht Ho Hne Hc. destruct (Hb _ _ Hl) as (_ & Hs & Hv). destruct layer as [g n size v]; cbn in *. subst size.
  destruct (selection_slice _ (Z.to_nat (page_count s)) (Z.to_nat (page_start s)) _ Ht) as [Hd Hp].
  apply copy_page_bytes_moved in Hc as [_ Hm]; [|done..]. eapply moved_ext; [|exact Hm]. intros i _.
  unfold segment_address, segment_pages. by rewrite Hl, Ht.
Qed.

Lemma copy_ranges_moved d segments : ∀ start m h m' h',
  Forall (λ s, 0 < sl_byte_length s) segments → 0 ≤ start → h ≠ [] →
  start + Z.of_nat (length h) ≤ segment_bytes segments →
  separate d (Z.of_nat (length h)) (λ i, file_address segments (start + i)) →
  copy_ranges mv selected d (range_loop segments start (Z.of_nat (length h))) h m = Ok (m', h') →
  moved d m h (λ i, file_address segments (start + i)) m' h'.
Proof.
  induction segments as [|s segments IH]; intros start m h m' h' Hpos Hs Hne Hfit Hinj; cbn [range_loop].
  { cbn in Hfit. destruct h; [done|cbn in Hfit; lia]. }
  apply Forall_cons in Hpos as [Hp Hpos].
  assert (segment_bytes (s :: segments) = sl_byte_length s + segment_bytes segments) as Et by done.
  assert (0 < Z.of_nat (length h)) as Hlen by (destruct h; [done|cbn; lia]).
  destruct (sl_byte_length s <=? start) eqn:E; bsimp.
  - intros Hc. assert (∀ i, 0 ≤ i → file_address (s :: segments) (start + i)
                         = file_address segments (start - sl_byte_length s + i)) as Ha.
    { intros i Hi. cbn [file_address]. rewrite (proj2 (Z.ltb_ge _ _)) by lia. f_equal. lia. }
    eapply moved_ext; [intros i Hi; symmetry; apply Ha; lia|]. apply IH; [done|lia|done|lia| |done].
    intros Hd i j Hi Hj Heq. apply (Hinj Hd); [done..|]. by rewrite !Ha by lia.
  - set (size := Z.min _ _). cbn [copy_ranges]. intros Hc.
    destruct (mv_bound mv !! slice_key s) as [layer|] eqn:El; [|done].
    destruct (selected !! Z.to_nat (sl_group_index s)) as [table|] eqn:Etab; [|done].
    cbn [mbind result_bind] in Hc. apply result_bind_Ok in Hc as ([m1 h1] & Hc & Hr).
    apply result_bind_Ok in Hr as ([m2 h2] & Hr & [= <- <-]). cbn [fst snd] in *.
    assert (length (take (Z.to_nat size) h) = Z.to_nat size) as L1 by (rewrite length_take; lia).
    assert (length (drop (Z.to_nat size) h) = length h - Z.to_nat size)%nat as L2 by apply length_drop.
    rewrite <- (take_drop (Z.to_nat size) h). eapply moved_app.
    + rewrite L1, L2. replace (Z.of_nat _) with (Z.of_nat (length h)) by lia. exact Hinj.
    + apply copy_segment_moved in Hc; [|done..|by destruct (take (Z.to_nat size) h); [cbn in L1; lia|]].
      eapply moved_ext; [|exact Hc]. intros i Hi. rewrite L1 in Hi. cbn [file_address].
      by rewrite (proj2 (Z.ltb_lt _ _)) by lia.
    + destruct (Z.of_nat (length h) - size =? 0) eqn:Ez; bsimp.
      * cbn [copy_ranges] in Hr. injection Hr as <- <-. rewrite drop_ge by lia. apply moved_nil.
      * assert (∀ i, 0 ≤ i → file_address (s :: segments) (start + (Z.of_nat (length (take (Z.to_nat size) h)) + i))
                  = file_address segments (0 + i)) as Ha.
        { intros i Hi. rewrite L1. cbn [file_address]. rewrite (proj2 (Z.ltb_ge _ _)) by lia. f_equal. lia. }
        eapply moved_ext; [intros i Hi; symmetry; apply Ha; lia|].
        replace (Z.of_nat (length h) - size) with (Z.of_nat (length (drop (Z.to_nat size) h))) in Hr by lia.
        apply IH; [done|lia| |lia| |exact Hr].
        { intros Hn. rewrite Hn in L2. cbn in L2. lia. }
        intros Hd i j Hi Hj Heq. rewrite <- !Ha in Heq by lia. apply (Hinj Hd) in Heq; lia.
Qed.

Lemma segment_byte_ranges_Ok segments start n l :
  _segment_byte_ranges segments start n = Ok l →
  0 ≤ start ∧ 0 < n ∧ start + n ≤ segment_bytes segments ∧ l = range_loop segments start n.
Proof.
  unfold _segment_byte_ranges. intros (u & Hg%raise_if_Ok & [= <-])%result_bind_Ok. bsimp. split_and!; [lia..|done].
Qed.

(** What [_capture_packed] yields: the bytes of the pages, in file order. *)
Lemma capture_packed_Ok segments start len m b :
  Forall (λ s, 0 < sl_byte_length s) segments →
  _capture_packed mv segments selected start len m = Ok b →
  Z.of_nat (length b) = default (segment_bytes segments - start) len ∧
  0 ≤ start ∧ start + Z.of_nat (length b) ≤ segment_bytes segments ∧
  ∀ i, 0 ≤ i < Z.of_nat (length b) → b !! Z.to_nat i = at_address m (file_address segments (start + i)).
Proof.
  intros Hpos. unfold _capture_packed. set (n := default _ len). intros (u & Hg%raise_if_Ok & Hc)%result_bind_Ok.
  apply result_bind_Ok in Hc as (l & Hr & Hc). apply segment_byte_ranges_Ok in Hr as (Hs & Hn & Hf & ->).
  apply result_bind_Ok in Hc as ([m' h'] & Hc & [= <-]). cbn [snd].
  assert (Z.of_nat (length (replicate (Z.to_nat n) x00)) = n) as El by (rewrite length_replicate; lia).
  set (zeros := replicate (Z.to_nat n) x00) in *. rewrite <- El in Hc. apply copy_ranges_moved in Hc as [Hl [-> Hm]].
  - rewrite Hl, El. split_and!; [done..|]. by rewrite El in Hm.
  - done.
  - done.
  - intros Hn0. rewrite Hn0 in El. cbn in El. lia.
  - lia.
  - by intros [=].
Qed.

(** What [receive] does: the next bytes of the object are in their pages. *)
Lemma receive_range_Ok segments payload received chunk m r m' :
  Forall (λ s, 0 < sl_byte_length s) segments →
  inj_upto (segment_bytes segments) (file_address segments) →
  receive_range mv selected segments payload received chunk m = Ok (r, m') →
  r = received + Z.of_nat (length chunk) ∧ 0 ≤ received ∧ r ≤ payload ∧ r ≤ segment_bytes segments ∧
  moved true m chunk (λ i, file_address segments (received + i)) m' chunk.
Proof.
  intros Hpos Hinj. unfold receive_range. intros (u & Hg%raise_if_Ok & Hc)%result_bind_Ok. bsimp.
  apply result_bind_Ok in Hc as (l & Hr & Hc). apply segment_byte_ranges_Ok in Hr as (Hs & Hn & Hf & ->).
  apply result_bind_Ok in Hc as ([m1 h1] & Hc & [= <- <-]). cbn [fst].
  apply copy_ranges_moved in Hc; [|done|done|by intros ->|done|].
  - split_and!; [done|done|lia|done|]. by destruct Hc as [_ [-> Hm]].
  - intros _ i j Hi Hj Heq. apply Hinj in Heq; lia.
Qed.
End files.
End copies.
