(* ===== verification/GpuPages.v ===== *)
(** * The pages of a mover do not overlap ([src/spoolcache/gpu.py])

    What [manager_page_view] and the construction of a mover establish about the
    registered pages, and why the bytes of a file go to distinct addresses. *)
From S2P Require Import Prelude Dict Bytes Json Hma HmaSpec Manifest Gpu GpuCopy.

Section views.
Context `{Torch}.

(** The bytes [a, a + n) and [b, b + k) of two storages share none. *)
Definition ranges_disjoint (s a n t b k : Z) : Prop := s ≠ t ∨ a + n ≤ b ∨ b + k ≤ a.

Definition page_start_address (v : PageView) (p : Z) : Z := pv_offset v + p * pv_stride v.

Lemma manager_page_view_Ok t blocks size v :
  manager_page_view t blocks size = Ok v →
  ∃ b, view_uint8 t = Ok b ∧ pv_storage v = bv_storage b ∧ pv_offset v = bv_offset b ∧
    pv_count v = blocks ∧ pv_size v = size ∧ 0 < blocks ∧ 0 < size ≤ pv_stride v ∧
    pv_offset v + (blocks - 1) * pv_stride v + size ≤ bv_nbytes b.
Proof.
  unfold manager_page_view. intros (u & Hg%raise_if_Ok & Hr)%result_bind_Ok. bsimp. destruct Hg as [Hb Hs].
  destruct (t_shape t) as [|rows [|r1 shape]]; [done|done|].
  destruct (t_stride t) as [|stride strides]; [done|]. cbv zeta in Hr.
  apply result_bind_Ok in Hr as (u1 & _ & Hr). apply result_bind_Ok in Hr as (u2 & Hg%raise_if_Ok & Hr).
  case_match eqn:Ev; [|by case_decide]. injection Hr as ->.
  apply result_bind_Ok in Ev as (b & Hv & Hr). apply result_bind_Ok in Hr as (u3 & Hn%raise_if_Ok & Hr).
  apply as_strided_Ok in Hr as ->. exists b. cbn. bsimp. split_and!; try done; lia.
Qed.

Lemma rows_disjoint v p q : 0 < pv_size v ≤ pv_stride v → p ≠ q →
  ranges_disjoint (pv_storage v) (page_start_address v p) (pv_size v)
    (pv_storage v) (page_start_address v q) (pv_size v).
Proof. intros Hv Hpq. right. unfold page_start_address. destruct (Z.lt_trichotomy p q) as [|[|]]; nia. Qed.

(** ** The bound layers of a mover *)
Lemma bind_layer_Ok layout kv gl b i j :
  bind_layer layout kv gl = Ok (b, i, j) →
  bound_key b = (group_index gl.1, layer_name gl.2) ∧ bp_page_size_bytes b = page_size_bytes gl.2 ∧
  ∃ t, od_get (layer_name gl.2) kv = Some t ∧
    manager_page_view t (num_manager_blocks layout) (page_size_bytes gl.2) = Ok (bp_pages b).
Proof.
  destruct gl as [g l]. unfold bind_layer. destruct (od_get (layer_name l) kv) as [t|] eqn:Et; [|done].
  intros (x & _ & Hr)%result_bind_Ok. apply result_bind_Ok in Hr as (v & Hv & [= <- <- <-]). cbn. eauto.
Qed.

Lemma mover_init_Ok `{Sha} layout kv slot count mv :
  mover_init layout kv slot count = Ok mv →
  mv_layout mv = layout ∧ mv_slot_bytes mv = slot ∧ 0 < slot ∧ mv_closed mv = false ∧
  (∀ gl, gl ∈ layout_layers layout → is_Some (mv_bound mv !! (group_index gl.1, layer_name gl.2))) ∧
  map_Forall (λ k b, ∃ gl, gl ∈ layout_layers layout ∧ k = (group_index gl.1, layer_name gl.2) ∧ bound_key b = k ∧
    bp_page_size_bytes b = page_size_bytes gl.2 ∧
    ∃ t, od_get (layer_name gl.2) kv = Some t ∧
      manager_page_view t (num_manager_blocks layout) (page_size_bytes gl.2) = Ok (bp_pages b)) (mv_bound mv).
Proof.
  unfold mover_init. intros (u & _ & Hr)%result_bind_Ok. apply result_bind_Ok in Hr as (bound & Hb & Hr).
  case_match; [done|]. case_match; [|done].
  apply result_bind_Ok in Hr as (x & _ & Hr). apply result_bind_Ok in Hr as (dg & _ & Hr).
  apply result_bind_Ok in Hr as (u2 & Hp & [= <-]). cbn. split_and!; try done.
  { unfold pinned_pool_check in Hp. apply result_bind_Ok in Hp as (u3 & Hp%raise_if_Ok & _). bsimp. lia. }
  { intros gl Hgl. apply mapM_result_Ok in Hb. apply list_elem_of_lookup in Hgl as [n Hn].
    destruct (Forall2_lookup_l _ _ _ _ _ Hb Hn) as ([[b i] j] & Hbn & (Hkey & _)%bind_layer_Ok).
    rewrite <- Hkey. destruct (list_to_map _ !! bound_key b) eqn:E; [by eexists|].
    exfalso. apply (not_elem_of_list_to_map_2 _ _ E). rewrite <- list_fmap_compose. apply list_elem_of_fmap.
    exists (b, i, j). split; [done|]. by eapply list_elem_of_lookup_2. }
  intros k b Hk. apply elem_of_list_to_map_2, list_elem_of_fmap in Hk as ([[b' i] j] & [= -> ->] & Hin).
  apply mapM_result_Ok in Hb. apply list_elem_of_lookup in Hin as [n Hn].
  destruct (Forall2_lookup_r _ _ _ _ _ Hb Hn) as (gl & Hgl & (Hkey & Hsz & Ht)%bind_layer_Ok).
  exists gl. split_and!; try done. by eapply list_elem_of_lookup_2.
Qed.

Lemma mover_bound_ok `{Sha} layout kv slot count mv : mover_init layout kv slot count = Ok mv → bound_ok mv.
Proof.
  intros (_ & _ & _ & _ & _ & Hall)%mover_init_Ok k b Hk.
  destruct (Hall k b Hk) as (gl & _ & -> & Hkey & Hs & t & _ & Hv).
  apply manager_page_view_Ok in Hv as (bv & _ & _ & _ & _ & Hsz & _ & Hst & _). rewrite Hs, Hsz in *. done.
Qed.

(** ** The bytes of a file go to distinct addresses *)
Section files.
Context (mv : TorchPageMover) (selected : list (list Z)) (Hb : bound_ok mv) (Hsel : selection_ok selected).

(** The selected pages of different layers do not overlap: the cache manager gives the
    groups that share a tensor different block numbers. *)
Definition layers_disjoint : Prop :=
  ∀ k1 k2 l1 l2 t1 t2 p q, k1 ≠ k2 →
    mv_bound mv !! k1 = Some l1 → mv_bound mv !! k2 = Some l2 →
    selected !! Z.to_nat k1.1 = Some t1 → selected !! Z.to_nat k2.1 = Some t2 → p ∈ t1 → q ∈ t2 →
    ranges_disjoint (pv_storage (bp_pages l1)) (page_start_address (bp_pages l1) p) (pv_size (bp_pages l1))
      (pv_storage (bp_pages l2)) (page_start_address (bp_pages l2) q) (pv_size (bp_pages l2)).

(** A segment names pages its layer and its table have. *)
Definition segment_placed (s : PageSlice) : Prop :=
  ∃ layer table, mv_bound mv !! slice_key s = Some layer ∧ selected !! Z.to_nat (sl_group_index s) = Some table ∧
    sl_byte_length s = page_count s * pv_size (bp_pages layer) ∧ 0 ≤ page_start s ∧ 0 < page_count s ∧
    page_start s + page_count s ≤ Z.of_nat (length table).

(** The segments of one layer come in page order. *)
Definition ordered (segments : list PageSlice) : Prop :=
  ∀ i j s t, (i < j)%nat → segments !! i = Some s → segments !! j = Some t → slice_key s = slice_key t →
    page_start s + page_count s ≤ page_start t.

Lemma placed_length s : segment_placed s → 0 < sl_byte_length s.
Proof. intros (layer & table & Hl & _ & -> & _ & Hc & _). destruct (Hb _ _ Hl) as (_ & _ & Hs & _). nia. Qed.

(** Byte [off] of a segment is byte [r] of page [index] of its layer. *)
Lemma segment_address_page s off : segment_placed s → 0 ≤ off < sl_byte_length s →
  ∃ layer table index p r,
    mv_bound mv !! slice_key s = Some layer ∧ selected !! Z.to_nat (sl_group_index s) = Some table ∧
    (table !! index = Some p) ∧ page_start s ≤ Z.of_nat index < page_start s + page_count s ∧
    0 ≤ r < pv_size (bp_pages layer) ∧
    off = (Z.of_nat index - page_start s) * pv_size (bp_pages layer) + r ∧
    segment_address mv selected s off =
      (pv_storage (bp_pages layer), page_start_address (bp_pages layer) p + r).
Proof.
  intros (layer & table & Hl & Ht & Hlen & Hs & Hc & Hfit) Hoff. set (v := bp_pages layer) in *.
  destruct (Hb _ _ Hl) as (_ & _ & Hv). fold v in Hv.
  pose proof (Z.div_mod off (pv_size v) ltac:(lia)) as Hdm. pose proof (Z.mod_pos_bound off (pv_size v) ltac:(lia)) as Hr.
  assert (0 ≤ off / pv_size v < page_count s) as Hq.
  { split; [apply Z.div_pos; lia|]. apply Z.div_lt_upper_bound; lia. }
  set (index := (Z.to_nat (page_start s) + Z.to_nat (off / pv_size v))%nat).
  destruct (lookup_lt_is_Some_2 table index) as [p Hp]; [unfold index; lia|].
  exists layer, table, index, p, (off mod pv_size v).
  assert (Z.of_nat index - page_start s = off / pv_size v) as Ei by (unfold index; lia).
  rewrite Ei. fold v. split_and!; try done; try lia.
  unfold segment_address, segment_pages. rewrite Hl, Ht. cbn [default]. fold v. f_equal.
  unfold page_address, page_start_address, id. rewrite lookup_take_lt by lia. rewrite lookup_drop. fold index. by rewrite Hp.
Qed.

Lemma file_address_locate segments k : Forall segment_placed segments → 0 ≤ k < segment_bytes segments →
  ∃ i s off, segments !! i = Some s ∧ 0 ≤ off < sl_byte_length s ∧
    k = segment_bytes (take i segments) + off ∧ file_address mv selected segments k = segment_address mv selected s off.
Proof.
  revert k; induction segments as [|s segments IH]; intros k; [cbn; lia|].
  intros [Hs Hp]%Forall_cons Hk.
  assert (segment_bytes (s :: segments) = sl_byte_length s + segment_bytes segments) as E by done.
  cbn [file_address]. destruct (k <? sl_byte_length s) eqn:El; bsimp.
  - exists O, s, k. split_and!; try done; lia.
  - destruct (IH (k - sl_byte_length s)) as (i & t & off & Hi & Ho & Heq & Ha); [done|lia|].
    exists (S i), t, off. split_and!; try done; [lia|lia|]. cbn [take].
    change (segment_bytes (s :: take i segments)) with (sl_byte_length s + segment_bytes (take i segments)). lia.
Qed.

Lemma file_address_inj segments :
  layers_disjoint → Forall segment_placed segments → ordered segments →
  inj_upto (segment_bytes segments) (file_address mv selected segments).
Proof.
  intros Hdis Hp Hord a b Ha Hb' Heq.
  destruct (file_address_locate segments a Hp Ha) as (i & s & o1 & Hi & Ho1 & -> & E1).
  destruct (file_address_locate segments b Hp Hb') as (j & t & o2 & Hj & Ho2 & -> & E2).
  rewrite E1, E2 in Heq. clear E1 E2. rewrite Forall_lookup in Hp.
  destruct (segment_address_page s o1 (Hp _ _ Hi) Ho1) as (l1 & t1 & n1 & p1 & r1 & Hl1 & Ht1 & Hn1 & Hx1 & Hr1 & -> & A1).
  destruct (segment_address_page t o2 (Hp _ _ Hj) Ho2) as (l2 & t2 & n2 & p2 & r2 & Hl2 & Ht2 & Hn2 & Hx2 & Hr2 & -> & A2).
  rewrite A1, A2 in Heq. injection Heq as Es Ea.
  destruct (decide (slice_key s = slice_key t)) as [Ek|Ek].
  - assert (sl_group_index s = sl_group_index t) as Eg by (by injection Ek).
    rewrite Ek in Hl1. rewrite Eg in Ht1. simplify_eq.
    destruct (Hb _ _ Hl1) as (_ & _ & Hv).
    assert (p1 = p2) as ->.
    { destruct (decide (p1 = p2)) as [|Hne]; [done|]. destruct (rows_disjoint (bp_pages l1) p1 p2 Hv Hne) as [|]; [done|lia]. }
    unfold selection_ok in Hsel. rewrite Forall_lookup in Hsel. destruct (Hsel _ _ Ht1) as [Hnd _].
    assert (n1 = n2) as -> by (by eapply NoDup_lookup). assert (r1 = r2) as -> by lia.
    assert (slice_key s = slice_key t) as Ek' by (unfold slice_key; congruence).
    destruct (Nat.lt_trichotomy i j) as [Hij|[->|Hij]].
    + specialize (Hord _ _ _ _ Hij Hi Hj Ek'). lia.
    + simplify_eq. lia.
    + specialize (Hord _ _ _ _ Hij Hj Hi (eq_sym Ek')). lia.
  - exfalso. apply list_elem_of_lookup_2 in Hn1, Hn2.
    destruct (Hdis _ _ _ _ _ _ p1 p2 Ek Hl1 Hl2 Ht1 Ht2 Hn1 Hn2) as [|]; [done|lia].
Qed.
End files.
End views.

(** * A covered span has its pages ([src/spoolcache/gpu.py], hma.py)

    When the coverage check accepts the segments of a snapshot and the block tables give
    a selection, every segment names pages that its layer is bound to and its table has,
    in page order: the addresses of its bytes are distinct. *)
Section cover.
Context (layout : HMALayout) (Hv : valid_layout layout).

Lemma expected_lookup counts k c size :
  expected_pages layout counts !! k = Some (c, size) →
  ∃ i g l, groups layout !! i = Some g ∧ counts !! i = Some c ∧ l ∈ layers g ∧
    k = (group_index g, layer_name l) ∧ size = page_size_bytes l.
Proof.
  unfold expected_pages. intros He. apply elem_of_list_to_map_2, list_elem_of_bind in He as ([g n] & Hin & Hgn).
  apply list_elem_of_fmap in Hin as (l & [= -> -> ->] & Hl). cbn [fst snd] in *.
  apply list_elem_of_lookup in Hgn as [i Hi]. apply lookup_zip_Some in Hi as [Hg Hc]. by exists i, g, l.
Qed.

Lemma group_at i g : groups layout !! i = Some g → group_index g = Z.of_nat i.
Proof.
  intros Hg. pose proof (lo_index _ (layout_post_init_Ok _ (vl_layout _ Hv))) as Hi.
  assert (group_index <$> groups layout !! i = Some (group_index g)) as E by (by rewrite Hg).
  rewrite <- list_lookup_fmap, Hi in E. apply lookup_seqZ in E. lia.
Qed.

Lemma layout_layers_names : (λ gl, layer_name gl.2) <$> layout_layers layout = layer_names layout.
Proof.
  unfold layout_layers, layer_names. induction (groups layout) as [|g gs IH]; [done|].
  rewrite !bind_cons, fmap_app, IH. f_equal. by rewrite <- list_fmap_compose.
Qed.

Lemma NoDup_fmap_member {A B} (f : A → B) l x y : NoDup (f <$> l) → x ∈ l → y ∈ l → f x = f y → x = y.
Proof.
  intros Hn [i Hi]%list_elem_of_lookup [j Hj]%list_elem_of_lookup He.
  assert (i = j) as ->.
  { eapply NoDup_lookup; [exact Hn|by rewrite list_lookup_fmap, Hi|by rewrite list_lookup_fmap, Hj, He]. }
  congruence.
Qed.

(** ** The selection of a layout *)
Record table_of (span : Z) (selected : list (list Z)) (i : nat) (g : GroupGeometry) (table : list Z) : Prop := {
  to_table : selected !! i = Some table;
  to_count : selected_page_count g (VInt span) = Ok (Z.of_nat (length table));
  to_distinct : NoDup table;
  to_valid : Forall (λ p, 0 ≤ p) table
}.

Lemma selection_tables tables span selected :
  layout_select_physical_pages layout tables (VInt span) = Ok selected →
  (∀ i g, groups layout !! i = Some g → ∃ table, table_of span selected i g table) ∧ selection_ok selected.
Proof.
  unfold layout_select_physical_pages. destruct (negb _) eqn:El; [done|]. bsimp. intros Hs%mapM_result_Ok.
  assert (∀ i g t, groups layout !! i = Some g → tables !! i = Some t →
    ∃ table, table_of span selected i g table) as Hall.
  { intros i g t Hg Ht.
    destruct (Forall2_lookup_l _ _ _ i (g, t) Hs) as (table & Htab & Hsel); [by apply lookup_zip_Some|].
    cbn [fst snd] in Hsel. pose proof (vl_groups _ Hv) as Hgs. rewrite Forall_lookup in Hgs.
    apply select_physical_pages_Ok in Hsel as (n & Hn & _ & Hlen & Hnd & Hp); [|by eapply Hgs].
    exists table. split; [done|by rewrite Hlen|done|]. eapply Forall_impl; [exact Hp|]. cbn. lia. }
  split.
  - intros i g Hg. destruct (lookup_lt_is_Some_2 tables i) as [t Ht]; [|by eapply Hall].
    apply lookup_lt_Some in Hg. lia.
  - unfold selection_ok. rewrite Forall_lookup. intros i table Htab.
    destruct (Forall2_lookup_r _ _ _ _ _ Hs Htab) as ([g t] & Hz & _). apply lookup_zip_Some in Hz as [Hg Ht].
    destruct (Hall i g t Hg Ht) as (table' & [Ht' _ Hnd Hp]). by simplify_eq.
Qed.

(** ** Slices of one layer *)
Lemma contiguous_lookup a b l i s :
  Forall (λ s, 0 < page_count s) l → contiguous a b l → l !! i = Some s →
  a ≤ page_start s ∧ page_start s + page_count s ≤ b.
Proof.
  revert a i; induction l as [|x l IH]; intros a i Hp Hc; [done|]. apply Forall_cons in Hp as [Hx Hp].
  destruct Hc as [Hs Hc]. assert (∀ c l', Forall (λ s, 0 < page_count s) l' → contiguous c b l' → c ≤ b) as Hle.
  { intros c l'. revert c. induction l' as [|y l' IHl]; intros c Hf Hcc; [by rewrite Hcc|].
    apply Forall_cons in Hf as [Hy Hf]. destruct Hcc as [_ Hcc]. apply IHl in Hcc; [lia|done]. }
  destruct i as [|i]; cbn.
  - intros [= <-]. apply Hle in Hc; [lia|done].
  - intros Hi. destruct (IH _ _ Hp Hc Hi). lia.
Qed.

Lemma contiguous_ordered a b l i j s t :
  Forall (λ s, 0 < page_count s) l → contiguous a b l → (i < j)%nat → l !! i = Some s → l !! j = Some t →
  page_start s + page_count s ≤ page_start t.
Proof.
  revert a i j; induction l as [|x l IH]; intros a i j Hp Hc Hij; [done|]. apply Forall_cons in Hp as [Hx Hp].
  destruct Hc as [Hs Hc], j as [|j]; [lia|]. destruct i as [|i]; cbn.
  - intros [= <-] Hj. destruct (contiguous_lookup _ _ _ _ _ Hp Hc Hj). lia.
  - intros Hi Hj. eapply (IH _ i j); [done|done|lia|done|done].
Qed.

(** Positions in a list and in its slices of one layer have the same order. *)
Lemma slices_positions k l i j s t : (i < j)%nat → l !! i = Some s → l !! j = Some t →
  slice_key s = k → slice_key t = k →
  ∃ a b, (a < b)%nat ∧ slices_of k l !! a = Some s ∧ slices_of k l !! b = Some t.
Proof.
  intros Hij Hi Hj Hs Ht.
  rewrite <- (take_drop_middle _ _ _ Hi), slices_of_app, slices_of_cons, decide_True by done.
  assert (t ∈ drop (S i) l) as Hin.
  { apply list_elem_of_lookup. exists (j - S i)%nat. rewrite lookup_drop. rewrite <- Hj. f_equal. lia. }
  assert (t ∈ slices_of k (drop (S i) l)) as [n Hn]%list_elem_of_lookup by (by apply list_elem_of_filter).
  set (p := slices_of k (take i l)) in *. exists (length p), (length p + S n)%nat. split; [lia|]. split.
  - by rewrite list_lookup_middle.
  - rewrite lookup_app_r by lia. replace (length p + S n - length p)%nat with (S n) by lia. done.
Qed.
End cover.

Section placed.
Context `{Torch, Sha} (layout : HMALayout) (Hv : valid_layout layout).
Context (kv : list (pystr * Tensor)) (slot count : Z) (mv : TorchPageMover).
Context (Hmv : mover_init layout kv slot count = Ok mv).

Lemma bound_layer i g l : groups layout !! i = Some g → l ∈ layers g →
  ∃ b, mv_bound mv !! (group_index g, layer_name l) = Some b ∧ pv_size (bp_pages b) = page_size_bytes l.
Proof.
  intros Hg Hl. destruct (mover_init_Ok _ _ _ _ _ Hmv) as (_ & _ & _ & _ & Hex & Hall).
  assert ((g, l) ∈ layout_layers layout) as Hin.
  { apply list_elem_of_bind. exists g. split; [by apply list_elem_of_fmap_2|by eapply list_elem_of_lookup_2]. }
  destruct (Hex _ Hin) as [b Hb]. exists b. split; [done|].
  destruct (Hall _ _ Hb) as ([g' l'] & Hin' & [= _ Hname] & _ & Hs & t & _ & Hview). cbn in *.
  apply manager_page_view_Ok in Hview as (bv & _ & _ & _ & _ & -> & _).
  assert ((g, l) = (g', l')) as [= _ ->]; [|done].
  eapply (NoDup_fmap_member (λ gl : GroupGeometry * LayerGeometry, layer_name gl.2)); [|done..].
  rewrite layout_layers_names. apply (lo_names _ (layout_post_init_Ok _ (vl_layout _ Hv))).
Qed.

(** The coverage check and the selection of one span. *)
Lemma covered_placed span tables selected segments :
  cover_pages layout span segments = Ok tt → layout_select_physical_pages layout tables (VInt span) = Ok selected →
  Forall (λ s, slice_post_init s = Ok tt) segments →
  Forall (segment_placed mv selected) segments ∧ ordered segments ∧ selection_ok selected.
Proof.
  intros (counts & Hc & Hcov)%cover_pages_iff Hsel Hpost.
  destruct (selection_tables _ Hv _ _ _ Hsel) as [Htab Hok].
  assert (Forall (λ s, 0 ≤ page_start s ∧ 0 < page_count s) segments) as Hpos.
  { eapply Forall_impl; [exact Hpost|]. intros s Hs. unfold slice_post_init in Hs.
    apply result_bind_Ok in Hs as (u & Hs%raise_if_Ok & _). bsimp. lia. }
  assert (∀ k, Forall (λ s, 0 < page_count s) (slices_of k segments)) as Hslices.
  { intros k. apply Forall_forall. intros s [_ Hin]%list_elem_of_filter. rewrite Forall_forall in Hpos. by apply Hpos. }
  pose proof (ce_slices _ _ Hcov) as Hs. split_and!; [|..|done].
  - apply Forall_forall. intros s Hin. rewrite Forall_forall in Hs, Hpos.
    destruct (Hs _ Hin) as (c & size & He & Hbytes). destruct (Hpos _ Hin) as [Hst Hcnt].
    destruct (ce_layers _ _ Hcov _ _ _ He) as [_ Hcont].
    destruct (expected_lookup _ _ _ _ _ He) as (i & g & l & Hg & Hci & Hl & Hk & ->).
    destruct (bound_layer _ _ _ Hg Hl) as (b & Hb & Hsz). destruct (Htab _ _ Hg) as (table & [Ht Hn _ _]).
    assert (sl_group_index s = Z.of_nat i) as Ei by (injection Hk as -> _; by apply (group_at layout Hv)).
    assert (c = Z.of_nat (length table)) as ->.
    { unfold selected_page_counts in Hc. apply mapM_result_Ok in Hc.
      destruct (Forall2_lookup_l _ _ _ _ _ Hc Hg) as (c' & Hc' & Hcount). simplify_eq. congruence. }
    exists b, table. rewrite Hk, Ei, Nat2Z.id, Hsz. split_and!; try done.
    assert (s ∈ slices_of (slice_key s) segments) as [n Hns]%list_elem_of_lookup by (by apply list_elem_of_filter).
    by eapply contiguous_lookup in Hns as [_ ?]; [| |exact Hcont].
  - intros i j s t Hij Hi Hj Hk. rewrite Forall_lookup in Hs. destruct (Hs _ _ Hi) as (c & size & He & _).
    destruct (ce_layers _ _ Hcov _ _ _ He) as [_ Hcont].
    destruct (slices_positions (slice_key s) segments i j s t Hij Hi Hj eq_refl (eq_sym Hk)) as (a & b & Hab & Ha & Hb).
    by eapply contiguous_ordered; [apply Hslices|exact Hcont|exact Hab|..].
Qed.

(** The bytes of an accepted snapshot have distinct addresses. *)
Lemma covered_addresses span tables selected segments :
  cover_pages layout span segments = Ok tt → layout_select_physical_pages layout tables (VInt span) = Ok selected →
  Forall (λ s, slice_post_init s = Ok tt) segments → layers_disjoint mv selected →
  Forall (λ s, 0 < sl_byte_length s) segments ∧ selection_ok selected ∧
  inj_upto (segment_bytes segments) (file_address mv selected segments).
Proof.
  intros Hc Hsel Hpost Hd. destruct (covered_placed _ _ _ _ Hc Hsel Hpost) as (Hp & Ho & Hok).
  pose proof (mover_bound_ok _ _ _ _ _ Hmv) as Hb. split_and!; [|done|by apply file_address_inj].
  eapply Forall_impl; [exact Hp|]. intros s Hs. by eapply placed_length.
Qed.
End placed.
