(* ===== verification/Io.v ===== *)
(** * Files, faults and crashes

    The operating-system interface the store uses ([os], [fcntl], directory
    scans), as an executable monad over a file system, a process state and a
    schedule of faults.  Every system call first consumes one element of the
    schedule: it may succeed, fail with [OSError] without effect, transfer fewer
    bytes than asked, or the process may die before it.  [power_loss] relates a
    file system to every state the machine may restart with: a directory entry
    that was not followed by an [fsync] of its directory has any value it had
    since the last one, and the content of a file that was not synced is lost. *)
From S2P Require Import Prelude Bytes.

(** ** The file system

    A path is the list of its components below the cache root, innermost first. *)
Abbreviation path := (list pystr).

Inductive node := NFile (ino : nat) | NDir | NLink.
#[export] Instance node_eq_dec : EqDecision node.
Proof. solve_decision. Defined.

Record inode := Inode { i_data : list byte; i_synced : bool; i_mtime : Z }.

(** [hist p]: the values the entry [p] had since its directory was last synced. *)
Record FS := Fs {
  names : gmap path node;
  hist : gmap path (list (option node));
  inodes : gmap nat inode;
  next_ino : nat
}.

(** The entry a path resolves to: every ancestor is a real directory. *)
Fixpoint live (fs : FS) (p : path) : option node :=
  match p with
  | [] => Some NDir
  | _ :: d => match live fs d with Some NDir => names fs !! p | _ => None end
  end.

Definition data_of (fs : FS) (ino : nat) : list byte :=
  match inodes fs !! ino with Some i => i_data i | None => [] end.
Definition mtime_of (fs : FS) (ino : nat) : Z :=
  match inodes fs !! ino with Some i => i_mtime i | None => 0 end.

Definition children (fs : FS) (d : path) : list pystr :=
  omap (λ pn : path * node, match pn.1 with n :: d' => if decide (d' = d) then Some n else None | [] => None end)
    (map_to_list (names fs)).

Definition hist_of (fs : FS) (p : path) : list (option node) := default [] (hist fs !! p).

(** Every value the entry may have after a power loss. *)
Definition possible (fs : FS) (p : path) : list (option node) := (names fs !! p) :: hist_of fs p.

Definition set_name (p : path) (v : option node) (fs : FS) : FS :=
  Fs (partial_alter (λ _, v) p (names fs)) (<[p := possible fs p]> (hist fs)) (inodes fs) (next_ino fs).

Definition sync_dir (d : path) (fs : FS) : FS :=
  Fs (names fs) (filter (λ pv, tail pv.1 ≠ d ∨ pv.1 = []) (hist fs)) (inodes fs) (next_ino fs).

Definition set_inode (ino : nat) (i : inode) (fs : FS) : FS :=
  Fs (names fs) (hist fs) (<[ino := i]> (inodes fs)) (next_ino fs).

Definition alloc (now : Z) (fs : FS) : nat * FS :=
  (next_ino fs, Fs (names fs) (hist fs) (<[next_ino fs := Inode [] false now]> (inodes fs)) (S (next_ino fs))).

(** [fs'] may be found after the power fails in [fs]. *)
Record power_loss (fs fs' : FS) : Prop := {
  pl_names : ∀ p, names fs' !! p ∈ possible fs p;
  pl_hist : hist fs' = ∅;
  pl_dom : dom (inodes fs') = dom (inodes fs);
  pl_data : ∀ ino i, inodes fs !! ino = Some i → i_synced i = true → data_of fs' ino = i_data i;
  pl_synced : ∀ ino i, inodes fs' !! ino = Some i → i_synced i = true;
  pl_next : next_ino fs' = next_ino fs
}.

(** ** The process *)
Inductive fault := FOk | FErr | FBusy | FKill | FShort (n : nat).

(** The attributes of the store object, and the descriptors it holds. *)
Record Proc := MkProc {
  lock_depth : nat;
  closed : bool;
  owns_inventory : bool;
  active_restores : Z;
  restore_credits : Z;
  withdraw_log : list pystr;
  quarantine_log : list pystr
}.

Record World := MkWorld {
  w_fs : FS;
  w_faults : list fault;
  w_now : Z;
  w_uuid : nat;
  w_pins : gmap nat (list Z);
  w_proc : Proc
}.

Definition on_fs (f : FS → FS) (w : World) : World :=
  MkWorld (f (w_fs w)) (w_faults w) (w_now w) (w_uuid w) (w_pins w) (w_proc w).
Definition on_proc (f : Proc → Proc) (w : World) : World :=
  MkWorld (w_fs w) (w_faults w) (w_now w) (w_uuid w) (w_pins w) (f (w_proc w)).
Definition on_pins (f : gmap nat (list Z) → gmap nat (list Z)) (w : World) : World :=
  MkWorld (w_fs w) (w_faults w) (w_now w) (w_uuid w) (f (w_pins w)) (w_proc w).

Inductive outcome (A : Type) := Ret (a : A) | Exc (e : exn) | Dead.
Arguments Ret {A} a.
Arguments Exc {A} e.
Arguments Dead {A}.

Definition IO (A : Type) : Type := World → outcome A * World.

#[export] Instance io_ret : MRet IO := λ A a w, (Ret a, w).
#[export] Instance io_bind : MBind IO := λ A B f m w,
  match m w with
  | (Ret a, w) => f a w
  | (Exc e, w) => (Exc e, w)
  | (Dead, w) => (Dead, w)
  end.

Definition ret {A} (a : A) : IO A := λ w, (Ret a, w).
Definition throw {A} (k : exn_kind) (msg : string) : IO A := λ w, (Exc (Exn k msg), w).
Definition rethrow {A} (e : exn) : IO A := λ w, (Exc e, w).
Definition lift {A} (r : result A) : IO A := λ w,
  match r with Ok a => (Ret a, w) | Raise e => (Exc e, w) end.
Definition get_fs : IO FS := λ w, (Ret (w_fs w), w).
Definition get_proc : IO Proc := λ w, (Ret (w_proc w), w).
Definition get_pins : IO (gmap nat (list Z)) := λ w, (Ret (w_pins w), w).
Definition time_ns : IO Z := λ w, (Ret (w_now w), w).
Definition mod_fs (f : FS → FS) : IO unit := λ w, (Ret tt, on_fs f w).
Definition mod_proc (f : Proc → Proc) : IO unit := λ w, (Ret tt, on_proc f w).
Definition mod_pins (f : gmap nat (list Z) → gmap nat (list Z)) : IO unit := λ w,
  (Ret tt, on_pins f w).
Definition guard_io (bad : bool) (k : exn_kind) (msg : string) : IO unit :=
  if bad then throw k msg else ret tt.

(** [try: m except ...: h]; a dead process runs no handler. *)
Definition try_with {A} (m : IO A) (h : exn → option (IO A)) : IO A := λ w,
  match m w with
  | (Exc e, w) => match h e with Some k => k w | None => (Exc e, w) end
  | r => r
  end.

(** [try: m finally: f] *)
Definition finally {A} (m : IO A) (f : IO unit) : IO A := λ w,
  match m w with
  | (Dead, w) => (Dead, w)
  | (o, w) => match f w with
              | (Ret _, w) => (o, w)
              | (Exc e, w) => (Exc e, w)
              | (Dead, w) => (Dead, w)
              end
  end.

(** ** System calls *)
Definition set_faults (l : list fault) (w : World) : World :=
  MkWorld (w_fs w) l (w_now w) (w_uuid w) (w_pins w) (w_proc w).

(** Consume one element of the schedule; [Some n] bounds a transfer. *)
Definition consult : IO (option nat) := λ w,
  match w_faults w with
  | [] => (Ret None, w)
  | f :: l =>
      let w := set_faults l w in
      match f with
      | FOk => (Ret None, w)
      | FShort n => (Ret (Some n), w)
      | FErr | FBusy => (Exc (Exn OSError "system call failed"), w)
      | FKill => (Dead, w)
      end
  end.

Definition not_found {A} : IO A := throw FileNotFoundError "no such file or directory".

(** [os.lstat] *)
Definition sys_lstat (p : path) : IO node :=
  _ ← consult; fs ← get_fs;
  match live fs p with Some n => ret n | None => not_found end.

(** [os.path.exists] without following links, on names the store creates *)
Definition sys_exists (p : path) : IO bool :=
  _ ← consult; fs ← get_fs; ret (bool_decide (is_Some (live fs p))).

(** [os.open(p, O_RDONLY | O_NOFOLLOW)]: the inode of a file, links refused. *)
Definition sys_open (p : path) : IO node :=
  _ ← consult; fs ← get_fs;
  match live fs p with
  | Some NLink => throw OSError "too many levels of symbolic links"
  | Some n => ret n
  | None => not_found
  end.

(** [os.open(p, O_WRONLY | O_CREAT | O_EXCL | O_NOFOLLOW)] *)
Definition sys_create (p : path) : IO nat :=
  _ ← consult; fs ← get_fs; now ← time_ns;
  match live fs p, live fs (tail p) with
  | Some _, _ => throw FileExistsError "file exists"
  | None, Some NDir =>
      let (ino, fs') := alloc now fs in
      _ ← mod_fs (λ _, set_name p (Some (NFile ino)) fs'); ret ino
  | None, _ => not_found
  end.

Definition overwrite (pos : nat) (bytes old : list byte) : list byte :=
  take pos old ++ bytes ++ drop (pos + length bytes) old.

(** [os.writev] at a descriptor's position: the number of bytes written. *)
Definition sys_writev (ino pos : nat) (bytes : list byte) : IO nat :=
  short ← consult; fs ← get_fs; now ← time_ns;
  let n := match short with Some k => Nat.min (length bytes) k | None => length bytes end in
  _ ← mod_fs (set_inode ino (Inode (overwrite pos (take n bytes) (data_of fs ino)) false now));
  ret n.

(** [os.readv] of at most [n] bytes. *)
Definition sys_readv (ino pos n : nat) : IO (list byte) :=
  short ← consult; fs ← get_fs;
  ret (take (match short with Some k => Nat.min n (S k) | None => n end) (drop pos (data_of fs ino))).

Definition sys_fsync (ino : nat) : IO unit :=
  _ ← consult; fs ← get_fs;
  mod_fs (set_inode ino (Inode (data_of fs ino) true (mtime_of fs ino))).

Definition sys_mkdir (p : path) : IO unit :=
  _ ← consult; fs ← get_fs;
  match live fs p, live fs (tail p) with
  | Some _, _ => throw FileExistsError "file exists"
  | None, Some NDir => mod_fs (set_name p (Some NDir))
  | None, _ => not_found
  end.

Definition sys_rmdir (p : path) : IO unit :=
  _ ← consult; fs ← get_fs;
  match live fs p with
  | Some NDir => if bool_decide (children fs p = []) then mod_fs (set_name p None)
                 else throw OSError "directory not empty"
  | Some _ => throw OSError "not a directory"
  | None => not_found
  end.

(** [os.link] *)
Definition sys_link (old new : path) : IO unit :=
  _ ← consult; fs ← get_fs;
  match live fs old, live fs new, live fs (tail new) with
  | Some (NFile ino), None, Some NDir => mod_fs (set_name new (Some (NFile ino)))
  | Some (NFile _), Some _, _ => throw FileExistsError "file exists"
  | Some (NFile _), None, _ | None, _, _ => not_found
  | Some _, _, _ => throw OSError "operation not permitted"
  end.

Definition sys_unlink (p : path) : IO unit :=
  _ ← consult; fs ← get_fs;
  match live fs p with
  | Some NDir => throw OSError "is a directory"
  | Some _ => mod_fs (set_name p None)
  | None => not_found
  end.

(** [os.replace], of a file *)
Definition sys_replace (old new : path) : IO unit :=
  _ ← consult; fs ← get_fs;
  match live fs old, live fs new, live fs (tail new) with
  | Some _, Some NDir, _ => throw OSError "is a directory"
  | Some n, _, Some NDir => mod_fs (λ fs, set_name old None (set_name new (Some n) fs))
  | _, _, _ => not_found
  end.

(** [_fsync_directory] of a managed directory *)
Definition sys_fsync_dir (d : path) : IO unit :=
  _ ← consult; fs ← get_fs;
  match live fs d with
  | Some NDir => _ ← consult; mod_fs (sync_dir d)
  | Some _ => throw OSError "not a directory"
  | None => not_found
  end.

(** [os.scandir], the names in an unspecified order *)
Definition sys_scandir (d : path) : IO (list pystr) :=
  _ ← consult; fs ← get_fs;
  match live fs d with
  | Some NDir => ret (children fs d)
  | Some _ => throw OSError "not a directory"
  | None => not_found
  end.

(** [os.utime(p, ns=(now, now), follow_symlinks=False)] *)
Definition sys_utime (p : path) : IO unit :=
  _ ← consult; fs ← get_fs; now ← time_ns;
  match live fs p with
  | Some (NFile ino) =>
      match inodes fs !! ino with
      | Some i => mod_fs (set_inode ino (Inode (i_data i) (i_synced i) now))
      | None => ret tt
      end
  | Some _ => ret tt
  | None => not_found
  end.

(** ** Loops over short transfers *)

(** [_read_into]: exactly [n] bytes from [pos], or [ManifestError]. *)
Fixpoint read_into (fuel ino pos n : nat) (acc : list byte) : IO (list byte) :=
  match n, fuel with
  | O, _ => ret acc
  | _, O => throw RuntimeError "read loop"
  | _, S fuel =>
      chunk ← sys_readv ino pos n;
      if bool_decide (chunk = []) then throw ManifestError "truncated token file"
      else read_into fuel ino (pos + length chunk) (n - length chunk) (acc ++ chunk)
  end.
Definition _read_small (ino pos n : nat) : IO (list byte) := read_into n ino pos n [].

(** [_write_vector]: the loop of [writev] over what remains. *)
Fixpoint write_loop (fuel ino pos : nat) (bytes : list byte) : IO unit :=
  match fuel with
  | O => throw RuntimeError "write loop"
  | S fuel =>
      count ← sys_writev ino pos bytes;
      if bool_decide (count = 0%nat) then throw OSError "short token file write"
      else
        let rest := drop count bytes in
        if bool_decide (rest = []) then ret tt else write_loop fuel ino (pos + count) rest
  end.
Definition _write_vector (ino pos : nat) (parts : list (list byte)) : IO unit :=
  match parts with
  | [] => ret tt
  | _ => write_loop (S (length (concat parts))) ino pos (concat parts)
  end.
