(* ===== verification/RankStore.v ===== *)
(** * The rank store's control plane ([src/spoolcache/rank_store.py], leases.py)

    Namespace layout, the namespace lock, withdrawal markers, quarantine, atomic
    state writes, the inventory owner and generation epochs, and key pins.  Every
    method is a program of the monad of [Io].  [Uuid] and [JsonLoads] are the
    interfaces to [uuid.uuid4().hex] and [json.loads]. *)
From S2P Require Import Prelude Dict Bytes Utf8 Json Io.

Class Uuid := { uuid_hex : nat → pystr; uuid_hex_length : ∀ n, length (uuid_hex n) = 32%nat }.

(** [json.loads] reads canonical text back, with or without a final newline. *)
Class JsonLoads := {
  json_loads : list byte → result json;
  json_loads_canonical : ∀ v b, canonical_json v = Ok b →
    json_loads b = Ok (canon v) ∧ json_loads (b ++ [z_to_byte 10]) = Ok (canon v)
}.

(** What the store object is configured with. *)
Record StoreHooks := Hooks { has_withdraw_hook : bool; has_quarantine_hook : bool }.

(** ** Names below the root *)
Definition state_dir : path := [lit "state"].
Definition manifests_dir : path := [lit "manifests"].
Definition quarantine_dir : path := [lit "quarantine"].
Definition tmp_dir : path := [lit "tmp"].
Definition withdrawn_dir : path := lit "inventory-withdrawn" :: state_dir.
Definition maintenance_lock : path := lit "maintenance.lock" :: state_dir.
Definition namespace_lock : path := lit "namespace.lock" :: state_dir.
Definition object_reads_lock : path := lit "object-reads.lock" :: state_dir.
Definition inventory_owner_lock : path := lit "inventory-owner.lock" :: state_dir.
Definition generation_path : path := lit "generation.json" :: state_dir.
Definition generation_required_path : path := lit "generation.required.json" :: state_dir.

Definition shard_dir (entry_id : pystr) : path := take 2 entry_id :: manifests_dir.
Definition manifest_path (entry_id : pystr) : path := (entry_id ++ lit ".kv") :: shard_dir entry_id.
Definition _inventory_withdrawal_path (entry_id : pystr) : path := entry_id :: withdrawn_dir.

Definition _manifest_path (entry_id : pystr) : IO path :=
  if is_digest entry_id then ret (manifest_path entry_id)
  else throw ValueError "token key is malformed".

(** ** Small helpers *)
Definition bump_uuid (w : World) : World :=
  MkWorld (w_fs w) (w_faults w) (w_now w) (S (w_uuid w)) (w_pins w) (w_proc w).
Definition fresh_uuid `{Uuid} : IO pystr := λ w, (Ret (uuid_hex (w_uuid w)), bump_uuid w).

(** [except E: pass] *)
Definition ignoring (k : exn_kind) (m : IO unit) : IO unit :=
  try_with m (λ e, if decide (exn_class e = k) then Some (ret tt) else None).

(** [except E: return d] *)
Definition or_else {A} (k : exn_kind) (d : A) (m : IO A) : IO A :=
  try_with m (λ e, if decide (exn_class e = k) then Some (ret d) else None).

(** [except Exception as error] that keeps the error. *)
Definition attempt (m : IO unit) : IO (option exn) := λ w,
  match m w with
  | (Ret _, w) => (Ret None, w)
  | (Exc e, w) => (Ret (Some e), w)
  | (Dead, w) => (Dead, w)
  end.

Definition set_proc_depth (n : nat) : IO unit := mod_proc (λ p,
  MkProc n (closed p) (owns_inventory p) (active_restores p) (restore_credits p)
    (withdraw_log p) (quarantine_log p)).
Definition set_closed : IO unit := mod_proc (λ p,
  MkProc (lock_depth p) true (owns_inventory p) (active_restores p) (restore_credits p)
    (withdraw_log p) (quarantine_log p)).
Definition set_owner (b : bool) : IO unit := mod_proc (λ p,
  MkProc (lock_depth p) (closed p) b (active_restores p) (restore_credits p)
    (withdraw_log p) (quarantine_log p)).
Definition add_active (n : Z) : IO unit := mod_proc (λ p,
  MkProc (lock_depth p) (closed p) (owns_inventory p) (active_restores p + n) (restore_credits p)
    (withdraw_log p) (quarantine_log p)).
Definition add_credits (n : Z) : IO unit := mod_proc (λ p,
  MkProc (lock_depth p) (closed p) (owns_inventory p) (active_restores p) (restore_credits p + n)
    (withdraw_log p) (quarantine_log p)).
Definition log_withdrawal (e : pystr) : IO unit := mod_proc (λ p,
  MkProc (lock_depth p) (closed p) (owns_inventory p) (active_restores p) (restore_credits p)
    (withdraw_log p ++ [e]) (quarantine_log p)).
Definition log_quarantine (r : pystr) : IO unit := mod_proc (λ p,
  MkProc (lock_depth p) (closed p) (owns_inventory p) (active_restores p) (restore_credits p)
    (withdraw_log p) (quarantine_log p ++ [r])).

(** A callback into the worker: it may raise, else it is recorded. *)
Definition call_hook (act : IO unit) : IO unit :=
  _ ← try_with consult (λ _, Some (throw RuntimeError "hook failed")); act.

(** [_checkpoint]: the fault hook of a stage. *)
Definition _checkpoint : IO unit := call_hook (ret tt).

Definition _ensure_open : IO unit :=
  p ← get_proc; guard_io (closed p) RuntimeError "manifest store is closed".

(** ** The namespace lock ([_exclusive]) *)
Definition open_lock (p : path) : IO unit :=
  n ← sys_open p;
  match n with
  | NFile _ => ret tt
  | _ => throw ValueError "SpoolCache maintenance lock is not a regular file"
  end.

(** [open_regular] of leases.py: the opened file is the named one. *)
Definition open_regular (p : path) : IO unit :=
  n ← sys_open p; m ← sys_lstat p;
  match n, m with
  | NFile a, NFile b => guard_io (negb (bool_decide (a = b))) ValueError "lease lock file identity is invalid"
  | _, _ => throw ValueError "lease lock file identity is invalid"
  end.

(** [flock(fd, ... | LOCK_NB)]: [false] when another process holds the lock. *)
Definition flock_nb : IO bool := λ w,
  match w_faults w with
  | FBusy :: l => (Ret false, set_faults l w)
  | _ => match consult w with
         | (Ret _, w) => (Ret true, w) | (Exc e, w) => (Exc e, w) | (Dead, w) => (Dead, w)
         end
  end.
Definition flock : IO unit := _ ← consult; ret tt.

Definition exclusive {A} (m : IO A) : IO A :=
  p ← get_proc;
  match lock_depth p with
  | S d => _ ← set_proc_depth (S (S d)); finally m (set_proc_depth (S d))
  | O =>
      finally
        (_ ← open_lock maintenance_lock; _ ← flock; _ ← open_regular namespace_lock; _ ← flock;
         _ ← set_proc_depth 1; m)
        (set_proc_depth 0)
  end.

(** [_exclusive(blocking=False)]: [None] when the lock was not acquired. *)
Definition try_exclusive {A} (m : IO A) : IO (option A) :=
  thread ← flock_nb;
  if negb thread then ret None
  else
    p ← get_proc;
    match lock_depth p with
    | S d => _ ← set_proc_depth (S (S d)); finally (a ← m; ret (Some a)) (set_proc_depth (S d))
    | O =>
        finally
          (_ ← open_lock maintenance_lock; shared ← flock_nb;
           if negb shared then ret None
           else
             _ ← open_regular namespace_lock; held ← flock_nb;
             if negb held then ret None
             else _ ← set_proc_depth 1; a ← m; ret (Some a))
          (set_proc_depth 0)
    end.

(** ** Digest markers *)
Definition _digest_marker_is_present (p : path) : IO bool :=
  found ← or_else FileNotFoundError None (n ← sys_lstat p; ret (Some n));
  match found with
  | None => ret false
  | Some NDir =>
      inside ← or_else FileNotFoundError None (l ← sys_scandir p; ret (Some l));
      match inside with
      | None => ret false
      | Some [] => ret true
      | Some _ => throw ValueError "inventory-withdrawal entry is not empty"
      end
  | Some _ => throw ValueError "inventory-withdrawal entry is not a directory"
  end.

Definition _mark_digest_marker (p : path) : IO unit :=
  _ ← ignoring FileExistsError (sys_mkdir p);
  present ← _digest_marker_is_present p;
  _ ← guard_io (negb present) ValueError "inventory-withdrawal marker is invalid";
  sys_fsync_dir (tail p).

Definition _clear_digest_marker (p : path) : IO unit :=
  present ← _digest_marker_is_present p;
  if (present : bool) then _ ← sys_rmdir p; sys_fsync_dir (tail p) else ret tt.

Definition _inventory_is_withdrawn (e : pystr) : IO bool :=
  _digest_marker_is_present (_inventory_withdrawal_path e).
Definition _mark_inventory_withdrawn (e : pystr) : IO unit :=
  _mark_digest_marker (_inventory_withdrawal_path e).
Definition _clear_inventory_withdrawal (e : pystr) : IO unit :=
  _clear_digest_marker (_inventory_withdrawal_path e).

(** [_validate_digest_marker_namespace] *)
Definition validate_marker (n : pystr) : IO unit :=
  _ ← guard_io (negb (is_digest n)) ValueError "inventory-withdrawal state contains an invalid entry";
  found ← or_else FileNotFoundError None (k ← sys_lstat (n :: withdrawn_dir); ret (Some k));
  match found with
  | None => ret tt
  | Some NDir =>
      l ← sys_scandir (n :: withdrawn_dir);
      guard_io (negb (bool_decide (l = []))) ValueError "inventory-withdrawal entry is not empty"
  | Some _ => throw ValueError "inventory-withdrawal entry is not a directory"
  end.

Fixpoint for_each {A} (l : list A) (f : A → IO unit) : IO unit :=
  match l with [] => ret tt | x :: l => _ ← f x; for_each l f end.

Definition _validate_inventory_withdrawal_namespace : IO unit :=
  l ← sys_scandir withdrawn_dir; for_each l validate_marker.

(** ** Hooks *)
Definition QUARANTINE_REASONS : list pystr :=
  [lit "manifest_io"; lit "manifest_validation"; lit "object_collision"; lit "payload_checksum";
   lit "payload_size"; lit "unknown"].

Definition _record_quarantine (hk : StoreHooks) (reason : pystr) : IO unit :=
  _ ← guard_io (negb (bool_decide (reason ∈ QUARANTINE_REASONS))) ValueError
        "quarantine reason is outside the bounded vocabulary";
  if has_quarantine_hook hk
  then _ ← attempt (call_hook (log_quarantine reason)); ret tt
  else ret tt.

Definition _record_withdrawal (hk : StoreHooks) (e : pystr) : IO unit :=
  if has_withdraw_hook hk then call_hook (log_withdrawal e) else ret tt.

(** ** Quarantine *)
Definition first_error (a b : option exn) : option exn :=
  match a with Some e => Some e | None => b end.

Definition _quarantine_manifest `{Uuid} (hk : StoreHooks) (entry_id reason : pystr) : IO bool :=
  _ ← guard_io (negb (bool_decide (reason ∈ QUARANTINE_REASONS))) ValueError
        "quarantine reason is outside the bounded vocabulary";
  exclusive (
    let p := manifest_path entry_id in
    withdrawal_error ←
      (if is_digest entry_id then
         a ← attempt (_mark_inventory_withdrawn entry_id);
         b ← attempt (_record_withdrawal hk entry_id);
         ret (first_error a b)
       else ret None);
    u ← fresh_uuid;
    moved ← or_else FileNotFoundError false
      (_ ← sys_replace p
             ((lit "manifest-" ++ entry_id ++ lit ".kv." ++ u ++ lit ".bad") :: quarantine_dir);
       ret true);
    if negb moved then ret false
    else
      a ← attempt (sys_fsync_dir (tail p));
      b ← attempt (sys_fsync_dir quarantine_dir);
      let durability_error := first_error withdrawal_error (first_error a b) in
      _ ← _record_quarantine hk reason;
      match durability_error with
      | Some _ => throw RuntimeError "manifest quarantine changed namespace without a complete receipt"
      | None =>
          proc ← get_proc;
          _ ← (if is_digest entry_id && owns_inventory proc && has_withdraw_hook hk
               then _clear_inventory_withdrawal entry_id else ret tt);
          ret true
      end).

(** ** Acknowledged withdrawals *)
Definition _fsync_manifest_absence_locked (p : path) : IO unit :=
  let shard := tail p in
  found ← or_else FileNotFoundError None (n ← sys_lstat shard; ret (Some n));
  match found with
  | None => sys_fsync_dir manifests_dir
  | Some NDir => sys_fsync_dir shard
  | Some _ => throw ValueError "manifest shard is not a directory"
  end.

(** [path.lstat()] succeeds. *)
Definition name_exists (p : path) : IO bool := or_else FileNotFoundError false (_ ← sys_lstat p; ret true).

Definition acknowledge_absent (entry_id : pystr) : IO unit :=
  _ ← guard_io (negb (is_digest entry_id)) ValueError "inventory withdrawal entry is malformed";
  p ← _manifest_path entry_id;
  present ← name_exists p;
  if (present : bool) then ret tt
  else
    _ ← _fsync_manifest_absence_locked p;
    again ← name_exists p;
    if (again : bool) then ret tt else _clear_inventory_withdrawal entry_id.

Definition acknowledge_absent_inventory_withdrawals (entry_ids : list pystr) : IO unit :=
  exclusive (for_each entry_ids acknowledge_absent).

(** ** Marked keys, a page at a time *)
Fixpoint marker_names (withdraw : bool) (following : option pystr) (l : list pystr)
    : IO (list pystr) :=
  match l with
  | [] => ret []
  | n :: l =>
      _ ← guard_io (negb (is_digest n)) ValueError "inventory-withdrawal state contains an invalid entry";
      present ← _digest_marker_is_present (n :: withdrawn_dir);
      if negb present then marker_names withdraw following l
      else
        _ ← (if withdraw then call_hook (log_withdrawal n) else ret tt);
        rest ← marker_names withdraw following l;
        ret (match following with
             | Some f => if str_ltb f n then n :: rest else rest
             | None => n :: rest
             end)
  end.

(** [heapq.nsmallest(limit, names)] *)
Definition nsmallest_keys (limit : Z) (l : list pystr) : list pystr :=
  take (Z.to_nat limit) (py_sorted_keys l).

Definition inventory_withdrawal_marker_batch (limit : pyval) (after : option pystr) (withdraw : bool)
    : IO (list pystr * option pystr) :=
  limit ← lift (need_int limit (λ z, negb ((0 <? z) && (z <=? 100000))) ValueError
                  "inventory-withdrawal batch limit must be positive");
  _ ← guard_io (match after with Some a => negb (is_digest a) | None => false end) ValueError
        "inventory-withdrawal batch cursor is malformed";
  selected ← exclusive (
    l ← sys_scandir withdrawn_dir;
    found ← marker_names withdraw after l;
    let selected := nsmallest_keys limit found in
    if bool_decide (selected = []) && bool_decide (is_Some after)
    then l ← sys_scandir withdrawn_dir;
         found ← marker_names withdraw None l; ret (nsmallest_keys limit found)
    else ret selected);
  ret (selected, if Z.of_nat (length selected) =? limit then last selected else None).

(** ** Atomic state files *)
Definition _write_all (ino : nat) (bytes : list byte) : IO unit :=
  if bool_decide (bytes = []) then ret tt else write_loop (S (length bytes)) ino 0 bytes.

(** [Path.mkdir(parents=True, exist_ok=True)] *)
Fixpoint mkdir_parents (p : path) : IO unit :=
  match p with
  | [] => ret tt
  | _ :: d =>
      try_with (sys_mkdir p) (λ e,
        match exn_class e with
        | FileNotFoundError => Some (_ ← mkdir_parents d; sys_mkdir p)
        | OSError | FileExistsError =>
            Some (n ← sys_lstat p;
                  match n with NDir => ret tt | _ => rethrow e end)
        | _ => None
        end)
  end.

Definition name_of (p : path) : pystr := default [] (head p).

(** [except BaseException: f(); raise] *)
Definition on_error {A} (m : IO A) (f : IO unit) : IO A :=
  try_with m (λ e, Some (_ ← f; rethrow e)).

Definition _atomic_small_write `{Uuid} (target : path) (payload : list byte) : IO unit :=
  _ ← mkdir_parents (tail target);
  u ← fresh_uuid;
  let temporary := (lit "." ++ name_of target ++ lit "." ++ u ++ lit ".tmp") :: tail target in
  ino ← sys_create temporary;
  let cleanup := ignoring FileNotFoundError (sys_unlink temporary) in
  _ ← on_error (_ ← _write_all ino payload; sys_fsync ino) cleanup;
  _ ← on_error (sys_replace temporary target) cleanup;
  sys_fsync_dir (tail target).

Definition _read_small_json `{JsonLoads} (p : path) (maximum : Z) : IO json :=
  n ← sys_open p;
  match n with
  | NFile ino =>
      fs ← get_fs;
      let size := length (data_of fs ino) in
      _ ← guard_io (negb ((0 <? Z.of_nat size) && (Z.of_nat size <=? maximum))) ValueError
            "small JSON file size is invalid";
      encoded ← read_into size ino 0 size [];
      lift (json_loads encoded)
  | _ => throw ValueError "small JSON file size is invalid"
  end.

(** [_cleanup_atomic_write_temporaries]: abandoned temporaries of one target. *)
Definition temporary_nonce (target name : pystr) : option pystr :=
  let prefix := lit "." ++ target ++ lit "." in
  let n := length name in
  if bool_decide (take (length prefix) name = prefix)
     && bool_decide (drop (n - 4) name = lit ".tmp")
  then Some (drop (length prefix) (take (n - 4) name)) else None.

Definition own_temporary (target name : pystr) : bool :=
  match temporary_nonce target name with
  | Some nonce => (length nonce =? 32)%nat && forallb is_hex nonce
  | None => false
  end.

Fixpoint remove_temporaries (dir : path) (target : pystr) (l : list pystr) : IO Z :=
  match l with
  | [] => ret 0
  | n :: l =>
      if negb (own_temporary target n) then remove_temporaries dir target l
      else
        found ← or_else FileNotFoundError None (k ← sys_lstat (n :: dir); ret (Some k));
        match found with
        | None => remove_temporaries dir target l
        | Some (NFile _) =>
            gone ← or_else FileNotFoundError false (_ ← sys_unlink (n :: dir); ret true);
            rest ← remove_temporaries dir target l;
            ret (rest + if (gone : bool) then 1 else 0)
        | Some _ => throw ValueError "inventory generation temporary is not a regular file"
        end
  end.

Definition _cleanup_atomic_write_temporaries (target : path) : IO Z :=
  l ← sys_scandir (tail target);
  removed ← remove_temporaries (tail target) (name_of target) l;
  _ ← (if 0 <? removed then sys_fsync_dir (tail target) else ret tt);
  ret removed.

(** ** Generation epochs *)
Definition GENERATION_STATE_SCHEMA : pystr := lit "spoolcache-generation/v1".
Definition GENERATION_REQUIRED_SCHEMA : pystr := lit "spoolcache-generation-required/v1".
Definition MAX_GENERATION_EPOCH : Z := Z.shiftl 1 63 - 1.
Definition PERSISTENT_GENERATION_EPOCH_BASE : Z := Z.shiftl 1 62.
Definition MAX_GENERATION_STATE_BYTES : Z := 4096.

Definition required_json : json := JObj [(lit "schema", JStr GENERATION_REQUIRED_SCHEMA)].
Definition generation_json (epoch : Z) : json :=
  JObj [(lit "schema", JStr GENERATION_STATE_SCHEMA); (lit "epoch", JInt epoch)].

(** [except (OSError, UnicodeDecodeError, ValueError)] *)
Definition state_error (e : exn) : bool := caught_by_ValueError e || caught_by_OSError_ManifestError e.

Definition load_state `{JsonLoads} (p : path) (msg : string) : IO json :=
  try_with (_read_small_json p MAX_GENERATION_STATE_BYTES)
    (λ e, if state_error e then Some (throw ValueError msg) else None).

Definition require_sentry `{JsonLoads} : IO bool :=
  found ← or_else FileNotFoundError None (n ← sys_lstat generation_required_path; ret (Some n));
  match found with
  | None => ret false
  | Some (NFile _) =>
      payload ← load_state generation_required_path "inventory generation sentry is invalid";
      match payload with
      | JObj [(k, JStr s)] =>
          if bool_decide (k = lit "schema") && bool_decide (s = GENERATION_REQUIRED_SCHEMA) then ret true
          else throw ValueError "inventory generation sentry schema is unsupported"
      | _ => throw ValueError "inventory generation sentry schema is unsupported"
      end
  | Some _ => throw ValueError "inventory generation sentry is not a regular file"
  end.

(** The epoch of a decoded generation state. *)
Definition epoch_of (payload : json) : result Z :=
  match payload with
  | JObj l =>
      if bool_decide (list_to_set l.*1 =@{gset pystr} {[lit "schema"; lit "epoch"]})
      then
        match od_get (lit "schema") l, od_get (lit "epoch") l with
        | Some (JStr s), Some v =>
            if bool_decide (s = GENERATION_STATE_SCHEMA) then
              match v with
              | JInt e => if (0 <? e) && (e <=? MAX_GENERATION_EPOCH) then Ok e
                          else raise ValueError "inventory generation epoch is invalid"
              | _ => raise ValueError "inventory generation epoch is invalid"
              end
            else raise ValueError "inventory generation state schema is unsupported"
        | _, _ => raise ValueError "inventory generation state schema is unsupported"
        end
      else raise ValueError "inventory generation state schema is unsupported"
  | _ => raise ValueError "inventory generation state schema is unsupported"
  end.

Definition previous_epoch `{JsonLoads} (required_exists : bool) : IO Z :=
  found ← or_else FileNotFoundError None (n ← sys_lstat generation_path; ret (Some n));
  match found with
  | None =>
      _ ← guard_io required_exists ValueError
            "inventory generation state is missing after initialization";
      ret 0
  | Some (NFile _) =>
      payload ← load_state generation_path "inventory generation state is invalid";
      lift (epoch_of payload)
  | Some _ => throw ValueError "inventory generation state is not a regular file"
  end.

(** The epoch after [previous], at clock [clock_epoch]. *)
Definition next_epoch (previous clock_epoch : Z) : Z :=
  let persistent_clock := PERSISTENT_GENERATION_EPOCH_BASE + clock_epoch in
  if previous <? PERSISTENT_GENERATION_EPOCH_BASE
  then Z.max persistent_clock (PERSISTENT_GENERATION_EPOCH_BASE + previous)
  else Z.max (previous + 1) persistent_clock.

Definition newline : list byte := [z_to_byte 10].

Definition reserve_inventory_generation_epoch `{Uuid, JsonLoads} : IO Z :=
  _ ← _ensure_open;
  exclusive (
    _ ← _cleanup_atomic_write_temporaries generation_path;
    _ ← _cleanup_atomic_write_temporaries generation_required_path;
    required_exists ← require_sentry;
    previous ← previous_epoch required_exists;
    _ ← guard_io (MAX_GENERATION_EPOCH <=? previous) RuntimeError "inventory generation epoch overflowed";
    clock_epoch ← time_ns;
    _ ← guard_io (negb ((0 <? clock_epoch) && (clock_epoch <=? MAX_GENERATION_EPOCH))) RuntimeError
          "system clock cannot seed inventory generation";
    _ ← guard_io (MAX_GENERATION_EPOCH - PERSISTENT_GENERATION_EPOCH_BASE <? clock_epoch) RuntimeError
          "system clock exceeds inventory generation domain";
    let epoch := next_epoch previous clock_epoch in
    encoded ← lift (canonical_json (generation_json epoch));
    _ ← _atomic_small_write generation_path (encoded ++ newline);
    _ ← (if negb required_exists then
           sentry ← lift (canonical_json required_json);
           _atomic_small_write generation_required_path (sentry ++ newline)
         else ret tt);
    ret epoch).

(** ** Shards, ownership and closing *)
Definition _ensure_shard_directory (p : path) : IO unit :=
  _ ← ignoring FileExistsError (sys_mkdir p);
  n ← sys_lstat p;
  match n with
  | NDir => sys_fsync_dir (tail p)
  | _ => throw ValueError "SpoolCache shard path is not a directory"
  end.

Definition acquire_inventory_owner : IO unit :=
  _ ← _ensure_open;
  p ← get_proc;
  if owns_inventory p then ret tt
  else
    _ ← open_lock inventory_owner_lock;
    held ← flock_nb;
    _ ← guard_io (negb held) RuntimeError "SpoolCache rank inventory already has a live owner";
    set_owner true.

Definition close : IO unit :=
  p ← get_proc;
  if closed p then ret tt
  else
    _ ← guard_io (negb (active_restores p =? 0)) StoreBusyError "cannot close a store with active restores";
    _ ← (if owns_inventory p then _ ← set_owner false; flock else ret tt);
    set_closed.

(** ** Key pins ([KeyPins], leases.py) *)
Definition lease_offset (digest : pystr) : result Z :=
  if is_digest digest
  then Ok (Z.land (foldl (λ a c, 16 * a + hex_value c) 0 (take 16 digest))
             (Z.shiftl 1 62 - 1) * 2)
  else raise ValueError "lease digest is malformed".

(** [acquire]: one descriptor holds the offsets of every key. *)
Definition pins_acquire (keys : list pystr) : IO nat :=
  _ ← open_regular object_reads_lock;
  offsets ← lift (mapM_result lease_offset keys);
  _ ← for_each offsets (λ _, flock);
  pins ← get_pins;
  let fd := fresh (dom pins) in
  _ ← mod_pins (<[fd := offsets]>); ret fd.

Definition pins_release (fd : nat) : IO unit := mod_pins (delete fd).

(** [busy]: some descriptor holds the key's offset. *)
Definition pins_busy (key : pystr) : IO bool :=
  off ← lift (lease_offset key);
  n ← sys_lstat object_reads_lock;
  match n with
  | NFile _ =>
      _ ← consult; pins ← get_pins;
      ret (bool_decide (map_Exists (λ _ l, off ∈ l) pins))
  | _ => throw ValueError "key lease lock identity changed"
  end.

(** ** Sizes *)

(** [_managed_tree_bytes], to a depth of [fuel] directories. *)
Fixpoint managed_tree_bytes (fuel : nat) (fs : FS) (p : path) : Z :=
  match live fs p with
  | Some (NFile ino) => Z.of_nat (length (data_of fs ino))
  | Some NDir =>
      match fuel with
      | O => 0
      | S fuel => foldr (λ n t, managed_tree_bytes fuel fs (n :: p) + t) 0 (children fs p)
      end
  | _ => 0
  end.

(** Directories are at most as deep as the longest known path. *)
Definition tree_depth (fs : FS) : nat := S (max_list (length <$> (map_to_list (names fs)).*1)).
Definition _managed_tree_bytes (p : path) : IO Z :=
  _ ← consult; fs ← get_fs; ret (managed_tree_bytes (tree_depth fs) fs p).
