(* ===== verification/JsonReader.v ===== *)
(** * A reader of canonical text

    Concrete instances of the interfaces of [RankStore]: a [json.loads] that decodes
    UTF-8 and reads what [canonical_json] prints, and a source of names of 32
    hexadecimal digits.  They show that the laws of the interfaces can hold. *)
From S2P Require Import Prelude Bytes Utf8 Json Io RankStore.

(** ** UTF-8 *)
Fixpoint utf8_decode (fuel : nat) (l : list byte) : option pystr :=
  match fuel, l with
  | _, [] => Some []
  | O, _ => None
  | S fuel, _ => '(c, r) ← utf8_decode1 l; s ← utf8_decode fuel r; Some (c :: s)
  end.

Lemma utf8_encode_length s b : utf8_encode s = Some b → (length s ≤ length b)%nat.
Proof.
  revert b; induction s as [|c s IH]; intros b; cbn; [lia|].
  destruct (utf8_char c) as [a|] eqn:E; cbn; [|done].
  destruct (utf8_encode s) as [t|]; cbn; [|done]. intros [= <-].
  apply utf8_char_nonempty in E. specialize (IH t eq_refl). rewrite length_app.
  destruct a; [done|cbn; lia].
Qed.

Lemma utf8_decode_encode s b fuel :
  utf8_encode s = Some b → (length s ≤ fuel)%nat → utf8_decode fuel b = Some s.
Proof.
  revert b fuel; induction s as [|c s IH]; intros b fuel; cbn.
  - intros [= <-] _. by destruct fuel.
  - destruct (utf8_char c) as [a|] eqn:E; cbn; [|done].
    destruct (utf8_encode s) as [t|] eqn:Et; cbn; [|done]. intros [= <-] Hf.
    destruct fuel as [|fuel]; [lia|].
    assert (a ++ t ≠ []) as Hne by (apply utf8_char_nonempty in E; by destruct a).
    cbn [utf8_decode]. rewrite (utf8_decode1_char _ _ t E). cbn.
    rewrite (IH t fuel eq_refl) by lia. by destruct (a ++ t).
Qed.

Lemma utf8_encode_app s t a b :
  utf8_encode s = Some a → utf8_encode t = Some b → utf8_encode (s ++ t) = Some (a ++ b).
Proof.
  revert a; induction s as [|c s IH]; intros a; cbn; [by intros [= <-]|].
  destruct (utf8_char c) as [x|]; cbn; [|done]. destruct (utf8_encode s) as [y|]; cbn; [|done].
  intros [= <-] Ht. rewrite (IH y eq_refl Ht). cbn. by rewrite (assoc_L (++)).
Qed.

(** ** Text *)
Definition read_text (s : pystr) : result json :=
  match parse (S (length s)) s with
  | Some (v, r) => if bool_decide (r = [] ∨ r = [10]) then Ok v else raise ValueError "Extra data"
  | None => raise ValueError "Expecting value"
  end.

Definition read_json (b : list byte) : result json :=
  match utf8_decode (length b) b with
  | Some s => read_text s
  | None => raise UnicodeError "invalid start byte"
  end.

Lemma join_elem sep (l : list pystr) x : x ∈ l → (length x ≤ length (join sep l))%nat.
Proof.
  induction l as [|y [|z l] IH]; [by intros ?%elem_of_nil|by intros ->%list_elem_of_singleton|].
  intros [->|Hx]%elem_of_cons; cbn [join]; rewrite length_app; cbn [length]; [lia|].
  specialize (IH Hx). cbn [join] in IH. lia.
Qed.

Lemma foldr_max_le {A} (f : A → nat) l n :
  Forall (λ x, (f x ≤ n)%nat) l → (foldr (λ x m, Nat.max (f x) m) O l ≤ n)%nat.
Proof. induction 1; cbn; lia. Qed.

Lemma print_depth v : (depth v ≤ length (print v))%nat.
Proof.
  induction v as [|b|z|s|l IH|l IH] using json_ind'; cbn [depth]; try apply print_ne.
  - cbn [print length]. rewrite length_app. apply le_n_S, (Nat.le_trans _ (length (join 44 (map print l)))); [|lia].
    apply foldr_max_le, Forall_forall. intros v Hv. rewrite Forall_forall in IH.
    etrans; [by apply IH|]. apply join_elem. by apply list_elem_of_fmap_2.
  - cbn [print length]. rewrite length_app. eapply le_n_S, Nat.le_trans; [|apply Nat.le_add_r].
    apply (foldr_max_le (λ p, depth p.2)), Forall_forall. intros p Hp. rewrite Forall_forall in IH.
    etrans; [by apply IH|]. etrans; [|apply (join_elem _ _ (quote p.1 ++ 58 :: print p.2))].
    { rewrite length_app. cbn. lia. }
    apply list_elem_of_fmap. exists (p.1, print p.2). split; [done|]. rewrite sort_keys_perm.
    apply list_elem_of_fmap. by exists p.
Qed.

Lemma read_text_print v r : r = [] ∨ r = [10] → read_text (print v ++ r) = Ok (canon v).
Proof.
  intros Hr. unfold read_text. rewrite parse_print.
  - by rewrite bool_decide_eq_true_2.
  - pose proof (print_depth v). rewrite length_app. lia.
  - by destruct Hr as [->| ->].
Qed.

Lemma read_json_text s b : utf8_encode s = Some b → read_json b = read_text s.
Proof.
  intros Hs. unfold read_json. by rewrite (utf8_decode_encode s b) by (done || by apply utf8_encode_length).
Qed.

Lemma canonical_utf8 v b : canonical_json v = Ok b → utf8_encode (print v) = Some b.
Proof.
  rewrite canonical_json_Ok. unfold encode_utf8, raise. by case_match; intros [= <-].
Qed.

#[refine] Definition canonical_reader : JsonLoads := {| json_loads := read_json |}.
Proof.
  intros v b Hb%canonical_utf8. split.
  - rewrite (read_json_text _ _ Hb), <-(app_nil_r (print v)). apply read_text_print. by left.
  - rewrite (read_json_text (print v ++ [10]) (b ++ [z_to_byte 10])); [apply read_text_print; by right|].
    by apply utf8_encode_app.
Defined.

(** ** Names *)
Fixpoint nonce (digits : nat) (n : Z) : pystr :=
  match digits with O => [] | S k => hex_digit (n mod 16) :: nonce k (n / 16) end.

#[refine] Definition counted_names : Uuid := {| uuid_hex n := nonce 32 (Z.of_nat n) |}.
Proof. intros n. generalize (Z.of_nat n). by intros z. Defined.
