(* ===== verification/IoSpec.v ===== *)
(** * Reasoning about store programs

    [triple P m Q E]: from a file system in [P], a run of [m] that returns [a] ends
    in [Q a], and one that raises or dies ends in [E].  [keeps I m] is the special
    case of an invariant.  One rule per combinator and system call; the rules are
    applied by [io_step] and [io_keeps]. *)
From S2P Require Import Prelude Bytes Io.

Definition triple {A} (P : FS → Prop) (m : IO A) (Q : A → FS → Prop) (E : FS → Prop) : Prop :=
  ∀ w, P (w_fs w) →
  match m w with
  | (Ret a, w') => Q a (w_fs w')
  | (_, w') => E (w_fs w')
  end.

Definition keeps {A} (I : FS → Prop) (m : IO A) : Prop := triple I m (λ _, I) I.

Lemma keeps_run {A} I (m : IO A) w : keeps I m → I (w_fs w) → I (w_fs (m w).2).
Proof. intros Hm Hw. specialize (Hm w Hw). by destruct (m w) as [[?|?|] ?]. Qed.

Section rules.
Context {A B : Type}.
Implicit Types (P I E : FS → Prop).

Lemma t_conseq P P' (m : IO A) (Q Q' : A → FS → Prop) E E' :
  triple P' m Q' E' → (∀ fs, P fs → P' fs) → (∀ a fs, Q' a fs → Q a fs) → (∀ fs, E' fs → E fs) →
  triple P m Q E.
Proof.
  intros Ht HP HQ HE w Hw. specialize (Ht w (HP _ Hw)). destruct (m w) as [[a|e|] w']; eauto.
Qed.

Lemma t_ret P (a : A) E : triple P (ret a) (λ b fs, b = a ∧ P fs) E.
Proof. by intros w Hw. Qed.

Lemma t_ret_post (P : FS → Prop) (Q : A → FS → Prop) (a : A) E : (∀ fs, P fs → Q a fs) → triple P (ret a) Q E.
Proof. intros Hq w Hw. by apply Hq. Qed.

Lemma t_throw P Q k msg : triple P (@throw A k msg) Q P.
Proof. by intros w Hw. Qed.

Lemma t_rethrow P Q e : triple P (@rethrow A e) Q P.
Proof. by intros w Hw. Qed.

Lemma t_lift P (r : result A) : triple P (lift r) (λ a fs, r = Ok a ∧ P fs) P.
Proof. intros w Hw. unfold lift. by destruct r. Qed.

Lemma t_guard' P b k msg : triple P (guard_io b k msg) (λ _ fs, b = false ∧ P fs) P.
Proof. intros w Hw. by destruct b. Qed.

Lemma t_bind P (m : IO A) (f : A → IO B) Q R E :
  triple P m R E → (∀ a, triple (R a) (f a) Q E) → triple P (m ≫= f) Q E.
Proof.
  intros Hm Hf w Hw. unfold mbind, io_bind. specialize (Hm w Hw).
  destruct (m w) as [[a|e|] w']; [apply (Hf a w' Hm)|done|done].
Qed.

Lemma t_try P (m : IO A) h Q E :
  triple P m Q E → (∀ e k, h e = Some k → triple E k Q E) → triple P (try_with m h) Q E.
Proof.
  intros Hm Hh w Hw. unfold try_with. specialize (Hm w Hw).
  destruct (m w) as [[a|e|] w']; [done| |done].
  destruct (h e) as [k|] eqn:Ek; [apply (Hh e k Ek w' Hm)|done].
Qed.

Lemma t_finally P (m : IO A) f Q E Q' :
  triple P m Q' E → (∀ a, triple (Q' a) f (λ _, Q a) E) → triple E f (λ _, E) E →
  triple P (finally m f) Q E.
Proof.
  intros Hm Hf He w Hw. unfold finally. specialize (Hm w Hw).
  destruct (m w) as [[a|e|] w']; [| |done].
  - specialize (Hf a w' Hm). by destruct (f w') as [[?|?|] ?].
  - specialize (He w' Hm). by destruct (f w') as [[?|?|] ?].
Qed.

Lemma t_pure P (φ : Prop) (m : IO A) Q E : (φ → triple P m Q E) → triple (λ fs, φ ∧ P fs) m Q E.
Proof. intros Hm w [Hφ Hw]. by apply Hm. Qed.
End rules.

Section keeps_rules.
Context {A B : Type} (I : FS → Prop).

Lemma k_ret (a : A) : keeps I (ret a).
Proof. by intros w Hw. Qed.
Lemma k_throw k msg : keeps I (@throw A k msg).
Proof. by intros w Hw. Qed.
Lemma k_rethrow e : keeps I (@rethrow A e).
Proof. by intros w Hw. Qed.
Lemma k_lift (r : result A) : keeps I (lift r).
Proof. intros w Hw. unfold lift. by destruct r. Qed.
Lemma k_guard b k msg : keeps I (guard_io b k msg).
Proof. intros w Hw. by destruct b. Qed.
Lemma k_get_fs : keeps I get_fs.
Proof. by intros w Hw. Qed.
Lemma k_get_proc : keeps I get_proc.
Proof. by intros w Hw. Qed.
Lemma k_get_pins : keeps I get_pins.
Proof. by intros w Hw. Qed.
Lemma k_time : keeps I time_ns.
Proof. by intros w Hw. Qed.
Lemma k_mod_proc f : keeps I (mod_proc f).
Proof. by intros w Hw. Qed.
Lemma k_mod_pins f : keeps I (mod_pins f).
Proof. by intros w Hw. Qed.
Lemma k_consult : keeps I consult.
Proof. intros w Hw. unfold consult. destruct (w_faults w) as [|[] ?]; exact Hw. Qed.

Lemma k_bind (m : IO A) (f : A → IO B) : keeps I m → (∀ a, keeps I (f a)) → keeps I (m ≫= f).
Proof. intros Hm Hf. eapply t_bind; [exact Hm|exact Hf]. Qed.
Lemma k_try (m : IO A) h : keeps I m → (∀ e k, h e = Some k → keeps I k) → keeps I (try_with m h).
Proof. intros Hm Hh. apply t_try; [exact Hm|exact Hh]. Qed.
Lemma k_finally (m : IO A) f : keeps I m → keeps I f → keeps I (finally m f).
Proof. intros Hm Hf. apply (t_finally I m f (λ _, I) I (λ _, I)); [exact Hm|intros _; exact Hf|exact Hf]. Qed.
Lemma k_map {C} (g : C → A) (m : IO C) : keeps I m → keeps I (x ← m; ret (g x)).
Proof.
  intros Hm w Hw. specialize (Hm w Hw). unfold mbind, io_bind. by destruct (m w) as [[?|?|] ?].
Qed.
End keeps_rules.

(** ** System calls that read *)
Lemma t_consult P : triple P consult (λ _, P) P.
Proof. apply k_consult. Qed.

Section reads.
Context (P : FS → Prop).

Lemma t_get_fs E : triple P get_fs (λ a fs, a = fs ∧ P fs) E.
Proof. by intros w Hw. Qed.

Lemma t_lstat p : triple P (sys_lstat p) (λ n fs, live fs p = Some n ∧ P fs) P.
Proof.
  unfold sys_lstat. eapply t_bind; [apply t_consult|]. intros ?. eapply t_bind; [apply t_get_fs|].
  intros fs w [-> Hw]. by destruct (live (w_fs w) p) eqn:E.
Qed.

Lemma t_open p : triple P (sys_open p) (λ n fs, live fs p = Some n ∧ n ≠ NLink ∧ P fs) P.
Proof.
  unfold sys_open. eapply t_bind; [apply t_consult|]. intros ?. eapply t_bind; [apply t_get_fs|].
  intros fs w [-> Hw]. by destruct (live (w_fs w) p) as [[]|] eqn:E.
Qed.

Lemma t_exists p : triple P (sys_exists p) (λ b fs, b = bool_decide (is_Some (live fs p)) ∧ P fs) P.
Proof.
  unfold sys_exists. eapply t_bind; [apply t_consult|]. intros ?. eapply t_bind; [apply t_get_fs|].
  by intros fs w [-> Hw].
Qed.

Lemma t_scandir p :
  triple P (sys_scandir p) (λ l fs, live fs p = Some NDir ∧ l = children fs p ∧ P fs) P.
Proof.
  unfold sys_scandir. eapply t_bind; [apply t_consult|]. intros ?. eapply t_bind; [apply t_get_fs|].
  intros fs w [-> Hw]. by destruct (live (w_fs w) p) as [[]|] eqn:E.
Qed.

Lemma k_lstat p : keeps P (sys_lstat p).
Proof. eapply t_conseq; [apply t_lstat|done|naive_solver|done]. Qed.
Lemma k_open p : keeps P (sys_open p).
Proof. eapply t_conseq; [apply t_open|done|naive_solver|done]. Qed.
Lemma k_exists p : keeps P (sys_exists p).
Proof. eapply t_conseq; [apply t_exists|done|naive_solver|done]. Qed.
Lemma k_scandir p : keeps P (sys_scandir p).
Proof. eapply t_conseq; [apply t_scandir|done|naive_solver|done]. Qed.

Lemma k_readv ino pos n : keeps P (sys_readv ino pos n).
Proof.
  unfold sys_readv. apply k_bind; [apply k_consult|]. intros short.
  apply k_bind; [apply k_get_fs|]. intros fs. apply k_ret.
Qed.

Lemma k_read_into fuel ino pos n acc : keeps P (read_into fuel ino pos n acc).
Proof.
  revert pos n acc; induction fuel as [|fuel IH]; intros pos [|n] acc; cbn [read_into];
    try apply k_ret; try apply k_throw.
  apply k_bind; [apply k_readv|]. intros chunk. case_bool_decide; [apply k_throw|apply IH].
Qed.
End reads.

(** ** System calls that change names *)
Section writes.
Context (P : FS → Prop) (Q E : FS → Prop).

Lemma t_mod_fs f : (∀ fs, P fs → Q (f fs)) → triple P (mod_fs f) (λ _, Q) E.
Proof. intros Hf w Hw. by apply Hf. Qed.

(** Every failing branch leaves the file system as it was. *)
Context (HE : ∀ fs, P fs → E fs).

Lemma t_mkdir p :
  (∀ fs, P fs → live fs p = None → live fs (tail p) = Some NDir → Q (set_name p (Some NDir) fs)) →
  triple P (sys_mkdir p) (λ _, Q) E.
Proof.
  intros HQ. unfold sys_mkdir.
  eapply t_bind; [eapply t_conseq; [apply (t_consult P)|done|done|done]|]. intros ?.
  eapply t_bind; [apply t_get_fs|]. intros fs w [-> Hw].
  destruct (live (w_fs w) p) eqn:E1; [by apply HE|].
  destruct (live (w_fs w) (tail p)) as [[]|] eqn:E2; try by apply HE. by apply HQ.
Qed.

Lemma t_rmdir p :
  (∀ fs, P fs → live fs p = Some NDir → children fs p = [] → Q (set_name p None fs)) →
  triple P (sys_rmdir p) (λ _, Q) E.
Proof.
  intros HQ. unfold sys_rmdir.
  eapply t_bind; [eapply t_conseq; [apply (t_consult P)|done|done|done]|]. intros ?.
  eapply t_bind; [apply t_get_fs|]. intros fs w [-> Hw].
  destruct (live (w_fs w) p) as [[]|] eqn:E1; try by apply HE.
  case_bool_decide; [by apply HQ|by apply HE].
Qed.

Lemma t_unlink p :
  (∀ fs n, P fs → live fs p = Some n → n ≠ NDir → Q (set_name p None fs)) →
  triple P (sys_unlink p) (λ _, Q) E.
Proof.
  intros HQ. unfold sys_unlink.
  eapply t_bind; [eapply t_conseq; [apply (t_consult P)|done|done|done]|]. intros ?.
  eapply t_bind; [apply t_get_fs|]. intros fs w [-> Hw].
  destruct (live (w_fs w) p) as [[]|] eqn:E1; try (by apply HE); by eapply HQ.
Qed.

Lemma t_replace old new :
  (∀ fs n, P fs → live fs old = Some n → live fs new ≠ Some NDir → live fs (tail new) = Some NDir →
     Q (set_name old None (set_name new (Some n) fs))) →
  triple P (sys_replace old new) (λ _, Q) E.
Proof.
  intros HQ. unfold sys_replace.
  eapply t_bind; [eapply t_conseq; [apply (t_consult P)|done|done|done]|]. intros ?.
  eapply t_bind; [apply t_get_fs|]. intros fs w [-> Hw].
  destruct (live (w_fs w) old) as [n|] eqn:E1; [|by apply HE].
  destruct (live (w_fs w) new) as [[]|] eqn:E2; try (by apply HE);
    destruct (live (w_fs w) (tail new)) as [[]|] eqn:E3; try (by apply HE); apply HQ; auto; congruence.
Qed.

Lemma t_link old new :
  (∀ fs ino, P fs → live fs old = Some (NFile ino) → live fs new = None →
     live fs (tail new) = Some NDir → Q (set_name new (Some (NFile ino)) fs)) →
  triple P (sys_link old new) (λ _, Q) E.
Proof.
  intros HQ. unfold sys_link.
  eapply t_bind; [eapply t_conseq; [apply (t_consult P)|done|done|done]|]. intros ?.
  eapply t_bind; [apply t_get_fs|]. intros fs w [-> Hw].
  destruct (live (w_fs w) old) as [[ino| |]|] eqn:E1; try (by apply HE).
  destruct (live (w_fs w) new) eqn:E2; [by apply HE|].
  destruct (live (w_fs w) (tail new)) as [[]|] eqn:E3; try (by apply HE). by apply HQ.
Qed.

Lemma t_fsync_dir d :
  (∀ fs, P fs → live fs d = Some NDir → Q (sync_dir d fs)) → triple P (sys_fsync_dir d) (λ _, Q) E.
Proof.
  intros HQ. unfold sys_fsync_dir.
  eapply t_bind; [eapply t_conseq; [apply (t_consult P)|done|done|done]|]. intros ?.
  eapply t_bind; [apply t_get_fs|]. intros fs w [-> Hw].
  destruct (live (w_fs w) d) as [[]|] eqn:E1; try by apply HE.
  unfold mbind, io_bind. pose proof (k_consult P w Hw) as Hc. pose proof (k_consult (λ x, x = w_fs w) w eq_refl) as Hs.
  destruct (consult w) as [[?|?|] w']; [|by apply HE|by apply HE].
  cbn in *. rewrite Hs. by apply HQ.
Qed.

Lemma t_fsync ino :
  (∀ fs, P fs → Q (set_inode ino (Inode (data_of fs ino) true (mtime_of fs ino)) fs)) →
  triple P (sys_fsync ino) (λ _, Q) E.
Proof.
  intros HQ. unfold sys_fsync.
  eapply t_bind; [eapply t_conseq; [apply (t_consult P)|done|done|done]|]. intros ?.
  eapply t_bind; [apply t_get_fs|]. intros fs w [-> Hw]. by apply HQ.
Qed.

Lemma t_utime p :
  (∀ fs ino i now, P fs → live fs p = Some (NFile ino) → inodes fs !! ino = Some i →
     Q (set_inode ino (Inode (i_data i) (i_synced i) now) fs)) →
  (∀ fs, P fs → Q fs) → triple P (sys_utime p) (λ _, Q) E.
Proof.
  intros HQ HQ'. unfold sys_utime.
  eapply t_bind; [eapply t_conseq; [apply (t_consult P)|done|done|done]|]. intros ?.
  eapply t_bind; [apply t_get_fs|]. intros fs w [-> Hw].
  cbn. destruct (live (w_fs w) p) as [[ino| |]|] eqn:E1; [|by apply HQ'|by apply HQ'|by apply HE].
  destruct (inodes (w_fs w) !! ino) as [i|] eqn:E2; [by eapply HQ|by apply HQ'].
Qed.

Lemma t_create p (R : nat → FS → Prop) :
  (∀ fs now, P fs → live fs p = None → live fs (tail p) = Some NDir →
     R (next_ino fs) (set_name p (Some (NFile (next_ino fs))) (alloc now fs).2)) →
  triple P (sys_create p) R E.
Proof.
  intros HQ. unfold sys_create.
  eapply t_bind; [eapply t_conseq; [apply (t_consult P)|done|done|done]|]. intros ?.
  eapply t_bind; [apply t_get_fs|]. intros fs w [-> Hw]. cbn.
  destruct (live (w_fs w) p) eqn:E1; [by apply HE|].
  destruct (live (w_fs w) (tail p)) as [[]|] eqn:E2; try (by apply HE). by apply HQ.
Qed.

Lemma t_writev ino pos bytes (R : nat → FS → Prop) :
  (∀ fs now n, P fs → (n ≤ length bytes)%nat →
     R n (set_inode ino (Inode (overwrite pos (take n bytes) (data_of fs ino)) false now) fs)) →
  triple P (sys_writev ino pos bytes) R E.
Proof.
  intros HQ. unfold sys_writev.
  eapply t_bind; [eapply t_conseq; [apply (t_consult P)|done|done|done]|]. intros short.
  eapply t_bind; [apply t_get_fs|]. intros fs w [-> Hw]. cbn. apply HQ; [done|].
  destruct short; lia.
Qed.
End writes.

(** Writing a whole buffer touches one inode only. *)
Section write_loop.
Context (P : FS → Prop) (ino : nat).
Context (Hwrite : ∀ fs i, P fs → i_synced i = false → P (set_inode ino i fs)).

Lemma k_write_loop fuel pos bytes : keeps P (write_loop fuel ino pos bytes).
Proof.
  revert pos bytes; induction fuel as [|fuel IH]; intros pos bytes; cbn [write_loop]; [apply k_throw|].
  apply k_bind.
  - apply t_writev; [done|]. intros fs now n HP _. by apply Hwrite.
  - intros n. case_bool_decide; [apply k_throw|]. case_bool_decide; [apply k_ret|apply IH].
Qed.

Lemma k_write_vector pos parts : keeps P (_write_vector ino pos parts).
Proof. unfold _write_vector. destruct parts; [apply k_ret|apply k_write_loop]. Qed.
End write_loop.

(** A completed write leaves the bytes at their place. *)
Definition holds (P : FS → Prop) (ino : nat) (data : list byte) (fs : FS) : Prop :=
  P fs ∧ is_Some (inodes fs !! ino) ∧ data_of fs ino = data.

Lemma data_of_set_inode ino i fs j :
  data_of (set_inode ino i fs) j = if decide (j = ino) then i_data i else data_of fs j.
Proof.
  unfold data_of, set_inode. cbn. case_decide as Hd.
  - subst. by rewrite lookup_insert_eq.
  - by rewrite lookup_insert_ne by done.
Qed.

Lemma overwrite_next pos n (bytes old : list byte) :
  (n ≤ length bytes)%nat → (pos ≤ length old)%nat →
  overwrite (pos + n) (drop n bytes) (overwrite pos (take n bytes) old) = overwrite pos bytes old.
Proof.
  intros Hn Hp. unfold overwrite. rewrite !length_drop, !length_take.
  rewrite (Nat.min_l n (length bytes)) by lia.
  assert (Ht : length (take pos old ++ take n bytes) = (pos + n)%nat).
  { rewrite length_app, !length_take. lia. }
  rewrite !(assoc_L (++)), take_app_le by lia. rewrite <-Ht at 1 2.
  rewrite take_ge by lia. rewrite <-!(assoc_L (++)), (assoc_L (++) (take n bytes)), take_drop. do 2 f_equal.
  rewrite (assoc_L (++)), drop_app_ge by (rewrite Ht; lia). rewrite Ht, drop_drop.
  f_equal. lia.
Qed.

Lemma t_write_loop P ino fuel pos bytes old :
  (∀ fs i, P fs → i_synced i = false → P (set_inode ino i fs)) →
  (length bytes < fuel)%nat → (pos ≤ length old)%nat →
  triple (holds P ino old) (write_loop fuel ino pos bytes) (λ _, holds P ino (overwrite pos bytes old)) P.
Proof.
  intros HP. revert pos bytes old; induction fuel as [|fuel IH]; intros pos bytes old Hf Hp; [lia|].
  cbn [write_loop]. eapply (t_bind _ _ _ _
    (λ n fs, (n ≤ length bytes)%nat ∧ holds P ino (overwrite pos (take n bytes) old) fs)).
  - apply t_writev; [by intros fs (? & _)|]. intros fs now n (Hfs & Hs & Hd) Hn. split; [done|].
    split_and!; [by apply HP| |].
    + unfold set_inode; cbn. by rewrite lookup_insert_eq.
    + rewrite data_of_set_inode, decide_True by done. cbn. by rewrite Hd.
  - intros n. apply t_pure. intros Hn. case_bool_decide as H0.
    { eapply t_conseq; [apply (t_throw P (λ _ _, False))|by intros fs (? & _)|done|done]. }
    case_bool_decide as Hr.
    + intros w Hw. assert (take n bytes = bytes) as <-; [|exact Hw].
      rewrite <-(take_drop n bytes) at 2. by rewrite Hr, app_nil_r.
    + rewrite <-(overwrite_next pos n bytes old) by done. apply IH.
      * rewrite length_drop. lia.
      * unfold overwrite. rewrite !length_app, !length_take. lia.
Qed.

(** A completed read returns exactly the bytes asked for. *)
Lemma t_readv P ino pos n :
  triple P (sys_readv ino pos n)
    (λ c fs, (∃ k, (k ≤ n)%nat ∧ c = take k (drop pos (data_of fs ino))) ∧ P fs) P.
Proof.
  unfold sys_readv. eapply t_bind; [apply t_consult|]. intros short.
  eapply t_bind; [apply t_get_fs|]. intros fs w [-> Hw]. cbn. split; [|done].
  eexists. split; [|reflexivity]. destruct short; lia.
Qed.

Lemma t_read_into P ino D fuel pos n acc :
  triple (λ fs, P fs ∧ data_of fs ino = D) (read_into fuel ino pos n acc)
    (λ out fs, (out = acc ++ take n (drop pos D) ∧ (pos + n ≤ Nat.max pos (length D))%nat) ∧
               P fs ∧ data_of fs ino = D)
    (λ fs, P fs ∧ data_of fs ino = D).
Proof.
  revert pos n acc; induction fuel as [|fuel IH]; intros pos [|n] acc; cbn [read_into].
  1,3: intros w Hw; cbn; rewrite take_0, app_nil_r; split; [split; [done|lia]|done].
  - apply t_throw.
  - eapply t_bind; [apply t_readv|]. intros chunk. case_bool_decide as Hc.
    + eapply t_conseq; [apply (t_throw (λ fs, P fs ∧ data_of fs ino = D) (λ _ _, False))|naive_solver|done|done].
    + intros w [(k & Hk & Hchunk) [HP HD]]. rewrite HD in Hchunk.
      assert (Hlen : length chunk = Nat.min k (length D - pos)) by (rewrite Hchunk, length_take, length_drop; lia).
      assert (length chunk ≠ 0%nat) by (by intros ?%nil_length_inv).
      specialize (IH (pos + length chunk)%nat (S n - length chunk)%nat (acc ++ chunk) w (conj HP HD)).
      destruct (read_into _ _ _ _ _ _) as [[out|e|] w']; [|done|done].
      destruct IH as [[-> Hb] Hrest]. split; [split|done].
      * rewrite <-(assoc_L (++)). f_equal.
        assert (Hck : chunk = take (length chunk) (drop pos D)).
        { rewrite Hlen. rewrite Hchunk. destruct (decide (k ≤ length D - pos)%nat).
          - by rewrite Nat.min_l by lia.
          - rewrite Nat.min_r by lia. rewrite !take_ge; rewrite ?length_drop; done || lia. }
        rewrite Hck at 1. rewrite <-drop_drop, take_take_drop. f_equal. lia.
      * lia.
Qed.

(** ** Inversion of a run that returned *)
Lemma bind_Ret {A B} (m : IO A) (f : A → IO B) w b w' :
  (m ≫= f) w = (Ret b, w') ↔ ∃ a w1, m w = (Ret a, w1) ∧ f a w1 = (Ret b, w').
Proof.
  unfold mbind, io_bind. destruct (m w) as [[a|e|] w1]; split; try done.
  - intros Hf. by exists a, w1.
  - intros (a' & w1' & [= <- <-] & Hf). done.
  - by intros (a' & w1' & [=] & _).
  - by intros (a' & w1' & [=] & _).
Qed.

Lemma ret_Ret {A} (a b : A) w w' : ret a w = (Ret b, w') ↔ b = a ∧ w' = w.
Proof. unfold ret. split; [by intros [= <- <-]|by intros [-> ->]]. Qed.

Lemma lift_Ret {A} (r : result A) a w w' : lift r w = (Ret a, w') ↔ r = Ok a ∧ w' = w.
Proof. unfold lift. destruct r; split; [by intros [= <- <-]|by intros [[= ->] ->]|done|by intros [[=] _]]. Qed.

Lemma guard_Ret b k msg u w w' : guard_io b k msg w = (Ret u, w') ↔ b = false ∧ w' = w.
Proof.
  unfold guard_io, throw, ret. destruct b, u; split; [done|by intros [? _]|by intros [= <-]|by intros [_ ->]].
Qed.

Lemma get_fs_Ret fs w w' : get_fs w = (Ret fs, w') ↔ fs = w_fs w ∧ w' = w.
Proof. unfold get_fs. split; [by intros [= <- <-]|by intros [-> ->]]. Qed.

Lemma get_proc_Ret p w w' : get_proc w = (Ret p, w') ↔ p = w_proc w ∧ w' = w.
Proof. unfold get_proc. split; [by intros [= <- <-]|by intros [-> ->]]. Qed.

Lemma try_Ret {A} (m : IO A) h a w w' :
  try_with m h w = (Ret a, w') ↔
  m w = (Ret a, w') ∨ ∃ e k w1, m w = (Exc e, w1) ∧ h e = Some k ∧ k w1 = (Ret a, w').
Proof.
  unfold try_with. destruct (m w) as [[b|e|] w1]; split.
  - by left.
  - intros [?|(e & k & w2 & [=] & _)]. done.
  - intros Hk. right. destruct (h e) as [k|] eqn:E; [|done]. by exists e, k, w1.
  - intros [[=]|(e' & k & w2 & [= <- <-] & -> & Hk)]. done.
  - done.
  - by intros [[=]|(e' & k & w2 & [=] & _)].
Qed.

(** A program that changes no file: it keeps every property. *)
Lemma keeps_fs {A} (m : IO A) w : (∀ I, keeps I m) → w_fs (m w).2 = w_fs w.
Proof. intros Hm. specialize (Hm (λ fs, fs = w_fs w) w eq_refl). by destruct (m w) as [[?|?|] ?]. Qed.

Lemma triple_Ret {A} (P : FS → Prop) (m : IO A) Q E w a w' :
  triple P m Q E → P (w_fs w) → m w = (Ret a, w') → Q a (w_fs w').
Proof. intros Hm Hw He. specialize (Hm w Hw). by rewrite He in Hm. Qed.

Lemma lstat_Ret p n w w' : sys_lstat p w = (Ret n, w') → live (w_fs w) p = Some n ∧ w_fs w' = w_fs w.
Proof.
  intros Hr. pose proof (triple_Ret _ _ _ _ _ _ _ (t_lstat (λ fs, fs = w_fs w) p) eq_refl Hr) as [Hl Hf].
  by rewrite <-Hf.
Qed.

Lemma open_Ret p n w w' : sys_open p w = (Ret n, w') → live (w_fs w) p = Some n ∧ w_fs w' = w_fs w.
Proof.
  intros Hr. pose proof (triple_Ret _ _ _ _ _ _ _ (t_open (λ fs, fs = w_fs w) p) eq_refl Hr) as (Hl & _ & Hf).
  by rewrite <-Hf.
Qed.

Lemma read_small_Ret ino pos n out w w' :
  _read_small ino pos n w = (Ret out, w') →
  out = take n (drop pos (data_of (w_fs w) ino)) ∧
  (pos + n ≤ Nat.max pos (length (data_of (w_fs w) ino)))%nat ∧ w_fs w' = w_fs w.
Proof.
  intros Hr.
  destruct (triple_Ret _ _ _ _ _ _ _ (t_read_into (λ fs, fs = w_fs w) ino _ n pos n []) (conj eq_refl eq_refl) Hr)
    as ([-> Hb] & -> & _). done.
Qed.

(** Turn a successful run into its successful steps. *)
Ltac inv_io :=
  repeat match goal with
  | H : mbind _ _ _ = (Ret _, _) |- _ => apply bind_Ret in H as (? & ? & ? & H); cbv beta in H
  | H : ret _ _ = (Ret _, _) |- _ => apply ret_Ret in H as [? ?]
  | H : lift _ _ = (Ret _, _) |- _ => apply lift_Ret in H as [? ?]
  | H : guard_io _ _ _ _ = (Ret _, _) |- _ => apply guard_Ret in H as [? ?]
  | H : get_fs _ = (Ret _, _) |- _ => apply get_fs_Ret in H as [? ?]
  | H : get_proc _ = (Ret _, _) |- _ => apply get_proc_Ret in H as [? ?]
  | H : throw _ _ _ = (Ret _, _) |- _ => discriminate H
  | H : rethrow _ _ = (Ret _, _) |- _ => discriminate H
  end; subst.
