(* ===== verification/FsInv.v ===== *)
(** * Invariants of the store's file system

    [possible fs p] holds every value an entry may have after a power loss.  An
    invariant of the control plane ([store_inv]) is given by the names it lets the
    code change; every control operation keeps every such invariant. *)
From S2P Require Import Prelude Dict Bytes Utf8 Json Io IoSpec RankStore.

(** ** How the primitives change the possible values *)
Lemma possible_set_name p v fs q :
  possible (set_name p v fs) q = if decide (q = p) then v :: possible fs p else possible fs q.
Proof.
  unfold possible at 1, hist_of, set_name. cbn. case_decide as Hd.
  - subst. by rewrite lookup_partial_alter_eq, lookup_insert_eq.
  - by rewrite lookup_partial_alter_ne, lookup_insert_ne by done.
Qed.

Lemma possible_sync_dir d fs p :
  possible (sync_dir d fs) p = if decide (tail p = d ∧ p ≠ []) then [names fs !! p] else possible fs p.
Proof.
  unfold possible, hist_of, sync_dir. cbn. rewrite map_lookup_filter. case_decide as Hd.
  - destruct (hist fs !! p) as [l|]; cbn; [|done]. case_guard as Hg; [|done]. naive_solver.
  - destruct (hist fs !! p) as [l|]; cbn; [|done]. case_guard as Hg; [done|].
    destruct Hd. split; [|naive_solver]. destruct (decide (tail p = d)); naive_solver.
Qed.

Lemma possible_sub_sync d fs p v : v ∈ possible (sync_dir d fs) p → v ∈ possible fs p.
Proof.
  rewrite possible_sync_dir. case_decide; [|done]. intros ->%list_elem_of_singleton. by left.
Qed.

Lemma possible_head fs p : names fs !! p ∈ possible fs p.
Proof. by left. Qed.

Lemma live_names fs p n : p ≠ [] → live fs p = Some n → names fs !! p = Some n.
Proof. destruct p as [|x d]; [done|]. cbn. by destruct (live fs d) as [[]|]. Qed.

Lemma live_child fs p n : live fs p = Some NDir → live fs (n :: p) = names fs !! (n :: p).
Proof. intros Hl. cbn. by rewrite Hl. Qed.

Lemma live_parent fs x d n : live fs (x :: d) = Some n → live fs d = Some NDir.
Proof. cbn. by destruct (live fs d) as [[]|]. Qed.

Lemma power_loss_possible fs fs' p v : power_loss fs fs' → v ∈ possible fs' p → v ∈ possible fs p.
Proof.
  intros Hl. unfold possible at 1, hist_of. rewrite (pl_hist _ _ Hl), lookup_empty.
  intros ->%list_elem_of_singleton. apply (pl_names _ _ Hl).
Qed.

(** ** Well-formedness: inode numbers are allocated in order *)
Record fs_wf (fs : FS) : Prop := {
  fw_inodes : ∀ ino, is_Some (inodes fs !! ino) → (ino < next_ino fs)%nat;
  fw_refs : ∀ p ino, Some (NFile ino) ∈ possible fs p → is_Some (inodes fs !! ino)
}.

(** Only [p] can lead to the inode. *)
Definition loose (ino : nat) (p : path) (fs : FS) : Prop :=
  is_Some (inodes fs !! ino) ∧ ∀ q, Some (NFile ino) ∈ possible fs q → q = p.

(** A new entry names an inode that exists. *)
Definition entry_ok (fs : FS) (v : option node) : Prop :=
  match v with Some (NFile ino) => is_Some (inodes fs !! ino) | _ => True end.

Lemma live_entry_ok fs p n : fs_wf fs → p ≠ [] → live fs p = Some n → entry_ok fs (Some n).
Proof.
  intros Hw Hp Hl. destruct n as [ino| |]; cbn; try done.
  apply (fw_refs _ Hw p). apply live_names in Hl; [|done]. rewrite <-Hl. apply possible_head.
Qed.

Lemma wf_set_name fs p v : fs_wf fs → entry_ok fs v → fs_wf (set_name p v fs).
Proof.
  intros [H1 H2] Hv. split; [done|]. intros q ino. rewrite possible_set_name. case_decide; [|apply H2].
  intros [<-|?]%elem_of_cons; [done|by eapply H2].
Qed.

Lemma wf_sync_dir fs d : fs_wf fs → fs_wf (sync_dir d fs).
Proof. intros [H1 H2]. split; [done|]. intros p ino Hp%possible_sub_sync. by eapply H2. Qed.

Lemma wf_set_inode fs ino i : fs_wf fs → is_Some (inodes fs !! ino) → fs_wf (set_inode ino i fs).
Proof.
  intros [H1 H2] Hi. split; cbn.
  - intros j. rewrite lookup_insert. case_decide; [intros _; subst; by apply H1|apply H1].
  - intros p j Hp. rewrite lookup_insert. case_decide; [done|by eapply H2].
Qed.

Lemma wf_create fs p now : fs_wf fs → fs_wf (set_name p (Some (NFile (next_ino fs))) (alloc now fs).2).
Proof.
  intros [H1 H2]. apply wf_set_name.
  - split; cbn.
    + intros ino. rewrite lookup_insert. case_decide; [intros _; lia|]. intros Hi%H1. lia.
    + intros q ino Hq. rewrite lookup_insert. case_decide; [done|by eapply (H2 q)].
  - cbn. rewrite lookup_insert_eq. done.
Qed.

Lemma wf_power_loss fs fs' : fs_wf fs → power_loss fs fs' → fs_wf fs'.
Proof.
  intros [H1 H2] Hl. split.
  - intros ino Hi. rewrite (pl_next _ _ Hl). apply H1.
    apply elem_of_dom. rewrite <-(pl_dom _ _ Hl). by apply elem_of_dom.
  - intros p ino Hp%(power_loss_possible _ _ _ _ Hl). apply H2 in Hp.
    apply elem_of_dom. rewrite (pl_dom _ _ Hl). by apply elem_of_dom.
Qed.

Lemma create_loose fs p now :
  fs_wf fs → loose (next_ino fs) p (set_name p (Some (NFile (next_ino fs))) (alloc now fs).2).
Proof.
  intros [H1 H2]. split; cbn; [by rewrite lookup_insert_eq|].
  intros q. rewrite possible_set_name. case_decide; [done|]. intros Hq.
  apply (H2 q) in Hq. apply H1 in Hq. lia.
Qed.

Lemma loose_set_inode fs ino p j i : loose ino p fs → loose ino p (set_inode j i fs).
Proof.
  intros [H1 H2]. split; cbn; [|done]. rewrite lookup_insert. by case_decide.
Qed.

Lemma loose_sync_dir fs ino p d : loose ino p fs → loose ino p (sync_dir d fs).
Proof. intros [H1 H2]. split; [done|]. intros q Hq%possible_sub_sync. by apply H2. Qed.

Lemma loose_set_name fs ino p q v :
  loose ino p fs → v ≠ Some (NFile ino) → loose ino p (set_name q v fs).
Proof.
  intros [H1 H2] Hv. split; [done|]. intros r. rewrite possible_set_name. case_decide as Hd.
  - subst. intros [Hx|?]%elem_of_cons; [by destruct Hv|by apply H2].
  - apply H2.
Qed.

(** ** Control-plane invariants

    [ok] are the name changes the invariant allows, [scratch] the names under which
    unpublished files are created and written. *)
Record store_inv (ok : path → option node → Prop) (scratch : path → Prop) (I : FS → Prop) : Prop := {
  si_wf : ∀ fs, I fs → fs_wf fs;
  si_name : ∀ fs p v, I fs → ok p v → entry_ok fs v → I (set_name p v fs);
  si_sync : ∀ fs d, I fs → I (sync_dir d fs);
  si_create : ∀ fs p now, I fs → scratch p → I (set_name p (Some (NFile (next_ino fs))) (alloc now fs).2);
  si_write : ∀ fs ino p i, I fs → scratch p → loose ino p fs → I (set_inode ino i fs);
  si_utime : ∀ fs ino i now, I fs → inodes fs !! ino = Some i →
    I (set_inode ino (Inode (i_data i) (i_synced i) now) fs);
  si_scratch : ∀ p, scratch p → p ≠ [] ∧ ok p None
}.

(** Follow the syntax of a program; leaves are closed by a hypothesis or a hint. *)
Ltac keeps_leaf := solve [assumption | eauto 2 with io_keep].
Ltac keeps_step :=
  cbv beta;
  lazymatch goal with
  | |- keeps _ (ret _) => apply k_ret
  | |- keeps _ (throw _ _) => apply k_throw
  | |- keeps _ (rethrow _) => apply k_rethrow
  | |- keeps _ (lift _) => apply k_lift
  | |- keeps _ (guard_io _ _ _) => apply k_guard
  | |- keeps _ get_fs => apply k_get_fs
  | |- keeps _ get_proc => apply k_get_proc
  | |- keeps _ get_pins => apply k_get_pins
  | |- keeps _ time_ns => apply k_time
  | |- keeps _ (mod_proc _) => apply k_mod_proc
  | |- keeps _ (mod_pins _) => apply k_mod_pins
  | |- keeps _ consult => apply k_consult
  | |- keeps _ (sys_lstat _) => apply k_lstat
  | |- keeps _ (sys_open _) => apply k_open
  | |- keeps _ (sys_exists _) => apply k_exists
  | |- keeps _ (sys_scandir _) => apply k_scandir
  | |- keeps _ (sys_readv _ _ _) => apply k_readv
  | |- keeps _ (read_into _ _ _ _ _) => apply k_read_into
  | |- keeps _ (_read_small _ _ _) => apply k_read_into
  | |- keeps _ (mbind _ _) => apply k_bind; [|intros ?]
  | |- keeps _ (finally _ _) => apply k_finally
  | |- keeps _ (try_with _ _) => apply k_try; [|intros ? ? ?]
  | |- keeps _ (match _ with _ => _ end) => case_match
  | |- keeps _ (let _ := _ in _) => cbv zeta
  | H : Some _ = Some _ |- _ => injection H as <-
  | H : None = Some _ |- _ => discriminate H
  | H : match _ with _ => _ end = Some _ |- _ => case_match
  end.
Ltac io_keeps := repeat (keeps_leaf || keeps_step).

Create HintDb io_keep discriminated.

Section readers.
Context (I : FS → Prop).

Lemma k_or_else {A} k (d : A) m : keeps I m → keeps I (or_else k d m).
Proof. intros Hm. unfold or_else. io_keeps. Qed.
Lemma k_ignoring k m : keeps I m → keeps I (ignoring k m).
Proof. intros Hm. unfold ignoring. io_keeps. Qed.
Lemma k_on_error {A} (m : IO A) f : keeps I m → keeps I f → keeps I (on_error m f).
Proof. intros Hm Hf. unfold on_error. io_keeps. Qed.
Lemma k_attempt m : keeps I m → keeps I (attempt m).
Proof. intros Hm w Hw. unfold attempt. specialize (Hm w Hw). by destruct (m w) as [[?|?|] ?]. Qed.
Lemma k_fresh_uuid `{Uuid} : keeps I fresh_uuid.
Proof. by intros w Hw. Qed.
Lemma k_flock : keeps I flock.
Proof. unfold flock. io_keeps. Qed.
Lemma k_flock_nb : keeps I flock_nb.
Proof.
  intros w Hw. unfold flock_nb. pose proof (k_consult I w Hw) as Hc.
  destruct (w_faults w) as [|[] ?] eqn:E; try done; try (by destruct (consult w) as [[?|?|] ?]).
Qed.
Lemma k_for_each {A} (l : list A) f : (∀ x, keeps I (f x)) → keeps I (for_each l f).
Proof. intros Hf. induction l as [|x l IH]; cbn; io_keeps. Qed.
Lemma k_depth n : keeps I (set_proc_depth n).
Proof. apply k_mod_proc. Qed.
Lemma k_call_hook m : keeps I m → keeps I (call_hook m).
Proof. intros Hm. unfold call_hook. io_keeps. Qed.
Lemma k_checkpoint : keeps I _checkpoint.
Proof. apply k_call_hook, k_ret. Qed.
Lemma k_ensure_open : keeps I _ensure_open.
Proof. unfold _ensure_open. io_keeps. Qed.
Lemma k_manifest_path e : keeps I (_manifest_path e).
Proof. unfold _manifest_path. io_keeps. Qed.
Lemma k_open_lock p : keeps I (open_lock p).
Proof. unfold open_lock. io_keeps. Qed.
Lemma k_open_regular p : keeps I (open_regular p).
Proof. unfold open_regular. io_keeps. Qed.
End readers.
#[export] Hint Resolve k_or_else k_ignoring k_on_error k_attempt k_fresh_uuid k_flock k_flock_nb
  k_for_each k_depth k_call_hook k_checkpoint k_ensure_open k_manifest_path k_open_lock
  k_open_regular : io_keep.

Lemma k_exclusive I {A} (m : IO A) : keeps I m → keeps I (exclusive m).
Proof. intros Hm. unfold exclusive. io_keeps. Qed.
Lemma k_try_exclusive I {A} (m : IO A) : keeps I m → keeps I (try_exclusive m).
Proof. intros Hm. unfold try_exclusive. io_keeps. Qed.

(** Through the combinators of the store. *)
Ltac keeps_struct :=
  lazymatch goal with
  | |- keeps _ (exclusive _) => apply k_exclusive
  | |- keeps _ (try_exclusive _) => apply k_try_exclusive
  | |- keeps _ (attempt _) => apply k_attempt
  | |- keeps _ (or_else _ _ _) => apply k_or_else
  | |- keeps _ (ignoring _ _) => apply k_ignoring
  | |- keeps _ (on_error _ _) => apply k_on_error
  | |- keeps _ (call_hook _) => apply k_call_hook
  | |- keeps _ (for_each _ _) => apply k_for_each; intros ?
  end.
Ltac io_keeps ::= repeat (keeps_leaf || keeps_struct || keeps_step).

Section locks.
Context (I : FS → Prop).
Lemma k_present p : keeps I (_digest_marker_is_present p).
Proof. unfold _digest_marker_is_present. io_keeps. Qed.
Lemma k_is_withdrawn e : keeps I (_inventory_is_withdrawn e).
Proof. apply k_present. Qed.
Lemma k_name_exists p : keeps I (name_exists p).
Proof. unfold name_exists. io_keeps. Qed.
Lemma k_log_withdrawal e : keeps I (log_withdrawal e).
Proof. apply k_mod_proc. Qed.
Lemma k_log_quarantine e : keeps I (log_quarantine e).
Proof. apply k_mod_proc. Qed.
Lemma k_pins_busy e : keeps I (pins_busy e).
Proof. unfold pins_busy. io_keeps. Qed.
Lemma k_pins_acquire l : keeps I (pins_acquire l).
Proof. unfold pins_acquire. io_keeps. Qed.
Lemma k_pins_release n : keeps I (pins_release n).
Proof. apply k_mod_pins. Qed.
Lemma k_add_active n : keeps I (add_active n).
Proof. apply k_mod_proc. Qed.
Lemma k_add_credits n : keeps I (add_credits n).
Proof. apply k_mod_proc. Qed.
Lemma k_set_owner b : keeps I (set_owner b).
Proof. apply k_mod_proc. Qed.
Lemma k_set_closed : keeps I set_closed.
Proof. apply k_mod_proc. Qed.
Lemma k_tree_bytes p : keeps I (_managed_tree_bytes p).
Proof. unfold _managed_tree_bytes. io_keeps. Qed.
Lemma k_read_small_json `{JsonLoads} p n : keeps I (_read_small_json p n).
Proof. unfold _read_small_json. io_keeps. Qed.
End locks.
#[export] Hint Resolve k_present k_is_withdrawn k_name_exists k_log_withdrawal
  k_log_quarantine k_pins_busy k_pins_acquire k_pins_release k_add_active k_add_credits k_set_owner
  k_set_closed k_tree_bytes k_read_small_json : io_keep.

(** What a run tells about a name. *)
Lemma or_else_Ret {A} k (d : A) m w a w' :
  or_else k d m w = (Ret a, w') → m w = (Ret a, w') ∨ ∃ e, m w = (Exc e, w') ∧ exn_class e = k ∧ a = d.
Proof.
  unfold or_else. intros [?|(e & h & w1 & Hm & Hh & Hr)]%try_Ret; [by left|right].
  case_decide; [|done]. injection Hh as <-. apply ret_Ret in Hr as [-> ->]. by exists e.
Qed.

Lemma lstat_missing p w e w' :
  sys_lstat p w = (Exc e, w') → exn_class e = FileNotFoundError → live (w_fs w) p = None ∧ w_fs w' = w_fs w.
Proof.
  unfold sys_lstat, consult, mbind, io_bind, get_fs, not_found, throw, ret.
  intros Hr He. destruct (w_faults w) as [|[] l]; cbn in Hr;
    try (injection Hr as <- <-; discriminate He); try discriminate Hr;
    (destruct (live (w_fs w) p); [discriminate Hr|by injection Hr as <- <-]).
Qed.

Lemma open_missing p w e w' :
  sys_open p w = (Exc e, w') → exn_class e = FileNotFoundError → live (w_fs w) p = None ∧ w_fs w' = w_fs w.
Proof.
  unfold sys_open, consult, mbind, io_bind, get_fs, not_found, throw, ret.
  intros Hr He. destruct (w_faults w) as [|[] l]; cbn in Hr;
    try (injection Hr as <- <-; discriminate He); try discriminate Hr;
    (destruct (live (w_fs w) p) as [[]|]; try discriminate Hr; injection Hr as <- <-; done || discriminate He).
Qed.

Lemma scandir_missing p w e w' :
  sys_scandir p w = (Exc e, w') → exn_class e = FileNotFoundError → live (w_fs w) p = None.
Proof.
  unfold sys_scandir, consult, mbind, io_bind, get_fs, not_found, throw, ret.
  intros Hr He. destruct (w_faults w) as [|[] l]; cbn in Hr;
    try (injection Hr as <- <-; discriminate He); try discriminate Hr;
    (destruct (live (w_fs w) p) as [[]|]; try discriminate Hr; by injection Hr as <- <-).
Qed.

Lemma present_Ret p b w w' :
  _digest_marker_is_present p w = (Ret b, w') →
  w_fs w' = w_fs w ∧ live (w_fs w) p = if b then Some NDir else None.
Proof.
  intros Hr. split.
  { pose proof (keeps_fs _ w (λ I, k_present I p)) as Hk. by rewrite Hr in Hk. }
  unfold _digest_marker_is_present in Hr. apply bind_Ret in Hr as (found & w1 & Hf & Hr).
  apply or_else_Ret in Hf as [Hf|(e & Hf & He & ->)].
  - apply bind_Ret in Hf as (n & w2 & Hl & Hn). apply ret_Ret in Hn as [-> ->].
    apply lstat_Ret in Hl as [Hl Hw]. destruct n; try discriminate Hr.
    apply bind_Ret in Hr as (l & w3 & Hs & Hr). apply or_else_Ret in Hs as [Hs|(e & Hs & He & ->)].
    + apply bind_Ret in Hs as (k & w4 & _ & Hn). apply ret_Ret in Hn as [-> ->].
      destruct k; [|discriminate Hr]. by apply ret_Ret in Hr as [-> ->].
    + destruct (sys_scandir p w2) as [[k|e'|] w4] eqn:Es; unfold mbind, io_bind in Hs; rewrite Es in Hs;
        try discriminate Hs. injection Hs as -> ->.
      apply scandir_missing in Es; [|done]. rewrite Hw in Es. by rewrite Es in Hl.
  - destruct (sys_lstat p w) as [[k|e'|] w4] eqn:Es; unfold mbind, io_bind in Hf; rewrite Es in Hf;
      try discriminate Hf. injection Hf as -> ->. apply ret_Ret in Hr as [-> ->].
    by apply lstat_missing in Es as [Es _].
Qed.

Lemma t_present I p :
  triple I (_digest_marker_is_present p) (λ b fs, live fs p = (if b then Some NDir else None) ∧ I fs) I.
Proof.
  intros w Hw. pose proof (k_present I p w Hw) as Hk.
  destruct (_digest_marker_is_present p w) as [[b|e|] w'] eqn:E; [|done|done].
  apply present_Ret in E as [Hf Hl]. by rewrite Hf.
Qed.

Section control.
Context {ok scratch I} (HI : store_inv ok scratch I).

Lemma k_record_withdrawal hk e : keeps I (_record_withdrawal hk e).
Proof. unfold _record_withdrawal. io_keeps. Qed.
Lemma k_record_quarantine hk r : keeps I (_record_quarantine hk r).
Proof. unfold _record_quarantine. io_keeps. Qed.

Lemma k_fsync_dir d : keeps I (sys_fsync_dir d).
Proof. apply t_fsync_dir; [done|]. intros fs Hfs _. by apply (si_sync _ _ _ HI). Qed.

Lemma k_mkdir p : ok p (Some NDir) → keeps I (sys_mkdir p).
Proof. intros Hok. apply t_mkdir; [done|]. intros fs Hfs _ _. by apply (si_name _ _ _ HI). Qed.

Lemma k_rmdir p : ok p None → keeps I (sys_rmdir p).
Proof. intros Hok. apply t_rmdir; [done|]. intros fs Hfs _ _. by apply (si_name _ _ _ HI). Qed.

Lemma k_unlink p : ok p None → keeps I (sys_unlink p).
Proof. intros Hok. apply t_unlink; [done|]. intros fs n Hfs _ _. by apply (si_name _ _ _ HI). Qed.

Lemma k_utime p : keeps I (sys_utime p).
Proof. apply t_utime; [done| |done]. intros fs ino i now Hfs _ Hi. by apply (si_utime _ _ _ HI). Qed.

Lemma k_replace old new :
  ok old None → old ≠ [] → (∀ n, ok new (Some n)) → keeps I (sys_replace old new).
Proof.
  intros Ho Hne Hn. apply t_replace; [done|]. intros fs n Hfs Hl _ _.
  apply (si_name _ _ _ HI); [|done|done]. apply (si_name _ _ _ HI); [done|done|].
  eapply live_entry_ok; [by apply (si_wf _ _ _ HI)| |done]. done.
Qed.

Lemma k_mark p : ok p (Some NDir) → keeps I (_mark_digest_marker p).
Proof. intros Hok. unfold _mark_digest_marker. pose proof (k_mkdir p Hok). pose proof (k_fsync_dir (tail p)). io_keeps. Qed.

Lemma k_clear p : ok p None → keeps I (_clear_digest_marker p).
Proof. intros Hok. unfold _clear_digest_marker. pose proof (k_rmdir p Hok). pose proof (k_fsync_dir (tail p)). io_keeps. Qed.

Lemma k_shard p : ok p (Some NDir) → keeps I (_ensure_shard_directory p).
Proof. intros Hok. unfold _ensure_shard_directory. pose proof (k_mkdir p Hok). pose proof (k_fsync_dir (tail p)). io_keeps. Qed.

(** A directory entry that was just synced has one value. *)
Lemma t_sync_entry p n :
  p ≠ [] → triple (λ fs, I fs ∧ names fs !! p = n) (sys_fsync_dir (tail p)) (λ _ fs, I fs ∧ possible fs p = [n]) I.
Proof.
  intros Hp. apply t_fsync_dir; [by intros fs [? _]|]. intros fs [Hfs Hn] _. split; [by apply (si_sync _ _ _ HI)|].
  by rewrite possible_sync_dir, decide_True, <-Hn.
Qed.

(** A directory the store made sure of is durable. *)
Lemma t_ensure_shard p :
  ok p (Some NDir) → p ≠ [] →
  triple I (_ensure_shard_directory p) (λ _ fs, I fs ∧ possible fs p = [Some NDir]) I.
Proof.
  intros Hok Hp. unfold _ensure_shard_directory. pose proof (k_mkdir p Hok) as Hk.
  eapply (t_bind _ _ _ _ (λ _, I)); [exact (k_ignoring _ _ _ Hk)|]. intros ?.
  eapply t_bind; [apply (t_lstat I)|]. intros n. cbv beta.
  destruct n; try (eapply t_conseq; [apply (t_throw I (λ _ _, False))|by intros ? []|done|done]).
  eapply t_conseq; [by apply (t_sync_entry p (Some NDir))|by intros fs [?%live_names ?]|done|done].
Qed.

(** A marker the store set is durable. *)
Lemma t_mark p :
  ok p (Some NDir) → p ≠ [] →
  triple I (_mark_digest_marker p) (λ _ fs, I fs ∧ possible fs p = [Some NDir]) I.
Proof.
  intros Hok Hp. unfold _mark_digest_marker. pose proof (k_mkdir p Hok) as Hk.
  eapply (t_bind _ _ _ _ (λ _, I)); [exact (k_ignoring _ _ _ Hk)|]. intros ?.
  eapply t_bind; [apply t_present|]. intros b. cbv beta.
  eapply t_bind; [eapply t_conseq; [apply t_guard'|intros ? Hx; exact Hx|intros ? ? Hx; exact Hx|by intros ? []]|].
  intros ?. apply t_pure. intros Hb. destruct b; [|done].
  eapply t_conseq; [by apply (t_sync_entry p (Some NDir))|by intros fs [?%live_names ?]|done|done].
Qed.

Lemma k_cleanup_file p : ok p None → keeps I (_ ← attempt (ignoring FileNotFoundError (sys_unlink p));
  _ ← attempt (sys_fsync_dir (tail p)); ret tt).
Proof. intros Hok. pose proof (k_unlink p Hok). pose proof (k_fsync_dir (tail p)). io_keeps. Qed.

Lemma k_absence p : keeps I (_fsync_manifest_absence_locked p).
Proof.
  unfold _fsync_manifest_absence_locked. pose proof (k_fsync_dir (tail p)).
  pose proof (k_fsync_dir manifests_dir). io_keeps.
Qed.

Lemma k_quarantine `{Uuid} hk e r :
  ok (manifest_path e) None → ok (_inventory_withdrawal_path e) (Some NDir) →
  ok (_inventory_withdrawal_path e) None → (∀ n v, ok (n :: quarantine_dir) v) →
  keeps I (_quarantine_manifest hk e r).
Proof.
  intros H1 H2 H3 H4. unfold _quarantine_manifest, _mark_inventory_withdrawn, _clear_inventory_withdrawal.
  pose proof (k_mark _ H2). pose proof (k_clear _ H3). pose proof (k_record_withdrawal hk e).
  pose proof (k_record_quarantine hk r). pose proof (k_fsync_dir quarantine_dir).
  pose proof (k_fsync_dir (tail (manifest_path e))).
  assert (∀ n, keeps I (sys_replace (manifest_path e) (n :: quarantine_dir))).
  { intros n. apply k_replace; auto. }
  io_keeps.
Qed.

(** Only this unpublished file is written. *)
Lemma scratch_inv p ino : scratch p →
  ∀ fs i, I fs ∧ loose ino p fs → I (set_inode ino i fs) ∧ loose ino p (set_inode ino i fs).
Proof.
  intros Hp fs i [Hfs Hl]. split; [by eapply (si_write _ _ _ HI)|by apply loose_set_inode].
Qed.

Lemma t_create_loose p : scratch p → triple I (sys_create p) (λ ino fs, I fs ∧ loose ino p fs) I.
Proof.
  intros Hp. apply t_create; [done|]. intros fs now Hfs _ _. split.
  - by apply (si_create _ _ _ HI).
  - apply create_loose. by apply (si_wf _ _ _ HI).
Qed.
End control.

Lemma t_on_error {A} P (m : IO A) f Q E :
  triple P m Q E → keeps E f → triple P (on_error m f) Q E.
Proof.
  intros Hm Hf. apply t_try; [done|]. intros e k [= <-]. eapply t_bind; [exact Hf|].
  intros []. intros w Hw. exact Hw.
Qed.

(** From an invariant into a stronger precondition. *)
Lemma t_keeps {A} (P I : FS → Prop) (m : IO A) :
  keeps I m → (∀ fs, P fs → I fs) → triple P m (λ _, I) I.
Proof. intros Hm HP. eapply t_conseq; [exact Hm|exact HP|done|done]. Qed.

Lemma t_keeps_weak {A} (J E : FS → Prop) (m : IO A) :
  keeps J m → (∀ fs, J fs → E fs) → triple J m (λ _, J) E.
Proof. intros Hm HE. eapply t_conseq; [exact Hm|done|done|exact HE]. Qed.

Section atomic.
Context `{Uuid} {ok scratch I} (HI : store_inv ok scratch I).

Lemma t_fsync_loose p ino :
  scratch p → triple (λ fs, I fs ∧ loose ino p fs) (sys_fsync ino) (λ _ fs, I fs ∧ loose ino p fs)
                (λ fs, I fs ∧ loose ino p fs).
Proof. intros Hp. apply t_fsync; [done|]. intros fs Hfs. by apply (scratch_inv HI p ino Hp). Qed.

Lemma k_mkdir_parents p : (∀ q, q `suffix_of` p → q ≠ [] → ok q (Some NDir)) → keeps I (mkdir_parents p).
Proof.
  induction p as [|x d IH]; intros Hok; cbn [mkdir_parents]; [apply k_ret|].
  assert (Hx : keeps I (sys_mkdir (x :: d))) by (apply (k_mkdir HI), Hok; done).
  assert (Hd : keeps I (mkdir_parents d)).
  { apply IH. intros q Hq. apply Hok. by apply suffix_cons_r. }
  io_keeps.
Qed.

Definition small_temporary (target : path) (u : pystr) : path :=
  (lit "." ++ name_of target ++ lit "." ++ u ++ lit ".tmp") :: tail target.

Lemma k_atomic_small_write target payload :
  (∀ u, scratch (small_temporary target u)) → (∀ n, ok target (Some n)) →
  (∀ q, q `suffix_of` tail target → q ≠ [] → ok q (Some NDir)) →
  keeps I (_atomic_small_write target payload).
Proof.
  intros Hs Ht Hd. unfold _atomic_small_write.
  apply k_bind; [by apply k_mkdir_parents|]. intros _. apply k_bind; [apply k_fresh_uuid|]. intros u.
  cbv zeta. fold (small_temporary target u). specialize (Hs u). set (tmp := small_temporary target u) in *.
  destruct (si_scratch _ _ _ HI tmp Hs) as [Hne Hok].
  assert (Hcl : keeps I (ignoring FileNotFoundError (sys_unlink tmp))).
  { apply k_ignoring, (k_unlink HI), Hok. }
  eapply t_bind; [by apply (t_create_loose HI)|]. intros ino.
  eapply (t_bind _ _ _ _ (λ _ fs, I fs ∧ loose ino tmp fs)).
  - apply t_on_error; [|exact Hcl]. eapply t_bind.
    + apply (t_keeps_weak (λ fs, I fs ∧ loose ino tmp fs)); [|by intros ? []].
      unfold _write_all. case_bool_decide; [apply k_ret|]. apply k_write_loop.
      intros fs i Hfs _. by apply (scratch_inv HI tmp ino Hs).
    + intros ?. apply (t_keeps_weak (λ fs, I fs ∧ loose ino tmp fs)); [by apply t_fsync_loose|by intros ? []].
  - intros ?. eapply (t_bind _ _ _ _ (λ _, I)).
    + apply t_on_error; [|exact Hcl]. apply t_keeps; [by apply (k_replace HI)|by intros ? []].
    + intros ?. apply (k_fsync_dir HI).
Qed.
End atomic.
