(* ===== verification/TokenFiles.v ===== *)
(** * Token files ([src/spoolcache/token_files.py])

    One file per prefix key: a frame, an authenticated canonical header and the
    payload.  Publication, authentication, chains, lookup, restore views, batched
    reads, offers, eviction and capacity maintenance, as programs over [RankStore]. *)
From S2P Require Import Prelude Dict Bytes Utf8 Config Json Hma Manifest Io RankStore.

Definition TOKEN_FILE_SCHEMA : pystr := lit "spoolcache-token-key-file/v3".
Definition MAX_BATCH_CHUNKS : nat := 16.
Definition MAX_HEADER_BYTES : Z := 64 * 1024.
Definition MAX_TRANSFER_BLOCKS : Z := 512.
Definition MAGIC : list byte := blit "SPCTOK02".
Definition FRAME_SIZE : nat := 44.
Definition MAX_SPAN : Z := Z.shiftl 1 63 - 1.

(** The store object: its identity, layout, chunk width, binding and slot size. *)
Record TokenFileStore := TokenStore {
  st_id : nat;
  st_layout : HMALayout;
  st_chunk_tokens : Z;
  st_binding : json;
  st_slot_bytes : Z;
  st_hooks : StoreHooks
}.

Definition _positive (v : json) (maximum : Z) (msg : string) : result Z :=
  match v with
  | JInt z => if (0 <? z) && (z <=? maximum) then Ok z else raise ManifestError msg
  | _ => raise ManifestError msg
  end.

(** ** Headers *)
Record header := Header {
  hd_kind : file_kind;
  hd_key : pystr;
  hd_parent : option pystr;
  hd_span : Z;
  hd_segments : list PageSlice;
  hd_length : Z;
  hd_sha256 : pystr;
  hd_blocks : list pystr
}.

Definition slice_dict (s : PageSlice) : json :=
  JObj [(lit "group_index", JInt (sl_group_index s)); (lit "layer_name", JStr (sl_layer_name s));
        (lit "page_start", JInt (page_start s)); (lit "page_count", JInt (page_count s));
        (lit "byte_length", JInt (sl_byte_length s))].

Definition header_dict (st : TokenFileStore) (h : header) : json :=
  JObj [(lit "schema", JStr TOKEN_FILE_SCHEMA); (lit "kind", JStr (kind_name (hd_kind h)));
        (lit "binding", st_binding st); (lit "key", JStr (hd_key h));
        (lit "parent", match hd_parent h with Some p => JStr p | None => JNull end);
        (lit "span_tokens", JInt (hd_span h));
        (lit "segments", JArr (slice_dict <$> hd_segments h));
        (lit "byte_length", JInt (hd_length h)); (lit "sha256", JStr (hd_sha256 h));
        (lit "block_sha256", JArr (JStr <$> hd_blocks h))].

Definition as_digest (v : json) : option pystr :=
  match v with JStr s => if is_digest s then Some s else None | _ => None end.

Definition need_digest (v : json) (msg : string) : result pystr :=
  match as_digest v with Some s => Ok s | None => raise ManifestError msg end.

Definition zero_digest : pystr := replicate 64 48.
Definition ceil_blocks (length slot : Z) : Z := (length + slot - 1) / slot.

(** [subscript of a decoded object]: [KeyError] when absent. *)
Definition field (l : list (pystr * json)) (name : string) : result json :=
  match od_get (lit name) l with Some v => Ok v | None => raise KeyError name end.

Section files.
Context `{Sha, Uuid, JsonLoads}.

Definition boundary_state_key (prefix_key : pystr) : result pystr :=
  if is_digest prefix_key
  then Ok (sha256_hex (blit "spoolcache-hma-boundary/v1" ++ [x00] ++ bytes_fromhex prefix_key))
  else raise ManifestError "boundary prefix key is malformed".

(** The parent a file of this kind must name. *)
Definition header_parent (st : TokenFileStore) (key : pystr) (parent : json) (span : Z) (kind : json)
    : result (file_kind * option pystr) :=
  match kind with
  | JStr k =>
      if bool_decide (k = lit "state") then
        let msg := "boundary state identity/alignment differs"%string in
        _ ← raise_if (negb (has_boundary_state (st_layout st))) ManifestError msg;
        p ← need_digest parent msg;
        expected ← boundary_state_key p;
        _ ← raise_if (negb (bool_decide (key = expected))
                      || negb (span mod alignment_tokens (st_layout st) =? 0)) ManifestError msg;
        Ok (KState, Some p)
      else if bool_decide (k = lit "data") then
        if span =? st_chunk_tokens st then
          match parent with
          | JNull => Ok (KData, None)
          | _ => raise ManifestError "token parent is invalid"
          end
        else if st_chunk_tokens st <? span then
          p ← need_digest parent "token parent is invalid"; Ok (KData, Some p)
        else raise ManifestError "token parent is invalid"
      else raise ManifestError "unknown token file kind"
  | _ => raise ManifestError "unknown token file kind"
  end.

(** The checksum table: one digest per transfer block. *)
Definition header_blocks (blocks : Z) (digest : pystr) (table : option json) : result (list pystr) :=
  let msg := "token transfer checksums differ from geometry"%string in
  hashes ← match table with
           | None => Ok (replicate (Z.to_nat blocks) zero_digest)
           | Some (JArr l) =>
               _ ← raise_if (negb (Z.of_nat (length l) =? blocks)) ManifestError msg;
               mapM_result (λ v, need_digest v msg) l
           | Some _ => raise ManifestError msg
           end;
  _ ← raise_if ((blocks =? 1) && negb (bool_decide (hashes = [digest]))) ManifestError msg;
  Ok hashes.

Definition _header_payload (st : TokenFileStore) (key : pystr) (parent span digest kind : json)
    (table : option json) : result header :=
  span ← _positive span MAX_SPAN "invalid token file span";
  let msg := "token key/interval/hash is invalid"%string in
  _ ← raise_if (negb (span mod st_chunk_tokens st =? 0) || negb (is_digest key)) ManifestError msg;
  digest ← need_digest digest msg;
  kp ← header_parent st key parent span kind;
  segments ← token_segments (st_layout st) span (st_chunk_tokens st) kp.1;
  let len := foldr Z.add 0 (sl_byte_length <$> segments) in
  blocks ← _positive (JInt (ceil_blocks len (st_slot_bytes st))) MAX_TRANSFER_BLOCKS
             "invalid token file transfer block count";
  hashes ← header_blocks blocks digest table;
  Ok (Header kp.1 key kp.2 span segments len digest hashes).

Definition _encode_header (st : TokenFileStore) (h : header) : result (list byte) :=
  encoded ← canonical_json (header_dict st h);
  _ ← _positive (JInt (Z.of_nat (length encoded))) MAX_HEADER_BYTES "invalid token file header length";
  size ← pack_I (Z.of_nat (length encoded));
  Ok (MAGIC ++ size ++ sha256 encoded ++ encoded).

(** [validate_prefix_headers]: the headers of a save fit the file format. *)
Definition prefix_header (st : TokenFileStore) (span : Z) (k : file_kind) : result header :=
  match k with
  | KData => _header_payload st zero_digest
               (if span =? st_chunk_tokens st then JNull else JStr zero_digest)
               (JInt span) (JStr zero_digest) (JStr (kind_name KData)) None
  | KState => key ← boundary_state_key zero_digest;
              _header_payload st key (JStr zero_digest) (JInt span) (JStr zero_digest)
                (JStr (kind_name KState)) None
  end.

Definition validate_prefix_headers (st : TokenFileStore) (span : Z) : result unit :=
  _ ← mapM_result (λ k, h ← prefix_header st span k; _encode_header st h)
        (if has_boundary_state (st_layout st) then [KData; KState] else [KData]);
  Ok tt.

(** The checks on a decoded header: it is the canonical header of its own fields. *)
Definition check_header (st : TokenFileStore) (key : pystr) (payload : json) : result header :=
  match payload with
  | JObj l =>
      parent ← field l "parent"; span ← field l "span_tokens"; digest ← field l "sha256";
      kind ← field l "kind"; table ← field l "block_sha256";
      h ← _header_payload st key parent span digest kind (Some table);
      a ← canonical_json payload; b ← canonical_json (header_dict st h);
      _ ← raise_if (negb (bool_decide (a = b))) ValueError "token metadata/identity/geometry differs";
      Ok h
  | _ => raise TypeError "token header is not an object"
  end.

(** [except (ValueError, KeyError, TypeError, RecursionError, OverflowError)] *)
Definition metadata_error (e : exn) : bool :=
  caught_by_ValueError e ||
  match exn_class e with KeyError | TypeError | OverflowError => true | _ => false end.

Definition decode_header (st : TokenFileStore) (key : pystr) (encoded : list byte) : result header :=
  match (payload ← json_loads encoded; check_header st key payload) with
  | Raise e => if metadata_error e then raise ManifestError "invalid token metadata" else Raise e
  | r => r
  end.

Definition descriptor (h : header) (offset : nat) (checksum : list byte) : TokenFileDescriptor :=
  Descriptor (hd_key h) (hd_parent h) (hd_span h) (hd_segments h) (hd_length h) (hd_sha256 h)
    (Z.of_nat offset) (bytes_hex checksum) (hd_kind h) (hd_blocks h).

(** [path.is_symlink()] *)
Definition is_symlink (p : path) : IO bool :=
  or_else FileNotFoundError false (n ← sys_lstat p; ret (bool_decide (n = NLink))).

(** [_open_chunk]: the inode and the authenticated metadata of a key. *)
Definition _open_chunk (st : TokenFileStore) (allow_withdrawn : bool) (key : pystr)
    : IO (nat * TokenFileDescriptor) :=
  p ← _manifest_path key;
  withdrawn ← (if allow_withdrawn then ret false else _inventory_is_withdrawn key);
  _ ← guard_io withdrawn ManifestError "token key withdrawn";
  link ← is_symlink (tail p);
  _ ← guard_io link ManifestError "token shard is a symlink";
  n ← sys_open p;
  match n with
  | NFile ino =>
      fs ← get_fs;
      let stored := length (data_of fs ino) in
      frame ← _read_small ino 0 FRAME_SIZE;
      let size := le_unpack (take 4 (drop 8 frame)) in
      let checksum := drop 12 frame in
      _ ← guard_io (negb (bool_decide (take 8 frame = MAGIC))) ManifestError "token file magic differs";
      size ← lift (_positive (JInt size) MAX_HEADER_BYTES "invalid token file header length");
      encoded ← _read_small ino FRAME_SIZE (Z.to_nat size);
      _ ← guard_io (negb (bool_decide (sha256 encoded = checksum))) ManifestError
            "token header checksum differs";
      h ← lift (decode_header st key encoded);
      len ← lift (_positive (JInt (hd_length h)) (st_slot_bytes st * MAX_TRANSFER_BLOCKS)
                    "invalid token file payload length");
      let offset := (FRAME_SIZE + Z.to_nat size)%nat in
      _ ← guard_io (negb (Z.of_nat stored =? Z.of_nat offset + len)) ManifestError
            "token stored length differs";
      ret (ino, descriptor h offset checksum)
  | _ => throw ManifestError "token file is not regular"
  end.

(** ** Payload authentication *)
Fixpoint authenticate_blocks (ino : nat) (slot : Z) (pos : nat) (remaining : Z)
    (blocks : list pystr) (acc : list byte) : IO (Z * list byte) :=
  match blocks with
  | [] => ret (remaining, acc)
  | expected :: blocks =>
      let len := Z.min remaining slot in
      view ← _read_small ino pos (Z.to_nat len);
      _ ← guard_io (negb (bool_decide (sha256_hex view = expected))) ManifestError
            "token transfer block checksum differs";
      authenticate_blocks ino slot (pos + Z.to_nat len) (remaining - len) blocks (acc ++ view)
  end.

Definition _authenticate (st : TokenFileStore) (ino : nat) (d : TokenFileDescriptor) : IO unit :=
  r ← authenticate_blocks ino (st_slot_bytes st) (Z.to_nat (td_payload_offset d)) (td_byte_length d)
        (td_block_sha256 d) [];
  guard_io (negb (r.1 =? 0) || negb (bool_decide (sha256_hex r.2 = td_sha256 d))) ManifestError
    "token payload checksum differs".

(** ** Corruption *)
Definition _quarantine_bad (st : TokenFileStore) (key : pystr) : IO unit :=
  busy ← pins_busy key;
  if (busy : bool) then
    _ ← _mark_inventory_withdrawn key;
    _record_withdrawal (st_hooks st) key
  else _ ← _quarantine_manifest (st_hooks st) key (lit "payload_checksum"); ret tt.

(** [except FileNotFoundError: raise] then [except (OSError, ManifestError)]:
    quarantine the key and raise again. *)
Definition quarantining {A} (st : TokenFileStore) (key : pystr) (m : IO A) : IO A :=
  try_with m (λ e,
    match exn_class e with
    | FileNotFoundError => None
    | _ => if caught_by_OSError_ManifestError e
           then Some (_ ← _quarantine_bad st key; rethrow e) else None
    end).

Definition valid_chunk (st : TokenFileStore) (key : pystr) (parent : option pystr) (span : Z)
    (kind : file_kind) : IO (option TokenFileDescriptor) :=
  exclusive (
    try_with
      (od ← _open_chunk st false key;
       _ ← guard_io (negb (bool_decide (td_parent od.2 = parent))
                     || negb (td_span_tokens od.2 =? span)
                     || negb (bool_decide (td_kind od.2 = kind))) ManifestError "token chain differs";
       _ ← _authenticate st od.1 od.2;
       ret (Some od.2))
      (λ e, match exn_class e with
            | FileNotFoundError => Some (ret None)
            | _ => if caught_by_OSError_ManifestError e
                   then Some (_ ← _quarantine_bad st key; ret None) else None
            end)).

(** ** Publication *)
Definition _cleanup_temporary_file (p : path) : IO unit :=
  _ ← attempt (ignoring FileNotFoundError (sys_unlink p));
  _ ← attempt (sys_fsync_dir (tail p));
  ret tt.

(** The withdrawal that follows a failure after the link, its own errors kept aside. *)
Definition withdraw_failed (st : TokenFileStore) (key : pystr) : IO unit :=
  _ ← attempt (_ ← _mark_inventory_withdrawn key; _record_withdrawal (st_hooks st) key); ret tt.

Definition _publish_chunk (st : TokenFileStore) (key : pystr) (h : header)
    (write : nat → list byte → IO unit) : IO TokenFileDescriptor :=
  _ ← _ensure_open;
  header ← lift (_encode_header st h);
  p ← _manifest_path key;
  present ← sys_exists p;
  _ ← guard_io present ManifestError "capture requires an absent or quarantined key";
  u ← fresh_uuid;
  let temporary := (lit "token-" ++ u ++ lit ".part") :: tmp_dir in
  ino ← sys_create temporary;
  let cleanup := _cleanup_temporary_file temporary in
  _ ← on_error (
        _ ← write ino header;
        _ ← sys_fsync ino;
        _ ← _checkpoint;
        _ ← _ensure_shard_directory (tail p);
        sys_link temporary p) cleanup;
  _ ← on_error (on_error (
        _ ← _checkpoint;
        _ ← sys_fsync_dir (tail p);
        _ ← sys_unlink temporary;
        sys_fsync_dir tmp_dir) (withdraw_failed st key)) cleanup;
  _ ← on_error (_clear_inventory_withdrawal key) (withdraw_failed st key);
  od ← _open_chunk st false key;
  ret od.2.

(** The transfer ranges of a payload. *)
Definition transfer_pieces (slot : Z) (data : list byte) : list (list byte) :=
  (λ i, take (Z.to_nat slot) (drop (i * Z.to_nat slot) data))
    <$> seq 0 (Z.to_nat (ceil_blocks (Z.of_nat (length data)) slot)).

Definition payload_digest (data : list byte) (hashes : list pystr) : pystr :=
  match hashes with [one] => one | _ => sha256_hex data end.

Definition parent_json (parent : option pystr) : json :=
  match parent with Some p => JStr p | None => JNull end.

Definition commit_chunk (st : TokenFileStore) (key : pystr) (parent : option pystr) (span : Z)
    (data : list byte) (kind : file_kind) : IO TokenFileDescriptor :=
  exclusive (
    let hashes := sha256_hex <$> transfer_pieces (st_slot_bytes st) data in
    h ← lift (_header_payload st key (parent_json parent) (JInt span) (JStr (payload_digest data hashes))
                (JStr (kind_name kind)) (Some (JArr (JStr <$> hashes))));
    _ ← guard_io (negb (Z.of_nat (length data) =? hd_length h)) ManifestError
          "captured token payload differs from geometry";
    _publish_chunk st key h (λ ino header, _write_vector ino 0 [header; data])).

(** The body of [commit_stream]'s writer: one range after another.  Producing a range may
    raise; the result is the ranges consumed. *)
Fixpoint write_pieces (ino : nat) (slot : Z) (pos : nat) (remaining : Z) (pieces : list (result (list byte)))
    : IO (list (list byte)) :=
  match pieces with
  | [] => _ ← guard_io (negb (remaining =? 0)) ManifestError "captured token stream is incomplete"; ret []
  | piece :: pieces =>
      view ← lift piece;
      let len := Z.min remaining slot in
      _ ← guard_io ((len <=? 0) || negb (Z.of_nat (length view) =? len)) ManifestError
            "captured transfer range differs from geometry";
      _ ← _write_vector ino pos [view];
      _ ← _checkpoint;
      views ← write_pieces ino slot (pos + length view) (remaining - len) pieces;
      ret (view :: views)
  end.

Definition with_digests (h : header) (digest : pystr) (hashes : list pystr) : header :=
  Header (hd_kind h) (hd_key h) (hd_parent h) (hd_span h) (hd_segments h) (hd_length h) digest hashes.

Definition commit_stream (st : TokenFileStore) (key : pystr) (parent : option pystr) (span : Z)
    (pieces : list (result (list byte))) (kind : file_kind) : IO TokenFileDescriptor :=
  exclusive (
    h ← lift (_header_payload st key (parent_json parent) (JInt span) (JStr zero_digest)
                (JStr (kind_name kind)) None);
    _publish_chunk st key h (λ ino header,
      _ ← _write_vector ino 0 [header];
      views ← write_pieces ino (st_slot_bytes st) (length header) (hd_length h) pieces;
      let hashes := sha256_hex <$> views in
      final ← lift (_encode_header st
                (with_digests h (payload_digest (concat views) hashes) hashes));
      _ ← guard_io (negb (length final =? length header)%nat) ManifestError
            "streamed token header changed length";
      _write_vector ino 0 [final])).

(** ** Chains *)
Definition open_link (st : TokenFileStore) (key : pystr) : IO TokenFileDescriptor :=
  quarantining st key (od ← _open_chunk st false key; ret od.2).

(** The loop of [_chain], from the descriptor that was just opened. *)
Fixpoint chain_walk (fuel : nat) (st : TokenFileStore) (d : TokenFileDescriptor)
    (expected_span : option Z) (objects : list TokenFileDescriptor) : IO (list TokenFileDescriptor) :=
  _ ← guard_io (negb (bool_decide (td_kind d = KData))) ManifestError
        "state file is not a token-chain node";
  _ ← (match expected_span with
       | Some e =>
           if td_span_tokens d =? e then ret tt
           else _ ← _quarantine_bad st (td_key d); throw ManifestError "token chain is not consecutive"
       | None => ret tt
       end);
  match td_parent d with
  | None => ret (d :: objects)
  | Some k =>
      match fuel with
      | O => throw RuntimeError "chain walk"
      | S fuel =>
          d' ← open_link st k;
          chain_walk fuel st d' (Some (td_span_tokens d - st_chunk_tokens st)) (d :: objects)
      end
  end.

Definition chain_state (st : TokenFileStore) (entry_id : pystr) (span : Z) : IO TokenFileDescriptor :=
  state_key ← lift (boundary_state_key entry_id);
  quarantining st state_key
    (od ← _open_chunk st false state_key;
     _ ← guard_io (negb (bool_decide (td_kind od.2 = KState))
                   || negb (bool_decide (td_parent od.2 = Some entry_id))
                   || negb (td_span_tokens od.2 =? span)) ManifestError
           "boundary state differs from token chain";
     ret od.2).

Definition _chain (st : TokenFileStore) (entry_id : pystr) : IO TokenSnapshot :=
  d ← open_link st entry_id;
  objects ← chain_walk (Z.to_nat (td_span_tokens d / st_chunk_tokens st)) st d None [];
  _ ← guard_io (match objects with
                | first :: _ => negb (td_span_tokens first =? st_chunk_tokens st)
                | [] => true
                end) ManifestError "token chain has no beginning";
  let span := td_span_tokens d in
  tail ← (if has_boundary_state (st_layout st) then s ← chain_state st entry_id span; ret [s]
          else ret []);
  digest ← lift (layout_digest (st_layout st));
  let snapshot := Snapshot entry_id span VLLM_RUNTIME_KV_PROFILE digest (objects ++ tail) in
  _ ← lift (validate_manifest_coverage (st_layout st) snapshot);
  ret snapshot.

Record LookupResult := Lookup {
  is_hit : bool;
  lr_reason : pystr;
  lr_manifest : option TokenSnapshot;
  lr_digest : option pystr
}.

(** [snapshot.objects[-1].metadata_digest] *)
Definition last_digest (s : TokenSnapshot) : option pystr := td_metadata_digest <$> last (ts_objects s).

Fixpoint verify_objects (st : TokenFileStore) (l : list TokenFileDescriptor) : IO bool :=
  match l with
  | [] => ret true
  | d :: l =>
      v ← valid_chunk st (td_key d) (td_parent d) (td_span_tokens d) (td_kind d);
      match v with None => ret false | Some _ => verify_objects st l end
  end.

Definition lookup (st : TokenFileStore) (verify_payloads : bool) (entry_id : pystr) : IO LookupResult :=
  exclusive (
    _ ← _ensure_open;
    _ ← _manifest_path entry_id;
    try_with
      (snapshot ← _chain st entry_id;
       ok ← (if verify_payloads then verify_objects st (ts_objects snapshot) else ret true);
       if negb ok then ret (Lookup false (lit "token_payload") None None)
       else ret (Lookup true (lit "hit") (Some snapshot) (last_digest snapshot)))
      (λ e, if caught_by_OSError_ManifestError e
            then Some (ret (Lookup false (lit "token_chain") None None)) else None)).

Definition touch_files (descriptors : list TokenFileDescriptor) : IO unit :=
  exclusive (for_each (reverse descriptors) (λ d,
    p ← _manifest_path (td_key d); sys_utime p)).

(** ** Restore views: credits, pins and recency *)
Record RestoreView := View {
  rv_owner : nat;
  rv_descriptors : list TokenFileDescriptor;
  rv_result : LookupResult;
  rv_active : bool
}.

Definition view_objects (r : LookupResult) : list TokenFileDescriptor :=
  match lr_manifest r with Some s => if is_hit r then ts_objects s else [] | None => [] end.

Definition restore_view {A} (st : TokenFileStore) (entry_id : pystr) (body : RestoreView → IO A) : IO A :=
  p ← get_proc;
  _ ← guard_io (restore_credits p <=? 0) StoreBusyError "token restore credits exhausted";
  _ ← add_credits (-1);
  opened ← on_error
    (exclusive (
       result ← lookup st false entry_id;
       let objects := view_objects result in
       pin ← pins_acquire (td_key <$> objects);
       _ ← add_active 1;
       ret (pin, View (st_id st) objects result true)))
    (add_credits 1);
  finally
    (a ← body opened.2;
     _ ← (if is_hit (rv_result opened.2) then touch_files (rv_descriptors opened.2) else ret tt);
     ret a)
    (_ ← exclusive (add_active (-1));
     _ ← pins_release opened.1;
     add_credits 1).

(** ** Batched reads *)

(** One batch: at most 16 descriptors that share one slot. *)
Fixpoint take_batch (slot : Z) (count : nat) (bytes : Z) (l : list TokenFileDescriptor)
    : list TokenFileDescriptor * list TokenFileDescriptor :=
  match l with
  | [] => ([], [])
  | d :: rest =>
      if (MAX_BATCH_CHUNKS <=? count)%nat then ([], l)
      else if (0 <? Z.of_nat count) && (slot <? bytes + td_byte_length d) then ([], l)
      else let (b, r) := take_batch slot (S count) (bytes + td_byte_length d) rest in (d :: b, r)
  end.

Inductive transfer := Large (d : TokenFileDescriptor) | Batch (l : list TokenFileDescriptor).

Fixpoint plan_batches (fuel : nat) (slot : Z) (l : list TokenFileDescriptor) : list transfer :=
  match fuel, l with
  | O, _ | _, [] => []
  | S fuel, d :: rest =>
      if slot <? td_byte_length d then Large d :: plan_batches fuel slot rest
      else let (b, r) := take_batch slot 0 0 l in Batch b :: plan_batches fuel slot r
  end.

Definition _verify_buffer (st : TokenFileStore) (d : TokenFileDescriptor) (view : list byte) : IO unit :=
  let slot := Z.to_nat (st_slot_bytes st) in
  _ ← for_each (imap (λ i e, (i, e)) (td_block_sha256 d)) (λ ie,
        guard_io (negb (bool_decide (sha256_hex (take slot (drop (ie.1 * slot) view)) = ie.2)))
          ManifestError "token transfer block checksum differs");
  guard_io ((1 <? length (td_block_sha256 d))%nat && negb (bool_decide (sha256_hex view = td_sha256 d)))
    ManifestError "token payload checksum differs".

(** [_quarantine_bad] under the lock, after every credit has returned. *)
Definition quarantine_after {A} (st : TokenFileStore) (key : pystr) (m : IO A) : IO A :=
  try_with m (λ e,
    if caught_by_OSError_ManifestError e
    then Some (_ ← exclusive (_quarantine_bad st key); rethrow e) else None).

Definition reopen (st : TokenFileStore) (d : TokenFileDescriptor) : IO nat :=
  od ← _open_chunk st false (td_key d);
  _ ← guard_io (negb (bool_decide (od.2 = d))) ManifestError "pinned token metadata changed";
  ret od.1.

(** The receiver of a transfer: a context entered for one descriptor, called with each
    authenticated range in order, and left when the object is complete.  [D] is what it
    fills; when it raises, what it filled so far is of no further use. *)
Record Receiver (R D : Type) := MkReceiver {
  enter : TokenFileDescriptor → R;
  receive : R → list byte → D → result (R * D);
  leave : R → result unit
}.
#[global] Arguments enter {R D}.
#[global] Arguments receive {R D}.
#[global] Arguments leave {R D}.

Section streams.
Context {R D : Type} (st : TokenFileStore) (receiver : Receiver R D).

Fixpoint fold_io {A S} (f : A → S → IO S) (l : list A) (s : S) : IO S :=
  match l with [] => ret s | x :: l => s ← f x s; fold_io f l s end.

Definition stream_one (d : TokenFileDescriptor) (dev : D) : IO D :=
  quarantine_after st (td_key d)
    (ino ← reopen st d;
     view ← _read_small ino (Z.to_nat (td_payload_offset d)) (Z.to_nat (td_byte_length d));
     _ ← _verify_buffer st d view;
     rd ← lift (receive receiver (enter receiver d) view dev);
     _ ← lift (leave receiver rd.1);
     ret rd.2).

Fixpoint stream_blocks (ino pos : nat) (remaining : Z) (blocks : list pystr) (acc : list byte)
    (rd : R * D) : IO (Z * list byte * (R * D)) :=
  match blocks with
  | [] => ret (remaining, acc, rd)
  | expected :: blocks =>
      let len := Z.min remaining (st_slot_bytes st) in
      view ← _read_small ino pos (Z.to_nat len);
      _ ← guard_io (negb (bool_decide (sha256_hex view = expected))) ManifestError
            "token transfer block checksum differs";
      rd ← lift (receive receiver rd.1 view rd.2);
      stream_blocks ino (pos + Z.to_nat len) (remaining - len) blocks (acc ++ view) rd
  end.

Definition _stream_large_object (d : TokenFileDescriptor) (dev : D) : IO D :=
  quarantine_after st (td_key d)
    (ino ← reopen st d;
     r ← stream_blocks ino (Z.to_nat (td_payload_offset d)) (td_byte_length d)
           (td_block_sha256 d) [] (enter receiver d, dev);
     _ ← guard_io (negb (r.1.1 =? 0) || negb (bool_decide (sha256_hex r.1.2 = td_sha256 d))) ManifestError
           "token payload checksum differs";
     _ ← lift (leave receiver r.2.1);
     ret r.2.2).

Definition run_transfer (t : transfer) (dev : D) : IO D :=
  match t with
  | Large d => _stream_large_object d dev
  | Batch l => fold_io stream_one l dev
  end.

Definition stream_objects (descriptors : list TokenFileDescriptor) (lease : RestoreView)
    (pool_slot_bytes : Z) (dev : D) : IO D :=
  _ ← guard_io (negb (rv_owner lease =? st_id st)%nat || negb (rv_active lease)
                || negb (bool_decide (descriptors = rv_descriptors lease))) ValueError
        "token read requires its live, complete chain lease";
  _ ← guard_io (existsb (λ d, pool_slot_bytes <? Z.min (td_byte_length d) (st_slot_bytes st)) descriptors)
        ValueError "read credit is smaller than the file authentication unit";
  fold_io run_transfer (plan_batches (length descriptors) pool_slot_bytes descriptors) dev.
End streams.

(** ** The namespace *)

(** The keys one shard lists. *)
Definition manifest_key (shard name : pystr) : option pystr :=
  let n := length name in
  let key := take (n - 3) name in
  if bool_decide (drop (n - 3) name = lit ".kv") && is_digest key && bool_decide (take 2 name = shard)
  then Some key else None.

Definition shard_name (index : Z) : pystr := [hex_digit (index / 16); hex_digit (index mod 16)].

Definition shard_keys (index : Z) : IO (list pystr) :=
  let shard := shard_name index :: manifests_dir in
  link ← is_symlink shard;
  _ ← guard_io link ManifestError "token shard is a symlink";
  or_else FileNotFoundError []
    (l ← sys_scandir shard; ret (omap (manifest_key (shard_name index)) l)).

Fixpoint gather {A B} (f : A → IO (list B)) (l : list A) : IO (list B) :=
  match l with [] => ret [] | x :: l => a ← f x; b ← gather f l; ret (a ++ b) end.

Definition iter_manifest_paths : IO (list pystr) := gather shard_keys (seqZ 0 256).

Record ManifestOffer := Offer {
  of_entry_id : pystr;
  of_span_tokens : Z;
  of_manifest_digest : pystr;
  of_modified : Z
}.

Definition offer_of (st : TokenFileStore) (key : pystr) : IO (list ManifestOffer) :=
  try_with
    (od ← _open_chunk st false key; fs ← get_fs;
     ret [Offer (td_key od.2) (td_span_tokens od.2) (td_metadata_digest od.2) (mtime_of fs od.1)])
    (λ e, if caught_by_OSError_ManifestError e then Some (ret []) else None).

(** [heapq.nsmallest(limit, offers, key=(span, entry_id))] *)
Definition offer_leb (a b : ManifestOffer) : bool :=
  (of_span_tokens a <? of_span_tokens b)
  || ((of_span_tokens a =? of_span_tokens b) && str_leb (of_entry_id a) (of_entry_id b)).
Definition offer_le (a b : ManifestOffer) : Prop := offer_leb a b = true.
#[global] Instance offer_le_dec : RelDecision offer_le.
Proof. intros a b. unfold offer_le. apply _. Defined.

Definition scan_offers (st : TokenFileStore) (limit : Z) : IO (list ManifestOffer) :=
  limit ← lift (_positive (JInt limit) MAX_SPAN "invalid token file inventory selection size");
  exclusive (
    keys ← iter_manifest_paths;
    offers ← gather (offer_of st) keys;
    ret (take (Z.to_nat limit) (merge_sort offer_le offers))).

Definition evict (st : TokenFileStore) (key : pystr) : IO bool :=
  exclusive (
    busy ← pins_busy key;
    if (busy : bool) then ret false
    else
      p ← _manifest_path key;
      present ← sys_exists p;
      if negb present then ret false
      else
        _ ← _mark_inventory_withdrawn key;
        _ ← _record_withdrawal (st_hooks st) key;
        _ ← sys_unlink p;
        _ ← sys_fsync_dir (tail p);
        ret true).

(** ** Capacity maintenance *)
Record CapacityBatchReport := CapacityReport {
  bytes_before : Z;
  bytes_after : Z;
  manifests_removed : Z;
  objects_removed : Z;
  bytes_reclaimed : Z;
  candidates_attempted : Z;
  candidates_remaining : Z
}.

Definition disk_usage_bytes : IO Z := _managed_tree_bytes manifests_dir.

(** Every live key counts; an unpinned one is a candidate with its recency. *)
Fixpoint gc_candidates (keys : list pystr) : IO (Z * list (Z * pystr)) :=
  match keys with
  | [] => ret (0, [])
  | key :: keys =>
      found ← or_else FileNotFoundError None
                (n ← sys_lstat (manifest_path key); fs ← get_fs;
                 ret (Some (match n with NFile ino => mtime_of fs ino | _ => 0 end)));
      match found with
      | None => gc_candidates keys
      | Some modified =>
          busy ← pins_busy key;
          rest ← gc_candidates keys;
          ret (rest.1 + 1, if (busy : bool) then rest.2 else (modified, key) :: rest.2)
      end
  end.

Definition age_leb (a b : Z * pystr) : bool :=
  (a.1 <? b.1) || ((a.1 =? b.1) && str_leb a.2 b.2).
Definition age_le (a b : Z * pystr) : Prop := age_leb a b = true.
#[global] Instance age_le_dec : RelDecision age_le.
Proof. intros a b. unfold age_le. apply _. Defined.

Fixpoint evict_each (st : TokenFileStore) (keys : list pystr) : IO Z :=
  match keys with
  | [] => ret 0
  | key :: keys => b ← evict st key; n ← evict_each st keys; ret ((if (b : bool) then 1 else 0) + n)
  end.

Definition maintain_capacity_batch (st : TokenFileStore) (trigger_bytes remaining_candidates : pyval)
    : IO (option CapacityBatchReport) :=
  trigger ← lift (need_int trigger_bytes (λ z, negb ((0 <? z) && (z <=? MAX_SPAN))) ManifestError
                    "invalid token file GC trigger");
  remaining ← lift (need_int remaining_candidates (λ z, z <? 0) ValueError "invalid token GC quota");
  try_exclusive (
    before ← disk_usage_bytes;
    if (remaining =? 0) && (before <? trigger) then ret (CapacityReport before before 0 0 0 0 0)
    else
      keys ← iter_manifest_paths;
      found ← gc_candidates keys;
      let selected := take 4 (merge_sort age_le found.2) in
      let quota := if remaining =? 0 then Z.max 1 (found.1 / 5) else remaining in
      let chosen := take (Z.to_nat quota) selected in
      removed ← evict_each st chosen.*2;
      after ← disk_usage_bytes;
      let attempted := Z.of_nat (length chosen) in
      let left := if Z.min 4 quota <=? Z.of_nat (length selected)
                  then Z.max 0 (quota - attempted) else 0 in
      ret (CapacityReport before after removed removed (Z.max 0 (before - after)) attempted left)).

(** ** Recovery of abandoned temporaries *)
Definition own_part (name : pystr) : bool :=
  bool_decide (take 6 name = lit "token-") && bool_decide (drop (length name - 5) name = lit ".part").

Fixpoint recover_loop (fuel : nat) (removed : Z) : IO Z :=
  l ← sys_scandir tmp_dir;
  match take 64 (filter (λ n, own_part n = true) l) with
  | [] => ret removed
  | batch =>
      match fuel with
      | O => throw RuntimeError "recovery loop"
      | S fuel =>
          _ ← for_each batch (λ n, ignoring FileNotFoundError (sys_unlink (n :: tmp_dir)));
          recover_loop fuel (removed + Z.of_nat (length batch))
      end
  end.

Definition recover : IO Z :=
  exclusive (
    fs ← get_fs;
    removed ← recover_loop (length (children fs tmp_dir)) 0;
    _ ← (if 0 <? removed then sys_fsync_dir tmp_dir else ret tt);
    ret removed).
End files.
