(* ===== verification/TokenHeader.v ===== *)
(** * Headers and payloads of token files

    What [_open_chunk] and [_authenticate] accept, as functions of the bytes of a
    file, and the round trip: what publication writes is what they accept. *)
From S2P Require Import Prelude Dict Bytes Utf8 Json Identity Hma Manifest Io RankStore IoSpec FsInv TokenFiles.

(** ** Packing *)
Lemma pack_I_spec z l : pack_I z = Ok l ↔ 0 ≤ z < 2 ^ 32 ∧ l = le_pack 4 z.
Proof.
  unfold pack_I, raise. case_match eqn:E; bsimp; (split; [|intros [? ->]; try lia; done]); [|done].
  intros H. split; [lia|]. congruence.
Qed.

Lemma od_get_sort_keys {V} (l : list (pystr * V)) k : NoDup l.*1 → od_get k (sort_keys l) = od_get k l.
Proof.
  intros Hnd. destruct (od_get k l) as [v|] eqn:E.
  - apply od_get_elem; [by rewrite sort_keys_perm|]. rewrite sort_keys_perm. by apply od_get_elem.
  - apply od_get_None. rewrite sort_keys_perm. by apply od_get_None.
Qed.

Lemma od_get_map_canon k (l : list (pystr * json)) :
  od_get k (map (λ p, (p.1, canon p.2)) l) = canon <$> od_get k l.
Proof. induction l as [|[k' v] l IH]; cbn; [done|]. by case_decide. Qed.

(** ** Transfer ranges *)
Lemma ceil_blocks_step n slot : 0 < slot → 0 < n → ceil_blocks n slot = 1 + ceil_blocks (Z.max 0 (n - slot)) slot.
Proof.
  intros Hs Hn. unfold ceil_blocks. destruct (Z.max_spec 0 (n - slot)) as [[? ->]|[? ->]].
  - replace (n + slot - 1) with (n - slot + slot - 1 + 1 * slot) by lia. rewrite Z.div_add by lia. lia.
  - rewrite (Z.div_small (0 + slot - 1)) by lia. symmetry. apply Z.div_unique with (n - 1); lia.
Qed.

Lemma transfer_pieces_nil slot : 0 < slot → transfer_pieces slot [] = [].
Proof.
  intros Hs. unfold transfer_pieces, ceil_blocks. cbn.
  rewrite (Z.div_small (slot - 1)) by lia. done.
Qed.

Lemma transfer_pieces_cons slot data :
  0 < slot → data ≠ [] →
  transfer_pieces slot data = take (Z.to_nat slot) data :: transfer_pieces slot (drop (Z.to_nat slot) data).
Proof.
  intros Hs Hd. assert (0 < Z.of_nat (length data)) by (destruct data; [done|cbn; lia]).
  unfold transfer_pieces at 1. rewrite ceil_blocks_step by lia.
  assert (0 ≤ ceil_blocks (Z.max 0 (Z.of_nat (length data) - slot)) slot)
    by (unfold ceil_blocks; apply Z.div_pos; lia).
  rewrite Z2Nat.inj_add by lia. cbn [Nat.add seq Z.to_nat].
  change (Z.to_nat 1) with 1%nat. cbn [Nat.add seq]. rewrite fmap_cons. f_equal.
  unfold transfer_pieces. rewrite length_drop, <-fmap_S_seq, <-list_fmap_compose.
  replace (Z.of_nat (length data - Z.to_nat slot)) with (Z.max 0 (Z.of_nat (length data) - slot)) by lia.
  apply list_fmap_ext. intros i x _. cbn. by rewrite drop_drop.
Qed.

Section header.
Context `{Sha, Uuid, JsonLoads} (st : TokenFileStore).

(** ** The inputs of an accepted header *)
Lemma positive_Ok v m msg z : _positive v m msg = Ok z ↔ v = JInt z ∧ 0 < z ≤ m.
Proof.
  unfold _positive, raise. destruct v; try (split; [done|by intros [? _]]).
  case_match eqn:E; bsimp; split; try done.
  - by intros [= ->].
  - by intros [[= ->] _].
  - intros [[= ->] ?]. lia.
Qed.

Lemma need_digest_Ok v msg s : need_digest v msg = Ok s ↔ v = JStr s ∧ is_digest s = true.
Proof.
  unfold need_digest, as_digest, raise. destruct v; try (split; [done|by intros [? _]]).
  case_match eqn:E; case_match; simplify_eq; (split; [try done|]); try (by intros [[= ->] ?]; congruence).
  - by intros [= ->].
Qed.

Lemma header_blocks_Ok blocks digest table hashes :
  0 < blocks → header_blocks blocks digest table = Ok hashes →
  Z.of_nat (length hashes) = blocks ∧ (blocks = 1 → hashes = [digest]) ∧
  (∀ t, table = Some t → t = JArr (JStr <$> hashes) ∧ Forall (λ s, is_digest s = true) hashes).
Proof.
  intros Hb. unfold header_blocks. intros Hh. cbv zeta in Hh. inv_ok.
  assert (Hone : blocks = 1 → hashes = [digest]).
  { intros ->. match goal with E : (_ && _) = false |- _ =>
      apply andb_false_iff in E as [E|E]; bsimp; [lia|done] end. }
  destruct table as [t|]; inv_ok.
  - destruct t; inv_ok. bsimp.
    match goal with E : Forall2 _ l hashes |- _ => rename E into Hl end.
    split_and!; [by rewrite <-(Forall2_length _ _ _ Hl)|done|]. intros t [= <-]. clear -Hl. split.
    + f_equal. induction Hl as [|v s l k Hv _ IH]; [done|]. apply need_digest_Ok in Hv as [-> _].
      rewrite fmap_cons. by f_equal.
    + induction Hl as [|v s l k Hv _ IH]; constructor; [by apply need_digest_Ok in Hv as [_ ?]|done].
  - split_and!; [rewrite length_replicate; lia|done|done].
Qed.

(** An accepted header determines its inputs. *)
Record header_from (key : pystr) (parent span digest kind : json) (table : option json) (h : header) : Prop := {
  hf_key : key = hd_key h;
  hf_parent : parent = parent_json (hd_parent h);
  hf_span : span = JInt (hd_span h);
  hf_digest : digest = JStr (hd_sha256 h);
  hf_kind : kind = JStr (kind_name (hd_kind h));
  hf_table : ∀ t, table = Some t → t = JArr (JStr <$> hd_blocks h);
  hf_is_key : is_digest (hd_key h) = true;
  hf_positive : 0 < hd_span h ≤ MAX_SPAN;
  hf_chunk : hd_span h mod st_chunk_tokens st = 0;
  hf_is_digest : is_digest (hd_sha256 h) = true;
  hf_segments : token_segments (st_layout st) (hd_span h) (st_chunk_tokens st) (hd_kind h) = Ok (hd_segments h);
  hf_length : hd_length h = foldr Z.add 0 (sl_byte_length <$> hd_segments h);
  hf_blocks : Z.of_nat (length (hd_blocks h)) = ceil_blocks (hd_length h) (st_slot_bytes st) ∧
              0 < ceil_blocks (hd_length h) (st_slot_bytes st) ≤ MAX_TRANSFER_BLOCKS;
  hf_single : ceil_blocks (hd_length h) (st_slot_bytes st) = 1 → hd_blocks h = [hd_sha256 h];
  hf_link : match hd_kind h with
            | KData => match hd_parent h with
                       | None => hd_span h = st_chunk_tokens st
                       | Some p => is_digest p = true ∧ st_chunk_tokens st < hd_span h
                       end
            | KState => has_boundary_state (st_layout st) = true ∧
                        ∃ p, hd_parent h = Some p ∧ is_digest p = true ∧ boundary_state_key p = Ok (hd_key h)
            end
}.

Lemma header_parent_Ok key parent span kind k p :
  header_parent st key parent span kind = Ok (k, p) →
  parent = parent_json p ∧ kind = JStr (kind_name k) ∧
  match k with
  | KData => match p with
             | None => span = st_chunk_tokens st
             | Some p => is_digest p = true ∧ st_chunk_tokens st < span
             end
  | KState => has_boundary_state (st_layout st) = true ∧
              ∃ q, p = Some q ∧ is_digest q = true ∧ boundary_state_key q = Ok key
  end.
Proof.
  unfold header_parent. destruct kind as [| | |s| |]; try done. case_bool_decide as Hs.
  - intros Hh. cbv zeta in Hh. inv_ok. simplify_eq.
    match goal with E : need_digest _ _ = Ok _ |- _ => apply need_digest_Ok in E as [-> ?] end. bsimp.
    destruct_and?. subst. split_and!; [done|done|done|]. eexists. by split_and!.
  - case_bool_decide as Hd; [|done]. subst. case_match eqn:E1; bsimp.
    + destruct parent; try done. intros Hh. inv_ok. by simplify_eq.
    + case_match eqn:E2; [|done]. intros Hh. inv_ok. simplify_eq. bsimp.
      match goal with E : need_digest _ _ = Ok _ |- _ => apply need_digest_Ok in E as [-> ?] end.
      by split_and!.
Qed.

Lemma header_payload_Ok key parent span digest kind table h :
  _header_payload st key parent span digest kind table = Ok h →
  header_from key parent span digest kind table h.
Proof.
  unfold _header_payload. intros Hh. cbv zeta in Hh. inv_ok.
  repeat match goal with
  | E : _positive _ _ _ = Ok _ |- _ => apply positive_Ok in E as [? ?]
  | E : need_digest _ _ = Ok _ |- _ => apply need_digest_Ok in E as [? ?]
  end. simplify_eq.
  match goal with E : header_parent _ _ _ _ _ = Ok ?kp |- _ => destruct kp as [k p];
    apply header_parent_Ok in E as (? & ? & ?) end.
  match goal with E : header_blocks _ _ _ = Ok _ |- _ => apply header_blocks_Ok in E as (? & ? & Ht); [|lia] end.
  bsimp. destruct_and?. constructor; cbn in *; try done.
  by intros t [? _]%Ht.
Qed.

(** The same inputs, read back from the header, give the same header. *)
Lemma header_payload_again key parent span digest kind t h :
  _header_payload st key parent span digest kind (Some t) = Ok h →
  _header_payload st (hd_key h) (parent_json (hd_parent h)) (JInt (hd_span h)) (JStr (hd_sha256 h))
    (JStr (kind_name (hd_kind h))) (Some (JArr (JStr <$> hd_blocks h))) = Ok h.
Proof.
  intros Hh. pose proof (header_payload_Ok _ _ _ _ _ _ _ Hh) as Hf.
  by rewrite <-(hf_key _ _ _ _ _ _ _ Hf), <-(hf_parent _ _ _ _ _ _ _ Hf), <-(hf_span _ _ _ _ _ _ _ Hf),
    <-(hf_digest _ _ _ _ _ _ _ Hf), <-(hf_kind _ _ _ _ _ _ _ Hf), <-(hf_table _ _ _ _ _ _ _ Hf t eq_refl).
Qed.

(** A placeholder header, filled with the checksums of the streamed ranges. *)
Lemma header_payload_filled key parent span digest kind h sha hashes :
  _header_payload st key parent span digest kind None = Ok h →
  is_digest sha = true → Forall (λ s, is_digest s = true) hashes →
  Z.of_nat (length hashes) = ceil_blocks (hd_length h) (st_slot_bytes st) →
  (∀ one, hashes = [one] → sha = one) →
  _header_payload st (hd_key h) (parent_json (hd_parent h)) (JInt (hd_span h)) (JStr sha)
    (JStr (kind_name (hd_kind h))) (Some (JArr (JStr <$> hashes))) = Ok (with_digests h sha hashes).
Proof.
  intros Hh Hsha Hhashes Hlen Hone. pose proof (header_payload_Ok _ _ _ _ _ _ _ Hh) as Hf.
  rewrite <-(hf_key _ _ _ _ _ _ _ Hf), <-(hf_parent _ _ _ _ _ _ _ Hf), <-(hf_span _ _ _ _ _ _ _ Hf),
    <-(hf_kind _ _ _ _ _ _ _ Hf). destruct Hf. unfold _header_payload in *. cbv zeta in *. inv_ok.
  repeat match goal with
  | E : _positive _ _ _ = Ok _ |- _ => apply positive_Ok in E as [? ?]
  | E : need_digest _ _ = Ok _ |- _ => apply need_digest_Ok in E as [? ?]
  end. simplify_eq. cbn [hd_span hd_kind hd_key hd_parent hd_segments hd_length hd_sha256 hd_blocks] in *.
  assert (E1 : ∀ z m msg, 0 < z ≤ m → _positive (JInt z) m msg = Ok z) by (intros; by apply positive_Ok).
  assert (E2 : ∀ s msg, is_digest s = true → need_digest (JStr s) msg = Ok s) by (intros; by apply need_digest_Ok).
  rewrite E1 by done. cbn [mbind result_bind].
  match goal with E : (_ || _) = false |- _ => rewrite E end. cbn [raise_if mbind result_bind].
  rewrite E2 by done. cbn [mbind result_bind].
  match goal with E : header_parent _ _ _ _ _ = Ok _ |- _ => rewrite E end. cbn [mbind result_bind].
  match goal with E : token_segments _ _ _ _ = Ok _ |- _ => rewrite E end. cbn [mbind result_bind].
  rewrite E1 by done. cbn [mbind result_bind].
  match goal with |- context [header_blocks ?b sha ?t] =>
    assert (header_blocks b sha t = Ok hashes) as ->; [|done] end.
  unfold header_blocks. cbv zeta. rewrite length_fmap, Hlen, Z.eqb_refl. cbn [negb raise_if mbind result_bind].
  assert (mapM_result (λ v, need_digest v "token transfer checksums differ from geometry") (JStr <$> hashes)
          = Ok hashes) as ->.
  { apply mapM_result_Ok. clear -Hhashes E2. induction Hhashes; constructor; auto. }
  cbn [mbind result_bind]. unfold raise_if. destruct (_ && _) eqn:E; [|done]. bsimp. destruct E as [Eb Eh].
  destruct Eh. rewrite Eb in Hlen. destruct hashes as [|one [|]]; cbn in Hlen; try lia. by rewrite (Hone one).
Qed.
End header.

(** ** The bytes of a file *)
Section bytes.
Context `{Sha, Uuid, JsonLoads} (st : TokenFileStore).

(** The metadata that [_open_chunk] reads from the bytes of a file. *)
Definition parse_file (key : pystr) (data : list byte) : result TokenFileDescriptor :=
  let frame := take FRAME_SIZE data in
  let checksum := drop 12 frame in
  _ ← raise_if (length data <? FRAME_SIZE)%nat ManifestError "truncated token file";
  _ ← raise_if (negb (bool_decide (take 8 frame = MAGIC))) ManifestError "token file magic differs";
  size ← _positive (JInt (le_unpack (take 4 (drop 8 frame)))) MAX_HEADER_BYTES
           "invalid token file header length";
  let offset := (FRAME_SIZE + Z.to_nat size)%nat in
  let encoded := take (Z.to_nat size) (drop FRAME_SIZE data) in
  _ ← raise_if (length data <? offset)%nat ManifestError "truncated token file";
  _ ← raise_if (negb (bool_decide (sha256 encoded = checksum))) ManifestError
        "token header checksum differs";
  h ← decode_header st key encoded;
  len ← _positive (JInt (hd_length h)) (st_slot_bytes st * MAX_TRANSFER_BLOCKS)
          "invalid token file payload length";
  _ ← raise_if (negb (Z.of_nat (length data) =? Z.of_nat offset + len)) ManifestError
        "token stored length differs";
  Ok (descriptor h offset checksum).

(** Every transfer block and the whole payload have the recorded checksums. *)
Definition payload_authentic (d : TokenFileDescriptor) (data : list byte) : Prop :=
  let payload := drop (Z.to_nat (td_payload_offset d)) data in
  Z.of_nat (length payload) = td_byte_length d ∧
  sha256_hex <$> transfer_pieces (st_slot_bytes st) payload = td_block_sha256 d ∧
  sha256_hex payload = td_sha256 d.

(** A complete file of a key. *)
Definition complete_file (key : pystr) (data : list byte) : Prop :=
  ∃ d, parse_file key data = Ok d ∧ payload_authentic d data.

Lemma k_is_symlink I p : keeps I (is_symlink p).
Proof. unfold is_symlink. io_keeps. Qed.

Lemma k_open_chunk I aw key : keeps I (_open_chunk st aw key).
Proof. pose proof (k_is_symlink I). unfold _open_chunk. io_keeps. Qed.

(** A successful opening, against an unchanged file system. *)
Lemma open_chunk_Ret aw key w od w' :
  _open_chunk st aw key w = (Ret od, w') →
  is_digest key = true ∧ w_fs w' = w_fs w ∧
  live (w_fs w) (manifest_path key) = Some (NFile od.1) ∧
  parse_file key (data_of (w_fs w) od.1) = Ok od.2.
Proof.
  intros Hr. assert (Hfs : w_fs w' = w_fs w).
  { pose proof (keeps_fs (_open_chunk st aw key) w (λ I, k_open_chunk I aw key)) as Hk. by rewrite Hr in Hk. }
  revert Hr. unfold _open_chunk, _manifest_path. destruct (is_digest key) eqn:Hd; [|intros Hr; inv_io].
  intros Hr. apply bind_Ret in Hr as (p & w1 & Hp & Hr). apply ret_Ret in Hp as [-> ->].
  apply bind_Ret in Hr as (wd & w1 & R1 & Hr).
  apply bind_Ret in Hr as (? & w2 & R2 & Hr). apply guard_Ret in R2 as [_ ->].
  apply bind_Ret in Hr as (link & w3 & R3 & Hr).
  apply bind_Ret in Hr as (? & w4 & R4 & Hr). apply guard_Ret in R4 as [_ ->].
  apply bind_Ret in Hr as (n & w5 & R5 & Hr). apply open_Ret in R5 as [Hl R5].
  assert (F1 : w_fs w1 = w_fs w).
  { assert (Hk : w_fs ((if aw then ret false else _inventory_is_withdrawn key) w).2 = w_fs w).
    { apply keeps_fs. intros I. destruct aw; io_keeps. } by rewrite R1 in Hk. }
  assert (F3 : w_fs w3 = w_fs w1).
  { pose proof (keeps_fs _ w1 (λ I, k_is_symlink I (tail (manifest_path key)))) as Hk. by rewrite R3 in Hk. }
  rewrite F3, F1 in Hl. destruct n as [ino| |]; [|by inv_io|by inv_io].
  inv_io.
  repeat match goal with E : _read_small _ _ _ _ = (Ret _, _) |- _ =>
    apply read_small_Ret in E as (? & ? & ?) end.
  assert (F5 : w_fs w5 = w_fs w) by congruence.
  repeat match goal with E : w_fs ?a = w_fs ?b |- _ => rewrite E in *; clear E end.
split_and!; [done|done|done|]. cbn [fst snd]. subst. rewrite drop_0 in *.
  unfold parse_file. cbv zeta.
  set (data := data_of (w_fs w) ino) in *.
  match goal with E : _positive (JInt (le_unpack _)) _ _ = Ok ?z |- _ => pose proof E as Hsize;
    apply positive_Ok in E as [_ ?] end.
  assert ((length data <? FRAME_SIZE)%nat = false) as -> by (apply Nat.ltb_ge; lia).
  assert ((length data <? FRAME_SIZE + Z.to_nat x7)%nat = false) as Hlen by (apply Nat.ltb_ge; lia).
  repeat match goal with
  | E : negb _ = false |- _ => rewrite E; cbn [raise_if mbind result_bind]; clear E
  | E : _positive _ _ _ = Ok _ |- _ => rewrite E; cbn [raise_if mbind result_bind]; clear E
  | E : decode_header _ _ _ = Ok _ |- _ => rewrite E; cbn [raise_if mbind result_bind]; clear E
  | |- context [(length data <? _)%nat] => rewrite Hlen; cbn [raise_if mbind result_bind]
  | _ => progress cbn [raise_if mbind result_bind]
  end. done.
Qed.

Lemma open_chunk_unmarked key w od w' :
  _open_chunk st false key w = (Ret od, w') → ∃ w1, _inventory_is_withdrawn key w = (Ret false, w1).
Proof.
  unfold _open_chunk, _manifest_path. destruct (is_digest key); [|intros Hr; inv_io].
  intros Hr. apply bind_Ret in Hr as (p & w1 & Hp & Hr). apply ret_Ret in Hp as [-> ->].
  apply bind_Ret in Hr as (wd & w1 & Hw & Hr).
  apply bind_Ret in Hr as (? & w2 & Hg & Hr). apply guard_Ret in Hg as [-> ->]. by exists w1.
Qed.

(** ** Authentication *)
Lemma k_authenticate_blocks I ino slot pos rem blocks acc : keeps I (authenticate_blocks ino slot pos rem blocks acc).
Proof. revert pos rem acc; induction blocks as [|e l IH]; intros pos rem acc; cbn [authenticate_blocks]; io_keeps. Qed.

Lemma k_authenticate I ino d : keeps I (_authenticate st ino d).
Proof. unfold _authenticate. apply k_bind; [apply k_authenticate_blocks|intros ?; apply k_guard]. Qed.

Lemma ceil_blocks_zero slot : 0 < slot → ceil_blocks 0 slot = 0.
Proof. intros Hs. unfold ceil_blocks. apply Z.div_small. lia. Qed.

Lemma ceil_blocks_pos n slot : 0 < slot → 0 < n → 0 < ceil_blocks n slot.
Proof. intros Hs Hn. unfold ceil_blocks. apply Z.div_str_pos. lia. Qed.

Lemma authenticate_blocks_Ret ino slot pos remaining blocks acc w r w' :
  0 < slot → 0 ≤ remaining → Z.of_nat (length blocks) = ceil_blocks remaining slot →
  authenticate_blocks ino slot pos remaining blocks acc w = (Ret r, w') →
  let payload := take (Z.to_nat remaining) (drop pos (data_of (w_fs w) ino)) in
  r.1 = 0 ∧ Z.of_nat (length payload) = remaining ∧ r.2 = acc ++ payload ∧
  sha256_hex <$> transfer_pieces slot payload = blocks.
Proof.
  intros Hs. revert pos remaining acc w; induction blocks as [|e blocks IH]; intros pos remaining acc w Hr Hlen;
    cbn [authenticate_blocks]; intros Hrun.
  - apply ret_Ret in Hrun as [-> ->].
    assert (remaining = 0) as ->.
    { destruct (decide (0 < remaining)); [|lia]. pose proof (ceil_blocks_pos remaining slot Hs ltac:(done)).
      cbn in Hlen. lia. }
    cbn. by rewrite app_nil_r, transfer_pieces_nil.
  - assert (Hpos : 0 < remaining).
    { destruct (decide (0 < remaining)); [done|]. assert (remaining = 0) as -> by lia.
      rewrite ceil_blocks_zero in Hlen by done. cbn in Hlen. lia. }
    inv_io. match goal with E : _read_small _ _ _ _ = _ |- _ => apply read_small_Ret in E as (Hv & Hb & Hfs) end.
    set (data := data_of (w_fs w) ino) in *.
    set (n := Z.to_nat (Z.min remaining slot)) in *.
    apply IH in Hrun; [|lia|].
    2:{ rewrite ceil_blocks_step in Hlen by lia. cbn [length] in Hlen. rewrite Nat2Z.inj_succ in Hlen.
        replace (Z.max 0 (remaining - slot)) with (remaining - Z.min remaining slot) in Hlen by lia. lia. }
    cbv zeta in Hrun. rewrite Hfs in Hrun. fold data in Hrun. destruct Hrun as (H1' & H2' & H3' & H4').
    set (tl := take (Z.to_nat (remaining - Z.min remaining slot)) (drop (pos + n) data)) in *.
    assert (Hsplit : take (Z.to_nat remaining) (drop pos data) = x ++ tl).
    { subst x tl. rewrite <-drop_drop, take_take_drop. f_equal. subst n. lia. }
    assert (Hx : length x = n) by (subst x; rewrite length_take, length_drop; lia).
    rewrite Hsplit. split_and!; [done| | |].
    + rewrite length_app. subst n. lia.
    + rewrite H3'. by rewrite (assoc_L (++)).
    + bsimp. rewrite transfer_pieces_cons; [|done|].
      2:{ destruct x; [|done]. cbn in Hx. lia. }
      rewrite fmap_cons. f_equal.
      * match goal with E : sha256_hex x = e |- _ => rewrite <-E end. f_equal.
        destruct (decide (remaining ≤ slot)).
        -- assert (tl = []) as ->; [subst tl; replace (Z.to_nat _) with 0%nat by lia; by rewrite take_0|].
           rewrite app_nil_r. apply take_ge. lia.
        -- rewrite take_app_le by lia. apply take_ge. lia.
      * rewrite <-H4'. do 2 f_equal. destruct (decide (remaining ≤ slot)).
        -- assert (tl = []) as ->; [subst tl; replace (Z.to_nat _) with 0%nat by lia; by rewrite take_0|].
           rewrite app_nil_r. apply drop_ge. lia.
        -- replace (Z.to_nat slot) with (length x) by lia. by rewrite drop_app_length.
Qed.

(** The metadata of an opened file is consistent. *)
Lemma parse_file_Ok key data d :
  parse_file key data = Ok d →
  ∃ h, header_from st key (parent_json (hd_parent h)) (JInt (hd_span h)) (JStr (hd_sha256 h))
         (JStr (kind_name (hd_kind h))) (Some (JArr (JStr <$> hd_blocks h))) h ∧
       d = descriptor h (Z.to_nat (td_payload_offset d)) (take 32 (drop 12 data)) ∧
       Z.of_nat (length data) = td_payload_offset d + td_byte_length d ∧
       0 ≤ td_payload_offset d ∧ 0 < td_byte_length d.
Proof.
  unfold parse_file. intros Hp. cbv zeta in Hp. inv_ok.
  repeat match goal with E : _positive _ _ _ = Ok _ |- _ => apply positive_Ok in E as [? ?] end.
  match goal with E : decode_header _ _ _ = Ok ?h |- _ => rename E into Hdec; rename h into hd end.
  exists hd. simplify_eq. bsimp.
  assert (Hdrop : drop 12 (take FRAME_SIZE data) = take 32 (drop 12 data)) by by rewrite skipn_firstn_comm.
  unfold descriptor. cbn [td_payload_offset td_byte_length].
  rewrite Nat2Z.id, Hdrop. split_and!; [|done|lia|lia|lia].
  unfold decode_header in Hdec. destruct (json_loads _ ≫= _) as [h|e] eqn:Ed; [|by destruct (metadata_error e)].
  injection Hdec as ->. inv_ok. unfold check_header in *.
  match goal with E : match ?p with _ => _ end = Ok hd |- _ => destruct p; try discriminate E end. inv_ok.
  match goal with E : _header_payload _ _ _ _ _ _ _ = Ok hd |- _ => pose proof (header_payload_Ok st _ _ _ _ _ _ _ E) as Hf end.
  pose proof Hf as Hf'. destruct Hf'. subst.
  match goal with E : ∀ t, Some ?u = Some t → _ |- _ => pose proof (E u eq_refl); subst end. done.
Qed.

Lemma authenticate_Ret key ino d w w' :
  0 < st_slot_bytes st → parse_file key (data_of (w_fs w) ino) = Ok d →
  _authenticate st ino d w = (Ret tt, w') → payload_authentic d (data_of (w_fs w) ino).
Proof.
  intros Hs Hp. unfold _authenticate. intros Hr. inv_io.
  destruct (parse_file_Ok _ _ _ Hp) as (h & Hf & Hd & Hlen & Hoff & Hpos).
  match goal with E : authenticate_blocks _ _ _ _ _ _ _ = _ |- _ => apply authenticate_blocks_Ret in E; [|done|lia|] end.
  2:{ rewrite Hd. cbn [td_block_sha256 td_byte_length]. apply (hf_blocks _ _ _ _ _ _ _ _ Hf). }
  bsimp. destruct_and!. unfold payload_authentic. cbv zeta.
  set (data := data_of (w_fs w) ino) in *.
  assert (Htake : take (Z.to_nat (td_byte_length d)) (drop (Z.to_nat (td_payload_offset d)) data)
                  = drop (Z.to_nat (td_payload_offset d)) data).
  { apply take_ge. rewrite length_drop. lia. }
  rewrite Htake in *. cbn [app] in *. split_and!; [done|done|]. congruence.
Qed.
End bytes.

(** ** What publication writes is what opening accepts *)
Section roundtrip.
Context `{Sha, Uuid, JsonLoads} (st : TokenFileStore).

Lemma canon_strings l : canon (JArr (JStr <$> l)) = JArr (JStr <$> l).
Proof. cbn [canon]. f_equal. induction l as [|s l IH]; [done|]. cbn. by f_equal. Qed.

Lemma canon_parent p : canon (parent_json p) = parent_json p.
Proof. by destruct p. Qed.

Lemma header_fields h name v :
  od_get (lit name) match header_dict st h with JObj l => l | _ => [] end = Some v →
  field (match canon (header_dict st h) with JObj l => l | _ => [] end) name = Ok (canon v).
Proof.
  unfold header_dict. cbn [canon]. intros Hv. unfold field.
  rewrite od_get_sort_keys.
  - rewrite od_get_map_canon, Hv. done.
  - rewrite map_fst_canon. apply (bool_decide_eq_true_1 _). by vm_compute.
Qed.

Lemma check_header_again key parent span digest kind t h encoded :
  _header_payload st key parent span digest kind (Some t) = Ok h →
  canonical_json (header_dict st h) = Ok encoded →
  check_header st (hd_key h) (canon (header_dict st h)) = Ok h.
Proof.
  intros Hh He. pose proof (header_payload_again st _ _ _ _ _ _ _ Hh) as Ha.
  assert (Hc : canonical_json (canon (header_dict st h)) = Ok encoded).
  { unfold canonical_json in *. by rewrite print_canon. }
  pose proof (header_fields h "parent" _ eq_refl) as F1.
  pose proof (header_fields h "span_tokens" _ eq_refl) as F2.
  pose proof (header_fields h "sha256" _ eq_refl) as F3.
  pose proof (header_fields h "kind" _ eq_refl) as F4.
  pose proof (header_fields h "block_sha256" _ eq_refl) as F5.
  unfold check_header. destruct (canon (header_dict st h)) as [| | | | |l] eqn:Ec; try discriminate Ec.
  rewrite F1, F2, F3, F4, F5. cbn [mbind result_bind].
  change (match hd_parent h with Some p => JStr p | None => JNull end) with (parent_json (hd_parent h)).
  rewrite canon_parent, canon_strings. cbn [canon]. rewrite Ha. cbn [mbind result_bind].
  rewrite Hc, He. cbn [mbind result_bind]. by rewrite bool_decide_eq_true_2.
Qed.

Lemma encode_header_Ok h bytes :
  _encode_header st h = Ok bytes →
  ∃ encoded, canonical_json (header_dict st h) = Ok encoded ∧
    0 < Z.of_nat (length encoded) ≤ MAX_HEADER_BYTES ∧
    bytes = MAGIC ++ le_pack 4 (Z.of_nat (length encoded)) ++ sha256 encoded ++ encoded ∧
    length bytes = (FRAME_SIZE + length encoded)%nat.
Proof.
  unfold _encode_header. intros He. inv_ok.
  repeat match goal with E : _positive _ _ _ = Ok _ |- _ => apply positive_Ok in E as [[= <-] ?] end.
  match goal with E : pack_I _ = Ok _ |- _ => apply pack_I_spec in E as [_ ->] end.
  eexists. split_and!; [done|lia|lia|done|].
  rewrite !length_app, le_pack_length, sha256_length. change (length MAGIC) with 8%nat. unfold FRAME_SIZE. lia.
Qed.

(** A header of this store followed by a payload of its length is a file that opens
    as that header. *)
Lemma parse_encoded key parent span digest kind t h bytes payload :
  0 < st_slot_bytes st →
  _header_payload st key parent span digest kind (Some t) = Ok h →
  _encode_header st h = Ok bytes → Z.of_nat (length payload) = hd_length h →
  parse_file st key (bytes ++ payload) = Ok (descriptor h (length bytes) (take 32 (drop 12 bytes))).
Proof.
  intros Hs Hh He Hlen. pose proof (header_payload_Ok st _ _ _ _ _ _ _ Hh) as Hf.
  apply encode_header_Ok in He as (encoded & Hc & Hsize & -> & Hb).
  pose proof (check_header_again _ _ _ _ _ _ _ _ Hh Hc) as Hcheck. rewrite <-(hf_key _ _ _ _ _ _ _ _ Hf) in Hcheck.
  set (size := Z.of_nat (length encoded)) in *. set (sum := sha256 encoded) in *.
  assert (Hm : length MAGIC = 8%nat) by done.
  assert (Hp : length (le_pack 4 size) = 4%nat) by apply le_pack_length.
  assert (Hsum : length sum = 32%nat) by apply sha256_length.
  set (frame := MAGIC ++ le_pack 4 size ++ sum).
  assert (Hframe : length frame = FRAME_SIZE) by (unfold frame; rewrite !length_app, Hm, Hp, Hsum; done).
  assert (Hall : (MAGIC ++ le_pack 4 size ++ sum ++ encoded) ++ payload = frame ++ encoded ++ payload).
  { unfold frame. by rewrite <-!(assoc_L (++)). }
  assert (Hck : take 32 (drop 12 (MAGIC ++ le_pack 4 size ++ sum ++ encoded)) = sum).
  { rewrite (assoc_L (++) MAGIC), drop_app_length' by (rewrite length_app, Hm, Hp; done).
    by rewrite take_app_length'. }
  rewrite Hck, Hall. unfold parse_file. cbv zeta.
  assert (E1 : take FRAME_SIZE (frame ++ encoded ++ payload) = frame) by by rewrite take_app_length'.
  assert (E2 : take 8 frame = MAGIC) by (unfold frame; by rewrite take_app_length').
  assert (E3 : take 4 (drop 8 frame) = le_pack 4 size).
  { unfold frame. rewrite drop_app_length' by done. by rewrite take_app_length'. }
  assert (E4 : drop 12 frame = sum).
  { unfold frame. rewrite (assoc_L (++)), drop_app_length'; [done|]. rewrite length_app, Hm, Hp. done. }
  assert (E5 : drop FRAME_SIZE (frame ++ encoded ++ payload) = encoded ++ payload) by by rewrite drop_app_length'.
  assert (E6 : length (frame ++ encoded ++ payload) = (FRAME_SIZE + length encoded + length payload)%nat)
    by (rewrite !length_app; lia).
  rewrite E1, E2, E3, E4, E5, E6, le_unpack_pack, bool_decide_eq_true_2 by done.
  assert (size mod 256 ^ Z.of_nat 4 = size) as -> by (apply Z.mod_small; unfold MAX_HEADER_BYTES in Hsize; lia).
  assert (E7 : ∀ z m msg, 0 < z ≤ m → _positive (JInt z) m msg = Ok z) by (intros; by apply positive_Ok).
  rewrite (proj2 (Nat.ltb_ge _ _)) by lia. cbn [negb raise_if mbind result_bind].
  rewrite E7 by done. cbn [mbind result_bind].
  assert (Hn : Z.to_nat size = length encoded) by (unfold size; lia).
  rewrite Hn, take_app_length, (proj2 (Nat.ltb_ge _ _)) by lia. cbn [raise_if mbind result_bind].
  rewrite bool_decide_eq_true_2 by done. cbn [negb raise_if mbind result_bind].
  unfold decode_header. rewrite (proj1 (json_loads_canonical _ _ Hc)). cbn [mbind result_bind].
  rewrite Hcheck. cbn [mbind result_bind].
  assert (Hl : 0 < hd_length h ≤ st_slot_bytes st * MAX_TRANSFER_BLOCKS).
  { destruct (hf_blocks _ _ _ _ _ _ _ _ Hf) as [_ Hbl]. revert Hbl. unfold ceil_blocks, MAX_TRANSFER_BLOCKS.
    intros Hbl. Z.to_euclidean_division_equations. nia. }
  rewrite E7 by done. cbn [mbind result_bind].
  rewrite (proj2 (Z.eqb_eq _ _)) by lia. cbn [negb raise_if mbind result_bind].
  rewrite Hb. done.
Qed.

(** The file of an in-memory payload is complete. *)
Lemma committed_complete key parent span kind h bytes data :
  0 < st_slot_bytes st →
  _header_payload st key parent span
    (JStr (payload_digest data (sha256_hex <$> transfer_pieces (st_slot_bytes st) data))) kind
    (Some (JArr (JStr <$> (sha256_hex <$> transfer_pieces (st_slot_bytes st) data)))) = Ok h →
  _encode_header st h = Ok bytes → Z.of_nat (length data) = hd_length h →
  complete_file st key (bytes ++ data).
Proof.
  intros Hs Hh He Hlen. pose proof (header_payload_Ok st _ _ _ _ _ _ _ Hh) as Hf.
  eexists. split; [by eapply parse_encoded|].
  unfold payload_authentic, descriptor. cbn [td_payload_offset td_byte_length td_block_sha256 td_sha256].
  rewrite Nat2Z.id, drop_app_length.
  pose proof (hf_table _ _ _ _ _ _ _ _ Hf _ eq_refl) as Ht. injection Ht as Ht.
  pose proof (hf_digest _ _ _ _ _ _ _ _ Hf) as Hd. injection Hd as Hd.
  assert (Hb : hd_blocks h = sha256_hex <$> transfer_pieces (st_slot_bytes st) data).
  { symmetry. apply (list_fmap_eq_inj JStr); [by intros ? ? [=]|exact Ht]. }
  split_and!; [done|done|]. rewrite <-Hd. unfold payload_digest.
  destruct (hf_blocks _ _ _ _ _ _ _ _ Hf) as [Hn Hpos]. rewrite Hb in Hn.
  destruct (sha256_hex <$> transfer_pieces (st_slot_bytes st) data) as [|one [|two l]] eqn:El; try done.
  assert (Hne : data ≠ []).
  { intros ->. by rewrite transfer_pieces_nil in El by done. }
  rewrite transfer_pieces_cons in El by done. rewrite fmap_cons in El. injection El as <- El.
  rewrite take_ge; [done|]. apply fmap_nil_inv in El.
  destruct (decide (drop (Z.to_nat (st_slot_bytes st)) data = [])) as [Hnil|Hn'].
  - apply (f_equal length) in Hnil. rewrite length_drop in Hnil. cbn in Hnil. lia.
  - by rewrite transfer_pieces_cons in El by done.
Qed.

(** The ranges of a stream are the transfer ranges of their concatenation. *)
Fixpoint ranges_ok (slot remaining : Z) (pieces : list (list byte)) : Prop :=
  match pieces with
  | [] => remaining = 0
  | view :: pieces => 0 < Z.min remaining slot ∧ Z.of_nat (length view) = Z.min remaining slot ∧
                      ranges_ok slot (remaining - Z.min remaining slot) pieces
  end.

Lemma ranges_pieces slot remaining pieces :
  0 < slot → ranges_ok slot remaining pieces →
  transfer_pieces slot (concat pieces) = pieces ∧ Z.of_nat (length (concat pieces)) = remaining ∧ 0 ≤ remaining.
Proof.
  intros Hs. revert remaining; induction pieces as [|v pieces IH]; intros remaining; cbn [ranges_ok].
  - intros ->. split_and!; [by apply transfer_pieces_nil|done|done].
  - intros (Hpos & Hlen & (Hp & Hl & Hr)%IH). cbn [concat]. split_and!; [|rewrite length_app; lia|lia].
    rewrite transfer_pieces_cons; [|done|by destruct v; [cbn in Hlen; lia|]].
    destruct (decide (remaining ≤ slot)).
    + assert (concat pieces = []) as Hc by (apply nil_length_inv; lia).
      rewrite Hc, transfer_pieces_nil in Hp by done. subst pieces. rewrite Hc, app_nil_r.
      rewrite take_ge, drop_ge by lia. by rewrite transfer_pieces_nil.
    + rewrite take_app_length' by lia. rewrite drop_app_length' by lia. by rewrite Hp.
Qed.

(** The placeholder header of a stream, filled with its checksums. *)
Lemma filled_stream key parent span kind h pieces :
  0 < st_slot_bytes st →
  _header_payload st key parent span (JStr zero_digest) kind None = Ok h →
  ranges_ok (st_slot_bytes st) (hd_length h) pieces →
  let hashes := sha256_hex <$> pieces in
  _header_payload st (hd_key h) (parent_json (hd_parent h)) (JInt (hd_span h))
    (JStr (payload_digest (concat pieces) hashes)) (JStr (kind_name (hd_kind h)))
    (Some (JArr (JStr <$> hashes))) = Ok (with_digests h (payload_digest (concat pieces) hashes) hashes).
Proof.
  intros Hs Hh Hr hashes. destruct (ranges_pieces _ _ _ Hs Hr) as (Hp & Hlen & _).
  eapply header_payload_filled; [exact Hh| | | |].
  - unfold payload_digest, hashes. destruct pieces as [|p [|q l]]; cbn; apply sha256_hex_is_digest.
  - unfold hashes. apply Forall_fmap, Forall_forall. intros p _. apply sha256_hex_is_digest.
  - unfold hashes. rewrite length_fmap, <-Hlen, <-Hp at 1. unfold transfer_pieces.
    rewrite length_fmap, length_seq, Z2Nat.id; [done|]. unfold ceil_blocks. apply Z.div_pos; lia.
  - intros one Ho. unfold payload_digest. by rewrite Ho.
Qed.

(** The file of a streamed payload is complete. *)
Lemma streamed_complete key parent span kind h bytes pieces :
  0 < st_slot_bytes st →
  _header_payload st key parent span (JStr zero_digest) kind None = Ok h →
  ranges_ok (st_slot_bytes st) (hd_length h) pieces →
  let hashes := sha256_hex <$> pieces in
  _encode_header st (with_digests h (payload_digest (concat pieces) hashes) hashes) = Ok bytes →
  complete_file st key (bytes ++ concat pieces).
Proof.
  intros Hs Hh Hr hashes He. pose proof (header_payload_Ok st _ _ _ _ _ _ _ Hh) as Hf.
  destruct (ranges_pieces _ _ _ Hs Hr) as (Hp & Hlen & _).
  rewrite (hf_key _ _ _ _ _ _ _ _ Hf). pose proof (filled_stream _ _ _ _ _ _ Hs Hh Hr) as Hh'. cbv zeta in Hh'.
  assert (Hhash : hashes = sha256_hex <$> transfer_pieces (st_slot_bytes st) (concat pieces)) by by rewrite Hp.
  eapply committed_complete; [done| |exact He|exact Hlen].
  rewrite <-Hhash. exact Hh'.
Qed.
End roundtrip.
