(* ===== verification/TokenScrub.v ===== *)
(** * Resumable scrub of token files ([src/spoolcache/token_scrub.py])

    A durable cursor walks the keys in order; each step authenticates a bounded number of
    files, quarantines the ones that fail, releases the tombstones of the ones that pass,
    and writes the cursor after every file. *)
From S2P Require Import Prelude Dict Bytes Json Hma Manifest Io RankStore TokenFiles.

(** ** Durable state *)

(** [==] on decoded JSON: dictionaries ignore the order of their keys, and a Boolean is
    the number it converts to. *)
Definition number (v : json) : option Z :=
  match v with JBool b => Some (if b : bool then 1 else 0) | JInt z => Some z | _ => None end.

Fixpoint py_eq (a b : json) : bool :=
  match a, b with
  | JNull, JNull => true
  | JStr s, JStr t => bool_decide (s = t)
  | JArr l, JArr k =>
      (fix items l k := match l, k with
                        | [], [] => true
                        | x :: l, y :: k => py_eq x y && items l k
                        | _, _ => false
                        end) l k
  | JObj l, JObj k =>
      (length l =? length k)%nat &&
      (fix fields l := match l with
                       | [] => true
                       | (n, v) :: l =>
                           match od_get n k with Some u => py_eq v u | None => false end && fields l
                       end) l
  | JBool _, _ | JInt _, _ =>
      match number a, number b with Some x, Some y => x =? y | _, _ => false end
  | _, _ => false
  end.

(** [idle] and [files]; the statuses of a request, [SNone] for the empty string. *)
Inductive scrub_phase := Idle | Files.
Inductive scrub_status := SNone | SAuthenticated | SAbsent | SQuarantined.
#[export] Instance scrub_phase_eq_dec : EqDecision scrub_phase.
Proof. solve_decision. Defined.
#[export] Instance scrub_status_eq_dec : EqDecision scrub_status.
Proof. solve_decision. Defined.

Definition phase_name (p : scrub_phase) : pystr := match p with Idle => lit "idle" | Files => lit "files" end.
Definition status_name (s : scrub_status) : pystr :=
  match s with
  | SNone => [] | SAuthenticated => lit "authenticated" | SAbsent => lit "absent" | SQuarantined => lit "quarantined"
  end.

Definition phase_of (s : pystr) : option scrub_phase := head (filter (λ p, phase_name p = s) [Idle; Files]).
Definition status_of (s : pystr) : option scrub_status :=
  head (filter (λ x, status_name x = s) [SNone; SAuthenticated; SAbsent; SQuarantined]).

Record ScrubState := MkScrubState {
  ss_binding : json;
  ss_phase : scrub_phase;
  ss_cycle : Z;
  ss_cursor : pystr;
  ss_target : pystr;
  ss_completed : Z;
  ss_status : scrub_status
}.

Definition SCRUB_SCHEMA : pystr := lit "spoolcache-token-scrub/v1".

Definition scrub_dict (s : ScrubState) : json :=
  JObj [(lit "schema", JStr SCRUB_SCHEMA); (lit "binding", ss_binding s);
        (lit "phase", JStr (phase_name (ss_phase s))); (lit "cycle", JInt (ss_cycle s));
        (lit "cursor", JStr (ss_cursor s)); (lit "target_entry", JStr (ss_target s));
        (lit "last_completed_unix_ns", JInt (ss_completed s));
        (lit "last_request_status", JStr (status_name (ss_status s)))].

Definition scrub_fields : list pystr :=
  [lit "schema"; lit "binding"; lit "phase"; lit "cycle"; lit "cursor"; lit "target_entry";
   lit "last_completed_unix_ns"; lit "last_request_status"].

Definition counter (z : Z) : bool := (0 <=? z) && (z <? 2 ^ 63).
Definition empty_or_digest (s : pystr) : bool := bool_decide (s = []) || is_digest s.

Definition scrub_state_of (binding payload : json) : option ScrubState :=
  match payload with
  | JObj l =>
      if negb (bool_decide (list_to_set l.*1 =@{gset pystr} list_to_set scrub_fields)) then None
      else
        match od_get (lit "schema") l, od_get (lit "binding") l, od_get (lit "phase") l, od_get (lit "cycle") l,
              od_get (lit "cursor") l, od_get (lit "target_entry") l,
              od_get (lit "last_completed_unix_ns") l, od_get (lit "last_request_status") l with
        | Some (JStr schema), Some b, Some (JStr phase), Some (JInt cycle), Some (JStr cursor), Some (JStr target),
          Some (JInt completed), Some (JStr status) =>
            phase ← phase_of phase;
            status ← status_of status;
            if bool_decide (schema = SCRUB_SCHEMA) && py_eq b binding && counter cycle && counter completed
               && empty_or_digest cursor && empty_or_digest target
            then Some (MkScrubState b phase cycle cursor target completed status) else None
        | _, _, _, _, _, _, _, _ => None
        end
  | _ => None
  end.

(** [self._load() != state] *)
Definition same_state (a b : ScrubState) : bool :=
  py_eq (ss_binding a) (ss_binding b) && bool_decide (ss_phase a = ss_phase b) && (ss_cycle a =? ss_cycle b)
  && bool_decide (ss_cursor a = ss_cursor b) && bool_decide (ss_target a = ss_target b)
  && (ss_completed a =? ss_completed b) && bool_decide (ss_status a = ss_status b).

Definition scrub_path : path := lit "token-scrub.json" :: state_dir.

(** [ScrubStepReport] (maintenance.py); the counters of orphans and temporaries are
    always zero in this driver. *)
Record ScrubStepReport := MkScrubStepReport {
  namespace_items_scanned : Z;
  sr_payload_bytes : Z;
  manifests_examined : Z;
  manifests_authenticated : Z;
  objects_authenticated : Z;
  entries_quarantined : Z;
  objects_quarantined : Z;
  orphan_objects_removed : Z;
  orphan_bytes_removed : Z;
  temporary_files_removed : Z;
  inventory_released : Z;
  cycle_completed : bool;
  request_completed : bool;
  request_status : scrub_status
}.

Section scrub.
Context `{Sha, Uuid, JsonLoads} (st : TokenFileStore).

Definition _empty : ScrubState := MkScrubState (st_binding st) Idle 0 [] [] 0 SNone.

Definition scrub_load : IO ScrubState :=
  payload ← _read_small_json scrub_path 4096;
  match scrub_state_of (st_binding st) payload with
  | Some s => ret s
  | None => throw ManifestError "invalid token scrub state"
  end.

Definition scrub_save (s : ScrubState) : IO unit :=
  encoded ← lift (canonical_json (scrub_dict s)); _atomic_small_write scrub_path encoded.

(** [TokenFileScrubber.__init__] *)
Definition scrub_open : IO unit :=
  exclusive (
    present ← sys_exists scrub_path;
    if (present : bool) then ret tt else scrub_save _empty).

Definition scrub_state : IO ScrubState := exclusive scrub_load.

(** Only the first [_load] is guarded: the repair itself may fail. *)
Definition repair_invalid_state : IO unit :=
  exclusive (
    valid ← try_with (_ ← scrub_load; ret true) (λ e, if state_error e then Some (ret false) else None);
    if (valid : bool) then ret tt
    else
      _ ← ignoring FileNotFoundError (
            u ← fresh_uuid;
            _ ← sys_replace scrub_path ((lit "token-scrub-" ++ u ++ lit ".bad") :: quarantine_dir);
            _ ← sys_fsync_dir quarantine_dir;
            sys_fsync_dir state_dir);
      scrub_save _empty).

Definition start_cycle : IO Z :=
  exclusive (
    s ← scrub_load;
    if decide (ss_phase s = Idle) then
      _ ← scrub_save (MkScrubState (ss_binding s) Files (ss_cycle s + 1) [] (ss_target s) (ss_completed s) (ss_status s));
      ret (ss_cycle s + 1)
    else ret (ss_cycle s)).

Definition request (entry_id : pystr) : IO pystr :=
  _ ← guard_io (negb (is_digest entry_id)) ValueError "malformed token scrub key";
  _ ← exclusive (
        s ← scrub_load;
        _ ← guard_io (negb (bool_decide (ss_target s = []))) ValueError "a token scrub request is already pending";
        scrub_save (MkScrubState (ss_binding s) (ss_phase s) (ss_cycle s) (ss_cursor s) entry_id (ss_completed s) SNone));
  ret entry_id.

Definition has_pending_request : IO bool :=
  s ← scrub_state; ret (negb (bool_decide (ss_target s = []))).

(** ** One step *)

(** [heapq.nsmallest(item_budget, (stem for ... if stem > cursor))] *)
Definition next_keys (n : nat) (cursor : pystr) (keys : list pystr) : list pystr :=
  take n (merge_sort str_le (filter (λ k, str_ltb cursor k = true) keys)).

(** What became of one key: its status, the bytes read and whether its tombstone was
    released. *)
Record Scrubbed := MkScrubbed { sc_key : pystr; sc_status : scrub_status; sc_bytes : Z; sc_released : bool }.

(** [except FileNotFoundError: pass] then [except (OSError, ManifestError)]: the
    payload bytes already counted stay counted. *)
Definition scrub_failed (key : pystr) (length : Z) (e : exn) : option (IO Scrubbed) :=
  match exn_class e with
  | FileNotFoundError => Some (ret (MkScrubbed key SAbsent length false))
  | _ => if caught_by_OSError_ManifestError e
         then Some (_ ← _quarantine_bad st key; ret (MkScrubbed key SQuarantined length false)) else None
  end.

Definition check_file (key : pystr) : IO (Scrubbed + Z) :=
  try_with
    (od ← _open_chunk st true key;
     _ ← _authenticate st od.1 od.2;
     ret (inr (td_byte_length od.2)))
    (λ e, m ← scrub_failed key 0 e; Some (r ← m; ret (inl r))).

Definition release_tombstone (key : pystr) (length : Z) : IO Scrubbed :=
  try_with
    (marked ← _inventory_is_withdrawn key;
     _ ← (if (marked : bool) then _clear_inventory_withdrawal key else ret tt);
     ret (MkScrubbed key SAuthenticated length marked))
    (scrub_failed key length).

Definition advanced (s : ScrubState) (r : Scrubbed) : ScrubState :=
  if decide (ss_target s = [])
  then MkScrubState (ss_binding s) (ss_phase s) (ss_cycle s) (sc_key r) [] (ss_completed s) (ss_status s)
  else MkScrubState (ss_binding s) (ss_phase s) (ss_cycle s) (ss_cursor s) [] (ss_completed s) (sc_status r).

(** One key under the lock: [None] is a [break]. *)
Definition scrub_one (key : pystr) (s : ScrubState) : IO (option Scrubbed) :=
  exclusive (
    current ← scrub_load;
    if negb (same_state current s) then ret None
    else
      busy ← pins_busy key;
      if (busy : bool) then ret None
      else
        checked ← check_file key;
        r ← match checked with inl r => ret r | inr length => release_tombstone key length end;
        _ ← scrub_save (advanced s r);
        ret (Some r)).

Definition payload_sum (l : list Scrubbed) : Z := foldr Z.add 0 (sc_bytes <$> l).

(** The loop over the selected keys; [cancelled] answers the calls of
    [cancel_requested], and [on_payload_read] may raise. *)
Fixpoint scrub_keys (cancelled : nat → bool) (budget : Z) (keys : list pystr)
    (s : ScrubState) (scanned : list Scrubbed) : IO (ScrubState * list Scrubbed) :=
  match keys with
  | [] => ret (s, scanned)
  | key :: keys =>
      if cancelled (length scanned) || (negb (bool_decide (scanned = [])) && (budget <=? payload_sum scanned))
      then ret (s, scanned)
      else
        r ← scrub_one key s;
        match r with
        | None => ret (s, scanned)
        | Some r =>
            _ ← (if sc_bytes r =? 0 then ret tt else call_hook (ret tt));
            scrub_keys cancelled budget keys (advanced s r) (scanned ++ [r])
        end
  end.

Definition count_status (x : scrub_status) (l : list Scrubbed) : Z :=
  Z.of_nat (length (filter (λ r, sc_status r = x) l)).

Definition finish_cycle (s : ScrubState) : IO bool :=
  exclusive (
    current ← scrub_load;
    if negb (same_state current s) then ret false
    else
      now ← time_ns;
      _ ← scrub_save (MkScrubState (ss_binding s) Idle (ss_cycle s) [] (ss_target s) now (ss_status s));
      ret true).

(** The state and the keys a step starts from. *)
Definition scrub_select (item_budget : Z) : IO (ScrubState * list pystr) :=
  exclusive (
    s ← scrub_load;
    if decide (ss_target s = []) then
      keys ← iter_manifest_paths;
      ret (s, next_keys (Z.to_nat item_budget) (ss_cursor s) keys)
    else ret (s, [ss_target s])).

Definition step_report (targeted : bool) (scanned : list Scrubbed) (s : ScrubState) (completed : bool) : ScrubStepReport :=
  let checked := Z.of_nat (length scanned) in
  let authenticated := count_status SAuthenticated scanned in
  let quarantined := count_status SQuarantined scanned in
  let answered := targeted && negb (bool_decide (scanned = [])) in
  MkScrubStepReport checked (payload_sum scanned) checked authenticated authenticated quarantined quarantined 0 0 0
    (Z.of_nat (length (filter (λ r, sc_released r = true) scanned))) completed answered
    (if answered then ss_status s else SNone).

Definition scrub_step (cancelled : nat → bool) (payload_budget_bytes item_budget : Z) : IO ScrubStepReport :=
  _ ← guard_io (negb ((0 <? item_budget) && (item_budget <=? 64))) ValueError "token scrub item bound must be in 1..64";
  _ ← guard_io (payload_budget_bytes <=? 0) ValueError "token scrub byte bound must be positive";
  start ← scrub_select item_budget;
  let targeted := negb (bool_decide (ss_target start.1 = [])) in
  done ← scrub_keys cancelled payload_budget_bytes start.2 start.1 [];
  completed ← (if negb targeted && bool_decide (start.2 = []) && bool_decide (ss_phase done.1 = Files)
               then finish_cycle done.1 else ret false);
  ret (step_report targeted done.2 done.1 completed).
End scrub.
