(* ===== verification/StoreOps.v ===== *)
(** * Every store operation keeps the control-plane invariants

    The operations of the token-file store change names only through [RankStore];
    an invariant that allows those changes, the quarantine and the acknowledgement
    of withdrawals is kept by each of them.  Publication is the one operation that
    adds a manifest name: it links a file only once its bytes are complete and
    synced, which is what the invariant has to accept ([Hlink]). *)
From S2P Require Import Prelude Dict Bytes Utf8 Json Hma Manifest Io RankStore IoSpec FsInv TokenFiles TokenHeader.

(** What one key needs of the invariant. *)
Section one_key.
Context `{Sha, Uuid, JsonLoads} (st : TokenFileStore).
Context {ok scratch I} (HI : store_inv ok scratch I).
Context (key : pystr) (Hmark : ok (_inventory_withdrawal_path key) (Some NDir)).
Context (Hquarantine : ∀ hk r, keeps I (_quarantine_manifest hk key r)).

Lemma k_quarantine_bad_of : keeps I (_quarantine_bad st key).
Proof.
  assert (keeps I (_mark_inventory_withdrawn key)) by (apply (k_mark HI), Hmark).
  assert (keeps I (_record_withdrawal (st_hooks st) key)) by (unfold _record_withdrawal; io_keeps).
  pose proof (Hquarantine (st_hooks st) (lit "payload_checksum")).
  unfold _quarantine_bad. io_keeps.
Qed.

Lemma k_valid_chunk_of parent span kind : keeps I (valid_chunk st key parent span kind).
Proof.
  pose proof k_quarantine_bad_of. pose proof (k_open_chunk st I false key). pose proof (k_authenticate st I).
  unfold valid_chunk. io_keeps.
Qed.
End one_key.

Section ops.
Context `{Sha, Uuid, JsonLoads} (st : TokenFileStore).
Context {ok scratch I} (HI : store_inv ok scratch I).
Context (Hmark : ∀ e, ok (_inventory_withdrawal_path e) (Some NDir)).
Context (Hman : ∀ e, ok (manifest_path e) None).
Context (Htmp : ∀ n, scratch (n :: tmp_dir)).
Context (Hshard : ∀ s, ok (s :: manifests_dir) (Some NDir)).
Context (Hquarantine : ∀ hk e r, keeps I (_quarantine_manifest hk e r)).
Context (Hack : ∀ e, keeps I (acknowledge_absent e)).

Lemma k_manifest_bind {A} key (f : path → IO A) :
  (is_digest key = true → keeps I (f (manifest_path key))) → keeps I (p ← _manifest_path key; f p).
Proof.
  intros Hf w Hw. unfold _manifest_path, mbind, io_bind.
  destruct (is_digest key); [by apply (Hf eq_refl w)|done].
Qed.

Lemma k_mark_withdrawn e : keeps I (_mark_inventory_withdrawn e).
Proof. apply (k_mark HI), Hmark. Qed.

Lemma k_record hk e : keeps I (_record_withdrawal hk e).
Proof. unfold _record_withdrawal. io_keeps. Qed.

Lemma k_quarantine_bad key : keeps I (_quarantine_bad st key).
Proof. by apply (k_quarantine_bad_of st HI). Qed.

Lemma k_opens key aw : keeps I (_open_chunk st aw key).
Proof. apply k_open_chunk. Qed.

Lemma k_quarantining {A} key (m : IO A) : keeps I m → keeps I (quarantining st key m).
Proof. intros Hm. pose proof (k_quarantine_bad key). unfold quarantining. io_keeps. Qed.

Lemma k_quarantine_after {A} key (m : IO A) : keeps I m → keeps I (quarantine_after st key m).
Proof. intros Hm. pose proof (k_quarantine_bad key). unfold quarantine_after. io_keeps. Qed.

Lemma k_valid_chunk key parent span kind : keeps I (valid_chunk st key parent span kind).
Proof. by apply (k_valid_chunk_of st HI). Qed.

Lemma k_open_link key : keeps I (open_link st key).
Proof. pose proof (k_opens key false). unfold open_link. apply k_quarantining. io_keeps. Qed.

Lemma k_chain_walk fuel d e l : keeps I (chain_walk fuel st d e l).
Proof.
  pose proof k_quarantine_bad. pose proof k_open_link.
  revert d e l; induction fuel as [|fuel IH]; intros d e l; cbn [chain_walk]; io_keeps.
Qed.

Lemma k_chain key : keeps I (_chain st key).
Proof.
  pose proof k_open_link. pose proof k_chain_walk.
  assert (∀ s, keeps I (chain_state st key s)).
  { intros s. unfold chain_state. pose proof k_opens. io_keeps. apply k_quarantining. io_keeps. }
  unfold _chain. io_keeps.
Qed.

Lemma k_verify_objects l : keeps I (verify_objects st l).
Proof. pose proof k_valid_chunk. induction l as [|d l IH]; cbn [verify_objects]; io_keeps. Qed.

Lemma k_lookup v key : keeps I (lookup st v key).
Proof. pose proof k_chain. pose proof k_verify_objects. unfold lookup. io_keeps. Qed.

Lemma k_touch_files l : keeps I (touch_files l).
Proof. pose proof (k_utime HI). unfold touch_files. io_keeps. Qed.

Lemma k_restore_view {A} key (body : RestoreView → IO A) :
  (∀ v, keeps I (body v)) → keeps I (restore_view st key body).
Proof.
  intros Hb. pose proof (k_lookup false key). pose proof k_touch_files. unfold restore_view. io_keeps.
Qed.

Lemma k_verify_buffer d view : keeps I (_verify_buffer st d view).
Proof. unfold _verify_buffer. io_keeps. Qed.

Lemma k_reopen d : keeps I (reopen st d).
Proof. pose proof (k_opens (td_key d) false). unfold reopen. io_keeps. Qed.

Lemma k_fold_io {A S} (f : A → S → IO S) l s : (∀ x s, keeps I (f x s)) → keeps I (fold_io f l s).
Proof. intros Hf. revert s; induction l as [|x l IH]; intros s; cbn [fold_io]; io_keeps. Qed.

Lemma k_stream_objects {R D} (receiver : Receiver R D) l lease slot dev :
  keeps I (stream_objects st receiver l lease slot dev).
Proof.
  pose proof k_reopen. pose proof k_verify_buffer.
  assert (∀ ino blocks pos rem acc rd, keeps I (stream_blocks st receiver ino pos rem blocks acc rd)).
  { intros ino blocks; induction blocks as [|e bl IH]; intros pos rem acc rd; cbn [stream_blocks]; io_keeps. }
  assert (∀ t s, keeps I (run_transfer st receiver t s)).
  { intros [d|ds] s; cbn [run_transfer].
    - apply k_quarantine_after. io_keeps.
    - apply k_fold_io. intros d s'. apply k_quarantine_after. io_keeps. }
  unfold stream_objects. io_keeps. by apply k_fold_io.
Qed.

Lemma k_gather {A B} (f : A → IO (list B)) l : (∀ x, keeps I (f x)) → keeps I (gather f l).
Proof. intros Hf. induction l as [|x l IH]; cbn [gather]; io_keeps. Qed.

Lemma k_iter_manifest_paths : keeps I iter_manifest_paths.
Proof.
  unfold iter_manifest_paths. apply k_gather. intros i. pose proof (k_is_symlink I). unfold shard_keys. io_keeps.
Qed.

Lemma k_scan_offers n : keeps I (scan_offers st n).
Proof.
  pose proof k_iter_manifest_paths.
  assert (∀ l, keeps I (gather (offer_of st) l)).
  { intros l. apply k_gather. intros key. pose proof (k_opens key false). unfold offer_of. io_keeps. }
  unfold scan_offers. io_keeps.
Qed.

Lemma k_evict key : keeps I (evict st key).
Proof.
  pose proof (k_mark_withdrawn key). pose proof (k_record (st_hooks st) key).
  pose proof (k_fsync_dir HI).
  assert (keeps I (sys_unlink (manifest_path key))) by apply (k_unlink HI), Hman.
  unfold evict. apply k_exclusive. apply k_bind; [io_keeps|]. intros busy. case_match; [io_keeps|].
  apply k_manifest_bind. intros _. io_keeps.
Qed.

Lemma k_gc_candidates l : keeps I (gc_candidates l).
Proof. induction l as [|k l IH]; cbn [gc_candidates]; io_keeps. Qed.

Lemma k_evict_each l : keeps I (evict_each st l).
Proof. pose proof k_evict. induction l as [|k l IH]; cbn [evict_each]; io_keeps. Qed.

Lemma k_maintain t r : keeps I (maintain_capacity_batch st t r).
Proof.
  pose proof k_iter_manifest_paths. pose proof k_gc_candidates. pose proof k_evict_each.
  assert (keeps I disk_usage_bytes) by apply k_tree_bytes.
  unfold maintain_capacity_batch. io_keeps.
Qed.

Lemma k_recover : keeps I recover.
Proof.
  pose proof (k_fsync_dir HI tmp_dir).
  assert (∀ n, keeps I (sys_unlink (n :: tmp_dir))).
  { intros n. apply (k_unlink HI). by apply (si_scratch _ _ _ HI). }
  assert (∀ fuel n, keeps I (recover_loop fuel n)).
  { induction fuel as [|fuel IH]; intros n; cbn [recover_loop]; io_keeps. }
  unfold recover. io_keeps.
Qed.

Lemma k_acknowledge l : keeps I (acknowledge_absent_inventory_withdrawals l).
Proof. unfold acknowledge_absent_inventory_withdrawals. io_keeps. Qed.

Lemma k_marker_names w f l : keeps I (marker_names w f l).
Proof.
  induction l as [|n l IH]; cbn [marker_names]; io_keeps.
Qed.

Lemma k_marker_batch n a w : keeps I (inventory_withdrawal_marker_batch n a w).
Proof. pose proof k_marker_names. unfold inventory_withdrawal_marker_batch. io_keeps. Qed.
End ops.

(** ** Publication *)

(** An unpublished file under its temporary name. *)
Definition unpublished (I : FS → Prop) (ino : nat) (tmp : path) (fs : FS) : Prop :=
  I fs ∧ loose ino tmp fs ∧ names fs !! tmp = Some (NFile ino).

(** The same, complete and synced. *)
Definition sealed (I : FS → Prop) (ino : nat) (tmp : path) (D : list byte) (fs : FS) : Prop :=
  unpublished I ino tmp fs ∧ ∃ m, inodes fs !! ino = Some (Inode D true m).

Section publish.
Context `{Sha, Uuid, JsonLoads} (st : TokenFileStore).
Context {ok scratch I} (HI : store_inv ok scratch I).
Context (Htmp : ∀ n, scratch (n :: tmp_dir)).
Context (Hshard : ∀ s, ok (s :: manifests_dir) (Some NDir)).
Context (key : pystr) (good : list byte → Prop).
Context (Hmark : ok (_inventory_withdrawal_path key) (Some NDir)) (Hclear : ok (_inventory_withdrawal_path key) None).
Context (Hlink : ∀ fs ino D m, is_digest key = true → I fs → inodes fs !! ino = Some (Inode D true m) →
  good D → possible fs (shard_dir key) = [Some NDir] →
  I (set_name (manifest_path key) (Some (NFile ino)) fs)).

Lemma unpublished_write ino tmp fs i :
  scratch tmp → unpublished I ino tmp fs → unpublished I ino tmp (set_inode ino i fs).
Proof.
  intros Ht (Hi & Hl & Hn). split_and!; [|by apply loose_set_inode|done].
  by eapply (si_write _ _ _ HI).
Qed.

Lemma t_create_unpublished tmp :
  scratch tmp → triple I (sys_create tmp) (λ ino, holds (unpublished I ino tmp) ino []) I.
Proof.
  intros Ht. apply t_create; [done|]. intros fs now Hfs _ _. split; [split_and!|split].
  - by apply (si_create _ _ _ HI).
  - apply create_loose. by apply (si_wf _ _ _ HI).
  - unfold set_name. cbn. by rewrite lookup_partial_alter_eq.
  - unfold set_name. cbn. by rewrite lookup_insert_eq.
  - unfold data_of, set_name. cbn. by rewrite lookup_insert_eq.
Qed.

Lemma t_seal ino tmp D :
  scratch tmp →
  triple (holds (unpublished I ino tmp) ino D) (sys_fsync ino) (λ _, sealed I ino tmp D) I.
Proof.
  intros Ht. apply t_fsync; [by intros fs ((? & _) & _)|]. intros fs (Hu & _ & Hd). split.
  - by apply unpublished_write.
  - eexists. unfold set_inode. cbn. rewrite lookup_insert_eq, Hd. done.
Qed.

(** Shards can be made while a sealed file waits. *)
Lemma sealed_inv ino n D :
  store_inv (λ p v, ok p v ∧ p ≠ n :: tmp_dir ∧ v ≠ Some (NFile ino)) (λ _, False) (sealed I ino (n :: tmp_dir) D).
Proof.
  split; try done.
  - intros fs [(Hi & _) _]. by apply (si_wf _ _ _ HI).
  - intros fs p v [(Hi & Hl & Hn) Hd] (Hok & Hp & Hv) He. split; [split_and!|done].
    + by apply (si_name _ _ _ HI).
    + by apply loose_set_name.
    + unfold set_name. cbn. by rewrite lookup_partial_alter_ne.
  - intros fs d [(Hi & Hl & Hn) Hd]. split; [split_and!|done]; [by apply (si_sync _ _ _ HI)|by apply loose_sync_dir|done].
  - intros fs j i now [(Hi & Hl & Hn) [m Hd]] Hj. split; [split_and!|].
    + by apply (si_utime _ _ _ HI).
    + by apply loose_set_inode.
    + done.
    + unfold set_inode. cbn. rewrite lookup_insert. case_decide as Hij; [|by eexists].
      subst. rewrite Hd in Hj. injection Hj as <-. by eexists.
Qed.

Lemma t_link_sealed ino n D :
  is_digest key = true → good D →
  triple (λ fs, sealed I ino (n :: tmp_dir) D fs ∧ possible fs (shard_dir key) = [Some NDir])
    (sys_link (n :: tmp_dir) (manifest_path key)) (λ _, I) I.
Proof.
  intros Hk Hc. apply t_link; [by intros fs [[(? & _) _] _]|].
  intros fs ino' [[(Hi & Hl & Hn) [m Hd]] Hsh] Ho _ _.
  apply live_names in Ho; [|done]. rewrite Hn in Ho. injection Ho as <-. by eapply Hlink.
Qed.

(** A writer that leaves a good file behind. *)
Definition writes_complete (write : nat → list byte → IO unit) (header : list byte) : Prop :=
  ∀ ino tmp, scratch tmp →
  triple (holds (unpublished I ino tmp) ino []) (write ino header)
    (λ _ fs, ∃ D, good D ∧ holds (unpublished I ino tmp) ino D fs) I.

Lemma k_publish_chunk h write :
  (∀ header, _encode_header st h = Ok header → writes_complete write header) →
  keeps I (_publish_chunk st key h write).
Proof.
  intros Hw. unfold _publish_chunk.
  assert (Km : keeps I (_mark_inventory_withdrawn key)) by apply (k_mark HI), Hmark.
  assert (Kc : keeps I (_clear_inventory_withdrawal key)) by apply (k_clear HI), Hclear.
  pose proof (k_fsync_dir HI) as Kf. pose proof (k_record (I:=I) (st_hooks st) key) as Kr.
  assert (Ku : ∀ n, keeps I (sys_unlink (n :: tmp_dir))).
  { intros n. apply (k_unlink HI). by apply (si_scratch _ _ _ HI). }
  assert (Kcl : ∀ n, keeps I (_cleanup_temporary_file (n :: tmp_dir))).
  { intros n. apply (k_cleanup_file HI). by apply (si_scratch _ _ _ HI). }
  assert (Kw : keeps I (withdraw_failed st key)) by (unfold withdraw_failed; io_keeps).
  apply k_bind; [io_keeps|]. intros ?.
  eapply (t_bind _ _ _ _ (λ header fs, _encode_header st h = Ok header ∧ I fs)); [apply t_lift|].
  intros header. apply t_pure. intros He. specialize (Hw header He).
  apply k_manifest_bind. intros Hk.
  apply k_bind; [io_keeps|]. intros ?. apply k_bind; [io_keeps|]. intros ?. apply k_bind; [io_keeps|]. intros u.
  cbv zeta. set (n := lit "token-" ++ u ++ lit ".part").
  eapply t_bind; [by apply t_create_unpublished|]. intros ino.
  eapply (t_bind _ _ _ _ (λ _, I)).
  - apply t_on_error; [|apply Kcl].
    eapply t_bind; [by apply Hw|]. intros ?. cbv beta.
    eapply (t_bind _ _ _ _ (λ _ fs, ∃ D, good D ∧ sealed I ino (n :: tmp_dir) D fs)).
    { intros w (D & HD & Hfs). pose proof (t_seal ino (n :: tmp_dir) D (Htmp n) w Hfs) as Hs.
      destruct (sys_fsync ino w) as [[?|?|] ?]; [by exists D|done|done]. }
    intros ? w (D & HD & Hfs). revert w Hfs. fold (triple (sealed I ino (n :: tmp_dir) D)
      (_ ← _checkpoint; _ ← _ensure_shard_directory (tail (manifest_path key));
       sys_link (n :: tmp_dir) (manifest_path key)) (λ _, I) I).
    assert (Hweak : ∀ fs, sealed I ino (n :: tmp_dir) D fs → I fs) by by intros fs [(? & _) _].
    eapply t_bind; [apply (t_keeps_weak (sealed I ino (n :: tmp_dir) D) I); [apply k_checkpoint|done]|]. intros ?.
    eapply t_bind.
    { eapply t_conseq; [apply (t_ensure_shard (sealed_inv ino n D) (shard_dir key))|done| |exact Hweak].
      - split_and!; [apply Hshard|done|done].
      - done.
      - intros ? ? Hx. exact Hx. }
    intros ?. by apply t_link_sealed.
  - intros ?. match goal with |- triple _ ?m _ _ => change (keeps I m) end.
    pose proof (k_opens st (I:=I) key false). specialize (Kcl n). specialize (Ku n). io_keeps.
Qed.
End publish.

(** ** The two writers *)
Section commits.
Context `{Sha, Uuid, JsonLoads} (st : TokenFileStore) (Hslot : 0 < st_slot_bytes st).
Context {ok scratch I} (HI : store_inv ok scratch I).
Context (Htmp : ∀ n, scratch (n :: tmp_dir)).
Context (Hshard : ∀ s, ok (s :: manifests_dir) (Some NDir)).
Context (key : pystr) (good : list byte → Prop).
Context (Hmark : ok (_inventory_withdrawal_path key) (Some NDir)) (Hclear : ok (_inventory_withdrawal_path key) None).
Context (Hlink : ∀ fs ino D m, is_digest key = true → I fs → inodes fs !! ino = Some (Inode D true m) →
  good D → possible fs (shard_dir key) = [Some NDir] →
  I (set_name (manifest_path key) (Some (NFile ino)) fs)).

Lemma t_write_vector ino tmp pos parts old :
  scratch tmp → parts ≠ [] → (pos ≤ length old)%nat →
  triple (holds (unpublished I ino tmp) ino old) (_write_vector ino pos parts)
    (λ _, holds (unpublished I ino tmp) ino (overwrite pos (concat parts) old)) (unpublished I ino tmp).
Proof.
  intros Ht Hne Hp. unfold _write_vector. destruct parts as [|p l]; [done|].
  apply t_write_loop; [|lia|done]. intros fs i Hu _. by apply (unpublished_write HI).
Qed.

Lemma overwrite_end old bytes : overwrite (length old) bytes old = old ++ bytes.
Proof. unfold overwrite. rewrite take_ge, drop_ge by lia. by rewrite app_nil_r. Qed.

Lemma overwrite_start bytes old rest :
  length bytes = length old → overwrite 0 bytes (old ++ rest) = bytes ++ rest.
Proof. intros Hl. unfold overwrite. cbn. by rewrite drop_app_length' by lia. Qed.

Lemma unpublished_I ino tmp fs : unpublished I ino tmp fs → I fs.
Proof. by intros (? & _). Qed.

Lemma chunk_writes h data :
  (∀ header, _encode_header st h = Ok header → good (header ++ data)) →
  ∀ header, _encode_header st h = Ok header →
  writes_complete (scratch:=scratch) (I:=I) good (λ ino header, _write_vector ino 0 [header; data]) header.
Proof.
  intros Hg header He ino tmp Ht. eapply t_conseq.
  - apply (t_write_vector ino tmp 0 [header; data] []); [done|done|done].
  - done.
  - intros ? fs Hfs. exists (header ++ data). split; [by apply Hg|].
    cbn [concat] in Hfs. rewrite app_nil_r in Hfs.
    by rewrite <-(app_nil_l (header ++ data)), <-(overwrite_end [] (header ++ data)).
  - by apply unpublished_I.
Qed.

Lemma t_write_pieces ino tmp slot pieces remaining B :
  scratch tmp →
  triple (holds (unpublished I ino tmp) ino B) (write_pieces ino slot (length B) remaining pieces)
    (λ views fs, (ranges_ok slot remaining views ∧ pieces = Ok <$> views) ∧
       holds (unpublished I ino tmp) ino (B ++ concat views) fs)
    (unpublished I ino tmp).
Proof.
  intros Ht. assert (Hweak : ∀ B fs, holds (unpublished I ino tmp) ino B fs → unpublished I ino tmp fs) by by intros ? ? [? _].
  revert remaining B; induction pieces as [|piece pieces IH]; intros remaining B; cbn [write_pieces].
  - eapply t_bind; [eapply t_conseq; [apply t_guard'|done|intros ? ? Hx; exact Hx|apply Hweak]|].
    intros ?. apply t_pure. intros Hg. apply t_ret_post. intros fs Hfs. cbn [concat fmap list_fmap]. rewrite app_nil_r.
    bsimp. cbn. split; [split; [lia|done]|exact Hfs].
  - eapply t_bind; [eapply t_conseq; [apply t_lift|done|intros ? ? Hx; exact Hx|apply Hweak]|].
    intros view. apply t_pure. intros ->.
    eapply t_bind; [eapply t_conseq; [apply t_guard'|done|intros ? ? Hx; exact Hx|apply Hweak]|].
    intros ?. apply t_pure. intros Hg. bsimp. destruct Hg as [Hpos Hlen].
    eapply t_bind; [by apply (t_write_vector ino tmp (length B) [view] B)|]. intros ?.
    cbn [concat]. rewrite app_nil_r, overwrite_end.
    eapply t_bind.
    { apply (t_keeps_weak (holds (unpublished I ino tmp) ino (B ++ view))); [apply k_checkpoint|apply Hweak]. }
    intros ?. rewrite <-length_app.
    eapply t_bind; [apply IH|]. intros views. apply t_ret_post. intros fs [[Hr ->] Hfs].
    cbn [concat]. rewrite (assoc_L (++)). split; [|done]. split; [|done]. cbn [ranges_ok]. split_and!; [lia|done|done].
Qed.

(** The bytes a stream leaves: the header of its checksums, then its ranges. *)
Definition streamed (h : header) (pieces : list (list byte)) (final : list byte) : Prop :=
  let hashes := sha256_hex <$> pieces in
  ranges_ok (st_slot_bytes st) (hd_length h) pieces ∧
  _encode_header st (with_digests h (payload_digest (concat pieces) hashes) hashes) = Ok final.

Lemma stream_writes h pieces :
  (∀ views final, pieces = Ok <$> views → streamed h views final → good (final ++ concat views)) →
  ∀ header, _encode_header st h = Ok header →
  writes_complete (scratch:=scratch) (I:=I) good (λ ino header,
    _ ← _write_vector ino 0 [header];
    views ← write_pieces ino (st_slot_bytes st) (length header) (hd_length h) pieces;
    let hashes := sha256_hex <$> views in
    final ← lift (_encode_header st (with_digests h (payload_digest (concat views) hashes) hashes));
    _ ← guard_io (negb (length final =? length header)%nat) ManifestError
          "streamed token header changed length";
    _write_vector ino 0 [final]) header.
Proof.
  intros Hg header He ino tmp Ht.
  assert (Hweak : ∀ B fs, holds (unpublished I ino tmp) ino B fs → I fs) by by intros ? ? [(? & _) _].
  eapply (t_conseq _ (holds (unpublished I ino tmp) ino []) _ _
    (λ _ fs, ∃ D, good D ∧ holds (unpublished I ino tmp) ino D fs) _ (unpublished I ino tmp));
    [|done|intros ? ? Hx; exact Hx|by apply unpublished_I].
  eapply t_bind; [by apply (t_write_vector ino tmp 0 [header] [])|]. intros ?.
  cbn [concat]. rewrite app_nil_r. change (overwrite 0 header []) with (overwrite (length (@nil byte)) header []).
  rewrite overwrite_end. cbn [app].
  eapply t_bind; [by apply t_write_pieces|]. intros views. apply t_pure. intros [Hr Hv]. cbv zeta.
  eapply t_bind; [eapply t_conseq; [apply t_lift|done|intros ? ? Hx; exact Hx|by intros ? [? _]]|].
  intros final. apply t_pure. intros Hf.
  eapply t_bind; [eapply t_conseq; [apply t_guard'|done|intros ? ? Hx; exact Hx|by intros ? [? _]]|].
  intros ?. apply t_pure. intros Hl. bsimp. apply Nat.eqb_eq in Hl.
  eapply t_conseq; [by apply (t_write_vector ino tmp 0 [final] (header ++ concat views)); [..|lia]|done| |done].
  intros ? fs Hfs. exists (final ++ concat views). split; [by apply Hg|].
  cbn [concat] in Hfs. by rewrite app_nil_r, overwrite_start in Hfs.
Qed.

(** The header a commit of these arguments starts from. *)
Definition chunk_header (parent : option pystr) (span : Z) (data : list byte) (kind : file_kind) : result header :=
  let hashes := sha256_hex <$> transfer_pieces (st_slot_bytes st) data in
  _header_payload st key (parent_json parent) (JInt span) (JStr (payload_digest data hashes))
    (JStr (kind_name kind)) (Some (JArr (JStr <$> hashes))).
Definition stream_header (parent : option pystr) (span : Z) (kind : file_kind) : result header :=
  _header_payload st key (parent_json parent) (JInt span) (JStr zero_digest) (JStr (kind_name kind)) None.

Lemma k_commit_chunk parent span data kind :
  (∀ h header, chunk_header parent span data kind = Ok h → Z.of_nat (length data) = hd_length h →
     _encode_header st h = Ok header → good (header ++ data)) →
  keeps I (commit_chunk st key parent span data kind).
Proof.
  intros Hg. unfold commit_chunk. apply k_exclusive. cbv zeta.
  eapply t_bind; [apply (t_lift I)|]. intros h. apply t_pure. intros Hh.
  eapply t_bind; [apply (t_guard' I)|]. intros ?. apply t_pure. intros Hlen. bsimp.
  apply (k_publish_chunk st HI Htmp Hshard key good Hmark Hclear Hlink), chunk_writes. eauto.
Qed.

Lemma k_commit_stream parent span pieces kind :
  (∀ h views final, stream_header parent span kind = Ok h → pieces = Ok <$> views → streamed h views final →
     good (final ++ concat views)) →
  keeps I (commit_stream st key parent span pieces kind).
Proof.
  intros Hg. unfold commit_stream. apply k_exclusive.
  eapply t_bind; [apply (t_lift I)|]. intros h. apply t_pure. intros Hh.
  apply (k_publish_chunk st HI Htmp Hshard key good Hmark Hclear Hlink), stream_writes. eauto.
Qed.
End commits.

(** Both commits write complete files. *)
Section complete.
Context `{Sha, Uuid, JsonLoads} (st : TokenFileStore) (Hslot : 0 < st_slot_bytes st) (key : pystr).

Lemma chunk_complete parent span data kind h header :
  chunk_header st key parent span data kind = Ok h → Z.of_nat (length data) = hd_length h →
  _encode_header st h = Ok header → complete_file st key (header ++ data).
Proof. intros. by eapply committed_complete. Qed.

Lemma stream_complete parent span pieces kind h final :
  stream_header st key parent span kind = Ok h → streamed st h pieces final →
  complete_file st key (final ++ concat pieces).
Proof. intros Hh [Hr Hf]. by eapply streamed_complete. Qed.
End complete.
