(* ===== verification/StoreInv.v ===== *)
(** * The data invariant of the store

    [whole]: whatever a power loss leaves under the name of a key is a regular file
    whose synced bytes are a complete file of that key, or nothing.  Every operation
    keeps it, under any schedule of faults, and so does a power loss; the reachable
    states of the system are those of [system_step]. *)
From S2P Require Import Prelude Dict Bytes Utf8 Json Hma Manifest Io RankStore IoSpec FsInv TokenFiles TokenHeader StoreOps.

(** ** Names *)
Lemma manifest_path_inj a b : manifest_path a = manifest_path b → a = b.
Proof. unfold manifest_path. intros [= Hab _]. by apply app_inj_tail_iff in Hab || by simplify_list_eq. Qed.

(** A name that no key uses. *)
Definition unkeyed (p : path) : Prop := ∀ key, p ≠ manifest_path key.

Lemma unkeyed_short p : length p ≠ 3%nat → unkeyed p.
Proof. intros Hl key ->. by apply Hl. Qed.
Lemma unkeyed_root p : last p ≠ Some (lit "manifests") → unkeyed p.
Proof. intros Hl key ->. by apply Hl. Qed.
Create HintDb unkeyed discriminated.
#[export] Hint Extern 1 (unkeyed _) => (apply unkeyed_short; discriminate) : unkeyed.
#[export] Hint Extern 2 (unkeyed _) => (apply unkeyed_root; discriminate) : unkeyed.

(** ** Guarded names

    Under a guarded name there is a synced regular file with good bytes, or nothing
    where that is good too; [now] speaks of the present only, its negation of every
    value a power loss may leave. *)
Section guarded.
Context (now : bool) (guard : path → Prop) (good : path → option (list byte) → Prop).

Definition view (fs : FS) (p : path) : list (option node) :=
  if now then [names fs !! p] else possible fs p.

Lemma view_possible fs p v : v ∈ view fs p → v ∈ possible fs p.
Proof. unfold view. destruct now; [|done]. intros ->%list_elem_of_singleton. apply possible_head. Qed.

Lemma view_names fs p : names fs !! p ∈ view fs p.
Proof. unfold view. destruct now; by left. Qed.

Lemma view_set_name fs p v q u : u ∈ view (set_name p v fs) q → (q = p ∧ u = v) ∨ u ∈ view fs q.
Proof.
  unfold view. destruct now.
  - intros ->%list_elem_of_singleton. unfold set_name. cbn. destruct (decide (q = p)) as [->|Hne].
    + left. by rewrite lookup_partial_alter_eq.
    + right. rewrite lookup_partial_alter_ne by done. by left.
  - rewrite possible_set_name. case_decide as Hd; [|auto]. subst. intros [->|?]%elem_of_cons; auto.
Qed.

Lemma view_sync_dir fs d p v : v ∈ view (sync_dir d fs) p → v ∈ view fs p.
Proof. unfold view. destruct now; [done|]. apply possible_sub_sync. Qed.

Definition good_entry (fs : FS) (p : path) (v : option node) : Prop :=
  match v with
  | None => good p None
  | Some (NFile ino) =>
      ∃ i, inodes fs !! ino = Some i ∧ i_synced i = true ∧ good p (Some (i_data i))
  | Some _ => False
  end.

Definition guarded (fs : FS) : Prop :=
  fs_wf fs ∧ ∀ p v, guard p → v ∈ view fs p → good_entry fs p v.

Definition guard_ok (p : path) (v : option node) : Prop := (v = None ∧ (guard p → good p None)) ∨ ¬ guard p.
Definition guard_scratch (p : path) : Prop := p ≠ [] ∧ ¬ guard p.

Lemma guarded_set_inode fs ino i :
  guarded fs → is_Some (inodes fs !! ino) →
  (∀ p, guard p → Some (NFile ino) ∈ view fs p → i_synced i = true ∧ i_data i = data_of fs ino) →
  guarded (set_inode ino i fs).
Proof.
  intros [Hw Hk] Hi Hsame. split; [by apply wf_set_inode|]. intros p v Hp Hv.
  specialize (Hk p v Hp Hv). destruct v as [[j| |]|]; cbn in *; [|done..].
  destruct Hk as (i' & Hj & Hs & Hc). destruct (decide (j = ino)) as [->|Hne].
  - destruct (Hsame p Hp Hv) as [Hs' Hd]. exists i. split_and!; [by rewrite lookup_insert_eq|done|].
    rewrite Hd. unfold data_of. by rewrite Hj.
  - exists i'. by rewrite lookup_insert_ne.
Qed.

Lemma guarded_set_name fs p v :
  guarded fs → entry_ok fs v → (guard p → good_entry fs p v) → guarded (set_name p v fs).
Proof.
  intros [Hw Hk] He Hp. split; [by apply wf_set_name|]. intros q u Hq Hu.
  apply view_set_name in Hu as [[-> ->]|Hu]; [by apply Hp|by apply Hk].
Qed.

Lemma guarded_inv : store_inv guard_ok guard_scratch guarded.
Proof.
  split.
  - by intros fs [? _].
  - intros fs p v Hfs Hok He. apply guarded_set_name; [done|done|]. intros Hp.
    destruct Hok as [[-> Hg]|Hg]; [by apply Hg|done].
  - intros fs d [Hw Hk]. split; [by apply wf_sync_dir|]. intros p v Hp Hv%view_sync_dir. by apply (Hk p v).
  - intros fs p t [Hw Hk] [_ Hu]. split; [by apply wf_create|]. intros q v Hq Hv.
    apply view_set_name in Hv as [[-> _]|Hv]; [done|]. specialize (Hk q v Hq Hv).
    destruct v as [[j| |]|]; cbn in *; [|done..]. destruct Hk as (i & Hj & Hs & Hc). exists i.
    rewrite lookup_insert_ne; [done|]. intros <-. assert (next_ino fs < next_ino fs)%nat; [|lia].
    by apply (fw_inodes _ Hw).
  - intros fs ino p i Hfs [_ Hu] [Hi Hl]. apply (guarded_set_inode _ _ _ Hfs Hi).
    intros q Hq Hv%view_possible. apply Hl in Hv. congruence.
  - intros fs ino i t [Hw Hk] Hi. apply guarded_set_inode; [done|done|]. intros p Hp Hv. cbn.
    unfold data_of. rewrite Hi. split; [|done].
    destruct (Hk p _ Hp Hv) as (i' & Hj & Hs & Hc). congruence.
  - intros p [? ?]. split; [done|by right].
Qed.

Lemma guarded_link fs p ino D m :
  guarded fs → inodes fs !! ino = Some (Inode D true m) → good p (Some D) →
  guarded (set_name p (Some (NFile ino)) fs).
Proof. intros Hfs Hi Hc. apply guarded_set_name; [done|by cbn; rewrite Hi|]. intros _. by eexists. Qed.

End guarded.

Lemma guarded_power_loss guard good fs fs' :
  guarded false guard good fs → power_loss fs fs' → guarded false guard good fs'.
Proof.
  intros [Hw Hk] Hl. split; [by eapply wf_power_loss|].
  intros p v Hp Hv%(power_loss_possible _ _ _ _ Hl). specialize (Hk p v Hp Hv).
  destruct v as [[j| |]|]; cbn in *; [|done..]. destruct Hk as (i & Hj & Hs & Hc).
  pose proof (pl_data _ _ Hl j i Hj Hs) as Hd.
  assert (is_Some (inodes fs' !! j)) as [i' Hj'].
  { apply elem_of_dom. rewrite (pl_dom _ _ Hl). by apply elem_of_dom. }
  exists i'. split_and!; [done|by eapply (pl_synced _ _ Hl)|].
  unfold data_of in Hd. rewrite Hj' in Hd. by rewrite Hd.
Qed.
(** ** The namespace of keys *)
Section whole.
Context `{Sha, JsonLoads} (st : TokenFileStore).

Definition keyed (p : path) : Prop := ∃ key, p = manifest_path key.

(** Nothing, or a complete file of the key. *)
Definition whole_file (p : path) (v : option (list byte)) : Prop :=
  ∀ D key, v = Some D → p = manifest_path key → complete_file st key D.

Definition whole : FS → Prop := guarded false keyed whole_file.

Lemma whole_entry fs key n :
  whole fs → live fs (manifest_path key) = Some n →
  ∃ ino i, n = NFile ino ∧ inodes fs !! ino = Some i ∧ complete_file st key (i_data i).
Proof.
  intros [_ Hk] Hl. apply live_names in Hl; [|done].
  specialize (Hk (manifest_path key) (Some n)). rewrite <-Hl in Hk at 1.
  specialize (Hk ltac:(by exists key) (possible_head _ _)). destruct n as [ino| |]; cbn in Hk; [|done..].
  destruct Hk as (i & Hi & _ & Hc). exists ino, i. split_and!; [done|done|]. by apply (Hc _ key).
Qed.

(** Nothing is published yet. *)
Definition unpublished_root (fs : FS) : Prop :=
  fs_wf fs ∧ ∀ key, possible fs (manifest_path key) = [None].

Lemma unpublished_whole fs : unpublished_root fs → whole fs.
Proof.
  intros [Hw Hn]. split; [done|]. intros p v [key ->]. rewrite Hn. by intros ->%list_elem_of_singleton ? ? ?.
Qed.
End whole.
