(* ===== verification/StoreSystem.v ===== *)
(** * The store as a system

    [store_call] lists the operations of the store; a step runs one of them from any
    process state under any schedule of faults, or loses power.  The theorem is the
    data invariant at every reachable state. *)
From S2P Require Import Prelude Dict Bytes Utf8 Json Hma Manifest Io RankStore IoSpec FsInv TokenFiles TokenHeader TokenScrub StoreOps StoreInv.

(** ** Operations *)
Inductive store_call :=
  | CCommitChunk (key : pystr) (parent : option pystr) (span : Z) (data : list byte) (kind : file_kind)
  | CCommitStream (key : pystr) (parent : option pystr) (span : Z) (pieces : list (result (list byte)))
      (kind : file_kind)
  | CValidChunk (key : pystr) (parent : option pystr) (span : Z) (kind : file_kind)
  | CLookup (verify_payloads : bool) (key : pystr)
  | CRestore (R D : Type) (receiver : Receiver R D) (dev : D) (key : pystr) (pool_slot : Z)
  | CScanOffers (limit : Z)
  | CEvict (key : pystr)
  | CMaintain (trigger remaining : pyval)
  | CRecover
  | CReserveEpoch
  | CMarkerBatch (limit : pyval) (after : option pystr) (withdraw : bool)
  | CAcknowledge (keys : list pystr)
  | CQuarantine (key reason : pystr)
  | CAcquireOwner
  | CScrubOpen
  | CScrubRepair
  | CScrubStart
  | CScrubRequest (key : pystr)
  | CScrubStep (cancelled : nat → bool) (payload_budget_bytes item_budget : Z)
  | CClose.

Definition discard {A} (m : IO A) : IO unit := _ ← m; ret tt.

Section system.
Context `{Sha, Uuid, JsonLoads} (st : TokenFileStore).

Definition run_store_call (c : store_call) : IO unit :=
  match c with
  | CCommitChunk key parent span data kind => discard (commit_chunk st key parent span data kind)
  | CCommitStream key parent span pieces kind => discard (commit_stream st key parent span pieces kind)
  | CValidChunk key parent span kind => discard (valid_chunk st key parent span kind)
  | CLookup v key => discard (lookup st v key)
  | CRestore _ _ receiver dev key pool_slot =>
      discard (restore_view st key (λ view, stream_objects st receiver (rv_descriptors view) view pool_slot dev))
  | CScanOffers limit => discard (scan_offers st limit)
  | CEvict key => discard (evict st key)
  | CMaintain t r => discard (maintain_capacity_batch st t r)
  | CRecover => discard recover
  | CReserveEpoch => discard reserve_inventory_generation_epoch
  | CMarkerBatch l a w => discard (inventory_withdrawal_marker_batch l a w)
  | CAcknowledge keys => acknowledge_absent_inventory_withdrawals keys
  | CQuarantine key reason => discard (_quarantine_manifest (st_hooks st) key reason)
  | CAcquireOwner => acquire_inventory_owner
  | CScrubOpen => scrub_open st
  | CScrubRepair => repair_invalid_state st
  | CScrubStart => discard (start_cycle st)
  | CScrubRequest key => discard (request st key)
  | CScrubStep cancelled budget items => discard (scrub_step st cancelled budget items)
  | CClose => close
  end.

(** The key an operation may publish. *)
Definition publishes (c : store_call) (key : pystr) : Prop :=
  match c with CCommitChunk k _ _ _ _ | CCommitStream k _ _ _ _ => k = key | _ => False end.

(** A scrub may release the tombstone of any key, once it authenticated its file. *)
Definition releases (c : store_call) (key : pystr) : Prop :=
  match c with CScrubStep _ _ _ => True | _ => False end.

(** The calls after which the key may be served again. *)
Definition revives (c : store_call) (key : pystr) : Prop := publishes c key ∨ releases c key.

(** One step: an operation to its end, a change of everything outside the files (the
    schedule of faults, the clock, the pins of other processes, the process itself
    when it restarts), or a loss of power. *)
Inductive system_step : World → World → Prop :=
  | step_call c o w w' : run_store_call c w = (o, w') → system_step w w'
  | step_outside w w' : w_fs w' = w_fs w → system_step w w'
  | step_power_loss w w' : power_loss (w_fs w) (w_fs w') → system_step w w'.

End system.

(** ** Every operation keeps an invariant of the control plane *)
Lemma temporary_name t m : own_temporary t m = true → head m = Some 46.
Proof.
  unfold own_temporary, temporary_nonce. cbv zeta. intros Ho. case_bool_decide as Hp; [|done].
  destruct m as [|c m]; cbn in Hp; [discriminate Hp|by injection Hp as ->].
Qed.

(** The files of the generation epoch, where the invariant leaves their names free. *)
Section epochs.
Context `{Uuid, JsonLoads} {ok scratch I} (HI : store_inv ok scratch I).
Context (free : pystr → Prop) (Hdot : ∀ n, head n = Some 46 → free n).
Context (Hstate : ok state_dir (Some NDir)).
Context (Hfile : ∀ n v, free n → ok (n :: state_dir) v).
Context (Hscratch : ∀ n, free n → scratch (n :: state_dir)).

Lemma state_parents q : q `suffix_of` state_dir → q ≠ [] → ok q (Some NDir).
Proof.
  intros [[|x l] Hq] Hne; [by cbn in Hq; subst|].
  destruct l; [|discriminate Hq]. injection Hq as _ Hq. by subst.
Qed.

Lemma k_state_write n b : free n → keeps I (_atomic_small_write (n :: state_dir) b).
Proof.
  intros Hn. apply (k_atomic_small_write HI); [|intros v; by apply Hfile|exact state_parents].
  intros u. by apply Hscratch, Hdot.
Qed.

Lemma k_state_cleanup n : keeps I (_cleanup_atomic_write_temporaries (n :: state_dir)).
Proof.
  pose proof (k_fsync_dir HI state_dir). unfold _cleanup_atomic_write_temporaries. cbn [tail].
  assert (∀ t l, keeps I (remove_temporaries state_dir t l)); [|io_keeps].
  intros t l. induction l as [|m l IH]; cbn [remove_temporaries]; [apply k_ret|].
  destruct (own_temporary t m) eqn:Ho; cbn [negb]; [|exact IH].
  assert (keeps I (sys_unlink (m :: state_dir))); [|io_keeps].
  apply (k_unlink HI), Hfile, Hdot. by apply temporary_name in Ho.
Qed.

Lemma k_reserve :
  free (lit "generation.json") → free (lit "generation.required.json") →
  keeps I reserve_inventory_generation_epoch.
Proof.
  intros Hg Hr. pose proof (λ b, k_state_write _ b Hg : keeps I (_atomic_small_write generation_path b)).
  pose proof (λ b, k_state_write _ b Hr : keeps I (_atomic_small_write generation_required_path b)).
  pose proof (k_state_cleanup (lit "generation.json") : keeps I (_cleanup_atomic_write_temporaries generation_path)).
  pose proof (k_state_cleanup (lit "generation.required.json")
    : keeps I (_cleanup_atomic_write_temporaries generation_required_path)).
  unfold reserve_inventory_generation_epoch, require_sentry, previous_epoch, load_state. io_keeps.
Qed.

Lemma k_scrub_write b : free (lit "token-scrub.json") → keeps I (_atomic_small_write scrub_path b).
Proof. apply k_state_write. Qed.

Lemma k_scrub_replace n :
  free (lit "token-scrub.json") → (∀ v, ok (n :: quarantine_dir) v) → keeps I (sys_replace scrub_path (n :: quarantine_dir)).
Proof. intros Hn Hq. apply (k_replace HI); [by apply Hfile|done|by intros]. Qed.
End epochs.

Section calls.
Context `{Sha, Uuid, JsonLoads} (st : TokenFileStore) (Hslot : 0 < st_slot_bytes st).
Context {ok scratch I} (HI : store_inv ok scratch I).
Context (Hmark : ∀ e, ok (_inventory_withdrawal_path e) (Some NDir)).
Context (Hman : ∀ e, ok (manifest_path e) None).
Context (Htmp : ∀ n, scratch (n :: tmp_dir)).
Context (Hshard : ∀ s, ok (s :: manifests_dir) (Some NDir)).
Context (Hquarantine : ∀ hk e r, keeps I (_quarantine_manifest hk e r)).
Context (Hack : ∀ e, keeps I (acknowledge_absent e)).
Context (Hreserve : keeps I reserve_inventory_generation_epoch).
Context (Hwrite : ∀ b, keeps I (_atomic_small_write scrub_path b)).
Context (Hreplace : ∀ n, keeps I (sys_replace scrub_path (n :: quarantine_dir))).

(** ** The scrubber *)
Lemma k_scrub_load : keeps I (scrub_load st).
Proof. unfold scrub_load. io_keeps. Qed.

Lemma k_scrub_save s : keeps I (scrub_save s).
Proof. unfold scrub_save. io_keeps. Qed.

Lemma k_scrub_open : keeps I (scrub_open st).
Proof. pose proof k_scrub_save. unfold scrub_open. io_keeps. Qed.

Lemma k_repair : keeps I (repair_invalid_state st).
Proof.
  pose proof k_scrub_save. pose proof k_scrub_load. pose proof (k_fsync_dir HI quarantine_dir).
  pose proof (k_fsync_dir HI state_dir). unfold repair_invalid_state. io_keeps.
Qed.

Lemma k_start_cycle : keeps I (start_cycle st).
Proof. pose proof k_scrub_save. pose proof k_scrub_load. unfold start_cycle. io_keeps. Qed.

Lemma k_request key : keeps I (request st key).
Proof. pose proof k_scrub_save. pose proof k_scrub_load. unfold request. io_keeps. Qed.

Lemma k_scrub_failed key n e k : scrub_failed st key n e = Some k → keeps I k.
Proof.
  pose proof (k_quarantine_bad st HI Hmark Hquarantine key) as Hq. intros Hk.
  assert (k = ret (MkScrubbed key SAbsent n false) ∨
          k = (_ ← _quarantine_bad st key; ret (MkScrubbed key SQuarantined n false))) as [-> | ->];
    [|apply k_ret|apply k_bind; [done|intros ?; apply k_ret]].
  revert Hk. unfold scrub_failed. destruct (exn_class e); (try (destruct (caught_by_OSError_ManifestError e); [|done])); naive_solver.
Qed.

Lemma k_check_file key : keeps I (check_file st key).
Proof.
  pose proof (k_opens st key true (I:=I)). pose proof (k_authenticate st I). unfold check_file.
  apply k_try; [io_keeps|]. intros e k. destruct (scrub_failed st key 0 e) as [m|] eqn:E; [|done].
  apply k_scrub_failed in E. intros [= <-]. io_keeps.
Qed.

Lemma k_release key n : keeps I (_clear_inventory_withdrawal key) → keeps I (release_tombstone st key n).
Proof.
  intros Hc. unfold release_tombstone. apply k_try; [io_keeps|]. intros e k. apply k_scrub_failed.
Qed.

Lemma k_scrub_one key s : keeps I (_clear_inventory_withdrawal key) → keeps I (scrub_one st key s).
Proof.
  intros Hc. pose proof k_scrub_save. pose proof k_scrub_load. pose proof (k_check_file key).
  pose proof (λ n, k_release key n Hc). unfold scrub_one. io_keeps.
Qed.

Lemma k_scrub_step cancelled budget items :
  (∀ key s, keeps I (scrub_one st key s)) → keeps I (scrub_step st cancelled budget items).
Proof.
  intros Hone. pose proof k_scrub_load. pose proof k_scrub_save. pose proof (k_iter_manifest_paths (I:=I)).
  assert (∀ l s done, keeps I (scrub_keys st cancelled budget l s done)).
  { intros l. induction l as [|key l IH]; intros s done; cbn [scrub_keys]; [io_keeps|].
    pose proof (Hone key s). io_keeps. }
  unfold scrub_step, scrub_select, finish_cycle. io_keeps.
Qed.

Lemma k_store_call c :
  (∀ key, publishes c key → ok (_inventory_withdrawal_path key) None ∧
     ∀ fs ino D m, is_digest key = true → I fs → inodes fs !! ino = Some (Inode D true m) →
       complete_file st key D → possible fs (shard_dir key) = [Some NDir] →
       I (set_name (manifest_path key) (Some (NFile ino)) fs)) →
  (∀ key, releases c key → ok (_inventory_withdrawal_path key) None) →
  keeps I (run_store_call st c).
Proof.
  intros Hp Hrel. destruct c; cbn [run_store_call]; unfold discard.
  - destruct (Hp key eq_refl) as [Hc Hl].
    apply k_bind; [|intros ?; apply k_ret].
    apply (k_commit_chunk st HI Htmp Hshard key (complete_file st key) (Hmark key) Hc Hl). intros h header.
    by apply chunk_complete.
  - destruct (Hp key eq_refl) as [Hc Hl].
    apply k_bind; [|intros ?; apply k_ret].
    apply (k_commit_stream st HI Htmp Hshard key (complete_file st key) (Hmark key) Hc Hl).
    intros h views final Hh _ Hs. by eapply stream_complete.
  - pose proof (k_valid_chunk st HI Hmark Hquarantine). io_keeps.
  - pose proof (k_lookup st HI Hmark Hquarantine). io_keeps.
  - apply k_bind; [|intros ?; apply k_ret].
    apply (k_restore_view st HI Hmark Hquarantine). intros v. apply (k_stream_objects st HI Hmark Hquarantine).
  - pose proof (k_scan_offers st (I:=I)). io_keeps.
  - pose proof (k_evict st HI Hmark Hman). io_keeps.
  - pose proof (k_maintain st HI Hmark Hman). io_keeps.
  - pose proof (k_recover HI Htmp). io_keeps.
  - io_keeps.
  - pose proof (k_marker_batch (I:=I)). io_keeps.
  - by apply (k_acknowledge Hack).
  - specialize (Hquarantine (st_hooks st) key reason). io_keeps.
  - unfold acquire_inventory_owner. io_keeps.
  - apply k_scrub_open.
  - apply k_repair.
  - pose proof k_start_cycle. io_keeps.
  - pose proof (k_request key). io_keeps.
  - apply k_bind; [|intros ?; apply k_ret]. apply k_scrub_step. intros key s. apply k_scrub_one, (k_clear HI). by apply Hrel.
  - unfold close. io_keeps.
Qed.
End calls.

(** ** The data invariant *)
Section whole.
Context `{Sha, Uuid, JsonLoads} (st : TokenFileStore) (Hslot : 0 < st_slot_bytes st).
#[local] Abbreviation I := (whole st).
Let HI : store_inv (guard_ok keyed (whole_file st)) (guard_scratch keyed) I := guarded_inv _ _ _.

Lemma unkeyed_not p : unkeyed p → ¬ keyed p.
Proof. intros Hu [key ->]. by apply (Hu key). Qed.

Lemma whole_call c : keeps I (run_store_call st c).
Proof.
  assert (Ho : ∀ p v, unkeyed p → guard_ok keyed (whole_file st) p v) by (intros; right; by apply unkeyed_not).
  assert (Hn : ∀ p, guard_ok keyed (whole_file st) p None) by by left.
  assert (Hs : ∀ n d, unkeyed (n :: d) → guard_scratch keyed (n :: d)) by (intros; split; [done|by apply unkeyed_not]).
  apply (k_store_call st Hslot HI); try (intros; first [apply Hn|apply Ho|apply Hs]; auto with unkeyed; fail).
  - intros hk e r. apply (k_quarantine HI); try apply Hn.
    + apply Ho. auto with unkeyed.
    + intros n v. apply Ho. auto with unkeyed.
  - intros e. assert (keeps I (_clear_inventory_withdrawal e)) by (apply (k_clear HI), Hn).
    pose proof (k_absence HI). unfold acknowledge_absent, _manifest_path. io_keeps.
  - apply (k_reserve HI (λ _, True)); intros; first [done|apply Ho|apply Hs]; auto with unkeyed.
  - intros b. apply (k_scrub_write HI (λ _, True)); intros; first [done|apply Ho|apply Hs]; auto with unkeyed.
  - intros n. apply (k_replace HI); intros; first [done|apply Ho]; auto with unkeyed.
  - intros key _. split; [apply Hn|]. intros fs ino D m _ Hfs Hi Hc _. eapply guarded_link; [done|done|].
    by intros ? ? [= <-] <-%manifest_path_inj.
Qed.

Lemma whole_step w w' : system_step st w w' → I (w_fs w) → I (w_fs w').
Proof.
  destruct 1 as [c o w w' Hr|w w' Hf|w w' Hl]; intros Hw.
  - pose proof (whole_call c w Hw) as Hc. rewrite Hr in Hc. by destruct o.
  - by rewrite Hf.
  - by eapply guarded_power_loss.
Qed.

Lemma whole_reachable w w' : rtc (system_step st) w w' → I (w_fs w) → I (w_fs w').
Proof. induction 1 as [|w w1 w2 Hs _ IH]; [done|]. intros Hw. by eapply IH, whole_step. Qed.
End whole.
