(* ===== verification/StoreFence.v ===== *)
(** * Withdrawn keys stay withdrawn

    [prepared]: the managed directories are durable and published names lie below
    durable shards.  [fenced key]: the withdrawal marker of the key is durable, or its
    absence is.  Evicting or quarantining a key establishes the fence; everything but
    the publication of that key keeps it, crashes included; and behind the fence the
    key cannot be opened. *)
From S2P Require Import Prelude Dict Bytes Utf8 Json Hma Manifest Io RankStore IoSpec FsInv TokenFiles TokenHeader TokenScrub StoreOps StoreInv StoreSystem.

(** ** Entries with one possible value *)
Definition lasting (fs : FS) (p : path) (n : option node) : Prop := ∀ v, v ∈ possible fs p → v = n.

Lemma lasting_names fs p n : lasting fs p n → names fs !! p = n.
Proof. intros Hl. apply Hl, possible_head. Qed.

Lemma lasting_one fs p n : possible fs p = [n] → lasting fs p n.
Proof. intros Hp v. rewrite Hp. by intros ?%list_elem_of_singleton. Qed.

Lemma lasting_set_name fs p n q v : lasting fs p n → (q = p → v = n) → lasting (set_name q v fs) p n.
Proof.
  intros Hl Hv u. rewrite possible_set_name. case_decide as Hd; [|apply Hl].
  intros [->|Hu]%elem_of_cons; [by apply Hv|]. apply Hl. by rewrite Hd.
Qed.

Lemma lasting_sync_dir fs p n d : lasting fs p n → lasting (sync_dir d fs) p n.
Proof. intros Hl v Hv%possible_sub_sync. by apply Hl. Qed.

Lemma lasting_power_loss fs fs' p n : power_loss fs fs' → lasting fs p n → lasting fs' p n.
Proof. intros Hp Hl v Hv. apply Hl. by eapply power_loss_possible. Qed.

(** An invariant together with a lasting entry, and the union of two invariants. *)
Lemma lasting_inv ok scratch I p n ok' scratch' :
  store_inv ok scratch I → (∀ q v, ok' q v → ok q v ∧ (q = p → v = n)) →
  (∀ q, scratch' q → scratch q ∧ q ≠ p ∧ ok' q None) →
  store_inv ok' scratch' (λ fs, I fs ∧ lasting fs p n).
Proof.
  intros HI Hok Hs. split.
  - intros fs [? _]. by apply (si_wf _ _ _ HI).
  - intros fs q v [Hfs Hl] [Hq Hv]%Hok He. split; [by apply (si_name _ _ _ HI)|by apply lasting_set_name].
  - intros fs d [Hfs Hl]. split; [by apply (si_sync _ _ _ HI)|by apply lasting_sync_dir].
  - intros fs q now [Hfs Hl] (Hq & Hne & _)%Hs. split; [by apply (si_create _ _ _ HI)|].
    apply lasting_set_name; [exact Hl|done].
  - intros fs ino q i [Hfs Hl] (Hq & _)%Hs Hi. split; [by eapply (si_write _ _ _ HI)|exact Hl].
  - intros fs ino i now [Hfs Hl] Hi. split; [by apply (si_utime _ _ _ HI)|exact Hl].
  - intros q Hq. destruct (Hs q Hq) as (Hq' & _ & ?). split; [by apply (si_scratch _ _ _ HI)|done].
Qed.

Lemma and_inv ok1 scratch1 ok2 scratch2 I J :
  store_inv ok1 scratch1 I → store_inv ok2 scratch2 J →
  store_inv (λ p v, ok1 p v ∧ ok2 p v) (λ p, scratch1 p ∧ scratch2 p) (λ fs, I fs ∧ J fs).
Proof.
  intros HI HJ. split.
  - intros fs [? _]. by apply (si_wf _ _ _ HI).
  - intros fs p v [? ?] [? ?] He. split; [by apply (si_name _ _ _ HI)|by apply (si_name _ _ _ HJ)].
  - intros fs d [? ?]. split; [by apply (si_sync _ _ _ HI)|by apply (si_sync _ _ _ HJ)].
  - intros fs p now [? ?] [? ?]. split; [by apply (si_create _ _ _ HI)|by apply (si_create _ _ _ HJ)].
  - intros fs ino p i [? ?] [? ?] Hl. split; [by eapply (si_write _ _ _ HI)|by eapply (si_write _ _ _ HJ)].
  - intros fs ino i now [? ?] Hi. split; [by apply (si_utime _ _ _ HI)|by apply (si_utime _ _ _ HJ)].
  - intros p [H1 H2]. destruct (si_scratch _ _ _ HI p H1) as [? ?].
    split; [done|]. split; [done|]. by apply (si_scratch _ _ _ HJ).
Qed.

Lemma or_inv ok scratch ok1 scratch1 ok2 scratch2 I J :
  store_inv ok1 scratch1 I → store_inv ok2 scratch2 J →
  (∀ p v, ok p v → ok1 p v ∧ ok2 p v) → (∀ p, scratch p → scratch1 p ∧ scratch2 p ∧ ok p None) →
  store_inv ok scratch (λ fs, I fs ∨ J fs).
Proof.
  intros HI HJ Hok Hs. split.
  - intros fs [?|?]; [by apply (si_wf _ _ _ HI)|by apply (si_wf _ _ _ HJ)].
  - intros fs p v [?|?] [? ?]%Hok He; [left; by apply (si_name _ _ _ HI)|right; by apply (si_name _ _ _ HJ)].
  - intros fs d [?|?]; [left; by apply (si_sync _ _ _ HI)|right; by apply (si_sync _ _ _ HJ)].
  - intros fs p now [?|?] (? & ? & _)%Hs; [left; by apply (si_create _ _ _ HI)|right; by apply (si_create _ _ _ HJ)].
  - intros fs ino p i [?|?] (? & ? & _)%Hs Hl;
      [left; by eapply (si_write _ _ _ HI)|right; by eapply (si_write _ _ _ HJ)].
  - intros fs ino i now [?|?] Hi; [left; by apply (si_utime _ _ _ HI)|right; by apply (si_utime _ _ _ HJ)].
  - intros p (Hp & _ & ?)%Hs. split; [by apply (si_scratch _ _ _ HI)|done].
Qed.

(** ** The prepared root *)
Definition managed (p : path) : Prop :=
  p ∈ [state_dir; withdrawn_dir; manifests_dir] ∨ ∃ s, p = s :: manifests_dir.

Record prepared (fs : FS) : Prop := {
  pr_wf : fs_wf fs;
  pr_dirs : ∀ p, p ∈ [state_dir; withdrawn_dir; manifests_dir] → lasting fs p (Some NDir);
  pr_shards : ∀ key, lasting fs (manifest_path key) None ∨ lasting fs (shard_dir key) (Some NDir)
}.

Definition base_ok (p : path) (v : option node) : Prop :=
  (unkeyed p ∨ v = None) ∧ (managed p → v = Some NDir).
Definition base_scratch (p : path) : Prop := p ≠ [] ∧ unkeyed p ∧ ¬ managed p.

Lemma shard_managed key : managed (shard_dir key).
Proof. right. by eexists. Qed.

Lemma prepared_set_name fs p v :
  prepared fs → entry_ok fs v → base_ok p v → prepared (set_name p v fs).
Proof.
  intros [Hw Hd Hs] He [Hk Hm]. split; [by apply wf_set_name| |].
  - intros q Hq. apply lasting_set_name; [by apply Hd|]. intros ->. apply Hm. by left.
  - intros key. destruct (Hs key) as [Hl|Hl]; [left|right]; (apply lasting_set_name; [done|]).
    + intros ->. destruct Hk as [Hk|Hk]; [by destruct (Hk key)|done].
    + intros ->. apply Hm, shard_managed.
Qed.

Lemma prepared_inv : store_inv base_ok base_scratch prepared.
Proof.
  split.
  - by intros fs [].
  - intros fs p v Hfs Hok He. by apply prepared_set_name.
  - intros fs d [Hw Hd Hs]. split; [by apply wf_sync_dir| |].
    + intros p Hp. by apply lasting_sync_dir, Hd.
    + intros key. destruct (Hs key); [left|right]; by apply lasting_sync_dir.
  - intros fs p now [Hw Hd Hs] (Hne & Hu & Hm). split; [by apply wf_create| |].
    + intros q Hq. apply lasting_set_name; [exact (Hd q Hq)|]. intros ->. destruct Hm. by left.
    + intros key. destruct (Hs key) as [Hl|Hl]; [left|right]; (apply lasting_set_name; [exact Hl|]); intros ->.
      * by destruct (Hu key).
      * destruct Hm. apply shard_managed.
  - intros fs ino p i [Hw Hd Hs] _ [Hi _]. split; [by apply wf_set_inode|exact Hd|exact Hs].
  - intros fs ino i now [Hw Hd Hs] Hi. split; [apply wf_set_inode; [done|by rewrite Hi]|exact Hd|exact Hs].
  - intros p (Hne & Hu & Hm). split; [done|]. split; [by right|done].
Qed.

Lemma prepared_link fs ino key :
  prepared fs → is_Some (inodes fs !! ino) → possible fs (shard_dir key) = [Some NDir] →
  prepared (set_name (manifest_path key) (Some (NFile ino)) fs).
Proof.
  intros [Hw Hd Hs] Hi Hsh. split; [by apply wf_set_name| |].
  - intros p Hp. apply lasting_set_name; [by apply Hd|]. intros <-.
    by repeat (apply elem_of_cons in Hp as [Hp|Hp]; [discriminate Hp|]); apply elem_of_nil in Hp.
  - intros key'. assert (Hl : lasting fs (shard_dir key') (Some NDir) →
      lasting (set_name (manifest_path key) (Some (NFile ino)) fs) (shard_dir key') (Some NDir)).
    { intros Hl. by apply lasting_set_name. }
    destruct (decide (key' = key)) as [->|Hne].
    + right. by apply Hl, lasting_one.
    + destruct (Hs key') as [Hn|?]; [left|right; by apply Hl]. apply lasting_set_name; [done|].
      by intros ->%manifest_path_inj.
Qed.

Lemma prepared_power_loss fs fs' : prepared fs → power_loss fs fs' → prepared fs'.
Proof.
  intros [Hw Hd Hs] Hl. split; [by eapply wf_power_loss| |].
  - intros p Hp. by eapply lasting_power_loss, Hd.
  - intros key. destruct (Hs key); [left|right]; by eapply lasting_power_loss.
Qed.

Lemma prepared_live fs p : prepared fs → p ∈ [state_dir; withdrawn_dir; manifests_dir] → live fs p = Some NDir.
Proof.
  intros [_ Hd _] Hp. pose proof (lasting_names _ _ _ (Hd p Hp)) as Hn.
  pose proof (lasting_names _ _ _ (Hd state_dir ltac:(by left))) as Hn'.
  rewrite !elem_of_cons, elem_of_nil in Hp. destruct Hp as [->|[->|[->|[]]]]; [exact Hn| |exact Hn].
  change (match names fs !! state_dir with Some NDir => names fs !! withdrawn_dir | _ => None end = Some NDir).
  by rewrite Hn'.
Qed.

(** A managed key's name is reached through its directories. *)
Lemma prepared_name fs key n :
  prepared fs → names fs !! manifest_path key = Some n → live fs (manifest_path key) = Some n.
Proof.
  intros Hp Hn. destruct (pr_shards _ Hp key) as [Hl|Hs%lasting_names]; [apply lasting_names in Hl; congruence|].
  pose proof (prepared_live _ manifests_dir Hp ltac:(right; right; by left)) as Hd.
  assert (live fs (shard_dir key) = Some NDir) as Hsh.
  { unfold shard_dir in *. by rewrite live_child. }
  unfold manifest_path in *. by rewrite live_child.
Qed.

Lemma prepared_manifest fs key : prepared fs → live fs (manifest_path key) = names fs !! manifest_path key.
Proof.
  intros Hp. destruct (names fs !! manifest_path key) as [n|] eqn:E; [by apply prepared_name|].
  destruct (live fs (manifest_path key)) as [n|] eqn:El; [|done]. apply live_names in El; [|done]. congruence.
Qed.

Lemma prepared_marker fs key :
  prepared fs → live fs (_inventory_withdrawal_path key) = names fs !! _inventory_withdrawal_path key.
Proof. intros Hp. apply live_child. apply (prepared_live _ _ Hp). right. by left. Qed.

(** ** The fence *)
Definition marked (key : pystr) (fs : FS) : Prop :=
  prepared fs ∧ lasting fs (_inventory_withdrawal_path key) (Some NDir).
Definition gone (key : pystr) (fs : FS) : Prop := prepared fs ∧ lasting fs (manifest_path key) None.
Definition fenced (key : pystr) (fs : FS) : Prop := marked key fs ∨ gone key fs.

Definition fence_ok (key : pystr) (p : path) (v : option node) : Prop :=
  base_ok p v ∧ (p = _inventory_withdrawal_path key → v = Some NDir).
Definition fence_scratch (key : pystr) (p : path) : Prop :=
  base_scratch p ∧ p ≠ _inventory_withdrawal_path key.

Lemma gone_inv key : store_inv base_ok base_scratch (gone key).
Proof.
  apply (lasting_inv _ _ _ _ _ _ _ prepared_inv).
  - intros q v Hok. split; [done|]. intros ->. destruct Hok as [[Hu|?] _]; [by destruct (Hu key)|done].
  - intros q Hq. split; [done|]. split; [by intros ->; destruct Hq as (_ & Hu & _); apply (Hu key)|].
    by apply (si_scratch _ _ _ prepared_inv).
Qed.

Lemma marked_inv key : store_inv (fence_ok key) (fence_scratch key) (marked key).
Proof.
  apply (lasting_inv _ _ _ _ _ _ _ prepared_inv); [done|].
  intros q [Hq Hne]. split; [done|]. split; [done|]. split; [|done].
  by apply (si_scratch _ _ _ prepared_inv).
Qed.

Lemma fenced_inv key : store_inv (fence_ok key) (fence_scratch key) (fenced key).
Proof.
  apply (or_inv _ _ _ _ _ _ _ _ (marked_inv key) (gone_inv key)).
  - by intros p v [? ?].
  - intros p [? ?]. split; [done|]. split; [done|]. by apply (si_scratch _ _ _ (marked_inv key)).
Qed.

Lemma fenced_prepared key fs : fenced key fs → prepared fs.
Proof. by intros [[? _]|[? _]]. Qed.

Lemma fenced_power_loss key fs fs' : fenced key fs → power_loss fs fs' → fenced key fs'.
Proof.
  intros [[Hp Hl]|[Hp Hl]] Hw; [left|right]; (split; [by eapply prepared_power_loss|by eapply lasting_power_loss]).
Qed.

(** ** Names of the control plane *)
Lemma unmanaged p : last p ≠ Some (lit "manifests") → p ≠ state_dir → p ≠ withdrawn_dir → ¬ managed p.
Proof.
  intros Hl Hs Hw [Hp|[s ->]]; [|by apply Hl].
  rewrite !elem_of_cons, elem_of_nil in Hp. destruct Hp as [->|[->|[->|[]]]]; done.
Qed.

Lemma base_free p v : unkeyed p → ¬ managed p → base_ok p v.
Proof. intros Hu Hm. split; [by left|done]. Qed.

Lemma base_marker e v : base_ok (_inventory_withdrawal_path e) v.
Proof. apply base_free; [auto with unkeyed|]. apply unmanaged; [done|done|]. by intros [=]. Qed.

Lemma base_manifest e : base_ok (manifest_path e) None.
Proof.
  split; [by right|]. intros [Hp|[s Hp]]; [|by injection Hp].
  rewrite !elem_of_cons, elem_of_nil in Hp. by destruct Hp as [?|[?|[?|[]]]].
Qed.

Lemma base_shard s : base_ok (s :: manifests_dir) (Some NDir).
Proof. split; [left; auto with unkeyed|done]. Qed.

Lemma base_quarantine n v : base_ok (n :: quarantine_dir) v.
Proof. apply base_free; [auto with unkeyed|]. by apply unmanaged. Qed.

Lemma base_tmp n : base_scratch (n :: tmp_dir).
Proof. split; [done|]. split; [auto with unkeyed|]. by apply unmanaged. Qed.

Lemma base_state n v : n ≠ lit "inventory-withdrawn" → base_ok (n :: state_dir) v.
Proof. intros Hn. apply base_free; [auto with unkeyed|]. apply unmanaged; [done|done|]. by intros [=]. Qed.

Lemma base_state_scratch n : n ≠ lit "inventory-withdrawn" → base_scratch (n :: state_dir).
Proof.
  intros Hn. split; [done|]. split; [auto with unkeyed|]. apply unmanaged; [done|done|]. by intros [=].
Qed.

Lemma base_state_dir : base_ok state_dir (Some NDir).
Proof. split; [left; auto with unkeyed|done]. Qed.

Lemma dot_name n : head n = Some 46 → n ≠ lit "inventory-withdrawn".
Proof. by intros Hn ->. Qed.

(** A name that is not the marker of the key. *)
Lemma fence_free key p v : base_ok p v → p ≠ _inventory_withdrawal_path key → fence_ok key p v.
Proof. by intros ? ?. Qed.

Lemma marker_inj a b : _inventory_withdrawal_path a = _inventory_withdrawal_path b → a = b.
Proof. by intros [= ->]. Qed.

(** ** The operations that clear the marker of the key *)
Lemma t_exclusive {A} (I : FS → Prop) (m : IO A) (Q : A → FS → Prop) :
  triple I m Q I → triple I (exclusive m) Q I.
Proof.
  intros Hm. assert (Hd : ∀ n (P E : FS → Prop), triple P (set_proc_depth n) (λ _, P) E) by by intros n P E w Hw.
  unfold exclusive. eapply t_bind; [apply (k_get_proc I)|]. intros p. cbv beta. destruct (lock_depth p).
  - apply (t_finally I _ _ _ _ Q); [|intros a; apply Hd|apply Hd].
    eapply t_bind; [apply (k_open_lock I)|]. intros ?. eapply t_bind; [apply (k_flock I)|]. intros ?.
    eapply t_bind; [apply (k_open_regular I)|]. intros ?. eapply t_bind; [apply (k_flock I)|]. intros ?.
    eapply t_bind; [apply Hd|]. intros ?. exact Hm.
  - eapply t_bind; [apply Hd|]. intros ?. apply (t_finally I _ _ _ _ Q); [exact Hm|intros ?; apply Hd|apply Hd].
Qed.

Lemma t_attempt P m (Q : unit → FS → Prop) E :
  triple P m Q E → triple P (attempt m) (λ a fs, match a with None => Q tt fs | Some _ => E fs end) E.
Proof.
  intros Hm w Hw. unfold attempt. specialize (Hm w Hw). destruct (m w) as [[[]|e|] w']; done.
Qed.

Lemma t_lookup (I : FS → Prop) p :
  triple I (or_else FileNotFoundError None (n ← sys_lstat p; ret (Some n))) (λ v fs, live fs p = v ∧ I fs) I.
Proof.
  intros w Hw. unfold or_else, try_with, mbind, io_bind.
  pose proof (k_lstat I p w Hw) as Hk.
  destruct (sys_lstat p w) as [[n|e|] w'] eqn:E; [|case_decide as He|exact Hk].
  - apply lstat_Ret in E as [Hl Hf]. cbn. by rewrite Hf.
  - apply lstat_missing in E as [Hl Hf]; [|done]. cbn. by rewrite Hf.
  - exact Hk.
Qed.

Lemma t_name_exists (I : FS → Prop) p :
  triple I (name_exists p) (λ b fs, (b = false → live fs p = None) ∧ I fs) I.
Proof.
  intros w Hw. unfold name_exists, or_else, try_with, mbind, io_bind.
  pose proof (k_lstat I p w Hw) as Hk.
  destruct (sys_lstat p w) as [[n|e|] w'] eqn:E; [|case_decide as He|exact Hk].
  - by split.
  - apply lstat_missing in E as [Hl Hf]; [|done]. cbn. by rewrite Hf.
  - exact Hk.
Qed.

Section fence.
Context `{Uuid}.

(** Quarantine: when it reports success the name is durably absent. *)
Lemma t_quarantine ok scratch (I : FS → Prop) hk key r :
  store_inv ok scratch I → (∀ fs, I fs → prepared fs) → (∀ fs, gone key fs → I fs) →
  ok (manifest_path key) None → ok (_inventory_withdrawal_path key) (Some NDir) →
  (∀ n v, ok (n :: quarantine_dir) v) →
  triple I (_quarantine_manifest hk key r) (λ b fs, I fs ∧ (b = true → gone key fs)) I.
Proof.
  intros HI Hp Hg Hm Hw Hq. pose proof (gone_inv key) as HG.
  assert (Kr : ∀ J, keeps J (_record_withdrawal hk key)) by (intros J; unfold _record_withdrawal; io_keeps).
  assert (Kq : ∀ J, keeps J (_record_quarantine hk r)) by (intros J; unfold _record_quarantine; io_keeps).
  assert (Kc : keeps (gone key) (_clear_inventory_withdrawal key)) by (apply (k_clear HG), base_marker).
  pose proof (k_mark HI _ Hw) as Km. pose proof (k_fsync_dir HI quarantine_dir) as Kf.
  pose proof (k_fsync_dir HG quarantine_dir) as Kf'.
  unfold _quarantine_manifest. eapply t_bind; [apply (k_guard I)|]. intros ?. apply t_exclusive. cbv zeta.
  eapply (t_bind _ _ _ _ (λ _, I)); [change (keeps I (if is_digest key then
    a ← attempt (_mark_inventory_withdrawn key); b ← attempt (_record_withdrawal hk key); ret (first_error a b)
    else ret None)); unfold _mark_inventory_withdrawn; io_keeps|]. intros wd.
  eapply t_bind; [apply (k_fresh_uuid I)|]. intros u. cbv beta.
  eapply (t_bind _ _ _ _ (λ moved fs, I fs ∧ (moved = true → names fs !! manifest_path key = None))).
  { apply t_try; [|intros e k Hk; case_decide; [injection Hk as <-|done]; by intros w Hi].
    eapply (t_bind _ _ _ _ (λ _ fs, I fs ∧ names fs !! manifest_path key = None)); [|by intros ? w [? ?]].
    apply t_replace; [done|]. intros fs n Hfs Hl _ _. split.
    - apply (si_name _ _ _ HI); [|done|done]. apply (si_name _ _ _ HI); [done|apply Hq|].
      eapply live_entry_ok; [by apply (si_wf _ _ _ HI)| |done]. done.
    - unfold set_name at 1. cbn. by rewrite lookup_partial_alter_eq. }
  intros moved. cbv beta. destruct moved; cbn [negb]; [|by intros w [? _]].
  eapply t_bind.
  { eapply t_conseq; [apply t_attempt, (t_sync_entry HI (manifest_path key) None)|by intros fs [? ?]; auto| |done]; [done|].
    intros durable fs Ha. exact Ha. }
  intros durable. cbv beta. destruct durable as [e|].
  - eapply t_bind; [apply (k_attempt I), Kf|]. intros b. cbv zeta beta.
    eapply t_bind; [apply (Kq I)|]. intros ?.
    destruct wd as [e'|]; cbn [first_error]; by intros w Hi.
  - eapply (t_conseq _ (gone key) _ _ (λ _, gone key) _ (gone key)); [|intros fs [Hi Hpos]; split; [by apply Hp|by apply lasting_one]| |done].
    2:{ intros b fs Hfs. by split; [apply Hg|]. }
    change (keeps (gone key) (b ← attempt (sys_fsync_dir quarantine_dir);
      let durability_error := first_error wd (first_error None b) in
      _ ← _record_quarantine hk r;
      match durability_error with
      | Some _ => throw RuntimeError "manifest quarantine changed namespace without a complete receipt"
      | None =>
          proc ← get_proc;
          _ ← (if is_digest key && owns_inventory proc && has_withdraw_hook hk
               then _clear_inventory_withdrawal key else ret tt);
          ret true
      end)).
    specialize (Kq (gone key)). io_keeps.
Qed.

(** The acknowledgement of an absent key makes the absence durable before it clears. *)
Lemma t_absence ok scratch (I : FS → Prop) key :
  store_inv ok scratch I → (∀ fs, I fs → prepared fs) → (∀ fs, gone key fs → I fs) →
  triple (λ fs, live fs (manifest_path key) = None ∧ I fs) (_fsync_manifest_absence_locked (manifest_path key))
    (λ _, gone key) I.
Proof.
  intros HI Hp Hg. unfold _fsync_manifest_absence_locked.
  eapply t_bind; [eapply t_conseq; [apply t_lookup|intros ? Hx; exact Hx|intros ? ? Hx; exact Hx|by intros ? [_ ?]]|].
  intros found. cbv beta. change (tail (manifest_path key)) with (shard_dir key).
  destruct found as [[]|]; try (by intros w (_ & _ & ?)).
  - eapply t_conseq; [apply (t_sync_entry HI (manifest_path key) None); done| |intros ? fs [Hi Hn]|done].
    + intros fs (Hs & Hl & Hi). split; [done|]. cbn in Hl. cbn in Hs. by rewrite Hs in Hl.
    + split; [by apply Hp|by apply lasting_one].
  - eapply t_conseq; [apply (k_fsync_dir (gone_inv key))| |done|exact Hg].
    intros fs (Hs & Hl & Hi). pose proof (Hp _ Hi) as Hpr. split; [done|].
    destruct (pr_shards _ Hpr key) as [?|Hsh]; [done|]. apply lasting_names in Hsh.
    pose proof (prepared_live _ manifests_dir Hpr ltac:(right; right; by left)) as Hman.
    change (match live fs manifests_dir with Some NDir => names fs !! shard_dir key | _ => None end = None) in Hs.
    by rewrite Hman, Hsh in Hs.
Qed.

Lemma t_acknowledge ok scratch (I : FS → Prop) key :
  store_inv ok scratch I → (∀ fs, I fs → prepared fs) → (∀ fs, gone key fs → I fs) →
  keeps I (acknowledge_absent key).
Proof.
  intros HI Hp Hg. unfold acknowledge_absent, _manifest_path.
  eapply t_bind; [apply (k_guard I)|]. intros ?. destruct (is_digest key); [|by intros w Hi].
  eapply t_bind; [apply (t_ret I)|]. intros p. apply t_pure. intros ->.
  eapply t_bind; [apply (t_name_exists I)|]. intros present. cbv beta.
  destruct present; [by intros w [_ ?]|].
  eapply t_bind; [eapply t_conseq; [by apply (t_absence _ _ _ key HI)|by intros fs [Hl Hi]; auto|intros ? ? Hx; exact Hx|done]|].
  intros ?. cbv beta. eapply (t_conseq _ (gone key) _ _ (λ _, gone key) _ (gone key)); [|done|by intros ?|done].
  assert (keeps (gone key) (_clear_inventory_withdrawal key)) by (apply (k_clear (gone_inv key)), base_marker).
  match goal with |- triple _ ?m _ _ => change (keeps (gone key) m) end. io_keeps.
Qed.

(** ** Establishing the fence *)
Lemma fenced_marked_link key : ∀ fs, gone key fs → fenced key fs.
Proof. by right. Qed.

Lemma t_evict `{Sha, JsonLoads} (st : TokenFileStore) key :
  triple prepared (evict st key) (λ b fs, b = true → fenced key fs) prepared.
Proof.
  assert (Kr : ∀ J hk, keeps J (_record_withdrawal hk key)) by (intros J hk; unfold _record_withdrawal; io_keeps).
  unfold evict. apply t_exclusive. eapply t_bind; [apply (k_pins_busy prepared)|]. intros busy.
  destruct busy; [by intros w Hw|]. unfold _manifest_path. destruct (is_digest key); [|by intros w Hw].
  eapply t_bind; [apply (t_ret prepared)|]. intros p. apply t_pure. intros ->.
  eapply t_bind; [apply (k_exists prepared)|]. intros present. destruct present; [|by intros w Hw].
  cbn [negb]. eapply t_bind; [apply (t_mark prepared_inv); [apply base_marker|done]|]. intros ?. cbv beta.
  apply (t_conseq _ (marked key) _ _ (λ _, marked key) _ (marked key)).
  - assert (keeps (marked key) (sys_unlink (manifest_path key))).
    { apply (k_unlink (marked_inv key)), fence_free; [apply base_manifest|done]. }
    specialize (Kr (marked key) (st_hooks st)). pose proof (k_fsync_dir (marked_inv key) (tail (manifest_path key))).
    match goal with |- triple _ ?m _ _ => change (keeps (marked key) m) end. io_keeps.
  - intros fs [Hp Hl]. split; [done|by apply lasting_one].
  - by left.
  - by intros fs [? _].
Qed.

(** The ways a key is withdrawn, with the report of success. *)
Inductive withdraws `{Sha, JsonLoads} (st : TokenFileStore) (key : pystr) (w w' : World) : Prop :=
  | withdraws_evict : evict st key w = (Ret true, w') → withdraws st key w w'
  | withdraws_quarantine reason :
      _quarantine_manifest (st_hooks st) key reason w = (Ret true, w') → withdraws st key w w'
  | withdraws_mark : _mark_inventory_withdrawn key w = (Ret tt, w') → withdraws st key w w'.

Lemma withdraws_fenced `{Sha, JsonLoads} st key w w' :
  prepared (w_fs w) → withdraws st key w w' → fenced key (w_fs w').
Proof.
  intros Hp [He|r Hq|Hm].
  - by apply (triple_Ret _ _ _ _ _ _ _ (t_evict st key) Hp He).
  - pose proof (t_quarantine _ _ prepared (st_hooks st) key r prepared_inv (λ _ h, h) (λ _ h, proj1 h)
      (base_manifest _) (base_marker _ _) base_quarantine) as Ht.
    right. by apply (triple_Ret _ _ _ _ _ _ _ Ht Hp Hq).
  - pose proof (triple_Ret _ _ _ _ _ _ _ (t_mark prepared_inv (_inventory_withdrawal_path key) (base_marker _ _) ltac:(done)) Hp Hm)
      as [Hw Hl]. left. split; [done|by apply lasting_one].
Qed.

(** ** Keeping the fence *)
Lemma fenced_closed key fs :
  prepared fs → live fs (_inventory_withdrawal_path key) = None →
  fenced key fs → live fs (manifest_path key) = None.
Proof.
  intros Hp Hl [[_ Hm]|[_ Hg]].
  - apply lasting_names in Hm. pose proof (prepared_live _ withdrawn_dir Hp ltac:(right; by left)) as Hd.
    change (match live fs withdrawn_dir with Some NDir => names fs !! _inventory_withdrawal_path key | _ => None end = None) in Hl.
    by rewrite Hd, Hm in Hl.
  - apply lasting_names in Hg. destruct (live fs (manifest_path key)) eqn:E; [|done].
    apply live_names in E; [|done]. congruence.
Qed.
End fence.

Section system.
Context `{Sha, Uuid, JsonLoads} (st : TokenFileStore) (Hslot : 0 < st_slot_bytes st).

Lemma prepared_call c : keeps prepared (run_store_call st c).
Proof.
  pose proof prepared_inv as HI.
  apply (k_store_call st Hslot HI); try (intros; first [apply base_marker|apply base_manifest|apply base_tmp|
    apply base_shard]).
  - intros hk e r. apply (k_quarantine HI); [apply base_manifest|apply base_marker..|intros; apply base_quarantine].
  - intros e. apply (t_acknowledge _ _ _ e HI); [done|by intros fs [? _]].
  - by apply (k_reserve HI (λ n, n ≠ lit "inventory-withdrawn") dot_name base_state_dir base_state base_state_scratch).
  - intros b. by apply (k_scrub_write HI (λ n, n ≠ lit "inventory-withdrawn") dot_name base_state_dir base_state base_state_scratch).
  - intros n. apply (k_replace HI); [by apply base_state|done|intros; apply base_quarantine].
  - intros key _. split; [apply base_marker|]. intros fs ino D m _ Hfs Hi _ Hsh. apply prepared_link; [done|by rewrite Hi|done].
Qed.

Lemma fenced_call key c : ¬ revives c key → keeps (fenced key) (run_store_call st c).
Proof.
  intros Hc. pose proof (fenced_inv key) as HI.
  assert (Hf : ∀ p v, base_ok p v → p ≠ _inventory_withdrawal_path key → fence_ok key p v) by by intros p v ? ?.
  assert (Hmark : ∀ e, fence_ok key (_inventory_withdrawal_path e) (Some NDir)) by (split; [apply base_marker|done]).
  assert (Hown : ∀ e, e ≠ key → fence_ok key (_inventory_withdrawal_path e) None).
  { intros e He. apply Hf; [apply base_marker|]. by intros ?%marker_inj. }
  apply (k_store_call st Hslot HI).
  - done.
  - intros e. by apply Hf; [apply base_manifest|].
  - intros n. by split; [apply base_tmp|].
  - intros s. by apply Hf; [apply base_shard|].
  - intros hk e r. destruct (decide (e = key)) as [->|He].
    + eapply t_conseq; [apply (t_quarantine _ _ _ hk key r HI)|done|by intros ? ? [? _]|done].
      * apply fenced_prepared.
      * by right.
      * by apply Hf; [apply base_manifest|].
      * done.
      * intros n v. by apply Hf; [apply base_quarantine|].
    + apply (k_quarantine HI); [by apply Hf; [apply base_manifest|]|done|by apply Hown|].
      intros n v. by apply Hf; [apply base_quarantine|].
  - intros e. destruct (decide (e = key)) as [->|He].
    + apply (t_acknowledge _ _ _ key HI); [apply fenced_prepared|by right].
    + assert (keeps (fenced key) (_clear_inventory_withdrawal e)) by (apply (k_clear HI), Hown, He).
      pose proof (k_absence HI). unfold acknowledge_absent, _manifest_path. io_keeps.
  - apply (k_reserve HI (λ n, n ≠ lit "inventory-withdrawn") dot_name); try done.
    + by apply Hf; [apply base_state_dir|].
    + intros n v Hn. apply Hf; [by apply base_state|]. by intros [=].
    + intros n Hn. split; [by apply base_state_scratch|]. by intros [=].
  - intros b. apply (k_scrub_write HI (λ n, n ≠ lit "inventory-withdrawn") dot_name); try done.
    + by apply Hf; [apply base_state_dir|].
    + intros n v Hn. apply Hf; [by apply base_state|]. by intros [=].
    + intros n Hn. split; [by apply base_state_scratch|]. by intros [=].
  - intros n. apply (k_replace HI); [apply Hf; [by apply base_state|by intros [=]]|done|].
    intros v. by apply Hf; [apply base_quarantine|].
  - intros key' Hk. assert (key' ≠ key) as Hne by (intros ->; apply Hc; by left). split; [by apply Hown|].
    intros fs ino D m _ Hfs Hi _ Hsh. pose proof (fenced_prepared _ _ Hfs) as Hp.
    assert (Hp' : prepared (set_name (manifest_path key') (Some (NFile ino)) fs)).
    { apply prepared_link; [done|by rewrite Hi|done]. }
    destruct Hfs as [[_ Hl]|[_ Hl]]; [left|right]; (split; [done|]); apply lasting_set_name; try done.
    by intros ?%manifest_path_inj.
  - intros key' Hk. destruct Hc. right. by destruct c.
Qed.

(** Steps of the system that do not publish the key. *)
Inductive unpublished_step (key : pystr) : World → World → Prop :=
  | other_call c o w w' : ¬ publishes c key → run_store_call st c w = (o, w') → unpublished_step key w w'
  | other_outside w w' : w_fs w' = w_fs w → unpublished_step key w w'
  | other_power_loss w w' : power_loss (w_fs w) (w_fs w') → unpublished_step key w w'.

Lemma prepared_reachable w w' : rtc (system_step st) w w' → prepared (w_fs w) → prepared (w_fs w').
Proof.
  induction 1 as [|w w1 w2 Hs _ IH]; [done|]. intros Hw. apply IH. clear IH.
  destruct Hs as [c o w w' Hr|w w' Hf|w w' Hl]; [|by rewrite Hf|by eapply prepared_power_loss].
  pose proof (prepared_call c w Hw) as Hc. rewrite Hr in Hc. by destruct o.
Qed.

End system.
