(* ===== verification/StoreEpochs.v ===== *)
(** * Generation epochs

    [epoch_from e]: whatever a power loss leaves under [generation.json] is a synced
    file that decodes to an epoch of at least [e].  Reserving an epoch establishes it
    for the epoch it returns, and everything keeps it: later epochs are larger. *)
From S2P Require Import Prelude Dict Bytes Utf8 Json Hma Manifest Io RankStore IoSpec FsInv TokenFiles TokenHeader TokenScrub StoreOps StoreInv StoreSystem StoreFence.

(** ** The arithmetic of the next epoch *)
Lemma next_epoch_spec previous clock :
  0 ≤ previous < MAX_GENERATION_EPOCH → 0 < clock ≤ MAX_GENERATION_EPOCH - PERSISTENT_GENERATION_EPOCH_BASE →
  previous < next_epoch previous clock ≤ MAX_GENERATION_EPOCH ∧
  PERSISTENT_GENERATION_EPOCH_BASE < next_epoch previous clock.
Proof.
  assert (Hb : MAX_GENERATION_EPOCH = 2 * PERSISTENT_GENERATION_EPOCH_BASE - 1) by reflexivity.
  assert (Hp : 0 < PERSISTENT_GENERATION_EPOCH_BASE) by reflexivity.
  generalize dependent MAX_GENERATION_EPOCH. unfold next_epoch.
  generalize dependent PERSISTENT_GENERATION_EPOCH_BASE. intros base Hp m ->.
  case_match; bsimp; lia.
Qed.

(** ** Decoding *)
Definition file_epoch `{JsonLoads} (data : list byte) : result Z := payload ← json_loads data; epoch_of payload.

Lemma generation_epoch_of e : 0 < e ≤ MAX_GENERATION_EPOCH → epoch_of (canon (generation_json e)) = Ok e.
Proof.
  intros He. unfold generation_json. cbn [canon map].
  assert (Hs : sort_keys [(lit "schema", canon (JStr GENERATION_STATE_SCHEMA)); (lit "epoch", canon (JInt e))]
             = [(lit "epoch", JInt e); (lit "schema", JStr GENERATION_STATE_SCHEMA)]) by reflexivity.
  cbn [fst snd]. rewrite Hs. unfold epoch_of.
  rewrite bool_decide_eq_true_2; [|cbn; set_solver].
  change (od_get (lit "schema") [(lit "epoch", JInt e); (lit "schema", JStr GENERATION_STATE_SCHEMA)])
    with (Some (JStr GENERATION_STATE_SCHEMA)).
  change (od_get (lit "epoch") [(lit "epoch", JInt e); (lit "schema", JStr GENERATION_STATE_SCHEMA)]) with (Some (JInt e)).
  cbv iota. rewrite bool_decide_eq_true_2 by done. unfold raise. case_match eqn:E; [done|]. bsimp. lia.
Qed.

Lemma epoch_of_Ok v e : epoch_of v = Ok e → 0 < e ≤ MAX_GENERATION_EPOCH.
Proof. unfold epoch_of, raise. intros Hv. repeat case_match; try discriminate Hv. injection Hv as ->. bsimp. lia. Qed.

Lemma written_epoch `{JsonLoads} e encoded :
  0 < e ≤ MAX_GENERATION_EPOCH → canonical_json (generation_json e) = Ok encoded →
  file_epoch (encoded ++ newline) = Ok e.
Proof.
  intros He [_ Hc]%json_loads_canonical. unfold file_epoch, newline. rewrite Hc. cbn [mbind result_bind].
  by apply generation_epoch_of.
Qed.

(** ** An atomic write *)
(** The replacement of a file by way of a synced temporary, without the parents. *)
Definition replace_file `{Uuid} (target : path) (payload : list byte) : IO unit :=
  u ← fresh_uuid;
  let temporary := small_temporary target u in
  ino ← sys_create temporary;
  let cleanup := ignoring FileNotFoundError (sys_unlink temporary) in
  _ ← on_error (_ ← write_loop (S (length payload)) ino 0 payload; sys_fsync ino) cleanup;
  _ ← on_error (sys_replace temporary target) cleanup;
  sys_fsync_dir (tail target).

Lemma atomic_small_write_replace `{Uuid} target payload :
  payload ≠ [] → _atomic_small_write target payload = (_ ← mkdir_parents (tail target); replace_file target payload).
Proof. intros Hp. unfold _atomic_small_write, _write_all. by rewrite bool_decide_eq_false_2. Qed.

Section atomic.
Context `{Uuid} {ok scratch I} (HI : store_inv ok scratch I).

Lemma t_replace_file n d payload :
  (∀ u, scratch (small_temporary (n :: d) u)) → payload ≠ [] →
  (∀ fs ino m, I fs → inodes fs !! ino = Some (Inode payload true m) → I (set_name (n :: d) (Some (NFile ino)) fs)) →
  triple I (replace_file (n :: d) payload)
    (λ _ fs, I fs ∧ ∃ ino m, possible fs (n :: d) = [Some (NFile ino)] ∧ inodes fs !! ino = Some (Inode payload true m)) I.
Proof.
  intros Hs Hne Hrep. unfold replace_file. cbn [tail].
  eapply t_bind; [apply (k_fresh_uuid I)|]. intros u. cbv beta zeta.
  change ((lit "." ++ name_of (n :: d) ++ lit "." ++ u ++ lit ".tmp") :: d) with (small_temporary (n :: d) u).
  specialize (Hs u). destruct (si_scratch _ _ _ HI _ Hs) as [Hne' Hok].
  assert (Hdiff : n :: d ≠ small_temporary (n :: d) u).
  { unfold small_temporary, name_of. cbn. intros [= E]. apply (f_equal length) in E. cbn in E.
    rewrite !length_app in E. lia. }
  set (tmp := small_temporary (n :: d) u) in *.
  assert (Hcl : keeps I (ignoring FileNotFoundError (sys_unlink tmp))) by (apply k_ignoring, (k_unlink HI), Hok).
  eapply t_bind; [by apply (t_create_unpublished HI)|]. intros ino.
  eapply (t_bind _ _ _ _ (λ _, sealed I ino tmp payload)).
  - apply t_on_error; [|exact Hcl]. eapply t_bind; [|intros ?; by apply (t_seal HI)].
    eapply t_conseq; [apply (t_write_loop (unpublished I ino tmp) ino (S (length payload)) 0 payload [])|done| |by intros ? [? _]].
    + intros fs i Hu _. by apply (unpublished_write HI).
    + lia.
    + done.
    + intros ? fs Hfs. change (overwrite 0 payload []) with (overwrite (length (@nil byte)) payload []) in Hfs. by rewrite overwrite_end in Hfs.
  - intros ?. eapply (t_bind _ _ _ _ (λ _ fs, (I fs ∧ ∃ m, inodes fs !! ino = Some (Inode payload true m)) ∧
      names fs !! (n :: d) = Some (NFile ino))).
    + apply t_on_error; [|exact Hcl]. apply t_replace; [by intros fs [(? & _) _]|].
      intros fs v [(Hi & Hl & Hn) [m Hm]] Ho _ _. apply live_names in Ho; [|done].
      rewrite Hn in Ho. injection Ho as <-. split; [split|].
      * apply (si_name _ _ _ HI); [by eapply Hrep|done|done].
      * by exists m.
      * unfold set_name at 1. cbn. rewrite lookup_partial_alter_ne by done. by rewrite lookup_partial_alter_eq.
    + intros ?. apply t_fsync_dir; [by intros fs [[? _] _]|]. intros fs [[Hi [m Hm]] Hn] _. split.
      * by apply (si_sync _ _ _ HI).
      * exists ino, m. rewrite possible_sync_dir, decide_True by done. by rewrite Hn.
Qed.

Lemma t_atomic_small_write n d payload :
  (∀ u, scratch (small_temporary (n :: d) u)) → (∀ q, q `suffix_of` d → q ≠ [] → ok q (Some NDir)) →
  payload ≠ [] →
  (∀ fs ino m, I fs → inodes fs !! ino = Some (Inode payload true m) → I (set_name (n :: d) (Some (NFile ino)) fs)) →
  triple I (_atomic_small_write (n :: d) payload)
    (λ _ fs, I fs ∧ ∃ ino m, possible fs (n :: d) = [Some (NFile ino)] ∧ inodes fs !! ino = Some (Inode payload true m)) I.
Proof.
  intros Hs Hd Hne Hrep. rewrite atomic_small_write_replace by done. cbn [tail].
  eapply (t_bind _ _ _ _ (λ _, I)); [by apply (k_mkdir_parents HI)|]. intros ?. by apply t_replace_file.
Qed.
End atomic.

(** ** The invariant *)
Section epochs.
Context `{JsonLoads}.

Definition at_epoch (p : path) : Prop := p = generation_path.
Definition epoch_file (e : Z) (_ : path) (v : option (list byte)) : Prop :=
  ∃ D x, v = Some D ∧ file_epoch D = Ok x ∧ e ≤ x.
Definition epoch_from (e : Z) : FS → Prop := guarded false at_epoch (epoch_file e).

Lemma epoch_from_one e fs ino m D :
  fs_wf fs → possible fs generation_path = [Some (NFile ino)] → inodes fs !! ino = Some (Inode D true m) →
  file_epoch D = Ok e → epoch_from e fs.
Proof.
  intros Hw Hp Hi He. split; [done|]. intros p v -> Hv. cbn in Hv. rewrite Hp in Hv.
  apply list_elem_of_singleton in Hv as ->. eexists. split_and!; [done|done|]. by exists D, e.
Qed.

Lemma epoch_from_live e fs :
  epoch_from e fs → ∃ ino i, names fs !! generation_path = Some (NFile ino) ∧ inodes fs !! ino = Some i ∧
    epoch_file e generation_path (Some (i_data i)).
Proof.
  intros [_ Hk]. specialize (Hk generation_path _ eq_refl (possible_head _ _)).
  destruct (names fs !! generation_path) as [[ino| |]|]; cbn in Hk; [|done|done|].
  - destruct Hk as (i & Hi & _ & He). by exists ino, i.
  - by destruct Hk as (? & ? & [=] & _).
Qed.

(** Reading the state. *)
Lemma read_small_json_Ret p n v w w' :
  _read_small_json p n w = (Ret v, w') →
  w_fs w' = w_fs w ∧ ∃ ino, live (w_fs w) p = Some (NFile ino) ∧ json_loads (data_of (w_fs w) ino) = Ok v.
Proof.
  intros Hr. assert (Hf : w_fs w' = w_fs w).
  { pose proof (keeps_fs _ w (λ I, k_read_small_json I p n)) as Hk. by rewrite Hr in Hk. }
  split; [done|]. unfold _read_small_json in Hr. apply bind_Ret in Hr as (k & w1 & Ho & Hr).
  apply open_Ret in Ho as [Hl F1]. destruct k as [ino| |]; try discriminate Hr.
  apply bind_Ret in Hr as (fs & w2 & Hg & Hr). apply get_fs_Ret in Hg as [-> ->]. cbv zeta in Hr.
  apply bind_Ret in Hr as (? & w2 & Hg & Hr). apply guard_Ret in Hg as [_ ->].
  apply bind_Ret in Hr as (out & w2 & Hrd & Hr). apply lift_Ret in Hr as [Hj ->].
  apply read_small_Ret in Hrd as (-> & _ & _). rewrite take_ge, drop_0, F1 in Hj by (rewrite drop_0; lia).
  by exists ino.
Qed.

Lemma lookup_Ret_names p found w w' :
  or_else FileNotFoundError None (n ← sys_lstat p; ret (Some n)) w = (Ret found, w') →
  live (w_fs w) p = found ∧ w_fs w' = w_fs w.
Proof.
  intros Hr. apply or_else_Ret in Hr as [Hf|(e & Hf & He & ->)].
  - apply bind_Ret in Hf as (n & w2 & Hl & Hn). apply ret_Ret in Hn as [-> ->]. by apply lstat_Ret in Hl.
  - destruct (sys_lstat p w) as [[k|e'|] w4] eqn:Es; unfold mbind, io_bind in Hf; rewrite Es in Hf;
      try discriminate Hf. injection Hf as -> ->. by apply lstat_missing in Es.
Qed.

Lemma previous_epoch_Ret e required v w w' :
  epoch_from e (w_fs w) → live (w_fs w) state_dir = Some NDir → previous_epoch required w = (Ret v, w') → e ≤ v.
Proof.
  intros He Hd Hr. apply epoch_from_live in He as (ino & i & Hn & Hi & (D & x & [= <-] & Hx & Hle)).
  assert (Hlive : live (w_fs w) generation_path = Some (NFile ino)).
  { change (match live (w_fs w) state_dir with Some NDir => names (w_fs w) !! generation_path | _ => None end
      = Some (NFile ino)). by rewrite Hd. }
  unfold previous_epoch in Hr. apply bind_Ret in Hr as (found & w1 & Hf & Hr).
  apply lookup_Ret_names in Hf as [Hf F1]. rewrite Hlive in Hf. subst found.
  apply bind_Ret in Hr as (payload & w2 & Hp & Hr). apply lift_Ret in Hr as [Hv ->].
  unfold load_state in Hp. apply try_Ret in Hp as [Hp|(er & k & w3 & _ & Hh & Hp)].
  - apply read_small_json_Ret in Hp as (_ & j & Hl & Hj). rewrite F1, Hlive in Hl. injection Hl as <-.
    unfold data_of in Hj. rewrite F1, Hi in Hj. unfold file_epoch in Hx. rewrite Hj in Hx. cbn in Hx.
    congruence.
  - destruct (state_error er); [|done]. injection Hh as <-. discriminate Hp.
Qed.
End epochs.

(** ** Reserving an epoch *)
Lemma previous_epoch_range `{JsonLoads} required v w w' :
  previous_epoch required w = (Ret v, w') → 0 ≤ v.
Proof.
  unfold previous_epoch. intros Hr. apply bind_Ret in Hr as (found & w1 & _ & Hr). destruct found as [[]|]; try discriminate Hr.
  - apply bind_Ret in Hr as (payload & w2 & _ & Hr). apply lift_Ret in Hr as [Hv _]. apply epoch_of_Ok in Hv. lia.
  - apply bind_Ret in Hr as (? & ? & _ & Hr). by apply ret_Ret in Hr as [-> _].
Qed.

Section reserve.
Context `{Uuid, JsonLoads} {ok scratch I} (HI : store_inv ok scratch I) (lo : Z).
Context (free : pystr → Prop) (Hdot : ∀ n, head n = Some 46 → free n) (Hreq : free (lit "generation.required.json")).
Context (Hgen : ∀ n, free n → n ≠ lit "generation.json").
Context (Hstate : ok state_dir (Some NDir)).
Context (Hfile : ∀ n v, free n → ok (n :: state_dir) v).
Context (Hscratch : ∀ n, free n → scratch (n :: state_dir)).
Context (Hread : ∀ required v w w', I (w_fs w) → previous_epoch required w = (Ret v, w') → lo ≤ v).
Context (Hrep : ∀ fs ino m x D, I fs → inodes fs !! ino = Some (Inode D true m) → file_epoch D = Ok x → lo < x →
  I (set_name generation_path (Some (NFile ino)) fs)).

Lemma t_previous required :
  triple I (previous_epoch required) (λ v fs, (lo ≤ v ∧ 0 ≤ v) ∧ I fs) I.
Proof.
  intros w Hw. assert (Hk : keeps I (previous_epoch required)) by (unfold previous_epoch, load_state; io_keeps).
  specialize (Hk w Hw). destruct (previous_epoch required w) as [[v|e|] w'] eqn:E; [|done|done].
  split; [|done]. split; [exact (Hread _ _ _ _ Hw E)|exact (previous_epoch_range _ _ _ _ E)].
Qed.

Lemma t_write_epoch x encoded :
  canonical_json (generation_json x) = Ok encoded → 0 < x ≤ MAX_GENERATION_EPOCH → lo < x →
  triple I (_atomic_small_write generation_path (encoded ++ newline)) (λ _ fs, I fs ∧ epoch_from x fs) I.
Proof.
  intros He Hx Hlo. pose proof (written_epoch _ _ Hx He) as Hw.
  eapply t_conseq; [apply (t_atomic_small_write HI (lit "generation.json") state_dir (encoded ++ newline))|done| |done].
  - intros u. by apply Hscratch, Hdot.
  - exact (state_parents Hstate).
  - unfold newline. by destruct encoded.
  - intros fs ino m Hi Hn. by eapply Hrep.
  - intros ? fs (Hi & ino & m & Hp & Hn). split; [done|].
    eapply epoch_from_one; [by apply (si_wf _ _ _ HI)|exact Hp|exact Hn|exact Hw].
Qed.

Lemma k_write_sentry x b : keeps (λ fs, I fs ∧ epoch_from x fs) (_atomic_small_write generation_required_path b).
Proof.
  assert (Hok : ∀ n v, free n → guard_ok at_epoch (epoch_file x) (n :: state_dir) v).
  { intros n v Hn. right. unfold at_epoch. intros [= E]. by apply (Hgen n Hn). }
  apply (k_state_write (and_inv _ _ _ _ _ _ HI (guarded_inv false at_epoch (epoch_file x))) free Hdot); [|split; auto|..|exact Hreq].
  - split; [done|]. right. by unfold at_epoch.
  - intros n Hn. split; [by apply Hscratch|]. split; [done|]. unfold at_epoch. intros [= E]. by apply (Hgen n Hn).
Qed.

Lemma t_reserve :
  triple I reserve_inventory_generation_epoch (λ x fs, (I fs ∧ epoch_from x fs) ∧ lo < x) I.
Proof.
  pose proof (k_state_cleanup HI free Hdot Hfile (lit "generation.json") : keeps I (_cleanup_atomic_write_temporaries generation_path)) as K1.
  pose proof (k_state_cleanup HI free Hdot Hfile (lit "generation.required.json")
    : keeps I (_cleanup_atomic_write_temporaries generation_required_path)) as K2.
  assert (K3 : keeps I require_sentry) by (unfold require_sentry, load_state; io_keeps).
  unfold reserve_inventory_generation_epoch.
  eapply t_bind; [apply (k_ensure_open I)|]. intros ?. apply t_exclusive.
  eapply t_bind; [exact K1|]. intros ?. eapply t_bind; [exact K2|]. intros ?. eapply t_bind; [exact K3|]. intros required.
  eapply t_bind; [apply t_previous|]. intros previous. apply t_pure. intros [Hlo Hnn].
  eapply t_bind; [apply (t_guard' I)|]. intros ?. apply t_pure. intros Hmax.
  eapply t_bind; [apply (k_time I)|]. intros clock. cbv beta.
  eapply t_bind; [apply (t_guard' I)|]. intros ?. apply t_pure. intros Hc1.
  eapply t_bind; [apply (t_guard' I)|]. intros ?. apply t_pure. intros Hc2. cbv zeta.
  bsimp. destruct (next_epoch_spec previous clock) as [Hx _]; [lia|lia|]. set (x := next_epoch previous clock) in *.
  eapply t_bind; [apply (t_lift I)|]. intros encoded. apply t_pure. intros He.
  eapply t_bind; [by apply (t_write_epoch x); [|lia|lia]|]. intros ?. cbv beta.
  eapply (t_conseq _ (λ fs, I fs ∧ epoch_from x fs) _ _ (λ a fs, a = x ∧ I fs ∧ epoch_from x fs) _ (λ fs, I fs ∧ epoch_from x fs));
    [|done|intros y fs (-> & ? & ?); split; [done|lia]|by intros fs [? _]].
  eapply t_bind; [|intros ?; apply (t_ret (λ fs, I fs ∧ epoch_from x fs))].
  destruct required; cbn [negb]; [apply k_ret|].
  eapply t_bind; [apply (k_lift (λ fs, I fs ∧ epoch_from x fs))|]. intros sentry. apply k_write_sentry.
Qed.
End reserve.

(** ** Through the life of the system *)
Definition epoch_free (n : pystr) : Prop := n ≠ lit "inventory-withdrawn" ∧ n ≠ lit "generation.json".
Lemma epoch_free_dot n : head n = Some 46 → epoch_free n.
Proof. intros Hn. by split; intros ->. Qed.

Section life.
Context `{Sha, Uuid, JsonLoads} (st : TokenFileStore) (Hslot : 0 < st_slot_bytes st).

Definition reserved (e : Z) (fs : FS) : Prop := prepared fs ∧ epoch_from e fs.
Definition reserved_ok (e : Z) (p : path) (v : option node) : Prop := base_ok p v ∧ guard_ok at_epoch (epoch_file e) p v.
Definition reserved_scratch (p : path) : Prop := base_scratch p ∧ guard_scratch at_epoch p.

Lemma reserved_inv e : store_inv (reserved_ok e) reserved_scratch (reserved e).
Proof. exact (and_inv _ _ _ _ _ _ prepared_inv (guarded_inv false at_epoch (epoch_file e))). Qed.

Lemma reserved_free e p v : base_ok p v → p ≠ generation_path → reserved_ok e p v.
Proof. intros ? Hp. split; [done|]. by right. Qed.

Lemma reserve_first :
  triple prepared reserve_inventory_generation_epoch (λ x, reserved x) prepared.
Proof.
  assert (Hs : ∀ n, n ≠ lit "inventory-withdrawn" → n ≠ lit "generation.json" → base_scratch (n :: state_dir))
    by (intros; by apply base_state_scratch).
  eapply t_conseq; [apply (t_reserve prepared_inv 0 epoch_free epoch_free_dot)|done|by intros x fs [? _]|done]; try done.
  - by intros n [_ ?].
  - apply base_state_dir.
  - intros n v [? _]. by apply base_state.
  - intros n [? ?]. by apply Hs.
  - intros required v w w' _. apply previous_epoch_range.
  - intros fs ino m x D Hi Hn _ _. apply prepared_set_name; [done|by cbn; rewrite Hn|by apply base_state].
Qed.

Lemma reserve_next e :
  triple (reserved e) reserve_inventory_generation_epoch (λ x fs, reserved x fs ∧ e < x) (reserved e).
Proof.
  eapply t_conseq; [apply (t_reserve (reserved_inv e) e epoch_free epoch_free_dot)|done| |done]; try done.
  - by intros n [_ ?].
  - by apply reserved_free; [apply base_state_dir|].
  - intros n v [? Hn]. apply reserved_free; [by apply base_state|]. intros [= E]. by apply Hn.
  - intros n [? Hn]. split; [by apply base_state_scratch|]. split; [done|]. intros [= E]. by apply Hn.
  - intros required v w w' [Hp He] Hr. eapply previous_epoch_Ret; [exact He| |exact Hr].
    apply prepared_live; [done|by left].
  - intros fs ino m x D [Hp He] Hn Hx Hlo. split.
    + apply prepared_set_name; [done|by cbn; rewrite Hn|by apply base_state].
    + eapply guarded_link; [done|done|]. exists D, x. split_and!; [done|done|lia].
  - intros x fs [[[Hp _] He] Hlo]. done.
Qed.

Lemma reserved_call e c : keeps (reserved e) (run_store_call st c).
Proof.
  pose proof (reserved_inv e) as HI.
  assert (Hf : ∀ p v, base_ok p v → p ≠ generation_path → reserved_ok e p v) by (intros; by apply reserved_free).
  apply (k_store_call st Hslot HI).
  - intros k. by apply Hf; [apply base_marker|].
  - intros k. by apply Hf; [apply base_manifest|].
  - intros n. split; [apply base_tmp|]. by split.
  - intros s. by apply Hf; [apply base_shard|].
  - intros hk k r. apply (k_quarantine HI); [by apply Hf; [apply base_manifest|]|by apply Hf; [apply base_marker|]..|].
    intros n v. by apply Hf; [apply base_quarantine|].
  - intros k. assert (keeps (reserved e) (_clear_inventory_withdrawal k)).
    { apply (k_clear HI). by apply Hf; [apply base_marker|]. }
    pose proof (k_absence HI). unfold acknowledge_absent, _manifest_path. io_keeps.
  - eapply t_conseq; [apply reserve_next|done| |done]. intros x fs [[Hp (Hw & Hk)] Hlo]. split; [done|]. split; [done|].
    intros p v Hp' Hv. specialize (Hk p v Hp' Hv). destruct v as [[j| |]|]; cbn in *; [|done..|].
    + destruct Hk as (i & ? & ? & D & y & ? & ? & ?). exists i. split_and!; [done|done|]. exists D, y. split_and!; [done|done|lia].
    + by destruct Hk as (? & ? & [=] & _).
  - intros b. apply (k_scrub_write HI epoch_free epoch_free_dot); [by apply Hf; [apply base_state_dir|]| | |done].
    + intros n v [? Hn]. apply Hf; [by apply base_state|]. intros [= E]. by apply Hn.
    + intros n [? Hn]. split; [by apply base_state_scratch|]. split; [done|]. intros [= E]. by apply Hn.
  - intros n. apply (k_replace HI); [by apply Hf; [by apply base_state|]|done|].
    intros v. by apply Hf; [apply base_quarantine|].
  - intros key _. split; [by apply Hf; [apply base_marker|]|].
    intros fs ino D m _ [Hp He] Hi _ Hsh. split; [apply prepared_link; [done|by rewrite Hi|done]|].
    apply guarded_set_name; [done|by cbn; rewrite Hi|]. by intros [=].
  - intros key _. by apply Hf; [apply base_marker|].
Qed.

Lemma reserved_reachable e w w' : rtc (system_step st) w w' → reserved e (w_fs w) → reserved e (w_fs w').
Proof.
  induction 1 as [|w w1 w2 Hs _ IH]; [done|]. intros Hw. apply IH. clear IH.
  destruct Hs as [c o w w' Hr|w w' Hf|w w' Hl]; [|by rewrite Hf|].
  - pose proof (reserved_call e c w Hw) as Hc. rewrite Hr in Hc. by destruct o.
  - destruct Hw as [Hp He]. split; [by eapply prepared_power_loss|by eapply guarded_power_loss].
Qed.
End life.
