(* ===== verification/StoreLookup.v ===== *)
(** * Chains and lookups

    A hit is sound: the objects of the snapshot are the files that stand under their
    keys, none of them withdrawn, consecutive from the first chunk to the key, with the
    boundary state where the layout has one, and they cover the layout exactly.  The
    walk over parents ends within the span of the key. *)
From S2P Require Import Prelude Dict Bytes Utf8 Json Hma HmaSpec Manifest Io RankStore IoSpec FsInv TokenFiles TokenHeader.

Section lookup.
Context `{Sha, Uuid, JsonLoads} (st : TokenFileStore).

(** The metadata of the file that stands under its key. *)
Definition standing (fs : FS) (d : TokenFileDescriptor) : Prop :=
  live fs (_inventory_withdrawal_path (td_key d)) = None ∧
  ∃ ino, live fs (manifest_path (td_key d)) = Some (NFile ino) ∧
    parse_file st (td_key d) (data_of fs ino) = Ok d.

(** Data files of consecutive spans, each naming the one before. *)
Fixpoint linked (parent : option pystr) (span : Z) (l : list TokenFileDescriptor) : Prop :=
  match l with
  | [] => True
  | d :: l =>
      td_parent d = parent ∧ td_span_tokens d = span + st_chunk_tokens st ∧ td_kind d = KData ∧
      linked (Some (td_key d)) (span + st_chunk_tokens st) l
  end.

Lemma linked_snoc p s l a d :
  linked p s l → last l = Some a → td_parent d = Some (td_key a) →
  td_span_tokens d = td_span_tokens a + st_chunk_tokens st → td_kind d = KData → linked p s (l ++ [d]).
Proof.
  revert p s; induction l as [|x l IH]; intros p s; [done|]. cbn [linked app].
  intros (Hp & Hs & Hk & Hl) Ha Hd Hsp Hkd. split_and!; try done.
  destruct l as [|y l].
  - injection Ha as ->. cbn. by rewrite <-Hs.
  - by apply IH.
Qed.

Lemma parse_file_key key data d : parse_file st key data = Ok d → td_key d = key.
Proof. intros (h & Hf & -> & _)%parse_file_Ok. symmetry. apply (hf_key _ _ _ _ _ _ _ _ Hf). Qed.

Lemma open_chunk_standing key w od w' :
  _open_chunk st false key w = (Ret od, w') → w_fs w' = w_fs w ∧ td_key od.2 = key ∧ standing (w_fs w) od.2.
Proof.
  intros Ho. pose proof (open_chunk_unmarked st key w od w' Ho) as (w1 & Hm).
  apply open_chunk_Ret in Ho as (_ & Hf & Hl & Hp). pose proof (parse_file_key _ _ _ Hp) as Hk.
  split_and!; [done|done|]. unfold standing. rewrite Hk. split; [|by eexists].
  unfold _inventory_is_withdrawn in Hm. by apply present_Ret in Hm as [_ ?].
Qed.

Lemma quarantining_Ret {A} key (m : IO A) w a w' : quarantining st key m w = (Ret a, w') → m w = (Ret a, w').
Proof.
  unfold quarantining. intros [?|(e & k & w1 & _ & Hh & Hr)]%try_Ret; [done|].
  destruct (exn_class e); try discriminate Hh;
    (destruct (caught_by_OSError_ManifestError e); [|done]); injection Hh as <-; by inv_io.
Qed.

Lemma open_link_standing key w d w' :
  open_link st key w = (Ret d, w') → w_fs w' = w_fs w ∧ td_key d = key ∧ standing (w_fs w) d.
Proof.
  unfold open_link. intros Hr%quarantining_Ret. inv_io. by apply open_chunk_standing.
Qed.

(** The links a walk collects before the descriptors it was given. *)
Lemma chain_walk_Ret fuel d e objects w l w' :
  standing (w_fs w) d → chain_walk fuel st d e objects w = (Ret l, w') →
  w_fs w' = w_fs w ∧ (∀ s, e = Some s → td_span_tokens d = s) ∧
  ∃ pre s0, l = pre ++ objects ∧ linked None s0 pre ∧ last pre = Some d ∧ Forall (standing (w_fs w)) pre.
Proof.
  revert d e objects w; induction fuel as [|fuel IH]; intros d e objects w Hd; cbn [chain_walk]; intros Hr;
    apply bind_Ret in Hr as (? & w1 & Hk & Hr); apply guard_Ret in Hk as [Hk ->]; bsimp;
    apply bind_Ret in Hr as (? & w1 & He & Hr).
  all: assert (w1 = w ∧ ∀ s, e = Some s → td_span_tokens d = s) as [-> Hs].
  1,3: destruct e as [s|]; [|by apply ret_Ret in He as [_ ->]];
    destruct (Z.eqb_spec (td_span_tokens d) s); [apply ret_Ret in He as [_ ->]; split; [done|]; by intros ? [= <-]|];
    apply bind_Ret in He as (? & ? & _ & He); discriminate He.
  all: destruct (td_parent d) as [k|] eqn:Ep.
  1: discriminate Hr.
  1,3: apply ret_Ret in Hr as [-> ->]; split_and!; [done|done|];
    exists [d], (td_span_tokens d - st_chunk_tokens st);
    split_and!; [done|cbn; split_and!; done || lia|done|by constructor].
  apply bind_Ret in Hr as (d' & w1 & Ho & Hr). apply open_link_standing in Ho as (Hf & Hk' & Hst).
  rewrite <-Hf in Hst. apply IH in Hr as (Hf' & Hs' & pre & s0 & -> & Hl & Hlast & Hall); [|done].
  rewrite Hf in *. split_and!; [done|done|]. exists (pre ++ [d]), s0.
  specialize (Hs' _ eq_refl). split_and!.
  - by rewrite <-(assoc_L (++)).
  - eapply linked_snoc; [done|done| |lia|done]. by rewrite Hk'.
  - apply last_snoc.
  - apply Forall_app. by split; [|constructor].
Qed.

(** What the parts of a snapshot are. *)
Record restorable (fs : FS) (key : pystr) (s : TokenSnapshot) : Prop := {
  rs_entry : ts_entry_id s = key;
  rs_objects : ∃ data tail, ts_objects s = data ++ tail ∧ linked None 0 data ∧
    td_key <$> last data = Some key ∧ td_span_tokens <$> last data = Some (ts_span_tokens s) ∧
    (if has_boundary_state (st_layout st)
     then ∃ d, tail = [d] ∧ boundary_state_key key = Ok (td_key d) ∧ td_kind d = KState ∧
            td_parent d = Some key ∧ td_span_tokens d = ts_span_tokens s
     else tail = []);
  rs_standing : Forall (standing fs) (ts_objects s);
  rs_coverage : validate_manifest_coverage (st_layout st) s = Ok tt
}.

Lemma chain_Ret key w s w' : _chain st key w = (Ret s, w') → w_fs w' = w_fs w ∧ restorable (w_fs w) key s.
Proof.
  unfold _chain. intros Hr. apply bind_Ret in Hr as (d & w1 & Ho & Hr).
  apply open_link_standing in Ho as (Hf & Hk & Hst). rewrite <-Hf in Hst.
  apply bind_Ret in Hr as (objects & w2 & Hw & Hr).
  apply chain_walk_Ret in Hw as (Hf' & _ & pre & s0 & -> & Hl & Hlast & Hall); [|done].
  rewrite app_nil_r in Hr. apply bind_Ret in Hr as (? & w3 & Hg & Hr). apply guard_Ret in Hg as [Hg ->].
  cbv zeta in Hr. apply bind_Ret in Hr as (tl & w3 & Ht & Hr). inv_io.
  match goal with E : validate_manifest_coverage _ _ = Ok ?u |- _ => destruct u end.
  assert (Hs0 : s0 = 0).
  { destruct pre as [|first pre]; [done|]. cbn in Hl. bsimp. lia. }
  subst s0. assert (Htl : w_fs w3 = w_fs w2 ∧ Forall (standing (w_fs w)) tl ∧
    if has_boundary_state (st_layout st)
    then ∃ y, tl = [y] ∧ boundary_state_key (td_key d) = Ok (td_key y) ∧ td_kind y = KState ∧
           td_parent y = Some (td_key d) ∧ td_span_tokens y = td_span_tokens d
    else tl = []).
  { destruct (has_boundary_state (st_layout st)); [|by apply ret_Ret in Ht as [-> ->]].
    apply bind_Ret in Ht as (y & w4 & Hx & Ht). apply ret_Ret in Ht as [-> ->].
    unfold chain_state in Hx. apply bind_Ret in Hx as (sk & w5 & Hsk & Hx). apply lift_Ret in Hsk as [Hsk ->].
    apply quarantining_Ret in Hx. inv_io.
    match goal with E : _open_chunk _ _ _ _ = _ |- _ => apply open_chunk_standing in E as (Hf2 & Hk2 & Hs2) end.
    bsimp. destruct_and?. rewrite Hf', Hf in *. split_and!; [congruence|by constructor|].
    eexists. split_and!; [done|by rewrite Hk2|done|done|lia]. }
  destruct Htl as (Hf3 & Hall3 & Hst3). split; [congruence|]. rewrite Hf in *. split; cbn; [done| | |done].
  - exists pre, tl. split_and!; [done|done|by rewrite Hlast|by rewrite Hlast|done].
  - by apply Forall_app.
Qed.

Lemma exclusive_Ret {A} (m : IO A) w a w' :
  exclusive m w = (Ret a, w') →
  ∃ w1 w2, m w1 = (Ret a, w2) ∧ w_fs w1 = w_fs w ∧ w_fs w' = w_fs w2.
Proof.
  assert (Hfin : ∀ (x : IO A) n w a w', finally x (set_proc_depth n) w = (Ret a, w') →
    ∃ w2, x w = (Ret a, w2) ∧ w_fs w' = w_fs w2).
  { intros x n w0 b w2. unfold finally. destruct (x w0) as [[c|e|] w3]; cbn; try done.
    intros [= <- <-]. by exists w3. }
  unfold exclusive. intros Hr. apply bind_Ret in Hr as (p & w1 & Hp & Hr). apply get_proc_Ret in Hp as [-> ->].
  destruct (lock_depth (w_proc w)) as [|n].
  - apply Hfin in Hr as (w2 & Hr & Hf2). apply bind_Ret in Hr as (? & w3 & R1 & Hr).
    apply bind_Ret in Hr as (? & w4 & R2 & Hr). apply bind_Ret in Hr as (? & w5 & R3 & Hr).
    apply bind_Ret in Hr as (? & w6 & R4 & Hr). apply bind_Ret in Hr as (? & w7 & R5 & Hr).
    exists w7, w2. split_and!; [done| |done]. injection R5 as _ <-. cbn.
    pose proof (keeps_fs _ w (λ I, k_open_lock I maintenance_lock)) as K1. rewrite R1 in K1.
    pose proof (keeps_fs _ w3 (λ I, k_flock I)) as K2. rewrite R2 in K2.
    pose proof (keeps_fs _ w4 (λ I, k_open_regular I namespace_lock)) as K3. rewrite R3 in K3.
    pose proof (keeps_fs _ w5 (λ I, k_flock I)) as K4. rewrite R4 in K4. cbn in *. congruence.
  - apply bind_Ret in Hr as (? & w3 & R1 & Hr). injection R1 as _ <-.
    apply Hfin in Hr as (w2 & Hr & Hf2). by eexists _, w2.
Qed.

(** ** Payload verification *)
Definition authentic (fs : FS) (d : TokenFileDescriptor) : Prop :=
  ∃ ino, live fs (manifest_path (td_key d)) = Some (NFile ino) ∧ payload_authentic st d (data_of fs ino).

Lemma valid_chunk_Ret key parent span kind w d w' :
  0 < st_slot_bytes st → valid_chunk st key parent span kind w = (Ret (Some d), w') →
  w_fs w' = w_fs w ∧ td_key d = key ∧ td_parent d = parent ∧ td_span_tokens d = span ∧ td_kind d = kind ∧
  standing (w_fs w) d ∧ authentic (w_fs w) d.
Proof.
  intros Hs Hr. unfold valid_chunk in Hr. apply exclusive_Ret in Hr as (w1 & w2 & Hr & F1 & F2).
  apply try_Ret in Hr as [Hr|(e & k & w3 & _ & Hh & Hr)].
  - apply bind_Ret in Hr as ([ino d'] & w3 & Ho & Hr). pose proof (open_chunk_Ret _ _ _ _ _ _ Ho) as (_ & _ & Hl & Hp).
    apply open_chunk_standing in Ho as (F3 & Hk & Hst). cbn [fst snd] in *.
    apply bind_Ret in Hr as (? & w4 & Hg & Hr). apply guard_Ret in Hg as [Hg ->]. bsimp. destruct_and?.
    apply bind_Ret in Hr as ([] & w4 & Ha & Hr). apply ret_Ret in Hr as [[= <-] ->].
    pose proof (keeps_fs _ w3 (λ I, k_authenticate st I ino d)) as F4. rewrite Ha in F4. cbn in F4.
    rewrite <-F3 in Hp. apply (authenticate_Ret st key) in Ha; [|done|done].
    rewrite F2, F4, F3, F1 in *. split_and!; try done. exists ino. by rewrite Hk.
  - exfalso. destruct (exn_class e); try (injection Hh as <-; by apply ret_Ret in Hr as [? _]);
      (destruct (caught_by_OSError_ManifestError e); [|done]); injection Hh as <-;
      apply bind_Ret in Hr as (? & ? & _ & Hr); by apply ret_Ret in Hr as [? _].
Qed.

Lemma standing_unique fs a b : standing fs a → standing fs b → td_key a = td_key b → a = b.
Proof. intros [_ (i & Hi & Ha)] [_ (j & Hj & Hb)] Hk. rewrite Hk in *. congruence. Qed.

Lemma verify_objects_Ret l w w' :
  0 < st_slot_bytes st → Forall (standing (w_fs w)) l → verify_objects st l w = (Ret true, w') →
  w_fs w' = w_fs w ∧ Forall (authentic (w_fs w)) l.
Proof.
  intros Hs. revert w; induction l as [|d l IH]; intros w Hst; cbn [verify_objects]; intros Hr.
  - by apply ret_Ret in Hr as [_ ->].
  - apply Forall_cons in Hst as [Hd Hl]. apply bind_Ret in Hr as ([d'|] & w1 & Hv & Hr);
      [|by apply ret_Ret in Hr as [? _]].
    apply valid_chunk_Ret in Hv as (F1 & Hk & _ & _ & _ & Hst' & Ha); [|done].
    assert (d' = d) as -> by by eapply standing_unique.
    rewrite <-F1 in Hl. apply IH in Hr as [F2 Hall]; [|done]. rewrite F1 in *. by split; [|constructor].
Qed.

Lemma lookup_Ret v key w r w' :
  0 < st_slot_bytes st → lookup st v key w = (Ret r, w') → is_hit r = true →
  w_fs w' = w_fs w ∧ ∃ s, lr_manifest r = Some s ∧ restorable (w_fs w) key s ∧
    lr_digest r = td_metadata_digest <$> last (ts_objects s) ∧
    (v = true → Forall (authentic (w_fs w)) (ts_objects s)).
Proof.
  intros Hs Hr Hh. unfold lookup in Hr. apply exclusive_Ret in Hr as (w1 & w2 & Hr & F1 & F2).
  apply bind_Ret in Hr as (? & w3 & R1 & Hr). apply bind_Ret in Hr as (? & w4 & R2 & Hr).
  assert (F3 : w_fs w4 = w_fs w).
  { pose proof (keeps_fs _ w1 (λ I, k_ensure_open I)) as K1. rewrite R1 in K1.
    pose proof (keeps_fs _ w3 (λ I, k_manifest_path I key)) as K2. rewrite R2 in K2. cbn in *. congruence. }
  apply try_Ret in Hr as [Hr|(e & k & w5 & _ & He & Hr)].
  - apply bind_Ret in Hr as (s & w5 & Hc & Hr). apply chain_Ret in Hc as [F4 Hrs].
    apply bind_Ret in Hr as (ok & w6 & Hv & Hr).
    assert (Hok : ok = true → w_fs w6 = w_fs w5 ∧ (v = true → Forall (authentic (w_fs w5)) (ts_objects s))).
    { intros ->. destruct v; [|by apply ret_Ret in Hv as [_ ->]].
      apply verify_objects_Ret in Hv as [? ?]; [done|done|]. rewrite F4. apply (rs_standing _ _ _ Hrs). }
    destruct ok; cbn [negb] in Hr; apply ret_Ret in Hr as [-> ->]; [|done].
    destruct (Hok eq_refl) as [F5 Ha]. rewrite F4, F3 in *. split; [congruence|]. by exists s.
  - destruct (caught_by_OSError_ManifestError e); [|done]. injection He as <-. by apply ret_Ret in Hr as [-> _].
Qed.

(** ** Termination of the walk *)

(** What the header of a standing data file says about its place in a chain. *)
Lemma standing_span fs d :
  standing fs d → td_kind d = KData →
  td_span_tokens d mod st_chunk_tokens st = 0 ∧ 0 < td_span_tokens d ∧
  (is_Some (td_parent d) → st_chunk_tokens st < td_span_tokens d).
Proof.
  intros [_ (ino & _ & Hp)] Hk. apply parse_file_Ok in Hp as (h & Hf & Hd & _).
  rewrite Hd in *. cbn in *. split_and!; [apply Hf|apply (hf_positive _ _ _ _ _ _ _ _ Hf)|].
  intros [p Hpar]. pose proof (hf_link _ _ _ _ _ _ _ _ Hf) as Hl. rewrite Hk, Hpar in Hl. apply Hl.
Qed.

Lemma bind_ext {A B} (m : IO A) (f g : A → IO B) w :
  (∀ a w', m w = (Ret a, w') → f a w' = g a w') → (m ≫= f) w = (m ≫= g) w.
Proof. intros Hf. unfold mbind, io_bind. destruct (m w) as [[a|e|] w'] eqn:E; [by apply Hf|done|done]. Qed.

(** More fuel changes nothing once there is a unit for each chunk of the span. *)
Lemma chain_walk_fuel fuel k d e objects w :
  0 < st_chunk_tokens st → standing (w_fs w) d →
  (default (td_span_tokens d) e / st_chunk_tokens st ≤ Z.of_nat fuel) →
  chain_walk (fuel + k) st d e objects w = chain_walk fuel st d e objects w.
Proof.
  intros Hc. revert d e objects w; induction fuel as [|fuel IH]; intros d e objects w Hd Hle.
  - destruct k as [|k]; [done|]. cbn [Nat.add chain_walk].
    apply bind_ext. intros [] w1 [Hk ->]%guard_Ret. bsimp.
    apply bind_ext. intros [] w1 He.
    assert (td_parent d = None) as ->; [|done].
    destruct (td_parent d) as [p|] eqn:Ep; [|done]. exfalso.
    destruct (standing_span _ _ Hd Hk) as (_ & _ & Hlt). specialize (Hlt ltac:(by rewrite Ep)).
    assert (1 ≤ td_span_tokens d / st_chunk_tokens st) by (apply Z.div_le_lower_bound; lia).
    destruct e as [s|]; cbn in Hle; [|lia].
    destruct (Z.eqb_spec (td_span_tokens d) s); [by subst; lia|].
    apply bind_Ret in He as (? & ? & _ & He). discriminate He.
  - cbn [Nat.add chain_walk]. apply bind_ext. intros [] w1 [Hk ->]%guard_Ret. bsimp.
    apply bind_ext. intros [] w1 He.
    destruct (td_parent d) as [p|] eqn:Ep; [|done]. apply bind_ext. intros d' w2 Ho.
    apply open_link_standing in Ho as (F1 & _ & Hst). apply IH; [by rewrite F1|]. cbn [default from_option].
    assert (Hspan : td_span_tokens d / st_chunk_tokens st ≤ Z.of_nat (S fuel)).
    { destruct e as [s|]; cbn in Hle; [|done]. destruct (Z.eqb_spec (td_span_tokens d) s); [by subst|].
      apply bind_Ret in He as (? & ? & _ & He). discriminate He. }
    replace (td_span_tokens d - st_chunk_tokens st) with (td_span_tokens d + (-1) * st_chunk_tokens st) by lia.
    unfold id. rewrite Z.div_add by lia. lia.
Qed.
End lookup.
