(* ===== verification/StoreCommit.v ===== *)
(** * What was committed is what opens

    The content of a key's entry after a commit that returned: the header of its
    arguments, then the payload. *)
From S2P Require Import Prelude Dict Bytes Utf8 Json Hma Manifest Io RankStore IoSpec FsInv TokenFiles TokenHeader TokenScrub StoreOps StoreInv StoreSystem StoreFence StoreLookup.

(** The payload of an opened file. *)
Definition payload_of (d : TokenFileDescriptor) (data : list byte) : list byte :=
  drop (Z.to_nat (td_payload_offset d)) data.

Section commit.
Context `{Sha, Uuid, JsonLoads} (st : TokenFileStore) (Hslot : 0 < st_slot_bytes st) (key : pystr).

(** The files a commit of these bytes may leave under the key. *)
Definition carries (file : list byte → Prop) (p : path) (v : option (list byte)) : Prop :=
  ∀ D, v = Some D → file D.

Definition at_key (p : path) : Prop := p = manifest_path key.

Definition carried (now : bool) (file : list byte → Prop) : FS → Prop := guarded now at_key (carries file).

Lemma carried_start now file fs : fs_wf fs → view now fs (manifest_path key) = [None] → carried now file fs.
Proof. intros Hw Hn. split; [done|]. intros p v ->. rewrite Hn. by intros ->%list_elem_of_singleton ?. Qed.

Lemma carried_live now file fs ino :
  carried now file fs → live fs (manifest_path key) = Some (NFile ino) → file (data_of fs ino).
Proof.
  intros [_ Hk] Hl. apply live_names in Hl; [|done].
  specialize (Hk (manifest_path key) (Some (NFile ino)) eq_refl).
  destruct Hk as (i & Hi & _ & Hc); [rewrite <- Hl; apply view_names|]. unfold data_of. rewrite Hi. by apply Hc.
Qed.

Section file.
Context (now : bool) (file : list byte → Prop).
#[local] Abbreviation I := (carried now file).
Lemma carried_inv : store_inv (guard_ok at_key (carries file)) (guard_scratch at_key) I.
Proof. apply guarded_inv. Qed.
Let HI := carried_inv.

Lemma carried_ok p v : p ≠ manifest_path key → guard_ok at_key (carries file) p v.
Proof. intros Hp. right. by intros ->. Qed.

Lemma carried_link fs ino D m :
  is_digest key = true → I fs → inodes fs !! ino = Some (Inode D true m) → file D →
  possible fs (shard_dir key) = [Some NDir] → I (set_name (manifest_path key) (Some (NFile ino)) fs).
Proof. intros _ Hfs Hi Hf _. eapply guarded_link; [done|done|]. by intros ? [= <-]. Qed.

Lemma carried_marker e v : guard_ok at_key (carries file) (_inventory_withdrawal_path e) v.
Proof. by apply carried_ok. Qed.
Lemma carried_tmp n : guard_scratch at_key (n :: tmp_dir).
Proof. by split; [|intros ?]. Qed.
Lemma carried_shard s v : guard_ok at_key (carries file) (s :: manifests_dir) v.
Proof. apply carried_ok. by intros [=]. Qed.

Lemma carried_chunk parent span data kind :
  (∀ h header, chunk_header st key parent span data kind = Ok h → Z.of_nat (length data) = hd_length h →
     _encode_header st h = Ok header → file (header ++ data)) →
  keeps I (commit_chunk st key parent span data kind).
Proof.
  apply (k_commit_chunk st HI carried_tmp (λ s, carried_shard s _)); [apply carried_marker..|].
  apply carried_link.
Qed.

Lemma carried_stream parent span pieces kind :
  (∀ h views final, stream_header st key parent span kind = Ok h → pieces = Ok <$> views →
     streamed st h views final → file (final ++ concat views)) →
  keeps I (commit_stream st key parent span pieces kind).
Proof.
  apply (k_commit_stream st HI carried_tmp (λ s, carried_shard s _)); [apply carried_marker..|].
  apply carried_link.
Qed.
End file.

(** A publication that returned opened the file it published. *)
Lemma publish_Ret h write w d w' :
  _publish_chunk st key h write w = (Ret d, w') →
  ∃ ino, live (w_fs w') (manifest_path key) = Some (NFile ino) ∧ standing st (w_fs w') d ∧
    parse_file st key (data_of (w_fs w') ino) = Ok d.
Proof.
  unfold _publish_chunk. intros Hr.
  do 6 (apply bind_Ret in Hr as (? & ? & _ & Hr)). cbv zeta in Hr.
  do 4 (apply bind_Ret in Hr as (? & ? & _ & Hr)).
  apply bind_Ret in Hr as ([ino d'] & w1 & Ho & Hr). apply ret_Ret in Hr as [-> ->].
  pose proof (open_chunk_Ret _ _ _ _ _ _ Ho) as (_ & Hf & Hl & Hp).
  apply open_chunk_standing in Ho as (_ & Hk & Hs). cbn [fst snd] in *. rewrite Hf. by exists ino.
Qed.

(** The fields of a file that opens as the header it was written with. *)
Lemma opened_fields parent span kind digest t h header payload d :
  _header_payload st key (parent_json parent) (JInt span) digest (JStr (kind_name kind)) (Some t) = Ok h →
  _encode_header st h = Ok header → Z.of_nat (length payload) = hd_length h →
  parse_file st key (header ++ payload) = Ok d →
  td_parent d = parent ∧ td_span_tokens d = span ∧ td_kind d = kind ∧
  payload_of d (header ++ payload) = payload.
Proof.
  intros Hh He Hl Hp. rewrite (parse_encoded st key _ _ _ _ _ h header payload Hslot Hh He Hl) in Hp.
  injection Hp as <-. pose proof (header_payload_Ok st _ _ _ _ _ _ _ Hh) as Hf.
  unfold payload_of. cbn. rewrite Nat2Z.id, drop_app_length. split_and!; [| | |done].
  - pose proof (hf_parent _ _ _ _ _ _ _ _ Hf) as E. destruct parent, (hd_parent h); naive_solver.
  - by pose proof (hf_span _ _ _ _ _ _ _ _ Hf) as [= ->].
  - pose proof (hf_kind _ _ _ _ _ _ _ _ Hf) as [= E]. by destruct kind, (hd_kind h).
Qed.

(** The files with these fields whose payload satisfies [Q]. *)
Definition written (parent : option pystr) (span : Z) (kind : file_kind) (Q : list byte → Prop) (D : list byte) : Prop :=
  ∃ digest t h header data,
    _header_payload st key (parent_json parent) (JInt span) digest (JStr (kind_name kind)) (Some t) = Ok h ∧
    _encode_header st h = Ok header ∧ Z.of_nat (length data) = hd_length h ∧ Q data ∧ D = header ++ data.

Lemma written_opened parent span kind Q D d :
  written parent span kind Q D → parse_file st key D = Ok d →
  td_parent d = parent ∧ td_span_tokens d = span ∧ td_kind d = kind ∧ Q (payload_of d D).
Proof.
  intros (digest & t & h & header & data & Hh & He & Hlen & HQ & ->) Hp.
  by destruct (opened_fields _ _ _ _ _ _ _ _ _ Hh He Hlen Hp) as (? & ? & ? & ->).
Qed.

(** Both commits write such files. *)
Lemma k_chunk_written now parent span data kind (Q : list byte → Prop) :
  Q data → keeps (carried now (written parent span kind Q)) (commit_chunk st key parent span data kind).
Proof. intros HQ. apply carried_chunk. intros h header Hh Hlen He. by do 5 eexists. Qed.

Lemma k_stream_written now parent span pieces kind (Q : list byte → Prop) :
  (∀ views, pieces = Ok <$> views → Q (concat views)) →
  keeps (carried now (written parent span kind Q)) (commit_stream st key parent span pieces kind).
Proof.
  intros HQ. apply carried_stream. intros h views final Hh Hv [Hr' Hf].
  destruct (ranges_pieces _ _ _ Hslot Hr') as (Hpc & Hlen & _).
  pose proof (header_payload_Ok st _ _ _ _ _ _ _ Hh) as Hhf. cbv zeta in Hf.
  set (hashes := sha256_hex <$> views) in *.
  exists (JStr (payload_digest (concat views) hashes)), (JArr (JStr <$> hashes)),
    (with_digests h (payload_digest (concat views) hashes) hashes), final, (concat views).
  split_and!; [|done|done|by apply HQ|done].
  rewrite (hf_key _ _ _ _ _ _ _ _ Hhf), (hf_parent _ _ _ _ _ _ _ _ Hhf), (hf_span _ _ _ _ _ _ _ _ Hhf),
    (hf_kind _ _ _ _ _ _ _ _ Hhf). by eapply filled_stream.
Qed.

(** Either commit of these bytes. *)
Definition committed (parent : option pystr) (span : Z) (data : list byte) (kind : file_kind)
    (w w' : World) (d : TokenFileDescriptor) : Prop :=
  commit_chunk st key parent span data kind w = (Ret d, w') ∨
  ∃ views, concat views = data ∧ commit_stream st key parent span (Ok <$> views) kind w = (Ret d, w').

Lemma committed_standing parent span data kind w w' d :
  committed parent span data kind w w' d →
  ∃ ino, live (w_fs w') (manifest_path key) = Some (NFile ino) ∧ standing st (w_fs w') d ∧
    parse_file st key (data_of (w_fs w') ino) = Ok d.
Proof.
  intros [Hr|(pieces & _ & Hr)]; unfold commit_chunk, commit_stream in Hr;
    apply exclusive_Ret in Hr as (w1 & w2 & Hr & _ & ->); cbv zeta in Hr.
  - do 2 (apply bind_Ret in Hr as (? & ? & _ & Hr)). by eapply publish_Ret.
  - apply bind_Ret in Hr as (? & ? & _ & Hr). by eapply publish_Ret.
Qed.

Lemma committed_content parent span data kind w w' d :
  fs_wf (w_fs w) → names (w_fs w) !! manifest_path key = None → committed parent span data kind w w' d →
  td_parent d = parent ∧ td_span_tokens d = span ∧ td_kind d = kind ∧
  ∃ ino, live (w_fs w') (manifest_path key) = Some (NFile ino) ∧ payload_of d (data_of (w_fs w') ino) = data.
Proof.
  intros Hw Hn Hc. destruct (committed_standing _ _ _ _ _ _ _ Hc) as (ino & Hl & Hs & Hp).
  assert (Hfile : carried true (written parent span kind (λ D, D = data)) (w_fs w')).
  { assert (carried true (written parent span kind (λ D, D = data)) (w_fs w)) as Hstart.
    { apply carried_start; [done|]. cbn. by rewrite Hn. }
    destruct Hc as [Hr|(views & <- & Hr)].
    - exact (triple_Ret _ _ _ _ _ _ _ (k_chunk_written true _ _ _ _ _ eq_refl) Hstart Hr).
    - refine (triple_Ret _ _ _ _ _ _ _ (k_stream_written true _ _ _ _ _ _) Hstart Hr).
      intros v Hv. apply list_fmap_eq_inj in Hv; [by subst|by intros ? ? [=]]. }
  pose proof (carried_live _ _ _ _ Hfile Hl) as Hd.
  destruct (written_opened _ _ _ _ _ _ Hd Hp) as (? & ? & ? & ?).
  split_and!; [done|done|done|]. by exists ino.
Qed.

(** ** Operations that do not publish the key *)
Section others.
Context (now : bool) (file : list byte → Prop).
#[local] Abbreviation I := (carried now file).
Let HI := carried_inv now file.

Lemma carried_link_other key' fs ino D m :
  key' ≠ key → I fs → inodes fs !! ino = Some (Inode D true m) →
  I (set_name (manifest_path key') (Some (NFile ino)) fs).
Proof.
  intros Hne Hfs Hi. apply (si_name _ _ _ HI); [done| |by cbn; rewrite Hi].
  apply carried_ok. by intros ?%manifest_path_inj.
Qed.

Lemma k_chunk_other key' parent span data kind :
  key' ≠ key → keeps I (commit_chunk st key' parent span data kind).
Proof.
  intros Hne. apply (k_commit_chunk st HI carried_tmp (λ s, carried_shard file s _) key' (λ _, True));
    [apply carried_marker..| |done].
  intros fs ino D m _ Hfs Hi _ _. by eapply carried_link_other.
Qed.

Lemma k_stream_other key' parent span pieces kind :
  key' ≠ key → keeps I (commit_stream st key' parent span pieces kind).
Proof.
  intros Hne. apply (k_commit_stream st HI carried_tmp (λ s, carried_shard file s _) key' (λ _, True));
    [apply carried_marker..| |done].
  intros fs ino D m _ Hfs Hi _ _. by eapply carried_link_other.
Qed.

Lemma carried_none p : guard_ok at_key (carries file) p None.
Proof. left. split; [done|]. by intros _ D. Qed.

Lemma carried_unkeyed p v : unkeyed p → guard_ok at_key (carries file) p v.
Proof. intros Hu. apply carried_ok. apply Hu. Qed.

Lemma carried_quarantine hk e r : keeps I (_quarantine_manifest hk e r).
Proof.
  apply (k_quarantine HI); try apply carried_none.
  - apply carried_marker.
  - intros n v. apply carried_unkeyed. auto with unkeyed.
Qed.

Lemma carried_call c : ¬ publishes c key → keeps I (run_store_call st c).
Proof.
  intros Hnp.
  assert (Hs : ∀ n d, unkeyed (n :: d) → guard_scratch at_key (n :: d)) by (intros n d Hu; split; [done|apply Hu]).
  apply (k_store_call st Hslot HI);
    try (intros; first [apply carried_none|apply carried_unkeyed|apply Hs|apply carried_quarantine]; auto with unkeyed; fail).
  - intros e. assert (keeps I (_clear_inventory_withdrawal e)) by (apply (k_clear HI), carried_none).
    pose proof (k_absence HI). unfold acknowledge_absent, _manifest_path. io_keeps.
  - apply (k_reserve HI (λ _, True)); intros; first [done|apply carried_unkeyed|apply Hs]; auto with unkeyed.
  - intros b. apply (k_scrub_write HI (λ _, True)); intros; first [done|apply carried_unkeyed|apply Hs]; auto with unkeyed.
  - intros n. apply (k_replace HI); intros; first [done|apply carried_unkeyed]; auto with unkeyed.
  - intros key' Hp. split; [apply carried_none|]. intros fs ino D m _ Hfs Hi _ _.
    eapply carried_link_other; [|done|done]. by intros ->.
Qed.
End others.

(** The file of a key stays what it is until the key is published again. *)
Lemma carried_reachable file w w' :
  rtc (unpublished_step st key) w w' → carried false file (w_fs w) → carried false file (w_fs w').
Proof.
  induction 1 as [|w w1 w2 Hs _ IH]; [done|]. intros Hw. apply IH. clear IH.
  destruct Hs as [c o w w' Hn Hr|w w' Hf|w w' Hl]; [|by rewrite Hf|by eapply guarded_power_loss].
  pose proof (carried_call false file c Hn w Hw) as Hc. rewrite Hr in Hc. by destruct o.
Qed.
End commit.

(** ** What an operation on other keys leaves alone *)
Section spare.
Context `{Sha, Uuid, JsonLoads} (st : TokenFileStore) (Hslot : 0 < st_slot_bytes st).

(** The marker and the file of the key are what they were. *)
Record untouched (key : pystr) (fs0 fs : FS) : Prop := {
  ut_prepared : prepared fs;
  ut_marker : names fs !! _inventory_withdrawal_path key = names fs0 !! _inventory_withdrawal_path key;
  ut_name : names fs !! manifest_path key = names fs0 !! manifest_path key;
  ut_data : ∀ ino i, names fs0 !! manifest_path key = Some (NFile ino) → inodes fs0 !! ino = Some i →
    ∃ i', inodes fs !! ino = Some i' ∧ i_data i' = i_data i
}.

Definition untouched_ok (key : pystr) (p : path) (v : option node) : Prop :=
  base_ok p v ∧ p ≠ _inventory_withdrawal_path key ∧ p ≠ manifest_path key.
Definition untouched_scratch (key : pystr) (p : path) : Prop := base_scratch p ∧ p ≠ _inventory_withdrawal_path key.

Lemma untouched_set_name key fs0 fs p v :
  untouched key fs0 fs → prepared (set_name p v fs) → p ≠ _inventory_withdrawal_path key → p ≠ manifest_path key →
  untouched key fs0 (set_name p v fs).
Proof.
  intros [Hp Hm Hn Hd] Hp' Hpm Hpn. split; [done| | |exact Hd].
  - unfold set_name. cbn. by rewrite lookup_partial_alter_ne.
  - unfold set_name. cbn. by rewrite lookup_partial_alter_ne.
Qed.

Lemma untouched_inv key fs0 : store_inv (untouched_ok key) (untouched_scratch key) (untouched key fs0).
Proof.
  pose proof prepared_inv as HI. split.
  - intros fs Hu. apply (pr_wf _ (ut_prepared _ _ _ Hu)).
  - intros fs p v Hu (Hb & ? & ?) He. apply untouched_set_name; [done| |done|done].
    apply (si_name _ _ _ HI); [apply Hu|done|done].
  - intros fs d [Hp Hm Hn Hd]. split; [by apply (si_sync _ _ _ HI)|exact Hm|exact Hn|exact Hd].
  - intros fs p now Hu [Hb Hpm]. pose proof Hb as (_ & Hk & _). destruct Hu as [Hp Hm Hn Hd].
    split; [by apply (si_create _ _ _ HI)|..]; unfold set_name; cbn.
    + by rewrite lookup_partial_alter_ne.
    + by rewrite lookup_partial_alter_ne by apply Hk.
    + intros ino i Hi Hl. destruct (Hd ino i Hi Hl) as (i' & Hi' & ?). exists i'. split; [|done].
      rewrite lookup_insert_ne; [done|]. intros <-. assert (next_ino fs < next_ino fs)%nat; [|lia].
      by apply (fw_inodes _ (pr_wf _ Hp)).
  - intros fs ino p i [Hp Hm Hn Hd] [Hb Hpm] Hl. pose proof Hb as (_ & Hk & _).
    split; [by eapply (si_write _ _ _ HI)|exact Hm|exact Hn|]. intros j i0 Hj Hi0. cbn.
    rewrite lookup_insert_ne; [by eapply Hd|]. intros <-. destruct Hl as [_ Hl].
    apply (Hk key). symmetry. apply Hl. rewrite <-Hj, <-Hn. apply possible_head.
  - intros fs ino i now [Hp Hm Hn Hd] Hi. split; [by apply (si_utime _ _ _ HI)|exact Hm|exact Hn|].
    intros j i0 Hj Hi0. destruct (Hd j i0 Hj Hi0) as (i' & Hi' & E). cbn. rewrite lookup_insert.
    case_decide as Hij; [|by exists i']. subst. eexists. split; [done|]. cbn. congruence.
  - intros p [Hb ?]. destruct (si_scratch _ _ _ HI p Hb) as [? ?]. split; [done|]. split; [done|].
    destruct Hb as (_ & Hk & _). split; [done|apply Hk].
Qed.

Lemma untouched_refl key fs : prepared fs → untouched key fs fs.
Proof. intros Hp. split; [done..|]. eauto. Qed.
Lemma untouched_trans key fs fs1 fs2 : untouched key fs fs1 → untouched key fs1 fs2 → untouched key fs fs2.
Proof.
  intros [_ M1 N1 D1] [P2 M2 N2 D2]. split; [done|congruence|congruence|]. intros ino i Hn Hi.
  destruct (D1 ino i Hn Hi) as (i1 & H1' & E1). destruct (D2 ino i1) as (i2 & H2' & E2); [congruence|done|].
  exists i2. split; [done|congruence].
Qed.

(** Seen through the directories of a prepared root. *)
Lemma untouched_live key fs fs' : prepared fs → untouched key fs fs' →
  live fs' (_inventory_withdrawal_path key) = live fs (_inventory_withdrawal_path key) ∧
  live fs' (manifest_path key) = live fs (manifest_path key) ∧
  ∀ ino, live fs (manifest_path key) = Some (NFile ino) → data_of fs' ino = data_of fs ino.
Proof.
  intros Hp [Hp' Hm Hn Hd]. rewrite !prepared_manifest, !prepared_marker by done. split_and!; [done|done|].
  intros ino Hi. destruct (fw_refs _ (pr_wf _ Hp) (manifest_path key) ino) as [i Hl]; [rewrite <-Hi; apply possible_head|].
  destruct (Hd ino i Hi Hl) as (i' & Hl' & E). unfold data_of. by rewrite Hl, Hl'.
Qed.

Lemma untouched_standing fs fs' d : prepared fs → untouched (td_key d) fs fs' → standing st fs d ↔ standing st fs' d.
Proof.
  intros Hp Hu. destruct (untouched_live _ _ _ Hp Hu) as (Hm & Hn & Hd). unfold standing. rewrite Hm, Hn.
  split; intros [? (ino & Hl & Hf)]; (split; [done|]); exists ino; (split; [done|]); [by rewrite Hd|by rewrite <-Hd].
Qed.

Lemma untouched_authentic fs fs' d : prepared fs → untouched (td_key d) fs fs' → authentic st fs d ↔ authentic st fs' d.
Proof.
  intros Hp Hu. destruct (untouched_live _ _ _ Hp Hu) as (_ & Hn & Hd). unfold authentic. rewrite Hn.
  split; intros (ino & Hl & Hf); exists ino; (split; [done|]); [by rewrite Hd|by rewrite <-Hd].
Qed.

(** A run that works on the keys [ks] only. *)
Definition spares (ks : list pystr) (w w' : World) : Prop :=
  prepared (w_fs w) → prepared (w_fs w') ∧ ∀ key, key ∉ ks → untouched key (w_fs w) (w_fs w').

Lemma spares_quiet w w' : w_fs w' = w_fs w → spares [] w w'.
Proof. intros E Hp. rewrite E. split; [done|]. intros key _. by apply untouched_refl. Qed.
Lemma spares_trans ks ks' w w1 w2 : spares ks w w1 → spares ks' w1 w2 → spares (ks ++ ks') w w2.
Proof.
  intros H1' H2' Hp. destruct (H1' Hp) as [Hp1 U1]. destruct (H2' Hp1) as [Hp2 U2]. split; [done|].
  intros key Hk. eapply untouched_trans; [apply U1|apply U2]; intros ?; apply Hk, elem_of_app; auto.
Qed.
Lemma spares_mono ks ks' w w' : ks ⊆ ks' → spares ks w w' → spares ks' w w'.
Proof. intros Hs Hsp Hp. destruct (Hsp Hp) as [? U]. split; [done|]. intros key Hk. apply U. intros ?. by apply Hk, Hs. Qed.

Lemma keeps_discard {A} I (m : IO A) : keeps I (discard m) → keeps I m.
Proof.
  intros Hk w Hw. specialize (Hk w Hw). unfold discard, mbind, io_bind in Hk. by destruct (m w) as [[a|e|] w'].
Qed.

Lemma spares_run {A} key (m : IO A) w :
  keeps prepared m → (∀ k fs0, k ≠ key → keeps (untouched k fs0) m) → spares [key] w (m w).2.
Proof.
  intros Hp Hu Hw. split; [by apply keeps_run|]. intros k Hk. apply keeps_run; [|by apply untouched_refl].
  apply Hu. intros ->. apply Hk. by left.
Qed.

Section one.
Context (key k : pystr) (fs0 : FS) (Hne : k ≠ key).
Lemma untouched_marker v : untouched_ok k (_inventory_withdrawal_path key) v.
Proof. split; [apply base_marker|]. split; [by intros ?%marker_inj|by intros [=]]. Qed.
Lemma untouched_removed : untouched_ok k (manifest_path key) None.
Proof. split; [apply base_manifest|]. split; [by intros [=]|by intros ?%manifest_path_inj]. Qed.
Lemma untouched_tmp n : untouched_scratch k (n :: tmp_dir).
Proof. split; [apply base_tmp|by intros [=]]. Qed.
Lemma untouched_shard s : untouched_ok k (s :: manifests_dir) (Some NDir).
Proof. split; [apply base_shard|]. split; by intros [=]. Qed.
Lemma untouched_quarantine n v : untouched_ok k (n :: quarantine_dir) v.
Proof. split; [apply base_quarantine|]. split; by intros [=]. Qed.

Lemma untouched_link fs ino D m :
  is_digest key = true → untouched k fs0 fs → inodes fs !! ino = Some (Inode D true m) → True →
  possible fs (shard_dir key) = [Some NDir] → untouched k fs0 (set_name (manifest_path key) (Some (NFile ino)) fs).
Proof.
  intros _ Hu Hi _ Hs. apply untouched_set_name; [done| |by intros [=]|by intros ?%manifest_path_inj].
  apply prepared_link; [apply Hu|by rewrite Hi|done].
Qed.

Lemma k_untouched_valid parent span kind : keeps (untouched k fs0) (valid_chunk st key parent span kind).
Proof.
  pose proof (untouched_inv k fs0) as HI. apply (k_valid_chunk_of st HI); [apply untouched_marker|].
  intros hk r. apply (k_quarantine HI); [apply untouched_removed|apply untouched_marker..|apply untouched_quarantine].
Qed.
Lemma k_untouched_chunk parent span data kind : keeps (untouched k fs0) (commit_chunk st key parent span data kind).
Proof.
  pose proof (untouched_inv k fs0) as HI.
  by apply (k_commit_chunk st HI untouched_tmp untouched_shard key (λ _, True)
    (untouched_marker _) (untouched_marker _) untouched_link).
Qed.
Lemma k_untouched_stream parent span pieces kind : keeps (untouched k fs0) (commit_stream st key parent span pieces kind).
Proof.
  pose proof (untouched_inv k fs0) as HI.
  by apply (k_commit_stream st HI untouched_tmp untouched_shard key (λ _, True)
    (untouched_marker _) (untouched_marker _) untouched_link).
Qed.
End one.

Lemma valid_chunk_spares key parent span kind w o w' :
  valid_chunk st key parent span kind w = (o, w') → spares [key] w w'.
Proof.
  intros Hr. pose proof (spares_run key (valid_chunk st key parent span kind) w) as Hs. rewrite Hr in Hs. apply Hs.
  - pose proof (prepared_call st Hslot (CValidChunk key parent span kind)) as Hp. cbn [run_store_call] in Hp. exact (keeps_discard _ _ Hp).
  - intros k fs0 Hk. by apply k_untouched_valid.
Qed.

Lemma committed_spares key parent span data kind w w' d :
  committed st key parent span data kind w w' d → spares [key] w w'.
Proof.
  intros [Hr|(views & _ & Hr)].
  - pose proof (spares_run key (commit_chunk st key parent span data kind) w) as Hs. rewrite Hr in Hs. apply Hs.
    + pose proof (prepared_call st Hslot (CCommitChunk key parent span data kind)) as Hp. cbn [run_store_call] in Hp. exact (keeps_discard _ _ Hp).
    + intros k fs0 Hk. by apply k_untouched_chunk.
  - pose proof (spares_run key (commit_stream st key parent span (Ok <$> views) kind) w) as Hs. rewrite Hr in Hs. apply Hs.
    + pose proof (prepared_call st Hslot (CCommitStream key parent span (Ok <$> views) kind)) as Hp. cbn [run_store_call] in Hp. exact (keeps_discard _ _ Hp).
    + intros k fs0 Hk. by apply k_untouched_stream.
Qed.

Lemma touch_spares l w o w' : touch_files l w = (o, w') → spares [] w w'.
Proof.
  intros Hr Hp. pose proof (keeps_run _ _ w (k_touch_files prepared_inv l) Hp) as Hk. rewrite Hr in Hk.
  split; [done|]. intros key _.
  pose proof (keeps_run _ _ w (k_touch_files (untouched_inv key (w_fs w)) l) (untouched_refl _ _ Hp)) as Hu.
  by rewrite Hr in Hu.
Qed.

(** A commit that returned found no name under the key. *)
Lemma publish_absent key h write w d w' :
  _publish_chunk st key h write w = (Ret d, w') → live (w_fs w) (manifest_path key) = None.
Proof.
  unfold _publish_chunk. intros (? & w1 & Ho & Hr)%bind_Ret.
  assert (w_fs w1 = w_fs w) as F1.
  { pose proof (keeps_fs _ensure_open w) as K. rewrite Ho in K. apply K. intros J. io_keeps. }
  apply bind_Ret in Hr as (header & w2 & He & Hr). apply lift_Ret in He as [_ ->].
  apply bind_Ret in Hr as (p & w2 & Hp & Hr). unfold _manifest_path in Hp.
  destruct (is_digest key); [|done]. apply ret_Ret in Hp as [-> ->].
  apply bind_Ret in Hr as (present & w2 & Hx & Hr). apply bind_Ret in Hr as (? & w3 & Hg & _).
  apply guard_Ret in Hg as [-> _]. rewrite <-F1. unfold sys_exists in Hx.
  apply bind_Ret in Hx as (? & w4 & Hc & Hx). apply bind_Ret in Hx as (fs & w5 & Hf & Hx).
  assert (w_fs w4 = w_fs w1) as F4.
  { pose proof (keeps_fs consult w1 (λ J, k_consult J)) as K. by rewrite Hc in K. }
  unfold get_fs in Hf. injection Hf as <- <-. apply ret_Ret in Hx as [Hx _]. rewrite F4 in Hx.
  destruct (live (w_fs w1) (manifest_path key)); [|done]. by rewrite bool_decide_true in Hx by by eexists.
Qed.

Lemma committed_absent key parent span data kind w w' d :
  committed st key parent span data kind w w' d → live (w_fs w) (manifest_path key) = None.
Proof.
  intros [Hr|(pieces & _ & Hr)]; unfold commit_chunk, commit_stream in Hr;
    apply exclusive_Ret in Hr as (w1 & w2 & Hr & F & _); cbv zeta in Hr; rewrite <-F.
  - apply bind_Ret in Hr as (h & w3 & Hl & Hr). apply lift_Ret in Hl as [_ ->].
    apply bind_Ret in Hr as (? & w3 & Hg & Hr). apply guard_Ret in Hg as [_ ->]. by eapply publish_absent.
  - apply bind_Ret in Hr as (h & w3 & Hl & Hr). apply lift_Ret in Hl as [_ ->]. by eapply publish_absent.
Qed.
End spare.
