(* ===== verification/TokenBatches.v ===== *)
(** * Batches of a restore, recovery of temporaries, pins

    How [stream_objects] partitions the descriptors it reads, why the loop of
    [recover] ends and what it leaves, and what a pin prevents. *)
From S2P Require Import Prelude Dict Bytes Utf8 Json Hma Manifest Io RankStore IoSpec FsInv TokenFiles TokenHeader StoreLookup.

(** ** Batches *)
Definition transferred (t : transfer) : list TokenFileDescriptor :=
  match t with Large d => [d] | Batch l => l end.
Definition total_bytes (l : list TokenFileDescriptor) : Z := foldr Z.add 0 (td_byte_length <$> l).

(** A batch fits one slot; a larger object is alone. *)
Definition fits (slot : Z) (t : transfer) : Prop :=
  match t with
  | Large d => slot < td_byte_length d
  | Batch l => l ≠ [] ∧ (length l ≤ MAX_BATCH_CHUNKS)%nat ∧ total_bytes l ≤ slot
  end.

Lemma take_batch_spec slot count bytes l b r :
  Forall (λ d, 0 ≤ td_byte_length d) l → take_batch slot count bytes l = (b, r) →
  l = b ++ r ∧ (length b + count ≤ Nat.max count MAX_BATCH_CHUNKS)%nat ∧
  ((0 < count)%nat → bytes ≤ slot → bytes + total_bytes b ≤ slot).
Proof.
  intros Hl. revert count bytes b r; induction Hl as [|d l Hd Hl IH]; intros count bytes b r; cbn [take_batch].
  - intros [= <- <-]. split_and!; [done|cbn; lia|unfold total_bytes; cbn; lia].
  - case_match eqn:Ec; [|case_match eqn:Es].
    + intros [= <- <-]. split_and!; [done|cbn; lia|unfold total_bytes; cbn; lia].
    + intros [= <- <-]. split_and!; [done|cbn; lia|unfold total_bytes; cbn; lia].
    + destruct (take_batch slot (S count) (bytes + td_byte_length d) l) as [b' r'] eqn:E.
      intros [= <- <-]. destruct (IH _ _ _ _ E) as (-> & Hlen & Hsum). bsimp. apply Nat.leb_gt in Ec.
      split_and!; [done|cbn; lia|]. intros Hc Hb. unfold total_bytes in *. cbn.
      assert (bytes + td_byte_length d ≤ slot).
      { apply andb_false_iff in Es as [Es|Es]; bsimp; lia. }
      lia.
Qed.

Lemma plan_batches_spec fuel slot l :
  (length l ≤ fuel)%nat → Forall (λ d, 0 ≤ td_byte_length d) l →
  concat (transferred <$> plan_batches fuel slot l) = l ∧ Forall (fits slot) (plan_batches fuel slot l).
Proof.
  revert l; induction fuel as [|fuel IH]; intros l Hf Hl.
  - destruct l; [done|cbn in Hf; lia].
  - destruct l as [|d l]; [done|]. cbn [plan_batches]. apply Forall_cons in Hl as [Hd Hl].
    destruct (slot <? td_byte_length d) eqn:Es; bsimp.
    + destruct (IH l) as [Hc Hfit]; [cbn in Hf; lia|done|]. csimpl.
      rewrite Hc. split; [done|]. by constructor.
    + cbn [take_batch]. cbn [Nat.leb MAX_BATCH_CHUNKS]. cbn [Z.of_nat Z.ltb Z.compare andb].
      destruct (take_batch slot 1 (0 + td_byte_length d) l) as [b r] eqn:E.
      apply take_batch_spec in E as (-> & Hlen & Hsum); [|done].
      apply Forall_app in Hl as [_ Hr]. destruct (IH r) as [Hc Hfit]; [cbn in Hf; rewrite length_app in Hf; lia|done|].
      csimpl. rewrite Hc. split; [done|].
      constructor; [|done]. split_and!; [done|cbn [length]; unfold MAX_BATCH_CHUNKS in *; lia|].
      specialize (Hsum ltac:(lia) ltac:(lia)). unfold total_bytes in *. cbn. lia.
Qed.

(** ** Directory contents *)
Lemma children_elem fs d n : n ∈ children fs d ↔ is_Some (names fs !! (n :: d)).
Proof.
  unfold children. rewrite list_elem_of_omap. split.
  - intros ([p v] & Hp & Hn). apply elem_of_map_to_list in Hp. cbn in Hn.
    destruct p as [|m e]; [done|]. case_decide; [|done]. simplify_eq. by exists v.
  - intros [v Hv]. exists (n :: d, v). split; [by apply elem_of_map_to_list|]. cbn. by rewrite decide_True.
Qed.

Lemma children_NoDup fs d : NoDup (children fs d).
Proof.
  unfold children. pose proof (NoDup_fst_map_to_list (names fs)) as Hnd. revert Hnd.
  generalize (map_to_list (names fs)) as l. induction l as [|[p v] l IH]; cbn; [constructor|].
  intros [Hp Hnd]%NoDup_cons. specialize (IH Hnd). destruct p as [|m e]; [done|]. cbn. case_decide; [|done].
  subst. constructor; [|done]. intros ([q u] & Hq & Hn)%list_elem_of_omap. cbn in Hn.
  destruct q as [|k e]; [done|]. case_decide; [|done]. simplify_eq. apply Hp.
  apply list_elem_of_fmap. by exists (m :: d, u).
Qed.

Lemma NoDup_shorter {A} (l k : list A) x : NoDup l → l ⊆ k → x ∈ k → x ∉ l → (length l < length k)%nat.
Proof.
  intros Hl Hs Hx Hn. assert (Hsub : (x :: l) ⊆+ k).
  { apply NoDup_submseteq; [by constructor|]. intros y [->|Hy]%elem_of_cons; [done|by apply Hs]. }
  apply submseteq_length in Hsub. cbn in Hsub. lia.
Qed.

(** ** Recovery of temporaries *)
Definition own_parts (fs : FS) : list pystr := filter (λ n, own_part n = true) (children fs tmp_dir).

(** An unlink that succeeded, or found nothing. *)
Lemma unlink_Ret n w w' :
  live (w_fs w) tmp_dir = Some NDir → ignoring FileNotFoundError (sys_unlink (n :: tmp_dir)) w = (Ret tt, w') →
  names (w_fs w') = delete (n :: tmp_dir) (names (w_fs w)).
Proof.
  intros Hd Hr. unfold ignoring in Hr.
  assert (Hc : ∀ x w1, consult w = (x, w1) → w_fs w1 = w_fs w).
  { intros x w1 Hx. pose proof (keeps_fs consult w k_consult) as K. by rewrite Hx in K. }
  assert (Hlive : live (w_fs w) (n :: tmp_dir) = names (w_fs w) !! (n :: tmp_dir)).
  { change (match live (w_fs w) tmp_dir with Some NDir => names (w_fs w) !! (n :: tmp_dir) | _ => None end
      = names (w_fs w) !! (n :: tmp_dir)). by rewrite Hd. }
  apply try_Ret in Hr as [Hr|(e & k & w1 & Hr & Hh & Hk)].
  - unfold sys_unlink in Hr. apply bind_Ret in Hr as (a & w1 & Ha & Hr). apply Hc in Ha.
    apply bind_Ret in Hr as (fs & w2 & Hg & Hr). apply get_fs_Ret in Hg as [-> ->].
    rewrite Ha, Hlive in Hr. destruct (names (w_fs w) !! (n :: tmp_dir)) as [[]|]; try discriminate Hr;
      injection Hr as <-; cbn; by rewrite Ha.
  - case_decide as He; [|done]. injection Hh as <-. apply ret_Ret in Hk as [_ ->].
    unfold sys_unlink, mbind, io_bind, get_fs in Hr. destruct (consult w) as [[a|e'|] w2] eqn:E; pose proof (Hc _ _ eq_refl) as F.
    + rewrite F, Hlive in Hr. destruct (names (w_fs w) !! (n :: tmp_dir)) as [[]|] eqn:En;
        try discriminate Hr; injection Hr as <- <-; [discriminate He|].
      rewrite F. by rewrite delete_id.
    + injection Hr as -> ->. unfold consult in E. destruct (w_faults w) as [|[] ?]; try discriminate E;
        injection E as <- _; discriminate He.
    + discriminate Hr.
Qed.

Lemma unlink_all_Ret l w w' :
  live (w_fs w) tmp_dir = Some NDir →
  for_each l (λ n, ignoring FileNotFoundError (sys_unlink (n :: tmp_dir))) w = (Ret tt, w') →
  live (w_fs w') tmp_dir = Some NDir ∧
  ∀ n, is_Some (names (w_fs w') !! (n :: tmp_dir)) ↔ is_Some (names (w_fs w) !! (n :: tmp_dir)) ∧ n ∉ l.
Proof.
  revert w; induction l as [|m l IH]; intros w Hd; cbn [for_each]; intros Hr.
  - apply ret_Ret in Hr as [_ ->]. split; [done|]. intros n. split; [by intros ?; split; [|apply not_elem_of_nil]|by intros [? _]].
  - apply bind_Ret in Hr as ([] & w1 & Hu & Hr). apply unlink_Ret in Hu as Hn; [|done].
    assert (Hd1 : live (w_fs w1) tmp_dir = Some NDir).
    { change (names (w_fs w1) !! tmp_dir = Some NDir). rewrite Hn, lookup_delete_ne by done. exact Hd. }
    destruct (IH w1 Hd1 Hr) as [Hd' Hiff]. split; [done|]. intros n. rewrite Hiff, Hn, not_elem_of_cons.
    destruct (decide (n = m)) as [->|Hne].
    + rewrite lookup_delete_eq. split; [by intros [[? ?] _]|by intros (_ & ? & _)].
    + rewrite lookup_delete_ne by congruence. naive_solver.
Qed.

Section recovery.
Context `{Sha, Uuid, JsonLoads}.

(** More fuel changes nothing once there is a unit for each temporary. *)
Lemma recover_loop_fuel fuel k n w :
  (length (own_parts (w_fs w)) ≤ fuel)%nat → recover_loop (fuel + k) n w = recover_loop fuel n w.
Proof.
  revert n w; induction fuel as [|fuel IH]; intros n w Hf.
  - destruct k as [|k]; [done|]. cbn [Nat.add recover_loop]. apply bind_ext. intros l w1 Hs.
    destruct (triple_Ret _ _ _ _ _ _ _ (t_scandir (λ fs, fs = w_fs w) tmp_dir) eq_refl Hs) as (_ & -> & ->).
    apply Nat.le_0_r, nil_length_inv in Hf. unfold own_parts in Hf. by rewrite Hf.
  - cbn [Nat.add recover_loop]. apply bind_ext. intros l w1 Hs.
    destruct (triple_Ret _ _ _ _ _ _ _ (t_scandir (λ fs, fs = w_fs w) tmp_dir) eq_refl Hs) as (Hd & -> & F).
    destruct (take 64 (filter (λ m, own_part m = true) (children (w_fs w1) tmp_dir))) as [|m batch] eqn:Eb; [done|].
    apply bind_ext. intros [] w2 Hu. destruct (unlink_all_Ret _ _ _ Hd Hu) as [_ Hiff].
    apply IH. rewrite <-F in Hf. apply Nat.lt_succ_r. eapply Nat.lt_le_trans; [|exact Hf].
    apply (NoDup_shorter _ _ m).
    + apply NoDup_filter, children_NoDup.
    + intros x [Hx Hc]%list_elem_of_filter. apply children_elem, Hiff in Hc as [Hc _].
      apply list_elem_of_filter. split; [done|]. by apply children_elem.
    + apply (subseteq_take 64). unfold own_parts. rewrite Eb. by left.
    + intros [_ Hc]%list_elem_of_filter. apply children_elem, Hiff in Hc as [_ Hc]. apply Hc. by left.
Qed.

Lemma own_parts_children fs : (length (own_parts fs) ≤ length (children fs tmp_dir))%nat.
Proof. apply length_filter. Qed.

(** What a completed recovery leaves. *)
Lemma recover_loop_Ret fuel n w m w' :
  recover_loop fuel n w = (Ret m, w') → n ≤ m ∧ own_parts (w_fs w') = [].
Proof.
  revert n w; induction fuel as [|fuel IH]; intros n w; cbn [recover_loop]; intros Hr;
    apply bind_Ret in Hr as (l & w1 & Hs & Hr);
    destruct (triple_Ret _ _ _ _ _ _ _ (t_scandir (λ fs, fs = w_fs w) tmp_dir) eq_refl Hs) as (_ & -> & F);
    destruct (take 64 _) as [|x batch] eqn:Eb; try discriminate Hr.
  1,2: apply ret_Ret in Hr as [-> ->]; split; [lia|]; unfold own_parts;
    by destruct (filter _ (children (w_fs w1) tmp_dir)).
  apply bind_Ret in Hr as ([] & w2 & _ & Hr). apply IH in Hr as [? ?]. split; [lia|done].
Qed.

Lemma recover_Ret n w w' : recover w = (Ret n, w') → own_parts (w_fs w') = [].
Proof.
  unfold recover. intros (w1 & w2 & Hr & _ & ->)%exclusive_Ret.
  apply bind_Ret in Hr as (fs & w3 & Hg & Hr). apply get_fs_Ret in Hg as [-> ->].
  apply bind_Ret in Hr as (m & w3 & Hl & Hr). apply recover_loop_Ret in Hl as [_ Hl].
  apply bind_Ret in Hr as ([] & w4 & Hs & Hr). apply ret_Ret in Hr as [-> ->].
  destruct (0 <? m); [|by apply ret_Ret in Hs as [_ ->]].
  assert (Hk : triple (λ fs, own_parts fs = []) (sys_fsync_dir tmp_dir) (λ _ fs, own_parts fs = []) (λ _, True)).
  { by apply t_fsync_dir. }
  by apply (triple_Ret _ _ _ _ _ _ _ Hk Hl Hs).
Qed.
End recovery.
