(* ===== verification/ScrubProps.v ===== *)
(** * Properties of the scrubber ([src/spoolcache/token_scrub.py])

    A step scans a prefix of the next keys in order, so that no file between the old and
    the new cursor is skipped; what it reports as authenticated was authenticated in full,
    and it releases no other tombstone; and every step that scans a key brings the cycle
    nearer to its end. *)
From S2P Require Import Prelude Dict Bytes Json Hma Manifest Io RankStore IoSpec FsInv TokenFiles TokenHeader TokenScrub StoreOps StoreInv StoreSystem StoreFence StoreLookup TokenBatches.

(** ** The order of keys *)
Lemma str_ltb_spec a b : str_ltb a b = true ↔ str_leb a b = true ∧ a ≠ b.
Proof. unfold str_ltb. rewrite andb_true_iff, negb_true_iff, bool_decide_eq_false. done. Qed.

Lemma str_ltb_irrefl a : str_ltb a a = false.
Proof. unfold str_ltb. rewrite bool_decide_true by done. apply andb_false_r. Qed.

Lemma str_leb_ltb a b : str_leb a b = negb (str_ltb b a).
Proof.
  destruct (str_ltb b a) eqn:E; cbn.
  - apply str_ltb_spec in E as [Hl Hne]. destruct (str_leb a b) eqn:E'; [|done].
    destruct Hne. by apply str_leb_antisym.
  - destruct (str_leb_total a b) as [?|Hba]; [done|]. destruct (decide (b = a)) as [->|Hne]; [apply str_leb_refl|].
    assert (str_ltb b a = true) by by apply str_ltb_spec. congruence.
Qed.

Lemma str_ltb_leb_trans a b c : str_ltb a b = true → str_leb b c = true → str_ltb a c = true.
Proof.
  rewrite !str_ltb_spec. intros [Hab Hne] Hbc. split; [by eapply str_leb_trans|].
  intros ->. apply Hne, str_leb_antisym; done.
Qed.

(** Keys in strictly increasing order. *)
Definition increasing : list pystr → Prop := StronglySorted (λ a b, str_ltb a b = true).

Definition beyond (cursor : pystr) (keys : list pystr) : list pystr := filter (λ k, str_ltb cursor k = true) keys.
Definition in_order (keys : list pystr) : list pystr := merge_sort str_le keys.

Lemma next_keys_unfold n cursor keys : next_keys n cursor keys = take n (in_order (beyond cursor keys)).
Proof. done. Qed.

Lemma in_order_elem keys k : k ∈ in_order keys ↔ k ∈ keys.
Proof. unfold in_order. by rewrite (merge_sort_Permutation str_le keys). Qed.

Lemma in_order_increasing keys : NoDup keys → increasing (in_order keys).
Proof.
  intros Hn. pose proof (StronglySorted_merge_sort str_le keys) as Hs. fold (in_order keys) in Hs.
  assert (NoDup (in_order keys)) as Hd by (unfold in_order; by rewrite (merge_sort_Permutation str_le keys)).
  revert Hs Hd. generalize (in_order keys) as l. intros l Hs. induction Hs as [|k l Hs IH Hk]; intros Hd; [constructor|].
  apply NoDup_cons in Hd as [Hin Hd]. constructor; [by apply IH|]. rewrite Forall_forall in *.
  intros x Hx. apply str_ltb_spec. split; [by apply Hk|]. by intros ->.
Qed.

(** The keys beyond the last of a prefix are the rest. *)
Lemma increasing_split l k c :
  increasing (l ++ [c] ++ k) → Forall (λ x, str_leb x c = true) (l ++ [c]) ∧ Forall (λ x, str_ltb c x = true) k.
Proof.
  induction l as [|x l IH]; cbn [app]; intros Hs; apply StronglySorted_inv in Hs as [Hs Hx].
  - split; [by constructor; [apply str_leb_refl|]|done].
  - apply IH in Hs as [Hl Hk]. split; [|done]. constructor; [|done].
    rewrite Forall_forall in Hx. apply str_ltb_spec, Hx. apply elem_of_app. right. by left.
Qed.

(** ** The keys on disk *)
Definition on_disk (fs : FS) (key : pystr) : Prop := is_digest key = true ∧ is_Some (live fs (manifest_path key)).

Lemma scandir_absent p w e w' :
  sys_scandir p w = (Exc e, w') → exn_class e = FileNotFoundError → live (w_fs w) p = None ∧ w_fs w' = w_fs w.
Proof.
  unfold sys_scandir. intros Hr He. unfold mbind, io_bind in Hr.
  destruct (consult w) as [[a|x|] w1] eqn:Ec; [|injection Hr as -> ->|done].
  - assert (w_fs w1 = w_fs w) as F1.
    { pose proof (keeps_fs consult w k_consult) as K. by rewrite Ec in K. }
    cbn in Hr. rewrite F1 in Hr.
    destruct (live (w_fs w) p) as [[]|]; unfold not_found, throw, ret in Hr; cbn in Hr; simplify_eq/=; done.
  - unfold consult in Ec. destruct (w_faults w) as [|[] l]; simplify_eq/=; done.
Qed.

Lemma key_length key : is_digest key = true → length key = 64%nat.
Proof. unfold is_digest. intros Hk. bsimp. lia. Qed.

Lemma manifest_key_Some shard name key :
  manifest_key shard name = Some key ↔ is_digest key = true ∧ take 2 key = shard ∧ name = key ++ lit ".kv".
Proof.
  unfold manifest_key. cbv zeta. split.
  - destruct (_ && _) eqn:E; [|done]. intros [= <-]. rewrite !andb_true_iff, !bool_decide_eq_true in E.
    destruct E as [[Hd Hk] Ht]. split_and!; [done| |by rewrite <- Hd, take_drop].
    pose proof (key_length _ Hk) as Hl. rewrite length_take in Hl. rewrite take_take, Nat.min_l by lia. done.
  - intros (Hk & Ht & ->). rewrite length_app. change (length (lit ".kv")) with 3%nat.
    replace (length key + 3 - 3)%nat with (length key) by lia. rewrite drop_app_length, take_app_length.
    pose proof (key_length _ Hk) as Hl. rewrite Hk, !bool_decide_true; [done| |done].
    rewrite take_app_le by lia. done.
Qed.

Lemma NoDup_omap {A B} (f : A → option B) l :
  (∀ a b k, f a = Some k → f b = Some k → a = b) → NoDup l → NoDup (omap f l).
Proof.
  intros Hf Hl. induction Hl as [|a l Ha Hl IH]; [constructor|]. cbn. destruct (f a) as [k|] eqn:E; [|done].
  constructor; [|done]. intros (b & Hb & Hk)%list_elem_of_omap. apply Ha. by rewrite (Hf _ _ _ E Hk).
Qed.

Lemma shard_keys_Ret i w l w' :
  shard_keys i w = (Ret l, w') →
  w_fs w' = w_fs w ∧ NoDup l ∧ ∀ key, key ∈ l ↔ take 2 key = shard_name i ∧ on_disk (w_fs w) key.
Proof.
  assert (Hk : ∀ J, keeps J (shard_keys i)) by (intros J; pose proof (k_is_symlink J); unfold shard_keys; io_keeps).
  intros Hr. pose proof (keeps_fs (shard_keys i) w Hk) as Hfs. rewrite Hr in Hfs. cbn in Hfs. split; [done|].
  unfold shard_keys in Hr. apply bind_Ret in Hr as (link & w1 & Hl & Hr).
  assert (w_fs w1 = w_fs w) as F1.
  { pose proof (keeps_fs (is_symlink (shard_name i :: manifests_dir)) w (λ J, k_is_symlink J _)) as HF. by rewrite Hl in HF. }
  apply bind_Ret in Hr as (? & w2 & Hg & Hr). apply guard_Ret in Hg as [_ ->].
  unfold or_else in Hr. apply try_Ret in Hr as [Hr|(e & k & w2 & He & Hh & Hr)].
  - apply bind_Ret in Hr as (names' & w2 & Hs & Hr). apply ret_Ret in Hr as [-> ->].
    assert (live (w_fs w) (shard_name i :: manifests_dir) = Some NDir ∧
            names' = children (w_fs w) (shard_name i :: manifests_dir)) as [Hlive ->].
    { pose proof (triple_Ret _ _ _ _ _ _ _ (t_scandir (λ fs, fs = w_fs w) (shard_name i :: manifests_dir)) F1 Hs) as (H1 & H2 & H3).
      rewrite H3 in *. done. }
    split.
    + apply NoDup_omap; [|apply children_NoDup]. intros a b k Ha Hb.
      apply manifest_key_Some in Ha as (_ & _ & ->), Hb as (_ & _ & ->). done.
    + intros key. rewrite list_elem_of_omap. unfold on_disk. split.
      * intros (n & Hn & (Hd & Ht & ->)%manifest_key_Some). apply children_elem in Hn as [v Hv].
        split_and!; [done|done|]. exists v. unfold manifest_path, shard_dir. rewrite Ht. cbn [live]. cbn [live] in Hlive.
        by rewrite Hlive.
      * intros (Ht & Hd & v & Hv). exists (key ++ lit ".kv"). split; [|by apply manifest_key_Some].
        apply children_elem. exists v. apply live_names in Hv; [|done]. unfold manifest_path, shard_dir in Hv. by rewrite Ht in Hv.
  - case_decide as Ec; [|done]. injection Hh as <-. apply ret_Ret in Hr as [-> _].
    assert (live (w_fs w) (shard_name i :: manifests_dir) = None) as Hnone.
    { unfold mbind, io_bind in He. destruct (sys_scandir _ w1) as [[a|e'|] w3] eqn:Es; [done| |done].
      injection He as -> ->. by destruct (scandir_absent _ _ _ _ Es Ec) as [H1 _]; rewrite F1 in H1. }
    split; [constructor|]. intros key. split; [by intros ?%elem_of_nil|].
    intros (Ht & _ & v & Hv). apply live_parent in Hv. unfold shard_dir in Hv. rewrite Ht in Hv. congruence.
Qed.

Lemma gather_Ret {A B} (f : A → IO (list B)) (good : A → B → Prop) fs l :
  (∀ x w r w', w_fs w = fs → f x w = (Ret r, w') → w_fs w' = fs ∧ NoDup r ∧ ∀ y, y ∈ r ↔ good x y) →
  (∀ x x' y, x ∈ l → x' ∈ l → good x y → good x' y → x = x') → NoDup l →
  ∀ w r w', w_fs w = fs → gather f l w = (Ret r, w') →
  w_fs w' = fs ∧ NoDup r ∧ ∀ y, y ∈ r ↔ ∃ x, x ∈ l ∧ good x y.
Proof.
  intros Hf Hg Hl. induction Hl as [|x l Hx Hl IH]; intros w r w' Hw; cbn [gather].
  - intros [-> ->]%ret_Ret. split_and!; [done|constructor|]. intros y. split; [by intros ?%elem_of_nil|].
    by intros (x & ?%elem_of_nil & _).
  - intros (a & w1 & Ha & Hr)%bind_Ret. apply bind_Ret in Hr as (b & w2 & Hb & Hr). apply ret_Ret in Hr as [-> ->].
    destruct (Hf _ _ _ _ Hw Ha) as (F1 & N1 & E1). assert (∀ u v y, u ∈ l → v ∈ l → good u y → good v y → u = v) as Hg' by (intros u v y ? ?; apply Hg; by right).
    destruct (IH Hg' _ _ _ F1 Hb) as (F2 & N2 & E2).
    split_and!; [done| |].
    + apply NoDup_app. split_and!; [done| |done]. intros y Hy (x' & Hx' & Hgy)%E2. apply E1 in Hy.
      apply Hx. rewrite (Hg x x' y); [done|by left|by right|done|done].
    + intros y. rewrite elem_of_app, E1, E2. setoid_rewrite elem_of_cons. naive_solver.
Qed.

(** The two hexadecimal digits of a shard. *)
Lemma shard_of key : is_digest key = true → ∃ i, i ∈ seqZ 0 256 ∧ take 2 key = shard_name i.
Proof.
  intros Hk. pose proof (key_length _ Hk) as Hl. destruct key as [|a [|b key]]; [done..|].
  unfold is_digest in Hk. cbn [forallb] in Hk. bsimp. destruct_and?.
  exists (hex_value a * 16 + hex_value b). destruct (hex_digit_value a) as [Ha ?]; [done|].
  destruct (hex_digit_value b) as [Hb ?]; [done|]. split; [apply elem_of_seqZ; lia|].
  unfold shard_name. cbn [take]. rewrite Z.div_add_l, Z.div_small, Z.add_0_r by lia.
  rewrite Z.add_comm, Z.mod_add, Z.mod_small by lia. by rewrite Ha, Hb.
Qed.

Lemma hex_digit_inj a b : 0 ≤ a < 16 → 0 ≤ b < 16 → hex_digit a = hex_digit b → a = b.
Proof. intros Ha Hb He. rewrite <- (hex_value_digit a Ha), <- (hex_value_digit b Hb). by rewrite He. Qed.

Lemma shard_name_inj i j : i ∈ seqZ 0 256 → j ∈ seqZ 0 256 → shard_name i = shard_name j → i = j.
Proof.
  rewrite !elem_of_seqZ. intros Hi Hj [= H1 H2].
  apply hex_digit_inj in H1; [|Z.to_euclidean_division_equations; lia..].
  apply hex_digit_inj in H2; [|Z.to_euclidean_division_equations; lia..].
  rewrite (Z.div_mod i 16), (Z.div_mod j 16) by lia. lia.
Qed.

Lemma iter_manifest_paths_Ret w l w' :
  iter_manifest_paths w = (Ret l, w') →
  w_fs w' = w_fs w ∧ NoDup l ∧ ∀ key, key ∈ l ↔ on_disk (w_fs w) key.
Proof.
  intros Hr.
  destruct (gather_Ret shard_keys (λ i key, take 2 key = shard_name i ∧ on_disk (w_fs w) key)
              (w_fs w) (seqZ 0 256)) with w l w' as (F & N & E); [| |apply NoDup_seqZ|done|exact Hr|].
  - intros i w1 r w2 F1 (F2 & N2 & E2)%shard_keys_Ret. rewrite F1 in *. done.
  - intros i j key Hi Hj [H1 _] [H2 _]. apply shard_name_inj; [done|done|congruence].
  - split_and!; [done|done|]. intros key. rewrite E. split; [naive_solver|]. intros Hd.
    destruct (shard_of key) as (i & Hi & Ht); [apply Hd|]. by exists i.
Qed.

Lemma filter_every {A} (P : A → Prop) `{∀ x, Decision (P x)} (l : list A) : (∀ x, x ∈ l → P x) → filter P l = l.
Proof.
  induction l as [|x l IH]; intros Hl; [done|]. rewrite filter_cons_True by (apply Hl; by left).
  f_equal. apply IH. intros y Hy. apply Hl. by right.
Qed.

Lemma filter_never {A} (P : A → Prop) `{∀ x, Decision (P x)} (l : list A) : (∀ x, x ∈ l → ¬ P x) → filter P l = [].
Proof.
  induction l as [|x l IH]; intros Hl; [done|]. rewrite filter_cons_False by (apply Hl; by left).
  apply IH. intros y Hy. apply Hl. by right.
Qed.

(** A prefix of the next keys covers everything up to its last. *)
Lemma next_keys_cover n c names ks :
  NoDup names → ks `prefix_of` next_keys n c names → let c' := default c (last ks) in
  (∀ k, k ∈ names → str_ltb c k = true → str_leb k c' = true → k ∈ ks) ∧
  length (beyond c names) = (length ks + length (beyond c' names))%nat.
Proof.
  intros Hn [rest Hp] c'. rewrite next_keys_unfold in Hp.
  set (all := in_order (beyond c names)) in *.
  assert (increasing all) as Hinc by (by apply in_order_increasing, NoDup_filter).
  assert (Hall : all = ks ++ rest ++ drop n all) by (rewrite (assoc_L (++)), <- Hp; symmetry; apply take_drop).
  set (more := rest ++ drop n all) in *. clearbody more.
  assert (Hperm : beyond c names ≡ₚ ks ++ more).
  { rewrite <- Hall. unfold all, in_order. symmetry. apply merge_sort_Permutation. }
  assert (Hin : ∀ k, k ∈ names → str_ltb c k = true → k ∈ ks ∨ k ∈ more).
  { intros k Hk Hc. apply elem_of_app. rewrite <- Hperm. by apply list_elem_of_filter. }
  subst c'. destruct (last ks) as [x|] eqn:El; cbn [default from_option id].
  2:{ apply last_None in El as ->. split; [|done]. intros k Hk Hc Hle. by rewrite str_leb_ltb, Hc in Hle. }
  apply last_Some in El as [pre Epre].
  rewrite Hall, Epre, <- (assoc_L (++)) in Hinc. apply increasing_split in Hinc as [Hle Hgt].
  rewrite <- Epre in Hle. rewrite Forall_forall in Hle, Hgt. split.
  - intros k Hk Hc Hkx. destruct (Hin k Hk Hc) as [?|Hm]; [done|]. apply Hgt in Hm.
    rewrite str_leb_ltb, Hm in Hkx. done.
  - rewrite Hperm, length_app. f_equal. assert (beyond x names ≡ₚ more) as ->; [|done].
    assert (beyond x names = beyond x (beyond c names)) as ->.
    { unfold beyond. rewrite list_filter_filter. apply list_filter_iff. intros k. split; [|by intros [? _]]. intros Hk.
      split; [done|]. apply (str_ltb_leb_trans c x k); [|by apply str_ltb_spec in Hk as [? _]].
      assert (x ∈ beyond c names) as Hx by (rewrite Hperm, Epre; apply elem_of_app; left; apply elem_of_app; right; by left).
      by apply list_elem_of_filter in Hx as [? _]. }
    unfold beyond at 1. rewrite Hperm, filter_app.
    rewrite (filter_every _ more Hgt).
    rewrite filter_never; [done|]. intros k Hk Hlt. apply Hle in Hk. rewrite str_leb_ltb, Hlt in Hk. done.
Qed.

(** ** Runs *)
Section runs.
Context `{Sha, Uuid, JsonLoads} (st : TokenFileStore) (Hslot : 0 < st_slot_bytes st).

(** What a scanned key's outcome says about the files it was scanned in. *)
Definition outcome_sound (fs : FS) (x : Scrubbed) : Prop :=
  (sc_status x = SAuthenticated → ∃ d ino, live fs (manifest_path (sc_key x)) = Some (NFile ino) ∧
     parse_file st (sc_key x) (data_of fs ino) = Ok d ∧ payload_authentic st d (data_of fs ino) ∧
     sc_bytes x = td_byte_length d) ∧
  (sc_released x = true → sc_status x = SAuthenticated) ∧ sc_status x ≠ SNone ∧ 0 ≤ sc_bytes x.

Lemma scrub_failed_Ret key n e k w x w' :
  0 ≤ n → scrub_failed st key n e = Some k → k w = (Ret x, w') →
  sc_key x = key ∧ sc_status x ≠ SAuthenticated ∧ sc_released x = false ∧ sc_status x ≠ SNone ∧ 0 ≤ sc_bytes x.
Proof.
  intros Hn Hk Hr.
  assert (x = MkScrubbed key SAbsent n false ∨ x = MkScrubbed key SQuarantined n false) as [-> | ->]; [|done..].
  revert Hk. unfold scrub_failed.
  destruct (exn_class e); (try (destruct (caught_by_OSError_ManifestError e); [|done])); intros [= <-];
    first [apply ret_Ret in Hr as [-> _]; by left|apply bind_Ret in Hr as (? & ? & _ & Hr); apply ret_Ret in Hr as [-> _]; by right].
Qed.

Lemma scrub_one_Ret key s w x w' :
  scrub_one st key s w = (Ret (Some x), w') →
  sc_key x = key ∧ outcome_sound (w_fs w) x.
Proof.
  unfold scrub_one. intros (w1 & w2 & Hr & F1 & _)%exclusive_Ret.
  apply bind_Ret in Hr as (current & w3 & Hl & Hr).
  assert (w_fs w3 = w_fs w1) as F3.
  { pose proof (keeps_fs (scrub_load st) w1) as K. rewrite Hl in K. apply K. intros J. unfold scrub_load. io_keeps. }
  destruct (negb (same_state current s)); [by apply ret_Ret in Hr as [? _]|].
  apply bind_Ret in Hr as (busy & w4 & Hb & Hr).
  assert (w_fs w4 = w_fs w3) as F4.
  { pose proof (keeps_fs (pins_busy key) w3) as K. rewrite Hb in K. apply K. intros J. apply k_pins_busy. }
  destruct busy; [by apply ret_Ret in Hr as [? _]|].
  apply bind_Ret in Hr as (checked & w5 & Hc & Hr). apply bind_Ret in Hr as (r & w6 & Hx & Hr).
  apply bind_Ret in Hr as (? & w7 & _ & Hr). apply ret_Ret in Hr as [[= ->] _].
  rewrite F1 in F3. rewrite F3 in F4. unfold check_file in Hc. apply try_Ret in Hc as [Hc|(e & k & w8 & _ & Hh & Hk)].
  - apply bind_Ret in Hc as (od & w8 & Ho & Hc). apply bind_Ret in Hc as (u & w9 & Ha & Hc).
    apply ret_Ret in Hc as [-> ->]. apply open_chunk_Ret in Ho as (_ & F8 & Hlive & Hp). destruct u.
    rewrite F4 in *. rewrite <- F8 in Hp. pose proof (authenticate_Ret st key _ _ _ _ Hslot Hp Ha) as Hau.
    rewrite F8 in *. assert (0 ≤ td_byte_length od.2) as Hnn.
    { apply parse_file_Ok in Hp as (h & _ & _ & _ & _ & Hpos). lia. }
    unfold release_tombstone in Hx. apply try_Ret in Hx as [Hx|(e & k & w10 & _ & Hh & Hk)].
    + apply bind_Ret in Hx as (marked & w10 & _ & Hx). apply bind_Ret in Hx as (? & w11 & _ & Hx).
      apply ret_Ret in Hx as [-> _]. split; [done|]. unfold outcome_sound. cbn.
      split_and!; [|done|done|done]. intros _. by exists od.2, od.1.
    + destruct (scrub_failed_Ret _ _ _ _ _ _ _ Hnn Hh Hk) as (? & ? & Hrel & ? & ?). split; [done|].
      unfold outcome_sound. rewrite Hrel. done.
  - destruct (scrub_failed st key 0 e) as [m|] eqn:E; [|done]. cbn in Hh. injection Hh as <-.
    apply bind_Ret in Hk as (y & w9 & Hy & Hk). apply ret_Ret in Hk as [-> ->]. apply ret_Ret in Hx as [-> ->].
    destruct (scrub_failed_Ret _ _ _ _ _ _ _ (Z.le_refl 0) E Hy) as (? & ? & Hrel & ? & ?). split; [done|].
    unfold outcome_sound. rewrite Hrel. done.
Qed.

(** The worlds a step passes through. *)
Inductive scrubbing : World → World → Prop :=
  | scrubbing_one key s w o w' : scrub_one st key s w = (o, w') → scrubbing w w'
  | scrubbing_quiet w w' : w_fs w' = w_fs w → scrubbing w w'.

Definition scanned_in (w : World) (x : Scrubbed) : Prop := ∃ v, rtc scrubbing w v ∧ outcome_sound (w_fs v) x.

Lemma scanned_in_later w v x : scrubbing w v → scanned_in v x → scanned_in w x.
Proof. intros Hw (u & Hu & Hx). exists u. split; [by eapply rtc_l|done]. Qed.

(** A run of the loop: the scanned keys are a prefix of the keys, each with a sound
    outcome, and another key is begun only below the payload budget. *)
Lemma scrub_keys_Ret cancelled budget keys : ∀ s done w r w',
  scrub_keys st cancelled budget keys s done w = (Ret r, w') →
  ∃ new, r.2 = done ++ new ∧ (sc_key <$> new) `prefix_of` keys ∧ r.1 = foldl advanced s new ∧
    Forall (scanned_in w) new ∧
    ∀ pre x post, new = pre ++ x :: post → done ++ pre = [] ∨ payload_sum (done ++ pre) < budget.
Proof.
  induction keys as [|key keys IH]; intros s done w r w'; cbn [scrub_keys].
  { intros [-> _]%ret_Ret. exists []. rewrite app_nil_r. split_and!; [done|done|done|constructor|by intros []]. }
  destruct (cancelled (length done) || _) eqn:Eb.
  { intros [-> _]%ret_Ret. exists []. rewrite app_nil_r.
    split_and!; [done|apply prefix_nil|done|constructor|by intros []]. }
  intros (o & w1 & Ho & Hr)%bind_Ret. destruct o as [x|].
  2:{ apply ret_Ret in Hr as [-> _]. exists []. rewrite app_nil_r.
      split_and!; [done|apply prefix_nil|done|constructor|by intros []]. }
  apply bind_Ret in Hr as (? & w2 & Hh & Hr).
  assert (w_fs w2 = w_fs w1) as F2.
  { pose proof (keeps_fs (if sc_bytes x =? 0 then ret tt else call_hook (ret tt)) w1) as K. rewrite Hh in K. apply K. intros J. io_keeps. }
  pose proof (scrubbing_one _ _ _ _ _ Ho) as Hone. apply scrub_one_Ret in Ho as (Hk & Hx).
  apply IH in Hr as (new & -> & Hp & -> & Hall & Hbud). exists (x :: new). split_and!.
  - by rewrite <- (assoc_L (++)).
  - cbn. rewrite Hk. by apply prefix_cons.
  - done.
  - constructor; [by exists w|]. eapply Forall_impl; [exact Hall|]. intros y Hy.
    eapply scanned_in_later; [exact Hone|]. eapply scanned_in_later; [by apply scrubbing_quiet|exact Hy].
  - intros pre y post Hn. destruct pre as [|z pre].
    + rewrite app_nil_r. apply orb_false_iff in Eb as [_ Eb]. apply andb_false_iff in Eb as [Eb|Eb]; bsimp; [by left|by right].
    + injection Hn as <- Hn. destruct (Hbud _ _ _ Hn) as [Hnil|Hlt].
      * by destruct done.
      * right. by rewrite <- (assoc_L (++)) in Hlt.
Qed.

Lemma advanced_all new s : ss_target s = [] →
  let s' := foldl advanced s new in
  ss_target s' = [] ∧ ss_phase s' = ss_phase s ∧ ss_cursor s' = default (ss_cursor s) (last (sc_key <$> new)).
Proof.
  revert s; induction new as [|x new IH]; intros s Ht; [done|]. cbn [foldl fmap list_fmap].
  assert (advanced s x = MkScrubState (ss_binding s) (ss_phase s) (ss_cycle s) (sc_key x) [] (ss_completed s) (ss_status s)) as ->.
  { unfold advanced. by rewrite decide_True. }
  destruct (IH (MkScrubState (ss_binding s) (ss_phase s) (ss_cycle s) (sc_key x) [] (ss_completed s) (ss_status s)) eq_refl)
    as (-> & -> & ->). split_and!; [done|done|]. rewrite last_cons. cbn. by destruct (last (sc_key <$> new)).
Qed.

Lemma scrub_select_Ret items w r w' :
  scrub_select st items w = (Ret r, w') → w_fs w' = w_fs w ∧
  ((ss_target r.1 ≠ [] ∧ r.2 = [ss_target r.1]) ∨
  (ss_target r.1 = [] ∧ ∃ names, NoDup names ∧ (∀ key, key ∈ names ↔ on_disk (w_fs w) key) ∧
     r.2 = next_keys (Z.to_nat items) (ss_cursor r.1) names)).
Proof.
  unfold scrub_select. intros (w1 & w2 & Hr & F1 & F2)%exclusive_Ret.
  apply bind_Ret in Hr as (s & w3 & Hl & Hr).
  assert (w_fs w3 = w_fs w1) as F3.
  { pose proof (keeps_fs (scrub_load st) w1) as K. rewrite Hl in K. apply K. intros J. unfold scrub_load. io_keeps. }
  case_decide as Et.
  - apply bind_Ret in Hr as (names & w4 & Hn & Hr). apply ret_Ret in Hr as [-> ->].
    apply iter_manifest_paths_Ret in Hn as (F4 & Hd & Hk). split; [congruence|]. right. split; [done|]. exists names. split_and!; [done| |done].
    intros key. by rewrite Hk, F3, F1.
  - apply ret_Ret in Hr as [-> ->]. split; [congruence|]. by left.
Qed.
End runs.

(** ** Tombstones

    A step gives up the fence of a key only once it has authenticated the file that
    stood under the key when the step began; this holds however the step ends. *)

(** The file under the key: its recorded checksums match its whole payload. *)
Definition authentic_at `{Sha, JsonLoads} (st : TokenFileStore) (fs : FS) (key : pystr) : Prop :=
  ∃ ino, live fs (manifest_path key) = Some (NFile ino) ∧ complete_file st key (data_of fs ino).

Section tombstones.
Context `{Sha, Uuid, JsonLoads} (st : TokenFileStore) (Hslot : 0 < st_slot_bytes st).
Context (key : pystr) (start : option (list byte)).

(** Under the key is nothing, or a file with the bytes of the start. *)
Definition unaltered (fs : FS) : Prop :=
  fs_wf fs ∧ ∀ ino, names fs !! manifest_path key = Some (NFile ino) →
    ∃ i, inodes fs !! ino = Some i ∧ start = Some (i_data i).

Lemma unaltered_inv :
  store_inv (λ p v, p = manifest_path key → v = None) (λ p, p ≠ [] ∧ p ≠ manifest_path key) unaltered.
Proof.
  split.
  - by intros fs [? _].
  - intros fs p v [Hw Hk] Hok He. split; [by apply wf_set_name|]. intros ino. unfold set_name. cbn.
    rewrite lookup_partial_alter. case_decide as Hp; [|apply Hk]. by rewrite (Hok Hp).
  - intros fs d [Hw Hk]. split; [by apply wf_sync_dir|exact Hk].
  - intros fs p now [Hw Hk] [_ Hp]. split; [by apply wf_create|]. intros ino. unfold set_name. cbn.
    rewrite lookup_partial_alter_ne by done. intros Hn. destruct (Hk ino Hn) as (i & Hi & Hs). exists i.
    rewrite lookup_insert_ne; [done|]. intros <-. assert (next_ino fs < next_ino fs)%nat; [|lia].
    by apply (fw_inodes _ Hw).
  - intros fs ino p i [Hw Hk] [_ Hp] [Hi Hl]. split; [by apply wf_set_inode|]. intros j Hn.
    destruct (Hk j Hn) as (i' & Hj & Hs). exists i'. cbn. rewrite lookup_insert_ne; [done|]. intros <-.
    apply Hp. symmetry. apply Hl. rewrite <-Hn. by left.
  - intros fs ino i now [Hw Hk] Hi. split; [apply wf_set_inode; [done|by rewrite Hi]|]. intros j Hn.
    destruct (Hk j Hn) as (i' & Hj & Hs). cbn. rewrite lookup_insert. case_decide as Hij; [|by exists i'].
    subst. eexists. split; [done|]. cbn. congruence.
  - by intros p [? ?].
Qed.

(** The bytes of the start are an authentic file. *)
Definition genuine : Prop := ∃ D, start = Some D ∧ complete_file st key D.

Definition held (fs : FS) : Prop := unaltered fs ∧ (fenced key fs ∨ (prepared fs ∧ genuine)).
Definition held_ok (p : path) (v : option node) : Prop := (p = manifest_path key → v = None) ∧ fence_ok key p v.
Definition held_scratch (p : path) : Prop := (p ≠ [] ∧ p ≠ manifest_path key) ∧ fence_scratch key p.

Lemma genuine_inv : store_inv base_ok base_scratch (λ fs, prepared fs ∧ genuine).
Proof.
  pose proof prepared_inv as HI. split.
  - intros fs [? _]. by apply (si_wf _ _ _ HI).
  - intros fs p v [? ?]. split; [by apply (si_name _ _ _ HI)|done].
  - intros fs d [? ?]. split; [by apply (si_sync _ _ _ HI)|done].
  - intros fs p now [? ?]. split; [by apply (si_create _ _ _ HI)|done].
  - intros fs ino p i [? ?]. split; [by eapply (si_write _ _ _ HI)|done].
  - intros fs ino i now [? ?]. split; [by apply (si_utime _ _ _ HI)|done].
  - apply (si_scratch _ _ _ HI).
Qed.

Lemma held_inv : store_inv held_ok held_scratch held.
Proof.
  apply and_inv; [apply unaltered_inv|]. apply (or_inv _ _ _ _ _ _ _ _ (fenced_inv key) genuine_inv).
  - by intros p v [? ?].
  - intros p Hp. pose proof (si_scratch _ _ _ (fenced_inv key) p Hp) as [_ ?]. split; [done|]. split; [apply Hp|done].
Qed.

Lemma held_prepared fs : held fs → prepared fs.
Proof. intros [_ [Hf|[? _]]]; [by eapply fenced_prepared|done]. Qed.
Lemma gone_held fs : gone key fs → held fs.
Proof.
  intros Hg. split; [|left; by right]. destruct Hg as [Hp Hl]. split; [apply Hp|]. intros ino Hn.
  apply lasting_names in Hl. congruence.
Qed.

Lemma held_free p v : base_ok p v → p ≠ _inventory_withdrawal_path key → p ≠ manifest_path key → held_ok p v.
Proof. intros Hb Hm Hn. split; [by intros ?|by apply fence_free]. Qed.
Lemma held_marked e : held_ok (_inventory_withdrawal_path e) (Some NDir).
Proof. split; [by intros [=]|]. split; [apply base_marker|done]. Qed.
Lemma held_unmarked e : e ≠ key → held_ok (_inventory_withdrawal_path e) None.
Proof. intros He. apply held_free; [apply base_marker|by intros ?%marker_inj|by intros [=]]. Qed.
Lemma held_without e : held_ok (manifest_path e) None.
Proof. split; [done|]. by apply fence_free; [apply base_manifest|]. Qed.
Lemma held_quarantine n v : held_ok (n :: quarantine_dir) v.
Proof. by apply held_free; [apply base_quarantine|..]. Qed.

Lemma k_held_quarantine hk e r : keeps held (_quarantine_manifest hk e r).
Proof.
  pose proof held_inv as HI. destruct (decide (e = key)) as [->|He].
  - eapply t_conseq; [apply (t_quarantine _ _ held hk key r HI held_prepared gone_held)|done|by intros ? ? [? _]|done].
    + apply held_without.
    + apply held_marked.
    + apply held_quarantine.
  - apply (k_quarantine HI); [apply held_without|apply held_marked|by apply held_unmarked|apply held_quarantine].
Qed.

Lemma k_held_write b : keeps held (_atomic_small_write scrub_path b).
Proof.
  apply (k_scrub_write held_inv (λ n, n ≠ lit "inventory-withdrawn") dot_name); try done.
  - by apply held_free; [apply base_state_dir|..].
  - intros n v Hn. apply held_free; [by apply base_state|by intros [=]|by intros [=]].
  - intros n Hn. split; [done|]. split; [by apply base_state_scratch|]. by intros [=].
Qed.

(** What [check_file] opens is what stood there at the start. *)
Lemma t_check_file : triple held (check_file st key) (λ r fs, match r with inr _ => genuine | inl _ => True end ∧ held fs) held.
Proof.
  intros w Hw. pose proof (k_check_file st held_inv held_marked k_held_quarantine key w Hw) as Hk.
  destruct (check_file st key w) as [[[x|n]|e|] w'] eqn:E; [by split| |done|done]. split; [|done].
  unfold check_file in E. apply try_Ret in E as [E|(e & k & w8 & _ & Hh & Hk')].
  - apply bind_Ret in E as (od & w8 & Ho & E). apply bind_Ret in E as ([] & w9 & Ha & _).
    apply open_chunk_Ret in Ho as (_ & F8 & Hl & Hp). rewrite <-F8 in Hp.
    pose proof (authenticate_Ret st key _ _ _ _ Hslot Hp Ha) as Hau. rewrite F8 in *.
    destruct Hw as [[_ Hs] _]. apply live_names in Hl; [|done]. destruct (Hs _ Hl) as (i & Hi & ->).
    exists (i_data i). split; [done|]. exists od.2. unfold data_of in *. by rewrite Hi in *.
  - destruct (scrub_failed st key 0 e) as [m|]; [|done]. cbn in Hh. injection Hh as <-.
    apply bind_Ret in Hk' as (y & w9 & _ & Hy). by apply ret_Ret in Hy as [? _].
Qed.

(** Behind a genuine file the tombstone may go. *)
Lemma k_held_clear e : e ≠ key ∨ genuine → keeps held (_clear_inventory_withdrawal e).
Proof.
  intros [He|Hg]; [by apply (k_clear held_inv), held_unmarked|].
  eapply t_conseq; [apply (k_clear (and_inv _ _ _ _ _ _ unaltered_inv genuine_inv) (_inventory_withdrawal_path e))| | |].
  - split; [by intros [=]|apply base_marker].
  - intros fs Hh. split; [apply Hh|]. split; [by apply held_prepared|done].
  - intros _ fs [? ?]. split; [done|by right].
  - intros fs [? ?]. split; [done|by right].
Qed.

Lemma k_held_one e s : keeps held (scrub_one st e s).
Proof.
  pose proof (k_scrub_load st (I := held)) as Kl. pose proof (k_scrub_save k_held_write) as Ks.
  destruct (decide (e = key)) as [->|He].
  2:{ apply (k_scrub_one st held_inv held_marked k_held_quarantine k_held_write), k_held_clear. by left. }
  unfold scrub_one. apply k_exclusive, k_bind; [apply Kl|]. intros current. case_match; [io_keeps|].
  apply k_bind; [io_keeps|]. intros busy. case_match; [io_keeps|].
  eapply t_bind; [apply t_check_file|]. intros r. apply t_pure. intros Hg.
  match goal with |- triple _ ?m _ _ => change (keeps held m) end.
  apply k_bind; [|intros x; apply k_bind; [apply Ks|intros ?; apply k_ret]]. destruct r as [x|n]; [apply k_ret|].
  apply (k_release st held_inv held_marked k_held_quarantine), k_held_clear. by right.
Qed.

Lemma k_held_step cancelled budget items : keeps held (scrub_step st cancelled budget items).
Proof. apply (k_scrub_step st k_held_write), k_held_one. Qed.
End tombstones.

Lemma scrub_keeps_fence `{Sha, Uuid, JsonLoads} (st : TokenFileStore) cancelled budget items key w o w' :
  0 < st_slot_bytes st → scrub_step st cancelled budget items w = (o, w') →
  fenced key (w_fs w) → fenced key (w_fs w') ∨ (prepared (w_fs w') ∧ authentic_at st (w_fs w) key).
Proof.
  intros Hs Hr Hf. pose proof (fenced_prepared _ _ Hf) as Hp.
  set (start := match names (w_fs w) !! manifest_path key with Some (NFile ino) => Some (data_of (w_fs w) ino) | _ => None end).
  assert (Hh : held st key start (w_fs w)).
  { split; [|by left]. split; [apply Hp|]. intros ino Hn. subst start. rewrite Hn.
    destruct (fw_refs _ (pr_wf _ Hp) (manifest_path key) ino) as [i Hi]; [rewrite <-Hn; apply possible_head|].
    exists i. unfold data_of. by rewrite Hi. }
  pose proof (keeps_run _ _ w (k_held_step st Hs key start cancelled budget items) Hh) as Hk. rewrite Hr in Hk.
  destruct Hk as [_ [?|[Hp' (D & HD & Hc)]]]; [by left|right]. split; [done|]. subst start.
  destruct (names (w_fs w) !! manifest_path key) as [[ino| |]|] eqn:En; [|done..]. injection HD as <-.
  exists ino. split; [by apply prepared_name|done].
Qed.

Lemma released_bound l : Forall (λ x, sc_released x = true → sc_status x = SAuthenticated) l →
  (length (filter (λ r, sc_released r = true) l) ≤ length (filter (λ r, sc_status r = SAuthenticated) l))%nat.
Proof.
  induction 1 as [|x l Hx Hl IH]; [done|]. rewrite !filter_cons.
  destruct (decide (sc_released x = true)) as [Hrel|]; [rewrite decide_True by auto; cbn; lia|].
  case_decide; cbn; lia.
Qed.

Lemma none_beyond n c names key : (0 < n)%nat → next_keys n c names = [] → key ∈ names → str_leb key c = true.
Proof.
  intros Hn Hk Hin. rewrite str_leb_ltb. destruct (str_ltb c key) eqn:Elt; [|done]. exfalso.
  assert (key ∈ in_order (beyond c names)) as Hm by by apply in_order_elem, list_elem_of_filter.
  rewrite next_keys_unfold in Hk. destruct (in_order _) as [|k0 ks]; [by apply elem_of_nil in Hm|].
  destruct n; [lia|done].
Qed.

Lemma scanned_bound (items : Z) keys (new : list Scrubbed) :
  0 < items → (sc_key <$> new) `prefix_of` keys →
  (∃ key, keys = [key]) ∨ (∃ c names, keys = next_keys (Z.to_nat items) c names) → Z.of_nat (length new) ≤ items.
Proof.
  intros Hi Hp%prefix_length Hsel. rewrite length_fmap in Hp.
  destruct Hsel as [(key & ->)|(c & names & ->)]; cbn in Hp; [lia|]. rewrite next_keys_unfold, length_take in Hp. lia.
Qed.

(** ** The properties *)


(** C27: a scrub skips nothing and comes to an end: every key that was on disk when the
    step selected its keys and that lies between the old and the new cursor was scanned,
    and the keys left beyond the cursor are fewer by exactly those scanned. *)
Theorem scrub_skips_nothing `{Sha, Uuid, JsonLoads} (st : TokenFileStore) (cancelled : nat → bool) (budget items : Z)
    (s s' : ScrubState) (keys : list pystr) (scanned : list Scrubbed) (w w1 w2 w3 : World) :
  0 < st_slot_bytes st → scrub_select st items w = (Ret (s, keys), w1) → ss_target s = [] →
  scrub_keys st cancelled budget keys s [] w2 = (Ret (s', scanned), w3) →
  ∃ names, (∀ key, key ∈ names ↔ on_disk (w_fs w) key) ∧
    (∀ key, key ∈ names → str_ltb (ss_cursor s) key = true → str_leb key (ss_cursor s') = true →
       key ∈ sc_key <$> scanned) ∧
    length (beyond (ss_cursor s) names) = (length scanned + length (beyond (ss_cursor s') names))%nat.
Proof.
  intros Hs Hsel Ht Hk. apply scrub_select_Ret in Hsel as [_ [[? _]|(_ & names & Hn & Hin & Ekeys)]]; [done|].
  cbn [fst snd] in Ekeys. subst keys.
  destruct (scrub_keys_Ret st Hs _ _ _ _ _ _ _ _ Hk) as (new & En & Hp & Es & _). cbn [fst snd app] in *. subst scanned s'.
  destruct (advanced_all new s Ht) as (_ & _ & ->). exists names. split; [done|].
  destruct (next_keys_cover _ _ _ _ Hn Hp) as [Hc Hl]. split; [exact Hc|]. by rewrite length_fmap in Hl.
Qed.
