(* ===== verification/Maintenance.v ===== *)
(** * The scrub scheduler ([src/spoolcache/maintenance.py], [ScheduledDeepScrubber])

    What the background thread and the worker share under [_metrics_lock]: the metrics not
    yet drained, and the epochs that make the worker reconcile its inventory with the
    disk.  Each method is one step, and so is a turn of
    the thread's loop; its timing is not modelled. *)
From S2P Require Import Prelude Dict Bytes Config Json Io RankStore TokenFiles TokenScrub.

Definition MAX_COUNTER63 : Z := 2 ^ 63 - 1.

Definition metric : Type := pystr * Z.

(** The thread: not started, running, or stopped. *)
Record Scheduler := MkScheduler {
  sd_started : bool;
  sd_stop : bool;
  sd_metrics : list metric;
  sd_rescan_epoch : Z;
  sd_rescan_acknowledged : Z;
  sd_force_withdrawal_epoch : Z;
  sd_shutdown_timeout_reported : bool
}.

Definition scheduler_init (bytes_per_second step_bytes item_budget : Z) : result Scheduler :=
  _ ← raise_if (bytes_per_second <=? 0) ValueError "scrub byte rate must be a positive integer";
  _ ← raise_if (step_bytes <=? 0) ValueError "scrub step bytes must be a positive integer";
  _ ← raise_if (item_budget <=? 0) ValueError "scrub step items must be a positive integer";
  Ok (MkScheduler false false [] 0 0 0 false).

(** [metrics[key] = metrics.get(key, 0) + value] *)
Definition add_metric (key : pystr) (value : Z) (m : list metric) : list metric :=
  od_set key (default 0 (od_get key m) + value) m.

Definition set_metrics (m : list metric) (s : Scheduler) : Scheduler :=
  MkScheduler (sd_started s) (sd_stop s) m (sd_rescan_epoch s) (sd_rescan_acknowledged s)
    (sd_force_withdrawal_epoch s) (sd_shutdown_timeout_reported s).

Definition start (s : Scheduler) : result Scheduler :=
  _ ← raise_if (sd_started s) RuntimeError "deep scrub scheduler is already started";
  Ok (MkScheduler true (sd_stop s) (sd_metrics s) (sd_rescan_epoch s) (sd_rescan_acknowledged s)
        (sd_force_withdrawal_epoch s) (sd_shutdown_timeout_reported s)).

Inductive shutdown_status := NotStarted | TimedOut | Stopped.

(** [close]: [alive] answers whether the thread outlived the join. *)
Definition close_scheduler (alive : bool) (s : Scheduler) : shutdown_status * Scheduler :=
  if negb (sd_started s) then (NotStarted, s)
  else if alive then
    let m := if sd_shutdown_timeout_reported s then sd_metrics s
             else add_metric (lit "shutdown_failures") 1 (sd_metrics s) in
    (TimedOut, MkScheduler true true m (sd_rescan_epoch s) (sd_rescan_acknowledged s)
                 (sd_force_withdrawal_epoch s) true)
  else
    (Stopped, MkScheduler false true (sd_metrics s) (sd_rescan_epoch s) (sd_rescan_acknowledged s)
                (sd_force_withdrawal_epoch s) (sd_shutdown_timeout_reported s)).

Definition drain_metrics (s : Scheduler) : list metric * Scheduler := (sd_metrics s, set_metrics [] s).

Definition pending_inventory_rescan_epoch (s : Scheduler) : option Z :=
  if sd_rescan_epoch s <=? sd_rescan_acknowledged s then None else Some (sd_rescan_epoch s).

Definition require_inventory_rescan (force_withdrawal : bool) (s : Scheduler) : result Scheduler :=
  _ ← raise_if (MAX_COUNTER63 <=? sd_rescan_epoch s) RuntimeError
        "deep scrub inventory rescan epoch overflowed";
  let epoch := sd_rescan_epoch s + 1 in
  Ok (MkScheduler (sd_started s) (sd_stop s) (sd_metrics s) epoch (sd_rescan_acknowledged s)
        (if force_withdrawal then epoch else sd_force_withdrawal_epoch s) (sd_shutdown_timeout_reported s)).

Definition rescan_epoch_ok (epoch : Z) (s : Scheduler) : result unit :=
  _ ← raise_if (epoch <=? 0) ValueError "deep scrub inventory rescan epoch is invalid";
  raise_if (sd_rescan_epoch s <? epoch) ValueError "deep scrub inventory rescan epoch is from the future".

Definition inventory_rescan_requires_withdrawal (epoch : Z) (s : Scheduler) : result bool :=
  _ ← rescan_epoch_ok epoch s;
  Ok ((sd_rescan_acknowledged s <? sd_force_withdrawal_epoch s) && (sd_force_withdrawal_epoch s <=? epoch)).

Definition acknowledge_inventory_rescan (epoch : Z) (s : Scheduler) : result Scheduler :=
  _ ← rescan_epoch_ok epoch s;
  Ok (MkScheduler (sd_started s) (sd_stop s) (sd_metrics s) (sd_rescan_epoch s)
        (Z.max (sd_rescan_acknowledged s) epoch) (sd_force_withdrawal_epoch s)
        (sd_shutdown_timeout_reported s)).

(** [_accumulate]: the report of one step. *)
Definition report_metrics (r : ScrubStepReport) : list metric :=
  [(lit "namespace_items_scanned", namespace_items_scanned r); (lit "payload_bytes", sr_payload_bytes r);
   (lit "objects_authenticated", objects_authenticated r); (lit "manifests_authenticated", manifests_authenticated r);
   (lit "cycles", if cycle_completed r then 1 else 0); (lit "objects_quarantined", objects_quarantined r);
   (lit "orphan_objects_removed", orphan_objects_removed r); (lit "orphan_bytes_removed", orphan_bytes_removed r);
   (lit "temporary_files_removed", temporary_files_removed r)].

Definition _accumulate (r : ScrubStepReport) (s : Scheduler) : result Scheduler :=
  s ← (if negb (entries_quarantined r =? 0) || negb (inventory_released r =? 0)
       then require_inventory_rescan false s else Ok s);
  Ok (set_metrics (foldl (λ m kv, if kv.2 =? 0 then m else add_metric kv.1 kv.2 m) (sd_metrics s) (report_metrics r)) s).

(** The handler of a failed step: the failure is counted even when the epoch is
    exhausted. *)
Definition step_failed (s : Scheduler) : result unit * Scheduler :=
  let s := set_metrics (add_metric (lit "failures") 1 (sd_metrics s)) s in
  match require_inventory_rescan true s with
  | Ok s => (Ok tt, s)
  | Raise e => (Raise e, s)
  end.

(** ** One turn of the background loop ([_run])

    [due]: the cycle interval has elapsed.  The waits, and the pacing of the reads,
    which can end the thread, are left out. *)
Section turn.
Context `{Sha, Uuid, JsonLoads} (st : TokenFileStore) (due : bool) (cancelled : nat → bool).
Context (payload_budget_bytes item_budget : Z).

(** The body of the [try]: [None] is a turn that only waits. *)
Definition scrub_once : IO (option ScrubStepReport) :=
  status ← scrub_state st;
  pending ← has_pending_request st;
  let requested := pending || negb (bool_decide (ss_target status = [])) in
  let rests := bool_decide (ss_phase status = Idle) && negb requested in
  if rests && negb due then ret None
  else
    _ ← (if rests then _ ← start_cycle st; ret tt else ret tt);
    report ← scrub_step st cancelled payload_budget_bytes item_budget;
    ret (Some report).

(** [except Exception]: repair what can be repaired, then count the failure and require
    a rescan that withdraws the catalog first. *)
Definition scrub_recover (s : Scheduler) (w : World) : outcome unit * Scheduler * World :=
  match attempt (repair_invalid_state st) w with
  | (Dead, w) => (Dead, s, w)
  | (_, w) =>
      let (r, s) := step_failed s in
      (match r with Ok _ => Ret tt | Raise e => Exc e end, s, w)
  end.

Definition scrub_turn (s : Scheduler) (w : World) : outcome unit * Scheduler * World :=
  match scrub_once w with
  | (Dead, w) => (Dead, s, w)
  | (Ret None, w) => (Ret tt, s, w)
  | (Ret (Some report), w) =>
      match _accumulate report s with
      | Ok s => (Ret tt, s, w)
      | Raise _ => scrub_recover s w
      end
  | (Exc _, w) => scrub_recover s w
  end.
End turn.

(** ** The scheduler as a system *)
Inductive scheduler_step : Scheduler → Scheduler → Prop :=
  | ss_start s s' : start s = Ok s' → scheduler_step s s'
  | ss_close alive s : scheduler_step s (close_scheduler alive s).2
  | ss_drain s : scheduler_step s (drain_metrics s).2
  | ss_require force s s' : require_inventory_rescan force s = Ok s' → scheduler_step s s'
  | ss_acknowledge epoch s s' : acknowledge_inventory_rescan epoch s = Ok s' → scheduler_step s s'
  | ss_report r s s' : _accumulate r s = Ok s' → scheduler_step s s'
  | ss_failed s : scheduler_step s (step_failed s).2.

(** The epochs grow; an acknowledgement and a forced withdrawal name an epoch that was
    required. *)
Record scheduler_ok (s : Scheduler) : Prop := {
  so_acknowledged : 0 ≤ sd_rescan_acknowledged s ≤ sd_rescan_epoch s;
  so_forced : 0 ≤ sd_force_withdrawal_epoch s ≤ sd_rescan_epoch s;
  so_bound : sd_rescan_epoch s ≤ MAX_COUNTER63
}.

(** What a step does to the three epochs. *)
Definition epochs_from (s s' : Scheduler) : Prop :=
  (sd_rescan_epoch s' = sd_rescan_epoch s ∧ sd_force_withdrawal_epoch s' = sd_force_withdrawal_epoch s ∧
     sd_rescan_acknowledged s ≤ sd_rescan_acknowledged s' ≤ Z.max (sd_rescan_acknowledged s) (sd_rescan_epoch s)) ∨
  (sd_rescan_epoch s' = sd_rescan_epoch s + 1 ∧ sd_rescan_epoch s' ≤ MAX_COUNTER63 ∧ sd_rescan_acknowledged s' = sd_rescan_acknowledged s ∧
     (sd_force_withdrawal_epoch s' = sd_force_withdrawal_epoch s ∨ sd_force_withdrawal_epoch s' = sd_rescan_epoch s')).

Lemma require_Ok force s s' : require_inventory_rescan force s = Ok s' →
  sd_rescan_epoch s' = sd_rescan_epoch s + 1 ∧ sd_rescan_epoch s' ≤ MAX_COUNTER63 ∧
  sd_rescan_acknowledged s' = sd_rescan_acknowledged s ∧
  sd_force_withdrawal_epoch s' = (if force then sd_rescan_epoch s' else sd_force_withdrawal_epoch s).
Proof.
  unfold require_inventory_rescan. intros (? & Hb%raise_if_Ok & [= <-])%result_bind_Ok. bsimp. cbn.
  split_and!; [lia|lia|done|by destruct force].
Qed.

Lemma step_epochs s s' : scheduler_step s s' → epochs_from s s'.
Proof.
  destruct 1 as [s s' Hs|alive s|s|force s s' Hs|epoch s s' Hs|r s s' Hs|s].
  - unfold start in Hs. inv_ok. left. cbn. lia.
  - unfold close_scheduler. repeat case_match; left; cbn; lia.
  - left. cbn. lia.
  - apply require_Ok in Hs as (? & ? & ? & ?). right. destruct force; tauto.
  - unfold acknowledge_inventory_rescan, rescan_epoch_ok in Hs. inv_ok. bsimp. left. cbn. lia.
  - unfold _accumulate in Hs. apply result_bind_Ok in Hs as (s1 & Hr & [= <-]). destruct (_ || _).
    + apply require_Ok in Hr as (? & ? & ? & ?). right. cbn. tauto.
    + injection Hr as ->. left. cbn. lia.
  - unfold step_failed. set (s1 := set_metrics _ s). destruct (require_inventory_rescan true s1) as [s2|e] eqn:E.
    + apply require_Ok in E as (? & ? & ? & ?). right. cbn in *. tauto.
    + left. cbn. lia.
Qed.

Lemma step_ok s s' : scheduler_step s s' → scheduler_ok s → scheduler_ok s'.
Proof.
  intros Hs [[? ?] [? ?] ?]. destruct (step_epochs _ _ Hs) as [(E & F & ? & ?)|(E & ? & ? & [F|F])]; split; lia.
Qed.

(** A turn is made of steps of the scheduler. *)
Lemma turn_steps `{Sha, Uuid, JsonLoads} st due cancelled payload items s w o s' w' :
  scrub_turn st due cancelled payload items s w = (o, s', w') → rtc scheduler_step s s'.
Proof.
  assert (Hrec : ∀ w, scrub_recover st s w = (o, s', w') → rtc scheduler_step s s').
  { intros w1. unfold scrub_recover. destruct (attempt _ w1) as [[?|?|] w2]; [| |by intros [= _ <- _]];
      pose proof (ss_failed s) as Hs; destruct (step_failed s) as [r s2]; intros [= _ <- _]; by apply rtc_once. }
  unfold scrub_turn. destruct (scrub_once _ _ _ _ _ w) as [[[r|]|e|] w1]; [|by intros [= _ <- _]|apply Hrec|by intros [= _ <- _]].
  destruct (_accumulate r s) as [s2|e] eqn:E; [|apply Hrec]. intros [= _ <- _]. by eapply rtc_once, ss_report.
Qed.

(** A turn that failed leaves a forced withdrawal under a new pending epoch. *)
Lemma failed_turn `{Sha, Uuid, JsonLoads} st due cancelled payload items s w e w1 o s' w' :
  scheduler_ok s → sd_rescan_epoch s < MAX_COUNTER63 →
  scrub_once st due cancelled payload items w = (Exc e, w1) →
  scrub_turn st due cancelled payload items s w = (o, s', w') → o ≠ Dead →
  pending_inventory_rescan_epoch s' = Some (sd_rescan_epoch s + 1) ∧
  inventory_rescan_requires_withdrawal (sd_rescan_epoch s + 1) s' = Ok true.
Proof.
  intros [[? ?] [? ?] ?] Hmax He Ht Ho. unfold scrub_turn in Ht. rewrite He in Ht. unfold scrub_recover in Ht.
  destruct (attempt _ w1) as [[?|?|] w2]; [| |by injection Ht as <-];
    (destruct (step_failed s) as [r s2] eqn:E; injection Ht as _ <- _; unfold step_failed in E;
     set (s1 := set_metrics _ s) in E; destruct (require_inventory_rescan true s1) as [s3|e3] eqn:Er;
     [injection E as _ <-; apply require_Ok in Er as (E1 & _ & A1 & F1); cbn in E1, A1
     |unfold require_inventory_rescan, raise_if in Er; rewrite (proj2 (Z.leb_gt _ _)) in Er by (cbn; lia); discriminate Er]);
    (split; [unfold pending_inventory_rescan_epoch; rewrite (proj2 (Z.leb_gt _ _)) by lia; by rewrite E1|]);
    unfold inventory_rescan_requires_withdrawal, rescan_epoch_ok, raise_if; rewrite (proj2 (Z.leb_gt _ 0)) by lia;
    rewrite E1, Z.ltb_irrefl; cbn; rewrite F1, E1; f_equal; apply andb_true_iff; (split; [apply Z.ltb_lt; lia|apply Z.leb_le; lia]).
Qed.

(** An acknowledgement at or after an epoch. *)
Definition acknowledged_since (epoch : Z) (s : Scheduler) : Prop := epoch ≤ sd_rescan_acknowledged s.

Lemma steps_epochs s s' : rtc scheduler_step s s' → scheduler_ok s →
  scheduler_ok s' ∧ sd_rescan_epoch s ≤ sd_rescan_epoch s' ∧ sd_rescan_acknowledged s ≤ sd_rescan_acknowledged s' ∧
  sd_force_withdrawal_epoch s ≤ sd_force_withdrawal_epoch s'.
Proof.
  induction 1 as [s|s s1 s2 Hs _ IH]; intros Hok; [split_and!; done || lia|].
  destruct (IH (step_ok _ _ Hs Hok)) as (? & ? & ? & ?). destruct Hok as [[? ?] [? ?] ?].
  destruct (step_epochs _ _ Hs) as [(E & F & ? & ?)|(E & ? & ? & [F|F])]; split_and!; done || lia.
Qed.

(** ** The property *)

(** a required rescan is never lost.  From the start of the scheduler, once a rescan
    was required (by a quarantine, a released tombstone or a failure), then through any
    later operations the worker is told to rescan, under an epoch at least as large,
    until an epoch at least as large was acknowledged; and while a forced withdrawal is
    unacknowledged, the pending epoch requires the withdrawal. *)
Theorem required_rescan_not_lost (s0 s s1 s2 : Scheduler) (force : bool) :
  scheduler_ok s0 → rtc scheduler_step s0 s → require_inventory_rescan force s = Ok s1 →
  rtc scheduler_step s1 s2 → ¬ acknowledged_since (sd_rescan_epoch s1) s2 →
  ∃ e, pending_inventory_rescan_epoch s2 = Some e ∧ sd_rescan_epoch s1 ≤ e ∧
    (force = true → inventory_rescan_requires_withdrawal e s2 = Ok true).
Proof.
  intros Hok H0 Hr H1 Hna. destruct (steps_epochs _ _ H0 Hok) as (Hs & _).
  pose proof (step_ok _ _ (ss_require _ _ _ Hr) Hs) as Hs1. destruct (steps_epochs _ _ H1 Hs1) as (Hs2 & He & Ha & Hf).
  apply require_Ok in Hr as (E1 & _ & A1 & F1). unfold acknowledged_since in Hna.
  destruct Hs as [[? ?] [? ?] ?], Hs2 as [[? ?] [? ?] ?]. exists (sd_rescan_epoch s2). split_and!; [|done|].
  - unfold pending_inventory_rescan_epoch. rewrite (proj2 (Z.leb_gt _ _)) by lia. done.
  - intros ->. unfold inventory_rescan_requires_withdrawal, rescan_epoch_ok, raise_if. cbn.
    rewrite (proj2 (Z.leb_gt _ 0)) by lia. rewrite Z.ltb_irrefl. cbn. f_equal.
    apply andb_true_iff. split; [apply Z.ltb_lt; lia|apply Z.leb_le; lia].
Qed.

Module MaintenanceExamples.
Definition fresh : Scheduler := MkScheduler false false [] 0 0 0 false.
Definition required : Scheduler := MkScheduler false false [] 1 0 1 false.

Lemma required_rescan_not_lost_witness :
  pending_inventory_rescan_epoch (step_failed required).2 = Some 2 ∧
  ∃ e, pending_inventory_rescan_epoch (step_failed required).2 = Some e ∧ 1 ≤ e ∧
    (true = true → inventory_rescan_requires_withdrawal e (step_failed required).2 = Ok true).
Proof.
  split; [reflexivity|].
  apply (required_rescan_not_lost fresh fresh required (step_failed required).2 true).
  - split; cbn; unfold MAX_COUNTER63; lia.
  - apply rtc_refl.
  - reflexivity.
  - apply rtc_once, ss_failed.
  - vm_compute. intros Hx. by apply Hx.
Defined.
End MaintenanceExamples.
