(* ===== verification/TokenStream.v ===== *)
(** * What a restore receives

    [stream_objects] returns only after every descriptor's file was opened again, its
    whole payload was authenticated, and the receiver got exactly that payload, in
    order, in ranges, and accepted it. *)
From S2P Require Import Prelude Dict Bytes Utf8 Json Hma HmaSpec Manifest Io RankStore IoSpec FsInv TokenFiles TokenHeader StoreLookup StoreCommit TokenBatches.

Section stream.
Context `{Sha, Uuid, JsonLoads} (st : TokenFileStore) (Hslot : 0 < st_slot_bytes st).
Context {R D : Type} (receiver : Receiver R D).

(** The receiver after several ranges. *)
Fixpoint receive_all (pieces : list (list byte)) (rd : R * D) : result (R * D) :=
  match pieces with
  | [] => Ok rd
  | v :: pieces => rd ← receive receiver rd.1 v rd.2; receive_all pieces rd
  end.

(** The receiver took this payload of the object, in some ranges, and was complete. *)
Definition takes (d : TokenFileDescriptor) (payload : list byte) (dev dev' : D) : Prop :=
  ∃ pieces r, concat pieces = payload ∧ receive_all pieces (enter receiver d, dev) = Ok (r, dev') ∧
    leave receiver r = Ok tt.

Definition delivered (fs : FS) (d : TokenFileDescriptor) (dev dev' : D) : Prop :=
  standing st fs d ∧ ∃ ino, live fs (manifest_path (td_key d)) = Some (NFile ino) ∧
    payload_authentic st d (data_of fs ino) ∧ takes d (payload_of d (data_of fs ino)) dev dev'.

Fixpoint delivered_all (fs : FS) (l : list TokenFileDescriptor) (dev dev' : D) : Prop :=
  match l with
  | [] => dev' = dev
  | d :: l => ∃ dev1, delivered fs d dev dev1 ∧ delivered_all fs l dev1 dev'
  end.

Lemma delivered_app fs l k dev dev1 dev2 :
  delivered_all fs l dev dev1 → delivered_all fs k dev1 dev2 → delivered_all fs (l ++ k) dev dev2.
Proof.
  revert dev; induction l as [|d l IH]; intros dev; cbn [delivered_all app]; [by intros ->|].
  intros (x & Hd & Hl) Hk. exists x. split; [done|]. by apply IH.
Qed.

Lemma quarantine_after_Ret {A} key (m : IO A) w a w' :
  quarantine_after st key m w = (Ret a, w') → m w = (Ret a, w').
Proof.
  unfold quarantine_after. intros [?|(e & k & w1 & _ & Hh & Hr)]%try_Ret; [done|].
  destruct (caught_by_OSError_ManifestError e); [|done]. injection Hh as <-.
  by apply bind_Ret in Hr as (? & ? & _ & ?).
Qed.

Lemma reopen_Ret d w ino w' :
  reopen st d w = (Ret ino, w') →
  w_fs w' = w_fs w ∧ standing st (w_fs w) d ∧ live (w_fs w) (manifest_path (td_key d)) = Some (NFile ino) ∧
  parse_file st (td_key d) (data_of (w_fs w) ino) = Ok d.
Proof.
  unfold reopen. intros Hr. apply bind_Ret in Hr as ([i d'] & w1 & Ho & Hr).
  apply bind_Ret in Hr as (u & w2 & Hg & Hr). apply guard_Ret in Hg as [Hg ->]. apply ret_Ret in Hr as [-> ->].
  cbn [fst snd] in *. bsimp. subst d'. pose proof (open_chunk_Ret _ _ _ _ _ _ Ho) as (_ & Hf & Hl & Hp).
  apply open_chunk_standing in Ho as (_ & _ & Hs). done.
Qed.

Lemma parse_payload key data d :
  parse_file st key data = Ok d →
  0 < td_byte_length d ∧ length (payload_of d data) = Z.to_nat (td_byte_length d) ∧
  take (Z.to_nat (td_byte_length d)) (drop (Z.to_nat (td_payload_offset d)) data) = payload_of d data ∧
  Z.of_nat (length (td_block_sha256 d)) = ceil_blocks (td_byte_length d) (st_slot_bytes st) ∧
  0 < ceil_blocks (td_byte_length d) (st_slot_bytes st) ∧
  (ceil_blocks (td_byte_length d) (st_slot_bytes st) = 1 → td_block_sha256 d = [td_sha256 d]).
Proof.
  intros (h & Hf & Hd & Hlen & Ho & Hpos)%parse_file_Ok.
  pose proof (hf_blocks _ _ _ _ _ _ _ _ Hf) as [Hb [Hb0 _]]. pose proof (hf_single _ _ _ _ _ _ _ _ Hf) as Hs1.
  assert (length (payload_of d data) = Z.to_nat (td_byte_length d)) as Hl
    by (unfold payload_of; rewrite length_drop; lia).
  split_and!; [done|done| |rewrite Hd; done..]. unfold payload_of in *. apply take_ge. rewrite Hl. lia.
Qed.

(** ** Ranges of a large object *)
Lemma stream_blocks_Ret ino pos remaining blocks acc rd w r w' :
  stream_blocks st receiver ino pos remaining blocks acc rd w = (Ret r, w') →
  authenticate_blocks ino (st_slot_bytes st) pos remaining blocks acc w = (Ret r.1, w') ∧
  ∃ pieces, r.1.2 = acc ++ concat pieces ∧ receive_all pieces rd = Ok r.2.
Proof.
  revert pos remaining acc rd w; induction blocks as [|e blocks IH]; intros pos remaining acc rd w;
    cbn [stream_blocks authenticate_blocks]; intros Hr.
  - apply ret_Ret in Hr as [-> ->]. split; [done|]. exists []. by rewrite app_nil_r.
  - apply bind_Ret in Hr as (v & w1 & Hv & Hr). apply bind_Ret in Hr as (u & w2 & Hg & Hr).
    pose proof Hg as Hg'. apply guard_Ret in Hg as [_ ->]. apply bind_Ret in Hr as (rd1 & w2 & Hl & Hr).
    apply lift_Ret in Hl as [Hrec ->]. apply IH in Hr as (Ha & pieces & Hp & Hrd). split.
    + apply bind_Ret. exists v, w1. split; [done|]. apply bind_Ret. by exists u, w1.
    + exists (v :: pieces). cbn [concat receive_all]. rewrite Hp, (assoc_L (++)). split; [done|].
      by rewrite Hrec.
Qed.

Lemma stream_large_Ret d dev w dev' w' :
  _stream_large_object st receiver d dev w = (Ret dev', w') →
  w_fs w' = w_fs w ∧ delivered (w_fs w) d dev dev'.
Proof.
  unfold _stream_large_object. intros Hr%quarantine_after_Ret.
  apply bind_Ret in Hr as (ino & w1 & Ho & Hr). apply reopen_Ret in Ho as (F1 & Hst & Hl & Hp).
  destruct (parse_payload _ _ _ Hp) as (Hpos & Hlen & Htake & Hblocks & _).
  apply bind_Ret in Hr as ([[rem all] [r dev1]] & w2 & Hs & Hr).
  apply stream_blocks_Ret in Hs as (Ha & pieces & Hp2 & Hrd). cbn [fst snd] in *.
  pose proof (keeps_fs (authenticate_blocks ino (st_slot_bytes st) (Z.to_nat (td_payload_offset d))
    (td_byte_length d) (td_block_sha256 d) []) w1) as Hk. rewrite Ha in Hk.
  apply authenticate_blocks_Ret in Ha as (Hrem & Hn & Hall & Hsha); [|done|lia|done].
  apply bind_Ret in Hr as (u & w3 & Hg & Hr). apply guard_Ret in Hg as [Hg ->].
  apply bind_Ret in Hr as (u2 & w3 & Hlv & Hr). apply lift_Ret in Hlv as [Hlv ->].
  apply ret_Ret in Hr as [-> ->]. bsimp. rewrite F1 in *. cbn [fst snd app] in *. rewrite Htake in *.
  split.
  { apply Hk. intros I. apply k_authenticate_blocks. }
  split; [done|]. exists ino. split_and!; [done| |].
  - unfold payload_authentic. cbv zeta. fold (payload_of d (data_of (w_fs w) ino)).
    destruct Hg as [_ Hg]. split_and!; [done|done|]. congruence.
  - exists pieces, r. split_and!; [congruence|done|by destruct u2].
Qed.

(** ** A small object *)
Lemma for_each_guard_Ret {A} (l : list A) (bad : A → bool) k msg w w' :
  for_each l (λ x, guard_io (bad x) k msg) w = (Ret tt, w') → Forall (λ x, bad x = false) l ∧ w' = w.
Proof.
  revert w; induction l as [|x l IH]; intros w; cbn [for_each]; intros Hr.
  - apply ret_Ret in Hr as [_ ->]. done.
  - apply bind_Ret in Hr as (u & w1 & Hg & Hr). apply guard_Ret in Hg as [Hg ->].
    apply IH in Hr as [Hl ->]. split; [by constructor|done].
Qed.

Lemma transfer_pieces_length slot data :
  length (transfer_pieces slot data) = Z.to_nat (ceil_blocks (Z.of_nat (length data)) slot).
Proof. unfold transfer_pieces. by rewrite length_fmap, length_seq. Qed.

Lemma transfer_pieces_lookup slot data i : (i < length (transfer_pieces slot data))%nat →
  transfer_pieces slot data !! i = Some (take (Z.to_nat slot) (drop (i * Z.to_nat slot) data)).
Proof.
  rewrite transfer_pieces_length. intros Hi. unfold transfer_pieces. by rewrite list_lookup_fmap, lookup_seq_lt.
Qed.

Lemma verify_buffer_Ret key data d w w' :
  parse_file st key data = Ok d → _verify_buffer st d (payload_of d data) w = (Ret tt, w') →
  w' = w ∧ payload_authentic st d data.
Proof.
  intros Hp. destruct (parse_payload _ _ _ Hp) as (Hpos & Hlen & _ & Hblocks & Hb0 & Hone).
  unfold _verify_buffer. cbv zeta. set (payload := payload_of d data) in *. set (slot := Z.to_nat (st_slot_bytes st)).
  intros Hr. apply bind_Ret in Hr as ([] & w1 & He & Hr). apply for_each_guard_Ret in He as [He ->].
  apply guard_Ret in Hr as [Hw ->]. split; [done|].
  rewrite Forall_lookup in He.
  assert (∀ i e, td_block_sha256 d !! i = Some e → sha256_hex (take slot (drop (i * slot) payload)) = e) as Hi.
  { intros i e Hie. specialize (He i (i, e)). cbn [fst snd] in He. rewrite list_lookup_imap, Hie in He.
    specialize (He eq_refl). by bsimp. }
  unfold payload_authentic. cbv zeta. fold (payload_of d data). fold payload. assert (Z.of_nat (length payload) = td_byte_length d) as Hn by lia. split_and!; [lia| |].
  - apply list_eq_same_length with (length (td_block_sha256 d)); [done|rewrite length_fmap, transfer_pieces_length, Hn; lia|].
    intros i a b Hlt Ha Hb. rewrite list_lookup_fmap, transfer_pieces_lookup in Ha by (rewrite transfer_pieces_length, Hn; lia).
    injection Ha as <-. by apply Hi.
  - bsimp. destruct (1 <? length (td_block_sha256 d))%nat eqn:E; cbn [andb] in Hw; [by bsimp|].
    apply Nat.ltb_ge in E. assert (ceil_blocks (td_byte_length d) (st_slot_bytes st) = 1) as E1 by lia.
    specialize (Hone E1). specialize (Hi O (td_sha256 d)). rewrite Hone in Hi. specialize (Hi eq_refl).
    cbn [Nat.mul] in Hi. rewrite drop_0, take_ge in Hi; [done|].
    unfold ceil_blocks in E1. pose proof (Z.div_mod (td_byte_length d + st_slot_bytes st - 1) (st_slot_bytes st) ltac:(lia)).
    pose proof (Z.mod_pos_bound (td_byte_length d + st_slot_bytes st - 1) (st_slot_bytes st) ltac:(lia)).
    unfold slot. lia.
Qed.

Lemma stream_one_Ret d dev w dev' w' :
  stream_one st receiver d dev w = (Ret dev', w') → w_fs w' = w_fs w ∧ delivered (w_fs w) d dev dev'.
Proof.
  unfold stream_one. intros Hr%quarantine_after_Ret.
  apply bind_Ret in Hr as (ino & w1 & Ho & Hr). apply reopen_Ret in Ho as (F1 & Hst & Hl & Hp).
  destruct (parse_payload _ _ _ Hp) as (_ & _ & Htake & _).
  apply bind_Ret in Hr as (view & w2 & Hv & Hr). apply read_small_Ret in Hv as (-> & _ & F2).
  rewrite F1, Htake in Hr. apply bind_Ret in Hr as ([] & w3 & Hver & Hr).
  apply (verify_buffer_Ret _ _ _ _ _ Hp) in Hver as [-> Hau].
  apply bind_Ret in Hr as ([r dev1] & w4 & Hrec & Hr). apply lift_Ret in Hrec as [Hrec ->].
  apply bind_Ret in Hr as ([] & w4 & Hlv & Hr). apply lift_Ret in Hlv as [Hlv ->].
  apply ret_Ret in Hr as [-> ->]. split; [congruence|]. split; [done|]. exists ino. split_and!; [done..|].
  exists [payload_of d (data_of (w_fs w) ino)], r. cbn [concat receive_all fst snd]. rewrite app_nil_r.
  split_and!; [done| |done]. by rewrite Hrec.
Qed.

(** ** The whole chain *)
Lemma fold_io_delivered {A} (f : A → D → IO D) (part : A → list TokenFileDescriptor) :
  (∀ x dev w dev' w', f x dev w = (Ret dev', w') → w_fs w' = w_fs w ∧ delivered_all (w_fs w) (part x) dev dev') →
  ∀ l dev w dev' w', fold_io f l dev w = (Ret dev', w') →
  w_fs w' = w_fs w ∧ delivered_all (w_fs w) (concat (part <$> l)) dev dev'.
Proof.
  intros Hf. induction l as [|x l IH]; intros dev w dev' w'; cbn [fold_io]; intros Hr.
  - apply ret_Ret in Hr as [-> ->]. done.
  - apply bind_Ret in Hr as (dev1 & w1 & Hx & Hr). apply Hf in Hx as [F1 Hd]. apply IH in Hr as [F2 Hds].
    rewrite F1 in *. split; [done|]. csimpl. by eapply delivered_app.
Qed.

Lemma stream_objects_Ret l lease pool_slot dev w dev' w' :
  Forall (λ d, 0 ≤ td_byte_length d) l →
  stream_objects st receiver l lease pool_slot dev w = (Ret dev', w') →
  w_fs w' = w_fs w ∧ delivered_all (w_fs w) l dev dev'.
Proof.
  intros Hl Hr. unfold stream_objects in Hr.
  apply bind_Ret in Hr as (u & w1 & Hg & Hr). apply guard_Ret in Hg as [_ ->].
  apply bind_Ret in Hr as (u1 & w1 & Hg & Hr). apply guard_Ret in Hg as [_ ->].
  eapply (fold_io_delivered _ transferred) in Hr as [Hf Hd].
  - destruct (plan_batches_spec (length l) pool_slot l) as [E _]; [done|done|]. by rewrite E in Hd.
  - intros [d|ds] dev0 w0 dev0' w0'; cbn [run_transfer transferred].
    + intros [Hf Hd]%stream_large_Ret. split; [done|]. by exists dev0'.
    + intros Hb. eapply (fold_io_delivered _ (λ d, [d])) in Hb as [Hf Hd].
      * split; [done|]. replace ds with (concat ((λ d, [d]) <$> ds)) by (clear; induction ds; by csimpl; f_equal). done.
      * intros d dev1 w1 dev1' w1' [Hf Hd]%stream_one_Ret. split; [done|]. by exists dev1'.
Qed.
End stream.
