(* ===== verification/TokenMover.v ===== *)
(** * Saving and restoring pages ([src/spoolcache/token_mover.py], gpu.py)

    [commit_keys] stores the pages of a request in the files of its prefixes;
    [restore_entry] reads a chain of files back into the pages of another request.  GPU
    memory does not change during a save; a restore threads it through the receiver of
    [stream_objects].  A restore that fails after it started raises [FatalRestoreError],
    and its caller ends the process, so the memory it leaves is of no further use. *)
From S2P Require Import Prelude Dict Bytes Config Json Prefix Hma HmaSpec Manifest Gpu Io RankStore TokenFiles.

#[export] Instance LayerGeometry_eq_dec : EqDecision LayerGeometry.
Proof. solve_decision. Defined.
#[export] Instance GroupGeometry_eq_dec : EqDecision GroupGeometry.
Proof. solve_decision. Defined.
#[export] Instance HMALayout_eq_dec : EqDecision HMALayout.
Proof. solve_decision. Defined.

(** ** The layout fits the file format *)
Definition mover_quantum (layout : HMALayout) : result Z := aligned_chunk_tokens (VInt (alignment_tokens layout)).

Definition full_file_size (layout : HMALayout) (quantum : Z) : Z :=
  foldr Z.add 0 (groups layout ≫= λ g,
    if bool_decide (reuse_policy g = PFull)
    then (λ l, quantum / logical_tokens_per_page g * page_size_bytes l) <$> layers g else []).

(** [g.reuse_window_tokens or g.logical_tokens_per_page] *)
Definition window_or_page (g : GroupGeometry) : Z :=
  match reuse_window_tokens g with
  | Some w => if w =? 0 then logical_tokens_per_page g else w
  | None => logical_tokens_per_page g
  end.

Definition state_sizes (span : Z) (g : GroupGeometry) : result (list Z) :=
  if bool_decide (reuse_policy g = PFull) then Ok []
  else mapM_result (λ l, n ← selected_page_count g (VInt span); Ok (n * page_size_bytes l)) (layers g).

Definition validate_layout (layout : HMALayout) (slot_bytes : Z) : result unit :=
  _ ← raise_if (negb ((0 <? slot_bytes) && (slot_bytes <=? STAGING_SLOT_BYTES))) LayoutError
        "invalid fixed transfer credit";
  quantum ← mover_quantum layout;
  _ ← raise_if (bool_decide (groups layout = [])) LayoutError "HMA layout is empty";
  let size := full_file_size layout quantum in
  _ ← raise_if (negb ((0 <? size) && (size <=? slot_bytes * MAX_TRANSFER_BLOCKS))) LayoutError
        "aligned full-KV file exceeds the transfer metadata bound";
  if has_boundary_state layout then
    let largest_window := foldr Z.max (window_or_page (hd (Group 0 [] 0 0 0 false 1 0 PFull None 0 false []) (groups layout)))
                            (window_or_page <$> groups layout) in
    let maximum := (largest_window + quantum - 1) / quantum * quantum in
    sizes ← mapM_result (state_sizes maximum) (groups layout);
    let state_size := foldr Z.add 0 (concat sizes) in
    raise_if (negb ((0 <? state_size) && (state_size <=? slot_bytes * MAX_TRANSFER_BLOCKS))) LayoutError
      "HMA boundary state exceeds the transfer metadata bound"
  else Ok tt.

Section mover.
Context `{Torch, Sha, Uuid, JsonLoads}.

(** [TokenPageMover.__init__] *)
Definition token_mover_init (layout : HMALayout) (kv_caches : list (pystr * Tensor)) (slot_bytes slot_count : Z)
    : result TorchPageMover :=
  _ ← validate_layout layout slot_bytes;
  mover_init layout kv_caches slot_bytes slot_count.

Definition mover_ensure_open (mv : TorchPageMover) : result unit :=
  raise_if (mv_closed mv) RuntimeError "Torch page mover is closed".

(** ** Saving *)
Section saving.
Context (mv : TorchPageMover) (st : TokenFileStore) (selected : list (list Z)) (m : device).

Definition store_segments (span : Z) (kind : file_kind) : result (list PageSlice) :=
  token_segments (st_layout st) span (st_chunk_tokens st) kind.

(** The ranges [capture] yields: each is read when [commit_stream] asks for it. *)
Definition capture_ranges (parts : list PageSlice) (step : Z) : list (result (list byte)) :=
  let length := segment_bytes parts in
  (λ i, _capture_packed mv parts selected (i * step) (Some (Z.min step (length - i * step))) m)
    <$> seqZ 0 (ceil_blocks length step).

Definition _commit_streamed (key : pystr) (parent : option pystr) (span : Z) (parts : list PageSlice)
    (kind : file_kind) : IO TokenFileDescriptor :=
  let step := st_slot_bytes st in
  _ ← guard_io (mv_slot_bytes mv <? step) LayoutError "file authentication unit exceeds GPU staging credit";
  commit_stream st key parent span (capture_ranges parts step) kind.

(** What is missing of a batch, and what is already stored. *)
Definition absent_key : Type := PrefixDigest * option pystr * list PageSlice.

Fixpoint probe_batch (parent : option pystr) (batch : list PrefixDigest)
    : IO (list absent_key * list (pystr * TokenFileDescriptor)) :=
  match batch with
  | [] => ret ([], [])
  | p :: batch =>
      existing ← valid_chunk st (digest p) parent (span_tokens p) KData;
      match existing with
      | Some d =>
          r ← probe_batch (Some (digest p)) batch;
          ret (r.1, (digest p, d) :: r.2)
      | None =>
          parts ← lift (store_segments (span_tokens p) KData);
          r ← probe_batch (Some (digest p)) batch;
          ret ((p, parent, parts) :: r.1, r.2)
      end
  end.

(** One file after another out of the captured view. *)
Fixpoint commit_packed (view : list byte) (offset : Z) (missing : list absent_key)
    : IO (Z * list (pystr * TokenFileDescriptor)) :=
  match missing with
  | [] => ret (offset, [])
  | (p, parent, parts) :: missing =>
      let length := segment_bytes parts in
      d ← commit_chunk st (digest p) parent (span_tokens p)
            (take (Z.to_nat length) (drop (Z.to_nat offset) view)) KData;
      r ← commit_packed view (offset + length) missing;
      ret (r.1, (digest p, d) :: r.2)
  end.

Definition commit_missing (size : Z) (missing : list absent_key)
    : IO (list (pystr * TokenFileDescriptor)) :=
  match missing with
  | [] => ret []
  | (p, parent, parts) :: _ =>
      if mv_slot_bytes mv <? size then
        d ← _commit_streamed (digest p) parent (span_tokens p) parts KData;
        ret [(digest p, d)]
      else
        data ← lift (_capture_packed mv (missing ≫= λ x, x.2) selected 0 None m);
        r ← commit_packed data 0 missing;
        _ ← guard_io (negb (r.1 =? Z.of_nat (length data))) LayoutError
              "captured token batch differs from geometry";
        ret r.2
  end.

(** [resolved[digest]]: the last assignment of a key. *)
Definition resolve (resolved : list (pystr * TokenFileDescriptor)) (p : PrefixDigest)
    : result TokenFileDescriptor :=
  match od_get (digest p) (reverse resolved) with
  | Some d => Ok d
  | None => raise KeyError "resolved"
  end.

Definition commit_batch (size : Z) (parent : option pystr) (batch : list PrefixDigest)
    : IO (list TokenFileDescriptor) :=
  exclusive (
    r ← probe_batch parent batch;
    new ← commit_missing size r.1;
    lift (mapM_result (resolve (r.2 ++ new)) batch)).

(** [for start in range(0, len(prefixes), batch_count)] *)
Fixpoint commit_batches (fuel : nat) (size : Z) (batch_count : nat) (parent : option pystr)
    (prefixes : list PrefixDigest) : IO (list TokenFileDescriptor) :=
  match fuel, prefixes with
  | O, _ | _, [] => ret []
  | S fuel, _ =>
      let batch := take batch_count prefixes in
      objects ← commit_batch size parent batch;
      rest ← commit_batches fuel size batch_count (digest <$> last batch) (drop batch_count prefixes);
      ret (objects ++ rest)
  end.

Definition commit_boundary (tail : PrefixDigest) : IO TokenFileDescriptor :=
  key ← lift (boundary_state_key (digest tail));
  exclusive (
    existing ← valid_chunk st key (Some (digest tail)) (span_tokens tail) KState;
    match existing with
    | Some state => ret state
    | None =>
        parts ← lift (store_segments (span_tokens tail) KState);
        if mv_slot_bytes mv <? segment_bytes parts
        then _commit_streamed key (Some (digest tail)) (span_tokens tail) parts KState
        else
          data ← lift (_capture_packed mv parts selected 0 None m);
          commit_chunk st key (Some (digest tail)) (span_tokens tail) data KState
    end).
End saving.

(** Every consecutive aligned prefix, from the first. *)
Definition consecutive_prefixes (quantum : Z) (prefixes : list PrefixDigest) : bool :=
  negb (bool_decide (prefixes = [])) &&
  bool_decide (span_tokens <$> prefixes = (λ i, (i + 1) * quantum) <$> seqZ 0 (Z.of_nat (length prefixes))).

Definition batch_size (slot size : Z) : result Z :=
  if size =? 0 then raise ZeroDivisionError "integer division or modulo by zero"
  else Ok (Z.max 1 (Z.min (Z.of_nat MAX_BATCH_CHUNKS) (slot / size))).

Definition commit_keys (mv : TorchPageMover) (st : TokenFileStore) (prefixes : list PrefixDigest)
    (block_tables : list (list pyval)) (m : device) : IO TokenSnapshot :=
  let layout := mv_layout mv in
  _ ← lift (mover_ensure_open mv);
  quantum ← lift (mover_quantum layout);
  _ ← guard_io (negb (consecutive_prefixes quantum prefixes)) ManifestError
        "save requires every consecutive runtime-aligned key";
  _ ← guard_io (negb (bool_decide (st_layout st = layout))) LayoutError "store and mover layouts differ";
  _ ← lift (validate_layout layout (mv_slot_bytes mv));
  match last prefixes with
  | None => throw IndexError "tuple index out of range"
  | Some tail =>
      _ ← lift (validate_prefix_headers st (span_tokens tail));
      selected ← lift (layout_select_physical_pages layout block_tables (VInt (span_tokens tail)));
      parts ← lift (store_segments st quantum KData);
      let size := segment_bytes parts in
      batch_count ← lift (batch_size (mv_slot_bytes mv) size);
      objects ← commit_batches mv st selected m (length prefixes) size (Z.to_nat batch_count) None prefixes;
      objects ← (if has_boundary_state layout
                 then state ← commit_boundary mv st selected m tail; ret (objects ++ [state])
                 else ret objects);
      layout_sha256 ← lift (layout_digest layout);
      let snapshot := Snapshot (digest tail) (span_tokens tail) VLLM_RUNTIME_KV_PROFILE layout_sha256 objects in
      _ ← lift (validate_manifest_coverage layout snapshot);
      _ ← touch_files objects;
      ret snapshot
  end.

(** ** Restoring *)

(** [_restore_object_receiver]: its context is the object and the bytes received. *)
Definition restore_receiver (mv : TorchPageMover) (selected : list (list Z))
    : Receiver (TokenFileDescriptor * Z) device :=
  MkReceiver _ _ (λ d, (d, 0))
    (λ s chunk m,
       r ← receive_range mv selected (td_segments s.1) (td_byte_length s.1) s.2 chunk m;
       Ok ((s.1, r.1), r.2))
    (λ s, raise_if (negb (s.2 =? td_byte_length s.1)) LayoutError "token restore received an incomplete object").

(** [stream.synchronize()]: the terminal barrier; CUDA may report an error. *)
Definition _synchronize_restore_stream : IO unit := call_hook (ret tt).

(** [except FatalRestoreError: raise; except Exception: raise FatalRestoreError] *)
Definition fatal {A} (msg : string) (m : IO A) : IO A :=
  try_with m (λ e, if decide (exn_class e = FatalRestoreError) then None
                   else Some (throw FatalRestoreError msg)).

Definition _restore_entry_view (mv : TorchPageMover) (st : TokenFileStore) (view : RestoreView) (span : Z)
    (block_tables : list (list pyval)) (expected_manifest_digest : option pystr) (m : device)
    : IO (TokenSnapshot * device) :=
  _ ← lift (mover_ensure_open mv);
  fatal "SPOOLCACHE_POST_ADMISSION_RESTORE_FAILED" (
    match (if is_hit (rv_result view) then lr_manifest (rv_result view) else None) with
    | None => throw FatalRestoreError "SPOOLCACHE_POST_ADMISSION_LOOKUP_FAILED"
    | Some manifest =>
        _ ← guard_io (negb (ts_span_tokens manifest =? span)) FatalRestoreError
              "SPOOLCACHE_POST_ADMISSION_SPAN_MISMATCH";
        _ ← guard_io (match expected_manifest_digest with
                      | Some e => negb (bool_decide (lr_digest (rv_result view) = Some e))
                      | None => false
                      end) FatalRestoreError "SPOOLCACHE_POST_ADMISSION_MANIFEST_CHANGED";
        _ ← lift (validate_manifest_coverage (mv_layout mv) manifest);
        selected ← lift (layout_select_physical_pages (mv_layout mv) block_tables (VInt span));
        m ← finally
              (stream_objects st (restore_receiver mv selected) (ts_objects manifest) view
                 (mv_slot_bytes mv) m)
              _synchronize_restore_stream;
        ret (manifest, m)
    end).

Definition restore_entry (mv : TorchPageMover) (st : TokenFileStore) (entry_id : pystr) (span : Z)
    (block_tables : list (list pyval)) (expected_manifest_digest : option pystr) (m : device)
    : IO (TokenSnapshot * device) :=
  fatal "SPOOLCACHE_POST_ADMISSION_RESTORE_FAILED"
    (restore_view st entry_id (λ view,
       _restore_entry_view mv st view span block_tables expected_manifest_digest m)).
End mover.
