(* ===== verification/MoverSpec.v ===== *)
(** * What a restore does to GPU memory, what a save captures

    The receiver of a restore puts the payloads of the chain into the selected pages and
    changes nothing else; a save hands the store the bytes of the selected pages. *)
From S2P Require Import Prelude Dict Bytes Config Json Prefix Hma HmaSpec Manifest Gpu GpuCopy GpuPages Io RankStore IoSpec FsInv TokenFiles TokenHeader StoreOps StoreLookup StoreCommit TokenBatches TokenStream TokenMover.

Section restore.
Context `{Torch, Sha, Uuid, JsonLoads}.

(** ** Addresses of concatenated files *)
Lemma segment_bytes_app l k : segment_bytes (l ++ k) = segment_bytes l + segment_bytes k.
Proof.
  unfold segment_bytes. rewrite fmap_app, foldr_app. induction (sl_byte_length <$> l) as [|x xs IH]; cbn; lia.
Qed.

Lemma segment_bytes_nonneg l : Forall (λ s, 0 < sl_byte_length s) l → 0 ≤ segment_bytes l.
Proof. induction 1 as [|s l Hs Hl IH]; unfold segment_bytes in *; cbn; lia. Qed.

Lemma file_address_app_l mv selected l k i :
  0 ≤ i < segment_bytes l → file_address mv selected (l ++ k) i = file_address mv selected l i.
Proof.
  revert i; induction l as [|s l IH]; intros i Hi; cbn [app file_address]; [cbn in Hi; lia|].
  destruct (i <? sl_byte_length s) eqn:E; [done|]. bsimp. apply IH.
  change (segment_bytes (s :: l)) with (sl_byte_length s + segment_bytes l) in Hi. lia.
Qed.

Lemma file_address_app_r mv selected l k i :
  Forall (λ s, 0 < sl_byte_length s) l → 0 ≤ i →
  file_address mv selected (l ++ k) (segment_bytes l + i) = file_address mv selected k i.
Proof.
  intros Hl Hi. induction Hl as [|s l Hs Hl IH]; cbn [app file_address]; [done|].
  change (segment_bytes (s :: l)) with (sl_byte_length s + segment_bytes l).
  pose proof (segment_bytes_nonneg l Hl). rewrite (proj2 (Z.ltb_ge _ _)) by lia. rewrite <- IH. f_equal. lia.
Qed.

(** ** The receiver of one object *)
Section receiver.
Context (mv : TorchPageMover) (selected : list (list Z)) (Hb : bound_ok mv) (Hsel : selection_ok selected).

Lemma receive_all_moved d pieces : ∀ received m r m',
  Forall (λ s, 0 < sl_byte_length s) (td_segments d) →
  inj_upto (segment_bytes (td_segments d)) (file_address mv selected (td_segments d)) →
  0 ≤ received → received ≤ segment_bytes (td_segments d) →
  receive_all (restore_receiver mv selected) pieces ((d, received), m) = Ok (r, m') →
  r = (d, received + Z.of_nat (length (concat pieces))) ∧
  received + Z.of_nat (length (concat pieces)) ≤ segment_bytes (td_segments d) ∧
  moved true m (concat pieces) (λ i, file_address mv selected (td_segments d) (received + i)) m' (concat pieces).
Proof.
  induction pieces as [|v pieces IH]; intros received m r m' Hpos Hinj Hr0 Hr1; cbn [receive_all concat].
  - intros [= <- <-]. cbn. rewrite Z.add_0_r. split_and!; [done|lia|apply moved_nil].
  - intros Hr. apply result_bind_Ok in Hr as ([s1 m1] & Hv & Hr). cbn in Hv.
    apply result_bind_Ok in Hv as ([n m2] & Hrec & [= <- <-]).
    apply receive_range_Ok in Hrec as (-> & _ & _ & Hfit & Hm); [|done..].
    apply IH in Hr as (-> & Hfit2 & Hm2); [|done|done|lia|lia]. rewrite length_app, Nat2Z.inj_add.
    split_and!; [f_equal; lia|lia|]. eapply moved_app; [|exact Hm|].
    + intros _ i j Hi Hj Heq. apply Hinj in Heq; lia.
    + eapply moved_ext; [|exact Hm2]. intros i _. cbv beta. by rewrite Z.add_assoc.
Qed.

Lemma mover_takes d payload m m' :
  Forall (λ s, 0 < sl_byte_length s) (td_segments d) →
  inj_upto (segment_bytes (td_segments d)) (file_address mv selected (td_segments d)) →
  takes (restore_receiver mv selected) d payload m m' →
  Z.of_nat (length payload) = td_byte_length d ∧
  moved true m payload (file_address mv selected (td_segments d)) m' payload.
Proof.
  intros Hpos Hinj (pieces & r & <- & Hr & Hl). pose proof (segment_bytes_nonneg _ Hpos).
  apply receive_all_moved in Hr as (-> & _ & Hm); [|done|done|lia|lia].
  cbn in Hl. apply raise_if_Ok in Hl. bsimp. split; [done|]. done.
Qed.

(** ** A whole chain *)
Context (st : TokenFileStore).

(** The payload of the file that stands under the key of a descriptor. *)
Definition file_payload (fs : FS) (d : TokenFileDescriptor) (payload : list byte) : Prop :=
  ∃ ino, live fs (manifest_path (td_key d)) = Some (NFile ino) ∧ payload_authentic st d (data_of fs ino) ∧
    payload = payload_of d (data_of fs ino).

Lemma delivered_moved fs l : ∀ m m',
  Forall (λ d, Forall (λ s, 0 < sl_byte_length s) (td_segments d) ∧
               segment_bytes (td_segments d) = td_byte_length d) l →
  inj_upto (segment_bytes (l ≫= td_segments)) (file_address mv selected (l ≫= td_segments)) →
  delivered_all st (restore_receiver mv selected) fs l m m' →
  ∃ payloads, Forall2 (file_payload fs) l payloads ∧
    Z.of_nat (length (concat payloads)) = segment_bytes (l ≫= td_segments) ∧
    moved true m (concat payloads) (file_address mv selected (l ≫= td_segments)) m' (concat payloads).
Proof.
  induction l as [|d l IH]; intros m m' Hall Hinj; cbn [delivered_all].
  - intros ->. exists []. split_and!; [constructor|done|apply moved_nil].
  - apply Forall_cons in Hall as [[Hpos Hlen] Hall]. rewrite bind_cons in *. rewrite segment_bytes_app in *.
    intros (m1 & (_ & ino & Hl & Hau & Ht) & Hd).
    assert (0 ≤ segment_bytes (l ≫= td_segments)) as Hnn.
    { apply segment_bytes_nonneg. apply Forall_bind. eapply Forall_impl; [exact Hall|]. by intros x [? _]. }
    pose proof (segment_bytes_nonneg _ Hpos) as Hnd.
    apply mover_takes in Ht as [Hn Hm]; [|done|].
    2:{ intros i j Hi Hj Heq. apply Hinj; [lia|lia|]. by rewrite !file_address_app_l. }
    apply IH in Hd as (payloads & Hp & Hlp & Hmp); [|done|].
    2:{ intros i j Hi Hj Heq. assert (segment_bytes (td_segments d) + i = segment_bytes (td_segments d) + j); [|lia].
        apply Hinj; [lia|lia|]. by rewrite !file_address_app_r by (done || lia). }
    exists (payload_of d (data_of fs ino) :: payloads). cbn [concat]. rewrite length_app, Nat2Z.inj_add.
    split_and!; [constructor; [by exists ino|done]|lia|]. eapply moved_app; [| |].
    + intros _. rewrite Nat2Z.inj_add, Hn, Hlp, <- Hlen. exact Hinj.
    + eapply moved_ext; [|exact Hm]. intros i Hi. rewrite file_address_app_l; [done|lia].
    + eapply moved_ext; [|exact Hmp]. intros i Hi. rewrite Hn, <- Hlen, file_address_app_r; [done|done|lia].
Qed.
End receiver.

(** ** The run of a restore *)
Lemma finally_Ret {A} (m : IO A) f w a w' : finally m f w = (Ret a, w') → ∃ w1, m w = (Ret a, w1).
Proof.
  unfold finally. destruct (m w) as [[b|e|] w1]; try done; destruct (f w1) as [[] w2]; try done.
  intros [= -> _]. by exists w1.
Qed.

Lemma on_error_Ret {A} (m : IO A) h w a w' : on_error m h w = (Ret a, w') → m w = (Ret a, w').
Proof.
  unfold on_error. intros [?|(e & k & w1 & _ & [= <-] & Hk)]%try_Ret; [done|].
  by apply bind_Ret in Hk as (? & ? & _ & ?).
Qed.

Lemma fatal_Ret {A} msg (m : IO A) w a w' : fatal msg m w = (Ret a, w') → m w = (Ret a, w').
Proof.
  unfold fatal. intros [?|(e & k & w1 & _ & Hh & Hk)]%try_Ret; [done|]. case_decide; [done|]. by injection Hh as <-.
Qed.

Lemma pins_acquire_fs keys w fd w' : pins_acquire keys w = (Ret fd, w') → w_fs w' = w_fs w.
Proof.
  intros Hr. pose proof (keeps_fs (pins_acquire keys) w) as Hk. rewrite Hr in Hk. apply Hk. intros I. apply k_pins_acquire.
Qed.

Lemma restore_view_Ret {A} st key (body : RestoreView → IO A) w a w' :
  0 < st_slot_bytes st → restore_view st key body w = (Ret a, w') →
  ∃ result w1 w2, body (View (st_id st) (view_objects result) result true) w1 = (Ret a, w2) ∧
    (is_hit result = true → w_fs w1 = w_fs w ∧ ∃ s, lr_manifest result = Some s ∧ restorable st (w_fs w) key s ∧
       lr_digest result = td_metadata_digest <$> last (ts_objects s)).
Proof.
  intros Hs. unfold restore_view. intros Hr. apply bind_Ret in Hr as (p & w1 & Hp & Hr). apply get_proc_Ret in Hp as [-> ->].
  apply bind_Ret in Hr as (u & w1 & Hg & Hr). apply guard_Ret in Hg as [_ ->].
  apply bind_Ret in Hr as (u1 & w1 & Hc & Hr). injection Hc as _ <-.
  apply bind_Ret in Hr as ([pin v] & w1 & Ho & Hr). apply on_error_Ret, exclusive_Ret in Ho as (w2 & w3 & Ho & F1 & F2).
  apply bind_Ret in Ho as (result & w4 & Hl & Ho). cbv zeta in Ho.
  apply bind_Ret in Ho as (pin' & w5 & Hpin & Ho). apply pins_acquire_fs in Hpin as F3.
  apply bind_Ret in Ho as (u2 & w6 & Ha & Ho). injection Ha as _ <-. apply ret_Ret in Ho as [[= -> ->] ->].
  apply finally_Ret in Hr as [w7 Hr]. apply bind_Ret in Hr as (a' & w8 & Hb & Hr).
  apply bind_Ret in Hr as (u3 & w9 & _ & Hr). apply ret_Ret in Hr as [-> ->]. cbn [snd] in Hb.
  exists result, w1, w8. split; [done|]. intros Hhit.
  destruct (lookup_Ret _ _ _ _ _ _ Hs Hl Hhit) as (F4 & s & Hm & Hrs & Hdig & _). cbn in F1, F2.
  rewrite F1 in *. split; [congruence|]. by exists s.
Qed.

(** The segments of the objects that open. *)
Lemma standing_segments st fs d : standing st fs d →
  segment_bytes (td_segments d) = td_byte_length d ∧ 0 < td_byte_length d ∧
  token_segments (st_layout st) (td_span_tokens d) (st_chunk_tokens st) (td_kind d) = Ok (td_segments d).
Proof.
  intros [_ (ino & _ & Hp)]. apply parse_file_Ok in Hp as (h & Hf & Hd & _ & _ & Hpos).
  pose proof (hf_length _ _ _ _ _ _ _ _ Hf) as Hl. pose proof (hf_segments _ _ _ _ _ _ _ _ Hf) as Hs.
  split_and!; [|done|]; rewrite Hd; cbn; [symmetry; exact Hl|exact Hs].
Qed.

Lemma token_segments_slices layout span chunk k segs :
  token_segments layout span chunk k = Ok segs → Forall (λ s, slice_post_init s = Ok tt) segs.
Proof.
  assert (∀ l out, mapM_result construct l = Ok out → Forall (λ s, slice_post_init s = Ok tt) out) as Hc.
  { intros l out Ho%mapM_result_Ok. induction Ho as [|x y l out Hx Ho IH]; constructor; [|done].
    unfold construct in Hx. by apply result_bind_Ok in Hx as ([] & Hx & [= <-]). }
  unfold token_segments. intros Hr. apply result_bind_Ok in Hr as (l & Hl & [= <-]). apply mapM_result_Ok in Hl.
  apply Forall_concat. induction Hl as [|g s gs l Hg Hl IH]; constructor; [|done].
  unfold group_segments in Hg. destruct (negb _); [by injection Hg as <-; constructor|]. destruct k.
  - by eapply Hc.
  - apply result_bind_Ok in Hg as (n & _ & Hg). by eapply Hc.
Qed.

Lemma slices_positive segs : Forall (λ s, slice_post_init s = Ok tt) segs → Forall (λ s, 0 < sl_byte_length s) segs.
Proof.
  intros Hs. eapply Forall_impl; [exact Hs|]. intros s Hp. unfold slice_post_init in Hp.
  apply result_bind_Ok in Hp as (u & Hp%raise_if_Ok & _). bsimp. lia.
Qed.

(** A restore that returned: the chain stood under its keys, and the selected pages hold
    its payloads. *)
Lemma restore_entry_Ret layout kv slot count mv st key span tables expected m w s m' w' :
  valid_layout layout → mover_init layout kv slot count = Ok mv → 0 < st_slot_bytes st →
  restore_entry mv st key span tables expected m w = (Ret (s, m'), w') →
  restorable st (w_fs w) key s ∧ ts_span_tokens s = span ∧
  (∀ e, expected = Some e → td_metadata_digest <$> last (ts_objects s) = Some e) ∧
  ∃ selected, layout_select_physical_pages layout tables (VInt span) = Ok selected ∧
    (layers_disjoint mv selected →
     inj_upto (segment_bytes (ts_objects s ≫= td_segments)) (file_address mv selected (ts_objects s ≫= td_segments)) ∧
     ∃ payloads, Forall2 (file_payload st (w_fs w)) (ts_objects s) payloads ∧
       Z.of_nat (length (concat payloads)) = segment_bytes (ts_objects s ≫= td_segments) ∧
       moved true m (concat payloads) (file_address mv selected (ts_objects s ≫= td_segments)) m' (concat payloads)).
Proof.
  intros Hv Hmv Hs. unfold restore_entry. intros Hr%fatal_Ret%restore_view_Ret; [|done].
  destruct Hr as (result & w1 & w2 & Hr & Hhit). unfold _restore_entry_view in Hr.
  apply bind_Ret in Hr as (u & w3 & Ho & Hr). apply lift_Ret in Ho as [_ ->]. apply fatal_Ret in Hr. cbn [rv_result] in Hr.
  destruct (is_hit result) eqn:Eh; [|done]. destruct (Hhit eq_refl) as (F1 & s0 & Hm & Hrs & Hdig). clear Hhit.
  rewrite Hm in Hr. apply bind_Ret in Hr as (u1 & w3 & Hg & Hr). apply guard_Ret in Hg as [Hspan ->]. bsimp.
  apply bind_Ret in Hr as (u2 & w3 & Hg & Hr). apply guard_Ret in Hg as [Hexp ->].
  apply bind_Ret in Hr as (u3 & w3 & Hg & Hr). apply lift_Ret in Hg as [Hcov ->].
  apply bind_Ret in Hr as (selected & w3 & Hg & Hr). apply lift_Ret in Hg as [Hsel ->].
  apply bind_Ret in Hr as (m1 & w3 & Hst & Hr). apply ret_Ret in Hr as [[= -> ->] ->].
  apply finally_Ret in Hst as [w4 Hst].
  destruct (mover_init_Ok _ _ _ _ _ Hmv) as (El & _ & _ & _ & _). rewrite El in *.
  pose proof (rs_standing _ _ _ _ Hrs) as Hstand.
  assert (Forall (λ d, Forall (λ s, slice_post_init s = Ok tt) (td_segments d) ∧
    segment_bytes (td_segments d) = td_byte_length d) (ts_objects s0)) as Hsegs.
  { eapply Forall_impl; [exact Hstand|]. intros d (Hb & _ & Ht)%standing_segments. split; [|done].
    by eapply token_segments_slices. }
  apply stream_objects_Ret in Hst as [_ Hd]; [|done|].
  2:{ eapply Forall_impl; [exact Hstand|]. intros d (_ & Hb & _)%standing_segments. lia. }
  rewrite F1 in Hd. split_and!; [done|done| |].
  { intros e ->. bsimp. congruence. }
  exists selected. split; [done|]. intros Hdis.
  unfold validate_manifest_coverage in Hcov. apply result_bind_Ok in Hcov as (dg & _ & Hcov).
  apply result_bind_Ok in Hcov as (u4 & _ & Hcov). destruct u3. rewrite Hspan in Hcov.
  destruct (covered_addresses layout Hv kv slot count mv Hmv span tables selected (ts_objects s0 ≫= td_segments))
    as (_ & Hok & Hinj); [done|done| |done|].
  { apply Forall_bind. eapply Forall_impl; [exact Hsegs|]. by intros d [? _]. }
  split; [exact Hinj|]. eapply delivered_moved; [by eapply mover_bound_ok|exact Hok| |exact Hinj|exact Hd].
  eapply Forall_impl; [exact Hsegs|]. intros d [Hp ?]. split; [by apply slices_positive|done].
Qed.
End restore.
