(* ===== verification/MoverSave.v ===== *)
(** * What a save stores

    Every object of the snapshot that [commit_keys] returns stands under its key when the
    save is done; its file was there before, authenticated, and has not changed, or it was
    committed with exactly the bytes that the selected pages of its segments held. *)
From S2P Require Import Prelude Dict Bytes Config Json Prefix Hma HmaSpec Manifest Gpu GpuCopy GpuPages Io RankStore IoSpec FsInv TokenFiles TokenHeader StoreOps StoreInv StoreFence StoreLookup StoreCommit TokenBatches TokenStream TokenMover MoverSpec.

Section save.
Context `{Torch, Sha, Uuid, JsonLoads}.
Context (mv : TorchPageMover) (st : TokenFileStore) (selected : list (list Z)) (m : device).
Context (Hb : bound_ok mv) (Hsel : selection_ok selected) (Hslot : 0 < st_slot_bytes st).

(** The bytes of a payload are those of the pages of its segments. *)
Definition captured (segments : list PageSlice) (data : list byte) : Prop :=
  Z.of_nat (length data) = segment_bytes segments ∧
  ∀ i, 0 ≤ i < segment_bytes segments → data !! Z.to_nat i = at_address m (file_address mv selected segments i).

(** [data] is the part of a capture that starts at [start]. *)
Definition captured_from (segments : list PageSlice) (start : Z) (data : list byte) : Prop :=
  ∀ i, 0 ≤ i < Z.of_nat (length data) →
    data !! Z.to_nat i = at_address m (file_address mv selected segments (start + i)).

Lemma captured_from_app segments start a b :
  captured_from segments start a → captured_from segments (start + Z.of_nat (length a)) b →
  captured_from segments start (a ++ b).
Proof.
  intros Ha Hbb i Hi. rewrite length_app in Hi. rewrite lookup_app_split by lia.
  destruct (i <? Z.of_nat (length a)) eqn:E; bsimp; [apply Ha; lia|].
  rewrite Hbb by lia. do 2 f_equal. lia.
Qed.

(** ** A streamed file *)
Lemma ceil_blocks_bounds n slot i : 0 < slot → 0 ≤ i < ceil_blocks n slot → i * slot < n.
Proof.
  intros Hs [Hi Hc]. unfold ceil_blocks in Hc.
  pose proof (Z.div_mod (n + slot - 1) slot ltac:(lia)). pose proof (Z.mod_pos_bound (n + slot - 1) slot ltac:(lia)). nia.
Qed.

Lemma capture_ranges_captured parts step views : 0 < step →
  Forall (λ s, 0 < sl_byte_length s) parts → capture_ranges mv selected m parts step = Ok <$> views →
  captured parts (concat views).
Proof.
  intros Hs Hpos. unfold capture_ranges. set (len := segment_bytes parts).
  pose proof (segment_bytes_nonneg parts Hpos) as Hlen. fold len in Hlen.
  assert (∀ n views start, 0 ≤ start → start + Z.of_nat n = ceil_blocks len step →
    (λ i, _capture_packed mv parts selected (i * step) (Some (Z.min step (len - i * step))) m) <$> seqZ start (Z.of_nat n)
      = Ok <$> views →
    captured_from parts (start * step) (concat views) ∧
    Z.of_nat (length (concat views)) = Z.max 0 (len - start * step)) as Hall.
  { induction n as [|n IH]; intros vs start Hst Hn.
    - cbn. intros Hv. destruct vs; [|done]. split; [intros i Hi; cbn in Hi; lia|]. cbn.
      unfold ceil_blocks in Hn. pose proof (Z.div_mod (len + step - 1) step ltac:(lia)).
      pose proof (Z.mod_pos_bound (len + step - 1) step ltac:(lia)). nia.
    - rewrite Nat2Z.inj_succ, <- Z.add_1_l, seqZ_cons by lia. destruct vs as [|v vs]; [done|].
      rewrite !fmap_cons. intros [= Hv Hvs].
      apply capture_packed_Ok in Hv as (Hlv & _ & Hfit & Hbytes); [|done..]. cbn [default] in Hlv. unfold id in Hlv.
      replace (Z.pred (1 + Z.of_nat n)) with (Z.of_nat n) in Hvs by lia. change (Z.succ start) with (start + 1) in Hvs.
      pose proof (f_equal length Hvs) as Hcount. rewrite !length_fmap, length_seqZ in Hcount.
      apply IH in Hvs as [Hc Hlc]; [|lia|lia].
      pose proof (ceil_blocks_bounds len step start Hs ltac:(lia)) as Hlt. cbn [concat]. split.
      + apply captured_from_app; [done|]. destruct vs as [|v2 vs]; [intros i Hi; cbn in Hi; lia|].
        replace (start * step + Z.of_nat (length v)) with ((start + 1) * step); [done|].
        pose proof (ceil_blocks_bounds len step (start + 1) Hs ltac:(cbn in Hcount; lia)). nia.
      + rewrite length_app, Nat2Z.inj_add, Hlv, Hlc. lia. }
  destruct (decide (0 < ceil_blocks len step)) as [Hc|Hc].
  - intros Hv. destruct (Hall (Z.to_nat (ceil_blocks len step)) views 0) as [Hcap Hl]; [lia|lia|by rewrite Z2Nat.id by lia|].
    split; [fold len; lia|]. intros i Hi. apply Hcap. lia.
  - intros Hv. assert (ceil_blocks len step = 0) as E.
    { unfold ceil_blocks in *. pose proof (Z.div_pos (len + step - 1) step). lia. }
    rewrite E in Hv. destruct views; [|done]. split; [|intros i Hi; fold len in Hi].
    + fold len. cbn. destruct (decide (0 < len)) as [Hp|]; [|lia]. pose proof (ceil_blocks_pos len step Hs Hp). lia.
    + pose proof (ceil_blocks_pos len step Hs). lia.
Qed.

(** A stream that was committed: every range was produced. *)
Lemma write_pieces_Ret ino slot pos remaining pieces w views w' :
  write_pieces ino slot pos remaining pieces w = (Ret views, w') → pieces = Ok <$> views.
Proof.
  revert pos remaining w views; induction pieces as [|p pieces IH]; intros pos remaining w views; cbn [write_pieces]; intros Hr.
  - apply bind_Ret in Hr as (? & ? & _ & Hr). by apply ret_Ret in Hr as [-> _].
  - apply bind_Ret in Hr as (v & w1 & Hp & Hr). apply lift_Ret in Hp as [-> ->]. cbv zeta in Hr.
    do 3 (apply bind_Ret in Hr as (? & ? & _ & Hr)).
    apply bind_Ret in Hr as (vs & w2 & Hvs & Hr). apply ret_Ret in Hr as [-> ->]. apply IH in Hvs as ->. done.
Qed.

Lemma publish_write_Ret key h write w d w' :
  _publish_chunk st key h write w = (Ret d, w') → ∃ ino header w1 w2, write ino header w1 = (Ret tt, w2).
Proof.
  unfold _publish_chunk. intros Hr. apply bind_Ret in Hr as (? & ? & _ & Hr).
  apply bind_Ret in Hr as (header & ? & _ & Hr). do 4 (apply bind_Ret in Hr as (? & ? & _ & Hr)). cbv zeta in Hr.
  apply bind_Ret in Hr as (ino & w1 & _ & Hr). apply bind_Ret in Hr as (u & w2 & Hw & _).
  apply on_error_Ret, bind_Ret in Hw as ([] & w3 & Hw & _). by exists ino, header, w1, w3.
Qed.

Lemma commit_stream_Ret key parent span pieces kind w d w' :
  commit_stream st key parent span pieces kind w = (Ret d, w') → ∃ views, pieces = Ok <$> views.
Proof.
  unfold commit_stream. intros (w1 & w2 & Hr & _ & _)%exclusive_Ret. apply bind_Ret in Hr as (h & w3 & _ & Hr).
  apply publish_write_Ret in Hr as (ino & header & w4 & w5 & Hr). apply bind_Ret in Hr as (? & w6 & _ & Hr).
  apply bind_Ret in Hr as (views & w7 & Hv & _). exists views. by eapply write_pieces_Ret.
Qed.

(** ** One object *)

(** A file of a save. *)
Record SaveFile := MkSaveFile { sf_key : pystr; sf_parent : option pystr; sf_span : Z; sf_kind : file_kind }.

(** The payload holds the selected pages of the file. *)
Definition file_captured (f : SaveFile) (data : list byte) : Prop :=
  ∃ segs, store_segments st (sf_span f) (sf_kind f) = Ok segs ∧ captured segs data.

(** The descriptor is that of the file, and the file stands. *)
Definition standing_as (fs : FS) (f : SaveFile) (d : TokenFileDescriptor) : Prop :=
  td_key d = sf_key f ∧ td_parent d = sf_parent f ∧ td_span_tokens d = sf_span f ∧ td_kind d = sf_kind f ∧
  standing st fs d.

(** It was there already, its payload authentic, and has the same bytes. *)
Definition found_file (fs fs' : FS) (d : TokenFileDescriptor) : Prop :=
  standing st fs d ∧ authentic st fs d ∧
  ∃ ino, live fs (manifest_path (td_key d)) = Some (NFile ino) ∧
    live fs' (manifest_path (td_key d)) = Some (NFile ino) ∧ data_of fs' ino = data_of fs ino.

(** Its payload is what the selected pages hold. *)
Definition captured_file (fs' : FS) (f : SaveFile) (d : TokenFileDescriptor) : Prop :=
  ∃ ino, live fs' (manifest_path (td_key d)) = Some (NFile ino) ∧ file_captured f (payload_of d (data_of fs' ino)).

(** What a save that began in [fs] and ended in [fs'] has stored of the file. *)
Definition stored (fs fs' : FS) (f : SaveFile) (d : TokenFileDescriptor) : Prop :=
  standing_as fs' f d ∧ (found_file fs fs' d ∨ captured_file fs' f d).

Lemma stored_later fs fs1 fs2 f d :
  prepared fs1 → untouched (sf_key f) fs1 fs2 → stored fs fs1 f d → stored fs fs2 f d.
Proof.
  intros Hp Hu [(Hk & Hpar & Hsp & Hkd & Hst) Hor]. rewrite <-Hk in Hu.
  split; [split_and!; try done; by apply (untouched_standing st fs1)|].
  destruct (untouched_live _ _ _ Hp Hu) as (_ & Hn & Hd).
  destruct Hor as [(H1' & H2' & ino & L0 & L1 & E)|(ino & L1 & Hc)]; [left|right].
  - split_and!; [done..|]. exists ino. split_and!; [done|by rewrite Hn|by rewrite (Hd ino L1)].
  - exists ino. split; [by rewrite Hn|]. by rewrite (Hd ino L1).
Qed.

Lemma stored_earlier fs0 fs fs' f d :
  prepared fs0 → untouched (sf_key f) fs0 fs → stored fs fs' f d → stored fs0 fs' f d.
Proof.
  intros Hp Hu [Has Hor]. split; [done|]. destruct Has as (Hk & _). rewrite <-Hk in Hu.
  destruct (untouched_live _ _ _ Hp Hu) as (_ & Hn & Hd).
  destruct Hor as [(H1' & H2' & ino & L0 & L1 & E)|?]; [left|by right]. rewrite Hn in L0.
  split; [by apply (untouched_standing st fs0 fs)|]. split; [by apply (untouched_authentic st fs0 fs)|].
  exists ino. split_and!; [done..|]. by rewrite E, (Hd ino L0).
Qed.

Lemma valid_chunk_stored key parent span kind w d w' :
  valid_chunk st key parent span kind w = (Ret (Some d), w') →
  stored (w_fs w) (w_fs w') (MkSaveFile key parent span kind) d.
Proof.
  intros (F & Hk & Hp & Hs & Hkd & Hst & Ha)%valid_chunk_Ret; [|done]. rewrite F.
  split; [by split_and!|]. left. split_and!; [done..|]. destruct Hst as (_ & ino & Hl & _). by exists ino.
Qed.

Lemma committed_captured f data w w' d :
  prepared (w_fs w) → file_captured f data → committed st (sf_key f) (sf_parent f) (sf_span f) data (sf_kind f) w w' d →
  standing_as (w_fs w') f d ∧ captured_file (w_fs w') f d.
Proof.
  intros Hp Hc Hr. pose proof (committed_absent st _ _ _ _ _ _ _ _ Hr) as Hn.
  rewrite prepared_manifest in Hn by done.
  destruct (committed_standing st _ _ _ _ _ _ _ _ Hr) as (ino & Hl & Hst & Hpf).
  destruct (committed_content st Hslot _ _ _ _ _ _ _ _ (pr_wf _ Hp) Hn Hr) as (Hpar & Hsp & Hkd & ino' & Hl' & Hpay).
  assert (ino' = ino) as -> by congruence. pose proof (parse_file_key _ _ _ _ Hpf) as Hk.
  split; [by split_and!|]. exists ino. rewrite Hk, Hpay. by split.
Qed.

Lemma store_segments_positive span kind segs :
  store_segments st span kind = Ok segs → Forall (λ s, 0 < sl_byte_length s) segs.
Proof. intros Hs. by eapply slices_positive, token_segments_slices. Qed.

(** A commit that stored the file. *)
Definition commits_file (f : SaveFile) (w w' : World) (d : TokenFileDescriptor) : Prop :=
  ∃ w1 data, w_fs w1 = w_fs w ∧ file_captured f data ∧
    committed st (sf_key f) (sf_parent f) (sf_span f) data (sf_kind f) w1 w' d.

Lemma commits_spares f w w' d : commits_file f w w' d → spares [sf_key f] w w'.
Proof.
  intros (w1 & data & E & _ & Hc). apply (committed_spares st Hslot) in Hc. unfold spares in *. by rewrite E in Hc.
Qed.
Lemma commits_captured f w w' d :
  prepared (w_fs w) → commits_file f w w' d → standing_as (w_fs w') f d ∧ captured_file (w_fs w') f d.
Proof. intros Hp (w1 & data & E & Hc & Hr). eapply committed_captured; [|exact Hc|exact Hr]. by rewrite E. Qed.

Lemma commit_streamed_commits f parts w d w' :
  store_segments st (sf_span f) (sf_kind f) = Ok parts →
  _commit_streamed mv st selected m (sf_key f) (sf_parent f) (sf_span f) parts (sf_kind f) w = (Ret d, w') →
  commits_file f w w' d.
Proof.
  intros Hp. unfold _commit_streamed. cbv zeta. intros (u & w1 & Hg & Hr)%bind_Ret. apply guard_Ret in Hg as [_ ->].
  pose proof Hr as Hr'. apply commit_stream_Ret in Hr' as [views Hv]. rewrite Hv in Hr.
  exists w, (concat views). split; [done|]. split; [|by right; exists views].
  exists parts. split; [done|]. apply (capture_ranges_captured _ _ _ Hslot (store_segments_positive _ _ _ Hp) Hv).
Qed.

Lemma capture_all segs data : Forall (λ s, 0 < sl_byte_length s) segs →
  _capture_packed mv segs selected 0 None m = Ok data → captured segs data.
Proof.
  intros Hp Hc. apply capture_packed_Ok in Hc as (Hl & _ & _ & Hd); [|done..]. cbn in Hl. unfold id in Hl.
  rewrite Z.sub_0_r in Hl. split; [done|]. intros i Hi. apply Hd. lia.
Qed.

(** ** One batch *)

(** Each prefix with the key of the one before. *)
Fixpoint with_parents (parent : option pystr) (l : list PrefixDigest) : list (PrefixDigest * option pystr) :=
  match l with [] => [] | p :: l => (p, parent) :: with_parents (Some (digest p)) l end.

Definition data_file (pp : PrefixDigest * option pystr) : SaveFile :=
  MkSaveFile (digest pp.1) pp.2 (span_tokens pp.1) KData.

(** An assignment of [resolved]. *)
Definition assigned (P : SaveFile → TokenFileDescriptor → Prop) (l : list (PrefixDigest * option pystr))
    (e : pystr * TokenFileDescriptor) : Prop :=
  ∃ pp, pp ∈ l ∧ e.1 = digest pp.1 ∧ P (data_file pp) e.2.

Lemma assigned_mono (P Q : SaveFile → TokenFileDescriptor → Prop) l k e :
  l ⊆ k → (e.1 ∈ (λ pp, digest pp.1) <$> l → ∀ f d, sf_key f = e.1 → P f d → Q f d) → assigned P l e → assigned Q k e.
Proof.
  intros Hs HPQ (pp & Hin & Hk & HP). exists pp. split_and!; [by apply Hs|done|]. apply HPQ; [|done|done].
  rewrite Hk. by apply (list_elem_of_fmap_2 (λ pp, digest pp.1)).
Qed.

Definition absent_ok (l : list (PrefixDigest * option pystr)) (x : absent_key) : Prop :=
  (x.1.1, x.1.2) ∈ l ∧ store_segments st (span_tokens x.1.1) KData = Ok x.2.
Definition absent_digests (l : list absent_key) : list pystr := (λ x, digest x.1.1) <$> l.

Lemma with_parents_digests parent l : (λ pp, digest pp.1) <$> with_parents parent l = digest <$> l.
Proof. revert parent; induction l as [|p l IH]; intros parent; [done|]. cbn. f_equal. apply IH. Qed.

Lemma probe_batch_absent batch : ∀ parent w r w', probe_batch st parent batch w = (Ret r, w') →
  Forall (absent_ok (with_parents parent batch)) r.1 ∧ absent_digests r.1 ++ r.2.*1 ≡ₚ digest <$> batch.
Proof.
  induction batch as [|p batch IH]; intros parent w r w'; cbn [probe_batch with_parents]; intros Hr.
  - apply ret_Ret in Hr as [-> _]. by split.
  - apply bind_Ret in Hr as (existing & w1 & He & Hr).
    assert (∀ l : list absent_key, Forall (absent_ok (with_parents (Some (digest p)) batch)) l →
      Forall (absent_ok ((p, parent) :: with_parents (Some (digest p)) batch)) l) as Hw.
    { intros l Ha. eapply Forall_impl; [exact Ha|]. intros x [Hx ?]. split; [by right|done]. }
    destruct existing as [d|].
    + apply bind_Ret in Hr as (r' & w2 & Hp & Hr). apply ret_Ret in Hr as [-> ->].
      apply IH in Hp as [Ha Hd]. split; [by apply Hw|]. cbn. by rewrite <-Permutation_middle, Hd.
    + apply bind_Ret in Hr as (parts & w2 & Hl & Hr). apply lift_Ret in Hl as [Hl ->].
      apply bind_Ret in Hr as (r' & w2 & Hp & Hr). apply ret_Ret in Hr as [-> ->].
      apply IH in Hp as [Ha Hd]. split; [constructor; [by split; [left|]|by apply Hw]|]. cbn. by rewrite Hd.
Qed.

Lemma probe_batch_found batch : ∀ parent w r w', NoDup (digest <$> batch) → prepared (w_fs w) →
  probe_batch st parent batch w = (Ret r, w') →
  spares (digest <$> batch) w w' ∧ Forall (assigned (stored (w_fs w) (w_fs w')) (with_parents parent batch)) r.2.
Proof.
  induction batch as [|p batch IH]; intros parent w r w' Hnd Hprep; cbn [probe_batch with_parents]; intros Hr.
  - apply ret_Ret in Hr as [-> ->]. split; [by apply spares_quiet|constructor].
  - apply NoDup_cons in Hnd as [Hnin Hnd]. apply bind_Ret in Hr as (existing & w1 & He & Hr).
    pose proof (valid_chunk_spares st Hslot _ _ _ _ _ _ _ He) as Hs1. destruct (Hs1 Hprep) as [Hprep1 U1].
    assert (∀ r', probe_batch st (Some (digest p)) batch w1 = (Ret r', w') →
      spares (digest p :: (digest <$> batch)) w w' ∧ untouched (digest p) (w_fs w1) (w_fs w') ∧
      Forall (assigned (stored (w_fs w) (w_fs w')) ((p, parent) :: with_parents (Some (digest p)) batch)) r'.2) as Hrest.
    { intros r' Hp. destruct (IH _ _ _ _ Hnd Hprep1 Hp) as [Hs2 Ha]. destruct (Hs2 Hprep1) as [_ U2].
      split; [exact (spares_trans _ _ _ _ _ Hs1 Hs2)|]. split; [by apply U2|].
      eapply Forall_impl; [exact Ha|]. intros e. apply assigned_mono; [by right|].
      intros Hin f d Hf. apply stored_earlier; [done|]. rewrite Hf. apply U1. rewrite with_parents_digests in Hin.
      intros Hk%list_elem_of_singleton. by rewrite Hk in Hin. }
    destruct existing as [d|].
    + apply bind_Ret in Hr as (r' & w2 & Hp & Hr). apply ret_Ret in Hr as [-> ->].
      destruct (Hrest r' Hp) as (Hs & U & Ha). split; [exact Hs|]. constructor; [|exact Ha].
      exists (p, parent). split; [by left|]. split; [done|]. eapply stored_later; [exact Hprep1|exact U|].
      exact (valid_chunk_stored _ _ _ _ _ _ _ He).
    + apply bind_Ret in Hr as (parts & w2 & Hl & Hr). apply lift_Ret in Hl as [Hl ->].
      apply bind_Ret in Hr as (r' & w2 & Hp & Hr). apply ret_Ret in Hr as [-> ->].
      by destruct (Hrest r' Hp) as (Hs & _ & Ha).
Qed.

(** The part of a capture that belongs to one file. *)
Lemma captured_part before parts after data :
  Forall (λ s, 0 < sl_byte_length s) before → Forall (λ s, 0 < sl_byte_length s) parts →
  0 ≤ segment_bytes after → captured (before ++ parts ++ after) data →
  captured parts (take (Z.to_nat (segment_bytes parts)) (drop (Z.to_nat (segment_bytes before)) data)).
Proof.
  intros Hbf Hp Haf [Hl Hd]. rewrite !segment_bytes_app in *.
  pose proof (segment_bytes_nonneg _ Hbf). pose proof (segment_bytes_nonneg _ Hp).
  split; [rewrite length_take, length_drop; lia|]. intros i Hi. rewrite lookup_take_lt, lookup_drop by lia.
  replace (Z.to_nat (segment_bytes before) + Z.to_nat i)%nat with (Z.to_nat (segment_bytes before + i)) by lia.
  rewrite Hd by lia. rewrite file_address_app_r, file_address_app_l by (done || lia). done.
Qed.

(** What a commit leaves under a key, as [assigned] reads it. *)
Definition fresh (fs : FS) (f : SaveFile) (d : TokenFileDescriptor) : Prop := standing_as fs f d ∧ captured_file fs f d.

Lemma fresh_stored fs fs' f d : fresh fs' f d → stored fs fs' f d.
Proof. intros [? ?]. split; [done|by right]. Qed.
Lemma fresh_later fs1 fs2 f d : prepared fs1 → untouched (sf_key f) fs1 fs2 → fresh fs1 f d → fresh fs2 f d.
Proof.
  intros Hp Hu [(Hk & Hpar & Hsp & Hkd & Hst) (ino & L1 & Hc)]. rewrite <-Hk in Hu.
  destruct (untouched_live _ _ _ Hp Hu) as (_ & Hn & Hd).
  split; [split_and!; try done; by apply (untouched_standing st fs1)|].
  exists ino. split; [by rewrite Hn|]. by rewrite (Hd ino L1).
Qed.

Lemma commit_packed_fresh l before missing data : ∀ w r w',
  Forall (λ s, 0 < sl_byte_length s) before → Forall (absent_ok l) missing →
  captured (before ++ (missing ≫= λ x, x.2)) data → NoDup (absent_digests missing) → prepared (w_fs w) →
  commit_packed st data (segment_bytes before) missing w = (Ret r, w') →
  spares (absent_digests missing) w w' ∧ Forall (assigned (fresh (w_fs w')) l) r.2.
Proof.
  revert before; induction missing as [|[[p parent] parts] missing IH]; intros before w r w' Hbf Ha Hc Hnd Hprep;
    cbn [commit_packed]; intros Hr.
  - apply ret_Ret in Hr as [-> ->]. split; [by apply spares_quiet|constructor].
  - apply Forall_cons in Ha as [[Hin Hparts] Ha]. cbn [fst snd] in *. cbv zeta in Hr.
    apply NoDup_cons in Hnd as [Hnin Hnd]. cbn [fst] in Hnin.
    apply bind_Ret in Hr as (d & w1 & Hcm & Hr). apply bind_Ret in Hr as (r' & w2 & Hrest & Hr).
    apply ret_Ret in Hr as [-> ->]. cbn [snd]. rewrite bind_cons in Hc. cbn [snd] in Hc.
    pose proof (store_segments_positive _ _ _ Hparts) as Hpos.
    assert (commits_file (data_file (p, parent)) w w1 d) as Hone.
    { eexists w, _. split; [done|]. split; [|left; exact Hcm]. exists parts. split; [exact Hparts|].
      refine (captured_part before parts (missing ≫= λ x, x.2) data Hbf Hpos _ Hc).
      apply segment_bytes_nonneg, Forall_bind. eapply Forall_impl; [exact Ha|]. intros x [_ Hx].
      exact (store_segments_positive _ _ _ Hx). }
    pose proof (commits_spares _ _ _ _ Hone) as Hs1. destruct (Hs1 Hprep) as [Hprep1 _].
    rewrite <- segment_bytes_app in Hrest. rewrite (assoc_L (++)) in Hc.
    eapply IH in Hrest as [Hs2 Hall]; [|by apply Forall_app|exact Ha|exact Hc|exact Hnd|exact Hprep1].
    split; [exact (spares_trans _ _ _ _ _ Hs1 Hs2)|]. constructor; [|exact Hall].
    exists (p, parent). split_and!; [done..|]. eapply fresh_later; [exact Hprep1| |exact (commits_captured _ _ _ _ Hprep Hone)].
    destruct (Hs2 Hprep1) as [_ U2]. by apply U2.
Qed.

Lemma commit_missing_fresh l size missing w new w' :
  Forall (absent_ok l) missing → NoDup (absent_digests missing) → prepared (w_fs w) →
  commit_missing mv st selected m size missing w = (Ret new, w') →
  spares (absent_digests missing) w w' ∧ Forall (assigned (fresh (w_fs w')) l) new.
Proof.
  intros Ha Hnd Hprep. unfold commit_missing. destruct missing as [|[[p parent] parts] missing].
  { intros Hr. apply ret_Ret in Hr as [-> ->]. split; [by apply spares_quiet|constructor]. }
  destruct (mv_slot_bytes mv <? size).
  - intros Hr. apply Forall_cons in Ha as [[Hin Hparts] _]. cbn [fst snd] in *.
    apply bind_Ret in Hr as (d & w1 & Hcm & Hr). apply ret_Ret in Hr as [-> ->].
    pose proof (commit_streamed_commits (data_file (p, parent)) parts w d w1 Hparts Hcm) as Hone.
    split; [|constructor; [|constructor]].
    + eapply spares_mono; [|exact (commits_spares _ _ _ _ Hone)]. intros k ->%list_elem_of_singleton. by left.
    + exists (p, parent). split_and!; [done..|]. by eapply commits_captured.
  - intros Hr. apply bind_Ret in Hr as (data & w1 & Hd & Hr). apply lift_Ret in Hd as [Hd ->].
    apply bind_Ret in Hr as (r & w2 & Hcm & Hr). apply bind_Ret in Hr as (u & w3 & Hg & Hr).
    apply guard_Ret in Hg as [_ ->]. apply ret_Ret in Hr as [-> ->].
    eapply (commit_packed_fresh l []); [constructor|exact Ha| |exact Hnd|exact Hprep|exact Hcm].
    apply capture_all; [|exact Hd]. apply Forall_bind. eapply Forall_impl; [exact Ha|]. intros x [_ Hx].
    by eapply store_segments_positive.
Qed.

Lemma od_get_in {V} k (l : list (pystr * V)) v : od_get k l = Some v → (k, v) ∈ l.
Proof.
  induction l as [|[k' v'] l IH]; [done|]. cbn. case_decide as E; [intros [= <-]; subst; by left|].
  intros Hg. right. by apply IH.
Qed.

Lemma spares_fs ks w1 w4 w w' : w_fs w1 = w_fs w → w_fs w' = w_fs w4 → spares ks w1 w4 → spares ks w w'.
Proof. unfold spares. by intros -> ->. Qed.

Lemma commit_batch_stored size parent batch w objects w' :
  NoDup (digest <$> batch) → prepared (w_fs w) → commit_batch mv st selected m size parent batch w = (Ret objects, w') →
  spares (digest <$> batch) w w' ∧
  Forall2 (stored (w_fs w) (w_fs w')) (data_file <$> with_parents parent batch) objects.
Proof.
  intros Hnd Hprep. unfold commit_batch. intros (w1 & w2 & Hr & F1 & F2)%exclusive_Ret.
  apply bind_Ret in Hr as (r & w3 & Hp & Hr). apply bind_Ret in Hr as (new & w4 & Hn & Hr).
  apply lift_Ret in Hr as [Hr ->]. rewrite <-F1 in Hprep.
  destruct (probe_batch_absent _ _ _ _ _ Hp) as [Ha Hperm].
  destruct (probe_batch_found _ _ _ _ _ Hnd Hprep Hp) as [Hs1 Hfound]. destruct (Hs1 Hprep) as [Hprep3 U1].
  pose proof Hnd as Hnd'. rewrite <-Hperm in Hnd'. apply NoDup_app in Hnd' as (Hnd1 & Hdis & _).
  destruct (commit_missing_fresh _ _ _ _ _ _ Ha Hnd1 Hprep3 Hn) as [Hs2 Hnew]. destruct (Hs2 Hprep3) as [_ U2].
  set (l := with_parents parent batch) in *. split.
  { apply (spares_fs _ w1 w4); [done|done|]. eapply spares_mono; [|exact (spares_trans _ _ _ _ _ Hs1 Hs2)].
    intros k [Hk|Hk]%elem_of_app; [done|]. rewrite <-Hperm. apply elem_of_app. by left. }
  rewrite F2, <-F1. apply mapM_result_Ok in Hr.
  assert (Forall (assigned (stored (w_fs w1) (w_fs w4)) l) (r.2 ++ new)) as Hall.
  { apply Forall_app. split.
    - rewrite Forall_forall in *. intros e He. specialize (Hfound e He). eapply assigned_mono; [reflexivity| |exact Hfound].
      intros _ f d Hf. apply stored_later; [exact Hprep3|]. apply U2. rewrite Hf. intros Hk. apply (Hdis _ Hk).
      by apply list_elem_of_fmap_2.
    - eapply Forall_impl; [exact Hnew|]. intros e. apply assigned_mono; [done|]. intros _ f d _. apply fresh_stored. }
  assert (∀ pp d, pp ∈ l → resolve (r.2 ++ new) pp.1 = Ok d → stored (w_fs w1) (w_fs w4) (data_file pp) d) as Hres.
  { intros pp d Hin. unfold resolve. destruct (od_get _ _) as [d'|] eqn:E; [|done]. intros [= ->].
    apply od_get_in in E. rewrite elem_of_reverse in E. rewrite Forall_forall in Hall.
    destruct (Hall _ E) as (pp' & Hin' & Hk & Hst). cbn in Hk, Hst.
    assert (pp = pp') as ->; [|done].
    eapply (NoDup_fmap_member (λ pp, digest pp.1)); [|done|done|done]. unfold l. by rewrite with_parents_digests. }
  clear - Hr Hres. subst l. revert parent objects Hr Hres. generalize (r.2 ++ new) as resolved. intros resolved.
  induction batch as [|p batch IH]; intros parent objects Hr Hres.
  - inversion Hr. constructor.
  - inversion Hr as [|? d ? ds Hd Hds]; subst. cbn [with_parents fmap list_fmap]. constructor.
    + apply Hres; [by left|done].
    + apply IH; [done|]. intros pp d' Hin. apply Hres. by right.
Qed.

(** ** Every batch *)
Lemma with_parents_app parent l k :
  with_parents parent (l ++ k) = with_parents parent l ++ with_parents (match last l with Some p => Some (digest p) | None => parent end) k.
Proof.
  revert parent; induction l as [|p l IH]; intros parent; [done|]. cbn [with_parents app]. rewrite IH.
  cbn [app]. do 2 f_equal. rewrite last_cons. by destruct (last l).
Qed.

Lemma data_file_keys parent l : sf_key <$> (data_file <$> with_parents parent l) = digest <$> l.
Proof. rewrite <-list_fmap_compose. apply with_parents_digests. Qed.

Lemma Forall2_weaken {A B} (P Q : A → B → Prop) l k :
  (∀ x y, x ∈ l → P x y → Q x y) → Forall2 P l k → Forall2 Q l k.
Proof. intros HPQ Hl. induction Hl as [|x y l k Hx Hl IH]; constructor; [apply HPQ; [by left|done]|]. apply IH. intros; apply HPQ; [by right|done]. Qed.

(** Two saves of different files, one after the other. *)
Lemma stored_both ks1 ks2 fs1 fs2 o1 o2 w w1 w2 :
  spares ks1 w w1 → spares ks2 w1 w2 → prepared (w_fs w) → (∀ k, k ∈ ks1 → k ∉ ks2) →
  sf_key <$> fs1 ⊆ ks1 → sf_key <$> fs2 ⊆ ks2 →
  Forall2 (stored (w_fs w) (w_fs w1)) fs1 o1 → Forall2 (stored (w_fs w1) (w_fs w2)) fs2 o2 →
  Forall2 (stored (w_fs w) (w_fs w2)) (fs1 ++ fs2) (o1 ++ o2).
Proof.
  intros Hs1 Hs2 Hp Hdis H1' H2' F1 F2. destruct (Hs1 Hp) as [Hp1 U1]. destruct (Hs2 Hp1) as [_ U2].
  apply Forall2_app.
  - eapply Forall2_weaken; [|exact F1]. intros f d Hf. apply stored_later; [done|]. apply U2, Hdis, H1'.
    by apply list_elem_of_fmap_2.
  - eapply Forall2_weaken; [|exact F2]. intros f d Hf. apply stored_earlier; [done|]. apply U1. intros Hk.
    apply (Hdis _ Hk), H2'. by apply list_elem_of_fmap_2.
Qed.

Lemma commit_batches_stored size count : (0 < count)%nat → ∀ fuel prefixes parent w objects w',
  (length prefixes <= fuel)%nat → NoDup (digest <$> prefixes) → prepared (w_fs w) →
  commit_batches mv st selected m fuel size count parent prefixes w = (Ret objects, w') →
  spares (digest <$> prefixes) w w' ∧
  Forall2 (stored (w_fs w) (w_fs w')) (data_file <$> with_parents parent prefixes) objects.
Proof.
  intros Hc fuel. induction fuel as [|fuel IH]; intros prefixes parent w objects w' Hf Hnd Hprep; cbn [commit_batches].
  { destruct prefixes; [|cbn in Hf; lia]. intros [-> ->]%ret_Ret. split; [by apply spares_quiet|constructor]. }
  destruct prefixes as [|p prefixes]; [intros [-> ->]%ret_Ret; split; [by apply spares_quiet|constructor]|].
  set (all := p :: prefixes) in *. cbv zeta. intros (here & w1 & Hhere & Hr)%bind_Ret.
  apply bind_Ret in Hr as (rest & w2 & Hrest & Hr). apply ret_Ret in Hr as [-> ->].
  rewrite <- (take_drop count all) in Hnd |- *. rewrite fmap_app in Hnd |- *. apply NoDup_app in Hnd as (Hnd1 & Hdis & Hnd2).
  apply commit_batch_stored in Hhere as [Hs1 H1']; [|done..]. destruct (Hs1 Hprep) as [Hprep1 _].
  apply IH in Hrest as [Hs2 H2']; [|rewrite length_drop; cbn in *; lia|done..].
  split; [by eapply spares_trans|]. rewrite with_parents_app, fmap_app.
  assert (match last (take count all) with Some p => Some (digest p) | None => parent end = digest <$> last (take count all)) as ->.
  { destruct (last (take count all)) as [q|] eqn:E; [done|]. apply last_None in E. destruct count; [lia|done]. }
  eapply (stored_both (digest <$> take count all) (digest <$> drop count all)); [done..|by rewrite data_file_keys|by rewrite data_file_keys|done|done].
Qed.
End save.

(** ** The whole save *)
Section keys.
Context `{Torch, Sha, Uuid, JsonLoads}.

Lemma commit_boundary_stored mv st selected m tail w d w' :
  bound_ok mv → selection_ok selected → 0 < st_slot_bytes st → prepared (w_fs w) →
  commit_boundary mv st selected m tail w = (Ret d, w') →
  ∃ key, boundary_state_key (digest tail) = Ok key ∧ spares [key] w w' ∧
    stored mv st selected m (w_fs w) (w_fs w') (MkSaveFile key (Some (digest tail)) (span_tokens tail) KState) d.
Proof.
  intros Hb Hsel Hslot Hprep. unfold commit_boundary. intros (key & w1 & Hk & Hr)%bind_Ret.
  apply lift_Ret in Hk as [Hk ->]. exists key. split; [done|].
  apply exclusive_Ret in Hr as (w1 & w2 & Hr & F1 & F2). rewrite F2, <-F1. rewrite <-F1 in Hprep.
  apply bind_Ret in Hr as (e & w3 & He & Hr).
  pose proof (valid_chunk_spares st Hslot _ _ _ _ _ _ _ He) as Hs1. destruct (Hs1 Hprep) as [Hprep3 _].
  set (f := MkSaveFile key (Some (digest tail)) (span_tokens tail) KState).
  assert (Hcommit : ∀ dd, commits_file mv st selected m f w3 w2 dd →
    spares [key] w w' ∧ stored mv st selected m (w_fs w1) (w_fs w2) f dd).
  { intros dd Hone. split.
    - apply (spares_fs _ w1 w2); [done|done|]. eapply spares_mono; [|exact (spares_trans _ _ _ _ _ Hs1 (commits_spares _ _ _ _ Hslot _ _ _ _ Hone))].
      intros k [?|?]%elem_of_app; done.
    - apply fresh_stored. by eapply commits_captured. }
  destruct e as [s|].
  { apply ret_Ret in Hr as [-> ->]. split; [by apply (spares_fs _ w1 w3)|].
    by apply valid_chunk_stored. }
  apply bind_Ret in Hr as (parts & w4 & Hp & Hr). apply lift_Ret in Hp as [Hp ->].
  destruct (mv_slot_bytes mv <? segment_bytes parts).
  - apply Hcommit. exact (commit_streamed_commits _ _ _ _ Hb Hsel Hslot f parts _ _ _ Hp Hr).
  - apply bind_Ret in Hr as (data & w4 & Hd & Hr). apply lift_Ret in Hd as [Hd ->].
    apply Hcommit. exists w3, data. split; [done|]. split; [|left; exact Hr]. exists parts. split; [exact Hp|].
    exact (capture_all _ _ _ Hb Hsel _ _ (store_segments_positive _ _ _ _ Hp) Hd).
Qed.

(** The files of a save. *)
Definition data_files (prefixes : list PrefixDigest) : list SaveFile := data_file <$> with_parents None prefixes.

Definition state_files (layout : HMALayout) (prefixes : list PrefixDigest) : list SaveFile :=
  match last prefixes with
  | Some tail =>
      match boundary_state_key (digest tail) with
      | Ok key => if has_boundary_state layout then [MkSaveFile key (Some (digest tail)) (span_tokens tail) KState] else []
      | _ => []
      end
  | None => []
  end.

Definition save_plan (layout : HMALayout) (prefixes : list PrefixDigest) : list SaveFile :=
  data_files prefixes ++ state_files layout prefixes.

(** The calls a save makes, once its arguments are checked. *)
Definition save_calls mv st selected m prefixes tail (w : World) (s : TokenSnapshot) (w' : World) : Prop :=
  ∃ size count data wa wb u, (0 < count)%nat ∧
    commit_batches mv st selected m (length prefixes) size count None prefixes w = (Ret data, wa) ∧
    (if has_boundary_state (mv_layout mv)
     then ∃ state, commit_boundary mv st selected m tail wa = (Ret state, wb) ∧ ts_objects s = data ++ [state]
     else wb = wa ∧ ts_objects s = data) ∧
    touch_files (ts_objects s) wb = (Ret u, w').

Lemma commit_keys_Ret layout kv slot count mv st prefixes tables m w s w' :
  mover_init layout kv slot count = Ok mv → commit_keys mv st prefixes tables m w = (Ret s, w') →
  ∃ tail, last prefixes = Some tail ∧ ts_entry_id s = digest tail ∧ ts_span_tokens s = span_tokens tail ∧
    validate_manifest_coverage layout s = Ok tt ∧ st_layout st = layout ∧
    ∃ selected, layout_select_physical_pages layout tables (VInt (ts_span_tokens s)) = Ok selected ∧
      save_calls mv st selected m prefixes tail w s w'.
Proof.
  intros Hmv. unfold commit_keys. cbv zeta. destruct (mover_init_Ok _ _ _ _ _ Hmv) as (El & _). rewrite El.
  do 2 (intros (? & ? & Hl & Hr)%bind_Ret; apply lift_Ret in Hl as [_ ->]; revert Hr).
  intros (? & w1 & Hg & Hr)%bind_Ret. apply guard_Ret in Hg as [_ ->].
  apply bind_Ret in Hr as (? & w1 & Hst & Hr). apply guard_Ret in Hst as [Hst ->]. bsimp.
  apply bind_Ret in Hr as (? & ? & Hl & Hr). apply lift_Ret in Hl as [_ ->].
  destruct (last prefixes) as [tail|] eqn:Elast; [|discriminate Hr].
  apply bind_Ret in Hr as (? & ? & Hl & Hr). apply lift_Ret in Hl as [_ ->].
  apply bind_Ret in Hr as (selected & w3 & Hsel & Hr). apply lift_Ret in Hsel as [Hsel ->].
  apply bind_Ret in Hr as (? & ? & Hl & Hr). apply lift_Ret in Hl as [_ ->].
  apply bind_Ret in Hr as (count' & w5 & Hc & Hr). apply lift_Ret in Hc as [Hc ->].
  apply bind_Ret in Hr as (data & w6 & Hdata & Hr). apply bind_Ret in Hr as (all & w7 & Hall & Hr).
  apply bind_Ret in Hr as (dg & w8 & Hdg & Hr). apply lift_Ret in Hdg as [_ ->].
  apply bind_Ret in Hr as ([] & w9 & Hcov & Hr). apply lift_Ret in Hcov as [Hcov ->].
  apply bind_Ret in Hr as (u & w10 & Ht & Hr). apply ret_Ret in Hr as [-> ->].
  exists tail. cbn [ts_entry_id ts_span_tokens]. split_and!; try done. exists selected. split; [exact Hsel|].
  eexists _, (Z.to_nat count'), data, w6, w7, u. split_and!; [|exact Hdata| |exact Ht].
  { unfold batch_size in Hc. destruct (_ =? 0); [done|]. injection Hc as <-. lia. }
  rewrite El. cbn [ts_objects]. destruct (has_boundary_state layout).
  - apply bind_Ret in Hall as (state & w11 & Hs & Hall). apply ret_Ret in Hall as [-> ->]. by exists state.
  - apply ret_Ret in Hall as [-> ->]. by split.
Qed.

Lemma save_calls_stored layout kv slot count mv st prefixes tables m w s w' tail selected :
  valid_layout layout → mover_init layout kv slot count = Ok mv → 0 < st_slot_bytes st →
  prepared (w_fs w) → NoDup (sf_key <$> save_plan layout prefixes) → last prefixes = Some tail →
  layout_select_physical_pages layout tables (VInt (ts_span_tokens s)) = Ok selected →
  save_calls mv st selected m prefixes tail w s w' →
  spares (sf_key <$> save_plan layout prefixes) w w' ∧
  Forall2 (stored mv st selected m (w_fs w) (w_fs w')) (save_plan layout prefixes) (ts_objects s).
Proof.
  intros Hv Hmv Hslot Hprep Hnd Elast Hsel (size & n & data & wa & wb & u & Hn & Hdata & Hstate & Ht).
  destruct (mover_init_Ok _ _ _ _ _ Hmv) as (El & _). rewrite El in Hstate.
  destruct (selection_tables layout Hv _ _ _ Hsel) as [_ Hok]. pose proof (mover_bound_ok _ _ _ _ _ Hmv) as Hb.
  unfold save_plan in *. rewrite fmap_app in *. unfold data_files in *. rewrite data_file_keys in *.
  apply NoDup_app in Hnd as (Hnd1 & Hdis & _).
  apply commit_batches_stored in Hdata as [Hs1 Hd]; [|done..]. destruct (Hs1 Hprep) as [Hprep1 _].
  assert (spares (sf_key <$> state_files layout prefixes) wa wb ∧
    ∃ states, ts_objects s = data ++ states ∧
      Forall2 (stored mv st selected m (w_fs wa) (w_fs wb)) (state_files layout prefixes) states) as (Hs2 & states & Eo & Hd2).
  { unfold state_files. rewrite Elast. destruct (has_boundary_state layout).
    - destruct Hstate as (state & Hr & Eo). apply commit_boundary_stored in Hr as (key & Hk & Hs & Hst); [|done..].
      rewrite Hk. split; [exact Hs|]. exists [state]. split; [done|]. constructor; [exact Hst|constructor].
    - destruct Hstate as [-> Eo]. destruct (boundary_state_key (digest tail)); (split; [by apply spares_quiet|]);
        exists []; rewrite app_nil_r; (split; [done|constructor]). }
  destruct (Hs2 Hprep1) as [Hprep2 _]. apply (touch_spares) in Ht as Hs3. destruct (Hs3 Hprep2) as [_ U3].
  split.
  - eapply spares_mono; [|exact (spares_trans _ _ _ _ _ (spares_trans _ _ _ _ _ Hs1 Hs2) Hs3)]. by rewrite app_nil_r.
  - rewrite Eo. eapply Forall2_weaken; [|eapply (stored_both mv st selected m (digest <$> prefixes) (sf_key <$> state_files layout prefixes));
      [..|exact Hd|exact Hd2]; [done|done|done|exact Hdis|by rewrite data_file_keys|done]].
    intros f d _. apply stored_later; [done|]. apply U3. apply not_elem_of_nil.
Qed.
End keys.
