(* ===== verification/MoverTrip.v ===== *)
(** * From pages to files and back

    A save changes the file of a key only by publishing, under that key, the pages that
    the key stands for.  So the file of a key that no one had published before holds the
    saved pages, until the key is published again, through other operations, restarts and
    power losses; and a restore of the chain puts them into its pages. *)
From S2P Require Import Prelude Dict Bytes Config Json Prefix Hma HmaSpec Manifest Gpu GpuCopy GpuPages Io RankStore IoSpec FsInv TokenFiles TokenHeader StoreOps StoreInv StoreSystem StoreFence StoreLookup StoreCommit TokenBatches TokenStream TokenMover MoverSpec MoverSave.

Lemma k_bind_Ret {A B} I (m : IO A) (f : A → IO B) :
  keeps I m → (∀ a w w', m w = (Ret a, w') → keeps I (f a)) → keeps I (m ≫= f).
Proof.
  intros Hm Hf w Hw. specialize (Hm w Hw). unfold mbind, io_bind. destruct (m w) as [[a|e|] w'] eqn:E; [|done..].
  exact (Hf a w w' E w' Hm).
Qed.

Lemma k_bind_lift {A B} I (r : result A) (f : A → IO B) :
  (∀ a, r = Ok a → keeps I (f a)) → keeps I (lift r ≫= f).
Proof. intros Hf. apply k_bind_Ret; [apply k_lift|]. intros a w w' [Hr _]%lift_Ret. by apply Hf. Qed.

(** ** What a save keeps *)
Section keeping.
Context `{Torch, Sha, Uuid, JsonLoads}.
Context (mv : TorchPageMover) (st : TokenFileStore) (m : device).
Context (Hb : bound_ok mv) (Hslot : 0 < st_slot_bytes st).

Definition commits_ok (I : FS → Prop) (selected : path) (f : SaveFile) : Prop :=
  (∀ data, file_captured mv st selected m f data →
     keeps I (commit_chunk st (sf_key f) (sf_parent f) (sf_span f) data (sf_kind f))) ∧
  (∀ pieces, (∀ views, pieces = Ok <$> views → file_captured mv st selected m f (concat views)) →
     keeps I (commit_stream st (sf_key f) (sf_parent f) (sf_span f) pieces (sf_kind f))).

Context (I : FS → Prop).
Context (Hvalid : ∀ key parent span kind, keeps I (valid_chunk st key parent span kind)).
Context (Htouch : ∀ l, keeps I (touch_files l)).

Section selected.
Context (selected : path) (Hsel : selection_ok selected).

Lemma k_commit_streamed f parts :
  commits_ok I selected f → store_segments st (sf_span f) (sf_kind f) = Ok parts →
  keeps I (_commit_streamed mv st selected m (sf_key f) (sf_parent f) (sf_span f) parts (sf_kind f)).
Proof.
  intros [_ Hs] Hp. unfold _commit_streamed. cbv zeta. apply k_bind; [apply k_guard|]. intros ?. apply Hs.
  intros views Hv. exists parts. split; [done|].
  exact (capture_ranges_captured _ _ _ Hb Hsel _ _ _ Hslot (store_segments_positive _ _ _ _ Hp) Hv).
Qed.

Lemma k_probe_batch batch : ∀ parent, keeps I (probe_batch st parent batch).
Proof. induction batch as [|p batch IH]; intros parent; cbn [probe_batch]; io_keeps. Qed.

Lemma k_commit_packed l data missing : ∀ before,
  (∀ pp, pp ∈ l → commits_ok I selected (data_file pp)) →
  Forall (λ s, 0 < sl_byte_length s) before → Forall (absent_ok st l) missing →
  captured mv selected m (before ++ (missing ≫= λ x, x.2)) data →
  keeps I (commit_packed st data (segment_bytes before) missing).
Proof.
  induction missing as [|[[p parent] parts] missing IH]; intros before Hl Hbf Ha Hc; cbn [commit_packed]; [apply k_ret|].
  apply Forall_cons in Ha as [[Hin Hparts] Ha]. cbn [fst snd] in *. cbv zeta.
  rewrite bind_cons in Hc. cbn [snd] in Hc.
  pose proof (store_segments_positive _ _ _ _ Hparts) as Hpos.
  apply k_bind; [|intros d; apply k_bind; [|intros ?; apply k_ret]].
  - destruct (Hl _ Hin) as [Hch _]. apply Hch. exists parts. split; [exact Hparts|].
    refine (captured_part _ _ _ before parts (missing ≫= λ x, x.2) data Hbf Hpos _ Hc).
    apply segment_bytes_nonneg, Forall_bind. eapply Forall_impl; [exact Ha|]. intros x [_ Hx].
    exact (store_segments_positive _ _ _ _ Hx).
  - rewrite <- segment_bytes_app. apply IH; [done|by apply Forall_app|done|].
    by rewrite (assoc_L (++)) in Hc.
Qed.

Lemma k_commit_missing l size missing :
  (∀ pp, pp ∈ l → commits_ok I selected (data_file pp)) → Forall (absent_ok st l) missing →
  keeps I (commit_missing mv st selected m size missing).
Proof.
  intros Hl Ha. unfold commit_missing. destruct missing as [|[[p parent] parts] missing]; [apply k_ret|].
  destruct (mv_slot_bytes mv <? size).
  - apply Forall_cons in Ha as [[Hin Hparts] _]. cbn [fst snd] in *.
    apply k_bind; [|intros ?; apply k_ret]. exact (k_commit_streamed _ _ (Hl _ Hin) Hparts).
  - apply k_bind_lift. intros data Hd. apply k_bind; [|intros r; io_keeps].
    apply (k_commit_packed l data _ []); [done|constructor|done|].
    apply capture_all; [done..| |exact Hd]. apply Forall_bind. eapply Forall_impl; [exact Ha|]. intros x [_ Hx].
    exact (store_segments_positive _ _ _ _ Hx).
Qed.

Lemma k_commit_batch size parent batch :
  (∀ pp, pp ∈ with_parents parent batch → commits_ok I selected (data_file pp)) →
  keeps I (commit_batch mv st selected m size parent batch).
Proof.
  intros Hl. unfold commit_batch. apply k_exclusive. apply k_bind_Ret; [apply k_probe_batch|].
  intros r w w' Hp. apply probe_batch_absent in Hp as [Ha _]. apply k_bind; [by eapply k_commit_missing|]. intros new. apply k_lift.
Qed.

Lemma k_commit_batches size count : (0 < count)%nat → ∀ fuel prefixes parent,
  (∀ pp, pp ∈ with_parents parent prefixes → commits_ok I selected (data_file pp)) →
  keeps I (commit_batches mv st selected m fuel size count parent prefixes).
Proof.
  intros Hc fuel. induction fuel as [|fuel IH]; intros prefixes parent Hl; cbn [commit_batches]; [apply k_ret|].
  destruct prefixes as [|p prefixes]; [apply k_ret|]. set (all := p :: prefixes) in *. cbv zeta.
  rewrite <- (take_drop count all), with_parents_app in Hl.
  apply k_bind; [apply k_commit_batch; intros pp Hpp; apply Hl, elem_of_app; by left|].
  intros here. apply k_bind; [|intros ?; apply k_ret].
  destruct (last (take count all)) as [q|] eqn:E; [apply IH; intros pp Hpp; apply Hl, elem_of_app; by right|].
  apply last_None in E. destruct count; [lia|done].
Qed.

Lemma k_commit_boundary tail :
  (∀ key, boundary_state_key (digest tail) = Ok key →
     commits_ok I selected (MkSaveFile key (Some (digest tail)) (span_tokens tail) KState)) →
  keeps I (commit_boundary mv st selected m tail).
Proof.
  intros Hc. unfold commit_boundary. apply k_bind_lift. intros key Hk. specialize (Hc key Hk).
  apply k_exclusive. apply k_bind; [apply Hvalid|]. intros [s|]; [apply k_ret|].
  apply k_bind_lift. intros parts Hp. destruct (mv_slot_bytes mv <? segment_bytes parts).
  - exact (k_commit_streamed _ _ Hc Hp).
  - apply k_bind_lift. intros data Hd. destruct Hc as [Hch _]. apply Hch. exists parts. split; [exact Hp|].
    exact (capture_all _ _ _ Hb Hsel _ _ (store_segments_positive _ _ _ _ Hp) Hd).
Qed.
End selected.

Lemma k_commit_keys layout prefixes tables :
  valid_layout layout → mv_layout mv = layout →
  (∀ selected span f, layout_select_physical_pages layout tables (VInt span) = Ok selected →
     span_tokens <$> last prefixes = Some span →
     f ∈ save_plan layout prefixes → commits_ok I selected f) →
  keeps I (commit_keys mv st prefixes tables m).
Proof.
  intros Hv El Hc. unfold commit_keys. cbv zeta. rewrite El.
  do 5 (apply k_bind; [first [apply k_lift|apply k_guard]|intros ?]).
  destruct (last prefixes) as [tail|] eqn:Elast; [|apply k_throw].
  apply k_bind; [apply k_lift|intros ?]. apply k_bind_lift. intros selected Hsel.
  apply k_bind; [apply k_lift|intros ?]. apply k_bind_lift. intros count Hcount.
  destruct (selection_tables layout Hv _ _ _ Hsel) as [_ Hok].
  assert (∀ f, f ∈ save_plan layout prefixes → commits_ok I selected f) as Hf by (intros f; by eapply Hc).
  apply k_bind; [|intros data; apply k_bind; [|intros all; io_keeps]].
  - apply k_commit_batches; [done| |].
    { unfold batch_size in Hcount. destruct (_ =? 0); [done|]. injection Hcount as <-. lia. }
    intros pp Hpp. apply Hf, elem_of_app. left. by apply list_elem_of_fmap_2.
  - destruct (has_boundary_state layout) eqn:Ebs; [|apply k_ret]. apply k_bind; [|intros ?; apply k_ret].
    apply k_commit_boundary; [done|]. intros key Hk. apply Hf, elem_of_app. right.
    unfold state_files. rewrite Elast, Hk, Ebs. by left.
Qed.
End keeping.

(** ** The files of a save *)
Lemma with_parents_in parent l pp :
  pp ∈ with_parents parent l →
  pp.2 = parent ∨ ∃ qq, qq ∈ with_parents parent l ∧ pp.2 = Some (digest qq.1).
Proof.
  revert parent; induction l as [|p l IH]; intros parent; cbn [with_parents]; [by intros ?%elem_of_nil|].
  intros [->|Hin]%elem_of_cons; [by left|]. right.
  destruct (IH _ Hin) as [E|(qq & Hq & E)]; [exists (p, parent); split; [by left|done]|].
  exists qq. split; [by right|done].
Qed.

Lemma with_parents_last parent l tail :
  last l = Some tail → ∃ par, (tail, par) ∈ with_parents parent l.
Proof.
  revert parent; induction l as [|p l IH]; intros parent; [done|]. cbn [with_parents]. destruct l as [|q l].
  - intros [= ->]. exists parent. by left.
  - intros Hl. destruct (IH (Some (digest p)) Hl) as [par Hp]. exists par. by right.
Qed.

Lemma data_plan `{Sha} layout prefixes pp : pp ∈ with_parents None prefixes → data_file pp ∈ save_plan layout prefixes.
Proof. intros Hp. apply elem_of_app. left. by apply list_elem_of_fmap_2. Qed.

Lemma plan_digests `{Sha} layout prefixes : NoDup (sf_key <$> save_plan layout prefixes) → NoDup (digest <$> prefixes).
Proof.
  unfold save_plan, data_files. rewrite fmap_app, <- list_fmap_compose. intros [Hd _]%NoDup_app.
  rewrite <- (with_parents_digests None). exact Hd.
Qed.

Lemma linked_snoc_inv st p s l d :
  linked st p s (l ++ [d]) → linked st p s l ∧ ∀ e, last l = Some e → td_parent d = Some (td_key e).
Proof.
  revert p s; induction l as [|x l IH]; intros p s; cbn [linked app]; [done|].
  intros (Hp & Hs & Hk & Hl). split; [by apply IH in Hl as [Hl _]|]. intros e. destruct l as [|y l].
  - intros [= ->]. by destruct Hl.
  - intros He. apply IH in Hl as [_ Hl]. by apply Hl.
Qed.

Section trip.
Context `{Torch, Sha, Uuid, JsonLoads}.
Context (st : TokenFileStore) (Hslot : 0 < st_slot_bytes st) (layout : HMALayout) (Hv : valid_layout layout).
Context (prefixes : list PrefixDigest) (Hkeys : NoDup (sf_key <$> save_plan layout prefixes)).

(** The invariant of the file of one key: nothing, or the pages captured for it. *)
Definition saved (mv : TorchPageMover) (m : device) (selected : path) (f : SaveFile) : FS → Prop :=
  carried (sf_key f) false
    (written st (sf_key f) (sf_parent f) (sf_span f) (sf_kind f) (file_captured mv st selected m f)).

Lemma saved_commits mv m selected f g :
  f ∈ save_plan layout prefixes → g ∈ save_plan layout prefixes →
  commits_ok mv st m (saved mv m selected f) selected g.
Proof.
  intros Hf Hg. destruct (decide (sf_key g = sf_key f)) as [E|Hne].
  - assert (g = f) as -> by (by eapply (NoDup_fmap_member sf_key)). split.
    + intros data Hd. by eapply k_chunk_written.
    + intros pieces Hp. by eapply k_stream_written.
  - split; intros; [by eapply k_chunk_other|by eapply k_stream_other].
Qed.

Lemma saved_keys mv m tables w o w' selected span f :
  bound_ok mv → mv_layout mv = layout →
  layout_select_physical_pages layout tables (VInt span) = Ok selected →
  span_tokens <$> last prefixes = Some span → f ∈ save_plan layout prefixes →
  fs_wf (w_fs w) → possible (w_fs w) (manifest_path (sf_key f)) = [None] →
  commit_keys mv st prefixes tables m w = (o, w') → saved mv m selected f (w_fs w').
Proof.
  intros Hb El Hsel Hspan Hf Hw Hn Hr.
  assert (keeps (saved mv m selected f) (commit_keys mv st prefixes tables m)) as Hk.
  { pose proof (carried_inv (sf_key f) false
      (written st (sf_key f) (sf_parent f) (sf_span f) (sf_kind f) (file_captured mv st selected m f))) as HI.
    apply (k_commit_keys mv st m Hb Hslot) with (layout := layout).
    - intros. apply (k_valid_chunk st HI); intros; [apply carried_marker|apply carried_quarantine].
    - intros. apply (k_touch_files HI).
    - done.
    - done.
    - intros selected' span' g Hsel' Hspan' Hg.
      assert (selected' = selected) as -> by (rewrite Hspan in Hspan'; injection Hspan' as <-; congruence).
      by apply saved_commits. }
  pose proof (keeps_run _ _ w Hk) as Hs. rewrite Hr in Hs. apply Hs. by apply carried_start.
Qed.

Lemma saved_standing mv m selected f fs d :
  saved mv m selected f fs → standing st fs d → td_key d = sf_key f →
  td_parent d = sf_parent f ∧ ∀ payload, file_payload st fs d payload →
    captured mv selected m (td_segments d) payload.
Proof.
  intros Hs Hst Hk. pose proof (standing_segments _ _ _ Hst) as (_ & _ & Hseg).
  destruct Hst as [_ (ino & Hl & Hp)]. rewrite Hk in Hl, Hp.
  pose proof (carried_live _ _ _ _ _ Hs Hl) as Hd.
  destruct (written_opened st Hslot _ _ _ _ _ _ _ Hd Hp) as (Hpar & Hspan & Hkind & segs & Hs' & Hc).
  split; [done|]. intros payload (ino' & Hl' & _ & ->).
  rewrite Hk in Hl'. assert (ino' = ino) as -> by congruence.
  unfold store_segments in Hs'. rewrite <- Hspan, <- Hkind in Hs'. assert (segs = td_segments d) as <- by congruence. done.
Qed.

(** Every file of a chain that ends in a saved key is one of the save. *)
Lemma chain_saved mv m selected fs data :
  (∀ f, f ∈ save_plan layout prefixes → saved mv m selected f fs) →
  linked st None 0 data → Forall (standing st fs) data →
  (∀ d, last data = Some d → ∃ pp, pp ∈ with_parents None prefixes ∧ td_key d = digest pp.1) →
  Forall (λ d, ∃ pp, pp ∈ with_parents None prefixes ∧ td_key d = digest pp.1) data.
Proof.
  intros Hs. induction data as [|d data IH] using rev_ind; intros Hl Hst Hlast; [constructor|].
  apply Forall_app in Hst as [Hst Hd]. apply Forall_cons in Hd as [Hd _].
  destruct (Hlast d (last_snoc _ _)) as (pp & Hpp & Hk). apply Forall_app. split; [|by constructor; [exists pp|]].
  apply linked_snoc_inv in Hl as (Hl & Hpar).
  apply IH; [done|done|]. intros e He.
  destruct (saved_standing _ _ _ (data_file pp) _ _ (Hs _ (data_plan _ _ _ Hpp)) Hd Hk) as [Hp _].
  rewrite (Hpar e He) in Hp. cbn in Hp.
  destruct (with_parents_in _ _ _ Hpp) as [E|(qq & Hq & E)]; [congruence|].
  exists qq. split; [done|]. congruence.
Qed.
Lemma objects_saved mv m selected fs s tail :
  st_layout st = layout → last prefixes = Some tail →
  (∀ f, f ∈ save_plan layout prefixes → saved mv m selected f fs) → restorable st fs (digest tail) s →
  Forall (λ d, ∃ f, f ∈ save_plan layout prefixes ∧ td_key d = sf_key f) (ts_objects s).
Proof.
  intros El Hlast Hs [_ (data & tl & E & Hl & Hkey & _ & Htl) Hst _]. rewrite E in *.
  apply Forall_app in Hst as [Hst _]. apply Forall_app. split.
  - eapply Forall_impl; [eapply chain_saved; [exact Hs|done|done|]|].
    + intros d Hd. rewrite Hd in Hkey. injection Hkey as Hkey.
      destruct (with_parents_last None _ _ Hlast) as [par Hpp]. by exists (tail, par).
    + intros d (pp & Hpp & Hk). exists (data_file pp). split; [by apply data_plan|exact Hk].
  - rewrite El in Htl. destruct (has_boundary_state layout) eqn:Eb; [|subst; constructor].
    destruct Htl as (d & -> & Hk & _). constructor; [|constructor].
    exists (MkSaveFile (td_key d) (Some (digest tail)) (span_tokens tail) KState). split; [|done].
    apply elem_of_app. right. unfold state_files. rewrite Hlast, Hk, Eb. by left.
Qed.

Lemma captured_app mv m selected a b x y :
  Forall (λ s, 0 < sl_byte_length s) a → captured mv selected m a x → captured mv selected m b y →
  captured mv selected m (a ++ b) (x ++ y).
Proof.
  intros Ha [Lx Hx] [Ly Hy]. pose proof (segment_bytes_nonneg _ Ha). unfold captured.
  rewrite segment_bytes_app, length_app, Nat2Z.inj_add, Lx, Ly. split; [done|].
  intros i Hi. rewrite lookup_app_split by lia. rewrite Lx.
  destruct (i <? segment_bytes a) eqn:E; bsimp.
  - rewrite file_address_app_l by lia. apply Hx. lia.
  - rewrite Hy by lia. replace i with (segment_bytes a + (i - segment_bytes a)) at 2 by lia.
    by rewrite file_address_app_r by (done || lia).
Qed.

Lemma payloads_captured mv m selected fs objects payloads :
  (∀ f, f ∈ save_plan layout prefixes → saved mv m selected f fs) → Forall (standing st fs) objects →
  Forall (λ d, ∃ f, f ∈ save_plan layout prefixes ∧ td_key d = sf_key f) objects →
  Forall2 (file_payload st fs) objects payloads →
  captured mv selected m (objects ≫= td_segments) (concat payloads).
Proof.
  intros Hs Hst Hsv Hp. induction Hp as [|d p objects payloads Hd Hp IH].
  { split; [done|]. cbn. lia. }
  apply Forall_cons in Hst as [Hstd Hst]. apply Forall_cons in Hsv as [(f & Hf & Hk) Hsv].
  rewrite bind_cons. cbn [concat]. apply captured_app.
  - destruct (standing_segments _ _ _ Hstd) as (_ & _ & Ht). by eapply slices_positive, token_segments_slices.
  - destruct (saved_standing _ _ _ _ _ _ (Hs f Hf) Hstd Hk) as [_ Hc]. by apply Hc.
  - by apply IH.
Qed.
End trip.
