(* ===== verification/MoverProps.v ===== *)
(** * Properties of the page mover ([src/spoolcache/gpu.py], token_mover.py)

    Registered pages lie inside their tensor and apart; a save stores the pages of every
    prefix; a restore writes the authenticated payloads to their pages and nothing else;
    and what was saved is what is restored. *)
From S2P Require Import Prelude Dict Bytes Config Json Prefix Hma HmaSpec Manifest Gpu GpuCopy GpuPages Io RankStore IoSpec FsInv TokenFiles TokenHeader StoreOps StoreInv StoreSystem StoreFence StoreLookup StoreCommit TokenBatches TokenStream TokenMover MoverSpec MoverSave MoverTrip.

(** A page view the code accepts is in bounds: every manager page lies inside the
    storage of its tensor, after the tensor's own offset, and no two pages share a
    byte. *)
Theorem manager_pages_in_bounds `{Torch} (t : Tensor) (blocks size : Z) (v : PageView) :
  manager_page_view t blocks size = Ok v →
  0 < blocks ∧ 0 < size ∧ ∃ b, view_uint8 t = Ok b ∧ pv_storage v = bv_storage b ∧
    ∀ p, 0 ≤ p < blocks →
      bv_offset b ≤ page_start_address v p ∧ page_start_address v p + size ≤ bv_nbytes b ∧
      ∀ q, q ≠ p → ranges_disjoint (pv_storage v) (page_start_address v p) size
                     (pv_storage v) (page_start_address v q) size.
Proof.
  intros (b & Hb & Hs & Ho & _ & <- & Hbl & Hst & Hn)%manager_page_view_Ok. split_and!; [done|lia|].
  exists b. split_and!; [done..|]. intros p Hp. unfold page_start_address. split_and!; [nia|nia|].
  intros q Hq. apply rows_disjoint; [lia|done].
Qed.

(** C28: a save stores every prefix.  On a prepared cache root, and with plan keys that are
    distinct, the snapshot of a save that returns has, in order, one object for each
    prefix and one for the boundary state where the layout has one, under the key, parent,
    span and kind of the plan.  When the save is done the file of each stands under its
    key, and either it is the very file found there when the save began, untouched and
    with an authentic payload, or its payload is exactly the bytes that the selected pages
    of its segments hold. *)
Theorem save_stores_prefixes `{Torch, Sha, Uuid, JsonLoads} (layout : HMALayout) (kv : list (pystr * Tensor))
    (slot count : Z) (mv : TorchPageMover) (st : TokenFileStore) (prefixes : list PrefixDigest)
    (tables : list (list pyval)) (m : device) (w w' : World) (s : TokenSnapshot) :
  valid_layout layout → mover_init layout kv slot count = Ok mv → 0 < st_slot_bytes st →
  prepared (w_fs w) → NoDup (sf_key <$> save_plan layout prefixes) →
  commit_keys mv st prefixes tables m w = (Ret s, w') →
  (∃ tail, last prefixes = Some tail ∧ ts_entry_id s = digest tail ∧ ts_span_tokens s = span_tokens tail) ∧
  validate_manifest_coverage layout s = Ok tt ∧
  ∃ selected, layout_select_physical_pages layout tables (VInt (ts_span_tokens s)) = Ok selected ∧
    Forall2 (stored mv st selected m (w_fs w) (w_fs w')) (save_plan layout prefixes) (ts_objects s).
Proof.
  intros Hv Hmv Hs Hp Hn Hr.
  destruct (commit_keys_Ret _ _ _ _ _ _ _ _ _ _ _ _ Hmv Hr) as (tail & Ht & Hid & Hsp & Hc & _ & sel & Hsel & Hcalls).
  destruct (save_calls_stored _ _ _ _ _ _ _ _ _ _ _ _ _ _ Hv Hmv Hs Hp Hn Ht Hsel Hcalls) as [_ Hall].
  split_and!; [by exists tail|done|by exists sel].
Qed.

(** C5: a restore that returns is exact: the snapshot is a complete authenticated chain
    for the key with the requested span and digest, and when the pages of different
    layers do not overlap, the bytes at the selected pages are the payloads of its files,
    byte for byte in file order, and every other byte of GPU memory is unchanged. *)
Theorem restore_is_exact `{Torch, Sha, Uuid, JsonLoads} (layout : HMALayout) (kv : list (pystr * Tensor))
    (slot count : Z) (mv : TorchPageMover) (st : TokenFileStore) (key : pystr) (span : Z)
    (tables : list (list pyval)) (selected : list (list Z)) (expected : option pystr)
    (m m' : device) (w w' : World) (s : TokenSnapshot) :
  valid_layout layout → mover_init layout kv slot count = Ok mv → 0 < st_slot_bytes st →
  layout_select_physical_pages layout tables (VInt span) = Ok selected → layers_disjoint mv selected →
  restore_entry mv st key span tables expected m w = (Ret (s, m'), w') →
  restorable st (w_fs w) key s ∧ ts_span_tokens s = span ∧
  (∀ e, expected = Some e → td_metadata_digest <$> last (ts_objects s) = Some e) ∧
  let address := file_address mv selected (ts_objects s ≫= td_segments) in
  ∃ payloads, Forall2 (file_payload st (w_fs w)) (ts_objects s) payloads ∧
    (∀ i, 0 ≤ i < Z.of_nat (length (concat payloads)) → at_address m' (address i) = concat payloads !! Z.to_nat i) ∧
    (∀ x, (∀ i, 0 ≤ i < Z.of_nat (length (concat payloads)) → x ≠ address i) → at_address m' x = at_address m x).
Proof.
  intros Hv Hmv Hs Hsel Hdis Hr.
  destruct (restore_entry_Ret _ _ _ _ _ _ _ _ _ _ _ _ _ _ _ Hv Hmv Hs Hr) as (Hrs & Hsp & He & sel & Hsel' & Hd).
  assert (sel = selected) as -> by congruence. destruct (Hd Hdis) as (_ & payloads & Hp & _ & _ & _ & Hin & Hout).
  split_and!; [done..|]. by exists payloads.
Qed.

(** C4: what was saved is what is restored.  A save into keys that no one had published,
    the keys of its plan being distinct, captures the pages of a request; any sequence of
    operations that do not publish these keys, of restarts and of power losses follows;
    then a restore of the saved key into the pages of another request, possibly by another
    process with other tensors, where the destination pages of different layers do not
    overlap, leaves in its pages exactly the bytes the saved pages held. *)
Theorem save_restore_roundtrip `{Torch, Sha, Uuid, JsonLoads} (layout : HMALayout)
    (kv1 kv2 : list (pystr * Tensor)) (slot1 count1 slot2 count2 : Z) (mv1 mv2 : TorchPageMover)
    (st : TokenFileStore) (prefixes : list PrefixDigest) (tables1 tables2 : list (list pyval))
    (selected1 selected2 : list (list Z)) (expected : option pystr) (m1 m2 m3 : device)
    (w w1 w2 w3 : World) (s1 s2 : TokenSnapshot) :
  valid_layout layout → 0 < st_slot_bytes st →
  mover_init layout kv1 slot1 count1 = Ok mv1 → mover_init layout kv2 slot2 count2 = Ok mv2 →
  NoDup (sf_key <$> save_plan layout prefixes) → fs_wf (w_fs w) →
  Forall (λ f, possible (w_fs w) (manifest_path (sf_key f)) = [None]) (save_plan layout prefixes) →
  commit_keys mv1 st prefixes tables1 m1 w = (Ret s1, w1) →
  Forall (λ f, rtc (unpublished_step st (sf_key f)) w1 w2) (save_plan layout prefixes) →
  restore_entry mv2 st (ts_entry_id s1) (ts_span_tokens s1) tables2 expected m2 w2 = (Ret (s2, m3), w3) →
  layout_select_physical_pages layout tables1 (VInt (ts_span_tokens s1)) = Ok selected1 →
  layout_select_physical_pages layout tables2 (VInt (ts_span_tokens s1)) = Ok selected2 →
  layers_disjoint mv2 selected2 →
  let segments := ts_objects s2 ≫= td_segments in
  validate_manifest_coverage layout s2 = Ok tt ∧
  ∀ i, 0 ≤ i < segment_bytes segments →
    at_address m3 (file_address mv2 selected2 segments i) = at_address m1 (file_address mv1 selected1 segments i).
Proof.
  intros Hv Hs Hmv1 Hmv2 Hkeys Hw Hnone Hsave Hlater Hrest Hsel1 Hsel2 Hdis segments.
  destruct (commit_keys_Ret _ _ _ _ _ _ _ _ _ _ _ _ Hmv1 Hsave) as (tail & Hlast & Hid & Hsp & _ & El & _).
  destruct (restore_entry_Ret _ _ _ _ _ _ _ _ _ _ _ _ _ _ _ Hv Hmv2 Hs Hrest) as (Hrs & _ & _ & sel & Hsel & Hd).
  assert (sel = selected2) as -> by congruence. destruct (Hd Hdis) as (_ & payloads & Hp & Hlen & _ & _ & Hin & _).
  assert (Hsaved : ∀ f, f ∈ save_plan layout prefixes → saved st mv1 m1 selected1 f (w_fs w2)).
  { intros f Hf. rewrite Forall_forall in Hnone, Hlater. eapply (carried_reachable st Hs); [by apply Hlater|].
    eapply saved_keys with (w := w); [exact Hs|exact Hv|exact Hkeys|by eapply mover_bound_ok
      |by destruct (mover_init_Ok _ _ _ _ _ Hmv1)|exact Hsel1|by rewrite Hlast, Hsp|done|done|by apply Hnone|exact Hsave]. }
  subst segments. split; [rewrite <- El; apply Hrs|]. intros i Hi.
  rewrite Hid in Hrs. pose proof (rs_standing _ _ _ _ Hrs) as Hst.
  pose proof (objects_saved st Hs layout Hv prefixes Hkeys _ _ _ _ _ _ El Hlast Hsaved Hrs) as Hall.
  destruct (payloads_captured st Hs layout prefixes _ _ _ _ _ _ Hsaved Hst Hall Hp) as [_ Hc].
  rewrite Hin by lia. apply Hc. exact Hi.
Qed.
