(* ===== verification/StoreGc.v ===== *)
(** * Pins and capacity maintenance

    A pinned key is neither evicted nor moved to quarantine, and one maintenance batch
    stays within its bounds. *)
From S2P Require Import Prelude Dict Bytes Utf8 Json Hma Manifest Io RankStore IoSpec FsInv TokenFiles TokenHeader StoreLookup.

(** ** The lock leaves pins alone *)
Definition same_pins {A} (m : IO A) : Prop := ∀ w, w_pins (m w).2 = w_pins w.

Lemma sp_bind {A B} (m : IO A) (f : A → IO B) : same_pins m → (∀ a, same_pins (f a)) → same_pins (m ≫= f).
Proof.
  intros Hm Hf w. unfold mbind, io_bind. specialize (Hm w). destruct (m w) as [[a|e|] w1]; cbn in *; [|done..].
  by rewrite Hf.
Qed.
Lemma sp_consult : same_pins consult.
Proof. intros w. unfold consult. by destruct (w_faults w) as [|[] ?]. Qed.
Lemma sp_lstat p : same_pins (sys_lstat p).
Proof. apply sp_bind; [apply sp_consult|]. intros ?. apply sp_bind; [done|]. intros fs w. by destruct (live fs p). Qed.
Lemma sp_open p : same_pins (sys_open p).
Proof. apply sp_bind; [apply sp_consult|]. intros ?. apply sp_bind; [done|]. intros fs w. by destruct (live fs p) as [[]|]. Qed.
Lemma sp_flock : same_pins flock.
Proof. apply sp_bind; [apply sp_consult|done]. Qed.
Lemma sp_open_lock p : same_pins (open_lock p).
Proof. apply sp_bind; [apply sp_open|]. by intros [] w. Qed.
Lemma sp_open_regular p : same_pins (open_regular p).
Proof.
  apply sp_bind; [apply sp_open|]. intros n. apply sp_bind; [apply sp_lstat|]. intros m w.
  destruct n, m; try done. unfold guard_io. by case_match.
Qed.

(** Bodies that agree under the same pins run alike under the lock. *)
Lemma bind_pins_ext {A B} (m : IO A) (f g : A → IO B) w :
  same_pins m → (∀ a w1, w_pins w1 = w_pins w → f a w1 = g a w1) → (m ≫= f) w = (m ≫= g) w.
Proof.
  intros Hm Hf. unfold mbind, io_bind. specialize (Hm w). destruct (m w) as [[a|e|] w1]; cbn in *; [|done..].
  by apply Hf.
Qed.

Lemma exclusive_ext {A} (m k : IO A) w :
  (∀ w1, w_pins w1 = w_pins w → m w1 = k w1) → exclusive m w = exclusive k w.
Proof.
  intros Hm. unfold exclusive. apply bind_pins_ext; [done|]. intros p w1 Hw1.
  assert (Hd : ∀ n x, same_pins (set_proc_depth n) ∧ w_pins (set_proc_depth n x).2 = w_pins x) by done.
  destruct (lock_depth p) as [|d].
  - unfold finally. erewrite bind_pins_ext; [reflexivity|apply sp_open_lock|]. intros ? w2 H2.
    apply bind_pins_ext; [apply sp_flock|]. intros ? w3 H3. apply bind_pins_ext; [apply sp_open_regular|]. intros ? w4 H4.
    apply bind_pins_ext; [apply sp_flock|]. intros ? w5 H5. apply bind_pins_ext; [apply Hd; done|]. intros ? w6 H6.
    apply Hm. congruence.
  - apply bind_pins_ext; [apply Hd; done|]. intros ? w2 H2. unfold finally. rewrite (Hm w2) by congruence. done.
Qed.

(** ** A pinned key *)
Section pinned.
Context `{Sha, Uuid, JsonLoads} (st : TokenFileStore).

Definition pinned (key : pystr) (w : World) : Prop :=
  ∃ off fd l, lease_offset key = Ok off ∧ w_pins w !! fd = Some l ∧ off ∈ l.

Lemma pins_busy_pinned key w b w' : pinned key w → pins_busy key w = (Ret b, w') → b = true.
Proof.
  intros (off & fd & l & Ho & Hl & Hin) Hr. unfold pins_busy in Hr.
  apply bind_Ret in Hr as (o & w1 & Hk & Hr). apply lift_Ret in Hk as [Hk ->]. assert (o = off) as -> by congruence.
  apply bind_Ret in Hr as (n & w1 & Hn & Hr). pose proof (sp_lstat object_reads_lock w) as S1. rewrite Hn in S1.
  destruct n; try discriminate Hr. apply bind_Ret in Hr as (? & w2 & Hc & Hr).
  pose proof (sp_consult w1) as S2. rewrite Hc in S2. cbn in S1, S2.
  apply bind_Ret in Hr as (pins & w3 & Hg & Hr). injection Hg as <- <-. apply ret_Ret in Hr as [-> _].
  apply bool_decide_eq_true_2. exists fd, l. split; [congruence|done].
Qed.

(** Code behind [if self._pins.busy(key)] is not reached. *)
Lemma busy_branch {A} key (x y : IO A) w :
  pinned key w →
  (busy ← pins_busy key; if (busy : bool) then x else y) w = (busy ← pins_busy key; x) w.
Proof. intros Hp. apply bind_ext. intros b w1 Hb. by rewrite (pins_busy_pinned _ _ _ _ Hp Hb). Qed.

Lemma evict_pinned key w : pinned key w → evict st key w = exclusive (busy ← pins_busy key; ret false) w.
Proof.
  intros Hp. unfold evict. apply exclusive_ext. intros w1 Hw. apply busy_branch.
  destruct Hp as (off & fd & l & ? & ? & ?). exists off, fd, l. by rewrite Hw.
Qed.

Lemma quarantine_bad_pinned key w :
  pinned key w →
  _quarantine_bad st key w
  = (busy ← pins_busy key; _ ← _mark_inventory_withdrawn key; _record_withdrawal (st_hooks st) key) w.
Proof. apply busy_branch. Qed.

(** One name of the file system. *)
Lemma entry_inv p n : store_inv (λ q _, q ≠ p) (λ q, q ≠ [] ∧ q ≠ p) (λ fs, fs_wf fs ∧ names fs !! p = n).
Proof.
  split.
  - by intros fs [? _].
  - intros fs q v [Hw Hn] Hq He. split; [by apply wf_set_name|]. unfold set_name. cbn. by rewrite lookup_partial_alter_ne.
  - intros fs d [Hw Hn]. split; [by apply wf_sync_dir|done].
  - intros fs q now [Hw Hn] [_ Hq]. split; [by apply wf_create|]. unfold set_name. cbn. by rewrite lookup_partial_alter_ne.
  - intros fs ino q i [Hw Hn] _ [Hi _]. split; [by apply wf_set_inode|done].
  - intros fs ino i now [Hw Hn] Hi. split; [apply wf_set_inode; [done|by rewrite Hi]|done].
  - by intros q [? ?].
Qed.

Lemma k_quarantine_bad_pinned key n w :
  fs_wf (w_fs w) → names (w_fs w) !! manifest_path key = n → pinned key w →
  names (w_fs (_quarantine_bad st key w).2) !! manifest_path key = n.
Proof.
  intros Hw Hn Hp. rewrite quarantine_bad_pinned by done. pose proof (entry_inv (manifest_path key) n) as HI.
  assert (Km : keeps (λ fs, fs_wf fs ∧ names fs !! manifest_path key = n) (_mark_inventory_withdrawn key)).
  { by apply (k_mark HI). }
  assert (Kr : keeps (λ fs, fs_wf fs ∧ names fs !! manifest_path key = n) (_record_withdrawal (st_hooks st) key)).
  { unfold _record_withdrawal. io_keeps. }
  assert (Ka : keeps (λ fs, fs_wf fs ∧ names fs !! manifest_path key = n)
    (busy ← pins_busy key; _ ← _mark_inventory_withdrawn key; _record_withdrawal (st_hooks st) key)) by io_keeps.
  exact (proj2 (keeps_run _ _ w Ka (conj Hw Hn))).
Qed.

(** ** Capacity maintenance *)
Lemma evict_each_bounds keys w n w' :
  evict_each st keys w = (Ret n, w') → 0 ≤ n ≤ Z.of_nat (length keys).
Proof.
  revert w n w'; induction keys as [|k keys IH]; intros w n w'; cbn [evict_each]; intros Hr.
  - by apply ret_Ret in Hr as [-> _].
  - apply bind_Ret in Hr as (b & w1 & _ & Hr). apply bind_Ret in Hr as (m & w2 & Hm & Hr).
    apply IH in Hm. apply ret_Ret in Hr as [-> _]. cbn [length]. destruct b; lia.
Qed.

Lemma try_exclusive_Ret {A} (m : IO A) w a w' :
  try_exclusive m w = (Ret (Some a), w') → ∃ w1 w2, m w1 = (Ret a, w2).
Proof.
  unfold try_exclusive. intros Hr. apply bind_Ret in Hr as (t & w1 & _ & Hr). destruct t; cbn [negb] in Hr;
    [|by apply ret_Ret in Hr as [? _]].
  assert (Hfin : ∀ (x : IO (option A)) n w w', finally x (set_proc_depth n) w = (Ret (Some a), w') →
    ∃ w2, x w = (Ret (Some a), w2)).
  { intros x n w0 w2. unfold finally. destruct (x w0) as [[c|e|] w3]; cbn; try done. intros [= -> _]. by exists w3. }
  apply bind_Ret in Hr as (p & w2 & _ & Hr). destruct (lock_depth p) as [|d].
  - apply Hfin in Hr as [w3 Hr]. apply bind_Ret in Hr as (? & w4 & _ & Hr). apply bind_Ret in Hr as (shared & w5 & _ & Hr).
    destruct shared; cbn [negb] in Hr; [|by apply ret_Ret in Hr as [? _]].
    apply bind_Ret in Hr as (? & w6 & _ & Hr). apply bind_Ret in Hr as (held & w7 & _ & Hr).
    destruct held; cbn [negb] in Hr; [|by apply ret_Ret in Hr as [? _]].
    apply bind_Ret in Hr as (? & w8 & _ & Hr). apply bind_Ret in Hr as (y & w9 & Hm & Hr).
    apply ret_Ret in Hr as [[= ->] _]. by eexists _, _.
  - apply bind_Ret in Hr as (? & ? & _ & Hr). apply Hfin in Hr as [w3 Hr].
    apply bind_Ret in Hr as (y & w4 & Hm & Hr). apply ret_Ret in Hr as [[= ->] _]. by eexists _, _.
Qed.

(** Below the trigger and outside a running quota nothing is attempted; otherwise at
    most four candidates are, within the quota. *)
Lemma maintain_bounds trigger remaining w r w' :
  maintain_capacity_batch st (VInt trigger) (VInt remaining) w = (Ret (Some r), w') →
  0 < trigger ∧ 0 ≤ remaining ∧ 0 ≤ manifests_removed r ≤ candidates_attempted r ∧ candidates_attempted r ≤ 4 ∧
  objects_removed r = manifests_removed r ∧ bytes_reclaimed r = Z.max 0 (bytes_before r - bytes_after r) ∧
  0 ≤ candidates_remaining r ∧
  (0 < remaining → candidates_attempted r + candidates_remaining r ≤ remaining) ∧
  (remaining = 0 → bytes_before r < trigger → candidates_attempted r = 0 ∧ candidates_remaining r = 0).
Proof.
  unfold maintain_capacity_batch. intros Hr.
  apply bind_Ret in Hr as (t & w1 & Ht & Hr). apply lift_Ret in Ht as [Ht ->].
  apply bind_Ret in Hr as (q & w1 & Hq & Hr). apply lift_Ret in Hq as [Hq ->].
  apply need_int_Ok in Ht as [Ht Htb]. apply need_int_Ok in Hq as [Hq Hqb]. cbn in Ht, Hq. simplify_eq. bsimp.
  apply try_exclusive_Ret in Hr as (w1 & w2 & Hr).
  apply bind_Ret in Hr as (before & w3 & _ & Hr). destruct ((q =? 0) && (before <? t)) eqn:Eq.
  - apply ret_Ret in Hr as [-> _]. bsimp. cbn. split_and!; try lia. 
  - apply bind_Ret in Hr as (keys & w4 & _ & Hr). apply bind_Ret in Hr as (found & w5 & _ & Hr). cbv zeta in Hr.
    set (selected := take 4 (merge_sort age_le found.2)) in *.
    set (quota := if q =? 0 then Z.max 1 (found.1 / 5) else q) in *.
    set (chosen := take (Z.to_nat quota) selected) in *.
    apply bind_Ret in Hr as (removed & w6 & He & Hr). apply evict_each_bounds in He. rewrite length_fmap in He.
    apply bind_Ret in Hr as (after & w7 & _ & Hr). apply ret_Ret in Hr as [-> _]. cbn.
    assert (length chosen = Nat.min (Z.to_nat quota) (length selected)) as Hc by apply length_take.
    assert (length selected ≤ 4)%nat as Hs by (unfold selected; rewrite length_take; lia).
    assert (0 < quota) as Hquota by (unfold quota; case_match; bsimp; lia).
    split_and!; try lia.
    + case_match; lia.
    + intros Hpos. assert (quota = q) as Hqq by (unfold quota; case_match; bsimp; lia). rewrite Hqq in *.
      case_match; bsimp; lia.
Qed.
End pinned.
