(* ===== verification/StoreProps.v ===== *)
(** * Properties of the store ([src/spoolcache/token_files.py], rank_store.py)

    What the store promises in every state it can reach: complete files, withdrawal that
    survives crashes, commits that open, lookups that tell the truth, epochs that grow,
    and the bounds of restores, recovery, leases and maintenance. *)
From S2P Require Import Prelude Dict Bytes Utf8 Json Hma HmaSpec Manifest Io RankStore IoSpec FsInv TokenFiles TokenHeader TokenScrub StoreOps StoreInv StoreSystem StoreFence StoreEpochs StoreLookup StoreCommit TokenBatches StoreGc ScrubProps.

(** C1: from a root where nothing is published, after any sequence of operations of the
    store, each under any schedule of failing, short and fatal system calls, of process
    restarts and of power losses, whatever stands under the name of a key is a regular
    file whose bytes are complete: its header authenticates for that key and every
    transfer block and the payload have the recorded checksums.  A crash never leaves
    a torn file in the namespace. *)
Theorem published_files_whole `{Sha, Uuid, JsonLoads} (st : TokenFileStore) (w w' : World) :
  0 < st_slot_bytes st → unpublished_root (w_fs w) → rtc (system_step st) w w' →
  ∀ key n, live (w_fs w') (manifest_path key) = Some n →
  ∃ ino, n = NFile ino ∧ complete_file st key (data_of (w_fs w') ino).
Proof.
  intros Hs Hw Hr key n Hl. pose proof (whole_reachable st Hs w w' Hr (unpublished_whole st _ Hw)) as Hk.
  destruct (whole_entry st _ _ _ Hk Hl) as (ino & i & -> & Hi & Hc).
  exists ino. split; [done|]. unfold data_of. by rewrite Hi.
Qed.

(** The key can be opened, or a lookup hits with it. *)
Definition served `{Sha, Uuid, JsonLoads} (st : TokenFileStore) (key : pystr) (w : World) : Prop :=
  (∃ od w', _open_chunk st false key w = (Ret od, w')) ∨
  (∃ v id r s w', lookup st v id w = (Ret r, w') ∧ is_hit r = true ∧ lr_manifest r = Some s ∧
     key ∈ (td_key <$> ts_objects s)).

(** Between the two worlds the key was not published, and a scrub step began while the file
    that stood under it was authentic. *)
Definition authenticated_between `{Sha, Uuid, JsonLoads} (st : TokenFileStore) (key : pystr) (w1 w2 : World) : Prop :=
  ∃ wa wb o cancelled budget items, rtc (unpublished_step st key) w1 wa ∧
    scrub_step st cancelled budget items wa = (o, wb) ∧ rtc (unpublished_step st key) wb w2 ∧
    authentic_at st (w_fs wa) key.

Lemma discard_run {A} (m : IO A) w o w' : discard m w = (o, w') → ∃ o', m w = (o', w').
Proof. unfold discard, mbind, io_bind. destruct (m w) as [[a|e|] w1]; intros [= _ <-]; by eexists. Qed.

Lemma fenced_or_authenticated `{Sha, Uuid, JsonLoads} (st : TokenFileStore) key w1 w2 :
  0 < st_slot_bytes st → rtc (unpublished_step st key) w1 w2 → fenced key (w_fs w1) →
  fenced key (w_fs w2) ∨ authenticated_between st key w1 w2.
Proof.
  intros Hs Hr Hf. refine (rtc_ind_r (λ y, fenced key (w_fs y) ∨ authenticated_between st key w1 y) w1 (or_introl Hf) _ w2 Hr).
  clear w2 Hr. intros x y Hx Hstep IH.
  destruct IH as [Hfx|(wa & wb & o & c & b & i & H1' & H2' & H3' & H4')].
  2:{ right. exists wa, wb, o, c, b, i. split_and!; [done|done|by eapply rtc_r|done]. }
  destruct Hstep as [c o w w' Hn Hc|w w' Hw|w w' Hw]; [|left; by rewrite Hw|left; by eapply fenced_power_loss].
  assert ((∃ cancelled budget items, c = CScrubStep cancelled budget items) ∨ ¬ releases c key) as [(ca & bu & it & ->)|Hrel].
  { destruct c; first [by right; intros []|left; by do 3 eexists]. }
  - apply discard_run in Hc as [o' Hc].
    destruct (scrub_keeps_fence st _ _ _ key _ _ _ Hs Hc Hfx) as [?|[_ Ha]]; [by left|right].
    by exists w, w', o', ca, bu, it.
  - left. pose proof (fenced_call st Hs key c ltac:(by intros [?|?]) w Hfx) as Hk. rewrite Hc in Hk. by destruct o.
Qed.


(** C3: what was committed is what opens.  When a commit of a payload in memory, or of
    a stream of ranges, returns a descriptor, that descriptor names the given parent,
    span and kind, it is the metadata of the file that stands unwithdrawn under the
    key, and the payload of that file is the committed payload. *)
Theorem committed_opens `{Sha, Uuid, JsonLoads} (st : TokenFileStore) (key : pystr) (parent : option pystr)
    (span : Z) (data : list byte) (kind : file_kind) (w w' : World) (d : TokenFileDescriptor) :
  0 < st_slot_bytes st → fs_wf (w_fs w) → names (w_fs w) !! manifest_path key = None →
  committed st key parent span data kind w w' d →
  standing st (w_fs w') d ∧ td_parent d = parent ∧ td_span_tokens d = span ∧ td_kind d = kind ∧
  ∃ ino, live (w_fs w') (manifest_path key) = Some (NFile ino) ∧ payload_of d (data_of (w_fs w') ino) = data.
Proof.
  intros Hs Hw Hn Hc. destruct (committed_standing st key _ _ _ _ _ _ _ Hc) as (_ & _ & Hst & _).
  split; [done|]. by eapply committed_content.
Qed.

(** C6: a lookup that hits tells the truth and changes no file: the snapshot is for the
    key, its objects are the files that stand unwithdrawn under their keys, they are
    linked from the first chunk to the key with consecutive spans, followed by the
    boundary state exactly when the layout has one, and they cover the layout; with
    payload verification every object is authentic. *)
Theorem lookup_hit_sound `{Sha, Uuid, JsonLoads} (st : TokenFileStore) (verify : bool) (key : pystr)
    (r : LookupResult) (w w' : World) :
  0 < st_slot_bytes st → lookup st verify key w = (Ret r, w') → is_hit r = true →
  w_fs w' = w_fs w ∧ ∃ s, lr_manifest r = Some s ∧ restorable st (w_fs w) key s ∧
    lr_digest r = td_metadata_digest <$> last (ts_objects s) ∧
    (verify = true → Forall (authentic st (w_fs w)) (ts_objects s)).
Proof. apply lookup_Ret. Qed.

(** C23: generation epochs strictly increase: an epoch reserved after another, however
    many operations, restarts, clock changes and power losses lie between them, is
    larger. *)
Theorem epoch_strictly_increases `{Sha, Uuid, JsonLoads} (st : TokenFileStore) (w w1 w2 w3 : World) (e1 e2 : Z) :
  0 < st_slot_bytes st → prepared (w_fs w) →
  reserve_inventory_generation_epoch w = (Ret e1, w1) → rtc (system_step st) w1 w2 →
  reserve_inventory_generation_epoch w2 = (Ret e2, w3) → e1 < e2.
Proof.
  intros Hs Hw R1 Hr R2. pose proof (triple_Ret _ _ _ _ _ _ _ reserve_first Hw R1) as He.
  pose proof (reserved_reachable st Hs e1 _ _ Hr He) as Hm.
  by destruct (triple_Ret _ _ _ _ _ _ _ (reserve_next e1) Hm R2) as [_ ?].
Qed.

(** a key is skipped by capture only after its whole file was authenticated: when
    [valid_chunk] returns a descriptor, the file stands under the key with the given
    parent, span and kind, every transfer block and the payload have the recorded
    checksums, and no file was changed. *)
Theorem valid_chunk_authenticates `{Sha, Uuid, JsonLoads} (st : TokenFileStore) (key : pystr)
    (parent : option pystr) (span : Z) (kind : file_kind) (w w' : World) (d : TokenFileDescriptor) :
  0 < st_slot_bytes st → valid_chunk st key parent span kind w = (Ret (Some d), w') →
  w_fs w' = w_fs w ∧ td_key d = key ∧ td_parent d = parent ∧ td_span_tokens d = span ∧ td_kind d = kind ∧
  standing st (w_fs w) d ∧ authentic st (w_fs w) d.
Proof. apply valid_chunk_Ret. Qed.

(** The walk over parents ends: from a standing file, one step for each chunk of its
    span is enough, and allowing more steps changes neither its result nor its effects. *)
Theorem chain_walk_terminates `{Sha, Uuid, JsonLoads} (st : TokenFileStore) (d : TokenFileDescriptor)
    (objects : list TokenFileDescriptor) (more : nat) (w : World) :
  0 < st_chunk_tokens st → standing st (w_fs w) d →
  let fuel := Z.to_nat (td_span_tokens d / st_chunk_tokens st) in
  chain_walk (fuel + more) st d None objects w = chain_walk fuel st d None objects w.
Proof.
  intros Hc Hd fuel. apply chain_walk_fuel; [done|done|]. cbn. unfold fuel. rewrite Z2Nat.id; [done|].
  destruct (decide (td_kind d = KData)) as [Hk|Hk].
  - destruct (standing_span _ _ _ Hd Hk) as (_ & ? & _). apply Z.div_pos; lia.
  - destruct Hd as [_ (ino & _ & Hp)]. apply parse_file_Ok in Hp as (h & Hf & -> & _).
    cbn. destruct (hf_positive _ _ _ _ _ _ _ _ Hf). apply Z.div_pos; lia.
Qed.

(** a restore reads each descriptor of its chain once and in order: the planned
    transfers concatenate to the descriptors, a batch is not empty, has at most 16
    descriptors and fits one slot, and only an object larger than a slot goes alone. *)
Theorem restore_batches_partition (slot : Z) (l : list TokenFileDescriptor) :
  Forall (λ d, 0 ≤ td_byte_length d) l →
  concat (transferred <$> plan_batches (length l) slot l) = l ∧
  Forall (fits slot) (plan_batches (length l) slot l).
Proof. intros Hl. by apply plan_batches_spec. Qed.

(** C25: recovery ends and is complete: one pass for each abandoned temporary is enough
    and more passes change nothing, and after it returns no temporary of the store is
    left. *)
Theorem recovery_complete (n : Z) (more : nat) (w w' : World) :
  recover_loop (length (children (w_fs w) tmp_dir) + more) n w = recover_loop (length (children (w_fs w) tmp_dir)) n w ∧
  (recover w = (Ret n, w') → own_parts (w_fs w') = []).
Proof.
  split; [|apply recover_Ret]. apply recover_loop_fuel, own_parts_children.
Qed.

(** C24: a pinned key stays: while some restore holds the lock offset of a key, evicting it
    changes no file and never reports success, and the handling of corruption leaves its
    name where it is. *)
Theorem pinned_key_stays `{Sha, Uuid, JsonLoads} (st : TokenFileStore) (key : pystr) (w : World) :
  fs_wf (w_fs w) → pinned key w →
  (∀ o w', evict st key w = (o, w') → w_fs w' = w_fs w ∧ o ≠ Ret true) ∧
  names (w_fs (_quarantine_bad st key w).2) !! manifest_path key = names (w_fs w) !! manifest_path key.
Proof.
  intros Hw Hp. split; [|by apply k_quarantine_bad_pinned]. intros o w' He. rewrite evict_pinned in He by done.
  split.
  - pose proof (keeps_fs (exclusive (busy ← pins_busy key; ret false)) w) as Hk. rewrite He in Hk. apply Hk.
    intros I. io_keeps.
  - intros ->. apply exclusive_Ret in He as (w1 & w2 & He & _). apply bind_Ret in He as (? & ? & _ & He).
    by apply ret_Ret in He as [? _].
Qed.

(** one maintenance batch is bounded: it attempts at most four candidates, removes at
    most those, stays within a running quota together with what it leaves of it, reports
    the bytes it freed, and attempts nothing below the trigger when no quota runs. *)
Theorem maintenance_batch_bounds `{Sha, Uuid, JsonLoads} (st : TokenFileStore) (trigger remaining : Z)
    (w w' : World) (r : CapacityBatchReport) :
  maintain_capacity_batch st (VInt trigger) (VInt remaining) w = (Ret (Some r), w') →
  0 < trigger ∧ 0 ≤ remaining ∧ 0 ≤ manifests_removed r ≤ candidates_attempted r ∧ candidates_attempted r ≤ 4 ∧
  objects_removed r = manifests_removed r ∧ bytes_reclaimed r = Z.max 0 (bytes_before r - bytes_after r) ∧
  0 ≤ candidates_remaining r ∧
  (0 < remaining → candidates_attempted r + candidates_remaining r ≤ remaining) ∧
  (remaining = 0 → bytes_before r < trigger → candidates_attempted r = 0 ∧ candidates_remaining r = 0).
Proof. apply maintain_bounds. Qed.

(** The lock offset of a key is an even number whose byte lies in the range of a signed
    64-bit file offset. *)
Theorem lease_offset_range (digest : pystr) (off : Z) :
  lease_offset digest = Ok off → 0 ≤ off ∧ off + 1 < 2 ^ 63 ∧ Z.even off = true.
Proof.
  unfold lease_offset, raise. destruct (is_digest digest); [|done]. intros [= <-].
  set (x := foldl _ _ _). change (Z.shiftl 1 62 - 1) with (Z.ones 62). rewrite Z.land_ones by lia.
  pose proof (Z.mod_pos_bound x (2 ^ 62) ltac:(lia)). split_and!; [lia|lia|].
  rewrite Z.even_mul. by rewrite orb_true_r.
Qed.
