(* ===== verification/StoreRoot.v ===== *)
(** * Opening a store ([RankStore._prepare_root], [TokenFileStore.__init__])

    The root is a directory that exists; the checks of its own path are outside the
    model.  Preparing it adopts an empty directory or one that carries the root marker,
    makes the managed directories and the lock files, and reasserts their durability on
    every open; the store then binds the root to its identity. *)
From S2P Require Import Prelude Dict Bytes Utf8 Config Json Hma Manifest Io RankStore TokenFiles TokenMover.

Definition ROOT_MARKER_SCHEMA : pystr := lit "spoolcache-root/v1".
Definition root_marker : path := [lit ".spoolcache-root"].
Definition objects_dir : path := [lit "objects"].
Definition format_path : path := lit "token-format.json" :: state_dir.
Definition root_json : json := JObj [(lit "schema", JStr ROOT_MARKER_SCHEMA)].

(** [mmap.PAGESIZE], of the pool's slots *)
Definition PAGESIZE : Z := 4096.

(** ** Equality of a decoded dictionary with one of scalars

    Python compares booleans as integers. *)
Definition py_scalar (v : json) : json := match v with JBool b => JInt (if b then 1 else 0) | v => v end.

Definition same_scalar (a b : json) : bool :=
  match py_scalar a, py_scalar b with
  | JNull, JNull => true
  | JInt x, JInt y => x =? y
  | JStr s, JStr t => bool_decide (s = t)
  | _, _ => false
  end.

Definition same_dict (a b : json) : bool :=
  match a, b with
  | JObj l, JObj m =>
      bool_decide (list_to_set l.*1 =@{gset pystr} list_to_set m.*1) &&
      forallb (λ p : pystr * json, match od_get p.1 l with Some v => same_scalar v p.2 | None => false end) m
  | _, _ => false
  end.

(** ** Preparing the root *)

(** [path.is_dir()], of a path that is no link *)
Definition is_dir (p : path) : IO bool :=
  or_else FileNotFoundError false (n ← sys_lstat p; ret (bool_decide (n = NDir))).

(** [mkdir], then the checks, then the parent's receipt. *)
Definition managed_directory (p : path) : IO unit :=
  created ← or_else FileExistsError false (_ ← sys_mkdir p; ret true);
  link ← is_symlink p;
  _ ← guard_io link ValueError "SpoolCache managed directory is a symlink";
  dir ← is_dir p;
  _ ← guard_io (negb dir) ValueError "SpoolCache managed path is not a directory";
  if (created : bool) then sys_fsync_dir (tail p) else ret tt.

(** The maintenance lock and the owner lock. *)
Definition durable_lock (p : path) : IO unit :=
  link ← is_symlink p;
  _ ← guard_io link ValueError "SpoolCache lock must not be a symlink";
  present ← sys_exists p;
  _ ← (if (present : bool) then ret tt else _ ← sys_create p; sys_fsync_dir (tail p));
  n ← sys_lstat p;
  match n with
  | NFile _ => ret tt
  | _ => throw ValueError "SpoolCache lock is not a regular file"
  end.

(** The namespace lock and the lock of the leases. *)
Definition shared_lock (p : path) : IO unit :=
  created ← or_else FileExistsError false (_ ← sys_create p; ret true);
  if (created : bool) then ret tt else open_regular p.

Section root.
Context `{Uuid, JsonLoads}.

(** Adopt the root: it is empty, or it carries the marker. *)
Definition adopt_root : IO unit :=
  entries ← sys_scandir [];
  let has_existing := existsb (λ n, negb (bool_decide ([n] = root_marker))) entries in
  link ← is_symlink root_marker;
  _ ← guard_io link ValueError "SpoolCache root marker must not be a symlink";
  present ← sys_exists root_marker;
  _ ← guard_io (negb present && has_existing) ValueError "refusing to adopt a non-empty unowned cache root";
  present ← sys_exists root_marker;
  if (present : bool) then
    payload ← try_with (_read_small_json root_marker 4096)
                (λ e, if state_error e then Some (throw ValueError "SpoolCache root marker is invalid") else None);
    guard_io (negb (same_dict payload root_json)) ValueError "SpoolCache root marker schema is unsupported"
  else
    encoded ← lift (canonical_json root_json);
    _atomic_small_write root_marker (encoded ++ newline).

Definition _prepare_root : IO unit :=
  _ ← adopt_root;
  _ ← for_each [objects_dir; manifests_dir; quarantine_dir; tmp_dir; state_dir] managed_directory;
  _ ← sys_fsync_dir [];
  _ ← durable_lock maintenance_lock;
  _ ← for_each [namespace_lock; object_reads_lock] shared_lock;
  _ ← sys_fsync_dir state_dir;
  _ ← durable_lock inventory_owner_lock;
  _ ← managed_directory withdrawn_dir;
  _ ← sys_fsync_dir state_dir;
  exclusive _validate_inventory_withdrawal_namespace.

(** ** The identity of the root *)
Record Expected := {
  expected_deployment_digest : pyval;
  expected_rank_digest : pyval;
  expected_rank : pyval;
  expected_topology_digest : pyval;
  expected_profile : pyval;
  expected_layout_digest : pyval
}.

(** A digest, or nothing. *)
Definition digest_or_none (v : pyval) : bool :=
  match v with VNone => true | VStr s => is_digest s | _ => false end.

(** The checks of [RankStore.__init__]. *)
Definition check_expected (x : Expected) : result unit :=
  _ ← raise_if (negb (digest_or_none (expected_deployment_digest x))) ValueError "expected deployment digest is malformed";
  _ ← raise_if (negb (digest_or_none (expected_rank_digest x))) ValueError "expected rank digest is malformed";
  _ ← raise_if (negb (digest_or_none (expected_topology_digest x))) ValueError "expected topology digest is malformed";
  _ ← raise_if (negb (digest_or_none (expected_layout_digest x))) ValueError "expected layout digest is malformed";
  _ ← raise_if (match expected_rank x with VNone => false | VInt z => z <? 0 | _ => true end) ValueError
        "expected physical rank is malformed";
  raise_if (match expected_profile x with
            | VNone => false
            | VStr s => (Z.of_nat (length s) =? 0) || (128 <? Z.of_nat (length s))
            | _ => true
            end) ValueError "expected profile is malformed".

(** A checked value in the binding. *)
Definition bound_value (v : pyval) : json :=
  match v with VStr s => JStr s | VInt z => JInt z | _ => JNull end.

(** [_binding] *)
Definition binding_of (x : Expected) (chunk_tokens slot_bytes : Z) : json :=
  JObj [(lit "deployment_digest", bound_value (expected_deployment_digest x));
        (lit "rank_digest", bound_value (expected_rank_digest x));
        (lit "rank", bound_value (expected_rank x));
        (lit "topology_digest", bound_value (expected_topology_digest x));
        (lit "profile", bound_value (expected_profile x));
        (lit "layout_digest", bound_value (expected_layout_digest x));
        (lit "storage_schema", JStr TOKEN_FILE_SCHEMA);
        (lit "chunk_tokens", JInt chunk_tokens);
        (lit "transfer_bytes", JInt slot_bytes)].

Definition identity_values (x : Expected) : list pyval :=
  [expected_deployment_digest x; expected_rank_digest x; expected_rank x; expected_topology_digest x;
   expected_profile x; expected_layout_digest x].

Definition is_value (v : pyval) (s : pystr) : bool :=
  match v with VStr t => bool_decide (t = s) | _ => false end.

(** [_initialize_payload_backend] *)
Definition _initialize_payload_backend (binding : json) : IO unit :=
  present ← sys_exists format_path;
  if (present : bool) then
    payload ← _read_small_json format_path 4096;
    guard_io (negb (same_dict payload binding)) ValueError "token file root identity differs"
  else
    _ ← for_each [manifests_dir; objects_dir] (λ d,
          l ← sys_scandir d;
          guard_io (negb (bool_decide (l = []))) ValueError "token files cannot adopt an existing data namespace");
    encoded ← lift (canonical_json binding);
    _atomic_small_write format_path encoded.

(** [TokenFileStore.__init__], over [RankStore.__init__]; the object is the [id]-th. *)
Definition open_store `{Sha} (id : nat) (layout : HMALayout) (slot_bytes slot_count : Z) (x : Expected)
    : IO TokenFileStore :=
  _ ← lift (validate_layout layout slot_bytes);
  _ ← guard_io (existsb (λ v, match v with VNone => true | _ => false end) (identity_values x)) ValueError
        "token files require a complete rank identity";
  _ ← guard_io (negb (is_value (expected_profile x) VLLM_RUNTIME_KV_PROFILE)) ValueError
        "token file layout binding differs";
  layout_id ← lift (layout_digest layout);
  _ ← guard_io (negb (is_value (expected_layout_digest x) layout_id)) ValueError "token file layout binding differs";
  _ ← guard_io (negb ((0 <? slot_bytes) && (slot_bytes <=? STAGING_SLOT_BYTES)) || negb (slot_count =? 1)) ValueError
        "token file CPU staging is one bounded slot";
  chunk_tokens ← lift (aligned_chunk_tokens (VInt (alignment_tokens layout)));
  let binding := binding_of x chunk_tokens slot_bytes in
  _ ← mod_proc (λ _, MkProc 0 false false 0 2 [] []);
  _ ← lift (check_expected x);
  _ ← _prepare_root;
  _ ← guard_io ((slot_bytes <=? 0) || negb (slot_bytes mod PAGESIZE =? 0)) ValueError
        "slot_bytes must be a positive page multiple";
  _ ← exclusive (
        _ ← open_regular object_reads_lock;
        _ ← pins_busy (replicate 64 48);
        _initialize_payload_backend binding);
  _ ← recover;
  ret (TokenStore id layout chunk_tokens binding slot_bytes (Hooks false false)).
End root.
