(* ===== verification/Pools.v ===== *)
(** * Buffer pools (src/spoolcache/buffers.py; [PinnedTensorPool] of src/spoolcache/gpu.py)

    Two pools of a fixed number of slots share one protocol: a thread looks whether the
    pool is open, takes a slot from the queue, enters under the lock, uses the slot, leaves
    under the lock and puts the slot back.  Every one of these is a step, and the steps of
    any number of threads and of [close] interleave freely.  The pools differ in the order
    of the queue, in how they close, and in the CUDA event that guards a pinned slot. *)
From S2P Require Import Prelude Bytes Io StoreRoot.

(** ** One buffer *)
Definition put_bytes (at_ : Z) (b m : list byte) : list byte :=
  take (Z.to_nat at_) m ++ b ++ drop (Z.to_nat at_ + length b) m.

(** [zero]: at most a mebibyte at a time, one unit of fuel for each byte. *)
Fixpoint zero_loop (fuel : nat) (width cursor stop : Z) (m : list byte) : list byte :=
  match fuel with
  | O => m
  | S fuel =>
      if cursor <? stop then
        let count := Z.min width (stop - cursor) in
        zero_loop fuel width (cursor + count) stop (put_bytes cursor (replicate (Z.to_nat count) x00) m)
      else m
  end.
Definition zero (start : Z) (end_ : option Z) (m : list byte) : result (list byte) :=
  let size := Z.of_nat (length m) in
  let stop := default size end_ in
  _ ← raise_if (negb ((0 <=? start) && (start <=? stop) && (stop <=? size))) ValueError "buffer zero range is invalid";
  Ok (zero_loop (Z.to_nat (stop - start)) (Z.min (1024 * 1024) (stop - start)) start stop m).

(** ** The queue of free slots

    The next slot to be taken comes first. *)
Class Queue := {
  q_put : nat → list nat → list nat;
  q_put_perm : ∀ s l, q_put s l ≡ₚ s :: l
}.
Definition lifo : Queue := {| q_put := cons; q_put_perm := λ s l, Permutation_refl (s :: l) |}.
Definition fifo : Queue := {| q_put := λ s l, l ++ [s]; q_put_perm := λ s l, Permutation_sym (Permutation_cons_append l s) |}.

(** ** The pool *)
Record Pool := MkPool {
  pl_count : nat;               (* [slot_count], the capacity of the queue *)
  pl_available : list nat;
  pl_borrowed : Z;
  pl_closed : bool;
  pl_unmapped : gset nat        (* slots whose memory was given back *)
}.

Definition set_available (l : list nat) (p : Pool) : Pool := MkPool (pl_count p) l (pl_borrowed p) (pl_closed p) (pl_unmapped p).
Definition set_borrowed (n : Z) (p : Pool) : Pool := MkPool (pl_count p) (pl_available p) n (pl_closed p) (pl_unmapped p).
Definition set_closed (p : Pool) : Pool := MkPool (pl_count p) (pl_available p) (pl_borrowed p) true (pl_unmapped p).
Definition unmap (s : nat) (p : Pool) : Pool :=
  MkPool (pl_count p) (pl_available p) (pl_borrowed p) (pl_closed p) ({[s]} ∪ pl_unmapped p).

Section pool.
Context `{Queue}.

(** [slot_bytes] must be a multiple of [page]: the page size, or 4096 for pinned slots. *)
Definition pool_init (page slot_bytes slot_count : Z) : result Pool :=
  _ ← raise_if ((slot_bytes <=? 0) || negb (slot_bytes mod page =? 0)) ValueError "slot_bytes must be a positive page multiple";
  _ ← raise_if (slot_count <=? 0) ValueError "slot_count must be positive";
  let n := Z.to_nat slot_count in
  Ok (MkPool n (foldl (λ q s, q_put s q) [] (seq 0 n)) 0 false ∅).

(** [acquire], by its critical sections. *)
Definition check_open (p : Pool) : result unit := raise_if (pl_closed p) RuntimeError "buffer pool is closed".

Definition take_slot (p : Pool) : result (nat * Pool) :=
  match pl_available p with
  | [] => raise StoreBusyError "no aligned I/O buffer is available"
  | s :: l => Ok (s, set_available l p)
  end.

(** [put_nowait]: a full queue raises [queue.Full]. *)
Definition put_nowait (s : nat) (p : Pool) : result Pool :=
  if (length (pl_available p) <? pl_count p)%nat then Ok (set_available (q_put s (pl_available p)) p)
  else raise RuntimeError "queue.Full".

Definition enter (s : nat) (p : Pool) : result unit * Pool :=
  if pl_closed p then
    match put_nowait s p with
    | Ok p => (raise RuntimeError "buffer pool closed during acquisition", p)
    | Raise e => (Raise e, p)
    end
  else (Ok tt, set_borrowed (pl_borrowed p + 1) p).

Definition leave (p : Pool) : Pool := set_borrowed (pl_borrowed p - 1) p.

(** The critical section of [AlignedBufferPool.close]: [true] when the slots are to be
    closed, which happens after it. *)
Definition aligned_close (p : Pool) : result bool * Pool :=
  if negb (pl_borrowed p =? 0) then (raise RuntimeError "cannot close a pool with borrowed buffers", p)
  else if pl_closed p then (Ok false, p)
  else (Ok true, set_closed p).

(** ** Threads *)
Inductive phase :=
  | Outside
  | Checked               (* the pool was open *)
  | Taken (s : nat)       (* out of the queue, not yet counted *)
  | Entered (s : nat)     (* counted *)
  | Using (s : nat)       (* in the body of the [with] *)
  | Leaving (s : nat).    (* no longer counted, not yet back in the queue *)

(** What one thread does in the pool; [Entered] is handled by each kind of pool. *)
Inductive protocol_step : Pool * list phase → Pool * list phase → Prop :=
  | ps_check p ts i : ts !! i = Some Outside → check_open p = Ok tt → protocol_step (p, ts) (p, <[i := Checked]> ts)
  | ps_take p ts i s p' : ts !! i = Some Checked → take_slot p = Ok (s, p') → protocol_step (p, ts) (p', <[i := Taken s]> ts)
  | ps_busy p ts i e : ts !! i = Some Checked → take_slot p = Raise e → protocol_step (p, ts) (p, <[i := Outside]> ts)
  | ps_enter p ts i s p' : ts !! i = Some (Taken s) → enter s p = (Ok tt, p') → protocol_step (p, ts) (p', <[i := Entered s]> ts)
  | ps_late p ts i s e p' : ts !! i = Some (Taken s) → enter s p = (Raise e, p') → protocol_step (p, ts) (p', <[i := Outside]> ts)
  | ps_leave p ts i s : ts !! i = Some (Using s) → protocol_step (p, ts) (leave p, <[i := Leaving s]> ts)
  | ps_put p ts i s p' : ts !! i = Some (Leaving s) → put_nowait s p = Ok p' → protocol_step (p, ts) (p', <[i := Outside]> ts)
  | ps_full p ts i s e : ts !! i = Some (Leaving s) → put_nowait s p = Raise e → protocol_step (p, ts) (p, <[i := Outside]> ts).

(** The aligned pool; [closing] is set while [close] gives the slots back. *)
Inductive aligned_step : Pool * list phase → Pool * list phase → Prop :=
  | al_protocol x y : protocol_step x y → aligned_step x y
  | al_yield p ts i s : ts !! i = Some (Entered s) → aligned_step (p, ts) (p, <[i := Using s]> ts)
  | al_close p ts r p' : aligned_close p = (r, p') → aligned_step (p, ts) (p', ts)
  | al_unmap p ts s : pl_closed p = true → aligned_step (p, ts) (unmap s p, ts).

(** ** Pinned slots *)
Record Cuda := MkCuda { cu_pending : gset nat; cu_record_failed : gset nat }.

Definition wait_until_reusable (s : nat) (c : Cuda) : result unit * Cuda :=
  if decide (s ∈ cu_record_failed c)
  then (raise RuntimeError "CUDA staging event recording failed; terminal drain required", c)
  else (Ok tt, MkCuda (cu_pending c ∖ {[s]}) (cu_record_failed c)).

(** [recorded]: the event was recorded. *)
Definition record_use (recorded : bool) (s : nat) (c : Cuda) : result unit * Cuda :=
  if decide (s ∈ cu_pending c) then (raise RuntimeError "pinned staging slot is still owned by CUDA", c)
  else if recorded then (Ok tt, MkCuda ({[s]} ∪ cu_pending c) (cu_record_failed c ∖ {[s]}))
  else (raise RuntimeError "record", MkCuda ({[s]} ∪ cu_pending c) ({[s]} ∪ cu_record_failed c)).

(** [unregistered s]: CUDA let go of the memory of [s]. *)
Definition slot_close (unregistered : nat → bool) (s : nat) (x : Pool * Cuda) : result unit * (Pool * Cuda) :=
  let (p, c) := x in
  if decide (s ∈ pl_unmapped p) then (Ok tt, x)
  else
    match wait_until_reusable s c with
    | (Raise e, c) => (Raise e, (p, c))
    | (Ok _, c) =>
        if unregistered s then (Ok tt, (unmap s p, c)) else (raise RuntimeError "CUDA host unregister failed", (p, c))
    end.

Fixpoint close_slots (unregistered : nat → bool) (l : list nat) (x : Pool * Cuda) : result unit * (Pool * Cuda) :=
  match l with
  | [] => (Ok tt, x)
  | s :: l => match slot_close unregistered s x with
              | (Ok _, x) => close_slots unregistered l x
              | r => r
              end
  end.

(** [PinnedTensorPool.close], all in one critical section. *)
Definition pinned_close (unregistered : nat → bool) (x : Pool * Cuda) : result unit * (Pool * Cuda) :=
  if negb (pl_borrowed x.1 =? 0) then (raise RuntimeError "cannot close a pool with borrowed pinned tensors", x)
  else if pl_closed x.1 then (Ok tt, x)
  else
    match close_slots unregistered (seq 0 (pl_count x.1)) x with
    | (Ok _, (p, c)) => (Ok tt, (set_closed p, c))
    | r => r
    end.

Definition mark_stream_synchronized (x : Pool * Cuda) : result unit * (Pool * Cuda) :=
  if negb (pl_borrowed x.1 =? 0) then (raise RuntimeError "cannot clear events while a slot is borrowed", x)
  else (Ok tt, (x.1, MkCuda ∅ ∅)).

(** The pinned pool; the last component tells whether a [close] has raised on a slot. *)
Definition pinned_state : Type := Pool * Cuda * list phase * bool.
Inductive pinned_step : pinned_state → pinned_state → Prop :=
  | pi_protocol p c ts b p' ts' : protocol_step (p, ts) (p', ts') → pinned_step (p, c, ts, b) (p', c, ts', b)
  | pi_yield p c ts b i s c' : ts !! i = Some (Entered s) → wait_until_reusable s c = (Ok tt, c') →
      pinned_step (p, c, ts, b) (p, c', <[i := Using s]> ts, b)
  | pi_failed p c ts b i s e c' : ts !! i = Some (Entered s) → wait_until_reusable s c = (Raise e, c') →
      pinned_step (p, c, ts, b) (leave p, c', <[i := Leaving s]> ts, b)
  | pi_record p c ts b i s recorded r c' : ts !! i = Some (Using s) → record_use recorded s c = (r, c') →
      pinned_step (p, c, ts, b) (p, c', ts, b)
  | pi_close p c ts b unregistered r p' c' : pinned_close unregistered (p, c) = (r, (p', c')) →
      pinned_step (p, c, ts, b) (p', c', ts, b || negb (is_ok r))
  | pi_synchronized p c ts b r p' c' : mark_stream_synchronized (p, c) = (r, (p', c')) →
      pinned_step (p, c, ts, b) (p', c', ts, b).
End pool.

(** ** Who has a slot *)
Definition slot_of (ph : phase) : list nat :=
  match ph with Taken s | Entered s | Using s | Leaving s => [s] | _ => [] end.
Definition counted_of (ph : phase) : list nat := match ph with Entered s | Using s => [s] | _ => [] end.

Record pool_ok (p : Pool) (ts : list phase) : Prop := {
  po_slots : pl_available p ++ (ts ≫= slot_of) ≡ₚ seq 0 (pl_count p);
  po_borrowed : pl_borrowed p = Z.of_nat (length (ts ≫= counted_of));
  po_closed : pl_closed p = true → pl_borrowed p = 0
}.

(** A thread's share, and the others'. *)
Lemma share (f : phase → list nat) ts i ph : ts !! i = Some ph →
  ∃ rest, (ts ≫= f) ≡ₚ f ph ++ rest ∧ ∀ ph', (<[i := ph']> ts ≫= f) ≡ₚ f ph' ++ rest.
Proof.
  intros Hi. exists ((take i ts ≫= f) ++ (drop (S i) ts ≫= f)).
  assert (i < length ts)%nat as Hlt by (by eapply lookup_lt_Some). split.
  - rewrite <-(take_drop_middle ts i ph Hi) at 1. rewrite bind_app, bind_cons. rewrite !(assoc_L (++)).
    apply Permutation_app_tail, Permutation_app_comm.
  - intros ph'. rewrite insert_take_drop by done. rewrite bind_app, bind_cons. rewrite !(assoc_L (++)).
    apply Permutation_app_tail, Permutation_app_comm.
Qed.

Section invariant.
Context `{Queue}.

Lemma put_fits p ts i s : pool_ok p ts → ts !! i = Some (Leaving s) ∨ ts !! i = Some (Taken s) →
  put_nowait s p = Ok (set_available (q_put s (pl_available p)) p).
Proof.
  intros [Hs _ _] Hi. unfold put_nowait. rewrite (proj2 (Nat.ltb_lt _ _)); [done|].
  assert (∃ ph, ts !! i = Some ph ∧ slot_of ph = [s]) as (ph & Hph & E) by (destruct Hi; eauto).
  destruct (share slot_of ts i ph Hph) as (rest & Hr & _). apply Permutation_length in Hs.
  rewrite length_app, (Permutation_length Hr), E, length_seq in Hs. cbn in Hs. lia.
Qed.

(** The count of the slots that a change of one phase makes. *)
Lemma recount ts i ph ph' : ts !! i = Some ph →
  (length (<[i := ph']> ts ≫= counted_of) + length (counted_of ph) = length (ts ≫= counted_of) + length (counted_of ph'))%nat.
Proof.
  intros Hi. destruct (share counted_of ts i ph Hi) as (rest & Hr & Hr'). rewrite (Permutation_length Hr), (Permutation_length (Hr' ph')), !length_app. lia.
Qed.

Lemma move_slots (avail avail' : list nat) ts i ph ph' n : ts !! i = Some ph →
  avail ++ slot_of ph ≡ₚ avail' ++ slot_of ph' →
  avail ++ (ts ≫= slot_of) ≡ₚ seq 0 n → avail' ++ (<[i := ph']> ts ≫= slot_of) ≡ₚ seq 0 n.
Proof.
  intros Hi Hm Hs. destruct (share slot_of ts i ph Hi) as (rest & Hr & Hr'). rewrite (Hr' ph'), (assoc_L (++)), <-Hm, <-(assoc_L (++)).
  by rewrite <-Hr.
Qed.

Lemma phase_ok p p' ts i ph ph' : pool_ok p ts → ts !! i = Some ph →
  pl_count p' = pl_count p → pl_available p ++ slot_of ph ≡ₚ pl_available p' ++ slot_of ph' →
  pl_borrowed p' + Z.of_nat (length (counted_of ph)) = pl_borrowed p + Z.of_nat (length (counted_of ph')) →
  (pl_closed p' = true → pl_closed p = true ∧ pl_borrowed p' ≤ pl_borrowed p) → pool_ok p' (<[i := ph']> ts).
Proof.
  intros [Hs Hb Hc] Hi Hn Hm Hbor Hcl. pose proof (recount ts i ph ph' Hi) as Hr. split.
  - rewrite Hn. by eapply move_slots.
  - lia.
  - intros [Hcp Hle]%Hcl. specialize (Hc Hcp). lia.
Qed.

Ltac move_phase p ts i ph :=
  apply (phase_ok p _ ts i ph); cbn; rewrite ?app_nil_r; try done; try lia; try (intros ?; split; [done|lia]).

Lemma protocol_ok p ts p' ts' : pool_ok p ts → protocol_step (p, ts) (p', ts') → pool_ok p' ts'.
Proof.
  intros Hok Hstep. pose proof Hok as [Hs Hb Hc]. inversion Hstep as [? ? i Hi Hr|? ? i s ? Hi Hr|? ? i e Hi Hr|? ? i s ? Hi Hr|? ? i s e ? Hi Hr|? ? i s Hi|? ? i s ? Hi Hr|? ? i s e Hi Hr]; subst.
  - move_phase p' ts i Outside.
  - unfold take_slot in Hr. destruct (pl_available p) as [|x l] eqn:Ea; [done|]. injection Hr as -> <-.
    move_phase p ts i Checked. rewrite Ea. apply Permutation_cons_append.
  - move_phase p' ts i Checked.
  - unfold enter in Hr. destruct (pl_closed p) eqn:Ecl; [destruct (put_nowait s p); done|]. injection Hr as <-.
    move_phase p ts i (Taken s). by rewrite Ecl.
  - unfold enter in Hr. destruct (pl_closed p) eqn:Ecl; [|done]. rewrite (put_fits p ts i s) in Hr by auto. injection Hr as _ <-.
    move_phase p ts i (Taken s). rewrite q_put_perm. symmetry. apply Permutation_cons_append.
  - move_phase p ts i (Using s).
  - rewrite (put_fits p ts i s) in Hr by auto. injection Hr as <-. move_phase p ts i (Leaving s).
    rewrite q_put_perm. symmetry. apply Permutation_cons_append.
  - by rewrite (put_fits p' ts i s) in Hr by auto.
Qed.

Lemma init_ok page slot_bytes slot_count p threads :
  pool_init page slot_bytes slot_count = Ok p → pool_ok p (replicate threads Outside).
Proof.
  unfold pool_init. intros (? & _ & (? & _ & <-%Ok_inj)%result_bind_Ok)%result_bind_Ok.
  assert (∀ f : phase → list nat, f Outside = [] → (replicate threads Outside ≫= f) = []) as Hnone.
  { intros f Hf. induction threads as [|n IH]; [done|]. cbn. by rewrite Hf, IH. }
  split; cbn; [|by rewrite Hnone|done]. rewrite Hnone, app_nil_r by done.
  assert (∀ l q, foldl (λ q s, q_put s q) q l ≡ₚ q ++ l) as Hall.
  { intros l. induction l as [|s l IH]; intros q; cbn; [by rewrite app_nil_r|]. rewrite IH, q_put_perm.
    apply Permutation_middle. }
  by rewrite Hall.
Qed.

(** Neither pool ever lends a slot twice. *)
Lemma aligned_ok p ts p' ts' : pool_ok p ts → aligned_step (p, ts) (p', ts') → pool_ok p' ts'.
Proof.
  intros Hok Hstep. pose proof Hok as [Hs Hb Hc].
  inversion Hstep as [? ? Hp|? ? i s Hi|? ? r ? Hr|? ? s Hcl]; subst.
  - by eapply protocol_ok.
  - move_phase p' ts i (Entered s).
  - unfold aligned_close in Hr. destruct (pl_borrowed p =? 0) eqn:E; cbn in Hr; [|by injection Hr as _ <-].
    apply Z.eqb_eq in E. destruct (pl_closed p); injection Hr as _ <-; [done|]. by split.
  - by split.
Qed.

Lemma close_slots_pool unregistered l x r x' : close_slots unregistered l x = (r, x') →
  pl_count x'.1 = pl_count x.1 ∧ pl_available x'.1 = pl_available x.1 ∧ pl_borrowed x'.1 = pl_borrowed x.1 ∧
  pl_closed x'.1 = pl_closed x.1.
Proof.
  revert x. induction l as [|s l IH]; intros x Hr; [by injection Hr as _ <-|]. cbn in Hr.
  assert (∀ r1 x1, slot_close unregistered s x = (r1, x1) → pl_count x1.1 = pl_count x.1 ∧ pl_available x1.1 = pl_available x.1 ∧
    pl_borrowed x1.1 = pl_borrowed x.1 ∧ pl_closed x1.1 = pl_closed x.1) as Hone.
  { intros r1 x1 H1. destruct x as [p c]. cbn in H1. case_decide; [by injection H1 as _ <-|].
    destruct (wait_until_reusable s c) as [[?|?] c']; [case_match|]; by injection H1 as _ <-. }
  destruct (slot_close unregistered s x) as [[?|e] x1] eqn:E; destruct (Hone _ _ eq_refl) as (H1 & H2 & H3 & H4).
  - apply IH in Hr as (-> & -> & -> & ->). done.
  - by injection Hr as _ <-.
Qed.

(** The pinned pool, while no [close] has raised, keeps the memory of the slots. *)
Definition pinned_ok (x : pinned_state) : Prop :=
  let '(p, c, ts, raised) := x in pool_ok p ts ∧ (raised = false → pl_closed p = false → pl_unmapped p = ∅).

Lemma protocol_unmapped p ts p' ts' : protocol_step (p, ts) (p', ts') → pl_unmapped p' = pl_unmapped p ∧ pl_closed p' = pl_closed p ∧ pl_count p' = pl_count p.
Proof.
  inversion 1 as [| ? ? i s ? Hi Hr| |? ? i s ? Hi Hr|? ? i s e ? Hi Hr| |? ? i s ? Hi Hr|]; subst; try done;
    unfold take_slot, enter, put_nowait in Hr; repeat case_match; simplify_eq; done.
Qed.

Lemma pinned_step_ok x y : pinned_ok x → pinned_step x y → pinned_ok y.
Proof.
  intros Hok Hstep. destruct Hstep as [p c ts b p' ts' Hp|p c ts b i s c' Hi Hr|p c ts b i s e c' Hi Hr|p c ts b i s rec r c' Hi Hr
    |p c ts b un r p' c' Hr|p c ts b r p' c' Hr]; destruct Hok as [Hok Hu]; pose proof Hok as [Hs Hb Hc].
  - split; [by eapply protocol_ok|]. apply protocol_unmapped in Hp as (-> & -> & _). done.
  - split; [move_phase p ts i (Entered s)|done].
  - split; [move_phase p ts i (Entered s)|done].
  - done.
  - unfold pinned_close in Hr. cbn [fst] in Hr. destruct (pl_borrowed p =? 0) eqn:E; cbn [negb] in Hr.
    2:{ injection Hr as <- <- <-. split; [done|]. by rewrite orb_true_r. }
    apply Z.eqb_eq in E. destruct (pl_closed p) eqn:Ecl; [injection Hr as <- <- <-; split; [done|intros _ Hx; congruence]|].
    destruct (close_slots un (seq 0 (pl_count p)) (p, c)) as [r1 [p1 c1]] eqn:Ec.
    destruct (close_slots_pool _ _ _ _ _ Ec) as (H1 & H2 & H3 & H4). cbn in *. destruct r1; injection Hr as <- <- <-.
    + split; [|done]. split; cbn; [by rewrite H1, H2|by rewrite H3|intros _; lia].
    + split; [|by rewrite orb_true_r]. split; [by rewrite H1, H2|by rewrite H3|]. rewrite H4. congruence.
  - unfold mark_stream_synchronized in Hr. case_match; injection Hr as _ <- _; done.
Qed.

(** The slots in hands are apart, and nobody in the body of the [with] is uncounted. *)
Lemma pool_ok_apart p ts i j s t : pool_ok p ts → (∃ a, ts !! i = Some a ∧ slot_of a = [s]) → (∃ b, ts !! j = Some b ∧ slot_of b = [t]) →
  i ≠ j → s ≠ t ∧ s ∉ pl_available p ∧ (s < pl_count p)%nat.
Proof.
  intros [Hs _ _] (a & Hi & Ea) (b & Hj & Eb) Hne.
  destruct (share slot_of ts i a Hi) as (rest & Hr & Hr'). rewrite Ea in Hr.
  pose proof (NoDup_seq 0 (pl_count p)) as Hnd. rewrite <-Hs, Hr in Hnd. apply NoDup_app in Hnd as (_ & Hd & [Hn _]%NoDup_cons).
  assert (t ∈ rest) as Ht.
  { specialize (Hr' Outside). cbn in Hr'. rewrite <-Hr'. apply list_elem_of_bind. exists b. rewrite Eb. split; [by left|].
    apply list_elem_of_lookup. exists j. by rewrite list_lookup_insert_ne. }
  split; [by intros ->|]. split; [intros Hin; apply (Hd s Hin); by left|].
  assert (s ∈ seq 0 (pl_count p)) as Hin%elem_of_seq; [|lia]. rewrite <-Hs, Hr. apply elem_of_app. right. by left.
Qed.

Lemma pool_ok_open p ts i s : pool_ok p ts → ts !! i = Some (Using s) → pl_closed p = false.
Proof.
  intros [_ Hb Hc] Hi. destruct (pl_closed p); [|done]. specialize (Hc eq_refl).
  destruct (share counted_of ts i (Using s) Hi) as (rest & Hr & _). rewrite (Permutation_length Hr) in Hb. cbn in Hb. lia.
Qed.
End invariant.

(** ** Zeroing *)
Lemma put_bytes_length at_ b m : 0 ≤ at_ → at_ + Z.of_nat (length b) ≤ Z.of_nat (length m) → length (put_bytes at_ b m) = length m.
Proof. intros. unfold put_bytes. rewrite !length_app, length_take, length_drop. lia. Qed.

Lemma zero_loop_spec width : 0 < width → ∀ fuel cursor stop m,
  0 ≤ cursor ≤ stop → stop ≤ Z.of_nat (length m) → stop - cursor ≤ Z.of_nat fuel →
  zero_loop fuel width cursor stop m =
  take (Z.to_nat cursor) m ++ replicate (Z.to_nat (stop - cursor)) x00 ++ drop (Z.to_nat stop) m.
Proof.
  intros Hw fuel. induction fuel as [|fuel IH]; intros cursor stop m Hc Hs Hf; cbn [zero_loop].
  - assert (stop = cursor) as -> by lia. rewrite Z.sub_diag, Z2Nat.inj_0. cbn [replicate app]. by rewrite take_drop.
  - destruct (cursor <? stop) eqn:E; bsimp.
    2:{ assert (stop = cursor) as -> by lia. rewrite Z.sub_diag, Z2Nat.inj_0. cbn [replicate app]. by rewrite take_drop. }
    set (count := Z.min width (stop - cursor)). assert (0 < count ≤ stop - cursor) as Hcount by lia.
    assert (length (put_bytes cursor (replicate (Z.to_nat count) x00) m) = length m) as Hlen
      by (apply put_bytes_length; rewrite ?length_replicate; lia).
    rewrite IH by (rewrite ?Hlen; lia). unfold put_bytes. rewrite length_replicate.
    rewrite take_app, take_take, length_take. rewrite (take_app_le (replicate _ _)) by (rewrite length_replicate; lia).
    rewrite drop_app, length_take. rewrite (drop_ge (take _ m)) by (rewrite length_take; lia). cbn [app].
    rewrite drop_app, length_replicate, (drop_ge (replicate _ _)) by (rewrite length_replicate; lia). cbn [app].
    rewrite drop_drop, take_replicate. rewrite <-(assoc_L (++)).
    f_equal; [f_equal; lia|]. rewrite (assoc_L (++)). f_equal; [rewrite <-replicate_add; f_equal; lia|f_equal; lia].
Qed.

(** [zero] clears exactly the range, or refuses it. *)
Lemma zero_spec start end_ m : let stop := default (Z.of_nat (length m)) end_ in
  zero start end_ m =
  if (0 <=? start) && (start <=? stop) && (stop <=? Z.of_nat (length m))
  then Ok (take (Z.to_nat start) m ++ replicate (Z.to_nat (stop - start)) x00 ++ drop (Z.to_nat stop) m)
  else raise ValueError "buffer zero range is invalid".
Proof.
  cbv zeta. unfold zero. destruct (_ && _) eqn:E; [|done]. cbn. bsimp. set (stop := default _ end_) in *.
  destruct (decide (stop = start)) as [->|Hne].
  { rewrite Z.sub_diag, Z2Nat.inj_0. cbn [replicate app]. by rewrite take_drop. }
  rewrite zero_loop_spec by lia. done.
Qed.

(** ** Properties *)

(** C18: However the threads of an aligned pool and its closing interleave, a slot in use is
    in no other thread's hands nor in the queue, the pool is open and the memory of the slot
    is mapped; putting a slot back never finds the queue full; and once every thread is
    out, all slots are back and none is counted as borrowed. *)
Theorem pool_lends_once `{Queue} (page slot_bytes slot_count : Z) (threads : nat) (p0 p : Pool) (ts : list phase) :
  pool_init page slot_bytes slot_count = Ok p0 → rtc aligned_step (p0, replicate threads Outside) (p, ts) →
  (∀ i s, ts !! i = Some (Using s) → pl_closed p = false ∧ s ∉ pl_unmapped p ∧ s ∉ pl_available p ∧
     ∀ j ph, j ≠ i → ts !! j = Some ph → s ∉ slot_of ph) ∧
  (∀ i s, ts !! i = Some (Leaving s) → is_ok (put_nowait s p) = true) ∧
  (Forall (λ ph, ph = Outside) ts → pl_available p ≡ₚ seq 0 (Z.to_nat slot_count) ∧ pl_borrowed p = 0).
Proof.
  intros Hi Hr.
  assert (pool_ok p ts ∧ (pl_closed p = false → pl_unmapped p = ∅) ∧ pl_count p = Z.to_nat slot_count) as (Hok & Hu & Hn).
  { apply (rtc_ind_r (λ x, pool_ok x.1 x.2 ∧ (pl_closed x.1 = false → pl_unmapped x.1 = ∅) ∧ pl_count x.1 = Z.to_nat slot_count)
             (p0, replicate threads Outside)) in Hr; [done| |].
    - split; [by eapply init_ok|]. unfold pool_init in Hi. by inv_ok.
    - intros [q us] [q' us'] _ Hstep (Hok & Hu & Hn). cbn in *. split; [by eapply aligned_ok|].
      inversion Hstep as [? ? Hp|? ? k s Hk|? ? r ? Hc|? ? s Hc]; subst; [|done| |].
      + by apply protocol_unmapped in Hp as (-> & -> & ->).
      + unfold aligned_close in Hc. repeat case_match; simplify_eq; (split; [first [exact Hu|by cbn|cbn; congruence]|exact Hn]).
      + cbn. split; [congruence|done]. }
  split; [|split].
  - intros i s Hs. pose proof (pool_ok_open p ts i s Hok Hs) as Ho. split; [done|]. split; [rewrite Hu by done; apply not_elem_of_empty|].
    destruct (share slot_of ts i (Using s) Hs) as (rest & Hrest & Hrest').
    pose proof (NoDup_seq 0 (pl_count p)) as Hnd. rewrite <-(po_slots p ts Hok), Hrest in Hnd.
    apply NoDup_app in Hnd as (_ & Hd & [Hns _]%NoDup_cons). split; [intros Hin; apply (Hd s Hin); by left|].
    intros j ph Hne Hj Hin. apply Hns. specialize (Hrest' Outside). cbn in Hrest'. rewrite <-Hrest'.
    apply list_elem_of_bind. exists ph. split; [done|]. apply list_elem_of_lookup. exists j. by rewrite list_lookup_insert_ne.
  - intros i s Hs. rewrite (put_fits p ts i s) by auto. done.
  - intros Hall. assert (∀ f : phase → list nat, f Outside = [] → (ts ≫= f) = []) as Hnone.
    { intros f Hf. clear -Hall Hf. induction Hall as [|ph ts -> _ IH]; [done|]. cbn. by rewrite Hf, IH. }
    pose proof Hok as [Hs Hb _]. rewrite Hnone in Hs, Hb by done. rewrite app_nil_r, Hn in Hs. done.
Qed.

(** ** A pool of two slots *)
Module PoolExamples.
#[local] Existing Instance fifo.

Definition opened : Pool := MkPool 2 [0; 1]%nat 0 false ∅.
Example opens : pool_init PAGESIZE 8192 2 = Ok opened.
Proof. reflexivity. Qed.

(** Both threads are inside when [close] is tried; the second has left. *)
Definition before : Pool := MkPool 2 [] 1 false ∅.
Lemma two_threads : rtc aligned_step (opened, [Outside; Outside]) (before, [Using 0; Leaving 1]).
Proof.
  eapply rtc_l; [apply al_protocol, (ps_check _ _ 0); reflexivity|]. eapply rtc_l; [apply al_protocol, (ps_check _ _ 1); reflexivity|].
  eapply rtc_l; [apply al_protocol, (ps_take _ _ 0); reflexivity|]. eapply rtc_l; [apply al_protocol, (ps_take _ _ 1); reflexivity|].
  eapply rtc_l; [apply al_protocol, (ps_enter _ _ 0 0); reflexivity|]. eapply rtc_l; [apply al_protocol, (ps_enter _ _ 1 1); reflexivity|].
  eapply rtc_l; [apply (al_yield _ _ 0 0); reflexivity|]. eapply rtc_l; [apply (al_yield _ _ 1 1); reflexivity|].
  eapply rtc_l; [eapply al_close; reflexivity|]. eapply rtc_l; [apply al_protocol, (ps_leave _ _ 1 1); reflexivity|]. apply rtc_refl.
Qed.

Lemma pool_lends_once_witness :
  pl_closed before = false ∧ (0 ∉ pl_available before)%nat ∧ is_ok (put_nowait 1 before) = true.
Proof.
  destruct (pool_lends_once PAGESIZE 8192 2 2 opened before [Using 0; Leaving 1] opens two_threads) as (Hu & Hl & _).
  destruct (Hu 0%nat 0%nat eq_refl) as (Hc & _ & Ha & _). split; [exact Hc|]. split; [exact Ha|]. exact (Hl 1%nat 1%nat eq_refl).
Defined.

(** A [close] of the pinned pool that raises on its second slot has given back the first
    one and left the pool open: the next thread is lent a slot without memory. *)
Lemma failed_close_lends_unmapped :
  ∃ p c, rtc pinned_step (opened, MkCuda ∅ ∅, [Outside], false) (p, c, [Using 0], true) ∧
  (0 ∈ pl_unmapped p)%nat ∧ pl_closed p = false.
Proof.
  eexists _, _. split; [|split].
  - eapply rtc_l; [eapply (pi_close _ _ _ _ (λ s, bool_decide (s = 0%nat))); reflexivity|].
    eapply rtc_l; [eapply pi_protocol, (ps_check _ _ 0); reflexivity|]. eapply rtc_l; [eapply pi_protocol, (ps_take _ _ 0); reflexivity|].
    eapply rtc_l; [eapply pi_protocol, (ps_enter _ _ 0 0); reflexivity|]. eapply rtc_l; [apply (pi_yield _ _ _ _ 0 0); reflexivity|]. apply rtc_refl.
  - apply (bool_decide_eq_true_1 _). reflexivity.
  - reflexivity.
Qed.
End PoolExamples.
