(* ===== verification/StoreRootProps.v ===== *)
(** * Properties of opening a store

    Opening leaves the prepared root the other theorems start from, and the binding it
    leaves is permanent: through every later operation, restart and power loss, the
    root opens under the same identity only. *)
From S2P Require Import Prelude Dict Bytes Utf8 Config Json Hma Manifest Io RankStore IoSpec FsInv TokenFiles TokenHeader TokenScrub StoreOps StoreInv StoreSystem StoreFence StoreEpochs TokenMover StoreRoot.

(** ** Names that will be managed *)
Definition named (p : path) (fs : FS) : Prop := names fs !! p = Some NDir.

(** An invariant that leaves the managed names directories. *)
Record root_inv (ok : path → option node → Prop) (scratch : path → Prop) (I : FS → Prop) : Prop := {
  ri_inv : store_inv ok scratch I;
  ri_ok : ∀ p v, base_ok p v → p ≠ format_path → ok p v;
  ri_scratch : ∀ p, base_scratch p → p ≠ format_path → scratch p;
  ri_managed : ∀ p v, ok p v → managed p → v = Some NDir;
  ri_unmanaged : ∀ p, scratch p → ¬ managed p
}.

Lemma named_inv ok scratch I p : root_inv ok scratch I → managed p → root_inv ok scratch (λ fs, I fs ∧ named p fs).
Proof.
  intros [HI Hok Hs Hm Hu] Hp. split; [|done..]. split.
  - intros fs [? _]. by apply (si_wf _ _ _ HI).
  - intros fs q v [Hfs Hn] Hq He. split; [by apply (si_name _ _ _ HI)|]. unfold named, set_name. cbn.
    destruct (decide (q = p)) as [->|Hne]; [rewrite lookup_partial_alter_eq; by eapply Hm|].
    by rewrite lookup_partial_alter_ne.
  - intros fs d [Hfs Hn]. split; [by apply (si_sync _ _ _ HI)|done].
  - intros fs q now [Hfs Hn] Hq. split; [by apply (si_create _ _ _ HI)|]. unfold named, set_name. cbn.
    rewrite lookup_partial_alter_ne; [done|]. intros ->. by eapply Hu.
  - intros fs ino q i [Hfs Hn] Hq Hl. split; [by eapply (si_write _ _ _ HI)|done].
  - intros fs ino i now [Hfs Hn] Hi. split; [by apply (si_utime _ _ _ HI)|done].
  - apply (si_scratch _ _ _ HI).
Qed.

Lemma last_inv ok scratch I p :
  root_inv ok scratch I → managed p → root_inv ok scratch (λ fs, I fs ∧ lasting fs p (Some NDir)).
Proof.
  intros [HI Hok Hs Hm Hu] Hp. split; [|done..]. eapply lasting_inv; [exact HI| |].
  - intros q v Hq. split; [done|]. intros ->. by eapply Hm.
  - intros q Hq. split; [done|]. split; [intros ->; by eapply Hu|]. by apply (si_scratch _ _ _ HI).
Qed.

(** ** Preparing the root *)
Lemma k_is_dir I p : keeps I (is_dir p).
Proof. unfold is_dir. io_keeps. Qed.
#[export] Hint Resolve k_is_dir k_is_symlink : io_keep.

Lemma t_is_dir I p : triple I (is_dir p) (λ b fs, (b = true → live fs p = Some NDir) ∧ I fs) I.
Proof.
  intros w Hw. pose proof (k_is_dir I p w Hw) as Hk. destruct (is_dir p w) as [[b|e|] w'] eqn:E; [|done|done].
  split; [|done]. intros ->. unfold is_dir in E. apply or_else_Ret in E as [E|(e & _ & _ & [=])].
  apply bind_Ret in E as (n & w1 & Hl & Hr). apply lstat_Ret in Hl as [Hl Hf]. apply ret_Ret in Hr as [Hn ->].
  symmetry in Hn. apply bool_decide_eq_true in Hn as ->. by rewrite Hf.
Qed.

Section prepare.
Context `{Uuid, JsonLoads} {ok scratch I} (HR : root_inv ok scratch I).

Lemma t_managed_directory p :
  base_ok p (Some NDir) → managed p → p ≠ format_path → p ≠ [] →
  triple I (managed_directory p) (λ _ fs, I fs ∧ named p fs) I.
Proof.
  intros Hb Hm Hf Hne. unfold managed_directory.
  assert (Hk : keeps I (or_else FileExistsError false (_ ← sys_mkdir p; ret true))).
  { assert (keeps I (sys_mkdir p)) by (apply (k_mkdir (ri_inv _ _ _ HR)), (ri_ok _ _ _ HR); done). io_keeps. }
  eapply t_bind; [exact Hk|]. intros created. eapply t_bind; [apply (k_is_symlink I)|]. intros link. cbv beta.
  eapply t_bind; [apply (k_guard I)|]. intros ?. cbv beta. eapply t_bind; [apply t_is_dir|]. intros dir. cbv beta.
  eapply t_bind; [eapply t_conseq; [apply t_guard'|intros ? Hx; exact Hx|intros ? ? Hx; exact Hx|by intros ? []]|].
  intros ?. apply t_pure. intros Hd. destruct dir; [|done].
  eapply (t_conseq _ (λ fs, I fs ∧ named p fs) _ _ (λ _ fs, I fs ∧ named p fs) _ (λ fs, I fs ∧ named p fs));
    [|intros fs [Hl Hfs]; split; [done|by apply live_names, Hl]|done|by intros ? []].
  destruct created; [|apply k_ret]. apply (k_fsync_dir (ri_inv _ _ _ (named_inv _ _ _ _ HR Hm))).
Qed.

Lemma k_managed_directory p : base_ok p (Some NDir) → p ≠ format_path → keeps I (managed_directory p).
Proof.
  intros Hb Hf. unfold managed_directory. pose proof (k_fsync_dir (ri_inv _ _ _ HR) (tail p)).
  assert (keeps I (sys_mkdir p)) by (apply (k_mkdir (ri_inv _ _ _ HR)), (ri_ok _ _ _ HR); done). io_keeps.
Qed.

Lemma k_create_scratch p : base_scratch p → p ≠ format_path → keeps I (sys_create p).
Proof.
  intros Hs Hf. eapply t_conseq; [apply (t_create_loose (ri_inv _ _ _ HR) p)|done|by intros ? ? []|done].
  by apply (ri_scratch _ _ _ HR).
Qed.

Lemma k_durable_lock p : base_scratch p → p ≠ format_path → keeps I (durable_lock p).
Proof.
  intros Hs Hf. unfold durable_lock. pose proof (k_create_scratch p Hs Hf). pose proof (k_fsync_dir (ri_inv _ _ _ HR) (tail p)).
  io_keeps.
Qed.

Lemma k_shared_lock p : base_scratch p → p ≠ format_path → keeps I (shared_lock p).
Proof. intros Hs Hf. unfold shared_lock. pose proof (k_create_scratch p Hs Hf). io_keeps. Qed.

Lemma k_adopt : keeps I adopt_root.
Proof.
  unfold adopt_root.
  assert (∀ b, keeps I (_atomic_small_write root_marker b)); [|io_keeps].
  intros b. apply (k_atomic_small_write (ri_inv _ _ _ HR)).
  - intros u. apply (ri_scratch _ _ _ HR); [|done]. split; [done|]. split; [auto with unkeyed|]. apply unmanaged; done.
  - intros n. apply (ri_ok _ _ _ HR); [|done]. apply base_free; [auto with unkeyed|]. apply unmanaged; done.
  - by intros [|x q] [l Hl] ?; [|destruct l].
Qed.

Lemma k_validate_namespace : keeps I (exclusive _validate_inventory_withdrawal_namespace).
Proof.
  apply k_exclusive. unfold _validate_inventory_withdrawal_namespace, validate_marker.
  eapply t_bind; [apply (k_scandir I)|]. intros l. cbv beta. apply k_for_each. intros x. io_keeps.
Qed.
End prepare.

(** ** What preparing the root establishes *)
Definition settled (fs : FS) : Prop := possible fs format_path = [names fs !! format_path].

Lemma named_sync d p fs : tail p = d → p ≠ [] → named p fs → lasting (sync_dir d fs) p (Some NDir).
Proof. intros Hd Hne Hn. apply lasting_one. rewrite possible_sync_dir, decide_True by done. by rewrite Hn. Qed.

Lemma t_more {A} (J E P : FS → Prop) (m : IO A) Q : triple P m Q J → (∀ fs, J fs → E fs) → triple P m Q E.
Proof. intros Hm HE. eapply t_conseq; [exact Hm|done|done|exact HE]. Qed.

Lemma t_exclusive_more {A} (P E : FS → Prop) (m : IO A) (Q : A → FS → Prop) :
  (∀ fs, P fs → E fs) → triple P m Q E → triple P (exclusive m) Q E.
Proof.
  intros HE Hm. assert (Hd : ∀ n (P E : FS → Prop), triple P (set_proc_depth n) (λ _, P) E) by by intros n P' E' w Hw.
  assert (Hk : ∀ B (k : IO B), keeps P k → triple P k (λ _, P) E) by (intros B k Hk; by apply (t_more P)).
  unfold exclusive. eapply t_bind; [apply Hk, k_get_proc|]. intros p. cbv beta. destruct (lock_depth p).
  - apply (t_finally P _ _ _ _ Q); [|intros a; apply Hd|apply Hd].
    eapply t_bind; [apply Hk, k_open_lock|]. intros ?. eapply t_bind; [apply Hk, k_flock|]. intros ?.
    eapply t_bind; [apply Hk, k_open_regular|]. intros ?. eapply t_bind; [apply Hk, k_flock|]. intros ?.
    eapply t_bind; [apply Hd|]. intros ?. exact Hm.
  - eapply t_bind; [apply Hd|]. intros ?. apply (t_finally P _ _ _ _ Q); [exact Hm|intros ?; apply Hd|apply Hd].
Qed.

Section prepared.
Context `{Uuid, JsonLoads} {ok scratch I} (HR : root_inv ok scratch I).

Lemma managed_manifests : managed manifests_dir.
Proof. left. right. right. by left. Qed.
Lemma managed_state : managed state_dir.
Proof. left. by left. Qed.
Lemma managed_withdrawn : managed withdrawn_dir.
Proof. left. right. by left. Qed.
Lemma base_manifests : base_ok manifests_dir (Some NDir).
Proof. split; [left; auto with unkeyed|done]. Qed.
Lemma base_withdrawn : base_ok withdrawn_dir (Some NDir).
Proof. split; [left; auto with unkeyed|done]. Qed.
Lemma base_top n : lit "manifests" ≠ n → lit "state" ≠ n → base_ok [n] (Some NDir).
Proof.
  intros Hm Hs. apply base_free; [apply unkeyed_short; discriminate|].
  apply unmanaged; [by intros [= ->]|by intros [= ->]|done].
Qed.

Notation made := (λ fs, (I fs ∧ named manifests_dir fs) ∧ named state_dir fs).
Notation kept := (λ fs, (I fs ∧ lasting fs manifests_dir (Some NDir)) ∧ lasting fs state_dir (Some NDir)).

Lemma t_directories :
  triple I (for_each [objects_dir; manifests_dir; quarantine_dir; tmp_dir; state_dir] managed_directory)
    (λ _, made) I.
Proof.
  pose proof (named_inv _ _ _ _ HR managed_manifests) as HR1. cbn [for_each].
  eapply t_bind; [apply (k_managed_directory HR); [by apply base_top|done]|]. intros ?. cbv beta.
  eapply t_bind; [apply (t_managed_directory HR); [apply base_manifests|apply managed_manifests|done|done]|]. intros ?.
  apply (t_more (λ fs, I fs ∧ named manifests_dir fs)); [|by intros fs []].
  eapply t_bind; [apply (k_managed_directory HR1); [by apply base_top|done]|]. intros ?. cbv beta.
  eapply t_bind; [apply (k_managed_directory HR1); [by apply base_top|done]|]. intros ?. cbv beta.
  eapply t_bind; [apply (t_managed_directory HR1); [apply base_state_dir|apply managed_state|done|done]|]. intros ?.
  by apply t_ret_post.
Qed.

Lemma t_sync_root : triple made (sys_fsync_dir []) (λ _, kept) I.
Proof.
  apply t_fsync_dir; [by intros fs [[? _] _]|]. intros fs [[Hfs Hm] Hs] _. split; [split|].
  - by apply (si_sync _ _ _ (ri_inv _ _ _ HR)).
  - by apply named_sync.
  - by apply named_sync.
Qed.

Lemma lock_scratch n : n ≠ lit "inventory-withdrawn" → base_scratch (n :: state_dir).
Proof. apply base_state_scratch. Qed.

Lemma t_prepare_root :
  triple I _prepare_root
    (λ _ fs, (I fs ∧ ∀ p, p ∈ [state_dir; withdrawn_dir; manifests_dir] → lasting fs p (Some NDir)) ∧ settled fs) I.
Proof.
  pose proof (last_inv _ _ _ _ (last_inv _ _ _ _ HR managed_manifests) managed_state) as HK.
  pose proof (k_fsync_dir (ri_inv _ _ _ HK) state_dir) as Ksync.
  unfold _prepare_root. eapply t_bind; [apply (k_adopt HR)|]. intros ?.
  eapply t_bind; [apply t_directories|]. intros ?. eapply t_bind; [apply t_sync_root|]. intros ?.
  apply (t_more kept); [|by intros fs [[]]].
  eapply t_bind; [by apply (k_durable_lock HK); [apply lock_scratch|]|]. intros ?. cbv beta.
  eapply (t_bind _ _ _ _ (λ _, kept)).
  { cbn [for_each]. eapply t_bind; [by apply (k_shared_lock HK); [apply lock_scratch|]|]. intros ?. cbv beta.
    eapply t_bind; [by apply (k_shared_lock HK); [apply lock_scratch|]|]. intros ?. apply k_ret. }
  intros ?. eapply t_bind; [exact Ksync|]. intros ?. cbv beta.
  eapply t_bind; [by apply (k_durable_lock HK); [apply lock_scratch|]|]. intros ?. cbv beta.
  eapply t_bind; [apply (t_managed_directory HK); [apply base_withdrawn|apply managed_withdrawn|done|done]|]. intros ?.
  eapply (t_bind _ _ _ _ (λ _ fs, (kept fs ∧ lasting fs withdrawn_dir (Some NDir)) ∧ settled fs)).
  { apply t_fsync_dir; [by intros fs [? _]|]. intros fs [Hfs Hw] _. split; [split|].
    - by apply (si_sync _ _ _ (ri_inv _ _ _ HK)).
    - by apply named_sync.
    - unfold settled. by rewrite possible_sync_dir, decide_True. }
  intros ?. set (done_fs := λ fs, (kept fs ∧ lasting fs withdrawn_dir (Some NDir)) ∧ settled fs).
  apply (t_more done_fs); [|by intros fs [[]]].
  eapply t_conseq; [apply (k_validate_namespace (I:=done_fs))|done| |done].
  intros ? fs [[[[Hfs Hm] Hs] Hw] Hset]. split; [split|]; [done| |done].
  intros p. rewrite !elem_of_cons, elem_of_nil. by intros [->|[->|[->|[]]]].
Qed.
End prepared.

(** ** Roots *)
(** Published names lie below durable shards, whatever else is missing. *)
Definition unprepared (fs : FS) : Prop :=
  fs_wf fs ∧ ∀ key, lasting fs (manifest_path key) None ∨ lasting fs (shard_dir key) (Some NDir).

Lemma unprepared_inv : store_inv base_ok base_scratch unprepared.
Proof.
  split.
  - by intros fs [].
  - intros fs p v [Hw Hs] [Hk Hm] He. split; [by apply wf_set_name|]. intros key.
    destruct (Hs key) as [Hl|Hl]; [left|right]; (apply lasting_set_name; [done|]); intros ->.
    + destruct Hk as [Hk|Hk]; [by destruct (Hk key)|done].
    + apply Hm, shard_managed.
  - intros fs d [Hw Hs]. split; [by apply wf_sync_dir|]. intros key. destruct (Hs key); [left|right]; by apply lasting_sync_dir.
  - intros fs p now [Hw Hs] (Hne & Hu & Hm). split; [by apply wf_create|]. intros key.
    destruct (Hs key) as [Hl|Hl]; [left|right]; (apply lasting_set_name; [exact Hl|]); intros ->.
    + by destruct (Hu key).
    + destruct Hm. apply shard_managed.
  - intros fs ino p i [Hw Hs] _ [Hi _]. split; [by apply wf_set_inode|exact Hs].
  - intros fs ino i now [Hw Hs] Hi. split; [apply wf_set_inode; [done|by rewrite Hi]|exact Hs].
  - intros p (Hne & Hu & Hm). split; [done|]. split; [by right|done].
Qed.

Lemma prepared_unprepared fs : prepared fs → unprepared fs.
Proof. by intros [Hw _ Hs]. Qed.
Lemma unprepared_prepared fs :
  unprepared fs → (∀ p, p ∈ [state_dir; withdrawn_dir; manifests_dir] → lasting fs p (Some NDir)) → prepared fs.
Proof. by intros [Hw Hs] Hd. Qed.

(** ** The binding *)
Definition at_format (p : path) : Prop := p = format_path.
Definition any_content (_ : path) (_ : option (list byte)) : Prop := True.
Definition bound_file `{JsonLoads} (b : json) (_ : path) (v : option (list byte)) : Prop :=
  ∃ D j, v = Some D ∧ json_loads D = Ok j ∧ same_dict j b = true.

Definition root_ok (good : path → option (list byte) → Prop) (p : path) (v : option node) : Prop :=
  base_ok p v ∧ guard_ok at_format good p v.
Definition root_scratch (p : path) : Prop := base_scratch p ∧ guard_scratch at_format p.

Lemma root_inv_fence I good :
  store_inv base_ok base_scratch I →
  root_inv (root_ok good) root_scratch (λ fs, I fs ∧ guarded false at_format good fs).
Proof.
  intros HI. split.
  - exact (and_inv _ _ _ _ _ _ HI (guarded_inv false at_format good)).
  - intros p v Hb Hp. split; [done|by right].
  - intros p Hs Hp. split; [done|]. by split; [destruct Hs|].
  - intros p v [[_ Hm] _] Hp. by apply Hm.
  - by intros p [(_ & _ & ?) _].
Qed.

(** A root to open, and a root that carries its binding. *)
Definition openable (fs : FS) : Prop := unprepared fs ∧ guarded false at_format any_content fs.
Definition bound `{JsonLoads} (b : json) (fs : FS) : Prop := prepared fs ∧ guarded false at_format (bound_file b) fs.

Section binding.
Context `{Uuid, JsonLoads}.

Lemma same_scalar_refl v : (match v with JArr _ | JObj _ => false | _ => true end) = true → same_scalar v v = true.
Proof. destruct v; try done; intros _; cbn; [by apply Z.eqb_eq|by apply Z.eqb_eq|by apply bool_decide_eq_true]. Qed.

Definition binding_fields (x : Expected) (chunk slot : Z) : list (pystr * json) :=
  match binding_of x chunk slot with JObj l => l | _ => [] end.

Lemma binding_keys x chunk slot : NoDup (binding_fields x chunk slot).*1.
Proof. apply (bool_decide_unpack _). vm_compute. exact I. Qed.

Definition is_scalar (v : json) : bool := match v with JArr _ | JObj _ => false | _ => true end.

Lemma canon_scalars (l : list (pystr * json)) :
  Forall (λ p, is_scalar p.2 = true) l → map (λ p : pystr * json, (p.1, canon p.2)) l = l.
Proof. induction 1 as [|[k v] l Hv _ IH]; [done|]. cbn. rewrite IH. by destruct v. Qed.

Lemma same_dict_canon l :
  NoDup l.*1 → Forall (λ p, is_scalar p.2 = true) l → same_dict (canon (JObj l)) (JObj l) = true.
Proof.
  intros Hn Hs. cbn [canon]. rewrite canon_scalars by done. cbn [same_dict]. apply andb_true_intro. split.
  - apply bool_decide_eq_true. by rewrite (sort_keys_perm l).
  - apply forallb_forall. intros [k v] Hin%list_elem_of_In. cbn. rewrite od_get_sort_keys by done.
    assert (od_get k l = Some v) as -> by by apply od_get_elem.
    apply same_scalar_refl. rewrite Forall_forall in Hs. exact (Hs (k, v) Hin).
Qed.

(** What the store writes is its own binding. *)
Lemma written_binding x chunk slot encoded :
  canonical_json (binding_of x chunk slot) = Ok encoded →
  ∃ j, json_loads encoded = Ok j ∧ same_dict j (binding_of x chunk slot) = true.
Proof.
  intros [Hj _]%json_loads_canonical. eexists. split; [exact Hj|].
  apply (same_dict_canon (binding_fields x chunk slot)); [apply binding_keys|].
  unfold binding_fields, binding_of, bound_value. repeat constructor; cbn; by case_match.
Qed.

Lemma bound_intro b fs ino j :
  prepared fs → guarded false at_format any_content fs → possible fs format_path = [Some (NFile ino)] →
  json_loads (data_of fs ino) = Ok j → same_dict j b = true → bound b fs.
Proof.
  intros Hp [Hw Hg] Hone Hj Hb. split; [done|]. split; [done|]. intros p v -> Hv. cbn in Hv. pose proof Hv as Hv'.
  rewrite Hone in Hv'. apply list_elem_of_singleton in Hv' as ->. destruct (Hg format_path _ eq_refl Hv) as (i & Hi & Hs & _).
  exists i. split_and!; [done|done|]. exists (i_data i), j. unfold data_of in Hj. by rewrite Hi in Hj.
Qed.

Lemma t_read_small (P : FS → Prop) p n :
  triple P (_read_small_json p n)
    (λ v fs, (∃ ino, live fs p = Some (NFile ino) ∧ json_loads (data_of fs ino) = Ok v) ∧ P fs) P.
Proof.
  intros w Hw. pose proof (k_read_small_json P p n w Hw) as Hk. destruct (_read_small_json p n w) as [[v|e|] w'] eqn:E; [|done|done].
  split; [|done]. apply read_small_json_Ret in E as [Hf He]. by rewrite Hf.
Qed.

Definition readied (fs : FS) : Prop := prepared fs ∧ guarded false at_format any_content fs.

Lemma readied_inv : root_inv (root_ok any_content) root_scratch readied.
Proof. apply root_inv_fence, prepared_inv. Qed.

Lemma canonical_not_empty l b : canonical_json (JObj l) = Ok b → b ≠ [].
Proof.
  unfold canonical_json, encode_utf8. cbn [print utf8_encode]. intros Hb ->.
  change (utf8_char 123) with (Some [z_to_byte 123]) in Hb. cbn [mbind option_bind] in Hb.
  by destruct (utf8_encode _).
Qed.

Lemma t_initialize x chunk slot :
  triple (λ fs, readied fs ∧ settled fs) (_initialize_payload_backend (binding_of x chunk slot))
    (λ _, bound (binding_of x chunk slot)) readied.
Proof.
  set (b := binding_of x chunk slot). unfold _initialize_payload_backend.
  eapply t_bind; [apply (t_more (λ fs, readied fs ∧ settled fs)); [apply (k_exists (λ fs, readied fs ∧ settled fs))|by intros ? []]|].
  intros present. cbv beta. destruct present.
  - apply (t_more (λ fs, readied fs ∧ settled fs)); [|by intros ? []].
    eapply t_bind; [apply t_read_small|]. intros payload. cbv beta.
    eapply t_conseq; [apply t_guard'|intros fs Hx; exact Hx| |by intros ? []].
    intros ? fs [Hsame ((ino & Hl & Hj) & [Hp Hg] & Hset)]. apply negb_false_iff in Hsame.
    eapply bound_intro; [done|done| |exact Hj|done]. apply live_names in Hl; [|done]. unfold settled in Hset. by rewrite Hset, Hl.
  - eapply (t_bind _ _ _ _ (λ _, readied)).
    { eapply t_conseq; [apply (k_for_each readied)|by intros ? []|done|done]. intros d. io_keeps. }
    intros ?. eapply t_bind; [apply t_lift|]. intros encoded. apply t_pure. intros He.
    eapply t_conseq; [apply (t_atomic_small_write (ri_inv _ _ _ readied_inv) (lit "token-format.json") state_dir encoded)|done| |done].
    + intros u. apply (ri_scratch _ _ _ readied_inv); [apply base_state_scratch|].
      * by intros [=].
      * unfold small_temporary, format_path. by intros [=].
    + intros q Hq Hne. apply (ri_ok _ _ _ readied_inv).
      * by apply (state_parents (ok := base_ok) base_state_dir).
      * intros ->. destruct Hq as [[|? [|]] Hq]; discriminate Hq.
    + by eapply canonical_not_empty.
    + intros fs ino m [Hp Hg] Hi. split.
      * apply prepared_set_name; [done|by cbn; rewrite Hi|by apply base_state].
      * eapply guarded_link; [done|done|done].
    + intros ? fs ([Hp Hg] & ino & m & Hone & Hi). destruct (written_binding _ _ _ _ He) as (j & Hj & Hsame).
      eapply bound_intro; [done|done|exact Hone| |exact Hsame]. unfold data_of. by rewrite Hi.
Qed.

(** ** Opening *)
Lemma t_prepare_openable : triple openable _prepare_root (λ _ fs, readied fs ∧ settled fs) openable.
Proof.
  eapply t_conseq; [apply (t_prepare_root (root_inv_fence _ any_content unprepared_inv))|done| |done].
  intros ? fs [[[Hu Hg] Hd] Hs]. split; [split|done]; [by apply unprepared_prepared|done].
Qed.

Lemma k_prepare_root ok scratch I : root_inv ok scratch I → keeps I _prepare_root.
Proof. intros HR. eapply t_conseq; [apply (t_prepare_root HR)|done|by intros ? fs [[? _] _]|done]. Qed.

Lemma bound_inv b : root_inv (root_ok (bound_file b)) root_scratch (bound b).
Proof. apply root_inv_fence, prepared_inv. Qed.

Lemma k_recover_root ok scratch I : root_inv ok scratch I → keeps I recover.
Proof.
  intros HR. apply (k_recover (ri_inv _ _ _ HR)). intros n. apply (ri_scratch _ _ _ HR); [apply base_tmp|done].
Qed.

Lemma readied_openable fs : readied fs → openable fs.
Proof. intros [Hp Hg]. split; [by apply prepared_unprepared|done]. Qed.
Lemma bound_readied b fs : bound b fs → readied fs.
Proof.
  intros [Hp [Hw Hg]]. split; [done|]. split; [done|]. intros p v Hp' Hv. specialize (Hg p v Hp' Hv).
  destruct v as [[ino| |]|]; cbn in *; [|done..]. destruct Hg as (i & Hi & Hs & _). by exists i.
Qed.

Context `{Sha}.

Definition opened id layout slot (x : Expected) (st : TokenFileStore) : Prop :=
  st = TokenStore id layout (st_chunk_tokens st) (binding_of x (st_chunk_tokens st) slot) slot (Hooks false false) ∧
  0 < slot ≤ STAGING_SLOT_BYTES ∧ check_expected x = Ok tt ∧ validate_layout layout slot = Ok tt.

Lemma t_open_store id layout slot count x :
  triple openable (open_store id layout slot count x)
    (λ st fs, opened id layout slot x st ∧ bound (st_binding st) fs) openable.
Proof.
  unfold open_store. eapply t_bind; [apply (t_lift openable)|]. intros []. apply t_pure. intros Hv.
  eapply t_bind; [apply (k_guard openable)|]. intros ?. eapply t_bind; [apply (k_guard openable)|]. intros ?.
  eapply t_bind; [apply (k_lift openable)|]. intros ident. eapply t_bind; [apply (k_guard openable)|]. intros ?. cbv beta.
  eapply t_bind; [apply (t_guard' openable)|]. intros ?. apply t_pure. intros Hslot.
  eapply t_bind; [apply (k_lift openable)|]. intros chunk. cbv beta zeta. set (b := binding_of x chunk slot).
  eapply t_bind; [apply (k_mod_proc openable)|]. intros ?. cbv beta.
  eapply t_bind; [apply (t_lift openable)|]. intros []. apply t_pure. intros Hx.
  eapply t_bind; [apply t_prepare_openable|]. intros ?. apply (t_more readied); [|apply readied_openable].
  eapply (t_bind _ _ _ _ (λ _ fs, readied fs ∧ settled fs)).
  { apply (t_more (λ fs, readied fs ∧ settled fs)); [apply k_guard|by intros ? []]. }
  intros ?. eapply (t_bind _ _ _ _ (λ _, bound b)).
  { apply t_exclusive_more; [by intros ? []|].
    apply (t_bind _ _ _ _ (λ _ fs, readied fs ∧ settled fs)).
    { apply (t_more (λ fs, readied fs ∧ settled fs)); [apply k_open_regular|by intros ? []]. }
    intros ?. apply (t_bind _ _ _ _ (λ _ fs, readied fs ∧ settled fs)).
    { apply (t_more (λ fs, readied fs ∧ settled fs)); [apply k_pins_busy|by intros ? []]. }
    intros ?. apply t_initialize. }
  intros ?. apply (t_more (bound b)); [|apply bound_readied].
  eapply t_bind; [apply (k_recover_root _ _ _ (bound_inv b))|]. intros ?. apply t_ret_post. intros fs Hfs.
  split; [|exact Hfs]. split; [done|]. bsimp. split; [lia|done].
Qed.

(** ** Opening again *)
Lemma t_false {A} (P E : FS → Prop) (m : IO A) Q : (∀ fs, P fs → False) → triple P m Q E.
Proof. intros HP w Hw. by destruct (HP _ Hw). Qed.

Lemma bound_live b fs : bound b fs →
  ∃ ino j, live fs format_path = Some (NFile ino) ∧ json_loads (data_of fs ino) = Ok j ∧ same_dict j b = true.
Proof.
  intros [Hp [_ Hg]]. pose proof (Hg format_path _ eq_refl (possible_head _ _)) as He.
  destruct (names fs !! format_path) as [[ino| |]|] eqn:En; cbn in He; try done; [|by destruct He as (? & ? & [=] & _)].
  destruct He as (i & Hi & _ & D & j & [= <-] & Hj & Hsame). exists ino, j. split_and!; [|by unfold data_of; rewrite Hi|done].
  unfold format_path. rewrite live_child; [exact En|]. apply prepared_live; [done|by left].
Qed.

Lemma t_initialize_again b b2 :
  triple (bound b) (_initialize_payload_backend b2)
    (λ _ fs, (∃ j, same_dict j b = true ∧ same_dict j b2 = true) ∧ bound b fs) (bound b).
Proof.
  unfold _initialize_payload_backend. eapply t_bind; [apply t_exists|]. intros [|]; cbv beta.
  - eapply (t_conseq _ (bound b)); [|by intros ? []|intros ? fs Hx; exact Hx|done].
    eapply t_bind; [apply t_read_small|]. intros payload. cbv beta.
    eapply t_conseq; [apply t_guard'|intros fs Hx; exact Hx| |by intros ? []].
    intros ? fs [Hsame [(ino & Hl & Hj) Hb]]. apply negb_false_iff in Hsame. split; [|done].
    destruct (bound_live _ _ Hb) as (ino' & j & Hl' & Hj' & Hs'). assert (ino' = ino) as -> by congruence.
    exists payload. split; [|done]. congruence.
  - apply t_false. intros fs [Hx Hb]. destruct (bound_live _ _ Hb) as (ino & j & Hl & _).
    rewrite Hl in Hx. by rewrite bool_decide_eq_true_2 in Hx by eauto.
Qed.

Lemma t_open_again b id layout slot count x :
  triple (bound b) (open_store id layout slot count x)
    (λ st fs, (∃ j, same_dict j b = true ∧ same_dict j (st_binding st) = true) ∧ bound b fs) (bound b).
Proof.
  unfold open_store. eapply t_bind; [apply (k_lift (bound b))|]. intros ?.
  eapply t_bind; [apply (k_guard (bound b))|]. intros ?. eapply t_bind; [apply (k_guard (bound b))|]. intros ?.
  eapply t_bind; [apply (k_lift (bound b))|]. intros ?. eapply t_bind; [apply (k_guard (bound b))|]. intros ?.
  eapply t_bind; [apply (k_guard (bound b))|]. intros ?. eapply t_bind; [apply (k_lift (bound b))|]. intros chunk. cbv beta zeta.
  eapply t_bind; [apply (k_mod_proc (bound b))|]. intros ?. eapply t_bind; [apply (k_lift (bound b))|]. intros ?.
  eapply t_bind; [apply (k_prepare_root _ _ _ (bound_inv b))|]. intros ?.
  eapply t_bind; [apply (k_guard (bound b))|]. intros ?. cbv beta.
  eapply t_bind.
  { apply t_exclusive. eapply t_bind; [apply (k_open_regular (bound b))|]. intros ?.
    eapply t_bind; [apply (k_pins_busy (bound b))|]. intros ?. apply t_initialize_again. }
  intros ?. apply t_pure. intros Hj. eapply t_bind; [apply (k_recover_root _ _ _ (bound_inv b))|]. intros ?.
  by apply t_ret_post.
Qed.

(** Two bindings of the same keys that one file matches are equal. *)
Lemma same_scalar_unique v a b :
  is_scalar a = true → is_scalar b = true → (∀ t, a ≠ JBool t) → (∀ t, b ≠ JBool t) →
  same_scalar v a = true → same_scalar v b = true → a = b.
Proof.
  intros Ha Hb Na Nb. unfold same_scalar. destruct (py_scalar v); try done; destruct a as [|t| | | |], b as [|u| | | |]; cbn; try done;
    try (by destruct (Na t)); try (by destruct (Nb u)); bsimp; congruence.
Qed.

Lemma same_dict_unique j l m :
  l.*1 = m.*1 → Forall (λ p, is_scalar p.2 = true ∧ ∀ t, p.2 ≠ JBool t) l →
  Forall (λ p, is_scalar p.2 = true ∧ ∀ t, p.2 ≠ JBool t) m →
  same_dict j (JObj l) = true → same_dict j (JObj m) = true → l = m.
Proof.
  destruct j as [| | | | |d]; try done. cbn. intros Hk Hl Hm [_ Q1]%andb_prop [_ Q2]%andb_prop.
  revert m Hk Hm Q2. induction Hl as [|[k a] l [Ha Na] _ IH]; intros [|[k' b] m] Hk Hm Q2; try done.
  cbn in Hk. injection Hk as <- Hk. inversion_clear Hm as [|? ? [Hb Nb] Hm']. cbn in *.
  apply andb_prop in Q1 as [Hv1 Q1], Q2 as [Hv2 Q2]. destruct (od_get k d) as [v|]; [|done].
  f_equal; [f_equal; by eapply same_scalar_unique|by apply IH].
Qed.

Lemma binding_plain x chunk slot :
  Forall (λ p, is_scalar p.2 = true ∧ ∀ t, p.2 ≠ JBool t) (binding_fields x chunk slot).
Proof. unfold binding_fields, binding_of, bound_value. repeat apply Forall_cons_2; try apply Forall_nil_2; cbn; (split; [try case_match; done|intros t; try case_match; done]). Qed.
End binding.

(** ** Through the life of the system *)
Section life.
Context `{Sha, Uuid, JsonLoads}.

Lemma root_ok_free good p v : base_ok p v → p ≠ format_path → root_ok good p v.
Proof. intros Hb Hp. split; [done|by right]. Qed.

Definition format_free (n : pystr) : Prop := n ≠ lit "inventory-withdrawn" ∧ n ≠ lit "token-format.json".
Lemma format_free_dot n : head n = Some 46 → format_free n.
Proof. intros Hn. by split; intros ->. Qed.

Lemma bound_call st b c : 0 < st_slot_bytes st → keeps (bound b) (run_store_call st c).
Proof.
  intros Hslot. pose proof (ri_inv _ _ _ (bound_inv b)) as HI. set (good := bound_file b) in *.
  assert (Hf : ∀ p v, base_ok p v → p ≠ format_path → root_ok good p v) by (intros; by apply root_ok_free).
  assert (Hs : ∀ p, base_scratch p → p ≠ format_path → root_scratch p).
  { intros p Hp Hne. split; [done|]. split; [by destruct Hp|done]. }
  assert (Hname : ∀ n v, format_free n → root_ok good (n :: state_dir) v).
  { intros n v [? Hn]. apply Hf; [by apply base_state|]. intros [= E]. by apply Hn. }
  assert (Hscr : ∀ n, format_free n → root_scratch (n :: state_dir)).
  { intros n [? Hn]. apply Hs; [by apply base_state_scratch|]. intros [= E]. by apply Hn. }
  apply (k_store_call st Hslot HI).
  - intros k. by apply Hf; [apply base_marker|].
  - intros k. by apply Hf; [apply base_manifest|].
  - intros n. by apply Hs; [apply base_tmp|].
  - intros s. by apply Hf; [apply base_shard|].
  - intros hk k r. apply (k_quarantine HI); [by apply Hf; [apply base_manifest|]|by apply Hf; [apply base_marker|]..|].
    intros n v. by apply Hf; [apply base_quarantine|].
  - intros k. assert (keeps (bound b) (_clear_inventory_withdrawal k)).
    { apply (k_clear HI). by apply Hf; [apply base_marker|]. }
    pose proof (k_absence HI). unfold acknowledge_absent, _manifest_path. io_keeps.
  - apply (k_reserve HI format_free format_free_dot); [by apply Hf; [apply base_state_dir|]|done..].
  - intros d. apply (k_scrub_write HI format_free format_free_dot); [by apply Hf; [apply base_state_dir|]|done..].
  - intros n. apply (k_replace HI); [by apply Hf; [by apply base_state|]|done|].
    intros v. by apply Hf; [apply base_quarantine|].
  - intros key _. split; [by apply Hf; [apply base_marker|]|].
    intros fs ino D m _ [Hp He] Hi _ Hsh. split; [apply prepared_link; [done|by rewrite Hi|done]|].
    apply guarded_set_name; [done|by cbn; rewrite Hi|]. by intros [=].
  - intros key _. by apply Hf; [apply base_marker|].
Qed.

(** A step of any store of this code, and the opening of another. *)
Inductive root_step : World → World → Prop :=
  | root_call st w w' : 0 < st_slot_bytes st → system_step st w w' → root_step w w'
  | root_open id layout slot count x o w w' : open_store id layout slot count x w = (o, w') → root_step w w'.

Lemma bound_reachable b w w' : rtc root_step w w' → bound b (w_fs w) → bound b (w_fs w').
Proof.
  induction 1 as [|w w1 w2 Hs _ IH]; [done|]. intros Hw. apply IH. clear IH.
  destruct Hs as [st w w' Hslot [c o w1 w1' Hr|w1 w1' Hf|w1 w1' Hl]|id layout slot count x o w w' Hr].
  - pose proof (bound_call st b c Hslot w1 Hw) as Hc. rewrite Hr in Hc. by destruct o.
  - by rewrite Hf.
  - destruct Hw as [Hp Hg]. split; [by eapply prepared_power_loss|by eapply guarded_power_loss].
  - pose proof (t_open_again b id layout slot count x w Hw) as Hc. rewrite Hr in Hc. destruct o; [by destruct Hc|done|done].
Qed.

Lemma openable_power_loss fs fs' : openable fs → power_loss fs fs' → openable fs'.
Proof.
  intros [[Hw Hs] Hg] Hl. split; [|by eapply guarded_power_loss]. split; [by eapply wf_power_loss|].
  intros key. destruct (Hs key); [left|right]; by eapply lasting_power_loss.
Qed.

(** C15: a root is bound to its identity for good.  Opening a store over an empty root, or
    over one a crash left unfinished, returns only with the root prepared (the managed
    directories durable) and the identity recorded; then, through every later operation
    of any store, every restart and every power loss, opening the root again returns only
    a store with the same deployment, rank, topology, profile, layout and transfer
    unit. *)
Theorem root_binding_is_permanent (id1 id2 : nat) (layout1 layout2 : HMALayout) (slot1 count1 slot2 count2 : Z)
    (x1 x2 : Expected) (st1 st2 : TokenFileStore) (w0 w1 w2 w3 : World) :
  openable (w_fs w0) → open_store id1 layout1 slot1 count1 x1 w0 = (Ret st1, w1) →
  rtc root_step w1 w2 → open_store id2 layout2 slot2 count2 x2 w2 = (Ret st2, w3) →
  prepared (w_fs w1) ∧ prepared (w_fs w3) ∧ st_binding st2 = st_binding st1.
Proof.
  intros Hw0 Ho1 Hsteps Ho2.
  destruct (triple_Ret _ _ _ _ _ _ _ (t_open_store id1 layout1 slot1 count1 x1) Hw0 Ho1) as [[Hst1 _] Hb1].
  pose proof (bound_reachable _ _ _ Hsteps Hb1) as Hb2.
  destruct (triple_Ret _ _ _ _ _ _ _ (t_open_again _ id2 layout2 slot2 count2 x2) Hb2 Ho2) as [(j & Hj1 & Hj2) Hb3].
  assert (openable (w_fs w2)) as Hw2 by by eapply readied_openable, bound_readied.
  destruct (triple_Ret _ _ _ _ _ _ _ (t_open_store id2 layout2 slot2 count2 x2) Hw2 Ho2) as [[Hst2 _] _].
  split; [apply Hb1|]. split; [apply Hb3|]. rewrite Hst1, Hst2 in *. cbn [st_binding st_chunk_tokens] in *.
  change (binding_of x1 (st_chunk_tokens st1) slot1) with (JObj (binding_fields x1 (st_chunk_tokens st1) slot1)) in *.
  change (binding_of x2 (st_chunk_tokens st2) slot2) with (JObj (binding_fields x2 (st_chunk_tokens st2) slot2)) in *.
  f_equal. symmetry. eapply same_dict_unique; [done|apply binding_plain|apply binding_plain|exact Hj1|exact Hj2].
Qed.
End life.
