(* ===== verification/EventJournal.v ===== *)
(** * Persistent event counters ([PersistentEventJournal], src/spoolcache/event_journal.py)

    The totals of the events that terminate a worker, kept in one small file under
    [state] and replaced atomically at every increment.  The object's dictionary is
    explicit state; [increment] restores it when the write raises. *)
From S2P Require Import Prelude Dict Bytes Utf8 Json Telemetry Io RankStore.

Definition EVENT_JOURNAL_SCHEMA : pystr := lit "spoolcache-events/v1".
Definition EVENT_JOURNAL_NAME : pystr := lit "spoolcache-events.json".
Definition MAX_EVENT_JOURNAL_BYTES : Z := 64 * 1024.
Definition PERSISTENT_METRICS : list pystr :=
  [lit "spoolcache_post_admission_failure_total"; lit "spoolcache_quarantined_entries_total";
   lit "spoolcache_scrub_shutdown_failures_total"].

Definition journal_path : path := EVENT_JOURNAL_NAME :: state_dir.

(** [_totals] *)
Abbreviation event_totals := (gmap metric_key Z).

Definition json_str (v : json) : option pystr := match v with JStr s => Some s | _ => None end.

(** ** Keys *)
Definition _metric_key (name : json) (labels : list json) : result metric_key :=
  match name with
  | JStr s =>
      if bool_decide (s ∈ PERSISTENT_METRICS) then
        match od_get s METRIC_DEFINITIONS with
        | None => raise KeyError "no such metric"
        | Some definition =>
            _ ← raise_if (negb (bool_decide (md_kind definition = KCounter))) ValueError
                  "event journal metric is not a counter";
            match mapM json_str labels with
            | Some materialized =>
                if bool_decide (materialized ∈ allowed_labels definition) then Ok (s, materialized)
                else raise ValueError "event journal labels are outside the bounded vocabulary"
            | None => raise ValueError "event journal labels are outside the bounded vocabulary"
            end
        end
      else raise ValueError "event journal metric is not crash-persistent"
  | _ => raise ValueError "event journal metric is not crash-persistent"
  end.

(** ** The file's content *)
Definition has_keys (l : list (pystr * json)) (expected : list pystr) : bool :=
  bool_decide (list_to_set l.*1 =@{gset pystr} list_to_set expected).

Definition decode_total (totals : event_totals) (raw : json) : result event_totals :=
  match raw with
  | JObj l =>
      _ ← raise_if (negb (has_keys l [lit "name"; lit "labels"; lit "value"])) ValueError
            "event journal record is malformed";
      match od_get (lit "labels") l, od_get (lit "name") l, od_get (lit "value") l with
      | Some (JArr labels), Some name, Some value =>
          key ← _metric_key name labels;
          match value with
          | JInt value =>
              _ ← raise_if ((value <? 0) || (MAX_METRIC_VALUE <? value)) ValueError
                    "event journal counter is malformed";
              _ ← raise_if (bool_decide (is_Some (totals !! key))) ValueError
                    "event journal contains duplicate counters";
              Ok (<[key := value]> totals)
          | _ => raise ValueError "event journal counter is malformed"
          end
      | _, _, _ => raise ValueError "event journal labels are malformed"
      end
  | _ => raise ValueError "event journal record is malformed"
  end.

Definition decode_totals (payload : json) : result event_totals :=
  match payload with
  | JObj l =>
      if has_keys l [lit "schema"; lit "totals"] then
        match od_get (lit "schema") l, od_get (lit "totals") l with
        | Some (JStr schema), Some (JArr raws) =>
            _ ← raise_if (negb (bool_decide (schema = EVENT_JOURNAL_SCHEMA))) ValueError
                  "event journal schema is malformed";
            fold_result decode_total ∅ raws
        | _, _ => raise ValueError "event journal schema is malformed"
        end
      else raise ValueError "event journal schema is malformed"
  | _ => raise ValueError "event journal schema is malformed"
  end.

Definition total_json (p : metric_key * Z) : json :=
  JObj [(lit "name", JStr p.1.1); (lit "labels", JArr (JStr <$> p.1.2)); (lit "value", JInt p.2)].

Definition totals_json (totals : event_totals) : json :=
  JObj [(lit "schema", JStr EVENT_JOURNAL_SCHEMA);
        (lit "totals", JArr (total_json <$> sorted_bindings totals))].

(** ** Reading *)

(** The loop of [os.read]: what is there, at most [n] bytes. *)
Fixpoint read_available (fuel ino pos n : nat) (acc : list byte) : IO (list byte) :=
  match n, fuel with
  | O, _ | _, O => ret acc
  | _, S fuel =>
      chunk ← sys_readv ino pos n;
      if bool_decide (chunk = []) then ret acc
      else read_available fuel ino (pos + length chunk) (n - length chunk) (acc ++ chunk)
  end.

Definition caught_by_OSError (e : exn) : bool :=
  match exn_class e with OSError | FileNotFoundError | FileExistsError => true | _ => false end.

(** [except E: raise ValueError(msg) from error] *)
Definition as_value_error {A} (caught : exn → bool) (msg : string) (m : IO A) : IO A :=
  try_with m (λ e, if caught e then Some (throw ValueError msg) else None).

Definition _load `{JsonLoads} : IO event_totals :=
  opened ← as_value_error caught_by_OSError "event journal cannot be opened"
             (or_else FileNotFoundError None (n ← sys_open journal_path; ret (Some n)));
  match opened with
  | None => ret ∅
  | Some (NFile ino) =>
      fs ← get_fs;
      let size := length (data_of fs ino) in
      _ ← guard_io (negb ((0 <? Z.of_nat size) && (Z.of_nat size <=? MAX_EVENT_JOURNAL_BYTES))) ValueError
            "event journal size is invalid";
      encoded ← read_available size ino 0 size [];
      _ ← guard_io (negb (length encoded =? size)%nat) ValueError "event journal is truncated";
      payload ← as_value_error (λ e, bool_decide (exn_class e = UnicodeError ∨ exn_class e = ValueError))
                  "event journal is malformed" (lift (json_loads encoded));
      lift (decode_totals payload)
  | Some _ => throw ValueError "event journal is not a regular file"
  end.

(** ** Writing *)
Definition _write `{Uuid} (totals : event_totals) : IO unit :=
  encoded ← lift (b ← canonical_json (totals_json totals); Ok (b ++ newline));
  _ ← guard_io (MAX_EVENT_JOURNAL_BYTES <? Z.of_nat (length encoded)) ValueError
        "event journal exceeds its fixed byte bound";
  u ← fresh_uuid;
  let temporary := (lit "." ++ EVENT_JOURNAL_NAME ++ lit "." ++ u ++ lit ".tmp") :: state_dir in
  ino ← sys_create temporary;
  let cleanup := ignoring FileNotFoundError (sys_unlink temporary) in
  _ ← on_error (_ ← write_loop (S (length encoded)) ino 0 encoded; sys_fsync ino) cleanup;
  _ ← on_error (sys_replace temporary journal_path) cleanup;
  sys_fsync_dir state_dir.

(** [increment]: the outcome and the dictionary afterwards. *)
Definition event_increment `{Uuid} (name : pystr) (labels : list pystr) (amount : pyval)
    (totals : event_totals) (w : World) : outcome unit * event_totals * World :=
  match
    (key ← _metric_key (JStr name) (JStr <$> labels);
     amount ← need_int amount (λ z, z <=? 0) ValueError
                "event journal increment must be a positive integer";
     let previous := default 0 (totals !! key) in
     _ ← raise_if (MAX_METRIC_VALUE - previous <? amount) ValueError
           "event journal counter exceeds its fixed bound";
     Ok (key, previous, amount))
  with
  | Raise e => (Exc e, totals, w)
  | Ok (key, previous, amount) =>
      let updated := <[key := previous + amount]> totals in
      match _write updated w with
      | (Exc e, w) =>
          (Exc e, if previous =? 0 then delete key updated else <[key := previous]> updated, w)
      | (o, w) => (o, updated, w)
      end
  end.

(** ** Opening *)
Definition event_temporary (name : pystr) : bool := own_temporary EVENT_JOURNAL_NAME name.

Fixpoint cleanup_loop (l : list pystr) (removed : Z) : IO Z :=
  match l with
  | [] => ret removed
  | name :: l =>
      if negb (event_temporary name) then cleanup_loop l removed
      else
        found ← or_else FileNotFoundError None (k ← sys_lstat (name :: state_dir); ret (Some k));
        match found with
        | None => cleanup_loop l removed
        | Some (NFile _) =>
            gone ← or_else FileNotFoundError false (_ ← sys_unlink (name :: state_dir); ret true);
            cleanup_loop l (if (gone : bool) then removed + 1 else removed)
        | Some _ => throw ValueError "event journal temporary is not a regular file"
        end
  end.

Definition _cleanup_abandoned_temporaries : IO Z :=
  l ← sys_scandir state_dir;
  removed ← cleanup_loop l 0;
  _ ← (if negb (removed =? 0) then sys_fsync_dir state_dir else ret tt);
  ret removed.

(** [Path.is_symlink] *)
Definition is_symlink (p : path) : IO bool :=
  or_else FileNotFoundError false (n ← sys_lstat p; ret (bool_decide (n = NLink))).

(** The constructor, on the store's state directory, which is absolute. *)
Definition journal_init `{JsonLoads} : IO event_totals :=
  link ← is_symlink state_dir;
  _ ← guard_io link ValueError "event journal state directory cannot be a symlink";
  n ← as_value_error caught_by_OSError "event journal state directory is unavailable" (sys_lstat state_dir);
  _ ← guard_io (negb (bool_decide (n = NDir))) ValueError "event journal state path is not a directory";
  link ← is_symlink journal_path;
  _ ← guard_io link ValueError "event journal cannot be a symlink";
  _ ← _cleanup_abandoned_temporaries;
  _load.
