(* ===== verification/JournalSpec.v ===== *)
(** * The content of the event journal

    The keys are a fixed vocabulary, so the totals are bounded; what is written is
    read back unchanged, and it always fits the byte bound of the file. *)
From S2P Require Import Prelude Dict Bytes Utf8 Telemetry TelemetryProps Json Hma Manifest Io RankStore IoSpec FsInv TokenFiles TokenHeader TokenScrub StoreOps StoreInv StoreSystem StoreFence StoreEpochs EventJournal.

(** ** The vocabulary *)
Definition event_vocabulary : list metric_key :=
  PERSISTENT_METRICS ≫= λ s,
    match od_get s METRIC_DEFINITIONS with Some d => (s,.) <$> allowed_labels d | None => [] end.

Lemma mapM_json_str ls : mapM json_str (JStr <$> ls) = Some ls.
Proof. apply mapM_Some. induction ls as [|x ls IH]; [constructor|]. by constructor. Qed.

Lemma mapM_json_str_Some labels ls : mapM json_str labels = Some ls → labels = JStr <$> ls.
Proof.
  rewrite mapM_Some. induction 1 as [|v s vs ss Hv _ IH]; [done|].
  rewrite fmap_cons, <-IH. destruct v; naive_solver.
Qed.

Lemma metric_key_vocabulary key : key ∈ event_vocabulary → _metric_key (JStr key.1) (JStr <$> key.2) = Ok key.
Proof.
  intros Hk. assert (Hall : forallb (λ key, match _metric_key (JStr key.1) (JStr <$> key.2) with
    Ok key' => bool_decide (key' = key) | Raise _ => false end) event_vocabulary = true) by (vm_compute; reflexivity).
  rewrite forallb_forall in Hall. apply list_elem_of_In, Hall in Hk.
  destruct (_metric_key _ _) as [key'|]; [|done]. by apply bool_decide_eq_true in Hk as ->.
Qed.

Lemma metric_key_Ok name labels key :
  _metric_key name labels = Ok key → name = JStr key.1 ∧ labels = JStr <$> key.2 ∧ key ∈ event_vocabulary.
Proof.
  unfold _metric_key. destruct name as [| | |s| |]; try done. case_bool_decide as Hs; [|done].
  destruct (od_get s METRIC_DEFINITIONS) as [d|] eqn:Ed; [|done].
  intros (u & _ & Hk)%result_bind_Ok. destruct (mapM json_str labels) as [ls|] eqn:El; [|done].
  case_bool_decide as Ha; [|done]. apply Ok_inj in Hk as <-. apply mapM_json_str_Some in El as ->.
  split_and!; [done|done|]. unfold event_vocabulary. apply list_elem_of_bind. exists s.
  split; [|done]. rewrite Ed. by apply list_elem_of_fmap_2.
Qed.

(** ** Totals *)
Definition totals_ok (t : event_totals) : Prop :=
  map_Forall (λ k v, k ∈ event_vocabulary ∧ 0 ≤ v ≤ MAX_METRIC_VALUE) t.

Lemma totals_ok_insert t k v :
  totals_ok t → k ∈ event_vocabulary → 0 ≤ v ≤ MAX_METRIC_VALUE → totals_ok (<[k := v]> t).
Proof. intros Ht Hk Hv. by apply map_Forall_insert_2. Qed.

Lemma totals_size t : totals_ok t → (size t ≤ length event_vocabulary)%nat.
Proof.
  intros Ht. rewrite <-(sorted_bindings_length t), <-(length_fmap fst).
  apply submseteq_length, NoDup_submseteq; [apply sorted_bindings_keys|].
  intros k (p & -> & Hp)%list_elem_of_fmap. apply elem_of_sorted_bindings in Hp. by apply (Ht _ _ Hp).
Qed.

(** ** Decoding what was encoded *)
Definition total_canon (p : metric_key * Z) : json :=
  JObj [(lit "labels", JArr (JStr <$> p.1.2)); (lit "name", JStr p.1.1); (lit "value", JInt p.2)].

Lemma canon_total p : canon (total_json p) = total_canon p.
Proof.
  destruct p as [[n ls] v]. unfold total_json, total_canon. cbn [fst snd canon map].
  assert (Hl : map canon (JStr <$> ls) = JStr <$> ls) by (induction ls as [|x ls IH]; cbn; [done|by f_equal]).
  rewrite Hl. generalize (JArr (JStr <$> ls)). intros v'. reflexivity.
Qed.

Lemma canon_totals t :
  canon (totals_json t) = JObj [(lit "schema", JStr EVENT_JOURNAL_SCHEMA);
                                (lit "totals", JArr (total_canon <$> sorted_bindings t))].
Proof.
  unfold totals_json. cbn [canon map fst snd].
  assert (Hl : map canon (total_json <$> sorted_bindings t) = total_canon <$> sorted_bindings t).
  { induction (sorted_bindings t) as [|p l IH]; [done|]. rewrite !fmap_cons. cbn [map].
    rewrite canon_total. by f_equal. }
  rewrite Hl. generalize (JArr (total_canon <$> sorted_bindings t)). intros v. reflexivity.
Qed.

Lemma decode_total_canon acc p :
  p.1 ∈ event_vocabulary → 0 ≤ p.2 ≤ MAX_METRIC_VALUE → acc !! p.1 = None →
  decode_total acc (total_canon p) = Ok (<[p.1 := p.2]> acc).
Proof.
  intros Hk Hv Hn. unfold total_canon, decode_total.
  assert (has_keys [(lit "labels", JArr (JStr <$> p.1.2)); (lit "name", JStr p.1.1); (lit "value", JInt p.2)]
            [lit "name"; lit "labels"; lit "value"] = true) as ->.
  { unfold has_keys. apply bool_decide_eq_true_2. cbn [fmap list_fmap fst list_to_set]. set_solver. }
  cbn [negb raise_if]. 
  change (od_get (lit "labels") [(lit "labels", JArr (JStr <$> p.1.2)); (lit "name", JStr p.1.1); (lit "value", JInt p.2)])
    with (Some (JArr (JStr <$> p.1.2))).
  change (od_get (lit "name") [(lit "labels", JArr (JStr <$> p.1.2)); (lit "name", JStr p.1.1); (lit "value", JInt p.2)])
    with (Some (JStr p.1.1)).
  change (od_get (lit "value") [(lit "labels", JArr (JStr <$> p.1.2)); (lit "name", JStr p.1.1); (lit "value", JInt p.2)])
    with (Some (JInt p.2)).
  cbn [raise_if mbind result_bind]. rewrite (metric_key_vocabulary _ Hk). cbn [mbind result_bind].
  assert ((p.2 <? 0) || (MAX_METRIC_VALUE <? p.2) = false) as -> by (bsimp; lia).
  rewrite bool_decide_eq_false_2 by (rewrite Hn; by intros []). done.
Qed.

Lemma fold_decode l acc :
  NoDup l.*1 → Forall (λ p, p.1 ∈ event_vocabulary ∧ 0 ≤ p.2 ≤ MAX_METRIC_VALUE ∧ acc !! p.1 = None) l →
  fold_result decode_total acc (total_canon <$> l) = Ok (list_to_map l ∪ acc).
Proof.
  revert acc; induction l as [|[k v] l IH]; intros acc Hnd Hl.
  { cbn. by rewrite (left_id_L ∅ (∪)). }
  rewrite fmap_cons, NoDup_cons in Hnd. destruct Hnd as [Hk Hnd].
  apply Forall_cons in Hl as [(Hv & Hr & Hn) Hl]. rewrite fmap_cons. cbn [fold_result].
  rewrite decode_total_canon by done. cbn [mbind result_bind fst snd].
  rewrite (IH (<[k := v]> acc) Hnd).
  - f_equal. cbn [list_to_map foldr]. rewrite <-insert_union_r by by apply not_elem_of_list_to_map_1.
    by rewrite insert_union_l.
  - rewrite Forall_forall in Hl |- *. intros p Hp.
    destruct (Hl p Hp) as (Hp1 & Hp2 & Hp3). split; [exact Hp1|]. split; [exact Hp2|].
    rewrite lookup_insert_ne; [done|]. intros ->. apply Hk. cbn. by apply list_elem_of_fmap_2.
Qed.

Lemma totals_round_trip t : totals_ok t → decode_totals (canon (totals_json t)) = Ok t.
Proof.
  intros Ht. rewrite canon_totals. unfold decode_totals.
  remember (total_canon <$> sorted_bindings t) as raws eqn:Hraws.
  change (has_keys [(lit "schema", JStr EVENT_JOURNAL_SCHEMA); (lit "totals", JArr raws)] [lit "schema"; lit "totals"])
    with true.
  cbv iota. change (od_get (lit "schema") [(lit "schema", JStr EVENT_JOURNAL_SCHEMA); (lit "totals", JArr raws)])
    with (Some (JStr EVENT_JOURNAL_SCHEMA)).
  change (od_get (lit "totals") [(lit "schema", JStr EVENT_JOURNAL_SCHEMA); (lit "totals", JArr raws)])
    with (Some (JArr raws)).
  cbv iota. rewrite bool_decide_eq_true_2 by done. cbn [negb raise_if mbind result_bind]. rewrite Hraws.
  rewrite fold_decode; [|apply sorted_bindings_keys|].
  - f_equal. rewrite (right_id_L ∅ (∪)). apply map_eq. intros k. apply option_eq. intros v.
    rewrite <-elem_of_list_to_map by apply sorted_bindings_keys. by rewrite elem_of_sorted_bindings.
  - apply Forall_forall. intros p Hp. apply elem_of_sorted_bindings in Hp. by destruct (Ht _ _ Hp).
Qed.

Lemma decode_total_ok acc raw t : totals_ok acc → decode_total acc raw = Ok t → totals_ok t.
Proof.
  intros Ha. unfold decode_total. destruct raw as [| | | | |l]; try done.
  intros (u & _ & Hd)%result_bind_Ok.
  destruct (od_get (lit "labels") l) as [[| | | |labels|]|]; try done.
  destruct (od_get (lit "name") l) as [name|]; [|done]. destruct (od_get (lit "value") l) as [value|]; [|done].
  apply result_bind_Ok in Hd as (key & Hk & Hd). destruct value as [| |z| | |]; try done.
  apply result_bind_Ok in Hd as (u1 & Hz & Hd). apply result_bind_Ok in Hd as (u2 & _ & Hd).
  apply Ok_inj in Hd as <-. apply raise_if_Ok in Hz. apply metric_key_Ok in Hk as (_ & _ & Hk).
  apply totals_ok_insert; [done|done|]. bsimp. lia.
Qed.

Lemma decode_totals_ok payload t : decode_totals payload = Ok t → totals_ok t.
Proof.
  unfold decode_totals. destruct payload as [| | | | |l]; try done. destruct (has_keys l _); [|done].
  destruct (od_get (lit "schema") l) as [[| | |s| |]|]; try done.
  destruct (od_get (lit "totals") l) as [[| | | |raws|]|]; try done.
  intros (u & _ & Hd)%result_bind_Ok. assert (totals_ok ∅) as H0 by apply map_Forall_empty.
  revert H0 Hd. generalize (∅ : event_totals). induction raws as [|raw raws IH]; intros acc Ha; cbn [fold_result].
  - by intros [= ->].
  - intros (acc' & Hr & Hd)%result_bind_Ok. by eapply IH, Hd; eapply decode_total_ok.
Qed.

(** ** The byte bound *)
Definition ascii_text (s : pystr) : Prop := Forall (λ c, 0 ≤ c < 128) s.

Lemma ascii_encode s : ascii_text s → ∃ b, utf8_encode s = Some b ∧ length b = length s.
Proof.
  induction 1 as [|c s Hc _ (b & Hb & Hl)]; [by exists []|]. cbn [utf8_encode].
  assert (utf8_char c = Some [z_to_byte c]) as ->.
  { unfold utf8_char. repeat case_match; bsimp; try lia; done. }
  cbn. rewrite Hb. cbn. eexists. split; [done|]. cbn. lia.
Qed.

Lemma ascii_digits fuel z : 0 ≤ z → ascii_text (digits fuel z).
Proof.
  revert z; induction fuel as [|fuel IH]; intros z Hz; cbn [digits]; [constructor|].
  pose proof (Z.mod_pos_bound z 10 ltac:(lia)). case_match; bsimp.
  - repeat constructor; lia.
  - apply Forall_app. split; [apply IH, Z.div_pos; lia|]. repeat constructor; lia.
Qed.

Lemma digits_length fuel z n : 0 ≤ z < 10 ^ Z.of_nat n → (0 < n)%nat → (length (digits fuel z) ≤ n)%nat.
Proof.
  revert z n; induction fuel as [|fuel IH]; intros z n Hz Hn; cbn [digits]; [cbn; lia|].
  case_match; bsimp; [cbn; lia|]. rewrite length_app. cbn [length].
  destruct n as [|[|n]]; [lia|cbn in Hz; lia|].
  rewrite Nat2Z.inj_succ, Z.pow_succ_r in Hz by lia.
  assert (length (digits fuel (z / 10)) ≤ S n)%nat; [|lia].
  apply IH; [|lia]. split; [apply Z.div_pos; lia|apply Z.div_lt_upper_bound; lia].
Qed.

Lemma print_int_small v : 0 ≤ v ≤ MAX_METRIC_VALUE → ascii_text (print_int v) ∧ (length (print_int v) ≤ 19)%nat.
Proof.
  intros Hv. unfold print_int, print_nat. case_match; bsimp; [lia|]. split; [by apply ascii_digits|].
  apply digits_length; [|lia]. split; [done|]. eapply Z.le_lt_trans; [apply Hv|]. by vm_compute.
Qed.

(** The text of a record before its value. *)
Definition record_head (k : metric_key) : pystr :=
  123 :: quote (lit "labels") ++ 58 :: print (JArr (JStr <$> k.2)) ++ 44 ::
  quote (lit "name") ++ 58 :: quote k.1 ++ 44 :: quote (lit "value") ++ [58].

Lemma print_total k v : print (total_json (k, v)) = record_head k ++ print_int v ++ [125].
Proof.
  unfold total_json, record_head. cbn [print map fst snd].
  generalize (91 :: join 44 (map print (JStr <$> k.2)) ++ [93]). generalize (quote k.1). generalize (print_int v). intros a b c.
  change (sort_keys [(lit "name", b); (lit "labels", c); (lit "value", a)])
    with [(lit "labels", c); (lit "name", b); (lit "value", a)].
  cbn. repeat (rewrite <-(assoc_L (++)); cbn). reflexivity.
Qed.

Lemma record_heads : Forall (λ k, ascii_text (record_head k) ∧ (length (record_head k) ≤ 130)%nat) event_vocabulary.
Proof.
  apply Forall_forall. intros k Hk.
  assert (forallb (λ k, forallb (λ c, (0 <=? c) && (c <? 128)) (record_head k) &&
                        (length (record_head k) <=? 130)%nat) event_vocabulary = true) as Hall
    by (vm_compute; reflexivity).
  rewrite forallb_forall in Hall. apply list_elem_of_In, Hall in Hk.
  apply andb_true_iff in Hk as [Hk Hl%Nat.leb_le]. split; [|done].
  apply Forall_forall. intros c Hc. rewrite forallb_forall in Hk. apply list_elem_of_In, Hk in Hc. bsimp. lia.
Qed.

Lemma print_total_small k v :
  k ∈ event_vocabulary → 0 ≤ v ≤ MAX_METRIC_VALUE →
  ascii_text (print (total_json (k, v))) ∧ (length (print (total_json (k, v))) ≤ 150)%nat.
Proof.
  intros Hk [Hva Hvl]%print_int_small. pose proof record_heads as Hh. rewrite Forall_forall in Hh.
  destruct (Hh k Hk) as [Hka Hkl]. rewrite print_total. split.
  - apply Forall_app. split; [done|]. apply Forall_app. split; [done|]. repeat constructor; lia.
  - rewrite !length_app. cbn [length]. lia.
Qed.

Lemma join_small n l :
  Forall (λ s, ascii_text s ∧ (length s ≤ n)%nat) l →
  ascii_text (join 44 l) ∧ (length (join 44 l) ≤ length l * S n)%nat.
Proof.
  induction 1 as [|x l [Ha Hl] Hf [IHa IHl]]; [split; [constructor|cbn; lia]|].
  destruct l as [|y l]; [cbn; split; [done|lia]|].
  change (join 44 (x :: y :: l)) with (x ++ 44 :: join 44 (y :: l)). split.
  - apply Forall_app. split; [done|]. constructor; [lia|done].
  - rewrite length_app. cbn [length] in *. lia.
Qed.

Definition totals_head : pystr :=
  123 :: quote (lit "schema") ++ 58 :: quote EVENT_JOURNAL_SCHEMA ++ 44 :: quote (lit "totals") ++ [58; 91].

(** The totals always encode, and fit the byte bound with their newline. *)
Lemma totals_fit t :
  totals_ok t → ∃ b, canonical_json (totals_json t) = Ok b ∧ Z.of_nat (length (b ++ newline)) ≤ MAX_EVENT_JOURNAL_BYTES.
Proof.
  intros Ht. set (l := map print (total_json <$> sorted_bindings t)).
  assert (Hl : Forall (λ s, ascii_text s ∧ (length s ≤ 150)%nat) l).
  { apply Forall_map, Forall_fmap, Forall_forall. intros [k v] Hp.
    apply elem_of_sorted_bindings in Hp. destruct (Ht _ _ Hp). by apply print_total_small. }
  assert (Hn : (length l ≤ 12)%nat).
  { unfold l. rewrite length_map, length_fmap, sorted_bindings_length. etrans; [by apply totals_size|].
    vm_compute. lia. }
  destruct (join_small _ _ Hl) as [Ha Hb].
  assert (Hp : print (totals_json t) = totals_head ++ join 44 l ++ [93; 125]).
  { unfold totals_json. cbn [print map fst snd]. fold l. generalize (join 44 l). intros s.
    change (sort_keys [(lit "schema", quote EVENT_JOURNAL_SCHEMA); (lit "totals", 91 :: s ++ [93])])
      with [(lit "schema", quote EVENT_JOURNAL_SCHEMA); (lit "totals", 91 :: s ++ [93])].
    cbn. repeat (rewrite <-(assoc_L (++)); cbn). reflexivity. }
  destruct (ascii_encode (print (totals_json t))) as (b & He & Hlen).
  { rewrite Hp. apply Forall_app. split; [vm_compute; repeat constructor; discriminate|].
    apply Forall_app. split; [done|]. repeat constructor; lia. }
  exists b. split.
  - unfold canonical_json, encode_utf8. by rewrite He.
  - rewrite length_app, Hlen, Hp, !length_app. unfold newline, MAX_EVENT_JOURNAL_BYTES.
    assert (length totals_head ≤ 100)%nat by (vm_compute; lia). cbn [length] in *. lia.
Qed.

(** * The event journal survives crashes

    [journal_from lo hi]: whatever a power loss leaves under [spoolcache-events.json] is
    a synced file of bounded size whose totals lie between [lo] and [hi], or nothing
    where [lo] is zero.  Every operation of the store and of the journal keeps it, with
    the increments that returned counted in [lo] and all the increments in [hi]. *)
Abbreviation tally := (metric_key → Z).

Definition total_of (t : event_totals) (k : metric_key) : Z := default 0 (t !! k).
Definition bump (key : metric_key) (a : Z) (f : tally) : tally := λ k, if decide (k = key) then f k + a else f k.
(** What an accepted amount adds. *)
Definition counted (amount : pyval) : Z := match as_int amount with Some a => Z.max 0 a | None => 0 end.

Lemma counted_nonneg amount : 0 ≤ counted amount.
Proof. unfold counted. case_match; lia. Qed.

Lemma bump_le key a f k : 0 ≤ a → f k ≤ bump key a f k.
Proof. unfold bump. case_decide; lia. Qed.

Lemma total_range t k : totals_ok t → 0 ≤ total_of t k ≤ MAX_METRIC_VALUE.
Proof.
  intros Ht. unfold total_of. destruct (t !! k) as [v|] eqn:E; [by destruct (Ht _ _ E)|]. split; [done|by vm_compute].
Qed.

(** ** Runs that read *)
Lemma readv_Ret ino pos n c w w' :
  sys_readv ino pos n w = (Ret c, w') →
  w_fs w' = w_fs w ∧ ∃ k, (k ≤ n)%nat ∧ c = take k (drop pos (data_of (w_fs w) ino)).
Proof.
  intros Hr. destruct (triple_Ret _ _ _ _ _ _ _ (t_readv (λ fs, fs = w_fs w) ino pos n) eq_refl Hr) as [(k & Hk & ->) Hf].
  split; [done|]. exists k. by rewrite Hf.
Qed.

Lemma read_available_Ret fuel ino pos n acc out w w' :
  read_available fuel ino pos n acc w = (Ret out, w') →
  w_fs w' = w_fs w ∧ ∃ k, out = acc ++ take k (drop pos (data_of (w_fs w) ino)).
Proof.
  revert pos n acc w; induction fuel as [|fuel IH]; intros pos [|n] acc w Hr; cbn [read_available] in Hr;
    try (apply ret_Ret in Hr as [-> ->]; split; [done|]; exists 0%nat; by rewrite take_0, app_nil_r).
  apply bind_Ret in Hr as (c & w1 & Hc & Hr). apply readv_Ret in Hc as (F1 & k & Hk & Hc).
  case_bool_decide; [apply ret_Ret in Hr as [-> ->]; split; [done|]; exists 0%nat; by rewrite take_0, app_nil_r|].
  apply IH in Hr as (F2 & j & ->). split; [congruence|]. rewrite F1.
  set (D := data_of (w_fs w) ino) in *. exists (length c + j)%nat.
  rewrite <-(assoc_L (++)). f_equal. assert (Hcl : c = take (length c) (drop pos D)).
  { rewrite Hc, length_take, length_drop. destruct (decide (k ≤ length D - pos)%nat).
    - by rewrite Nat.min_l by lia.
    - rewrite Nat.min_r by lia. rewrite !take_ge; rewrite ?length_drop; done || lia. }
  rewrite Hcl at 1. by rewrite <-drop_drop, take_take_drop.
Qed.

Lemma k_read_available I fuel ino pos n acc : keeps I (read_available fuel ino pos n acc).
Proof.
  revert pos n acc; induction fuel as [|fuel IH]; intros pos [|n] acc; cbn [read_available]; try apply k_ret.
  apply k_bind; [apply k_readv|]. intros c. case_bool_decide; [apply k_ret|apply IH].
Qed.

Lemma k_load `{JsonLoads} I : keeps I _load.
Proof.
  unfold _load, as_value_error. pose proof (k_read_available I). io_keeps.
Qed.

Lemma t_bind_keeps {A B} I (m : IO A) (f : A → IO B) Q :
  keeps I m → (∀ a, triple I (f a) Q I) → triple I (m ≫= f) Q I.
Proof. intros Hm Hf. by apply (t_bind _ _ _ _ (λ _, I)). Qed.

Lemma as_value_error_Ret {A} caught msg (m : IO A) a w w' :
  as_value_error caught msg m w = (Ret a, w') → m w = (Ret a, w').
Proof.
  intros [Hm|(e & k & w1 & _ & Hh & Hk)]%try_Ret; [done|]. destruct (caught e); [|done].
  injection Hh as <-. discriminate Hk.
Qed.

Lemma readv_no_fault ino pos n w :
  w_faults w = [] → sys_readv ino pos n w = (Ret (take n (drop pos (data_of (w_fs w) ino))), w).
Proof. intros Hw. unfold sys_readv, consult, mbind, io_bind, get_fs, ret. by rewrite Hw. Qed.

Lemma read_available_no_fault ino n w :
  w_faults w = [] → n = length (data_of (w_fs w) ino) →
  read_available n ino 0 n [] w = (Ret (data_of (w_fs w) ino), w).
Proof.
  intros Hw ->. set (D := data_of (w_fs w) ino). destruct (length D) as [|n] eqn:E.
  { apply length_zero_iff_nil in E. cbn. unfold ret. by rewrite E. }
  cbn [read_available]. unfold mbind at 1, io_bind at 1. rewrite (readv_no_fault _ _ _ _ Hw). fold D.
  rewrite drop_0, <-E, take_ge by lia. rewrite bool_decide_eq_false_2 by (by intros Hd; rewrite Hd in E).
  rewrite E, Nat.sub_diag. by destruct n.
Qed.

(** ** The file *)
Section journal.
Context `{JsonLoads}.

Definition file_totals (data : list byte) : result event_totals := payload ← json_loads data; decode_totals payload.

Definition within (lo hi : tally) (t : event_totals) : Prop :=
  totals_ok t ∧ ∀ k, lo k ≤ total_of t k ≤ hi k.

Definition at_journal (p : path) : Prop := p = journal_path.
Definition journal_file (lo hi : tally) (_ : path) (v : option (list byte)) : Prop :=
  match v with
  | None => ∀ k, lo k ≤ 0 ≤ hi k
  | Some D => (0 < Z.of_nat (length D) ≤ MAX_EVENT_JOURNAL_BYTES) ∧ ∃ t, file_totals D = Ok t ∧ within lo hi t
  end.

Definition journal_from (lo hi : tally) (fs : FS) : Prop :=
  prepared fs ∧ guarded false at_journal (journal_file lo hi) fs.
Definition journal_ok (lo hi : tally) (p : path) (v : option node) : Prop :=
  base_ok p v ∧ guard_ok at_journal (journal_file lo hi) p v.
Definition journal_scratch (p : path) : Prop := base_scratch p ∧ guard_scratch at_journal p.

Lemma journal_inv lo hi : store_inv (journal_ok lo hi) journal_scratch (journal_from lo hi).
Proof. exact (and_inv _ _ _ _ _ _ prepared_inv (guarded_inv false at_journal (journal_file lo hi))). Qed.

Lemma within_mono lo hi lo' hi' t :
  within lo hi t → (∀ k, lo' k ≤ lo k) → (∀ k, hi k ≤ hi' k) → within lo' hi' t.
Proof. intros [Ht Hb] Hl Hh. split; [done|]. intros k. specialize (Hb k). specialize (Hl k). specialize (Hh k). lia. Qed.

Lemma journal_mono lo hi lo' hi' fs :
  journal_from lo hi fs → (∀ k, lo' k ≤ lo k) → (∀ k, hi k ≤ hi' k) → journal_from lo' hi' fs.
Proof.
  intros [Hp [Hw Hk]] Hl Hh. split; [done|]. split; [done|]. intros p v Hp' Hv. specialize (Hk p v Hp' Hv).
  assert (Hm : ∀ D, journal_file lo hi p D → journal_file lo' hi' p D).
  { intros [D|]; cbn; [|intros Hz k; specialize (Hz k); specialize (Hl k); specialize (Hh k); lia].
    intros [Hs (t & Ht & Hin)]. split; [done|]. exists t. split; [done|]. by eapply within_mono. }
  destruct v as [[ino| |]|]; cbn in *; [|done..|by apply (Hm None)].
  destruct Hk as (i & Hi & Hs & Hg). exists i.
  split; [done|]. split; [done|]. by apply (Hm (Some _)).
Qed.

(** The totals just written and synced are the only ones a crash can leave. *)
Lemma journal_one lo hi fs ino m D t lo' hi' :
  journal_from lo hi fs → possible fs journal_path = [Some (NFile ino)] → inodes fs !! ino = Some (Inode D true m) →
  0 < Z.of_nat (length D) ≤ MAX_EVENT_JOURNAL_BYTES → file_totals D = Ok t → within lo' hi' t → journal_from lo' hi' fs.
Proof.
  intros [Hp [Hw _]] Hn Hi Hs Ht Hin. split; [done|]. split; [done|]. intros p v -> Hv. cbn in Hv. rewrite Hn in Hv.
  apply list_elem_of_singleton in Hv as ->. eexists. split; [done|]. split; [done|].
  cbn. split; [done|]. by exists t.
Qed.

Lemma journal_live lo hi fs :
  journal_from lo hi fs → journal_file lo hi journal_path
    (match live fs journal_path with Some (NFile ino) => Some (data_of fs ino) | _ => None end) ∧
  live fs journal_path ≠ Some NDir ∧ live fs journal_path ≠ Some NLink.
Proof.
  intros [Hp [_ Hk]]. specialize (Hk journal_path _ eq_refl (possible_head _ _)).
  assert (Hl : live fs journal_path = names fs !! journal_path).
  { change (match live fs state_dir with Some NDir => names fs !! journal_path | _ => None end = names fs !! journal_path).
    rewrite (prepared_live _ state_dir Hp) by (by left). done. }
  rewrite Hl. destruct (names fs !! journal_path) as [[ino| |]|]; cbn in Hk; [|done..|done].
  destruct Hk as (i & Hi & _ & Hg). split; [|done]. unfold data_of. by rewrite Hi.
Qed.

(** ** Loading *)
Lemma load_Ret lo hi t w w' :
  journal_from lo hi (w_fs w) → _load w = (Ret t, w') → within lo hi t ∧ w_fs w' = w_fs w.
Proof.
  intros [Hf _]%journal_live Hr. unfold _load in Hr. apply bind_Ret in Hr as (opened & w1 & Ho & Hr).
  assert (w_fs w1 = w_fs w ∧ opened = live (w_fs w) journal_path) as [F1 ->].
  { apply as_value_error_Ret, or_else_Ret in Ho as [Ho|(e & Ho & He & ->)].
    - apply bind_Ret in Ho as (n & w2 & Ho & Hn). apply ret_Ret in Hn as [-> ->]. by apply open_Ret in Ho as [-> ->].
    - destruct (sys_open journal_path w) as [[n|e'|] w4] eqn:Es; unfold mbind, io_bind in Ho; rewrite Es in Ho;
        try discriminate Ho. injection Ho as -> ->. by apply open_missing in Es as [-> ->]. }
  destruct (live (w_fs w) journal_path) as [[ino| |]|]; try discriminate Hr.
  - apply bind_Ret in Hr as (fs & w2 & Hg & Hr). apply get_fs_Ret in Hg as [-> ->]. cbv zeta in Hr.
    apply bind_Ret in Hr as (? & w2 & Hg & Hr). apply guard_Ret in Hg as [_ ->].
    apply bind_Ret in Hr as (D & w3 & Hd & Hr). apply read_available_Ret in Hd as (F3 & k & HD).
    apply bind_Ret in Hr as (? & w4 & Hg & Hr). apply guard_Ret in Hg as [Hlen ->].
    apply bind_Ret in Hr as (payload & w5 & Hp & Hr). apply lift_Ret in Hr as [Hr ->].
    rewrite F1 in *. cbn [app] in HD. rewrite drop_0 in HD.
    apply negb_false_iff, Nat.eqb_eq in Hlen.
    assert (D = data_of (w_fs w) ino) as ->.
    { rewrite HD in Hlen |- *. rewrite length_take in Hlen. apply take_ge. lia. }
    assert (json_loads (data_of (w_fs w) ino) = Ok payload ∧ w5 = w3) as [Hj ->].
    { by apply as_value_error_Ret, lift_Ret in Hp. }
    split; [|by rewrite F3]. destruct Hf as [_ (t' & Ht & Hin)]. unfold file_totals in Ht. rewrite Hj in Ht.
    cbn [mbind result_bind] in Ht. congruence.
  - apply ret_Ret in Hr as [-> ->]. split; [|done]. split; [apply map_Forall_empty|]. intros k. cbn in Hf.
    unfold total_of. rewrite lookup_empty. apply Hf.
Qed.

(** Without faults a restart reads the file back. *)
Lemma load_no_fault lo hi w :
  journal_from lo hi (w_fs w) → w_faults w = [] → ∃ t, _load w = (Ret t, w) ∧ within lo hi t.
Proof.
  intros Hj Hw. pose proof (journal_live _ _ _ Hj) as (Hf & Hd & Hl).
  assert (∃ t, _load w = (Ret t, w)) as [t Ht]; [|exists t; split; [done|by apply (load_Ret _ _ _ _ _ Hj) in Ht as [? _]]].
  unfold _load, as_value_error, or_else, try_with, sys_open, consult, mbind, io_bind, get_fs. rewrite Hw.
  destruct (live (w_fs w) journal_path) as [[ino| |]|] eqn:El; cbn -[data_of MAX_EVENT_JOURNAL_BYTES decode_totals live journal_path read_available]; [|done|done|by exists ∅].
  destruct Hf as [Hs (t & Ht & _)]. unfold guard_io at 1.
  assert (negb ((0 <? Z.of_nat (length (data_of (w_fs w) ino))) &&
    (Z.of_nat (length (data_of (w_fs w) ino)) <=? MAX_EVENT_JOURNAL_BYTES)) = false) as -> by (bsimp; lia).
  unfold ret at 1. rewrite (read_available_no_fault _ _ _ Hw eq_refl). unfold guard_io.
  rewrite Nat.eqb_refl. cbn [negb]. unfold file_totals in Ht. apply result_bind_Ok in Ht as (payload & Hp & Ht).
  unfold lift, ret. rewrite Hp, Ht. by exists t.
Qed.

(** ** Writing *)
Context `{Uuid}.

Lemma file_totals_written t encoded :
  totals_ok t → canonical_json (totals_json t) = Ok encoded → file_totals (encoded ++ newline) = Ok t.
Proof.
  intros Ht [_ Hc]%json_loads_canonical. unfold file_totals, newline. rewrite Hc. cbn [mbind result_bind].
  by apply totals_round_trip.
Qed.

Lemma t_write lo hi t lo' :
  within lo hi t → within lo' hi t →
  triple (journal_from lo hi) (_write t) (λ _, journal_from lo' hi) (journal_from lo hi).
Proof.
  intros Hin Hin'. pose proof (proj1 Hin) as Hok. destruct (totals_fit t Hok) as (b & Hb & Hsize).
  unfold _write. rewrite Hb. cbn [mbind result_bind]. 
  eapply t_bind; [apply (t_lift (journal_from lo hi))|]. intros encoded. apply t_pure. intros [= <-].
  eapply t_bind; [apply (t_guard' (journal_from lo hi))|]. intros ?. apply t_pure. intros _.
  assert (Hpos : 0 < Z.of_nat (length (b ++ newline)) ≤ MAX_EVENT_JOURNAL_BYTES).
  { split; [|done]. rewrite length_app. cbn [newline length]. lia. }
  change (triple (journal_from lo hi) (replace_file journal_path (b ++ newline)) (λ _, journal_from lo' hi) (journal_from lo hi)).
  eapply t_conseq; [apply (t_replace_file (journal_inv lo hi) EVENT_JOURNAL_NAME state_dir (b ++ newline))|done| |done].
  - intros u. split; [apply base_state_scratch, dot_name; done|]. split; [done|].
    unfold at_journal, small_temporary, journal_path. by intros [=].
  - intros E. apply (f_equal length) in E. rewrite length_app in E. cbn in E. lia.
  - intros fs ino m [Hp Hg] Hi. split.
    + apply prepared_set_name; [done|by cbn; rewrite Hi|by apply base_state].
    + eapply guarded_link; [done|done|]. cbn. split; [done|]. exists t.
      split; [by apply file_totals_written|done].
  - intros ? fs (Hj & ino & m & Hp & Hi). eapply journal_one; [exact Hj|exact Hp|exact Hi|done| |done].
    by apply file_totals_written.
Qed.

(** What a write keeps when it is not about the journal. *)
Lemma k_event_write {ok scratch I} (HI : store_inv ok scratch I) t :
  (∀ u, scratch (small_temporary journal_path u)) → (∀ v, ok journal_path v) → keeps I (_write t).
Proof.
  intros Hs Hj. unfold _write. eapply t_bind; [apply (t_lift I)|]. intros encoded. apply t_pure. intros He.
  apply result_bind_Ok in He as (b & _ & He). apply Ok_inj in He as <-.
  apply k_bind; [apply k_guard|]. intros ?. change (keeps I (replace_file journal_path (b ++ newline))).
  eapply t_conseq; [apply (t_replace_file HI EVENT_JOURNAL_NAME state_dir (b ++ newline) Hs)|done| |done].
  - intros E. apply (f_equal length) in E. rewrite length_app in E. cbn in E. lia.
  - intros fs ino m Hfs Hi. apply (si_name _ _ _ HI); [done|apply Hj|]. cbn. by rewrite Hi.
  - by intros ? fs [? _].
Qed.

Lemma increment_keeps I name labels amount t w :
  (∀ t, keeps I (_write t)) → I (w_fs w) → I (w_fs (event_increment name labels amount t w).2).
Proof.
  intros Hk Hw. unfold event_increment.
  match goal with |- context [match ?m with Ok _ => _ | Raise _ => _ end] => destruct m as [[[key previous] a]|e] end; [|done].
  pose proof (keeps_run _ _ w (Hk (<[key := previous + a]> t)) Hw) as Hr. by destruct (_write _ w) as [[?|?|] w1].
Qed.

(** ** One increment *)
Lemma within_bump lo hi t key a :
  within lo hi t → key ∈ event_vocabulary → 0 ≤ a → total_of t key + a ≤ MAX_METRIC_VALUE →
  within (bump key a lo) (bump key a hi) (<[key := total_of t key + a]> t).
Proof.
  intros [Ht Hb] Hk Ha Hmax. split.
  - apply totals_ok_insert; [done|done|]. split; [|done]. pose proof (total_range t key Ht). lia.
  - intros k. specialize (Hb k). unfold bump, total_of in *. rewrite lookup_insert.
    destruct (decide (key = k)) as [->|Hne]; [rewrite !decide_True by done; cbn; lia|].
    by rewrite !decide_False by congruence.
Qed.

Lemma within_rollback lo hi t key a x :
  within lo hi t → key ∈ event_vocabulary → 0 ≤ a →
  within lo (bump key a hi)
    (if total_of t key =? 0 then delete key (<[key := x]> t) else <[key := total_of t key]> (<[key := x]> t)).
Proof.
  intros [Ht Hb] Hk Ha. rewrite delete_insert_eq, insert_insert_eq.
  assert (Hsame : ∀ k, total_of (if total_of t key =? 0 then delete key t else <[key := total_of t key]> t) k = total_of t k).
  { intros k. unfold total_of at 1. case_match eqn:E; bsimp.
    - rewrite lookup_delete. case_decide; [subst; cbn; lia|done].
    - rewrite lookup_insert. case_decide; [by subst|done]. }
  split.
  - case_match; [by apply map_Forall_delete|]. apply totals_ok_insert; [done|done|]. by apply total_range.
  - intros k. rewrite Hsame. specialize (Hb k). pose proof (bump_le key a hi k Ha). lia.
Qed.

Definition recorded_by (o : outcome unit) (key : metric_key) (a : Z) (f : tally) : tally :=
  match o with Ret _ => bump key a f | _ => f end.

Lemma increment_outcome lo hi t name labels amount w o t' w' :
  journal_from lo hi (w_fs w) → within lo hi t →
  event_increment name labels amount t w = (o, t', w') →
  let lo' := recorded_by o (name, labels) (counted amount) lo in
  let hi' := bump (name, labels) (counted amount) hi in
  journal_from lo' hi' (w_fs w') ∧ (o ≠ Dead → within lo' hi' t').
Proof.
  intros Hj Hin Hr lo' hi'. subst lo' hi'. unfold event_increment in Hr.
  assert (Hskip : ∀ e, (o, t', w') = (Exc e, t, w) →
    journal_from (recorded_by o (name, labels) (counted amount) lo) (bump (name, labels) (counted amount) hi) (w_fs w') ∧
    (o ≠ Dead → within (recorded_by o (name, labels) (counted amount) lo) (bump (name, labels) (counted amount) hi) t')).
  { intros e [= -> -> ->]. cbn [recorded_by].
    assert (∀ k, hi k ≤ bump (name, labels) (counted amount) hi k) by (intros; apply bump_le, counted_nonneg).
    split; [by eapply journal_mono|]. intros _. by eapply within_mono. }
  match goal with H : context [match ?m with Ok _ => _ | Raise _ => _ end] |- _ => destruct m as [[[key previous] a]|e] eqn:E end;
    [|by apply (Hskip e)].
  clear Hskip. apply result_bind_Ok in E as (key' & Hkey & E). apply result_bind_Ok in E as (a' & Ha & E).
  cbv zeta in E. apply result_bind_Ok in E as (u & Hmax & E). apply Ok_inj in E. injection E as <- <- <-.
  apply metric_key_Ok in Hkey as (Hn & Hl & Hk). injection Hn as ->.
  assert (labels = key'.2) as ->.
  { apply (f_equal (mapM json_str)) in Hl. rewrite !mapM_json_str in Hl. by injection Hl. }
  rewrite <-(surjective_pairing key'). apply raise_if_Ok in Hmax. apply need_int_Ok in Ha as [Ha Hpos]. bsimp.
  assert (counted amount = a') as -> by (unfold counted; rewrite Ha; cbn; lia).
  change (default 0 (t !! key')) with (total_of t key') in *.
  assert (Hup : within (bump key' a' lo) (bump key' a' hi) (<[key' := total_of t key' + a']> t))
    by (apply within_bump; [done|done|lia|lia]).
  assert (Hup' : within lo (bump key' a' hi) (<[key' := total_of t key' + a']> t)).
  { eapply within_mono; [exact Hup| |done]. intros k. apply bump_le. lia. }
  assert (Hj' : journal_from lo (bump key' a' hi) (w_fs w)).
  { eapply journal_mono; [exact Hj|done|]. intros k. apply bump_le. lia. }
  pose proof (t_write _ _ _ _ Hup' Hup w Hj') as Hw.
  destruct (_write (<[key' := total_of t key' + a']> t) w) as [[u'|e|] w1]; injection Hr as <- <- <-; cbn [recorded_by].
  - split; [done|]. by intros _.
  - split; [done|]. intros _. apply within_rollback; [done|done|lia].
  - split; [done|]. by intros [].
Qed.
End journal.
