(* ===== verification/JournalSystem.v ===== *)
(** * The journal through the life of a worker

    A step runs an operation of the store, opens the journal, increments a counter,
    ends the process, or loses power, each under any schedule of faults.  The state
    carries two tallies: the increments that returned and the increments tried. *)
From S2P Require Import Prelude Dict Bytes Utf8 Json Hma Manifest Telemetry TelemetryProps Io RankStore IoSpec FsInv TokenFiles TokenHeader TokenScrub StoreOps StoreInv StoreSystem StoreFence StoreEpochs EventJournal JournalSpec.

(** ** The operations keep the journal *)
Definition journal_free (n : pystr) : Prop := n ≠ lit "inventory-withdrawn" ∧ n ≠ EVENT_JOURNAL_NAME.
Lemma journal_free_dot n : head n = Some 46 → journal_free n.
Proof. intros Hn. by split; intros ->. Qed.

Section operations.
Context `{Sha, Uuid, JsonLoads} (st : TokenFileStore) (Hslot : 0 < st_slot_bytes st) (lo hi : tally).
#[local] Abbreviation I := (journal_from lo hi).
Let HI : store_inv (journal_ok lo hi) journal_scratch I := journal_inv lo hi.

Lemma journal_other p v : base_ok p v → p ≠ journal_path → journal_ok lo hi p v.
Proof. intros ? Hp. split; [done|]. by right. Qed.

Lemma journal_state_ok n v : journal_free n → journal_ok lo hi (n :: state_dir) v.
Proof. intros [? Hn]. apply journal_other; [by apply base_state|]. intros [= E]. by apply Hn. Qed.

Lemma journal_state_scratch n : journal_free n → journal_scratch (n :: state_dir).
Proof. intros [? Hn]. split; [by apply base_state_scratch|]. split; [done|]. intros [= E]. by apply Hn. Qed.

Lemma journal_state_dir : journal_ok lo hi state_dir (Some NDir).
Proof. apply journal_other; [apply base_state_dir|done]. Qed.

Lemma k_journal_call c : keeps I (run_store_call st c).
Proof.
  assert (Hf : ∀ p v, base_ok p v → p ≠ journal_path → journal_ok lo hi p v) by apply journal_other.
  apply (k_store_call st Hslot HI).
  - intros k. by apply Hf; [apply base_marker|].
  - intros k. by apply Hf; [apply base_manifest|].
  - intros n. split; [apply base_tmp|]. by split.
  - intros s. by apply Hf; [apply base_shard|].
  - intros hk k r. apply (k_quarantine HI); [by apply Hf; [apply base_manifest|]|by apply Hf; [apply base_marker|]..|].
    intros n v. by apply Hf; [apply base_quarantine|].
  - intros k. assert (keeps I (_clear_inventory_withdrawal k)).
    { apply (k_clear HI). by apply Hf; [apply base_marker|]. }
    pose proof (k_absence HI). unfold acknowledge_absent, _manifest_path. io_keeps.
  - by apply (k_reserve HI journal_free journal_free_dot journal_state_dir journal_state_ok journal_state_scratch).
  - intros b. by apply (k_scrub_write HI journal_free journal_free_dot journal_state_dir journal_state_ok journal_state_scratch).
  - intros n. apply (k_replace HI); [by apply journal_state_ok|done|]. intros v. by apply Hf; [apply base_quarantine|].
  - intros key _. split; [by apply Hf; [apply base_marker|]|].
    intros fs ino D m _ [Hp He] Hi _ Hsh. split; [apply prepared_link; [done|by rewrite Hi|done]|].
    apply guarded_set_name; [done|by cbn; rewrite Hi|]. by intros [=].
  - intros key _. by apply Hf; [apply base_marker|].
Qed.

Lemma k_cleanup_abandoned : keeps I _cleanup_abandoned_temporaries.
Proof.
  pose proof (k_fsync_dir HI state_dir). unfold _cleanup_abandoned_temporaries.
  assert (∀ l n, keeps I (cleanup_loop l n)); [|io_keeps].
  intros l. induction l as [|name l IH]; intros n; cbn [cleanup_loop]; [apply k_ret|].
  destruct (event_temporary name) eqn:Ho; cbn [negb]; [|apply IH].
  assert (keeps I (sys_unlink (name :: state_dir))); [|io_keeps].
  apply (k_unlink HI), journal_state_ok, journal_free_dot. by apply temporary_name in Ho.
Qed.

Lemma journal_init_outcome w o w' :
  I (w_fs w) → journal_init w = (o, w') → I (w_fs w') ∧ ∀ t, o = Ret t → within lo hi t.
Proof.
  intros Hw Hr. assert (Hload : triple I _load (λ t fs, within lo hi t ∧ I fs) I).
  { intros w1 Hw1. pose proof (k_load I w1 Hw1) as Hk. destruct (_load w1) as [[t|e|] w2] eqn:E; [|done|done].
    by apply (load_Ret _ _ _ _ _ Hw1) in E as [? _]. }
  assert (Hinit : triple I journal_init (λ t fs, within lo hi t ∧ I fs) I).
  { unfold journal_init, is_symlink, as_value_error. pose proof k_cleanup_abandoned.
    do 7 (apply t_bind_keeps; [solve [io_keeps]|intros ?]). exact Hload. }
  specialize (Hinit w Hw). rewrite Hr in Hinit. destruct o as [t|e|]; [|by split..].
  destruct Hinit. split; [done|]. by intros ? [= <-].
Qed.
End operations.

(** ** The system *)
Record journal_state := MkJournal {
  js_world : World;
  js_memory : option event_totals;
  js_recorded : tally;
  js_attempted : tally
}.

Section life.
Context `{Sha, Uuid, JsonLoads} (st : TokenFileStore) (Hslot : 0 < st_slot_bytes st).

Inductive journal_step : journal_state → journal_state → Prop :=
  | js_store c o w w' m r a :
      run_store_call st c w = (o, w') →
      journal_step (MkJournal w m r a) (MkJournal w' (match o with Dead => None | _ => m end) r a)
  | js_outside w w' m r a : w_fs w' = w_fs w → journal_step (MkJournal w m r a) (MkJournal w' m r a)
  | js_restart w w' m r a :
      w_fs w' = w_fs w ∨ power_loss (w_fs w) (w_fs w') →
      journal_step (MkJournal w m r a) (MkJournal w' None r a)
  | js_open o w w' r a :
      journal_init w = (o, w') →
      journal_step (MkJournal w None r a) (MkJournal w' (match o with Ret t => Some t | _ => None end) r a)
  | js_increment name labels amount o t t' w w' r a :
      event_increment name labels amount t w = (o, t', w') →
      journal_step (MkJournal w (Some t) r a)
        (MkJournal w' (match o with Dead => None | _ => Some t' end)
           (recorded_by o (name, labels) (counted amount) r) (bump (name, labels) (counted amount) a)).

(** A prepared root without a journal, before its worker starts. *)
Definition journal_start (s : journal_state) : Prop :=
  prepared (w_fs (js_world s)) ∧ lasting (w_fs (js_world s)) journal_path None ∧ js_memory s = None ∧
  js_recorded s = (λ _, 0) ∧ js_attempted s = (λ _, 0).

Definition accounted (s : journal_state) : Prop :=
  journal_from (js_recorded s) (js_attempted s) (w_fs (js_world s)) ∧
  ∀ t, js_memory s = Some t → within (js_recorded s) (js_attempted s) t.

Lemma start_accounted s : journal_start s → accounted s.
Proof.
  intros (Hp & Hl & Hm & Hr & Ha). split; [|by rewrite Hm]. split; [done|]. split; [by destruct Hp|].
  intros p v -> Hv. apply Hl in Hv as ->. cbn. rewrite Hr, Ha. by intros k.
Qed.

Lemma accounted_step s s' : journal_step s s' → accounted s → accounted s'.
Proof.
  intros Hs [Hj Hm]. destruct Hs as [c o w w' m r a Hr|w w' m r a Hf|w w' m r a Hf|o w w' r a Hr|name labels amount o t t' w w' r a Hr];
    cbn in *.
  - pose proof (k_journal_call st Hslot r a c w Hj) as Hk. rewrite Hr in Hk.
    split; [by destruct o|]. by destruct o.
  - split; [by cbn; rewrite Hf|done].
  - split; [|done]. cbn. destruct Hf as [->|Hf]; [done|]. destruct Hj as [Hp Hg].
    split; [by eapply prepared_power_loss|by eapply guarded_power_loss].
  - apply (journal_init_outcome _ _ _ _ _ Hj) in Hr as [? Ht]. split; [done|]. cbn. intros t'.
    destruct o; [|done|done]. intros [= <-]. by apply Ht.
  - apply (increment_outcome _ _ _ _ _ _ _ _ _ _ Hj (Hm t eq_refl)) in Hr as [? Ht]. split; [done|]. cbn.
    intros t1. destruct o; [intros [= <-]; by apply Ht..|done].
Qed.

Lemma accounted_reachable s s' : rtc journal_step s s' → accounted s → accounted s'.
Proof. induction 1 as [|s1 s2 s3 Hs _ IH]; [done|]. intros Ha. by eapply IH, accounted_step. Qed.

(** C13: the persistent counters account for every event across failures of the disk,
    deaths of the process and losses of power.  In every state the worker can reach,
    each total in memory is at least the number of events whose recording returned and
    at most the number of events tried; and a restart without further faults loads
    such totals again, so a crash never leaves a journal that cannot be read. *)
Theorem journal_accounts_events s s' :
  journal_start s → rtc journal_step s s' →
  (∀ t k, js_memory s' = Some t → js_recorded s' k ≤ total_of t k ≤ js_attempted s' k) ∧
  (w_faults (js_world s') = [] →
   ∃ t, _load (js_world s') = (Ret t, js_world s') ∧
        ∀ k, js_recorded s' k ≤ total_of t k ≤ js_attempted s' k).
Proof.
  intros Hs Hr. destruct (accounted_reachable _ _ Hr (start_accounted _ Hs)) as [Hj Hm]. split.
  - intros t k Ht. by apply Hm.
  - intros Hw. destruct (load_no_fault _ _ _ Hj Hw) as (t & Ht & Hin). exists t. split; [done|]. apply Hin.
Qed.
End life.

(** The byte bound is never the reason a counter is lost.  In every state the
    worker can reach, the guard of [_write] does not fire for the totals in memory nor
    for those after one more accepted increment: whatever subset of the vocabulary they
    cover, their canonical text with its newline is at most 64 KiB. *)
Theorem journal_never_outgrows `{Sha, Uuid, JsonLoads} st s s' t key a :
  0 < st_slot_bytes st → journal_start s → rtc (journal_step st) s s' → js_memory s' = Some t →
  _metric_key (JStr key.1) (JStr <$> key.2) = Ok key → 0 ≤ a ≤ MAX_METRIC_VALUE - total_of t key →
  ∃ b, canonical_json (totals_json (<[key := total_of t key + a]> t)) = Ok b ∧
       Z.of_nat (length (b ++ newline)) ≤ MAX_EVENT_JOURNAL_BYTES.
Proof.
  intros Hslot Hs Hr Ht (_ & _ & Hk)%metric_key_Ok Ha.
  destruct (accounted_reachable st Hslot _ _ Hr (start_accounted _ Hs)) as [_ Hm].
  destruct (Hm t Ht) as [Hok _]. apply totals_fit, totals_ok_insert; [done|done|].
  pose proof (total_range t key Hok). lia.
Qed.
