(* ===== verification/Scheduler.v ===== *)
(** * The scheduler half of the connector ([src/spoolcache/vllm/connector.py])

    The request-level state machine of [SpoolCacheConnector] in the scheduler
    process: lookup and admission of a restore, its confirmation after block
    allocation, and the tracking of prompts until a safe store boundary.  A
    method that may raise after changing the object runs in [SE Scheduler].
    vLLM's objects are records of the attributes that the code reads. *)
From S2P Require Import Prelude Dict Bytes Utf8 Config Prefix Inventory Catalog Topology Admission Json Identity Hma Manifest TokenFiles Telemetry.

(** ** vLLM's request objects *)

(** The prompt attributes that a [Request] and a newly scheduled request share.
    [rf_mm_features] is [None] when the attribute is absent or [None], and
    [Some None] when it is not iterable. *)
Record PromptFields := MkPrompt {
  prompt_token_ids : option (list pyval);
  has_prompt_embeds : bool;
  has_lora_request : bool;
  mm_features : option (option (list raw_feature));
  has_mm_hashes : bool
}.

(** [kv_transfer_params] is [Some] when it is a mapping. *)
Record Request := MkRequest {
  rq_id : pystr;
  rq_prompt : PromptFields;
  kv_transfer_params : option (list (pystr * pyval));
  rq_cache_salt : pyval
}.

Record NewRequest := MkNewRequest {
  nr_id : pystr;
  nr_prompt : PromptFields;
  nr_block_ids : list (list pyval);
  nr_num_computed_tokens : pyval
}.

Record CachedRequests := MkCached {
  cr_req_ids : list pystr;
  cr_new_block_ids : list (option (list (list pyval)));
  cr_num_computed_tokens : list pyval;
  cr_resumed_req_ids : gset pystr
}.

Record SchedulerOutput := MkOutput {
  finished_req_ids : list pystr;
  scheduled_new_reqs : list NewRequest;
  scheduled_cached_reqs : CachedRequests;
  num_scheduled_tokens : gmap pystr pyval
}.

(** ** Plans and metadata *)
Record SpoolCachePlan := MkPlan {
  sp_request_id : pystr;
  sp_entry_id : pystr;
  sp_span_tokens : Z;
  sp_block_ids : list (list Z);
  sp_prefixes : list PrefixDigest
}.

#[export] Instance plan_like : StorePlanLike SpoolCachePlan :=
  {| request_id := sp_request_id; plan_entry_id := sp_entry_id; plan_span_tokens := sp_span_tokens |}.

Record SpoolCacheMetadata := MkMetadata {
  loads : list SpoolCachePlan;
  stores : list SpoolCachePlan
}.

Record StoreProgress := MkProgress {
  pr_token_ids : list pyval;
  pr_features : list MultimodalFeatureIdentity;
  pr_cache_salt : pystr;
  pr_target_span : Z;
  pr_block_ids : list (list pyval)
}.

(** ** Request classification *)

(** [params.get(flag) is True] *)
Definition flag_is_true (r : Request) (flag : string) : bool :=
  match kv_transfer_params r with
  | Some params => match od_get (lit flag) params with Some (VBool true) => true | _ => false end
  | None => false
  end.

Definition _request_skips_read (r : Request) : bool := flag_is_true r "spoolcache.skip_read".
Definition _request_skips_write (r : Request) : bool := flag_is_true r "spoolcache.skip_write".

Definition _request_cache_salt (r : Request) : option pystr :=
  match rq_cache_salt r with
  | VNone => Some []
  | VStr s => match utf8_encode s with Some _ => Some s | None => None end
  | _ => None
  end.

(** [_eligible_token_ids] and [_eligible_new_request_tokens]: one body. *)
Definition eligible_tokens (p : PromptFields) : option (list pyval) :=
  if has_prompt_embeds p || has_lora_request p then None else prompt_token_ids p.

Definition modality_enabled (enabled : gset pystr) (f : raw_feature) : bool :=
  match f with
  | RawFeature (VStr m) _ _ _ => bool_decide (m ∈ enabled)
  | _ => false
  end.

(** [None]: the request has no complete media identity.  An object without one of
    the attributes raises [AttributeError], which is caught like the others. *)
Definition _multimodal_feature_identities (p : PromptFields) (token_count : Z)
    (enabled : gset pystr) : option (list MultimodalFeatureIdentity) :=
  match mm_features p with
  | None => if has_mm_hashes p then None else Some []
  | Some None => None
  | Some (Some []) => Some []
  | Some (Some raw) =>
      if existsb (λ f, negb (modality_enabled enabled f)) raw then None
      else match validate_multimodal_features (Some raw) (VInt token_count) with
           | Ok features => Some features
           | Raise _ => None
           end
  end.

(** A validated feature as the argument of [prefix_digests]. *)
Definition feature_arg (f : MultimodalFeatureIdentity) : raw_feature :=
  RawFeature (VStr (modality f)) (VStr (identifier f)) (VInt (offset f)) (VInt (feature_length f)).

(** ** Block tables *)
Definition block_id (v : pyval) : result Z :=
  need_int v (λ z, z <? 0) ValueError "vLLM block IDs must be non-negative integers".

Definition _normalize_block_ids (groups : list (list pyval)) : result (list (list Z)) :=
  mapM_result (mapM_result block_id) groups.

Definition table_arg (groups : list (list Z)) : list (list pyval) :=
  map (map VInt) groups.

Definition _nonnegative_runtime_int (value : pyval) : result Z :=
  need_int value (λ z, z <? 0) RuntimeError "vLLM reported an invalid external-token count".

(** ** The store boundary of one step

    [None]: the target has not been reached; [Some 0]: the step crosses it
    without a safe boundary; a positive span is safe to capture. *)
Definition _pre_forward_store_span (before scheduled target quantum minimum : pyval)
    (require_exact_boundary : bool) : result (option Z) :=
  match as_int before, as_int scheduled, as_int target, as_int quantum, as_int minimum with
  | Some before, Some scheduled, Some target, Some quantum, Some minimum =>
      _ ← raise_if ((before <? 0) || (scheduled <? 0)) ValueError "store progress cannot be negative";
      _ ← raise_if ((target <=? 0) || (quantum <=? 0) || (minimum <? 0)) ValueError
            "store boundary configuration is invalid";
      _ ← raise_if (negb (target mod quantum =? 0)) ValueError "store target is not quantum aligned";
      if before =? target then Ok (Some target)
      else if require_exact_boundary then Ok (if before <? target then None else Some 0)
      else if target <? before then Ok (Some 0)
      else if before + scheduled <? target then Ok None
      else
        let candidate := before / quantum * quantum in
        Ok (Some (if minimum <=? candidate then candidate else 0))
  | _, _, _, _, _ => raise ValueError "store boundary values must be integers"
  end.

(** ** The connector's constants and its scheduler state *)
Record Connector := MkConnector {
  cn_layout : HMALayout;
  cn_deployment_digest : pystr;
  cn_modalities : gset pystr;
  cn_pp_degree : Z;
  cn_coordinates : list WorkerCoordinate;
  cn_coordination_digest : pystr
}.

Record Scheduler := MkScheduler {
  s_catalog : option QuorumCatalog;
  s_need_load : gmap pystr (pystr * Z * Z);
  s_pending_loads : list (pystr * SpoolCachePlan);
  s_store_progress : gmap pystr StoreProgress;
  s_request_salts : gmap pystr (option pystr);
  s_skip_write : gset pystr;
  s_telemetry : option TelemetryBuffer;
  s_reported_changes : Z
}.

Definition set_catalog (c : option QuorumCatalog) (s : Scheduler) : Scheduler :=
  MkScheduler c (s_need_load s) (s_pending_loads s) (s_store_progress s) (s_request_salts s)
    (s_skip_write s) (s_telemetry s) (s_reported_changes s).
Definition set_need_load (m : gmap pystr (pystr * Z * Z)) (s : Scheduler) : Scheduler :=
  MkScheduler (s_catalog s) m (s_pending_loads s) (s_store_progress s) (s_request_salts s)
    (s_skip_write s) (s_telemetry s) (s_reported_changes s).
Definition set_pending_loads (l : list (pystr * SpoolCachePlan)) (s : Scheduler) : Scheduler :=
  MkScheduler (s_catalog s) (s_need_load s) l (s_store_progress s) (s_request_salts s)
    (s_skip_write s) (s_telemetry s) (s_reported_changes s).
Definition set_store_progress (m : gmap pystr StoreProgress) (s : Scheduler) : Scheduler :=
  MkScheduler (s_catalog s) (s_need_load s) (s_pending_loads s) m (s_request_salts s)
    (s_skip_write s) (s_telemetry s) (s_reported_changes s).
Definition set_requests (salts : gmap pystr (option pystr)) (skip : gset pystr) (s : Scheduler)
    : Scheduler :=
  MkScheduler (s_catalog s) (s_need_load s) (s_pending_loads s) (s_store_progress s) salts
    skip (s_telemetry s) (s_reported_changes s).
Definition set_telemetry (t : option TelemetryBuffer) (s : Scheduler) : Scheduler :=
  MkScheduler (s_catalog s) (s_need_load s) (s_pending_loads s) (s_store_progress s)
    (s_request_salts s) (s_skip_write s) t (s_reported_changes s).
Definition set_reported (n : Z) (s : Scheduler) : Scheduler :=
  MkScheduler (s_catalog s) (s_need_load s) (s_pending_loads s) (s_store_progress s)
    (s_request_salts s) (s_skip_write s) (s_telemetry s) n.

(** [_chunk_tokens]; the constructor has evaluated it, so it does not raise later
    ([chunk_tokens_of_valid] in SchedulerSpec). *)
Definition _chunk_tokens (layout : HMALayout) : Z :=
  match aligned_chunk_tokens (VInt (alignment_tokens layout)) with Ok c => c | Raise _ => 0 end.
Definition _minimum_span (layout : HMALayout) : Z := _chunk_tokens layout.
Definition _store_quantum (layout : HMALayout) : Z := _chunk_tokens layout.

Definition _store_requires_exact_boundary (layout : HMALayout) : bool :=
  existsb (λ g, bool_decide (reuse_policy g = PRecurrentAlign) || bool_decide (reuse_policy g = PCircularOne))
    (groups layout).

Definition safe_span (layout : HMALayout) (prompt_tokens : Z) : result Z :=
  aligned_prefix_span (VInt prompt_tokens) (VInt (alignment_tokens layout))
    (VInt (_chunk_tokens layout)) (VInt (_minimum_span layout)) None.

Definition _safe_restore_span (layout : HMALayout) (prompt_tokens : Z) : result Z :=
  safe_span layout prompt_tokens.
Definition _safe_store_span (layout : HMALayout) (prompt_tokens : Z) : result Z :=
  safe_span layout (prompt_tokens + 1).

(** [range(chunk, ceiling + 1, chunk)] *)
Definition _lookup_boundaries (layout : HMALayout) (ceiling : Z) : list pyval :=
  VInt <$> chunk_multiples (_chunk_tokens layout) ceiling.

(** Telemetry calls do nothing when there is no buffer. *)
Definition with_telemetry (m : SE TelemetryBuffer unit) : SE Scheduler unit := λ s,
  match s_telemetry s with
  | None => (Ok tt, s)
  | Some b => let (r, b') := m b in (r, set_telemetry (Some b') s)
  end.

Definition count_metric (name : string) (value : Z) (labels : list string) : SE Scheduler unit :=
  with_telemetry (increment (MStr (lit name)) (MNum (NInt value)) (MStr ∘ lit <$> labels)).
Definition gauge_metric (name : string) (value : Z) (labels : list string) : SE Scheduler unit :=
  with_telemetry (set_gauge (MStr (lit name)) (MNum (NInt value)) (MStr ∘ lit <$> labels)).

Definition _record_lookup (outcome reason : string) : SE Scheduler unit :=
  count_metric "spoolcache_lookup_total" 1 [outcome; reason].

(** [bool] as a gauge value *)
Definition gauge_bool (b : bool) : Z := if b then 1 else 0.

Section scheduler.
Context `{Sha} (cn : Connector).

Let layout := cn_layout cn.
Let chunk := _chunk_tokens layout.

(** ** Quorum queries *)
Definition _has_boundary_quorum (catalog : option QuorumCatalog) (key : pystr) (span : Z) : result bool :=
  if negb (has_boundary_state layout) then Ok true
  else match catalog with
       | None => Ok false
       | Some c => k ← boundary_state_key key; Ok (has_quorum c k (Some span))
       end.

(** The longest candidate of an unbroken chain, at a restorable boundary. *)
Fixpoint _select_prefix (c : QuorumCatalog) (candidates : list PrefixDigest) (first : Z)
    (selected : option (Z * pystr)) : result (option (Z * pystr)) :=
  match candidates with
  | [] => Ok selected
  | prefix :: candidates =>
      if negb (has_quorum c (digest prefix) (Some (span_tokens prefix))) then Ok selected
      else
        selected ←
          (if (first <=? span_tokens prefix) && (span_tokens prefix mod alignment_tokens layout =? 0)
           then
             b ← _has_boundary_quorum (Some c) (digest prefix) (span_tokens prefix);
             Ok (if b : bool then Some (span_tokens prefix, digest prefix) else selected)
           else Ok selected);
        _select_prefix c candidates first selected
  end.

Definition chain_quorum (c : QuorumCatalog) (prefixes : list PrefixDigest) : bool :=
  forallb (λ p, has_quorum c (digest p) (Some (span_tokens p))) prefixes.

Definition _cached_plan (catalog : option QuorumCatalog) (plan : SpoolCachePlan) : result bool :=
  match catalog with
  | None => Ok false
  | Some c =>
      b ← _has_boundary_quorum catalog (sp_entry_id plan) (sp_span_tokens plan);
      Ok (b && chain_quorum c (sp_prefixes plan ++ [MkPrefixDigest (sp_span_tokens plan) (sp_entry_id plan)]))
  end.

(** The digests of every chunk boundary up to [span]. *)
Definition chain_digests (tokens : list pyval) (salt : pystr) (features : list MultimodalFeatureIdentity)
    (span : Z) : result (list PrefixDigest) :=
  prefix_digests tokens (cn_deployment_digest cn) salt chunk (Some (_lookup_boundaries layout span))
    (Some (feature_arg <$> features)).

(** [prefixes\[-1\]] *)
Definition last_prefix (prefixes : list PrefixDigest) : result PrefixDigest :=
  match last prefixes with Some p => Ok p | None => raise IndexError "tuple index out of range" end.

Definition _cached_request (catalog : option QuorumCatalog) (tokens : list pyval) (span : Z)
    (salt : pystr) (media : list MultimodalFeatureIdentity) : result bool :=
  match catalog with
  | None => Ok false
  | Some c =>
      prefixes ← chain_digests tokens salt media span;
      tail ← last_prefix prefixes;
      b ← _has_boundary_quorum catalog (digest tail) span;
      Ok (b && chain_quorum c prefixes)
  end.

(** ** Lookup *)
Definition active_restores (s : Scheduler) : gset pystr :=
  dom (s_need_load s) ∪ list_to_set (s_pending_loads s).*1.

(** The pure part of a lookup: the tokens, the ceiling and the selected prefix.
    [inl reason] is a miss. *)
Definition find_prefix (c : QuorumCatalog) (request : Request) (num_computed_tokens : pyval)
    : result (string + (Z * pystr * Z)) :=
  match _request_cache_salt request with
  | None => Ok (inl "cache_salt"%string)
  | Some salt =>
      match eligible_tokens (rq_prompt request) with
      | None => Ok (inl "request_shape"%string)
      | Some tokens =>
          let n := Z.of_nat (length tokens) in
          computed ← need_int num_computed_tokens (λ z, (z <? 0) || (n <? z)) RuntimeError
                       "vLLM reported an invalid computed-token count";
          match _multimodal_feature_identities (rq_prompt request) n (cn_modalities cn) with
          | None => Ok (inl "multimodal_identity"%string)
          | Some features =>
              ceiling ← _safe_restore_span layout n;
              let first := Z.max (_minimum_span layout) ((computed / chunk + 1) * chunk) in
              if ceiling <? first then Ok (inl "safe_span"%string) else
              candidates ← chain_digests tokens salt features ceiling;
              selected ← _select_prefix c candidates first None;
              match selected with
              | None => Ok (inl "rank_quorum"%string)
              | Some (span, entry_id) => Ok (inr (span, entry_id, computed))
              end
          end
      end
  end.

(** The admission of a selected prefix. *)
Definition admit_restore (id : pystr) (span : Z) (entry_id : pystr) (computed : Z)
    : SE Scheduler (Z * bool) := λ s,
  if negb (bool_decide (id ∈ active_restores s))
     && (MAX_PENDING_RESTORES <=? Z.of_nat (size (active_restores s)))
  then (do_ _record_lookup "miss" "restore_budget"; se_ret (0, false))%py s
  else
    let external := span - computed in
    if external <=? 0
    then (raise RuntimeError "SpoolCache selected a non-positive external span", s)
    else
      (do_ se_modify (λ s : Scheduler, set_need_load (<[id := (entry_id, span, external)]> (s_need_load s)) s);
       do_ _record_lookup "hit" "ready_entry";
       do_ count_metric "spoolcache_hit_tokens_total" external [];
       se_ret (external, false))%py s.

Definition get_num_new_matched_tokens (request : Request) (num_computed_tokens : pyval)
    : SE Scheduler (Z * bool) := λ s,
  if _request_skips_read request
  then (do_ _record_lookup "bypass" "request_skip_read"; se_ret (0, false))%py s
  else
    match s_catalog s with
    | None => (do_ _record_lookup "miss" "catalog_unavailable"; se_ret (0, false))%py s
    | Some c =>
        match find_prefix c request num_computed_tokens with
        | Raise e => (Raise e, s)
        | Ok (inl reason) => (do_ _record_lookup "miss" reason; se_ret (0, false))%py s
        | Ok (inr (span, entry_id, computed)) => admit_restore (rq_id request) span entry_id computed s
        end
    end.

Definition on_new_request (request : Request) (s : Scheduler) : Scheduler :=
  let salt := _request_cache_salt request in
  let stored := match salt with Some (c :: rest) => Some (c :: rest) | _ => None end in
  let skip := match salt with None => true | Some _ => _request_skips_write request end in
  set_requests (<[rq_id request := stored]> (s_request_salts s))
    (if skip then {[rq_id request]} ∪ s_skip_write s else s_skip_write s ∖ {[rq_id request]}) s.

(** Confirmation of a restore after vLLM has allocated its blocks. *)
Definition update_state_after_alloc (request : Request) (blocks : list (list pyval))
    (num_external_tokens : pyval) : SE Scheduler unit := λ s,
  match _nonnegative_runtime_int num_external_tokens with
  | Raise e => (Raise e, s)
  | Ok external =>
      let pending := s_need_load s !! rq_id request in
      let s := set_need_load (delete (rq_id request) (s_need_load s)) s in
      if external =? 0 then (Ok tt, s) else
      match pending with
      | None => (raise RuntimeError "SpoolCache load allocation has no admitted entry", s)
      | Some (entry_id, span, expected) =>
          if negb (external =? expected)
          then (raise RuntimeError "vLLM external-token allocation differs from the admitted span", s)
          else
            match
              (block_ids ← _normalize_block_ids blocks;
               _ ← layout_select_physical_pages layout (table_arg block_ids) (VInt span);
               Ok block_ids)
            with
            | Raise e => (Raise e, s)
            | Ok block_ids =>
                let plan := MkPlan (rq_id request) entry_id span block_ids [] in
                (Ok tt, set_pending_loads (od_set (rq_id request) plan (s_pending_loads s)) s)
            end
      end
  end.

(** ** Store tracking *)
Definition _plan_from_progress (id : pystr) (progress : StoreProgress) (span : Z)
    : result SpoolCachePlan :=
  block_ids ← _normalize_block_ids (pr_block_ids progress);
  _ ← layout_select_physical_pages layout (table_arg block_ids) (VInt span);
  prefixes ← chain_digests (pr_token_ids progress) (pr_cache_salt progress) (pr_features progress) span;
  tail ← last_prefix prefixes;
  Ok (MkPlan id (digest tail) span block_ids (removelast prefixes)).

(** The boundary of the step for one tracked prompt. *)
Definition step_boundary (before scheduled : pyval) (target : Z) : result (option Z) :=
  _pre_forward_store_span before scheduled (VInt target) (VInt (_store_quantum layout))
    (VInt (_minimum_span layout)) (_store_requires_exact_boundary layout).

Definition scheduled_tokens (out : SchedulerOutput) (id : pystr) : pyval :=
  default (VInt 0) (num_scheduled_tokens out !! id).

Definition count_unsafe : SE Scheduler unit :=
  count_metric "spoolcache_store_skipped_total" 1 ["unsafe_boundary"%string].

(** What a decided boundary yields: a plan unless every rank already offers it. *)
Definition plan_at (id : pystr) (progress : StoreProgress) (candidate : Z)
    : SE Scheduler (list SpoolCachePlan) := λ s,
  if 0 <? candidate then
    (plan ← _plan_from_progress id progress candidate;
     cached ← _cached_plan (s_catalog s) plan;
     Ok (if cached : bool then [] else [plan]), s)
  else (do_ count_unsafe; se_ret [])%py s.

(** The progress of a newly scheduled prompt; [None] when it is not tracked. *)
Definition new_progress (s : Scheduler) (r : NewRequest) : result (option StoreProgress) :=
  if bool_decide (nr_id r ∈ s_skip_write s) then Ok None else
  match eligible_tokens (nr_prompt r) with
  | None => Ok None
  | Some tokens =>
      let n := Z.of_nat (length tokens) in
      match _multimodal_feature_identities (nr_prompt r) n (cn_modalities cn) with
      | None => Ok None
      | Some features =>
          target ← _safe_store_span layout n;
          if target <=? 0 then Ok None else
          let salt := default [] (mjoin (s_request_salts s !! nr_id r)) in
          cached ← _cached_request (s_catalog s) tokens target salt features;
          if cached : bool then Ok None
          else Ok (Some (MkProgress tokens features salt target (nr_block_ids r)))
      end
  end.

Definition track_new_request (out : SchedulerOutput) (r : NewRequest)
    : SE Scheduler (list SpoolCachePlan) := λ s,
  match new_progress s r with
  | Raise e => (Raise e, s)
  | Ok None => (Ok [], s)
  | Ok (Some progress) =>
      match step_boundary (nr_num_computed_tokens r) (scheduled_tokens out (nr_id r))
              (pr_target_span progress) with
      | Raise e => (Raise e, s)
      | Ok None => (Ok [], set_store_progress (<[nr_id r := progress]> (s_store_progress s)) s)
      | Ok (Some candidate) => plan_at (nr_id r) progress candidate s
      end
  end.

(** Blocks appended to the tables, or replacing them after a resumption; [None]
    when the group counts disagree. *)
Definition extend_blocks (resumed : bool) (progress : StoreProgress)
    (new_groups : option (list (list pyval))) : option StoreProgress :=
  match new_groups with
  | None => Some progress
  | Some normalized =>
      if negb (Z.of_nat (length normalized) =? Z.of_nat (length (pr_block_ids progress))) then None
      else
        Some (MkProgress (pr_token_ids progress) (pr_features progress) (pr_cache_salt progress)
                (pr_target_span progress)
                (if resumed then normalized
                 else zip_with (++) (pr_block_ids progress) normalized))
  end.

(** [l\[index\]] *)
Definition py_index {A} (l : list A) (index : nat) : result A :=
  match l !! index with Some x => Ok x | None => raise IndexError "list index out of range" end.

Definition drop_progress (id : pystr) (s : Scheduler) : Scheduler :=
  set_store_progress (delete id (s_store_progress s)) s.

Definition track_cached_request (out : SchedulerOutput) (index : nat) (id : pystr)
    : SE Scheduler (list SpoolCachePlan) := λ s,
  let cached := scheduled_cached_reqs out in
  match s_store_progress s !! id with
  | None => (Ok [], s)
  | Some progress =>
      match py_index (cr_new_block_ids cached) index with
      | Raise e => (Raise e, s)
      | Ok new_groups =>
          match extend_blocks (bool_decide (id ∈ cr_resumed_req_ids cached)) progress new_groups with
          | None => (Ok [], drop_progress id s)
          | Some progress =>
              let s := set_store_progress (<[id := progress]> (s_store_progress s)) s in
              match
                (before ← py_index (cr_num_computed_tokens cached) index;
                 step_boundary before (scheduled_tokens out id) (pr_target_span progress))
              with
              | Raise e => (Raise e, s)
              | Ok None => (Ok [], s)
              | Ok (Some candidate) => plan_at id progress candidate (drop_progress id s)
              end
          end
      end
  end.

(** Run a step for every element and concatenate the plans. *)
Fixpoint collect {A} (f : A → SE Scheduler (list SpoolCachePlan)) (l : list A)
    : SE Scheduler (list SpoolCachePlan) :=
  match l with
  | [] => se_ret []
  | x :: l => (do plans <- f x; do rest <- collect f l; se_ret (plans ++ rest))%py
  end.

Definition _track_new_requests (out : SchedulerOutput) : SE Scheduler (list SpoolCachePlan) :=
  collect (track_new_request out) (scheduled_new_reqs out).

Definition _track_cached_requests (out : SchedulerOutput) : SE Scheduler (list SpoolCachePlan) :=
  collect (λ p, track_cached_request out p.1 p.2)
    (imap pair (cr_req_ids (scheduled_cached_reqs out))).

(** A finished request leaves every table but the confirmed loads. *)
Definition forget_request (s : Scheduler) (id : pystr) : Scheduler :=
  set_requests (delete id (s_request_salts s)) (s_skip_write s ∖ {[id]})
    (set_need_load (delete id (s_need_load s)) (drop_progress id s)).

Definition build_connector_meta (out : SchedulerOutput) : SE Scheduler SpoolCacheMetadata := λ s,
  let loads := (s_pending_loads s).*2 in
  let s := foldl forget_request (set_pending_loads [] s) (finished_req_ids out) in
  (do fresh <- _track_new_requests out;
   do cached <- _track_cached_requests out;
   do admission <- se_lift (admit_store_plans (fresh ++ cached) (VInt MAX_PENDING_STORES));
   do_ (if skipped_duplicate admission =? 0 then se_ret tt
        else count_metric "spoolcache_store_skipped_total" (skipped_duplicate admission)
               ["duplicate"%string]);
   do_ (if skipped_budget admission =? 0 then se_ret tt
        else count_metric "spoolcache_store_skipped_total" (skipped_budget admission)
               ["budget"%string]);
   se_ret (MkMetadata loads (admitted admission)))%py s.
End scheduler.
