(* ===== verification/SchedulerSpec.v ===== *)
(** * What the scheduler's decisions mean

    The store boundary of a step, the selection of a prefix and the plan of a
    tracked prompt, each related to what it stands for: computed tokens, unbroken
    chains of offered keys, valid page tables. *)
From S2P Require Import Prelude Dict Bytes Utf8 Config Prefix Inventory Catalog CatalogInv CatalogSpec Topology Admission Json Identity Hma Manifest TokenFiles Telemetry Scheduler.

(** ** The chunk width of a layout *)
Lemma chunk_tokens_of_valid layout :
  0 < alignment_tokens layout →
  aligned_chunk_tokens (VInt (alignment_tokens layout)) = Ok (_chunk_tokens layout) ∧
  0 < _chunk_tokens layout ∧ (alignment_tokens layout | _chunk_tokens layout).
Proof.
  intros Ha. unfold _chunk_tokens.
  destruct (aligned_chunk_tokens (VInt (alignment_tokens layout))) as [c|] eqn:Ec.
  - apply aligned_chunk_tokens_Ok in Ec as [_ ->]. split; [done|]. split; [|apply Z.divide_factor_r].
    assert (1 ≤ (256 + alignment_tokens layout - 1) / alignment_tokens layout)
      by (apply Z.div_le_lower_bound; lia). nia.
  - unfold aligned_chunk_tokens in Ec. cbn in Ec. rewrite (proj2 (Z.leb_gt _ _)) in Ec by done. done.
Qed.

Lemma chunk_alignment layout : 0 < _chunk_tokens layout → 0 < alignment_tokens layout.
Proof.
  unfold _chunk_tokens. destruct (aligned_chunk_tokens _) as [c|] eqn:E; [|lia].
  apply aligned_chunk_tokens_Ok in E. lia.
Qed.

Lemma safe_span_Ok layout p span :
  safe_span layout p = Ok span →
  span = 0 ∨ 0 < _chunk_tokens layout ∧ (_chunk_tokens layout | span) ∧
    _chunk_tokens layout ≤ span ≤ p - 1.
Proof.
  unfold safe_span, aligned_prefix_span, _minimum_span. cbn.
  set (a := alignment_tokens layout). set (c := _chunk_tokens layout).
  destruct ((p <=? 1) || (a <=? 0) || (c <=? 0)) eqn:E; [intros [= <-]; by left|]. bsimp.
  destruct E as [[Hp Ha] Hc]. intros [= <-]. case_match eqn:Em; [right|by left]. bsimp.
  destruct (chunk_tokens_of_valid layout Ha) as (_ & _ & Hd). fold a c in Hd.
  rewrite quantum_lcm in * by lia.
  assert (Hl : Z.lcm a c = c).
  { apply Z.divide_lcm_eq_r; [lia|exact Hd]. }
  rewrite Hl in *. split; [done|]. split; [apply Z.divide_factor_r|]. split; [done|].
  pose proof (Z.mul_div_le (p - 1) c Hc). lia.
Qed.

(** ** The store boundary *)

(** A positive boundary is already computed, aligned, within the target, and the
    exact target when a group only exposes its current state. *)

(** A positive boundary has been computed, lies within the target, is aligned and
    is the last such boundary; a group that only exposes its current state is
    captured exactly at the target. *)
Lemma store_span_captured b s t q m ex c :
  _pre_forward_store_span b s (VInt t) (VInt q) m ex = Ok (Some c) → 0 < c →
  ∃ before scheduled, b = VInt before ∧ s = VInt scheduled ∧ 0 < q ∧
    c ≤ before ∧ c ≤ t ∧ (q | c) ∧ t ≤ before + scheduled ∧
    (ex = true → c = t ∧ c = before) ∧ (∀ d, (q | d) → d ≤ before → d ≤ t → d ≤ c).
Proof.
  unfold _pre_forward_store_span. cbn [as_int].
  destruct (as_int b) as [before|] eqn:Eb; [|done]. destruct (as_int s) as [scheduled|] eqn:Es; [|done].
  destruct (as_int m) as [minimum|] eqn:Em; [|done].
  apply as_int_Some in Eb as ->. apply as_int_Some in Es as ->. intros Hs Hc.
  apply result_bind_Ok in Hs as (u & Hb & Hs). apply raise_if_Ok in Hb.
  apply result_bind_Ok in Hs as (u' & Hcfg & Hs). apply raise_if_Ok in Hcfg.
  apply result_bind_Ok in Hs as (u'' & Hq & Hs). apply raise_if_Ok in Hq. bsimp.
  destruct Hb as [Hb Hsc], Hcfg as [[Ht Hq0] Hm]. apply Z.mod_divide in Hq; [|lia].
  exists before, scheduled. split; [done|]. split; [done|]. split; [done|].
  destruct (before =? t) eqn:E1; bsimp.
  { injection Hs as <-. split_and!; try done; try lia. }
  destruct ex.
  { case_match; bsimp; [done|]. injection Hs as <-; lia. }
  destruct (t <? before) eqn:E2; bsimp; [injection Hs as <-; lia|].
  destruct (before + scheduled <? t) eqn:E3; bsimp; [done|].
  case_match eqn:E4; bsimp; injection Hs as <-; [|lia].
  pose proof (Z.mul_div_le before q Hq0).
  split_and!; try done; try lia; [apply Z.divide_factor_r|].
  intros d [k ->] Hd _. apply Z.mul_le_mono_nonneg_r; [lia|]. apply Z.div_le_lower_bound; lia.
Qed.

(** The tracking of one prompt over the scheduled token counts of its steps. *)
Fixpoint first_decision (before : Z) (steps : list Z) (target quantum minimum : Z) (ex : bool)
    : option Z :=
  match steps with
  | [] => None
  | scheduled :: steps =>
      match _pre_forward_store_span (VInt before) (VInt scheduled) (VInt target) (VInt quantum)
              (VInt minimum) ex with
      | Ok (Some c) => Some c
      | Ok None => first_decision (before + scheduled) steps target quantum minimum ex
      | Raise _ => None
      end
  end.

Lemma store_span_total b s t q m ex :
  0 ≤ b → 0 ≤ s → 0 < t → 0 < q → 0 ≤ m → (q | t) →
  ∃ r, _pre_forward_store_span (VInt b) (VInt s) (VInt t) (VInt q) (VInt m) ex = Ok r ∧
    (r = None ↔ b < t ∧ (ex = true ∨ b + s < t)) ∧ (b = t → r = Some t).
Proof.
  intros Hb Hs Ht Hq Hm Hd. unfold _pre_forward_store_span. cbn [as_int].
  rewrite (proj2 (Z.ltb_ge b 0)), (proj2 (Z.ltb_ge s 0)), (proj2 (Z.ltb_ge m 0)), (proj2 (Z.leb_gt t 0)),
    (proj2 (Z.leb_gt q 0)) by lia.
  cbn [orb raise_if mbind result_bind].
  apply Z.mod_divide in Hd; [|lia]. rewrite Hd. cbn [Z.eqb negb raise_if mbind result_bind].
  destruct (b =? t) eqn:E1; bsimp; [eexists; split; [done|]; split; [split; [done|lia]|congruence]|].
  destruct ex.
  { eexists; split; [done|]. split; [|lia]. case_match; bsimp; split; try done; intuition lia. }
  destruct (t <? b) eqn:E2; bsimp; [eexists; split; [done|]; split; [split; [done|lia]|lia]|].
  destruct (b + s <? t) eqn:E3; bsimp; eexists; split; [done| |done|].
  - split; [|lia]. split; [intuition lia|done].
  - split; [|lia]. split; [by destruct (m <=? _)|]. intros [_ [?|?]]; [done|lia].
Qed.

(** tracking ends.  Once the scheduled tokens before the last step reach the
    target, some step has decided; and when a step starts exactly at the target,
    it is the one that decides, for the whole target, even for a layout that only
    exposes its current state. *)
Theorem tracking_terminates before steps target quantum minimum ex :
  0 ≤ before ≤ target → Forall (λ s, 0 < s) steps →
  0 < target → 0 < quantum → 0 ≤ minimum → (quantum | target) →
  (target ≤ before + foldr Z.add 0 (removelast steps) → steps ≠ [] →
    is_Some (first_decision before steps target quantum minimum ex)) ∧
  (∀ now later, steps = now ++ later → later ≠ [] → before + foldr Z.add 0 now = target →
    ex = true → first_decision before steps target quantum minimum ex = Some target).
Proof.
  intros Hb Hs Ht Hq Hm Hd. revert before Hb. induction Hs as [|s steps Hs Hrest IH]; intros before Hb.
  { split; [done|]. intros now later He Hl. destruct now; [by subst|done]. }
  cbn [first_decision].
  destruct (store_span_total before s target quantum minimum ex) as (r & -> & Hnone & Heq);
    [lia|lia|done..|]. destruct r as [c|].
  - split; [by eauto|]. intros now later He Hl Hsum Hex. destruct now as [|s' now].
    + cbn in Hsum. apply Heq. lia.
    + injection He as <- ->. exfalso. assert (Hn : before < target).
      { assert (0 ≤ foldr Z.add 0 now).
        { apply Forall_app in Hrest as [Hnow _]. clear -Hnow. induction Hnow; cbn; lia. }
        cbn in Hsum. lia. }
      by assert (Some c = None) by (apply Hnone; auto).
  - destruct (proj1 Hnone eq_refl) as [Hlt Hcase]. split.
    + intros Hsum _. destruct steps as [|s' steps]; [cbn in Hsum; lia|].
      destruct (decide (before + s ≤ target)) as [Hle|Hgt].
      * apply IH; [lia| |done]. change (removelast (s :: s' :: steps)) with (s :: removelast (s' :: steps)) in Hsum.
        cbn [foldr] in Hsum. lia.
      * destruct Hcase as [->|]; [|lia]. cbn [first_decision]. apply Forall_cons in Hrest as [Hs' _].
        destruct (store_span_total (before + s) s' target quantum minimum true) as (r & -> & Hn & _);
          [lia|lia|done..|]. destruct r; [by eauto|]. exfalso. destruct (proj1 Hn eq_refl). lia.
    + intros now later He Hl Hsum Hex. destruct now as [|s' now]; [cbn in Hsum; lia|].
      injection He as <- ->. destruct (IH (before + s)) as [_ IH2].
      * assert (0 ≤ foldr Z.add 0 now).
        { apply Forall_app in Hrest as [Hnow _]. clear -Hnow. induction Hnow; cbn; lia. }
        cbn in Hsum. lia.
      * apply (IH2 now later); [done|done| |done]. cbn in Hsum. lia.
Qed.

(** ** What the catalog offers *)

(** Every rank holds [key] with this span. *)
Definition offered (c : QuorumCatalog) (key : pystr) (span : Z) : Prop :=
  ∀ r, r ∈ expected_ranks c → od_get key (entries_of c r) = Some span.

Section spec.
Context `{ObjectSizes, Sha} (cn : Connector).

(** ... and the boundary state of [key], when the layout has one. *)
Definition boundary_offered (c : QuorumCatalog) (key : pystr) (span : Z) : Prop :=
  has_boundary_state (cn_layout cn) = true →
  ∃ k, boundary_state_key key = Ok k ∧ offered c k span.

Lemma boundary_quorum_iff c key span :
  catalog_wf c →
  _has_boundary_quorum cn (Some c) key span = Ok true ↔ boundary_offered c key span.
Proof.
  intros Hc. unfold _has_boundary_quorum, boundary_offered.
  destruct (has_boundary_state (cn_layout cn)); cbn [negb]; [|by split].
  destruct (boundary_state_key key) as [k|e] eqn:Ek; cbn [mbind result_bind]; split; try done.
  - intros Hq%Ok_inj _. exists k. split; [done|]. exact (proj1 (has_quorum_iff c k span Hc) Hq).
  - intros Ho. destruct (Ho eq_refl) as (k' & [= <-] & Hk). f_equal. exact (proj2 (has_quorum_iff c k span Hc) Hk).
  - intros Ho. by destruct (Ho eq_refl) as (k' & [=] & _).
Qed.

(** ** Selection of the longest restorable prefix *)
Definition quorum_at (c : QuorumCatalog) (p : PrefixDigest) : bool :=
  has_quorum c (digest p) (Some (span_tokens p)).

Definition restorable_at (c : QuorumCatalog) (first : Z) (p : PrefixDigest) : bool :=
  (first <=? span_tokens p) && (span_tokens p mod alignment_tokens (cn_layout cn) =? 0)
  && match _has_boundary_quorum cn (Some c) (digest p) (span_tokens p) with
     | Ok b => b | Raise _ => false
     end.

(** The loop stops at the first key without quorum and selects the last
    restorable boundary before it. *)
Lemma select_prefix_Ok c candidates first selected0 selected :
  _select_prefix cn c candidates first selected0 = Ok selected →
  ∃ pre post, candidates = pre ++ post ∧ Forall (λ p, quorum_at c p = true) pre ∧
    (∀ p, head post = Some p → quorum_at c p = false) ∧
    selected = match last (filter (λ p, restorable_at c first p = true) pre) with
               | Some p => Some (span_tokens p, digest p) | None => selected0
               end.
Proof.
  revert selected0; induction candidates as [|p candidates IH]; intros selected0; cbn [_select_prefix].
  { intros [= <-]. exists [], []. split_and!; [done|constructor|done|done]. }
  destruct (has_quorum c (digest p) (Some (span_tokens p))) eqn:Eq; cbn [negb].
  2:{ intros [= <-]. exists [], (p :: candidates). split_and!; [done|constructor| |done].
      by intros q [= <-]. }
  intros (selected1 & H1 & (pre & post & -> & Hpre & Hpost & ->)%IH)%result_bind_Ok.
  exists (p :: pre), post. split_and!; [done|by constructor|done|].
  assert (Hs1 : selected1 = if decide (restorable_at c first p = true)
    then Some (span_tokens p, digest p) else selected0).
  { unfold restorable_at. destruct ((first <=? _) && _) eqn:E1.
    - apply result_bind_Ok in H1 as (b & Hb & H1). rewrite Hb. apply Ok_inj in H1 as <-.
      cbn [andb]. destruct b; by repeat case_decide.
    - apply Ok_inj in H1 as <-. cbn [andb]. by case_decide. }
  rewrite filter_cons, Hs1. case_decide; [|done].
  rewrite last_cons. by destruct (last _).
Qed.

(** ** The candidates of a lookup *)
Lemma chunk_multiples_sorted c n : 0 < c → StronglySorted Z.lt (chunk_multiples c n).
Proof.
  intros Hc. unfold chunk_multiples. generalize (Z.to_nat (n / c)) as k. intros k.
  generalize 1%nat as m. induction k as [|k IH]; intros m; cbn; constructor; [apply IH|].
  apply Forall_fmap, Forall_forall. intros i Hi%elem_of_seq. cbn. nia.
Qed.

Lemma chunk_multiples_elem c n s : 0 < c → s ∈ chunk_multiples c n → (c | s) ∧ c ≤ s ≤ n.
Proof.
  intros Hc (i & -> & Hi%elem_of_seq)%list_elem_of_fmap. split; [apply Z.divide_factor_l|].
  assert (Z.of_nat i ≤ n / c) by lia. pose proof (Z.mul_div_le n c Hc). nia.
Qed.

Lemma chunk_multiples_intro c n s : 0 < c → (c | s) → 0 < s ≤ n → s ∈ chunk_multiples c n.
Proof.
  intros Hc [k ->] Hb. apply list_elem_of_fmap. exists (Z.to_nat k). assert (0 < k) by nia.
  split; [lia|]. apply elem_of_seq. assert (k ≤ n / c) by (apply Z.div_le_lower_bound; lia). lia.
Qed.

Lemma requested_range c ceiling n req :
  requested_boundaries (Some (VInt <$> chunk_multiples c ceiling)) c n = Ok req →
  req = chunk_multiples c ceiling.
Proof.
  cbn [requested_boundaries]. intros Hm%mapM_result_Ok. revert Hm.
  generalize (chunk_multiples c ceiling) as l. intros l. revert req.
  induction l as [|x l IH]; intros req Hm; inversion Hm as [|? y ? ys Hx Hl]; subst; [done|].
  apply need_int_Ok in Hx as [[= ->] _]. f_equal. by apply IH.
Qed.

Record digest_chain (tokens : list pyval) (ceiling : Z) (prefixes : list PrefixDigest) : Prop := {
  dc_chunk : 0 < _chunk_tokens (cn_layout cn);
  dc_sorted : StronglySorted (λ p q, span_tokens p < span_tokens q) prefixes;
  dc_spans : ∀ p, p ∈ prefixes → (_chunk_tokens (cn_layout cn) | span_tokens p) ∧
    0 < span_tokens p ≤ ceiling ∧ span_tokens p ≤ Z.of_nat (length tokens);
  dc_complete : ∀ s, (_chunk_tokens (cn_layout cn) | s) → 0 < s ≤ ceiling → s ≤ Z.of_nat (length tokens) →
    ∃ p, p ∈ prefixes ∧ span_tokens p = s
}.

Lemma sorted_of_spans l :
  StronglySorted Z.lt (span_tokens <$> l) → StronglySorted (λ p q, span_tokens p < span_tokens q) l.
Proof.
  induction l as [|p l IH]; intros Hs; [constructor|]. rewrite fmap_cons in Hs.
  apply StronglySorted_inv in Hs as [Hs Hf]. constructor; [by apply IH|]. exact (proj1 (Forall_fmap span_tokens _ l) Hf).
Qed.

Lemma StronglySorted_filter_lt (P : Z → Prop) `{!∀ x, Decision (P x)} l :
  StronglySorted Z.lt l → StronglySorted Z.lt (filter P l).
Proof.
  induction 1 as [|x l Hl IH Hx]; [constructor|]. rewrite filter_cons. case_decide; [|done].
  constructor; [done|]. apply Forall_forall. intros y [_ Hy]%list_elem_of_filter.
  rewrite Forall_forall in Hx. by apply Hx.
Qed.

Lemma chain_digests_spec tokens salt features ceiling prefixes :
  chain_digests cn tokens salt features ceiling = Ok prefixes → digest_chain tokens ceiling prefixes.
Proof.
  unfold chain_digests, _lookup_boundaries. set (c := _chunk_tokens (cn_layout cn)).
  intros (toks & req & fs & i & Hc & -> & Hr & _ & _ & Hl & _)%prefix_digests_Ok.
  apply requested_range in Hr as ->.
  apply digest_loop_spans in Hl; [|done..].
  assert (Hm : (λ i : nat, 0 + c * Z.of_nat i) <$> seq 1 (Z.to_nat (Z.of_nat (length toks) / c))
    = chunk_multiples c (Z.of_nat (length toks))) by done.
  rewrite Hm in Hl. constructor; [done| | |].
  - apply sorted_of_spans. rewrite Hl. by apply StronglySorted_filter_lt, chunk_multiples_sorted.
  - intros p Hp. apply (list_elem_of_fmap_2 span_tokens) in Hp. rewrite Hl in Hp.
    apply list_elem_of_filter in Hp as [Hreq Hall].
    apply chunk_multiples_elem in Hreq as [Hd Hb]; [|done]. fold c.
    apply chunk_multiples_elem in Hall as [_ Hn]; [|done]. rewrite length_fmap.
    split; [done|]. lia.
  - intros s Hd Hs Hn. rewrite length_fmap in Hn.
    assert (Hin : s ∈ span_tokens <$> prefixes).
    { rewrite Hl. apply list_elem_of_filter. split; apply chunk_multiples_intro; try done; lia. }
    apply list_elem_of_fmap in Hin as (p & -> & Hp). by exists p.
Qed.

(** The digests of a boundary within the prompt end with that boundary. *)
Lemma chain_digests_last tokens salt features span prefixes :
  chain_digests cn tokens salt features span = Ok prefixes →
  (_chunk_tokens (cn_layout cn) | span) → 0 < span ≤ Z.of_nat (length tokens) →
  ∃ d, prefixes = removelast prefixes ++ [MkPrefixDigest span d] ∧ last_prefix prefixes = Ok (MkPrefixDigest span d).
Proof.
  intros Hd Hdiv Hs. destruct (chain_digests_spec _ _ _ _ _ Hd) as [_ Hsorted Hspans Hcomplete].
  destruct (Hcomplete span Hdiv) as (p & Hp & Hps); [lia|lia|].
  destruct (last prefixes) as [[sp d]|] eqn:El.
  - exists d. assert (Hsp : sp = span).
    { pose proof El as [l' ->]%last_Some. apply StronglySorted_app in Hsorted as (Hc & _ & _).
      destruct (Hspans (MkPrefixDigest sp d)) as (_ & [_ Hle] & _); [set_solver|]. cbn in Hle.
      apply elem_of_app in Hp as [Hp|Hp]; [|by apply list_elem_of_singleton in Hp; subst p].
      specialize (Hc p (MkPrefixDigest sp d) Hp ltac:(set_solver)). cbn in Hc. lia. }
    subst sp. unfold last_prefix. rewrite El. split; [|done].
    apply last_Some in El as [l' ->]. by rewrite removelast_last.
  - apply last_None in El as ->. by apply not_elem_of_nil in Hp.
Qed.

(** ** An admitted restore *)

(** The catalog [c] justifies restoring [span] tokens of [entry] for the request:
    the entry is the digest of the request's first [span] tokens under its salt and
    media, every rank offers it and every earlier chunk of its chain, with one
    span each, and its boundary state; [n] tokens lie beyond those the runtime has
    computed, [v]; at least one token is left to compute; and no longer prefix of the
    request is offered in the same way. *)
Definition hit_for (c : QuorumCatalog) (r : Request) (v : pyval) (entry : pystr) (span n : Z) : Prop :=
  ∃ computed tokens salt features candidates ceiling,
    v = VInt computed ∧ n = span - computed ∧ 0 ≤ computed < span ∧ span < Z.of_nat (length tokens) ∧
    eligible_tokens (rq_prompt r) = Some tokens ∧ _request_cache_salt r = Some salt ∧
    _multimodal_feature_identities (rq_prompt r) (Z.of_nat (length tokens)) (cn_modalities cn) = Some features ∧
    _safe_restore_span (cn_layout cn) (Z.of_nat (length tokens)) = Ok ceiling ∧
    chain_digests cn tokens salt features ceiling = Ok candidates ∧
    MkPrefixDigest span entry ∈ candidates ∧ (alignment_tokens (cn_layout cn) | span) ∧
    (∀ p, p ∈ candidates → span_tokens p ≤ span → offered c (digest p) (span_tokens p)) ∧
    boundary_offered c entry span ∧
    (∀ p, p ∈ candidates → span < span_tokens p →
      ¬ ((∀ q, q ∈ candidates → span_tokens q ≤ span_tokens p → offered c (digest q) (span_tokens q)) ∧
         boundary_offered c (digest p) (span_tokens p))).

(** Of a sorted list split in two, the elements up to one of the left part are in
    the left part. *)
Lemma sorted_split pre post p q :
  StronglySorted (λ p q, span_tokens p < span_tokens q) (pre ++ post) →
  p ∈ pre → q ∈ pre ++ post → span_tokens q ≤ span_tokens p → q ∈ pre.
Proof.
  intros (Hcross & _ & _)%StronglySorted_app Hp [Hq|Hq]%elem_of_app Hle; [done|].
  specialize (Hcross p q Hp Hq). lia.
Qed.

Lemma last_of_sorted l p :
  StronglySorted (λ p q, span_tokens p < span_tokens q) l → last l = Some p →
  p ∈ l ∧ ∀ q, q ∈ l → span_tokens q ≤ span_tokens p.
Proof.
  intros Hs [l' ->]%last_Some. split; [set_solver|].
  intros q [Hq|Hq]%elem_of_app; [|apply list_elem_of_singleton in Hq as ->; lia].
  apply StronglySorted_app in Hs as (Hc & _ & _). specialize (Hc q p Hq). set_solver by lia.
Qed.

Lemma StronglySorted_filter_spans (P : PrefixDigest → Prop) `{!∀ x, Decision (P x)} l :
  StronglySorted (λ p q, span_tokens p < span_tokens q) l →
  StronglySorted (λ p q, span_tokens p < span_tokens q) (filter P l).
Proof.
  induction 1 as [|x l Hl IH Hx]; [constructor|]. rewrite filter_cons. case_decide; [|done].
  constructor; [done|]. apply Forall_forall. intros y [_ Hy]%list_elem_of_filter.
  rewrite Forall_forall in Hx. by apply Hx.
Qed.

Lemma quorum_at_offered c p :
  catalog_wf c → quorum_at c p = true ↔ offered c (digest p) (span_tokens p).
Proof. intros Hc. exact (has_quorum_iff c (digest p) (span_tokens p) Hc). Qed.

Lemma restorable_at_iff c first p :
  catalog_wf c → (alignment_tokens (cn_layout cn) | span_tokens p) → 0 < alignment_tokens (cn_layout cn) →
  restorable_at c first p = true ↔ first ≤ span_tokens p ∧ boundary_offered c (digest p) (span_tokens p).
Proof.
  intros Hc Hd Ha. unfold restorable_at.
  apply Z.mod_divide in Hd; [|lia]. rewrite Hd, Z.eqb_refl, andb_true_r.
  rewrite <-(boundary_quorum_iff c (digest p) (span_tokens p) Hc), andb_true_iff, Z.leb_le.
  destruct (_has_boundary_quorum _ _ _ _) as [b|e]; [|naive_solver]. destruct b; naive_solver.
Qed.

Lemma find_prefix_hit c r num span entry computed :
  catalog_wf c → find_prefix cn c r num = Ok (inr (span, entry, computed)) →
  hit_for c r num entry span (span - computed).
Proof.
  intros Hwf. unfold find_prefix.
  destruct (_request_cache_salt r) as [salt|] eqn:Es; [|done].
  destruct (eligible_tokens (rq_prompt r)) as [tokens|] eqn:Et; [|done].
  intros (x & [-> Hx]%need_int_Ok & H')%result_bind_Ok. bsimp.
  destruct (_multimodal_feature_identities _ _ _) as [features|] eqn:Ef; [|done].
  apply result_bind_Ok in H' as (ceiling & Hceil & H'). cbv zeta in H'.
  case_match eqn:Efirst; [done|]. bsimp.
  apply result_bind_Ok in H' as (candidates & Hd & H').
  apply result_bind_Ok in H' as (selected & Hsel & H').
  destruct selected as [[sp e]|]; [|done]. injection H' as -> -> ->.
  destruct (chain_digests_spec _ _ _ _ _ Hd) as [Hchunk Hsorted Hspans _].
  pose proof (chunk_alignment _ Hchunk) as Ha.
  destruct (chunk_tokens_of_valid _ Ha) as (_ & _ & Hac).
  apply select_prefix_Ok in Hsel as (pre & post & -> & Hpre & Hpost & Hlast).
  set (first := Z.max (_minimum_span (cn_layout cn))
    ((computed / _chunk_tokens (cn_layout cn) + 1) * _chunk_tokens (cn_layout cn))) in *.
  destruct (last (filter _ pre)) as [p|] eqn:El; [|done].
  injection Hlast as Hps Hpe.
  assert (Hsp : StronglySorted (λ p q, span_tokens p < span_tokens q) pre)
    by by apply StronglySorted_app in Hsorted as (_ & ? & _).
  destruct (last_of_sorted _ _ (StronglySorted_filter_spans _ _ Hsp) El) as [Hp Hmax].
  apply list_elem_of_filter in Hp as [Hres Hp].
  assert (Hpin : p ∈ pre ++ post) by set_solver.
  assert (Hal : ∀ q, q ∈ pre ++ post → (alignment_tokens (cn_layout cn) | span_tokens q)).
  { intros q Hq. etrans; [exact Hac|]. by apply Hspans. }
  apply restorable_at_iff in Hres as [Hfirst Hb]; [|done|by apply Hal|done].
  destruct (Hspans p Hpin) as (_ & Hpos & _).
  assert (Hcomp : computed < span).
  { rewrite Hps. assert (computed < first); [|lia]. subst first.
    pose proof (Z.mul_succ_div_gt computed (_chunk_tokens (cn_layout cn)) Hchunk). lia. }
  assert (Hn : span < Z.of_nat (length tokens)).
  { unfold _safe_restore_span in Hceil. apply safe_span_Ok in Hceil as [->|(_ & _ & ? & ?)]; lia. }
  assert (Hpp : p = MkPrefixDigest span entry) by (rewrite Hps, Hpe; by destruct p).
  exists computed, tokens, salt, features, (pre ++ post), ceiling.
  rewrite Forall_forall in Hpre. split_and!; try done; try lia.
  - by rewrite <-Hpp.
  - rewrite Hps. by apply Hal.
  - intros q Hq Hle. apply quorum_at_offered, Hpre; [done|].
    eapply sorted_split; [exact Hsorted|exact Hp|exact Hq|lia].
  - by rewrite Hps, Hpe.
  - intros q Hq Hlt [Hall Hbq].
    assert (Hqpre : q ∈ pre).
    { apply elem_of_app in Hq as [|Hq]; [done|]. exfalso.
      destruct post as [|p0 post]; [by apply not_elem_of_nil in Hq|].
      assert (Hp0 : quorum_at c p0 = false) by by apply Hpost.
      assert (Hle : span_tokens p0 ≤ span_tokens q).
      { apply elem_of_cons in Hq as [->|Hq]; [done|].
        apply StronglySorted_app in Hsorted as (_ & _ & Hs2).
        apply StronglySorted_inv in Hs2 as [_ Hf]. rewrite Forall_forall in Hf.
        specialize (Hf q Hq). lia. }
      assert (quorum_at c p0 = true); [|congruence].
      apply quorum_at_offered; [done|]. apply Hall; [set_solver|done]. }
    assert (span_tokens q ≤ span_tokens p); [|lia]. apply Hmax, list_elem_of_filter.
    split; [|done]. apply restorable_at_iff; [done|by apply Hal|done|]. split; [lia|done].
Qed.

(** A miss of the selection: nothing could be restored. *)
Lemma find_prefix_miss c r num reason entry span n :
  catalog_wf c → find_prefix cn c r num = Ok (inl reason) → ¬ hit_for c r num entry span n.
Proof.
  intros Hwf Hf (computed & tokens & salt & features & candidates & ceiling & -> & _ & Hcomp & Hlen & Et & Es & Em &
    Hceil & Hd & Hin & Hal & Hall & Hb & _). unfold find_prefix in Hf. rewrite Es, Et in Hf.
  apply result_bind_Ok in Hf as (x & [[= <-] _]%need_int_Ok & Hf). rewrite Em, Hceil in Hf.
  cbn [mbind result_bind] in Hf. destruct (chain_digests_spec _ _ _ _ _ Hd) as [Hchunk Hsorted Hspans _].
  set (first := Z.max (_minimum_span (cn_layout cn))
    ((computed / _chunk_tokens (cn_layout cn) + 1) * _chunk_tokens (cn_layout cn))) in *.
  destruct (Hspans _ Hin) as ([k Hk] & Hpos & _). cbn [span_tokens] in *.
  assert (Hfirst : first ≤ span).
  { subst first. unfold _minimum_span. assert (computed / _chunk_tokens (cn_layout cn) < k)
      by (apply Z.div_lt_upper_bound; lia). assert (1 ≤ k) by nia. nia. }
  destruct (ceiling <? first) eqn:Ec; bsimp; [lia|]. rewrite Hd in Hf. cbn [mbind result_bind] in Hf.
  apply result_bind_Ok in Hf as (selected & Hsel & Hf). destruct selected as [[??]|]; [done|].
  apply select_prefix_Ok in Hsel as (pre & post & -> & Hpre & Hpost & Hlast).
  assert (Hp : MkPrefixDigest span entry ∈ pre).
  { apply elem_of_app in Hin as [|Hin]; [done|]. exfalso. destruct post as [|p0 post]; [by apply not_elem_of_nil in Hin|].
    assert (quorum_at c p0 = false) as Hq by by apply Hpost.
    assert (quorum_at c p0 = true); [|congruence]. apply quorum_at_offered, Hall; [done|set_solver|].
    apply elem_of_cons in Hin as [<-|Hin]; [done|]. apply StronglySorted_app in Hsorted as (_ & _ & Hs).
    apply StronglySorted_inv in Hs as [_ Hs]. rewrite Forall_forall in Hs. specialize (Hs _ Hin). cbn in Hs. lia. }
  pose proof (chunk_alignment _ Hchunk) as Ha.
  assert (restorable_at c first (MkPrefixDigest span entry) = true) as Hr by (by apply restorable_at_iff).
  destruct (last (filter _ pre)) as [p|] eqn:El; [done|]. apply last_None in El.
  apply (not_elem_of_nil (MkPrefixDigest span entry)). rewrite <-El. by apply list_elem_of_filter.
Qed.
End spec.
