(* ===== verification/SchedulerInv.v ===== *)
(** * The scheduler's reachable states

    The connector's scheduler methods as a step relation, with the lookups and the
    life of every request as its history, and the invariant of its request tables:
    at most two restores are in progress, each granted by a lookup of its own
    request, every confirmed restore has valid page tables, and every tracked prompt
    is that of a scheduled request, under the salt it was announced with. *)
From S2P Require Import Prelude Dict Bytes Utf8 Config Prefix Inventory Catalog CatalogInv CatalogSpec Topology Admission Json Identity Hma Manifest TokenFiles Telemetry Scheduler SchedulerSpec.

Lemma se_bind_Ok {S A B} (m : SE S A) (k : A → SE S B) s b s' :
  se_bind m k s = (Ok b, s') → ∃ a s1, m s = (Ok a, s1) ∧ k a s1 = (Ok b, s').
Proof. unfold se_bind. destruct (m s) as [[a|e] s1]; [|done]. eauto. Qed.

(** ** Steps that only touch telemetry *)
Definition telemetry_only (s s' : Scheduler) : Prop := ∃ t, s' = set_telemetry t s.

#[export] Instance telemetry_only_refl : Reflexive telemetry_only.
Proof. intros s. exists (s_telemetry s). by destruct s. Qed.
#[export] Instance telemetry_only_trans : Transitive telemetry_only.
Proof. intros s1 s2 s3 [t ->] [u ->]. by exists u. Qed.

Lemma with_telemetry_only m s : telemetry_only s (with_telemetry m s).2.
Proof.
  unfold with_telemetry. destruct (s_telemetry s) as [b|]; [|done].
  destruct (m b) as [r b']. by exists (Some b').
Qed.

Lemma count_only name v ls s : telemetry_only s (count_metric name v ls s).2.
Proof. apply with_telemetry_only. Qed.

Lemma record_lookup_only o r s : telemetry_only s (_record_lookup o r s).2.
Proof. apply with_telemetry_only. Qed.

Lemma se_bind_only {A B} (m : SE Scheduler A) (k : A → SE Scheduler B) s :
  telemetry_only s (m s).2 → (∀ a s, telemetry_only s (k a s).2) → telemetry_only s (se_bind m k s).2.
Proof.
  intros Hm Hk. unfold se_bind. destruct (m s) as [[a|e] s1]; [|done].
  etrans; [exact Hm|apply Hk].
Qed.

Section inv.
Context `{ObjectSizes, Sha} (cn : Connector).

Let layout := cn_layout cn.

(** ** The history and the relation *)

(** What happened to the scheduler, newest first: the lookups with the computed tokens
    the runtime reported and the catalog they found, and the life of each request. *)
Inductive event :=
  | Looked (r : Request) (computed : pyval) (c : QuorumCatalog)
  | Announced (r : Request)
  | Scheduled (r : NewRequest)
  | Finished (id : pystr).

Abbreviation history := (list event).

(** The request announced last under this name, until it finished. *)
Fixpoint announced (h : history) (id : pystr) : option Request :=
  match h with
  | [] => None
  | Announced r :: h => if decide (rq_id r = id) then Some r else announced h id
  | Finished i :: h => if decide (i = id) then None else announced h id
  | _ :: h => announced h id
  end.

Definition finish (h : history) (ids : list pystr) : history := foldl (λ h id, Finished id :: h) h ids.
Definition built (out : SchedulerOutput) (h : history) : history :=
  (Scheduled <$> scheduled_new_reqs out) ++ finish h (finished_req_ids out).

Inductive sched_step : history * Scheduler → history * Scheduler → Prop :=
  | step_lookup h s c request computed :
      s_catalog s = Some c →
      sched_step (h, s)
        (Looked request computed c :: h, (get_num_new_matched_tokens cn request computed s).2)
  | step_lookup_none h s request computed :
      s_catalog s = None →
      sched_step (h, s) (h, (get_num_new_matched_tokens cn request computed s).2)
  | step_new_request h s request : sched_step (h, s) (Announced request :: h, on_new_request request s)
  | step_alloc h s request blocks external :
      sched_step (h, s) (h, (update_state_after_alloc cn request blocks external s).2)
  | step_build h s out : sched_step (h, s) (built out h, (build_connector_meta cn out s).2)
  | step_catalog h s c : catalog_wf c → sched_step (h, s) (h, set_catalog (Some c) s)
  | step_metrics h s t n : sched_step (h, s) (h, set_reported n (set_telemetry t s)).

(** Request tables without requests. *)
Definition sched_init (s : Scheduler) : Prop :=
  (∀ c, s_catalog s = Some c → catalog_wf c) ∧ s_need_load s = ∅ ∧ s_pending_loads s = [] ∧
  s_store_progress s = ∅ ∧ s_request_salts s = ∅ ∧ s_skip_write s = ∅.

Definition sched_reachable (h : history) (s : Scheduler) : Prop :=
  ∃ s0, sched_init s0 ∧ rtc sched_step ([], s0) (h, s).

(** ** The invariant *)
Definition granted (h : history) (id entry : pystr) (span n : Z) : Prop :=
  ∃ r v c, Looked r v c ∈ h ∧ rq_id r = id ∧ catalog_wf c ∧ hit_for cn c r v entry span n.

(** The plan's block tables select a valid page range of every group. *)
Definition selects_pages (plan : SpoolCachePlan) : Prop :=
  ∃ pages, layout_select_physical_pages layout (table_arg (sp_block_ids plan))
             (VInt (sp_span_tokens plan)) = Ok pages.

Record load_ok (h : history) (plan : SpoolCachePlan) : Prop := {
  lo_granted : ∃ n, granted h (sp_request_id plan) (sp_entry_id plan) (sp_span_tokens plan) n;
  lo_pages : selects_pages plan
}.

Definition progress_ok (p : StoreProgress) : Prop :=
  0 < _chunk_tokens layout ∧ (_chunk_tokens layout | pr_target_span p) ∧
  0 < pr_target_span p ≤ Z.of_nat (length (pr_token_ids p)).

(** The prompt of the request: its tokens, its media, and the salt of the request that
    was announced under its name, which may be stored. *)
Record prompt_of (h : history) (r : NewRequest) (p : StoreProgress) : Prop := {
  po_tokens : eligible_tokens (nr_prompt r) = Some (pr_token_ids p);
  po_features : _multimodal_feature_identities (nr_prompt r) (Z.of_nat (length (pr_token_ids p)))
                  (cn_modalities cn) = Some (pr_features p);
  po_salt : match announced h (nr_id r) with
            | Some q => _request_cache_salt q = Some (pr_cache_salt p) ∧ _request_skips_write q = false
            | None => pr_cache_salt p = []
            end
}.

(** The progress follows a prompt that was scheduled under this name and has not
    finished since. *)
Definition tracked (h : history) (id : pystr) (p : StoreProgress) : Prop :=
  ∃ later earlier r, h = later ++ Scheduled r :: earlier ∧ Finished id ∉ later ∧ nr_id r = id ∧
    prompt_of earlier r p.

(** What [_request_salts] and [_skip_write] keep of a request. *)
Definition stored_salt (r : Request) : option pystr :=
  match _request_cache_salt r with Some (c :: rest) => Some (c :: rest) | _ => None end.
Definition not_stored (r : Request) : bool :=
  match _request_cache_salt r with None => true | Some _ => _request_skips_write r end.

Record requests_ok (h : history) (s : Scheduler) : Prop := {
  ro_salts : ∀ id, s_request_salts s !! id = stored_salt <$> announced h id;
  ro_skip : ∀ id, id ∈ s_skip_write s ↔ ∃ r, announced h id = Some r ∧ not_stored r = true
}.

Record sched_inv (h : history) (s : Scheduler) : Prop := {
  si_catalog : ∀ c, s_catalog s = Some c → catalog_wf c;
  si_bound : (size (active_restores s) ≤ 2)%nat;
  si_need : ∀ id e span n, s_need_load s !! id = Some (e, span, n) → granted h id e span n;
  si_keys : NoDup (s_pending_loads s).*1;
  si_pending : Forall (λ p, sp_request_id p.2 = p.1 ∧ load_ok h p.2) (s_pending_loads s);
  si_requests : requests_ok h s;
  si_progress : map_Forall (λ id p, progress_ok p ∧ tracked h id p) (s_store_progress s)
}.

Lemma granted_later new h id e span n : granted h id e span n → granted (new ++ h) id e span n.
Proof. intros (r & v & c & Hin & ?). exists r, v, c. split; [set_solver|done]. Qed.

Lemma load_later new h plan : load_ok h plan → load_ok (new ++ h) plan.
Proof. intros [[n Hg] Hp]. split; [|done]. exists n. by apply granted_later. Qed.

Lemma tracked_later new h id p : Finished id ∉ new → tracked h id p → tracked (new ++ h) id p.
Proof.
  intros Hn (l & e & r & -> & Hl & ?). exists (new ++ l), e, r.
  split; [by rewrite <-(assoc_L (++))|]. split; [|done]. by intros [?|?]%elem_of_app.
Qed.

Lemma requests_kept h s s' :
  s_request_salts s' = s_request_salts s → s_skip_write s' = s_skip_write s → requests_ok h s → requests_ok h s'.
Proof. intros E1 E2 [H1 H2]. split; [by rewrite E1|by rewrite E2]. Qed.

Lemma sched_inv_telemetry h s s' : telemetry_only s s' → sched_inv h s → sched_inv h s'.
Proof. intros [t ->] []. by constructor; try done; apply (requests_kept _ s). Qed.

(** What holds of the other tables outlives any event. *)
Lemma sched_inv_requests new h salts skip s :
  (∀ id, is_Some (s_store_progress s !! id) → Finished id ∉ new) →
  requests_ok (new ++ h) (set_requests salts skip s) → sched_inv h s → sched_inv (new ++ h) (set_requests salts skip s).
Proof.
  intros Hlive Hr []. constructor; try done.
  - intros id e span n Hn. by apply granted_later, si_need0.
  - eapply Forall_impl; [exact si_pending0|]. intros [id plan] [? ?]. split; [done|]. by apply load_later.
  - intros id p Hp. destruct (si_progress0 id p Hp). split; [done|apply tracked_later; [|done]]. by apply Hlive; exists p.
Qed.

Lemma sched_inv_later new h s :
  (∀ id, Finished id ∉ new) → requests_ok (new ++ h) s → sched_inv h s → sched_inv (new ++ h) s.
Proof.
  assert (s = set_requests (s_request_salts s) (s_skip_write s) s) as E by by destruct s.
  intros Hn. rewrite E at 1 3. by apply sched_inv_requests.
Qed.

Lemma requests_same new h s :
  (∀ id, announced (new ++ h) id = announced h id) → requests_ok h s → requests_ok (new ++ h) s.
Proof. intros E [Hs Hk]. split; intros id; rewrite E; [apply Hs|apply Hk]. Qed.

Lemma sched_inv_looked r v c h s : sched_inv h s → sched_inv (Looked r v c :: h) s.
Proof. intros Hi. apply (sched_inv_later [_]); [set_solver|by apply (requests_same [_]), Hi|done]. Qed.

Lemma announced_scheduled l h id : announced ((Scheduled <$> l) ++ h) id = announced h id.
Proof. by induction l. Qed.

(** ** Lookup *)
Lemma admit_restore_inv h s id span entry computed :
  sched_inv h s → granted h id entry span (span - computed) →
  sched_inv h (admit_restore id span entry computed s).2.
Proof.
  intros Hi Hg. unfold admit_restore. case_match eqn:Eb.
  { eapply sched_inv_telemetry; [|done]. apply se_bind_only; [apply record_lookup_only|done]. }
  case_match; [done|].
  set (s1 := set_need_load (<[id := (entry, span, span - computed)]> (s_need_load s)) s).
  assert (Hi1 : sched_inv h s1).
  { destruct Hi. constructor; try done; [| |by apply (requests_kept _ s)].
    - unfold active_restores in *. subst s1. cbn [s_need_load s_pending_loads set_need_load].
      rewrite dom_insert_L. rewrite <-(assoc_L (∪)).
      destruct (decide (id ∈ dom (s_need_load s) ∪ list_to_set (s_pending_loads s).*1)) as [Hid|Hid].
      + assert ({[id]} ∪ (dom (s_need_load s) ∪ list_to_set (s_pending_loads s).*1)
          = dom (s_need_load s) ∪ list_to_set (s_pending_loads s).*1) as -> by set_solver. done.
      + rewrite size_union by set_solver. rewrite size_singleton.
        rewrite bool_decide_eq_false_2 in Eb by done. cbn [negb andb] in Eb. bsimp.
        unfold MAX_PENDING_RESTORES in Eb. lia.
    - intros id' e sp n. subst s1. cbn [s_need_load set_need_load]. rewrite lookup_insert.
      destruct (decide (id = id')) as [<-|]; [|apply si_need0]. intros E. injection E as <- <- <-. exact Hg. }
  eapply (sched_inv_telemetry _ s1); [|done]. unfold se_bind at 1. cbn [se_modify].
  change (set_need_load _ s) with s1.
  apply se_bind_only; [apply record_lookup_only|]. intros _ s2.
  apply se_bind_only; [apply count_only|done].
Qed.

Lemma miss_only o r s : telemetry_only s (se_bind (_record_lookup o r) (λ _, se_ret (0, false)) s).2.
Proof. apply se_bind_only; [apply record_lookup_only|done]. Qed.

Lemma lookup_inv h s c request computed :
  sched_inv h s → s_catalog s = Some c →
  sched_inv (Looked request computed c :: h) (get_num_new_matched_tokens cn request computed s).2.
Proof.
  intros Hi Hc. pose proof (si_catalog _ _ Hi c Hc) as Hwf. apply (sched_inv_looked request computed c) in Hi.
  unfold get_num_new_matched_tokens. rewrite Hc.
  case_match; [eapply sched_inv_telemetry; [apply miss_only|done]|].
  destruct (find_prefix cn c request computed) as [[reason|[[span entry] comp]]|e] eqn:Ef; [| |done].
  - eapply sched_inv_telemetry; [apply miss_only|done].
  - apply find_prefix_hit in Ef; [|done].
    apply admit_restore_inv; [done|]. exists request, computed, c. split_and!; [by left|done..].
Qed.

(** ** Confirmation *)
Lemma need_load_delete h s id :
  sched_inv h s → sched_inv h (set_need_load (delete id (s_need_load s)) s).
Proof.
  intros []. constructor; try done; try by apply (requests_kept _ s).
  - etrans; [|exact si_bound0]. apply subseteq_size. unfold active_restores. cbn. set_solver.
  - intros id' e sp n. cbn. rewrite lookup_delete_Some. intros [_ Hn]. by apply si_need0.
Qed.

Lemma alloc_inv h s request blocks external :
  sched_inv h s → sched_inv h (update_state_after_alloc cn request blocks external s).2.
Proof.
  intros Hi. unfold update_state_after_alloc. case_match; [|done]. cbv zeta.
  pose proof (need_load_delete h s (rq_id request) Hi) as Hi'.
  case_match; [done|]. destruct (s_need_load s !! rq_id request) as [[[e sp] n]|] eqn:En; [|done].
  case_match; [done|].
  match goal with |- context [match ?m with Ok _ => _ | Raise _ => _ end] => destruct m as [ids|err] eqn:Eids end;
    [|done].
  apply result_bind_Ok in Eids as (ids' & _ & Eids).
  apply result_bind_Ok in Eids as (pages & Hpages & Eids). apply Ok_inj in Eids as ->.
  destruct Hi, Hi' as [_ _ Hn _ _ _ _]. constructor; cbn [s_catalog s_need_load s_pending_loads
    s_store_progress set_pending_loads set_need_load snd] in *; try done; try by apply (requests_kept _ s).
  - etrans; [|exact si_bound0]. apply subseteq_size. unfold active_restores.
    cbn [s_need_load s_pending_loads set_pending_loads set_need_load]. intros x Hx. apply elem_of_union in Hx as [Hx|Hx].
    + apply elem_of_union. left. set_solver.
    + rewrite elem_of_list_to_set, od_set_keys in Hx.
      assert (Hk : x = rq_id request ∨ x ∈ (s_pending_loads s).*1) by (case_decide; set_solver).
      destruct Hk as [->|Hk]; [|set_solver]. apply elem_of_union. left. by apply elem_of_dom_2 in En.
  - by apply od_set_NoDup.
  - apply od_set_Forall; [|done]. split; [done|]. split; [exists n; by apply si_need0|by exists pages].
Qed.

(** ** Store tracking leaves the restores alone *)

Definition progress_inv (h : history) (s : Scheduler) : Prop :=
  map_Forall (λ id p, progress_ok p ∧ tracked h id p) (s_store_progress s).

Record loads_kept (h : history) (s s' : Scheduler) : Prop := {
  lk_catalog : s_catalog s' = s_catalog s;
  lk_need : s_need_load s' = s_need_load s;
  lk_pending : s_pending_loads s' = s_pending_loads s;
  lk_salts : s_request_salts s' = s_request_salts s;
  lk_skip : s_skip_write s' = s_skip_write s;
  lk_progress : requests_ok h s → progress_inv h s → progress_inv h s'
}.

#[global] Instance loads_kept_refl h : Reflexive (loads_kept h).
Proof. by constructor. Qed.
#[global] Instance loads_kept_trans h : Transitive (loads_kept h).
Proof.
  intros s1 s2 s3 [????? H1] [????? H2]. constructor; [congruence..|].
  intros Hr Hp. apply H2; [by eapply requests_kept|by apply H1].
Qed.

Lemma telemetry_loads_kept h s s' : telemetry_only s s' → loads_kept h s s'.
Proof. intros [t ->]. by constructor. Qed.

Lemma loads_kept_inv h s s' : loads_kept h s s' → sched_inv h s → sched_inv h s'.
Proof.
  intros [Hc Hn Hp Hs Hk Hpr] []. constructor.
  - by rewrite Hc.
  - unfold active_restores. by rewrite Hn, Hp.
  - by rewrite Hn.
  - by rewrite Hp.
  - by rewrite Hp.
  - by eapply requests_kept.
  - by apply Hpr.
Qed.

Lemma drop_progress_kept h id s : loads_kept h s (drop_progress id s).
Proof. constructor; try done. intros _ Hp. by apply map_Forall_delete. Qed.

Lemma set_progress_kept h id p s :
  (requests_ok h s → progress_inv h s → progress_ok p ∧ tracked h id p) →
  loads_kept h s (set_store_progress (<[id := p]> (s_store_progress s)) s).
Proof. intros Hp. constructor; try done. intros Hr Hi. apply map_Forall_insert_2; [by apply Hp|done]. Qed.

Lemma plan_at_kept h id p c s : loads_kept h s (plan_at cn id p c s).2.
Proof.
  unfold plan_at. case_match; [done|]. apply telemetry_loads_kept.
  apply se_bind_only; [apply count_only|done].
Qed.

Lemma new_progress_ok s r p : new_progress cn s r = Ok (Some p) → progress_ok p.
Proof.
  unfold new_progress. case_match; [done|]. case_match eqn:Et; [|done]. case_match; [|done].
  intros (target & Ht & Hr)%result_bind_Ok. case_match eqn:Epos; [done|]. bsimp.
  apply result_bind_Ok in Hr as (cached & _ & Hr). destruct cached; [done|]. injection Hr as <-.
  unfold progress_ok. cbn. unfold _safe_store_span in Ht.
  apply safe_span_Ok in Ht as [->|(? & ? & ?)]; [lia|]. split_and!; [done..|lia|lia].
Qed.

Lemma new_progress_prompt h s r p :
  requests_ok h s → new_progress cn s r = Ok (Some p) → prompt_of h r p.
Proof.
  intros [Hs Hk]. unfold new_progress. case_bool_decide as Hskip; [done|].
  destruct (eligible_tokens (nr_prompt r)) as [tokens|] eqn:Et; [|done].
  destruct (_multimodal_feature_identities _ _ _) as [features|] eqn:Ef; [|done].
  intros (target & _ & Hr)%result_bind_Ok. case_match; [done|].
  apply result_bind_Ok in Hr as (cached & _ & Hr). destruct cached; [done|]. injection Hr as <-.
  split; cbn; [done..|]. rewrite Hs. destruct (announced h (nr_id r)) as [q|] eqn:Ea; [|done]. cbn.
  assert (not_stored q = false) as Hq.
  { apply not_true_iff_false. intros Hq. apply Hskip, Hk. by exists q. }
  unfold not_stored, stored_salt in *. destruct (_request_cache_salt q) as [[|c l]|]; [done..|].
  by split.
Qed.

(** The prompts of a step are in its history. *)
Lemma new_progress_tracked h out s r p :
  r ∈ scheduled_new_reqs out → requests_ok (built out h) s → new_progress cn s r = Ok (Some p) →
  tracked (built out h) (nr_id r) p.
Proof.
  intros (l & k & E)%list_elem_of_split Hr Hp. unfold built in *. rewrite E, fmap_app, fmap_cons in *.
  exists (Scheduled <$> l), ((Scheduled <$> k) ++ finish h (finished_req_ids out)), r.
  split; [by rewrite <-(assoc_L (++))|]. split; [by intros (? & ? & _)%list_elem_of_fmap|]. split; [done|]. apply (new_progress_prompt _ s); [|done].
  destruct Hr as [Hs Hk]. split; intros id; [rewrite Hs|rewrite Hk];
    by rewrite <-(assoc_L (++)), announced_scheduled.
Qed.

Lemma track_new_kept h out r s :
  r ∈ scheduled_new_reqs out → loads_kept (built out h) s (track_new_request cn out r s).2.
Proof.
  intros Hin. unfold track_new_request. destruct (new_progress cn s r) as [[p|]|e] eqn:Ep; [|done..].
  case_match; [|done]. case_match; [apply plan_at_kept|]. apply set_progress_kept. intros Hr _.
  split; [by eapply new_progress_ok|by eapply new_progress_tracked].
Qed.

Lemma extend_blocks_same resumed p groups p' :
  extend_blocks resumed p groups = Some p' →
  pr_target_span p' = pr_target_span p ∧ pr_token_ids p' = pr_token_ids p ∧
  pr_features p' = pr_features p ∧ pr_cache_salt p' = pr_cache_salt p.
Proof.
  unfold extend_blocks. destruct groups as [g|]; [|by intros [= <-]].
  case_match; [done|]. by intros [= <-].
Qed.

Lemma extend_blocks_kept h id resumed p groups p' :
  extend_blocks resumed p groups = Some p' → progress_ok p ∧ tracked h id p → progress_ok p' ∧ tracked h id p'.
Proof.
  intros (Ht & Htok & Hf & Hs)%extend_blocks_same [Hok (l & e & r & Eh & Hf' & Er & [P1 P2 P3])]. split.
  - unfold progress_ok. by rewrite Ht, Htok.
  - exists l, e, r. split_and!; [done..|]. split; [by rewrite Htok|by rewrite Htok, Hf|by rewrite Hs].
Qed.

Lemma track_cached_kept h out i id s : loads_kept h s (track_cached_request cn out i id s).2.
Proof.
  unfold track_cached_request. destruct (s_store_progress s !! id) as [p|] eqn:Ep; [|done].
  case_match; [|done]. destruct (extend_blocks _ _ _) as [p'|] eqn:Ee; [|apply drop_progress_kept]. cbv zeta.
  set (s1 := set_store_progress (<[id := p']> (s_store_progress s)) s).
  assert (Hk1 : loads_kept h s s1).
  { apply set_progress_kept. intros _ Hi. exact (extend_blocks_kept _ _ _ _ _ _ Ee (Hi id p Ep)). }
  case_match; [|done]. case_match; [|done]. etrans; [exact Hk1|].
  etrans; [apply (drop_progress_kept h id)|apply plan_at_kept].
Qed.

Lemma collect_kept {A} h (f : A → SE Scheduler (list SpoolCachePlan)) l s :
  (∀ x s, x ∈ l → loads_kept h s (f x s).2) → loads_kept h s (collect f l s).2.
Proof.
  revert s; induction l as [|x l IH]; intros s Hf; cbn [collect]; [done|].
  unfold se_bind. pose proof (Hf x s ltac:(by left)) as Hk1.
  destruct (f x s) as [[ps|e] s1] eqn:E1; cbn [snd] in Hk1; [|done].
  pose proof (IH s1 ltac:(intros y t Hy; apply Hf; by right)) as Hk2.
  destruct (collect f l s1) as [[qs|e] s2]; by etrans.
Qed.

Lemma forget_inv h s ids : sched_inv h s → sched_inv (finish h ids) (foldl forget_request s ids).
Proof.
  revert h s; induction ids as [|id ids IH]; intros h s Hi; [done|]. cbn [foldl finish]. apply IH.
  apply (loads_kept_inv _ _ _ (drop_progress_kept h id s)), (need_load_delete _ _ id) in Hi.
  apply (sched_inv_requests [_]).
  - intros i Hlive [= ->]%list_elem_of_singleton. cbn in Hlive. rewrite lookup_delete_eq in Hlive. by destruct Hlive.
  - destruct (si_requests _ _ Hi) as [Hs Hk]. split; intros i; cbn; destruct (decide (id = i)) as [->|Hne].
    + by rewrite lookup_delete_eq.
    + rewrite lookup_delete_ne by done. apply Hs.
    + split; [set_solver|by intros (? & ? & _)].
    + rewrite <-Hk. set_solver.
  - exact Hi.
Qed.

Lemma clear_pending_inv h s : sched_inv h s → sched_inv h (set_pending_loads [] s).
Proof.
  intros []. constructor; try done; [|constructor..|by apply (requests_kept _ s)].
  etrans; [|exact si_bound0]. apply subseteq_size. unfold active_restores. cbn. set_solver.
Qed.

(** The state in which a step begins to track. *)
Definition cleared (out : SchedulerOutput) (s : Scheduler) : Scheduler :=
  foldl forget_request (set_pending_loads [] s) (finished_req_ids out).

Lemma cleared_inv h s out : sched_inv h s → sched_inv (built out h) (cleared out s).
Proof.
  intros Hi%clear_pending_inv%(forget_inv _ _ (finished_req_ids out)). apply sched_inv_later; [by intros ? (? & ? & _)%list_elem_of_fmap| |done].
  apply requests_same; [|apply Hi]. intros id. apply announced_scheduled.
Qed.

(** Running the rest of [build_connector_meta] from the cleared state. *)
Lemma se_bind_kept {A B} h (m : SE Scheduler A) (k : A → SE Scheduler B) s :
  loads_kept h s (m s).2 → (∀ a s, loads_kept h s (k a s).2) → loads_kept h s (se_bind m k s).2.
Proof.
  intros Hm Hk. unfold se_bind. destruct (m s) as [[a|e] s1]; [|done]. etrans; [exact Hm|apply Hk].
Qed.

Lemma build_inv h s out : sched_inv h s → sched_inv (built out h) (build_connector_meta cn out s).2.
Proof.
  intros Hi%(cleared_inv _ _ out). unfold build_connector_meta. cbv zeta.
  eapply loads_kept_inv; [|exact Hi].
  apply se_bind_kept; [apply collect_kept; intros; by apply track_new_kept|]. intros fresh s1.
  apply se_bind_kept; [apply collect_kept; intros; apply track_cached_kept|]. intros cached s2.
  apply se_bind_kept; [done|]. intros adm s3.
  apply se_bind_kept; [case_match; [done|apply telemetry_loads_kept, count_only]|]. intros _ s4.
  apply se_bind_kept; [case_match; [done|apply telemetry_loads_kept, count_only]|]. done.
Qed.

Lemma new_request_inv h s r : sched_inv h s → sched_inv (Announced r :: h) (on_new_request r s).
Proof.
  intros Hi. apply (sched_inv_requests [_]).
  - set_solver.
  - destruct (si_requests _ _ Hi) as [Hs Hk]. split; intros id; cbn; destruct (decide (rq_id r = id)) as [<-|Hne].
    + by rewrite lookup_insert_eq.
    + by rewrite lookup_insert_ne.
    + change (match _request_cache_salt r with Some _ => _request_skips_write r | None => true end) with (not_stored r).
      split; [|intros (q & [= <-] & ->); set_solver]. destruct (not_stored r) eqn:E; [by exists r|set_solver].
    + rewrite <-Hk. destruct (match _request_cache_salt r with Some _ => _ | None => _ end); set_solver.
  - destruct Hi. by constructor.
Qed.

Lemma sched_step_inv x y : sched_step x y → sched_inv x.1 x.2 → sched_inv y.1 y.2.
Proof.
  intros Hstep. inversion Hstep; subst; cbn [fst snd]; intros Hi.
  - by apply lookup_inv.
  - unfold get_num_new_matched_tokens.
    match goal with E : s_catalog _ = None |- _ => rewrite E end.
    case_match; (eapply sched_inv_telemetry; [apply miss_only|done]).
  - by apply new_request_inv.
  - by apply alloc_inv.
  - by apply build_inv.
  - destruct Hi. constructor; try done; try (by apply (requests_kept _ s)). cbn. by intros c' [= <-].
  - destruct Hi. constructor; try done; by apply (requests_kept _ s).
Qed.

Lemma sched_rtc_inv x y : rtc sched_step x y → sched_inv x.1 x.2 → sched_inv y.1 y.2.
Proof. induction 1 as [|x y z Hxy _ IH]; [done|]. intros Hx. by apply IH, (sched_step_inv _ _ Hxy). Qed.

Lemma sched_reachable_inv h s : sched_reachable h s → sched_inv h s.
Proof.
  intros (s0 & (Hc & Hn & Hp & Hpr & Hs & Hk) & Hr).
  assert (H0' : sched_inv [] s0).
  { constructor; [done|..].
    - unfold active_restores. rewrite Hn, Hp, dom_empty_L. cbn [fmap list_fmap list_to_set].
      rewrite union_empty_l_L, size_empty. lia.
    - intros id e span n. by rewrite Hn.
    - rewrite Hp. apply NoDup_nil_2.
    - rewrite Hp. constructor.
    - split; intros id; [by rewrite Hs|]. rewrite Hk. split; [set_solver|by intros (? & ? & _)].
    - rewrite Hpr. apply map_Forall_empty. }
  exact (sched_rtc_inv _ _ Hr H0').
Qed.
End inv.
