(* ===== verification/SchedulerProps.v ===== *)
(** * What one scheduler step hands to the workers

    The metadata of a step in a reachable state: which restores it carries and
    which stores it plans. *)
From S2P Require Import Prelude Dict Bytes Utf8 Config Prefix Inventory Catalog CatalogInv CatalogSpec Topology Admission Json Identity Hma Manifest TokenFiles Telemetry Scheduler SchedulerSpec SchedulerInv.

Section props.
Context `{ObjectSizes, Sha} (cn : Connector).

Let layout := cn_layout cn.

(** ** Sound store plans *)

(** The scheduler output reports [before] computed tokens for the request. *)
Definition reports_computed (out : SchedulerOutput) (id : pystr) (before : Z) : Prop :=
  (∃ r, r ∈ scheduled_new_reqs out ∧ nr_id r = id ∧ nr_num_computed_tokens r = VInt before) ∨
  (∃ i, cr_req_ids (scheduled_cached_reqs out) !! i = Some id ∧
        cr_num_computed_tokens (scheduled_cached_reqs out) !! i = Some (VInt before)).

(** A store plan captures only computed tokens, at a chunk boundary of its prompt,
    under the complete chain of the digests of the tracked prompt [p], from valid pages;
    a group that only exposes its current state is captured exactly where it stands; and
    some rank does not offer the plan yet. *)
Definition store_ok (catalog : option QuorumCatalog) (before : Z) (p : StoreProgress) (plan : SpoolCachePlan) : Prop :=
  chain_digests cn (pr_token_ids p) (pr_cache_salt p) (pr_features p) (sp_span_tokens plan)
    = Ok (sp_prefixes plan ++ [MkPrefixDigest (sp_span_tokens plan) (sp_entry_id plan)]) ∧
  (_chunk_tokens layout | sp_span_tokens plan) ∧
  0 < sp_span_tokens plan ≤ before ∧ sp_span_tokens plan ≤ Z.of_nat (length (pr_token_ids p)) ∧
  selects_pages cn plan ∧
  (_store_requires_exact_boundary layout = true → sp_span_tokens plan = before) ∧
  (∀ c, catalog = Some c →
    ¬ (boundary_offered cn c (sp_entry_id plan) (sp_span_tokens plan) ∧
       ∀ q, q ∈ sp_prefixes plan ++ [MkPrefixDigest (sp_span_tokens plan) (sp_entry_id plan)] →
         offered c (digest q) (span_tokens q))).

Lemma chain_quorum_iff c prefixes :
  catalog_wf c → chain_quorum c prefixes = true ↔ ∀ p, p ∈ prefixes → offered c (digest p) (span_tokens p).
Proof.
  intros Hc. unfold chain_quorum. rewrite forallb_forall. split.
  - intros Hall p Hp. apply quorum_at_offered, Hall; [done|]. by apply list_elem_of_In.
  - intros Hall p Hp%list_elem_of_In. by apply (quorum_at_offered c p Hc), Hall.
Qed.

Lemma cached_plan_false catalog plan :
  (∀ c, catalog = Some c → catalog_wf c) → _cached_plan cn catalog plan = Ok false →
  ∀ c, catalog = Some c →
    ¬ (boundary_offered cn c (sp_entry_id plan) (sp_span_tokens plan) ∧
       ∀ p, p ∈ sp_prefixes plan ++ [MkPrefixDigest (sp_span_tokens plan) (sp_entry_id plan)] →
         offered c (digest p) (span_tokens p)).
Proof.
  intros Hwf Hp c ->. pose proof (Hwf c eq_refl) as Hc. intros [Hb Hall]. unfold _cached_plan in Hp.
  apply result_bind_Ok in Hp as (b & Hq & Hp). apply Ok_inj in Hp.
  apply (boundary_quorum_iff cn c _ _ Hc) in Hb. rewrite Hb in Hq. apply Ok_inj in Hq as <-.
  by rewrite (proj2 (chain_quorum_iff c _ Hc) Hall) in Hp.
Qed.

Lemma plan_at_ok id p before scheduled c s ps s' :
  progress_ok cn p → (∀ c, s_catalog s = Some c → catalog_wf c) →
  step_boundary cn before scheduled (pr_target_span p) = Ok (Some c) →
  plan_at cn id p c s = (Ok ps, s') →
  ∀ plan, plan ∈ ps → sp_request_id plan = id ∧
    ∃ b, before = VInt b ∧ store_ok (s_catalog s) b p plan.
Proof.
  intros (Hchunk & Hdiv & Htgt) Hwf Hstep Hplan plan Hin. unfold plan_at in Hplan.
  destruct (0 <? c) eqn:Epos; bsimp.
  2:{ unfold se_bind in Hplan. destruct (count_unsafe s) as [[u|e] s1]; [|done].
      injection Hplan as <- <-. by apply not_elem_of_nil in Hin. }
  injection Hplan as Hplan <-.
  apply result_bind_Ok in Hplan as (pl & Hpl & Hplan). apply result_bind_Ok in Hplan as (cached & Hc & Hplan).
  apply Ok_inj in Hplan as <-. destruct cached; [by apply not_elem_of_nil in Hin|].
  apply list_elem_of_singleton in Hin as ->.
  unfold step_boundary in Hstep.
  destruct (store_span_captured _ _ _ _ _ _ _ Hstep Epos) as
    (b & sch & -> & _ & Hq & Hcb & Hct & Hcd & _ & Hex & _).
  unfold _plan_from_progress in Hpl.
  apply result_bind_Ok in Hpl as (ids & _ & Hpl). apply result_bind_Ok in Hpl as (pages & Hpages & Hpl).
  apply result_bind_Ok in Hpl as (prefixes & Hpre & Hpl). apply result_bind_Ok in Hpl as (tail & Htail & Hpl).
  apply Ok_inj in Hpl as <-.
  destruct (chain_digests_last cn _ _ _ _ _ Hpre Hcd) as (d & Hsplit & Hl); [lia|].
  rewrite Htail in Hl. apply Ok_inj in Hl as ->.
  split; [done|]. exists b. split; [done|].
  unfold store_ok. cbn [sp_span_tokens sp_entry_id sp_prefixes digest] in *.
  split_and!; [by rewrite <-Hsplit|done|lia|lia|lia|by exists pages| |].
  - intros He. unfold layout in He. rewrite He in Hex. by destruct (Hex eq_refl).
  - exact (cached_plan_false _ _ Hwf Hc).
Qed.

(** ** The plans of one step *)

(** The part of the state that tracking relies on. *)
Definition tracking_inv (h : list event) (catalog : option QuorumCatalog) (s : Scheduler) : Prop :=
  s_catalog s = catalog ∧ requests_ok h s ∧ progress_inv cn h s.

Lemma tracking_kept h catalog s s' : loads_kept cn h s s' → tracking_inv h catalog s → tracking_inv h catalog s'.
Proof.
  intros [Hc _ _ Hs Hk Hp] (Hcat & Hr & Hpr). split; [by rewrite Hc|]. split; [by eapply requests_kept|auto].
Qed.

(** The plan stores the prompt of its own request, as far as it is computed. *)
Definition plan_ok (h : list event) (catalog : option QuorumCatalog) (out : SchedulerOutput) (plan : SpoolCachePlan) : Prop :=
  ∃ before p, reports_computed out (sp_request_id plan) before ∧ tracked cn h (sp_request_id plan) p ∧
    store_ok catalog before p plan.

Lemma collect_plans {A} (f : A → SE Scheduler (list SpoolCachePlan)) (l : list A) h catalog (Q : SpoolCachePlan → Prop) :
  (∀ x s, x ∈ l → loads_kept cn h s (f x s).2) →
  (∀ x s ps s', x ∈ l → tracking_inv h catalog s → f x s = (Ok ps, s') → ∀ plan, plan ∈ ps → Q plan) →
  ∀ s ps s', tracking_inv h catalog s → collect f l s = (Ok ps, s') →
    (∀ plan, plan ∈ ps → Q plan) ∧ tracking_inv h catalog s'.
Proof.
  induction l as [|x l IH]; intros Hk Hf s ps s' Hi; cbn [collect].
  { intros [= <- <-]. split; [by intros p ?%not_elem_of_nil|done]. }
  unfold se_bind. destruct (f x s) as [[ps1|e] s1] eqn:E1; [|done].
  pose proof (Hk x s ltac:(by left)) as Hk1. rewrite E1 in Hk1. cbn [snd] in Hk1.
  destruct (collect f l s1) as [[ps2|e] s2] eqn:E2; [|done]. intros [= <- <-].
  destruct (IH ltac:(intros; apply Hk; by right) ltac:(intros; eapply Hf; [by right|done..]) s1 ps2 s2
    (tracking_kept _ _ _ _ Hk1 Hi) E2) as [Hq Hi2].
  split; [|done]. intros plan [Hp|Hp]%elem_of_app; [|by apply Hq].
  eapply Hf; [by left|exact Hi|exact E1|exact Hp].
Qed.

Lemma track_new_plans h catalog out r s ps s' :
  (∀ c, catalog = Some c → catalog_wf c) → r ∈ scheduled_new_reqs out → tracking_inv (built out h) catalog s →
  track_new_request cn out r s = (Ok ps, s') → ∀ plan, plan ∈ ps → plan_ok (built out h) catalog out plan.
Proof.
  intros Hwf Hr (Hcat & Hro & _) Ht plan Hin. unfold track_new_request in Ht.
  destruct (new_progress cn s r) as [[p|]|e] eqn:Ep; [| |done].
  2:{ injection Ht as <- <-. by apply not_elem_of_nil in Hin. }
  pose proof (new_progress_tracked cn h out s r p Hr Hro Ep) as Htr. apply new_progress_ok in Ep.
  destruct (step_boundary _ _ _ _) as [[c|]|e] eqn:Es; [| |done].
  2:{ injection Ht as <- <-. by apply not_elem_of_nil in Hin. }
  rewrite <-Hcat in Hwf. destruct (plan_at_ok _ _ _ _ _ _ _ _ Ep Hwf Es Ht plan Hin) as (Hid & b & Hb & Hok).
  exists b, p. rewrite <-Hcat, Hid. split; [left; by exists r|done].
Qed.

Lemma track_cached_plans h catalog out i id s ps s' :
  (∀ c, catalog = Some c → catalog_wf c) → cr_req_ids (scheduled_cached_reqs out) !! i = Some id →
  tracking_inv h catalog s →
  track_cached_request cn out i id s = (Ok ps, s') → ∀ plan, plan ∈ ps → plan_ok h catalog out plan.
Proof.
  intros Hwf Hi (Hcat & _ & Hpr) Ht plan Hin. unfold track_cached_request in Ht.
  assert (Hnil : ∀ s0, (Ok [], s0) = (Ok ps, s') → False).
  { intros s0 [= <- _]. by apply not_elem_of_nil in Hin. }
  destruct (s_store_progress s !! id) as [p|] eqn:Ep; [|by destruct (Hnil _ Ht)].
  destruct (py_index (cr_new_block_ids _) i) as [groups|e]; [|done].
  destruct (extend_blocks _ _ _) as [p'|] eqn:Ee; [|by destruct (Hnil _ Ht)].
  apply (extend_blocks_kept cn h id) in Ee as [Hok' Htr]; [|exact (Hpr id p Ep)]. cbv zeta in Ht.
  destruct (py_index (cr_num_computed_tokens _) i) as [before|e] eqn:Eb; cbn [mbind result_bind] in Ht; [|done].
  destruct (step_boundary _ _ _ _) as [[c|]|e] eqn:Es; [|by destruct (Hnil _ Ht)|done].
  rewrite <-Hcat in Hwf.
  destruct (plan_at_ok id p' before _ c (drop_progress id (set_store_progress (<[id:=p']> (s_store_progress s)) s))
    ps s' Hok' Hwf Es Ht plan Hin) as (Hid & b & -> & Hok).
  exists b, p'. cbn in Hok. rewrite <-Hcat, Hid. split; [|done]. right. exists i. split; [done|].
  unfold py_index in Eb. by destruct (cr_num_computed_tokens _ !! i); [injection Eb as ->|].
Qed.

(** ** Running [build_connector_meta] *)
Lemma cleared_tables out s : s_catalog (cleared out s) = s_catalog s ∧ s_pending_loads (cleared out s) = [].
Proof.
  assert (Hf : ∀ ids t, s_catalog (foldl forget_request t ids) = s_catalog t ∧
    s_pending_loads (foldl forget_request t ids) = s_pending_loads t).
  { induction ids as [|id ids IH]; intros t; [done|]. cbn [foldl]. by destruct (IH (forget_request t id)) as [-> ->]. }
  unfold cleared. by destruct (Hf (finished_req_ids out) (set_pending_loads [] s)) as [-> ->].
Qed.

Lemma build_plans h s out meta s' :
  sched_inv cn h s → build_connector_meta cn out s = (Ok meta, s') →
  loads meta = (s_pending_loads s).*2 ∧ s_pending_loads s' = [] ∧
  (length (stores meta) ≤ 1)%nat ∧ ∀ plan, plan ∈ stores meta → plan_ok (built out h) (s_catalog s) out plan.
Proof.
  intros Hi Hb. unfold build_connector_meta in Hb. cbv zeta in Hb. fold (cleared out s) in Hb.
  pose proof (cleared_inv cn h s out Hi) as Hi0. destruct (cleared_tables out s) as [Hcat Hpend].
  pose proof (si_catalog _ _ _ Hi) as Hwf.
  assert (Ht0 : tracking_inv (built out h) (s_catalog s) (cleared out s)) by (split; [done|split; apply Hi0]).
  apply se_bind_Ok in Hb as (fresh & s1 & H1 & Hb).
  assert (N1 : ∀ x t, x ∈ scheduled_new_reqs out → loads_kept cn (built out h) t (track_new_request cn out x t).2)
    by (intros; by apply track_new_kept).
  pose proof (collect_kept cn (built out h) _ _ (cleared out s) N1) as K1.
  unfold _track_new_requests in H1. rewrite H1 in K1. cbn [snd] in K1.
  destruct (collect_plans _ _ (built out h) _ (plan_ok (built out h) (s_catalog s) out) N1
    ltac:(intros x ? ? ? Hx; exact (track_new_plans _ _ out x _ _ _ Hwf Hx)) _ _ _ Ht0 H1) as [Hfresh Ht1].
  apply se_bind_Ok in Hb as (cached & s2 & H2 & Hb). unfold _track_cached_requests in H2.
  assert (N2 : ∀ (x : nat * pystr) t, x ∈ imap pair (cr_req_ids (scheduled_cached_reqs out)) →
    loads_kept cn (built out h) t (track_cached_request cn out x.1 x.2 t).2) by (intros; apply track_cached_kept).
  match type of H2 with collect ?f ?l _ = _ => pose proof (collect_kept cn (built out h) f l s1 N2) as K2 end.
  rewrite H2 in K2. cbn [snd] in K2.
  assert (Hstep : ∀ (x : nat * pystr) t ps t', x ∈ imap pair (cr_req_ids (scheduled_cached_reqs out)) →
    tracking_inv (built out h) (s_catalog s) t → track_cached_request cn out x.1 x.2 t = (Ok ps, t') →
    ∀ plan, plan ∈ ps → plan_ok (built out h) (s_catalog s) out plan).
  { intros x t ps t' (j & id & -> & Hx)%elem_of_lookup_imap. exact (track_cached_plans _ _ out j id t ps t' Hwf Hx). }
  destruct (collect_plans _ _ _ _ (plan_ok (built out h) (s_catalog s) out) N2 Hstep _ _ _ Ht1 H2) as [Hcached _].
  apply se_bind_Ok in Hb as (adm & s3 & H3 & Hb). injection H3 as H3 <-.
  destruct (admitted_from_plans _ _ _ H3) as [Hsub Hlen].
  assert (K3 : loads_kept cn (built out h) s2 s' ∧ meta = MkMetadata (s_pending_loads s).*2 (admitted adm)).
  { apply se_bind_Ok in Hb as ([] & s4 & H4 & Hb). apply se_bind_Ok in Hb as ([] & s5 & H5 & Hb).
    injection Hb as <- <-. split; [|done].
    assert (Hskip : ∀ (n : Z) m t t', (if n =? 0 then se_ret tt else with_telemetry m) t = (Ok tt, t') → loads_kept cn (built out h) t t').
    { intros n m t t' Ht. case_match; [by injection Ht as <-|].
      apply telemetry_loads_kept. pose proof (with_telemetry_only m t) as Ho. by rewrite Ht in Ho. }
    etrans; [exact (Hskip _ _ _ _ H4)|exact (Hskip _ _ _ _ H5)]. }
  destruct K3 as [K3 ->]. cbn [loads stores]. split; [done|]. split; [|split].
  - by rewrite (lk_pending _ _ _ _ K3), (lk_pending _ _ _ _ K2), (lk_pending _ _ _ _ K1).
  - unfold MAX_PENDING_STORES in Hlen. lia.
  - intros plan [Hp|Hp]%Hsub%elem_of_app; auto.
Qed.

(** The answer to a lookup that grants nothing. *)
Lemma miss_answer o r t n async s' :
  (se_bind (_record_lookup o r) (λ _, se_ret (0, false)) t) = (Ok (n, async), s') →
  async = false ∧ n = 0 ∧ telemetry_only t s'.
Proof.
  intros Ht. pose proof (miss_only o r t) as Ho. rewrite Ht in Ho.
  apply se_bind_Ok in Ht as ([] & t1 & _ & Ht). by injection Ht as <- <- <-.
Qed.

Lemma active_bound h t s' : sched_inv cn h t → telemetry_only t s' → (size (active_restores s') ≤ 2)%nat.
Proof. intros Ht Ho. apply (si_bound cn h). by eapply sched_inv_telemetry. Qed.

(** Two restores of other requests are in progress. *)
Definition restores_exhausted (s : Scheduler) (id : pystr) : Prop :=
  id ∉ active_restores s ∧ (2 ≤ size (active_restores s))%nat.

Lemma admit_restore_answer s id span entry computed n async s' :
  admit_restore id span entry computed s = (Ok (n, async), s') →
  async = false ∧
  ((n = 0 ∧ restores_exhausted s id) ∨
   (n = span - computed ∧ 0 < n ∧ s_need_load s' !! id = Some (entry, span, n))).
Proof.
  unfold admit_restore, MAX_PENDING_RESTORES. intros Hg. destruct (negb _ && _) eqn:Eb.
  { apply miss_answer in Hg as (-> & -> & _). bsimp. split; [done|]. left. split; [done|].
    destruct Eb. split; [done|lia]. }
  destruct (span - computed <=? 0) eqn:Ex; [done|]. bsimp.
  apply se_bind_Ok in Hg as ([] & s1 & H1 & Hg). injection H1 as <-.
  apply se_bind_Ok in Hg as ([] & s2 & H2 & Hg). apply se_bind_Ok in Hg as ([] & s3 & H3 & Hg).
  injection Hg as <- <- <-. split; [done|]. right. split_and!; [done|lia|].
  pose proof (record_lookup_only "hit" "ready_entry" (set_need_load (<[id:=(entry, span, span - computed)]> (s_need_load s)) s)) as [t2 O2].
  rewrite H2 in O2. cbn [snd] in O2.
  pose proof (count_only "spoolcache_hit_tokens_total" (span - computed) [] s2) as [t3 O3].
  rewrite H3 in O3. cbn [snd] in O3. rewrite O3, O2. cbn. apply lookup_insert_eq.
Qed.

(** C30: a lookup admits a restore exactly where every rank can restore one.  A
    positive answer is the number of tokens by which the granted span exceeds those
    the call reports as computed: the span is that of the longest prefix of the
    request that is offered, at a restorable boundary, together with every earlier key
    of its chain and its boundary state by every expected rank; it is longer than what
    is computed, leaves at least one token to compute, and is recorded for the
    confirmation.  The answer is zero only if the request refuses to read, there is no
    catalog, two other requests are being restored, or no prefix of the request beyond
    the computed tokens can be restored.  At most two requests hold such a grant. *)
Theorem admitted_restore_is_offered h s request computed n async s' :
  sched_reachable cn h s →
  get_num_new_matched_tokens cn request computed s = (Ok (n, async), s') →
  async = false ∧ 0 ≤ n ∧ (size (active_restores s') ≤ 2)%nat ∧
  (0 < n → ∃ c entry span, s_catalog s = Some c ∧ s_need_load s' !! rq_id request = Some (entry, span, n) ∧
     hit_for cn c request computed entry span n) ∧
  (n = 0 → _request_skips_read request = true ∨ s_catalog s = None ∨
     restores_exhausted s (rq_id request) ∨
     ∃ c, s_catalog s = Some c ∧ ∀ entry span m, ¬ hit_for cn c request computed entry span m).
Proof.
  intros Hr Hg. pose proof (sched_reachable_inv _ _ _ Hr) as Hi.
  unfold get_num_new_matched_tokens in Hg.
  destruct (_request_skips_read request).
  { apply miss_answer in Hg as (-> & -> & Ho). split_and!; [done|lia|by eapply active_bound|lia|by left]. }
  destruct (s_catalog s) as [c|] eqn:Ec.
  2:{ apply miss_answer in Hg as (-> & -> & Ho). split_and!; [done|lia|by eapply active_bound|lia|auto]. }
  pose proof (si_catalog _ _ _ Hi c Ec) as Hwf.
  destruct (find_prefix cn c request computed) as [[reason|[[span entry] comp]]|e] eqn:Ef; [| |done].
  { apply miss_answer in Hg as (-> & -> & Ho). split_and!; [done|lia|by eapply active_bound|lia|].
    intros _. do 3 right. exists c. split; [done|]. intros entry span m. by eapply find_prefix_miss. }
  apply find_prefix_hit in Ef as Hhit; [|done].
  assert (Hi' : sched_inv cn (Looked request computed c :: h) s').
  { replace s' with (admit_restore (rq_id request) span entry comp s).2 by by rewrite Hg.
    apply admit_restore_inv; [by apply sched_inv_looked|]. exists request, computed, c. by split; [left|]. }
  apply admit_restore_answer in Hg as [-> [[-> Hx]|(-> & Hpos & Hn)]].
  all: split; [done|]; split; [lia|]; split; [apply Hi'|].
  - split; [lia|auto].
  - split; [|lia]. intros _. by exists c, entry, span.
Qed.

(** C29: the metadata of a step.  It carries at most two restores, one per request,
    each granted by an earlier lookup of the same request and confirmed with block
    tables that select a valid page range of every group, and afterwards none is
    pending; and at most one store.  The store belongs to a request that was scheduled
    and has not finished: it captures only tokens the step reports as computed, at a
    chunk boundary of that request's own prompt, under the complete digest chain of its
    tokens, its media and the salt it was announced with, where storing is allowed; and
    some rank does not offer it yet. *)
Theorem metadata_is_sound h s out meta s' :
  sched_reachable cn h s → build_connector_meta cn out s = (Ok meta, s') →
  (length (loads meta) ≤ 2)%nat ∧ NoDup (sp_request_id <$> loads meta) ∧
  Forall (load_ok cn h) (loads meta) ∧ s_pending_loads s' = [] ∧
  (length (stores meta) ≤ 1)%nat ∧ Forall (plan_ok (built out h) (s_catalog s) out) (stores meta).
Proof.
  intros Hr%sched_reachable_inv Hb. destruct (build_plans _ _ _ _ _ Hr Hb) as (-> & Hp & Hs & Hst).
  assert (Hids : sp_request_id <$> (s_pending_loads s).*2 = (s_pending_loads s).*1).
  { pose proof (si_pending _ _ _ Hr) as Hpend. clear -Hpend.
    induction Hpend as [|[id p] l [He _] _ IH]; [done|]. cbn in *. by rewrite He, IH. }
  split; [|split; [by rewrite Hids; apply Hr|split; [|split; [done|split; [done|by apply Forall_forall]]]]].
  - rewrite length_fmap. etrans; [|exact (si_bound _ _ _ Hr)].
    rewrite <-(length_fmap fst), <-(size_list_to_set (C := gset pystr)) by apply Hr.
    apply subseteq_size. unfold active_restores. set_solver.
  - apply Forall_fmap. eapply Forall_impl; [apply Hr|]. by intros [id p] [_ ?].
Qed.
End props.
