(* ===== verification/Snapshot.v ===== *)
(** * Snapshots of the runtime's configuration (src/spoolcache/vllm/connector.py)

    The public configuration objects of the runtime, as a heap of objects that may share
    and contain each other, and what the connector makes of them: the canonical value of
    [_json_safe], the configuration snapshots, the enabled modalities, the worker's
    coordinate and the deployment identity. *)
From S2P Require Import Prelude Dict Bytes Utf8 Json Identity Topology TokenFiles Scheduler.

(** ** Canonical values

    [json], with finite floats as the text that [float.__repr__] gives. *)
Inductive tree :=
  | TNull
  | TBool (b : bool)
  | TInt (z : Z)
  | TFloat (text : pystr)
  | TStr (s : pystr)
  | TArr (l : list tree)
  | TObj (l : list (pystr * tree)).

Fixpoint print_tree (t : tree) : pystr :=
  match t with
  | TNull => lit "null"
  | TBool b => if b then lit "true" else lit "false"
  | TInt z => print_int z
  | TFloat text => text
  | TStr s => quote s
  | TArr l => 91 :: join 44 (map print_tree l) ++ [93]
  | TObj l => 123 :: join 44 (map (λ p, quote p.1 ++ 58 :: p.2) (sort_keys (map (λ p, (p.1, print_tree p.2)) l))) ++ [125]
  end.

Definition canonical_tree (t : tree) : result (list byte) :=
  match encode_utf8 (print_tree t) with
  | Ok b => Ok b
  | Raise _ => raise IdentityError "identity contains a non-canonical value"
  end.
Definition sha256_tree `{Sha} (t : tree) : result pystr := b ← canonical_tree t; Ok (sha256_hex b).

(** ** Objects *)

(** A reference: the values that have no identity of their own, or an object. *)
Inductive ref := RNone | RBool (b : bool) | RInt (z : Z) | RStr (s : pystr) | RObj (id : Z).
#[export] Instance ref_eq_dec : EqDecision ref.
Proof. solve_decision. Defined.

(** What [isinstance] tells of an object, in the order of the tests; [IsOther] is every
    other object, dataclass instances among them. *)
Inductive shape :=
  | IsEnum (value : ref)
  | IsFloat (finite : bool) (text : pystr)
  | IsBytes (b : list byte)
  | IsPath (path : pystr)
  | IsType
  | IsCallable
  | IsMapping (items : list (ref * ref))
  | IsSequence (items : list ref)
  | IsSet (items : list ref)
  | IsOther.

Record object := Object {
  ob_name : pystr;                                      (* the module and qualified name shown for it *)
  ob_shape : shape;
  ob_fields : option (list pystr);                      (* of a dataclass instance *)
  ob_vars : option (list (pystr * ref));                (* [vars]; [None]: [TypeError] *)
  ob_getattr : pystr → result ref;
  ob_call : pystr → option (list ref → result ref);     (* callable attributes *)
  ob_str : pystr
}.

Section snapshot.
Context `{Sha} (heap : gmap Z object) (word : Z → bool).

(** [getattr(v, name)], [getattr(v, name, default)], and the callable attribute [name]. *)
Definition get_attribute (v : ref) (name : pystr) : result ref :=
  match v with
  | RObj id => match heap !! id with Some o => ob_getattr o name | None => raise AttributeError "object" end
  | _ => raise AttributeError "object"
  end.
Definition get_attribute_or (v : ref) (name : pystr) (d : ref) : result ref :=
  match get_attribute v name with
  | Raise e => if decide (exn_class e = AttributeError) then Ok d else Raise e
  | r => r
  end.
Definition method (v : ref) (name : pystr) : option (list ref → result ref) :=
  match v with RObj id => match heap !! id with Some o => ob_call o name | None => None end | _ => None end.

(** [str(v)] *)
Definition py_str (v : ref) : pystr :=
  match v with
  | RNone => lit "None"
  | RBool b => if b then lit "True" else lit "False"
  | RInt z => print_int z
  | RStr s => s
  | RObj id => match heap !! id with Some o => ob_str o | None => [] end
  end.

(** ** [_json_safe] *)
Definition public (name : pystr) : bool :=
  match name with 95 :: _ => false | _ => negb (bool_decide (name = lit "compute_hash")) end.

(** [re.search(r"\bat 0x[0-9a-fA-F]+\b", s)]; [word] is the class [\w]. *)
Definition is_hexdigit (c : Z) : bool := ((48 <=? c) && (c <=? 57)) || ((65 <=? c) && (c <=? 70)) || ((97 <=? c) && (c <=? 102)).
Fixpoint after_hex (s : pystr) : pystr :=
  match s with c :: s' => if is_hexdigit c then after_hex s' else s | [] => [] end.
Definition address_here (s : pystr) : bool :=
  bool_decide (take 5 s = lit "at 0x") &&
  match drop 5 s with
  | c :: s' => is_hexdigit c && match after_hex s' with [] => true | d :: _ => negb (word d) end
  | [] => false
  end.
Fixpoint has_address (after_word : bool) (s : pystr) : bool :=
  match s with
  | [] => false
  | c :: s' => (negb after_word && address_here s) || has_address (word c) s'
  end.

Section containers.
Context (safe : ref → result tree).

(** The mapping's keys by their text, which must be told apart. *)
Fixpoint safe_mapping (items : list (ref * ref)) (seen : list pystr) : result (list (pystr * tree)) :=
  match items with
  | [] => Ok []
  | (key, item) :: items =>
      let normalized := py_str key in
      _ ← raise_if (bool_decide (normalized ∈ seen)) UnsupportedRuntimeError
            "vLLM configuration keys are not canonically unique";
      t ← safe item;
      rest ← safe_mapping items (normalized :: seen);
      Ok ((normalized, t) :: rest)
  end.

Definition item_digest (t : tree) : result pystr := sha256_tree (TObj [(lit "item", t)]).

(** [sorted(normalized, key=...)] *)
Definition digest_sort (l : list tree) : result (list tree) :=
  keyed ← mapM_result (λ t, d ← item_digest t; Ok (d, t)) l;
  Ok (sort_keys keyed).*2.

Definition safe_attribute (o : object) (name : pystr) : result (pystr * tree) :=
  v ← ob_getattr o name; t ← safe v; Ok (name, t).

Definition safe_other (o : object) : result tree :=
  match ob_fields o with
  | Some names => l ← mapM_result (safe_attribute o) (List.filter public names); Ok (TObj l)
  | None =>
      match List.filter (λ p, public p.1) (default [] (ob_vars o)) with
      | [] =>
          _ ← raise_if (has_address false (ob_str o)) UnsupportedRuntimeError
                "vLLM configuration contains an opaque public value";
          Ok (TObj [(lit "type", TStr (ob_name o)); (lit "value", TStr (ob_str o))])
      | fields =>
          l ← mapM_result (λ p, t ← safe p.2; Ok (p.1, t)) fields;
          Ok (TObj [(lit "type", TStr (ob_name o)); (lit "fields", TObj l)])
      end
  end.

(** The body of the [try]: the object is active. *)
Definition safe_container (o : object) : result tree :=
  match ob_call o (lit "to_dict") with
  | Some to_dict =>
      match v ← to_dict []; safe v with
      | Ok t => Ok t
      | Raise _ => raise UnsupportedRuntimeError "cannot serialize a public vLLM configuration"
      end
  | None =>
      match ob_shape o with
      | IsMapping items => l ← safe_mapping items []; Ok (TObj l)
      | IsSequence items => l ← mapM_result safe items; Ok (TArr l)
      | IsSet items => normalized ← mapM_result safe items; l ← digest_sort normalized; Ok (TArr l)
      | _ => safe_other o
      end
  end.
End containers.

(** What the interpreter raises when its recursion limit is exhausted. *)
Context (limit : exn).

(** [depth] is what the recursion limit leaves; [active] holds the objects being
    traversed. *)
Fixpoint _json_safe_inner (depth : nat) (active : gset Z) (v : ref) : result tree :=
  match depth with
  | O => Raise limit
  | S depth =>
      match v with
      | RNone => Ok TNull
      | RBool b => Ok (TBool b)
      | RInt z => Ok (TInt z)
      | RStr s => Ok (TStr s)
      | RObj id =>
          match heap !! id with
          | None => raise AttributeError "object"
          | Some o =>
              match ob_shape o with
              | IsEnum value =>
                  t ← _json_safe_inner depth active value;
                  Ok (TObj [(lit "enum", TStr (ob_name o)); (lit "value", t)])
              | IsFloat finite text => Ok (if (finite : bool) then TFloat text else TStr text)
              | IsBytes b => Ok (TObj [(lit "bytes", TInt (Z.of_nat (length b))); (lit "sha256", TStr (sha256_hex b))])
              | IsPath path => Ok (TStr path)
              | IsType => Ok (TStr (ob_name o))
              | IsCallable => Ok (TObj [(lit "callable", TStr (ob_name o))])
              | _ =>
                  _ ← raise_if (bool_decide (id ∈ active)) UnsupportedRuntimeError
                        "vLLM configuration contains a recursive public value";
                  safe_container (_json_safe_inner depth ({[id]} ∪ active)) o
              end
          end
      end
  end.

Context (depth : nat).
Definition _json_safe (v : ref) : result tree := _json_safe_inner depth ∅ v.

(** ** Configuration snapshots *)

(** The names of the fields of a dataclass instance, or of [vars]. *)
Definition public_names (v : ref) (msg : string) : result (list pystr) :=
  match v with
  | RObj id =>
      match heap !! id with
      | Some o => match ob_fields o, ob_vars o with
                  | Some names, _ => Ok names
                  | None, Some vars => Ok vars.*1
                  | None, None => raise UnsupportedRuntimeError msg
                  end
      | None => raise UnsupportedRuntimeError msg
      end
  | _ => raise UnsupportedRuntimeError msg
  end.

Definition config_entry (v : ref) (name : pystr) : result (pystr * tree) :=
  x ← get_attribute v name; t ← _json_safe x; Ok (name, t).

Definition _public_config_snapshot (excluded : list pystr) (v : ref) : result tree :=
  match v with
  | RNone => Ok TNull
  | _ =>
      names ← public_names v "cannot enumerate a public vLLM configuration";
      l ← mapM_result (config_entry v)
            (List.filter (λ name, public name && negb (bool_decide (name ∈ excluded))) names);
      Ok (TObj l)
  end.

Definition _compute_hash (v : ref) : result pystr :=
  match method v (lit "compute_hash") with
  | None => raise UnsupportedRuntimeError "lacks public compute_hash()"
  | Some compute_hash =>
      match compute_hash [] with
      | Raise _ => raise UnsupportedRuntimeError "cannot compute identity"
      | Ok (RStr (_ :: _ as s)) => Ok s
      | Ok _ => raise UnsupportedRuntimeError "compute_hash() is invalid"
      end
  end.

(** The components that offer a hash. *)
Definition component_hash (vllm_config : ref) (name : pystr) : result (list (pystr * tree)) :=
  component ← get_attribute_or vllm_config name RNone;
  match method component (lit "compute_hash") with
  | None => Ok []
  | Some _ => h ← _compute_hash component; Ok [(name, TStr h)]
  end.
Definition _component_hashes (vllm_config : ref) : result tree :=
  names ← public_names vllm_config "cannot enumerate VllmConfig public components";
  l ← mapM_result (component_hash vllm_config) (List.filter public names);
  Ok (TObj (concat l)).

Definition _runtime_integer (minimum : Z) (v : ref) : result Z :=
  match v with
  | RInt z => if z <? minimum then raise UnsupportedRuntimeError "not a valid runtime integer" else Ok z
  | _ => raise UnsupportedRuntimeError "not a valid runtime integer"
  end.

(** ** Enabled modalities *)
Definition caught_in_discovery (e : exn) : bool :=
  caught_by_ValueError e || bool_decide (exn_class e = AttributeError) || bool_decide (exn_class e = TypeError).

(** The body of the [try]: [None] is a model whose registry supports no inputs. *)
Definition modality_limits (registry model_config : ref)
    (supports_inputs get_processing_info get_multimodal_config : list ref → result ref) : result (option (ref * ref)) :=
  supported ← supports_inputs [model_config];
  match supported with
  | RBool false => Ok None
  | RBool true =>
      processing_info ← get_processing_info [model_config];
      supported_limits ← get_attribute processing_info (lit "supported_mm_limits");
      multimodal_config ← get_multimodal_config [];
      _ ← get_attribute multimodal_config (lit "get_limit_per_prompt");
      Ok (Some (supported_limits, multimodal_config))
  | _ => raise UnsupportedRuntimeError "vLLM multimodal registry support result is not boolean"
  end.

(** One turn of the loop: the modality, if it is enabled. *)
Definition enabled_modality (get_limit_per_prompt : list ref → result ref) (item : ref * ref) : result (list pystr) :=
  match item.1 with
  | RStr (_ :: _ as modality) =>
      limit ← match item.2 with
              | RNone => Ok None
              | RInt z => if z <? 0 then raise UnsupportedRuntimeError "vLLM reported an invalid limit" else Ok (Some z)
              | _ => raise UnsupportedRuntimeError "vLLM reported an invalid limit"
              end;
      if bool_decide (limit = Some 0) then Ok []
      else
        match get_limit_per_prompt [RStr modality] with
        | Raise e => if caught_by_ValueError e || bool_decide (exn_class e = KeyError) || bool_decide (exn_class e = TypeError)
                     then raise UnsupportedRuntimeError "cannot read vLLM's configured limit" else Raise e
        | Ok (RInt configured) =>
            if configured <? 0 then raise UnsupportedRuntimeError "vLLM reported an invalid configured limit"
            else Ok (if 0 <? configured then [modality] else [])
        | Ok _ => raise UnsupportedRuntimeError "vLLM reported an invalid configured limit"
        end
  | _ => raise UnsupportedRuntimeError "vLLM reported an invalid multimodal input name"
  end.

Definition differs {A} : result A := raise UnsupportedRuntimeError "vLLM multimodal capability discovery contract differs".

Definition _discover_multimodal_modalities (vllm_config registry : ref) : result (list pystr) :=
  model_config ← get_attribute_or vllm_config (lit "model_config") RNone;
  _ ← raise_if (bool_decide (model_config = RNone)) UnsupportedRuntimeError "vLLM model configuration is unavailable";
  is_multimodal ← get_attribute_or model_config (lit "is_multimodal_model") RNone;
  match is_multimodal with
  | RBool false => Ok []
  | RBool true =>
      match method registry (lit "supports_multimodal_inputs"), method registry (lit "get_processing_info"),
            method model_config (lit "get_multimodal_config") with
      | Some supports_inputs, Some get_processing_info, Some get_multimodal_config =>
          match modality_limits registry model_config supports_inputs get_processing_info get_multimodal_config with
          | Raise e => if caught_in_discovery e
                       then raise UnsupportedRuntimeError "cannot discover vLLM multimodal input capabilities" else Raise e
          | Ok None => Ok []
          | Ok (Some (RObj id, multimodal_config)) =>
              match ob_shape <$> heap !! id, method multimodal_config (lit "get_limit_per_prompt") with
              | Some (IsMapping items), Some get_limit_per_prompt =>
                  l ← mapM_result (enabled_modality get_limit_per_prompt) items; Ok (concat l)
              | _, _ => differs
              end
          | Ok (Some _) => differs
          end
      | _, _, _ => differs
      end
  | _ => raise UnsupportedRuntimeError "vLLM multimodal model flag is not boolean"
  end.

(** ** The worker's coordinate *)
Definition to_pyval (v : ref) : pyval :=
  match v with RNone => VNone | RBool b => VBool b | RInt z => VInt z | RStr s => VStr s | RObj _ => VObj end.

(** The rank in one process group, whose size must be the degree. *)
Definition group_rank (group : ref) (expected_size : Z) : result Z :=
  size ← get_attribute_or group (lit "world_size") RNone;
  group_size ← _runtime_integer 1 size;
  _ ← raise_if (negb (group_size =? expected_size)) RuntimeError "vLLM group size disagrees with topology";
  rank ← get_attribute_or group (lit "rank_in_group") RNone;
  _nonnegative_runtime_int (to_pyval rank).

Definition _runtime_worker_coordinate (vllm_config pp_group tp_group dcp_group : ref) (tp_degree pp_degree dcp_degree : Z)
    : result WorkerCoordinate :=
  pp_rank ← group_rank pp_group pp_degree;
  tp_rank ← group_rank tp_group tp_degree;
  dcp_rank ← group_rank dcp_group dcp_degree;
  parallel ← get_attribute_or vllm_config (lit "parallel_config") RNone;
  configured_global_rank ← get_attribute_or parallel (lit "rank") (RInt (pp_rank * tp_degree + tp_rank));
  match from_runtime (to_pyval configured_global_rank) (VInt pp_rank) (VInt tp_rank) (VInt dcp_rank)
          (VInt tp_degree) (VInt pp_degree) (VInt dcp_degree) with
  | Ok c => Ok c
  | Raise e => if caught_by_ValueError e then raise RuntimeError "vLLM worker rank coordinates are inconsistent" else Raise e
  end.

(** ** The deployment identity *)
Definition model_excluded : list pystr := [lit "hf_token"; lit "served_model_name"].
Definition cache_excluded : list pystr :=
  lit <$> ["gpu_memory_utilization"; "num_gpu_blocks_override"; "num_gpu_blocks"; "num_cpu_blocks";
           "kv_cache_size_tokens"; "kv_cache_max_concurrency"; "kv_cache_memory_bytes"]%string.

Definition multimodal_of (model : ref) : result ref :=
  multimodal ← get_attribute_or model (lit "multimodal_config") RNone;
  if bool_decide (multimodal = RNone) then
    match method model (lit "get_multimodal_config") with
    | None => Ok RNone
    | Some get => match get [] with
                  | Ok v => Ok v
                  | Raise _ => raise UnsupportedRuntimeError "cannot read the public multimodal configuration"
                  end
    end
  else Ok multimodal.

Definition execution_payload (vllm_config model cache : ref) (storage_schema : option pystr) : result tree :=
  vllm_config_hash ← _compute_hash vllm_config;
  multimodal ← multimodal_of model;
  components ← _component_hashes vllm_config;
  let part name := v ← get_attribute_or vllm_config (lit name) RNone; _public_config_snapshot [] v in
  attention ← part "attention_config"%string;
  cache_payload ← _public_config_snapshot cache_excluded cache;
  mamba ← part "mamba_config"%string;
  quant ← part "quant_config"%string;
  speculative ← part "speculative_config"%string;
  multimodal_payload ← _public_config_snapshot [] multimodal;
  Ok (TObj [(lit "schema", TStr (lit "spoolcache-vllm-execution-config/v1"));
            (lit "prefix_reuse_schema", TStr (default TOKEN_FILE_SCHEMA storage_schema));
            (lit "vllm_config_compute_hash", TStr vllm_config_hash);
            (lit "component_compute_hashes", components);
            (lit "attention_config", attention); (lit "cache_config", cache_payload); (lit "mamba_config", mamba);
            (lit "quant_config", quant); (lit "speculative_config", speculative); (lit "multimodal_config", multimodal_payload)]).

Definition runtime_topology (parallel : ref) : result (list (pystr * Z)) :=
  let degree name d := v ← get_attribute_or parallel (lit name) d; _runtime_integer 1 v in
  tp ← degree "tensor_parallel_size"%string RNone;
  pp ← degree "pipeline_parallel_size"%string RNone;
  dcp ← degree "decode_context_parallel_size"%string (RInt 1);
  dp ← degree "data_parallel_size"%string (RInt 1);
  raw_dp_rank ← get_attribute_or parallel (lit "data_parallel_rank") (RInt 0);
  dp_rank ← _runtime_integer 0 (if bool_decide (raw_dp_rank = RNone) && (dp =? 1) then RInt 0 else raw_dp_rank);
  world_size ← degree "world_size"%string (RInt (tp * pp));
  world_size_across_dp ← degree "world_size_across_dp"%string (RInt (world_size * dp));
  Ok [(lit "tp", tp); (lit "pp", pp); (lit "dcp", dcp); (lit "dp", dp); (lit "dp_rank", dp_rank);
      (lit "world_size", world_size); (lit "world_size_across_dp", world_size_across_dp)].

(** [_json_safe] of a payload is the payload: its containers are fresh and its keys are
    strings. *)
Definition _build_deployment_identity (vllm_config : ref) (profile logical_digest model_namespace_sha256 : pystr)
    (chunk_tokens : pyval) (vllm_version vllm_build_sha256 spoolcache_version : pystr) (storage_schema : option pystr)
    : result DeploymentIdentity :=
  parallel ← get_attribute vllm_config (lit "parallel_config");
  model ← get_attribute vllm_config (lit "model_config");
  cache ← get_attribute vllm_config (lit "cache_config");
  model_payload ← _public_config_snapshot model_excluded model;
  execution ← execution_payload vllm_config model cache storage_schema;
  topology ← runtime_topology parallel;
  model_digest ← sha256_tree model_payload;
  execution_digest ← sha256_tree execution;
  cache_dtype ← get_attribute_or cache (lit "cache_dtype") (RStr (lit "unknown"));
  let d := {| dep_schema := lit "spoolcache-deployment/v2"; dep_profile := profile;
              dep_model_namespace_sha256 := model_namespace_sha256; dep_model_config_sha256 := model_digest;
              dep_execution_config_sha256 := execution_digest; dep_vllm_version := vllm_version;
              dep_vllm_build_sha256 := vllm_build_sha256; dep_kv_cache_dtype := py_str cache_dtype;
              dep_topology := (λ p, (p.1, VInt p.2)) <$> topology; dep_layout_sha256 := logical_digest;
              dep_chunk_tokens := chunk_tokens; dep_spoolcache_version := spoolcache_version;
              dep_publication_policy := lit "prompt-snapshot-v1" |} in
  _ ← deployment_post_init d;
  Ok d.
End snapshot.

(** ** Congruence

    A container is made of the answers of [safe] on its children. *)
Section congruence.
Context `{Sha} (heap : gmap Z object) (word : Z → bool).

Lemma mapM_result_ext {A B} (f g : A → result B) l : (∀ x, f x = g x) → mapM_result f l = mapM_result g l.
Proof. intros E. induction l as [|x l IH]; [done|]. cbn. by rewrite E, IH. Qed.

Lemma safe_mapping_ext f g items seen : (∀ v, f v = g v) → safe_mapping heap f items seen = safe_mapping heap g items seen.
Proof.
  intros E. revert seen. induction items as [|[k v] items IH]; intros seen; [done|]. cbn. rewrite E.
  destruct (raise_if _ _ _); [|done]. cbn. destruct (g v); [|done]. cbn. by rewrite IH.
Qed.

Lemma safe_container_ext f g o : (∀ v, f v = g v) → safe_container heap word f o = safe_container heap word g o.
Proof.
  intros E. unfold safe_container.
  assert (Hother : safe_other word f o = safe_other word g o).
  { unfold safe_other. destruct (ob_fields o) as [names|].
    - erewrite mapM_result_ext; [done|]. intros name. unfold safe_attribute. destruct (ob_getattr o name); [|done]. cbn. by rewrite E.
    - case_match; [done|]. erewrite mapM_result_ext; [done|]. intros x. by rewrite E. }
  destruct (ob_call o _) as [to_dict|].
  - destruct (to_dict []) as [v|]; [|done]. cbn. by rewrite E.
  - destruct (ob_shape o); try done; [by rewrite (safe_mapping_ext f g)|by rewrite (mapM_result_ext f g)..].
Qed.

(** ** Termination *)
Definition is_enum (v : ref) : Prop :=
  ∃ id o x, v = RObj id ∧ heap !! id = Some o ∧ ob_shape o = IsEnum x.

Context (Henum : ∀ id o x, heap !! id = Some o → ob_shape o = IsEnum x → ¬ is_enum x).

Notation run := (_json_safe_inner heap word).

(** What is left to visit. *)
Definition unvisited (active : gset Z) : nat := size (dom heap ∖ active).

Lemma visit_less id (active : gset Z) : is_Some (heap !! id) → id ∉ active →
  (S (unvisited ({[id]} ∪ active)) ≤ unvisited active)%nat.
Proof.
  intros Hid Hn. unfold unvisited. apply subset_size. split; [set_solver|].
  intros Hsub. apply elem_of_dom in Hid. assert (id ∈ dom heap ∖ active) as Hin by set_solver. apply Hsub in Hin. set_solver.
Qed.

Lemma run_stable e e' n :
  ∀ active v d d', unvisited active = n →
  ((2 * n + 2 ≤ d)%nat → (2 * n + 2 ≤ d')%nat → run e d active v = run e' d' active v) ∧
  (¬ is_enum v → (2 * n + 1 ≤ d)%nat → (2 * n + 1 ≤ d')%nat → run e d active v = run e' d' active v).
Proof.
  induction (lt_wf n) as [n _ IH]. intros active.
  assert (Hplain : ∀ v d d', unvisited active = n → ¬ is_enum v → (2 * n + 1 ≤ d)%nat → (2 * n + 1 ≤ d')%nat →
                   run e d active v = run e' d' active v).
  { intros v [|d] [|d'] Hn Hv Hd Hd'; try lia. cbn. destruct v as [| | | |id]; try done.
    destruct (heap !! id) as [o|] eqn:Eo; [|done].
    assert (∀ x, ob_shape o ≠ IsEnum x) as Hne by (intros x Hx; apply Hv; by exists id, o, x).
    assert (bool_decide (id ∈ active) = false →
      safe_container heap word (run e d ({[id]} ∪ active)) o = safe_container heap word (run e' d' ({[id]} ∪ active)) o) as Hsame.
    { intros Hin%bool_decide_eq_false. pose proof (visit_less id active (mk_is_Some _ _ Eo) Hin) as Hless.
      apply safe_container_ext. intros w. apply (proj1 (IH (unvisited ({[id]} ∪ active)) ltac:(lia) _ w d d' eq_refl)); lia. }
    destruct (ob_shape o) eqn:Es; try done; try (by destruct (Hne value));
      (destruct (bool_decide (id ∈ active)); [done|]; cbn; by apply Hsame). }
  intros v d d' Hn. split; [|by apply Hplain]. intros Hd Hd'.
  destruct v as [| | | |id]; [destruct d, d'; (lia || done)..|].
  destruct (heap !! id) as [o|] eqn:Eo; [|destruct d, d'; try lia; cbn; by rewrite Eo].
  destruct (ob_shape o) as [x| | | | | | | | |] eqn:Es;
    try (apply Hplain; [done| |lia|lia]; intros (id' & o' & x' & [= <-] & Ho & Hs); congruence).
  destruct d as [|d], d' as [|d']; try lia. cbn. rewrite Eo, Es.
  rewrite (Hplain x d d' Hn); [done|by apply (Henum id o)|lia|lia].
Qed.
End congruence.

(** ** Recursive values *)
Section recursive.
Context `{Sha} (heap : gmap Z object) (word : Z → bool) (limit : exn).

(** What a container's snapshot contains. *)
Inductive part_of (o : object) (w : ref) : Prop :=
  | part_to_dict f : ob_call o (lit "to_dict") = Some f → f [] = Ok w → part_of o w
  | part_mapping items k : ob_call o (lit "to_dict") = None → ob_shape o = IsMapping items → (k, w) ∈ items → part_of o w
  | part_sequence items : ob_call o (lit "to_dict") = None → ob_shape o = IsSequence items → w ∈ items → part_of o w
  | part_set items : ob_call o (lit "to_dict") = None → ob_shape o = IsSet items → w ∈ items → part_of o w
  | part_field names name : ob_call o (lit "to_dict") = None → ob_shape o = IsOther → ob_fields o = Some names →
      name ∈ names → public name = true → ob_getattr o name = Ok w → part_of o w
  | part_var vars name : ob_call o (lit "to_dict") = None → ob_shape o = IsOther → ob_fields o = None → ob_vars o = Some vars →
      (name, w) ∈ vars → public name = true → part_of o w.

Inductive child : ref → ref → Prop :=
  | child_enum id o w : heap !! id = Some o → ob_shape o = IsEnum w → child (RObj id) w
  | child_part id o w : heap !! id = Some o →
      (match ob_shape o with IsMapping _ | IsSequence _ | IsSet _ | IsOther => True | _ => False end) →
      part_of o w → child (RObj id) w.

Lemma mapM_result_elem {A B} (f : A → result B) l k x : mapM_result f l = Ok k → x ∈ l → ∃ y, f x = Ok y.
Proof.
  intros Hall%mapM_result_Ok [i Hi]%list_elem_of_lookup. destruct (Forall2_lookup_l _ _ _ _ _ Hall Hi) as (y & _ & Hy). eauto.
Qed.

Lemma safe_mapping_elem safe items seen l k w :
  safe_mapping heap safe items seen = Ok l → (k, w) ∈ items → ∃ t, safe w = Ok t.
Proof.
  revert seen l. induction items as [|[k' v] items IH]; intros seen l; cbn; [by intros _ ?%elem_of_nil|].
  intros (? & _ & (t & Ht & (rest & Hr & _)%result_bind_Ok)%result_bind_Ok)%result_bind_Ok [[= <- <-]|Hin]%elem_of_cons; eauto.
Qed.

Lemma filter_elem {A} (f : A → bool) l x : x ∈ List.filter f l ↔ x ∈ l ∧ f x = true.
Proof. by rewrite !list_elem_of_In, filter_In. Qed.

Lemma safe_container_parts safe o t w : safe_container heap word safe o = Ok t → part_of o w → ∃ t', safe w = Ok t'.
Proof.
  unfold safe_container. intros Ht [f Hc Hw|items k Hc Hs Hw|items Hc Hs Hw|items Hc Hs Hw|names name Hc Hs Hf Hn Hp Hg|vars name Hc Hs Hf Hv Hn Hp];
    rewrite Hc in Ht; try rewrite Hs in Ht.
  - rewrite Hw in Ht. cbn in Ht. destruct (safe w); [eauto|done].
  - apply result_bind_Ok in Ht as (l & Hl & _). by eapply safe_mapping_elem.
  - apply result_bind_Ok in Ht as (l & Hl & _). by eapply mapM_result_elem.
  - apply result_bind_Ok in Ht as (l & Hl & _). by eapply mapM_result_elem.
  - unfold safe_other in Ht. rewrite Hf in Ht. apply result_bind_Ok in Ht as (l & Hl & _).
    eapply (mapM_result_elem _ _ _ name) in Hl as [y Hy]; [|by apply filter_elem]. unfold safe_attribute in Hy. rewrite Hg in Hy.
    apply result_bind_Ok in Hy as (? & [= <-] & (t' & ? & _)%result_bind_Ok). eauto.
  - unfold safe_other in Ht. rewrite Hf, Hv in Ht. cbn [default id] in Ht.
    assert ((name, w) ∈ List.filter (λ p, public p.1) vars) as Hin by (by apply filter_elem).
    destruct (List.filter _ vars) as [|x l] eqn:E; [by apply elem_of_nil in Hin|]. apply result_bind_Ok in Ht as (k & Hk & _).
    eapply (mapM_result_elem _ _ _ (name, w)) in Hk as [y Hy]; [|done]. apply result_bind_Ok in Hy as (t' & ? & _). eauto.
Qed.

Lemma child_Ok d active v w t : _json_safe_inner heap word limit d active v = Ok t → child v w →
  ∃ d' active' t', d = S d' ∧ _json_safe_inner heap word limit d' active' w = Ok t'.
Proof.
  destruct d as [|d]; [done|]. intros Ht Hc. cbn in Ht. exists d. destruct Hc as [id o w Ho Hs|id o w Ho Hs Hp]; rewrite Ho in Ht.
  - rewrite Hs in Ht. apply result_bind_Ok in Ht as (t' & ? & _). eauto.
  - assert (∃ u, (_ ← raise_if (bool_decide (id ∈ active)) UnsupportedRuntimeError
                          "vLLM configuration contains a recursive public value";
            safe_container heap word (_json_safe_inner heap word limit d ({[id]} ∪ active)) o) = Ok u) as [u Hu].
    { destruct (ob_shape o); try done; eauto. }
    apply result_bind_Ok in Hu as (? & _ & Hu). destruct (safe_container_parts _ _ _ _ Hu Hp) as [t' ?]. eauto.
Qed.

Lemma path_bounded n v w d active t : nsteps child n v w → _json_safe_inner heap word limit d active v = Ok t → (n < d)%nat.
Proof.
  intros Hp. revert d active t. induction Hp as [v|n v x w Hc Hp IH]; intros d active t Ht; [destruct d; [done|lia]|].
  destruct (child_Ok _ _ _ _ _ Ht Hc) as (d' & active' & t' & -> & Ht'). apply IH in Ht'. lia.
Qed.

Lemma loop_long v n : tc child v v → ∃ m w, (n ≤ m)%nat ∧ nsteps child m v w.
Proof.
  intros Hl. assert (∃ k, (0 < k)%nat ∧ nsteps child k v v) as (k & Hk & Hs).
  { apply tc_nsteps in Hl as (k & ? & ?). by exists k. }
  exists (n * k)%nat, v. split; [nia|]. induction n as [|n IH]; [constructor|]. cbn. by eapply nsteps_trans.
Qed.
End recursive.

(** ** The order of sets *)

(** Two values with one canonical text. *)
Definition same (t u : tree) : Prop := print_tree t = print_tree u.

Lemma same_array l k : Forall2 same l k → same (TArr l) (TArr k).
Proof.
  intros Hl. unfold same. cbn. assert (map print_tree l = map print_tree k) as ->; [|done]. by induction Hl as [|t u l k Ht Hl IH]; cbn; [|rewrite Ht, IH].
Qed.

Definition same_entry (p q : pystr * tree) : Prop := p.1 = q.1 ∧ same p.2 q.2.
Lemma same_fields l k : Forall2 same_entry l k → same (TObj l) (TObj k).
Proof.
  intros Hl. unfold same. cbn. assert (map (λ p, (p.1, print_tree p.2)) l = map (λ p, (p.1, print_tree p.2)) k) as ->; [|done].
  by induction Hl as [|p q l k [Hk Ht] Hl IH]; cbn; [|rewrite Hk, Ht, IH].
Qed.

Lemma mapM_related {A B C} (R : B → C → Prop) (f : A → result B) (g : A → result C) l k :
  (∀ x y, x ∈ l → f x = Ok y → ∃ z, g x = Ok z ∧ R y z) → mapM_result f l = Ok k →
  ∃ k', mapM_result g l = Ok k' ∧ Forall2 R k k'.
Proof.
  intros Hfg Hk%mapM_result_Ok. revert Hfg. induction Hk as [|x y l k Hx Hk IH]; intros Hfg; [by exists []|].
  destruct (Hfg x y) as (z & Hz & HR); [by left|done|]. destruct IH as (k' & Hk' & Hall); [intros; apply Hfg; [by right|done]|].
  exists (z :: k'). cbn. rewrite Hz. cbn. rewrite Hk'. split; [done|by constructor].
Qed.

Section reorder.
Context `{Sha} (word : Z → bool) (limit : exn).

Definition same_shape (s u : shape) : Prop := match s, u with IsSet l, IsSet k => l ≡ₚ k | _, _ => s = u end.

(** An object that is neither a container nor has public fields: its text stands for it. *)
Definition opaque (o : object) : Prop :=
  match ob_shape o with IsMapping _ | IsSequence _ | IsSet _ => False | _ => True end ∧
  ob_fields o = None ∧ List.filter (λ p, public p.1) (default [] (ob_vars o)) = [].

Record same_object (o p : object) : Prop := {
  so_name : ob_name o = ob_name p;
  so_shape : same_shape (ob_shape o) (ob_shape p);
  so_fields : ob_fields o = ob_fields p;
  so_vars : ob_vars o = ob_vars p;
  so_getattr : ob_getattr o = ob_getattr p;
  so_call : ob_call o = ob_call p;
  so_str : opaque o → ob_str o = ob_str p
}.

(** The same objects, each set iterated in some other order.  The text of a set, and of
    whatever shows one in its own text, may differ as well; that of an opaque value and of a
    mapping's key may not. *)
Record reordered (h g : gmap Z object) : Prop := {
  re_object : ∀ id, option_Forall2 same_object (h !! id) (g !! id);
  re_key : ∀ id o items key x, h !! id = Some o → ob_shape o = IsMapping items → (key, x) ∈ items →
    py_str h key = py_str g key
}.

(** No two items of a set collide under SHA-256. *)
Definition items_apart (h : gmap Z object) : Prop :=
  ∀ id o items a b d active t u k, h !! id = Some o → ob_shape o = IsSet items → a ∈ items → b ∈ items →
    _json_safe_inner h word limit d active a = Ok t → _json_safe_inner h word limit d active b = Ok u →
    item_digest t = Ok k → item_digest u = Ok k → same t u.

Lemma canonical_same t u : same t u → canonical_tree t = canonical_tree u.
Proof. intros E. unfold canonical_tree. by rewrite E. Qed.

Lemma digest_same t u : same t u → item_digest t = item_digest u.
Proof.
  intros E. unfold item_digest, sha256_tree. erewrite canonical_same; [done|]. apply same_fields. by repeat constructor.
Qed.

Definition by_key (p q : pystr * pystr) : Prop := str_leb p.1 q.1 = true.

Lemma sorted_texts (l : list (pystr * tree)) :
  StronglySorted by_key (map (λ p, (p.1, print_tree p.2)) (sort_keys l)).
Proof. rewrite <-sort_keys_map. apply sort_keys_sorted. Qed.

(** The digest of an item is that of its text. *)
Definition text_digest (s : pystr) : result pystr :=
  match encode_utf8 (123 :: (quote (lit "item") ++ 58 :: s) ++ [125]) with
  | Ok b => Ok (sha256_hex b)
  | Raise _ => raise IdentityError "identity contains a non-canonical value"
  end.
Lemma item_text_digest t : item_digest t = text_digest (print_tree t).
Proof. unfold item_digest, sha256_tree, canonical_tree, text_digest. cbn. by destruct (encode_utf8 _). Qed.

Definition keyed_text (s : pystr) : pystr * pystr := (match text_digest s with Ok d => d | Raise _ => [] end, s).

Lemma keyed_texts l kl : mapM_result (λ t, d ← item_digest t; Ok (d, t)) l = Ok kl →
  map (λ p, (p.1, print_tree p.2)) kl = map keyed_text (map print_tree l) ∧
  ∀ p, p ∈ kl → p.2 ∈ l ∧ item_digest p.2 = Ok p.1.
Proof.
  intros Hts%mapM_result_Ok. induction Hts as [|t p l kl Htp Hts [E IH]]; [split; [done|by intros p ?%elem_of_nil]|].
  apply result_bind_Ok in Htp as (d & Hd & <-%Ok_inj). split.
  - cbn. rewrite E. f_equal. unfold keyed_text. by rewrite <-item_text_digest, Hd.
  - intros q [->|Hq]%elem_of_cons; [split; [by left|done]|]. destruct (IH q Hq). split; [by right|done].
Qed.

(** Sorting by digest forgets the order, when equal digests mean equal texts. *)
Lemma digest_sort_perm l k l' :
  (∀ t u d, t ∈ l → u ∈ l → item_digest t = Ok d → item_digest u = Ok d → same t u) →
  map print_tree l ≡ₚ map print_tree k → digest_sort l = Ok l' →
  ∃ k', digest_sort k = Ok k' ∧ Forall2 same l' k'.
Proof.
  intros Hap Hp Hl. unfold digest_sort in *. apply result_bind_Ok in Hl as (kl & Hkl & <-%Ok_inj).
  destruct (keyed_texts l kl Hkl) as [El Pl].
  assert (∃ kk, mapM_result (λ t, d ← item_digest t; Ok (d, t)) k = Ok kk) as [kk Hkk].
  { assert (Hd : ∀ u, u ∈ k → ∃ d, item_digest u = Ok d).
    { intros u Hu. assert (print_tree u ∈ map print_tree l) as (t & E & Ht)%list_elem_of_fmap.
      { rewrite Hp. by apply (list_elem_of_fmap_2 print_tree). }
      eapply (mapM_result_elem _ _ _ t) in Hkl as [y (d & Hd & _)%result_bind_Ok]; [|done].
      exists d. by rewrite item_text_digest, E, <-item_text_digest. }
    clear Hp. induction k as [|u k IH]; [by exists []|]. destruct (Hd u) as [d Hu]; [by left|].
    destruct IH as [kk Hkk]; [intros; apply Hd; by right|]. cbn. rewrite Hu. cbn. rewrite Hkk. by eexists. }
  rewrite Hkk. exists (sort_keys kk).*2. split; [done|]. destruct (keyed_texts k kk Hkk) as [Ek _].
  set (f := λ p : pystr * tree, (p.1, print_tree p.2)) in *.
  assert (map f (sort_keys kl) ≡ₚ map f (sort_keys kk)) as Hperm.
  { rewrite !sort_keys_perm, El, Ek. by apply fmap_Permutation. }
  assert (map f (sort_keys kl) = map f (sort_keys kk)) as E.
  { apply (StronglySorted_unique_strong by_key); [|apply sorted_texts..|done].
    assert (Hin : ∀ x, x ∈ map f (sort_keys kl) → ∃ t, t ∈ l ∧ item_digest t = Ok x.1 ∧ x.2 = print_tree t).
    { intros x (p & -> & Hx)%list_elem_of_fmap. rewrite sort_keys_perm in Hx. destruct (Pl p Hx). by exists p.2. }
    intros x y (t & Ht & Dt & Et)%Hin Hy Hxy Hyx. rewrite <-Hperm in Hy. apply Hin in Hy as (u & Hu & Du & Eu).
    pose proof (str_leb_antisym _ _ Hxy Hyx) as Ekey. destruct x as [d x], y as [d' y]; cbn in *. subst. f_equal. by apply (Hap t u d'). }
  clear -E. revert E. generalize (sort_keys kl) (sort_keys kk). intros a. induction a as [|p a IH]; intros [|q b]; [by intros; constructor|done|done|].
  cbn. intros [= _ Ht E]. constructor; [done|by apply IH].
Qed.

(** The snapshot of each object, with the sets in another order. *)
Context (h g : gmap Z object) (Hre : reordered h g) (Hap : items_apart h).

Lemma reordered_lookup id o : h !! id = Some o → ∃ p, g !! id = Some p ∧ same_object o p.
Proof. intros Ho. pose proof (re_object _ _ Hre id) as Hs. rewrite Ho in Hs. inversion Hs as [x p Hso|]; subst. by exists p. Qed.
Lemma reordered_none id : h !! id = None → g !! id = None.
Proof. intros Ho. pose proof (re_object _ _ Hre id) as Hs. rewrite Ho in Hs. by inversion Hs. Qed.

Section container.
Context (f f' : ref → result tree) (Hf : ∀ v t, f v = Ok t → ∃ u, f' v = Ok u ∧ same t u).

Lemma mapping_same items seen l : (∀ key x, (key, x) ∈ items → py_str h key = py_str g key) →
  safe_mapping h f items seen = Ok l →
  ∃ k, safe_mapping g f' items seen = Ok k ∧ Forall2 same_entry l k.
Proof.
  intros Hkeys. revert seen l. induction items as [|[key item] items IH]; intros seen l; cbn; [intros [= <-]; by exists []|].
  rewrite <-(Hkeys key item) by by left. specialize (IH (λ k x Hx, Hkeys k x (list_elem_of_further _ _ _ Hx))). intros ([] & Hg & (t & (u & Hu & Hs)%Hf & (rest & (k & Hk & Hall)%IH & [= <-])%result_bind_Ok)%result_bind_Ok)%result_bind_Ok.
  exists ((py_str h key, u) :: k). rewrite Hg. cbn. rewrite Hu. cbn. rewrite Hk. split; [done|]. by constructor.
Qed.

Lemma items_same items l : mapM_result f items = Ok l → ∃ k, mapM_result f' items = Ok k ∧ Forall2 same l k.
Proof. apply mapM_related. intros x y _. apply Hf. Qed.

Lemma items_permuted items items' l : items ≡ₚ items' → mapM_result f items = Ok l →
  ∃ k, mapM_result f' items' = Ok k ∧ map print_tree l ≡ₚ map print_tree k.
Proof.
  intros Hp Hl. assert (∃ l', mapM_result f items' = Ok l' ∧ l ≡ₚ l') as (l' & Hl' & Hpl).
  { apply mapM_result_Ok in Hl. revert l Hl. induction Hp as [|x a b Hp IH|x y a|a b c _ IH1 _ IH2]; intros l Hl.
    - exists l. split; [by apply mapM_result_Ok|done].
    - inversion Hl as [|? y ? l1 Hx Hl1]; subst. destruct (IH l1 Hl1) as (l' & Hl' & ?). exists (y :: l'). cbn. rewrite Hx. cbn. rewrite Hl'.
      split; [done|by constructor].
    - inversion Hl as [|? t1 ? l1 Hx Hl1]; subst. inversion Hl1 as [|? t2 ? l2 Hy Hl2]; subst. exists (t2 :: t1 :: l2). cbn. rewrite Hy. cbn.
      rewrite Hx. cbn. apply mapM_result_Ok in Hl2. rewrite Hl2. split; [done|constructor].
    - destruct (IH1 l Hl) as (l1 & H1%mapM_result_Ok & ?). destruct (IH2 l1 H1) as (l2 & ? & ?). exists l2. split; [done|by etrans]. }
  destruct (items_same items' l' Hl') as (k & Hk & Hall). exists k. split; [done|]. etrans; [by apply (fmap_Permutation print_tree)|].
  change (map print_tree l' ≡ₚ map print_tree k). assert (map print_tree l' = map print_tree k) as ->; [|done]. clear -Hall. by induction Hall as [|t u l k Ht Hl IH]; cbn; [|rewrite Ht, IH].
Qed.

Lemma other_same o p t : same_object o p →
  match ob_shape o with IsMapping _ | IsSequence _ | IsSet _ => False | _ => True end → safe_other word f o = Ok t → ∃ u, safe_other word f' p = Ok u ∧ same t u.
Proof.
  intros [Hn _ Hfi Hv Hg _ Hs] Hplain Ht. unfold safe_other in *. rewrite <-Hfi, <-Hv, <-Hn. destruct (ob_fields o) as [names|] eqn:Ef.
  - apply result_bind_Ok in Ht as (l & Hl & <-%Ok_inj).
    eapply (mapM_related same_entry _ (safe_attribute f' p)) in Hl as (k & Hk & Hall).
    { rewrite Hk. eexists. split; [done|by apply same_fields]. }
    intros name e _ (x & Hx & (y & (u & Hu & Hy)%Hf & <-%Ok_inj)%result_bind_Ok)%result_bind_Ok.
    unfold safe_attribute. rewrite <-Hg, Hx. cbn. rewrite Hu. by eexists.
  - destruct (List.filter _ _) as [|e l] eqn:El; [rewrite <-Hs by done; by eexists|]. apply result_bind_Ok in Ht as (k & Hk & <-%Ok_inj).
    eapply (mapM_related same_entry _ (λ p, t ← f' p.2; Ok (p.1, t))) in Hk as (k' & Hk & Hall).
    { rewrite Hk. eexists. split; [done|]. apply same_fields. constructor; [done|]. constructor; [|constructor]. split; [done|by apply same_fields]. }
    intros q y _ (x & (u & Hu & Hy)%Hf & <-%Ok_inj)%result_bind_Ok. cbn. rewrite Hu. by eexists.
Qed.

Lemma container_same o p t : same_object o p →
  (∀ items t u k, ob_shape o = IsSet items → (∃ a, a ∈ items ∧ f a = Ok t) → (∃ b, b ∈ items ∧ f b = Ok u) →
     item_digest t = Ok k → item_digest u = Ok k → same t u) →
  (∀ items key x, ob_shape o = IsMapping items → (key, x) ∈ items → py_str h key = py_str g key) →
  safe_container h word f o = Ok t → ∃ u, safe_container g word f' p = Ok u ∧ same t u.
Proof.
  intros Hso Hset Hkeys Ht. pose proof Hso as [_ Hsh _ _ _ Hc _]. unfold safe_container in *. rewrite <-Hc.
  destruct (ob_call o _) as [to_dict|].
  { destruct (to_dict []) as [v|]; [|done]. cbn in *. destruct (f v) as [x|] eqn:Ex; [|done]. injection Ht as ->.
    destruct (Hf v t Ex) as (u & -> & ?). by eexists. }
  destruct (ob_shape o) as [| | | | | |items|items|items|] eqn:Es; destruct (ob_shape p) as [| | | | | |items'|items'|items'|]; try done;
    try (apply (other_same o); [done|by rewrite Es|done]).
  - injection Hsh as <-. apply result_bind_Ok in Ht as (l & (k & Hk & Hall)%(mapping_same _ _ _ (λ key x, Hkeys items key x eq_refl)) & <-%Ok_inj). rewrite Hk.
    eexists. split; [done|by apply same_fields].
  - injection Hsh as <-. apply result_bind_Ok in Ht as (l & (k & Hk & Hall)%items_same & <-%Ok_inj). rewrite Hk.
    eexists. split; [done|by apply same_array].
  - apply result_bind_Ok in Ht as (l & Hl & Ht). apply result_bind_Ok in Ht as (l' & Hl' & <-%Ok_inj).
    destruct (items_permuted items items' l Hsh Hl) as (k & Hk & Hp). rewrite Hk. cbn.
    destruct (digest_sort_perm l k l') as (k' & -> & Hall); [|done|done|eexists; split; [done|by apply same_array]].
    assert (∀ t, t ∈ l → ∃ a, a ∈ items ∧ f a = Ok t) as Hof.
    { intros x [i Hi]%list_elem_of_lookup. apply mapM_result_Ok in Hl. destruct (Forall2_lookup_r _ _ _ _ _ Hl Hi) as (a & Ha & ?).
      exists a. split; [by eapply list_elem_of_lookup_2|done]. }
    intros x y d Hx Hy. apply (Hset items); auto.
Qed.
End container.

Lemma run_same d active v t : _json_safe_inner h word limit d active v = Ok t →
  ∃ u, _json_safe_inner g word limit d active v = Ok u ∧ same t u.
Proof.
  revert active v t. induction d as [|d IH]; intros active v t; [done|]. cbn.
  destruct v as [| | | |id]; try (intros [= <-]; by eexists).
  destruct (h !! id) as [o|] eqn:Eo; [|done]. destruct (reordered_lookup id o Eo) as (p & -> & Hso).
  pose proof Hso as [Hn Hsh _ _ _ _ _].
  assert (Hcont : ∀ t, (_ ← raise_if (bool_decide (id ∈ active)) UnsupportedRuntimeError
                          "vLLM configuration contains a recursive public value";
            safe_container h word (_json_safe_inner h word limit d ({[id]} ∪ active)) o) = Ok t →
      ∃ u, (_ ← raise_if (bool_decide (id ∈ active)) UnsupportedRuntimeError
                          "vLLM configuration contains a recursive public value";
            safe_container g word (_json_safe_inner g word limit d ({[id]} ∪ active)) p) = Ok u ∧ same t u).
  { intros x ([] & -> & Hx)%result_bind_Ok. cbn. eapply container_same; [apply IH|exact Hso| | |exact Hx].
    - intros items y z k Es (a & Ha & Hy) (b & Hb & Hz). by eapply (Hap id o items a b).
    - intros items key y Es. by apply (re_key _ _ Hre id o items). }
  destruct (ob_shape o) as [value| | | | | |items|items|items|] eqn:Es; destruct (ob_shape p) as [value'| | | | | |items'|items'|items'|];
    try done; try (by apply Hcont); cbn in Hsh; simplify_eq; rewrite <-?Hn; try (intros [= <-]; by eexists).
  intros (x & (u & -> & Hs)%IH & <-%Ok_inj)%result_bind_Ok. eexists. split; [done|]. apply same_fields. by repeat constructor.
Qed.

Lemma result_bind_ext {A B} (r r' : result A) (f f' : A → result B) :
  r = r' → (∀ a, f a = f' a) → r ≫= f = r' ≫= f'.
Proof. intros <- Hf. destruct r; [apply Hf|done]. Qed.

Lemma get_attribute_same v name : get_attribute h v name = get_attribute g v name.
Proof.
  destruct v as [| | | |id]; try done. cbn. destruct (h !! id) as [o|] eqn:E; [|by rewrite reordered_none].
  destruct (reordered_lookup id o E) as (p & -> & Hs). by rewrite (so_getattr o p Hs).
Qed.
Lemma get_attribute_or_same v name d : get_attribute_or h v name d = get_attribute_or g v name d.
Proof. unfold get_attribute_or. by rewrite get_attribute_same. Qed.
Lemma method_same v name : method h v name = method g v name.
Proof.
  destruct v as [| | | |id]; try done. cbn. destruct (h !! id) as [o|] eqn:E; [|by rewrite reordered_none].
  destruct (reordered_lookup id o E) as (p & -> & Hs). by rewrite (so_call o p Hs).
Qed.
Lemma public_names_same v msg : public_names h v msg = public_names g v msg.
Proof.
  destruct v as [| | | |id]; try done. cbn. destruct (h !! id) as [o|] eqn:E; [|by rewrite reordered_none].
  destruct (reordered_lookup id o E) as (p & -> & Hs). by rewrite (so_fields o p Hs), (so_vars o p Hs).
Qed.
Lemma compute_hash_same v : _compute_hash h v = _compute_hash g v.
Proof. unfold _compute_hash. by rewrite method_same. Qed.
Lemma component_hashes_same v : _component_hashes h v = _component_hashes g v.
Proof.
  unfold _component_hashes. rewrite public_names_same. apply result_bind_ext; [done|]. intros names.
  apply result_bind_ext; [|done]. apply mapM_result_ext. intros name. unfold component_hash. rewrite get_attribute_or_same.
  apply result_bind_ext; [done|]. intros c. by rewrite method_same, compute_hash_same.
Qed.
Lemma topology_same v : runtime_topology h v = runtime_topology g v.
Proof. unfold runtime_topology. cbv zeta beta. repeat (apply result_bind_ext; [try apply result_bind_ext; try apply get_attribute_or_same; done|intros ?]). done. Qed.
Lemma multimodal_same v : multimodal_of h v = multimodal_of g v.
Proof. unfold multimodal_of. rewrite get_attribute_or_same. apply result_bind_ext; [done|]. intros m. by rewrite method_same. Qed.

Lemma entry_same depth v name e : config_entry h word limit depth v name = Ok e →
  ∃ e', config_entry g word limit depth v name = Ok e' ∧ same_entry e e'.
Proof.
  unfold config_entry, _json_safe. intros (x & Hx & (z & (u & Hu & Hs)%run_same & <-%Ok_inj)%result_bind_Ok)%result_bind_Ok.
  rewrite <-get_attribute_same, Hx. cbn. rewrite Hu. by eexists.
Qed.

Lemma config_same depth excluded v t : _public_config_snapshot h word limit depth excluded v = Ok t →
  ∃ u, _public_config_snapshot g word limit depth excluded v = Ok u ∧ same t u.
Proof.
  intros Ht. destruct (decide (v = RNone)) as [->|Hv]; [by exists t|].
  assert (Hrun : ∀ k, _public_config_snapshot k word limit depth excluded v =
    (names ← public_names k v "cannot enumerate a public vLLM configuration";
     l ← mapM_result (config_entry k word limit depth v)
           (List.filter (λ name, public name && negb (bool_decide (name ∈ excluded))) names);
     Ok (TObj l))) by (intros k; by destruct v).
  rewrite Hrun in Ht |- *. rewrite <-public_names_same.
  apply result_bind_Ok in Ht as (names & -> & (l & Hl & <-%Ok_inj)%result_bind_Ok). cbn.
  eapply (mapM_related same_entry _ (config_entry g word limit depth v)) in Hl as (k & -> & Hall); [|intros name y _; apply entry_same].
  eexists. split; [done|by apply same_fields].
Qed.

Lemma sha256_same t u : same t u → sha256_tree t = sha256_tree u.
Proof. intros Hs. unfold sha256_tree. by rewrite (canonical_same t u). Qed.

Lemma payload_same depth vc model cache schema t : execution_payload h word limit depth vc model cache schema = Ok t →
  ∃ u, execution_payload g word limit depth vc model cache schema = Ok u ∧ same t u.
Proof.
  intros Ht. unfold execution_payload in *. rewrite <-compute_hash_same, <-multimodal_same, <-component_hashes_same. cbn zeta in *.
  apply result_bind_Ok in Ht as (hash & -> & Ht). apply result_bind_Ok in Ht as (mm & -> & Ht).
  apply result_bind_Ok in Ht as (comps & -> & Ht). cbn [mbind result_bind].
  assert (Hpart : ∀ name x, (v ← get_attribute_or h vc name RNone; _public_config_snapshot h word limit depth [] v) = Ok x →
    ∃ y, (v ← get_attribute_or g vc name RNone; _public_config_snapshot g word limit depth [] v) = Ok y ∧ same x y).
  { intros name x (v & Hv & (y & Hy & Hs)%config_same)%result_bind_Ok. rewrite <-get_attribute_or_same, Hv. by exists y. }
  apply result_bind_Ok in Ht as (t1 & (u1 & H1 & S1)%Hpart & Ht). apply result_bind_Ok in Ht as (t2 & (u2 & H2 & S2)%config_same & Ht).
  apply result_bind_Ok in Ht as (t3 & (u3 & H3 & S3)%Hpart & Ht). apply result_bind_Ok in Ht as (t4 & (u4 & H4 & S4)%Hpart & Ht).
  apply result_bind_Ok in Ht as (t5 & (u5 & H5 & S5)%Hpart & Ht). apply result_bind_Ok in Ht as (t6 & (u6 & H6 & S6)%config_same & <-%Ok_inj).
  rewrite H1. cbn [mbind result_bind]. rewrite H2. cbn [mbind result_bind]. rewrite H3. cbn [mbind result_bind]. rewrite H4.
  cbn [mbind result_bind]. rewrite H5. cbn [mbind result_bind]. rewrite H6.
  eexists. split; [done|]. apply same_fields. by repeat constructor.
Qed.
End reorder.

(** ** Properties *)
Lemma json_safe_stable `{Sha} (heap : gmap Z object) (word : Z → bool) (limit limit' : exn) (v : ref) (depth depth' : nat) :
  (∀ id o x, heap !! id = Some o → ob_shape o = IsEnum x → ¬ is_enum heap x) →
  (2 * size heap + 2 ≤ depth)%nat → (2 * size heap + 2 ≤ depth')%nat →
  _json_safe heap word limit depth v = _json_safe heap word limit' depth' v.
Proof.
  intros He Hd Hd'. assert (unvisited heap ∅ = size heap) as Hn.
  { unfold unvisited. by rewrite difference_empty_L, size_dom. }
  exact (proj1 (run_stable heap word He limit limit' _ ∅ v depth depth' Hn) Hd Hd').
Qed.

(** The text of the KV-cache data type in the identity. *)
Definition dtype_text (heap : gmap Z object) (vllm_config : ref) : result pystr :=
  cache ← get_attribute heap vllm_config (lit "cache_config");
  cache_dtype ← get_attribute_or heap cache (lit "cache_dtype") (RStr (lit "unknown"));
  Ok (py_str heap cache_dtype).

(** The traversal of a configuration ends, whatever cycles it has: a recursion limit of
    twice the number of its objects, and two, gives the answer that every larger limit
    gives, whatever the interpreter raises at its limit, if no enumeration member is the
    value of another. *)
Theorem snapshot_terminates `{Sha} (heap : gmap Z object) (word : Z → bool) (limit limit' : exn) (v : ref) (depth depth' : nat) :
  (∀ id o x, heap !! id = Some o → ob_shape o = IsEnum x → ¬ is_enum heap x) →
  (2 * size heap + 2 ≤ depth)%nat → (2 * size heap + 2 ≤ depth')%nat →
  _json_safe heap word limit depth v = _json_safe heap word limit' depth' v.
Proof.
  intros He. by apply json_safe_stable.
Qed.

(** C22: A value with a cycle in it is refused, and not for want of stack: if what the value
    contains leads to an object that contains itself, the traversal raises an exception of
    its own, the same one under every recursion limit of at least twice the number of the
    objects, and two, and whatever the interpreter raises at that limit, if no enumeration
    member is the value of another. *)
Theorem recursive_value_refused `{Sha} (heap : gmap Z object) (word : Z → bool) (v w : ref) :
  (∀ id o x, heap !! id = Some o → ob_shape o = IsEnum x → ¬ is_enum heap x) →
  rtc (child heap) v w → tc (child heap) w w →
  ∃ e, ∀ limit depth, (2 * size heap + 2 ≤ depth)%nat → _json_safe heap word limit depth v = Raise e.
Proof.
  intros He Hr Hl. set (any := Exn RuntimeError "recursion limit").
  destruct (_json_safe heap word any (2 * size heap + 2) v) as [t|e] eqn:E.
  - exfalso. apply rtc_nsteps in Hr as [k Hk].
    destruct (loop_long heap w (2 * size heap + 2) Hl) as (m & x & Hm & Hx).
    pose proof (path_bounded heap word any _ v x _ ∅ t (nsteps_trans _ _ _ _ _ Hk Hx) E). lia.
  - exists e. intros limit depth Hd. rewrite <-E. symmetry. by apply json_safe_stable.
Qed.

(** C17: The deployment identity does not depend on the order in which sets are iterated,
    which Python changes from one process to the next: if the identity is built from some
    configuration, the same one is built from every configuration that differs in the
    order of its sets and in the texts that show a set, unless two items of a set collide
    under SHA-256.  Three texts must be the same in both, because the code puts [str] of
    them into the identity: those of the keys of mappings, of the values that are neither
    containers nor have public fields, and of the KV-cache data type. *)
Theorem identity_ignores_set_order `{Sha} (word : Z → bool) (limit : exn) (heap heap' : gmap Z object) (depth : nat)
    (vllm_config : ref) (profile logical_digest model_namespace : pystr) (chunk_tokens : pyval)
    (vllm_version vllm_build spoolcache_version : pystr) (storage_schema : option pystr) (d : DeploymentIdentity) :
  reordered heap heap' → items_apart word limit heap → dtype_text heap vllm_config = dtype_text heap' vllm_config →
  _build_deployment_identity heap word limit depth vllm_config profile logical_digest model_namespace chunk_tokens
    vllm_version vllm_build spoolcache_version storage_schema = Ok d →
  _build_deployment_identity heap' word limit depth vllm_config profile logical_digest model_namespace chunk_tokens
    vllm_version vllm_build spoolcache_version storage_schema = Ok d.
Proof.
  intros Hre Hap Htext Hd. unfold _build_deployment_identity, dtype_text in *. rewrite <-!(get_attribute_same heap heap' Hre) in *.
  apply result_bind_Ok in Hd as (parallel & -> & Hd). apply result_bind_Ok in Hd as (model & -> & Hd).
  apply result_bind_Ok in Hd as (cache & Ec & Hd). rewrite Ec in *. cbn [mbind result_bind] in *.
  apply result_bind_Ok in Hd as (t1 & (u1 & -> & S1)%(config_same word limit heap heap' Hre Hap) & Hd). cbn [mbind result_bind].
  apply result_bind_Ok in Hd as (t2 & (u2 & -> & S2)%(payload_same word limit heap heap' Hre Hap) & Hd). cbn [mbind result_bind].
  rewrite <-(topology_same heap heap' Hre), <-(sha256_same t1 u1 S1), <-(sha256_same t2 u2 S2).
  apply result_bind_Ok in Hd as (topology & -> & Hd). apply result_bind_Ok in Hd as (d1 & -> & Hd).
  apply result_bind_Ok in Hd as (d2 & -> & Hd). cbn [mbind result_bind]. rewrite <-(get_attribute_or_same heap heap' Hre) in *.
  apply result_bind_Ok in Hd as (cache_dtype & Et & Hd). rewrite Et in *. cbn [mbind result_bind] in *.
  apply Ok_inj in Htext. by rewrite <-Htext.
Qed.

(** The coordinate that a worker reads from its process groups is one of those that
    the scheduler of the same degrees expects. *)
Theorem worker_coordinate_expected (heap : gmap Z object) (vllm_config pp_group tp_group dcp_group : ref)
    (tp pp dcp : Z) (c : WorkerCoordinate) :
  _runtime_worker_coordinate heap vllm_config pp_group tp_group dcp_group tp pp dcp = Ok c →
  ∃ l, expected_worker_coordinates (VInt tp) (VInt pp) (VInt dcp) = Ok l ∧ c ∈ l.
Proof.
  unfold _runtime_worker_coordinate. intros Hc. repeat (apply result_bind_Ok in Hc as (? & _ & Hc)).
  destruct (from_runtime _ _ _ _ _ _ _) as [c'|e] eqn:E; [|by case_match]. injection Hc as ->.
  match type of E with from_runtime ?g _ _ _ _ _ _ = _ => destruct g as [|b|z|s|l|l|] end; try (unfold from_runtime in E; by inv_ok).
  apply from_runtime_Ok in E as (HT & HP & HD & Hdiv & Hp & Ht & _ & _ & ->).
  eexists. split; [by apply expected_worker_coordinates_Ok|]. apply (list_elem_of_fmap_2 (coordinate_of tp dcp) _ (_, _)). by apply rank_pairs_elem.
Qed.

(** ** A small configuration *)
Module SnapshotExamples.
#[local] Existing Instance light_sha.

Definition too_deep : exn := Exn RuntimeError "maximum recursion depth exceeded".
Definition ascii_word (c : Z) : bool :=
  ((48 <=? c) && (c <=? 57)) || ((65 <=? c) && (c <=? 90)) || (c =? 95) || ((97 <=? c) && (c <=? 122)).
Definition plain (name : string) (vars : list (string * ref)) (call : pystr → option (list ref → result ref)) : object :=
  let vars := (λ p, (lit p.1, p.2)) <$> vars in
  Object (lit name) IsOther None (Some vars)
    (λ n, match od_get n vars with Some v => Ok v | None => raise AttributeError "attribute" end) call (lit name).
Definition none_called : pystr → option (list ref → result ref) := λ _, None.
Definition hashed (name : pystr) : option (list ref → result ref) :=
  if decide (name = lit "compute_hash") then Some (λ _, Ok (RStr (lit "hash"))) else None.
Definition collection (s : shape) (text : string) : object :=
  Object (lit "builtins.set") s None None (λ _, raise AttributeError "attribute") none_called (lit text).

Definition objects (architectures : list ref) (text : string) : list (Z * object) :=
  [(0, plain "VllmConfig" [("parallel_config", RObj 1); ("model_config", RObj 2); ("cache_config", RObj 3)] hashed);
   (1, plain "ParallelConfig" [("tensor_parallel_size", RInt 2); ("pipeline_parallel_size", RInt 1)] none_called);
   (2, plain "ModelConfig" [("architectures", RObj 4); ("hf_token", RStr (lit "secret"))] none_called);
   (3, plain "CacheConfig" [("block_size", RInt 16)] none_called);
   (4, collection (IsSet architectures) text)]%string.
Definition configuration (architectures : list ref) (text : string) : gmap Z object := list_to_map (objects architectures text).
Definition one_way : gmap Z object := configuration [RStr (lit "a"); RInt 7] "{'a', 7}".
Definition another_way : gmap Z object := configuration [RInt 7; RStr (lit "a")] "{7, 'a'}".

Definition digest : pystr := replicate 64 97.
Abbreviation built heap :=
  (_build_deployment_identity heap ascii_word too_deep 20 (RObj 0) (lit "profile") digest digest (VInt 256) (lit "0.11.0") digest (lit "1.0") None).
Definition no_identity : DeploymentIdentity := Deployment [] [] [] [] [] [] [] [] [] [] VNone [] [].
Definition identity : DeploymentIdentity := match built one_way with Ok d => d | Raise _ => no_identity end.
Lemma built_one_way : built one_way = Ok identity.
Proof.
  assert (is_ok (built one_way) = true) as Hok by (vm_compute; reflexivity). unfold identity. by destruct (built one_way).
Qed.

Example snapshot_without_secret :
  print_tree <$> _public_config_snapshot one_way ascii_word too_deep 20 model_excluded (RObj 2) =
  Ok (lit "{" ++ quote (lit "architectures") ++ lit ":[7," ++ quote (lit "a") ++ lit "]}").
Proof. vm_compute. reflexivity. Qed.

Lemma same_object_refl o : same_object o o.
Proof. split; try done. unfold same_shape. by destruct (ob_shape o). Qed.
Lemma list_reordered l k : Forall2 (λ p q : Z * object, p.1 = q.1 ∧ same_object p.2 q.2) l k →
  ∀ id, option_Forall2 same_object ((list_to_map l : gmap Z object) !! id) ((list_to_map k : gmap Z object) !! id).
Proof.
  intros Hl id. induction Hl as [|[i o] [j p] l k [Hi Ho] Hl IH]; [constructor|]. cbn in Hi. subst j.
  rewrite !list_to_map_cons. cbn [fst snd].
  destruct (decide (id = i)) as [->|Hne]; [rewrite !lookup_insert_eq; by constructor|]. by rewrite !lookup_insert_ne.
Qed.
Lemma ways_reordered : reordered one_way another_way.
Proof.
  split.
  - apply list_reordered. repeat (constructor; [split; [done|apply same_object_refl]|]). constructor; [|constructor].
    split; [done|]. split; try done; [cbn; constructor|by intros []].
  - intros id o items key x Ho Hs. apply elem_of_list_to_map_2 in Ho. unfold objects in Ho.
    repeat (apply elem_of_cons in Ho as [Ho|Ho]; [injection Ho as -> ->; discriminate Hs|]). by apply elem_of_nil in Ho.
Qed.
Lemma ways_apart : items_apart ascii_word too_deep one_way.
Proof.
  intros id o items a b d active t u k Ho Hs Ha Hb Ht Hu Hdt Hdu. apply elem_of_list_to_map_2 in Ho. unfold objects in Ho.
  repeat (apply elem_of_cons in Ho as [Ho|Ho]; [injection Ho as -> ->; try discriminate Hs|]); [|by apply elem_of_nil in Ho].
  injection Hs as <-. destruct d as [|d]; [done|].
  assert (∀ x, x ∈ [RStr (lit "a"); RInt 7] → _json_safe_inner one_way ascii_word too_deep (S d) active x = Ok (TStr (lit "a")) ∨
                                          _json_safe_inner one_way ascii_word too_deep (S d) active x = Ok (TInt 7)) as Hx.
  { intros x [->|[->|Hx]%elem_of_cons]%elem_of_cons; [by left|by right|by apply elem_of_nil in Hx]. }
  destruct (Hx a Ha) as [E|E], (Hx b Hb) as [E'|E']; rewrite E in Ht; rewrite E' in Hu; injection Ht as <-; injection Hu as <-; try done;
    exfalso; rewrite <-Hdu in Hdt; revert Hdt; vm_compute; discriminate.
Qed.

Lemma identity_ignores_set_order_witness : built another_way = Ok identity.
Proof.
  exact (identity_ignores_set_order ascii_word too_deep one_way another_way 20 (RObj 0) (lit "profile") digest digest (VInt 256)
           (lit "0.11.0") digest (lit "1.0") None identity ways_reordered ways_apart eq_refl built_one_way).
Defined.

(** A list that contains itself, inside another one. *)
Definition knot : gmap Z object := {[0 := collection (IsSequence [RInt 1; RObj 1]) "[1, [[...]]]"; 1 := collection (IsSequence [RObj 1]) "[[...]]"]}.

Lemma knot_no_enum id o x : knot !! id = Some o → ob_shape o = IsEnum x → ¬ is_enum knot x.
Proof.
  unfold knot. intros Ho Hs. apply lookup_insert_Some in Ho as [[_ <-]|[_ Ho]]; [done|].
  apply lookup_singleton_Some in Ho as [_ <-]. done.
Qed.

Lemma snapshot_terminates_witness :
  _json_safe knot ascii_word too_deep 6 (RObj 0) = _json_safe knot ascii_word (Exn ValueError "another limit") 1000 (RObj 0).
Proof.
  apply (snapshot_terminates knot ascii_word too_deep (Exn ValueError "another limit") (RObj 0) 6 1000 knot_no_enum);
    apply Nat.leb_le; vm_compute; reflexivity.
Defined.

Lemma recursive_value_refused_witness :
  ∃ e, ∀ limit depth, (2 * size knot + 2 ≤ depth)%nat → _json_safe knot ascii_word limit depth (RObj 0) = Raise e.
Proof.
  apply (recursive_value_refused knot ascii_word (RObj 0) (RObj 1) knot_no_enum).
  - eapply rtc_once, child_part; [reflexivity|exact I|]. eapply part_sequence; [reflexivity|reflexivity|]. right. left.
  - eapply tc_once, child_part; [reflexivity|exact I|]. eapply part_sequence; [reflexivity|reflexivity|]. left.
Defined.

(** The exception is that of the code's own check. *)
Example knot_refused :
  _json_safe knot ascii_word too_deep 6 (RObj 0) =
  raise UnsupportedRuntimeError "vLLM configuration contains a recursive public value".
Proof. vm_compute. reflexivity. Qed.

(** A set that is the key of a mapping enters by its text, and so in its own order. *)
Definition keyed_by_set (text : string) : gmap Z object :=
  {[0 := collection (IsMapping [(RObj 1, RNone)]) "{...}"; 1 := collection (IsSet [RStr (lit "a"); RInt 7]) text]}.
Example set_key_keeps_its_order :
  print_tree <$> _json_safe (keyed_by_set "frozenset({'a', 7})") ascii_word too_deep 6 (RObj 0)
  ≠ print_tree <$> _json_safe (keyed_by_set "frozenset({7, 'a'})") ascii_word too_deep 6 (RObj 0).
Proof. vm_compute. discriminate. Qed.

(** Two workers of one pipeline stage. *)
Definition groups : gmap Z object :=
  list_to_map [(0, plain "VllmConfig" [] none_called);
               (1, plain "Group" [("world_size", RInt 1); ("rank_in_group", RInt 0)] none_called);
               (2, plain "Group" [("world_size", RInt 2); ("rank_in_group", RInt 1)] none_called)]%string.

Lemma worker_coordinate_expected_witness :
  ∃ l, expected_worker_coordinates (VInt 2) (VInt 1) (VInt 1) = Ok l ∧ Coordinate 1 0 1 0 ∈ l.
Proof.
  apply (worker_coordinate_expected groups (RObj 0) (RObj 1) (RObj 2) (RObj 1) 2 1 1). vm_compute. reflexivity.
Defined.
End SnapshotExamples.
