(* ===== verification/Handshake.v ===== *)
(** * Worker reports and the startup handshake ([vllm/connector.py])

    [SpoolCacheStats], the statistics object that carries one inventory report per
    rank through vLLM's channel, and the scheduler's two inputs from the workers:
    [update_connector_output] applies their rolling reports to the catalog,
    [set_xfer_handshake_metadata_pp_aware] their startup inventories. *)
From S2P Require Import Prelude Dict Config Inventory Catalog Topology Telemetry Scheduler.

(** ** Statistics *)
Record SpoolCacheStats := MkStats {
  st_data : mval;
  st_reports : list raw_report
}.

(** The rank of a report that passed validation. *)
Definition report_rank (r : raw_report) : Z := default 0 (as_int (raw_rank r)).

Definition report_le (a b : raw_report) : Prop := report_rank a <= report_rank b.
#[export] Instance report_le_dec : RelDecision report_le.
Proof. intros a b. unfold report_le. apply _. Defined.

Section stats.
Context `{ObjectSizes}.

(** The loop of [__post_init__] over the reports. *)
Fixpoint check_reports (reports : list raw_report) (ranks : gset Z) : result unit :=
  match reports with
  | [] => Ok tt
  | r :: reports =>
      v ← validate_inventory_report INVENTORY_MEMORY_BYTES REPORT_BATCH_SIZE r;
      _ ← raise_if (bool_decide (r_rank v ∈ ranks)) ValueError
            "SpoolCache inventory report ranks are duplicated";
      check_reports reports ({[r_rank v]} ∪ ranks)
  end.

Definition stats_post_init (s : SpoolCacheStats) : result unit :=
  _ ← validate_metric_payload (st_data s);
  _ ← raise_if (existsb (λ r, negb (raw_is_report r)) (st_reports s)) TypeError
        "SpoolCache inventory reports must be a tuple";
  _ ← raise_if (MAX_INVENTORY_REPORTS <? Z.of_nat (length (st_reports s))) ValueError
        "SpoolCache inventory report count exceeds its bound";
  check_reports (st_reports s) ∅.

(** [SpoolCacheStats(data=..., reports=...)] *)
Definition stats_init (data : mval) (reports : list raw_report) : result SpoolCacheStats :=
  let s := MkStats data reports in _ ← stats_post_init s; Ok s.

Definition stats_reset : SE SpoolCacheStats unit := λ _, (Ok tt, MkStats empty_metric_payload []).

(** The reports of two statistics objects by rank, as [sorted(latest)] lists them. *)
Definition latest_reports (l : list raw_report) : list raw_report :=
  merge_sort report_le (od_of_list ((λ r, (report_rank r, r)) <$> l)).*2.

(** [other] is [None] when it is another connector's object. *)
Definition aggregate (other : option SpoolCacheStats) : SE SpoolCacheStats unit := λ self,
  match
    match other with
    | None => raise TypeError "cannot aggregate another connector's statistics"
    | Some other =>
        _ ← stats_post_init self;
        _ ← stats_post_init other;
        let current := list_to_set (report_rank <$> st_reports self) : gset Z in
        let others := list_to_set (report_rank <$> st_reports other) : gset Z in
        _ ← raise_if (negb (bool_decide (current ∩ others = ∅))) ValueError
              "SpoolCache inventory report ranks are duplicated";
        let latest := latest_reports (st_reports self ++ st_reports other) in
        _ ← raise_if (MAX_INVENTORY_REPORTS <? Z.of_nat (length latest)) ValueError
              "SpoolCache inventory report count exceeds its bound";
        data ← merge_metric_payloads [st_data self; st_data other];
        Ok (MkStats data latest)
    end
  with
  | Ok self => (Ok tt, self)
  | Raise e => (Raise e, self)
  end.

Definition stats_is_empty (s : SpoolCacheStats) : result bool :=
  match st_reports s with
  | [] => metric_payload_is_empty (st_data s)
  | _ => Ok false
  end.
End stats.

(** ** Scheduler gauges *)
Section gauges.

(** [catalog.quorum_count], which remembers its value. *)
Definition refresh_quorum_count : SE Scheduler Z := λ s,
  match s_catalog s with
  | Some c => let (n, c) := quorum_count c in (Ok n, set_catalog (Some c) s)
  | None => (Ok 0, s)
  end.

Definition _refresh_scheduler_gauges : SE Scheduler unit := λ s,
  match s_telemetry s, s_catalog s with
  | Some _, Some c =>
      (do_ gauge_metric "spoolcache_required_ranks" (Z.of_nat (size (expected_ranks c))) [];
       do_ gauge_metric "spoolcache_ready_ranks" (ready_rank_count c) [];
       do n <- refresh_quorum_count;
       do_ gauge_metric "spoolcache_rank_quorum_entries" n [];
       do_ gauge_metric "spoolcache_readiness" (gauge_bool (has_all_rank_identities c)) ["rank_identity"%string];
       do_ gauge_metric "spoolcache_readiness" (gauge_bool (is_ready c)) ["inventory_quorum"%string];
       gauge_metric "spoolcache_readiness" 1 ["fatal_clear"%string])%py s
  | _, _ => (Ok tt, s)
  end.

Definition _refresh_scheduler_metrics : SE Scheduler unit := λ s,
  match s_telemetry s, s_catalog s with
  | Some _, Some c =>
      let changes := generation_changes_total c in
      if changes <? s_reported_changes s
      then (raise RuntimeError "SpoolCache generation counter moved backwards", s)
      else
        (do_ (if s_reported_changes s <? changes
              then do_ count_metric "spoolcache_rank_generation_changes_total"
                         (changes - s_reported_changes s) [];
                   se_modify (set_reported changes)
              else se_ret tt);
         do_ gauge_metric "spoolcache_delayed_store_requests" (Z.of_nat (size (s_store_progress s))) [];
         _refresh_scheduler_gauges)%py s
  | _, _ => (Ok tt, s)
  end.

Context `{ObjectSizes}.

(** The scheduler's branch of [get_kv_connector_stats]: [None] when empty. *)
Definition scheduler_stats : SE Scheduler (option SpoolCacheStats) :=
  (do_ _refresh_scheduler_metrics;
   do data <- (λ s, match s_telemetry s with
                    | Some b => let (d, b) := drain b in (Ok d, set_telemetry (Some b) s)
                    | None => (Ok empty_metric_payload, s)
                    end);
   do stats <- se_lift (stats_init data []);
   do empty <- se_lift (stats_is_empty stats);
   se_ret (if empty : bool then None else Some stats))%py.

(** ** Rolling reports *)

(** [connector_output.kv_connector_stats] *)
Inductive stats_attribute := NoStats | OtherStats | OwnStats (s : SpoolCacheStats).

(** A method of the catalog, run on the scheduler's catalog. *)
Definition with_catalog {A} (default : A) (m : SE QuorumCatalog A) : SE Scheduler A := λ s,
  match s_catalog s with
  | None => (Ok default, s)
  | Some c => let (r, c) := m c in (r, set_catalog (Some c) s)
  end.

Fixpoint apply_reports (reports : list raw_report) : SE QuorumCatalog unit :=
  match reports with
  | [] => se_ret tt
  | r :: reports => (do_ apply_report r; apply_reports reports)%py
  end.

(** The ranks of a set of reports are distinct expected ranks. *)
Definition report_ranks_ok (c : QuorumCatalog) (reports : list raw_report) : bool :=
  match mapM (λ r, as_int (raw_rank r)) reports with
  | None => false
  | Some ranks =>
      (Z.of_nat (length ranks) <=? Z.of_nat (size (expected_ranks c)))
      && bool_decide (NoDup ranks) && forallb (λ r, bool_decide (r ∈ expected_ranks c)) ranks
  end.

Definition update_connector_output (output : stats_attribute) : SE Scheduler unit := λ s,
  match s_catalog s, output with
  | None, _ => (Ok tt, s)
  | _, NoStats => (Ok tt, s)
  | _, OtherStats => (raise RuntimeError "SpoolCache connector stats type is incompatible", s)
  | Some c, OwnStats stats =>
      if negb (report_ranks_ok c (st_reports stats))
      then (raise RuntimeError "SpoolCache connector report ranks are incompatible", s)
      else (do_ with_catalog tt (apply_reports (st_reports stats)); _refresh_scheduler_gauges)%py s
  end.

(** ** The startup handshake *)

(** [SpoolCacheStartupInventory]; [si_entries] is [None] when it is not a tuple. *)
Record StartupInventory := MkStartup {
  su_rank : pyval;
  su_coordination_digest : pyval;
  su_generation : pyval;
  su_generation_epoch : pyval;
  su_entries : option (list pyval)
}.

(** [SpoolCacheHandshakeMetadata]: its inventories, [None] for another type;
    an inventory is [None] when it has another type. *)
Inductive handshake_metadata := OtherHandshake | Handshake (inventories : option (list (option StartupInventory))).

(** A transport key of the mapping: two literal integers. *)
Definition transport_key (key : pyval) : option (Z * Z) :=
  match key with VTuple [VInt pp; VInt tp] => Some (pp, tp) | _ => None end.

Definition coordinate_le (a b : Z * Z * handshake_metadata) : Prop :=
  a.1.1 < b.1.1 ∨ a.1.1 = b.1.1 ∧ a.1.2 <= b.1.2.
#[local] Instance coordinate_le_dec : RelDecision coordinate_le.
Proof. intros a b. unfold coordinate_le. apply _. Defined.

(** [expected\[(pp, tp)\]] *)
Definition coordinate_at (coordinates : list WorkerCoordinate) (key : Z * Z) : option WorkerCoordinate :=
  head (filter (λ c, (pp_rank c, tp_rank c) = key) coordinates).

(** The checks of one transport coordinate. *)
Definition check_inventory (cn : Connector) (key : Z * Z) (handshake : handshake_metadata) (ranks : gset Z)
    : result (StartupInventory * Z) :=
  match handshake with
  | OtherHandshake => raise RuntimeError "SpoolCache worker handshake type is incompatible"
  | Handshake (Some [Some inventory]) =>
      _ ← match su_entries inventory with
          | None => raise RuntimeError "SpoolCache startup inventory exceeds its bound"
          | Some entries =>
              capacity ← inventory_capacity (VInt INVENTORY_MEMORY_BYTES);
              raise_if (capacity <? Z.of_nat (length entries)) RuntimeError
                "SpoolCache startup inventory exceeds its bound"
          end;
      match as_int (su_rank inventory), coordinate_at (cn_coordinates cn) key with
      | Some rank, Some coordinate =>
          _ ← raise_if (negb (rank =? global_rank coordinate) || bool_decide (rank ∈ ranks)) RuntimeError
                "SpoolCache transport rank and startup inventory rank differ";
          match as_str (su_coordination_digest inventory) with
          | Some d =>
              _ ← raise_if (negb (bool_decide (d = cn_coordination_digest cn))) RuntimeError
                    "SpoolCache scheduler/worker coordination identities differ";
              Ok (inventory, rank)
          | None => raise RuntimeError "SpoolCache scheduler/worker coordination identities differ"
          end
      | _, _ => raise RuntimeError "SpoolCache transport rank and startup inventory rank differ"
      end
  | Handshake (Some [None]) => raise RuntimeError "SpoolCache startup inventory type is incompatible"
  | Handshake _ => raise RuntimeError "SpoolCache requires exactly one startup inventory per rank"
  end.

Fixpoint check_inventories (cn : Connector) (items : list (Z * Z * handshake_metadata)) (ranks : gset Z)
    : result (list StartupInventory) :=
  match items with
  | [] => Ok []
  | (key, handshake) :: items =>
      ir ← check_inventory cn key handshake ranks;
      rest ← check_inventories cn items ({[ir.2]} ∪ ranks);
      Ok (ir.1 :: rest)
  end.

(** Everything that precedes the first change of the catalog. *)
Definition validate_handshake (cn : Connector) (metadata : list (pyval * handshake_metadata))
    : result (list StartupInventory) :=
  let expected := (λ c, (pp_rank c, tp_rank c)) <$> cn_coordinates cn in
  _ ← raise_if (Z.of_nat (length expected) <? Z.of_nat (length metadata)) RuntimeError
        "SpoolCache received handshake metadata from too many ranks";
  match mapM (λ p, k ← transport_key p.1; Some (k, p.2)) metadata with
  | None => raise RuntimeError "SpoolCache received handshake metadata from an unexpected PP/TP rank"
  | Some items =>
      _ ← raise_if (existsb (λ k, negb (bool_decide (k ∈ expected))) items.*1) RuntimeError
            "SpoolCache received handshake metadata from an unexpected PP/TP rank";
      validated ← check_inventories cn (merge_sort coordinate_le items) ∅;
      _ ← raise_if (existsb (λ k, negb (bool_decide (k ∈ items.*1))) expected) RuntimeError
            "SpoolCache startup handshake is missing one or more required ranks";
      Ok validated
  end.

Fixpoint apply_startups (inventories : list StartupInventory) : SE QuorumCatalog unit :=
  match inventories with
  | [] => se_ret tt
  | i :: inventories =>
      (do_ apply_startup (su_rank i) (su_generation i) (su_generation_epoch i) (default [] (su_entries i));
       apply_startups inventories)%py
  end.

Definition _set_pp_aware_handshake_metadata (cn : Connector) (metadata : list (pyval * handshake_metadata))
    : SE Scheduler unit := λ s,
  match validate_handshake cn metadata with
  | Raise e => (Raise e, s)
  | Ok inventories =>
      (do_ with_catalog tt (apply_startups inventories);
       do s' <- se_get;
       do_ se_lift (raise_if (negb (match s_catalog s' with Some c => is_ready c | None => false end))
                      RuntimeError "SpoolCache startup inventories did not form a quorum");
       _refresh_scheduler_gauges)%py s
  end.

Definition set_xfer_handshake_metadata_pp_aware (cn : Connector) (metadata : list (pyval * handshake_metadata))
    : SE Scheduler unit := λ s,
  match s_catalog s with
  | None => (Ok tt, s)
  | Some _ => _set_pp_aware_handshake_metadata cn metadata s
  end.

(** Without pipeline parallelism the keys are tensor-parallel ranks. *)
Definition set_xfer_handshake_metadata (cn : Connector) (metadata : list (pyval * handshake_metadata))
    : SE Scheduler unit := λ s,
  match s_catalog s with
  | None => (Ok tt, s)
  | Some _ =>
      if negb (cn_pp_degree cn =? 1)
      then (raise RuntimeError "SpoolCache PP>1 requires vLLM's PP-aware handshake", s)
      else
        match mapM (λ p, r ← as_int p.1; Some (VTuple [VInt 0; VInt r], p.2)) metadata with
        | None => (raise RuntimeError "SpoolCache received handshake metadata from an unexpected rank", s)
        | Some pp_metadata => _set_pp_aware_handshake_metadata cn pp_metadata s
        end
  end.
End gauges.

(** [get_handshake_metadata] of a registered worker. *)
Definition startup_handshake (rank : Z) (coordination_digest generation : pystr) (epoch : Z)
    (entries : list (pystr * Z)) : handshake_metadata :=
  Handshake (Some [Some (MkStartup (VInt rank) (VStr coordination_digest) (VStr generation) (VInt epoch)
    (Some (entry_val <$> entries)))]).
