(* ===== verification/HandshakeProps.v ===== *)
(** * What the scheduler accepts from its workers

    The statistics accumulator stays well-formed; reports and handshakes change the
    scheduler only through the catalog's own calls; and a startup handshake is
    accepted only from exactly the expected ranks with the scheduler's identity. *)
From S2P Require Import Prelude Dict Bytes Config Inventory Catalog CatalogInv CatalogSpec Topology Json Telemetry TelemetryProps Scheduler SchedulerSpec SchedulerInv Handshake.

(** ** The statistics accumulator *)
Section stats.
Context `{ObjectSizes}.

Lemma check_reports_Ok reports ranks :
  check_reports reports ranks = Ok tt ↔
  ∃ rs, reports = raw_of_report <$> rs ∧ NoDup (r_rank <$> rs) ∧ (∀ r, r ∈ rs → r_rank r ∉ ranks) ∧
    Forall (λ r, validate_inventory_report INVENTORY_MEMORY_BYTES REPORT_BATCH_SIZE (raw_of_report r) = Ok r) rs.
Proof.
  revert ranks; induction reports as [|raw reports IH]; intros ranks; cbn [check_reports].
  - split; [|done]. intros _. exists []. split_and!; [done|apply NoDup_nil_2|by intros r ?%not_elem_of_nil|constructor].
  - rewrite result_bind_Ok. split.
    + intros (v & Hv & Hrest). apply result_bind_Ok in Hrest as (u & Hn & Hrest).
      apply raise_if_Ok in Hn. bsimp. apply IH in Hrest as (rs & -> & Hnd & Hr & Hf).
      pose proof (validate_inventory_report_Ok _ _ _ _ Hv) as [-> _].
      exists (v :: rs). split_and!; [done| | |by constructor].
      * rewrite fmap_cons. apply NoDup_cons. split; [|done].
        intros (r & He & Hin)%list_elem_of_fmap. apply (Hr r Hin). rewrite He. set_solver.
      * intros r [->|Hin]%elem_of_cons; [done|]. specialize (Hr r Hin). set_solver.
    + intros (rs & He & Hnd & Hr & Hf). destruct rs as [|v rs]; [done|].
      rewrite fmap_cons in *. injection He as -> ->. apply Forall_cons in Hf as [Hv Hf].
      apply NoDup_cons in Hnd as [Hvn Hnd].
      exists v. split; [done|]. rewrite bool_decide_eq_false_2 by (apply Hr; by left).
      cbn [raise_if mbind result_bind]. apply IH. exists rs. split_and!; [done..| |done].
      intros r Hin [He|?]%elem_of_union; [|by apply (Hr r); [right|]].
      apply elem_of_singleton in He. apply Hvn. rewrite <-He. by apply list_elem_of_fmap_2.
Qed.

Lemma report_rank_raw r : report_rank (raw_of_report r) = r_rank r.
Proof. by destruct r. Qed.

Lemma raw_ranks (rs : list WorkerInventoryReport) : report_rank <$> (raw_of_report <$> rs) = r_rank <$> rs.
Proof. rewrite <-list_fmap_compose. apply list_fmap_ext. intros i r _. apply report_rank_raw. Qed.

#[local] Instance report_le_total : Total report_le.
Proof. intros a b. unfold report_le. lia. Qed.
#[local] Instance report_le_trans : Transitive report_le.
Proof. intros a b c. unfold report_le. lia. Qed.

(** With distinct ranks the latest report of every rank is the only one. *)
Lemma latest_reports_perm l : NoDup (report_rank <$> l) → latest_reports l ≡ₚ l.
Proof.
  intros Hnd. unfold latest_reports. rewrite (merge_sort_Permutation _ _).
  rewrite od_of_list_id; [|by rewrite <-list_fmap_compose].
  induction l as [|x l IH]; [done|]. cbn in *. apply NoDup_cons in Hnd as [_ Hnd]. by rewrite IH.
Qed.

Lemma latest_reports_sorted l :
  NoDup (report_rank <$> l) → StronglySorted Z.lt (report_rank <$> latest_reports l).
Proof.
  intros Hnd.
  assert (Hs : StronglySorted report_le (latest_reports l)).
  { apply StronglySorted_merge_sort; apply _. }
  assert (Hnd' : NoDup (report_rank <$> latest_reports l)) by (by rewrite latest_reports_perm).
  revert Hs Hnd'. generalize (latest_reports l) as k. induction k as [|r k IH]; intros Hs Hn; [constructor|].
  apply StronglySorted_inv in Hs as [Hs Hf]. rewrite fmap_cons in *. apply NoDup_cons in Hn as [Hr Hn].
  constructor; [by apply IH|]. apply Forall_fmap, Forall_forall. intros q Hq.
  rewrite Forall_forall in Hf. specialize (Hf q Hq). unfold report_le in Hf. cbn.
  assert (report_rank r ≠ report_rank q); [|lia]. intros He. apply Hr. rewrite He. by apply list_elem_of_fmap_2.
Qed.

Lemma stats_post_init_reports s :
  stats_post_init s = Ok tt → ∃ rs, st_reports s = raw_of_report <$> rs ∧ NoDup (r_rank <$> rs) ∧
    Forall (λ r, validate_inventory_report INVENTORY_MEMORY_BYTES REPORT_BATCH_SIZE (raw_of_report r) = Ok r) rs.
Proof.
  unfold stats_post_init. intros (u & _ & Hs)%result_bind_Ok.
  apply result_bind_Ok in Hs as (u1 & _ & Hs). apply result_bind_Ok in Hs as (u2 & _ & Hs).
  apply check_reports_Ok in Hs as (rs & ? & ? & _ & ?). by exists rs.
Qed.

Lemma raws_are_reports (rs : list WorkerInventoryReport) : existsb (λ r, negb (raw_is_report r)) (raw_of_report <$> rs) = false.
Proof. induction rs as [|r rs IH]; [done|]. cbn. by rewrite IH. Qed.

Lemma merged_valid ps data : merge_metric_payloads ps = Ok data → ∃ items, validate_metric_payload data = Ok items.
Proof.
  unfold merge_metric_payloads. intros (m & _ & Hm)%result_bind_Ok.
  apply result_bind_Ok in Hm as (c & _ & Hm). apply result_bind_Ok in Hm as (items & Hv & Hm).
  apply Ok_inj in Hm as <-. by exists items.
Qed.

(** C33: aggregation keeps the accumulator well-formed.  When it succeeds, the
    result passes the constructor's own validation, holds exactly the reports of
    both operands, one per rank in increasing rank order, and the merge of their
    metrics; when it raises, the accumulator is unchanged. *)
Theorem aggregate_well_formed other self r self' :
  aggregate other self = (r, self') →
  match r with
  | Raise _ => self' = self
  | Ok _ => ∃ o, other = Some o ∧ stats_post_init self' = Ok tt ∧
      st_reports self' ≡ₚ st_reports self ++ st_reports o ∧
      StronglySorted Z.lt (report_rank <$> st_reports self') ∧
      merge_metric_payloads [st_data self; st_data o] = Ok (st_data self')
  end.
Proof.
  unfold aggregate. intros Ha. match type of Ha with match ?m with _ => _ end = _ => destruct m as [s|e] eqn:E end;
    injection Ha as <- <-; [|done].
  destruct other as [o|]; [|done]. exists o. split; [done|].
  apply result_bind_Ok in E as ([] & Hself & E). apply result_bind_Ok in E as ([] & Hother & E).
  apply result_bind_Ok in E as (u & Hdis & E). apply raise_if_Ok in Hdis. bsimp.
  apply result_bind_Ok in E as (u' & Hlen & E). apply raise_if_Ok in Hlen.
  apply result_bind_Ok in E as (data & Hdata & E). apply Ok_inj in E as <-. cbn [st_reports st_data].
  apply stats_post_init_reports in Hself as (rs & Hrs & Hnd & Hf).
  apply stats_post_init_reports in Hother as (os & Hos & Hnd' & Hf').
  rewrite Hrs, Hos in *. rewrite !raw_ranks in Hdis.
  assert (Hnd2 : NoDup (report_rank <$> ((raw_of_report <$> rs) ++ (raw_of_report <$> os)))).
  { rewrite fmap_app, !raw_ranks. apply NoDup_app. split_and!; [done| |done].
    intros k Hk Hk'. assert (k ∈ (∅ : gset Z)); [|set_solver]. rewrite <-Hdis. set_solver. }
  split; [|split; [by apply latest_reports_perm|split; [by apply latest_reports_sorted|done]]].
  destruct (merged_valid _ _ Hdata) as [items Hitems].
  unfold stats_post_init. cbn [st_data st_reports]. rewrite Hitems. cbn [mbind result_bind].
  assert (Hp := latest_reports_perm _ Hnd2). rewrite <-fmap_app in Hp |- *.
  apply Permutation_map_inv in Hp as (ks & Hks & Hperm). change (map raw_of_report ks) with (raw_of_report <$> ks) in Hks.
  rewrite <-fmap_app in Hlen. rewrite Hks in *. rewrite raws_are_reports. cbn [raise_if mbind result_bind].
  rewrite Hlen. cbn [raise_if mbind result_bind]. apply check_reports_Ok. exists ks.
  split_and!; [done| |by intros|].
  - rewrite <-raw_ranks, <-Hks, latest_reports_perm by by rewrite fmap_app. by rewrite fmap_app.
  - rewrite <-Hperm. by apply Forall_app.
Qed.
End stats.

(** ** Worker input drives the catalog only *)
Section driven.
Context `{ObjectSizes}.

(** The catalog changes by its own calls, the request tables not at all. *)
Record worker_driven (s s' : Scheduler) : Prop := {
  wd_catalog : match s_catalog s with
               | Some c => ∃ calls, s_catalog s' = Some (run_calls c calls)
               | None => s_catalog s' = None
               end;
  wd_need : s_need_load s' = s_need_load s;
  wd_pending : s_pending_loads s' = s_pending_loads s;
  wd_progress : s_store_progress s' = s_store_progress s;
  wd_salts : s_request_salts s' = s_request_salts s;
  wd_skip : s_skip_write s' = s_skip_write s
}.

#[global] Instance worker_driven_refl : Reflexive worker_driven.
Proof. intros s. constructor; try done. destruct (s_catalog s) as [c|]; [by exists []|done]. Qed.

#[global] Instance worker_driven_trans : Transitive worker_driven.
Proof.
  intros s1 s2 s3 [C1 ?????] [C2 ?????]. constructor; try congruence.
  destruct (s_catalog s1) as [c|].
  - destruct C1 as [l1 E1]. rewrite E1 in C2. destruct C2 as [l2 E2]. exists (l1 ++ l2).
    rewrite E2. unfold run_calls. by rewrite foldl_app.
  - by rewrite C1 in C2.
Qed.

Lemma telemetry_driven s s' : telemetry_only s s' → worker_driven s s'.
Proof. intros [t ->]. constructor; try done. cbn. destruct (s_catalog s) as [c|]; [by exists []|done]. Qed.

Lemma se_bind_driven {A B} (m : SE Scheduler A) (k : A → SE Scheduler B) s :
  worker_driven s (m s).2 → (∀ a s, worker_driven s (k a s).2) → worker_driven s (se_bind m k s).2.
Proof.
  intros Hm Hk. unfold se_bind. destruct (m s) as [[a|e] s1]; [|done]. etrans; [exact Hm|apply Hk].
Qed.

Lemma gauge_driven name v ls s : worker_driven s (gauge_metric name v ls s).2.
Proof. apply telemetry_driven, with_telemetry_only. Qed.

Lemma count_driven name v ls s : worker_driven s (count_metric name v ls s).2.
Proof. apply telemetry_driven, with_telemetry_only. Qed.

Lemma set_catalog_driven s c calls :
  s_catalog s = Some c → worker_driven s (set_catalog (Some (run_calls c calls)) s).
Proof. intros Hc. constructor; try done. rewrite Hc. by exists calls. Qed.

Lemma quorum_count_driven s : worker_driven s (refresh_quorum_count s).2.
Proof.
  unfold refresh_quorum_count. destruct (s_catalog s) as [c|] eqn:Ec; [|done].
  pose proof (set_catalog_driven s c [CallQuorumCount] Ec) as Hd. cbn in Hd.
  by destruct (quorum_count c).
Qed.

Lemma gauges_driven s : worker_driven s (_refresh_scheduler_gauges s).2.
Proof.
  unfold _refresh_scheduler_gauges. destruct (s_telemetry s); [|done]. destruct (s_catalog s); [|done].
  repeat (apply se_bind_driven; [first [apply gauge_driven|apply quorum_count_driven]|intros ? ?]).
  apply gauge_driven.
Qed.

Lemma metrics_driven s : worker_driven s (_refresh_scheduler_metrics s).2.
Proof.
  unfold _refresh_scheduler_metrics. destruct (s_telemetry s); [|done]. destruct (s_catalog s) as [c|]; [|done].
  cbv zeta. case_match; [done|]. apply se_bind_driven.
  - case_match; [|done]. apply se_bind_driven; [apply count_driven|]. intros [] s1.
    constructor; try done. cbn. destruct (s_catalog s1); [by exists []|done].
  - intros [] s1. apply se_bind_driven; [apply gauge_driven|]. intros [] s2. apply gauges_driven.
Qed.

(** A catalog method that consists of catalog calls. *)
Definition by_calls {A} (m : SE QuorumCatalog A) : Prop := ∀ c, ∃ calls, (m c).2 = run_calls c calls.

Lemma apply_reports_calls reports : by_calls (apply_reports reports).
Proof.
  induction reports as [|r reports IH]; intros c; [by exists []|]. cbn [apply_reports]. unfold se_bind.
  destruct (apply_report r c) as [[u|e] c1] eqn:E1.
  - destruct (IH c1) as [calls Hc]. exists (CallReport r :: calls). cbn. by rewrite E1.
  - exists [CallReport r]. cbn. by rewrite E1.
Qed.

Lemma apply_startups_calls inventories : by_calls (apply_startups inventories).
Proof.
  induction inventories as [|i inventories IH]; intros c; [by exists []|]. cbn [apply_startups]. unfold se_bind.
  destruct (apply_startup _ _ _ _ c) as [[u|e] c1] eqn:E1.
  - destruct (IH c1) as [calls Hc].
    exists (CallStartup (su_rank i) (su_generation i) (su_generation_epoch i) (default [] (su_entries i)) :: calls).
    cbn. by rewrite E1.
  - exists [CallStartup (su_rank i) (su_generation i) (su_generation_epoch i) (default [] (su_entries i))].
    cbn. by rewrite E1.
Qed.

Lemma with_catalog_driven {A} (d : A) (m : SE QuorumCatalog A) s :
  by_calls m → worker_driven s (with_catalog d m s).2.
Proof.
  intros Hm. unfold with_catalog. destruct (s_catalog s) as [c|] eqn:Ec; [|done].
  destruct (Hm c) as [calls Hc]. destruct (m c) as [r c']. cbn in Hc. rewrite Hc. by apply set_catalog_driven.
Qed.

Lemma update_output_driven output s : worker_driven s (update_connector_output output s).2.
Proof.
  unfold update_connector_output. destruct (s_catalog s) as [c|]; [|done]. destruct output; [done|done|].
  case_match; [done|]. apply se_bind_driven; [apply with_catalog_driven, apply_reports_calls|].
  intros [] s1. apply gauges_driven.
Qed.

Lemma handshake_driven cn metadata s : worker_driven s (set_xfer_handshake_metadata_pp_aware cn metadata s).2.
Proof.
  unfold set_xfer_handshake_metadata_pp_aware, _set_pp_aware_handshake_metadata.
  destruct (s_catalog s) as [c|]; [|done]. destruct (validate_handshake cn metadata); [|done].
  apply se_bind_driven; [apply with_catalog_driven, apply_startups_calls|]. intros [] s1.
  apply se_bind_driven; [done|]. intros s2 s3. apply se_bind_driven; [done|]. intros [] s4. apply gauges_driven.
Qed.

Lemma scheduler_stats_driven s : worker_driven s (scheduler_stats s).2.
Proof.
  unfold scheduler_stats. apply se_bind_driven; [apply metrics_driven|]. intros [] s1.
  apply se_bind_driven.
  { destruct (s_telemetry s1) as [b|]; [|done]. apply telemetry_driven. by eexists. }
  intros data s2. apply se_bind_driven; [done|]. intros st s3. by apply se_bind_driven.
Qed.

(** Worker input is a sequence of steps of the scheduler's relation. *)
Lemma driven_steps `{Sha} cn h s s' :
  (∀ c, s_catalog s = Some c → catalog_wf c) → worker_driven s s' →
  rtc (sched_step cn) (h, s) (h, s').
Proof.
  intros Hwf Hd.
  assert (He : s' = set_reported (s_reported_changes s') (set_telemetry (s_telemetry s') (set_catalog (s_catalog s') s))).
  { destruct Hd, s, s'. cbn in *. by subst. }
  rewrite He. destruct Hd as [Hc _ _ _ _ _]. destruct (s_catalog s) as [c|] eqn:Ec.
  - destruct Hc as [calls ->]. eapply rtc_l.
    { apply (step_catalog cn h s (run_calls c calls)). apply run_calls_wf. by apply Hwf. }
    apply rtc_once, step_metrics.
  - rewrite Hc. assert (set_catalog None s = s) as -> by (destruct s; cbn in *; by subst).
    apply rtc_once, step_metrics.
Qed.

(** *** The reports of one statistics object *)

(** Their ranks are distinct ranks the catalog expects. *)
Definition reports_expected (c : QuorumCatalog) (reports : list raw_report) : Prop :=
  ∃ ranks, Forall2 (λ r k, raw_rank r = VInt k) reports ranks ∧ NoDup ranks ∧
    ∀ k, k ∈ ranks → k ∈ expected_ranks c.

Lemma report_ranks_ok_iff c reports : report_ranks_ok c reports = true ↔ reports_expected c reports.
Proof.
  unfold report_ranks_ok, reports_expected. split.
  - destruct (mapM _ reports) as [ranks|] eqn:Em; [|done]. rewrite !andb_true_iff, forallb_forall.
    intros [[_ Hnd] Hin]. exists ranks. bsimp. split; [|split; [done|]].
    + apply mapM_Some in Em. eapply Forall2_impl; [exact Em|]. intros r k. apply as_int_Some.
    + intros k Hk%list_elem_of_In%Hin. by bsimp.
  - intros (ranks & Hr & Hnd & Hin).
    assert (mapM (λ r, as_int (raw_rank r)) reports = Some ranks) as ->.
    { apply mapM_Some. eapply Forall2_impl; [exact Hr|]. cbn. by intros r k ->. }
    rewrite !andb_true_iff, forallb_forall. split_and!.
    + apply Z.leb_le. rewrite <-(size_list_to_set (C := gset Z) ranks Hnd).
      apply inj_le, subseteq_size. intros k Hk%elem_of_list_to_set. by apply Hin.
    + by apply bool_decide_eq_true_2.
    + intros k Hk%list_elem_of_In. by apply bool_decide_eq_true_2, Hin.
Qed.

Definition identified_report (c : QuorumCatalog) (r : raw_report) : Prop :=
  identified c (raw_rank r) (raw_generation r) (raw_generation_epoch r).

Lemma apply_report_expected r c : catalog_wf c → expected_ranks (apply_report r c).2 = expected_ranks c.
Proof.
  intros Hwf. unfold apply_report. destruct (need_rank c _) as [rk|] eqn:Er; [|done].
  apply need_rank_Ok in Er as [Hv Hrk].
  destruct (validate_generation_identity _ _) as [[g ep]|]; [|done].
  assert (Ha : ∀ c1, catalog_wf c1 → live c1 rk → expected_ranks (absorb_report rk r c1).2 = expected_ranks c1).
  { intros c1 Hwf1 Hl. destruct (absorb_report_wf rk r c1 Hwf1 Hl Hv) as (c' & -> & _ & Hf). by injection Hf. }
  pose proof (adopt_limits rk g ep c) as [= _ _ He].
  destruct (generation_disposition c rk g ep) eqn:Ed; try done.
  all: try (by rewrite Ha; [|apply adopt_generation_wf|apply adopt_generation_live]).
  apply Ha; [done|]. by eapply disposition_current.
Qed.

(** The reports are applied one after the other, up to the first that carries no valid
    identity. *)
Lemma apply_reports_applied reports c :
  catalog_wf c →
  ∃ good rest, reports = good ++ rest ∧ Forall (identified_report c) good ∧
    match rest with
    | [] => apply_reports reports c = (Ok tt, run_calls c (CallReport <$> good))
    | bad :: _ => ¬ identified_report c bad ∧ ∃ e,
        apply_reports reports c = (Raise e, run_calls c (CallReport <$> good ++ [bad]))
    end.
Proof.
  revert c; induction reports as [|r reports IH]; intros c Hwf; [by exists [], []|].
  pose proof (apply_report_ok c r Hwf) as Hok. pose proof (apply_report_expected r c Hwf) as He.
  pose proof (apply_report_wf r c Hwf) as Hwf1. cbn [apply_reports]. unfold se_bind.
  destruct (apply_report r c) as [[[]|e] c1] eqn:E1; cbn [fst snd] in *.
  - destruct (IH c1 Hwf1) as (good & rest & -> & Hg & Hrest).
    assert (Hsame : ∀ x, identified_report c1 x ↔ identified_report c x).
    { intros x. unfold identified_report, identified. by rewrite He. }
    exists (r :: good), rest. split; [done|]. split.
    { constructor; [by apply Hok|]. eapply Forall_impl; [exact Hg|]. intros x. apply Hsame. }
    assert (Hrun : ∀ l, run_calls c1 l = run_calls c (CallReport r :: l)).
    { intros l. unfold run_calls. cbn [foldl run_call]. by rewrite E1. }
    destruct rest as [|bad rest]; [by rewrite fmap_cons, <-Hrun|].
    destruct Hrest as [Hbad [e ->]]. split; [by rewrite <-Hsame|]. exists e. cbn [app]. by rewrite fmap_cons, <-Hrun.
  - exists [], (r :: reports). split; [done|]. split; [done|]. split; [|exists e; by cbn; rewrite E1].
    intros Hi. by apply Hok in Hi.
Qed.

(** The gauges read the catalog; it remembers the count they ask for. *)
Lemma telemetry_then {A} (P : Scheduler → Prop) (m : SE Scheduler unit) (k : unit → SE Scheduler A) s :
  telemetry_only s (m s).2 → (∀ s1, telemetry_only s s1 → P s1) →
  (∀ s1, telemetry_only s s1 → P (k tt s1).2) → P (se_bind m k s).2.
Proof. intros Hm H1 H2. unfold se_bind. destruct (m s) as [[[]|e] s1]; auto. Qed.

Lemma gauges_catalog s c :
  s_catalog s = Some c →
  ∃ gauges, gauges ∈ [[]; [CallQuorumCount]] ∧
    s_catalog (_refresh_scheduler_gauges s).2 = Some (run_calls c gauges).
Proof.
  intros Hc. unfold _refresh_scheduler_gauges. rewrite Hc.
  assert (H0' : ∀ t, telemetry_only s t → ∃ gauges, gauges ∈ [[]; [CallQuorumCount]] ∧ s_catalog t = Some (run_calls c gauges)).
  { intros t [u ->]. exists []. split; [by left|done]. }
  destruct (s_telemetry s) as [b|]; [|by apply H0'].
  apply telemetry_then; [apply with_telemetry_only|done|]. intros s1 H1.
  apply telemetry_then; [apply with_telemetry_only|intros t Ht; apply H0'; by etrans|]. intros s2 H2.
  assert (Hc2 : s_catalog s2 = Some c) by (destruct H1 as [? ->], H2 as [? ->]; done).
  exists [CallQuorumCount]. split; [set_solver|].
  set (P := λ t : Scheduler, s_catalog t = Some (run_calls c [CallQuorumCount])).
  assert (HP : ∀ t t', telemetry_only t t' → P t → P t') by by intros t t' [u ->].
  unfold se_bind at 1, refresh_quorum_count. rewrite Hc2.
  assert (H3 : P (set_catalog (Some (quorum_count c).2) s2)) by done.
  destruct (quorum_count c) as [n c']. cbn [snd] in H3. revert H3. generalize (set_catalog (Some c') s2). intros s3 H3.
  do 3 (apply (telemetry_then P); [apply with_telemetry_only|by intros ? ?%HP; auto|];
    let t := fresh "t" in intros t Ht; apply (HP _ _ Ht) in H3; clear Ht).
  eapply HP; [apply with_telemetry_only|done].
Qed.

(** The tables of the requests are the same. *)
Record requests_untouched (s s' : Scheduler) : Prop := {
  ru_need : s_need_load s' = s_need_load s;
  ru_pending : s_pending_loads s' = s_pending_loads s;
  ru_progress : s_store_progress s' = s_store_progress s;
  ru_salts : s_request_salts s' = s_request_salts s;
  ru_skip : s_skip_write s' = s_skip_write s
}.

(** What reports do to the catalog: each is applied once, in the order they came, up to
    and including the first that carries no valid identity, which is the only reason to
    stop.  Apart from that the catalog at most remembers its quorum count. *)
Definition reports_applied (c : QuorumCatalog) (reports : list raw_report) (r : result unit) (c' : QuorumCatalog) : Prop :=
  (Forall (identified_report c) reports ∧
   ∃ gauges, gauges ∈ [[]; [CallQuorumCount]] ∧ c' = run_calls c ((CallReport <$> reports) ++ gauges)) ∨
  (∃ good bad rest, reports = good ++ bad :: rest ∧ Forall (identified_report c) good ∧
     ¬ identified_report c bad ∧ is_ok r = false ∧ c' = run_calls c (CallReport <$> good ++ [bad])).

(** C32: statistics from the workers touch nothing of the scheduler but its catalog and
    its telemetry.  Without a catalog, or without statistics, nothing happens; an object
    of another type, and statistics whose reports do not name distinct ranks that the
    catalog expects, are refused and change nothing.  Otherwise every report is applied to the
    catalog exactly once, in the order they came, and only a report without a valid
    identity stops them, with an exception, after it has had its own effect.  The state
    is one that the scheduler's own steps reach. *)
Theorem worker_reports_confined `{Sha} cn h output s r s' :
  sched_reachable cn h s → update_connector_output output s = (r, s') →
  requests_untouched s s' ∧ sched_reachable cn h s' ∧
  match s_catalog s, output with
  | None, _ | Some _, NoStats => r = Ok tt ∧ s' = s
  | Some _, OtherStats => is_ok r = false ∧ s' = s
  | Some c, OwnStats stats =>
      (¬ reports_expected c (st_reports stats) → is_ok r = false ∧ s' = s) ∧
      (reports_expected c (st_reports stats) →
         ∃ c', s_catalog s' = Some c' ∧ reports_applied c (st_reports stats) r c')
  end.
Proof.
  intros Hr Hu. pose proof (update_output_driven output s) as Hd. rewrite Hu in Hd. cbn [snd] in Hd.
  pose proof (si_catalog _ _ _ (sched_reachable_inv _ _ _ Hr)) as Hwf.
  split; [by destruct Hd|]. split.
  { destruct Hr as (s0 & Hs0 & Hr). exists s0. split; [done|]. etrans; [exact Hr|]. by apply driven_steps. }
  unfold update_connector_output in Hu. destruct (s_catalog s) as [c|] eqn:Ec; [|by injection Hu as <- <-].
  destruct output as [| |stats]; [by injection Hu as <- <-..|].
  rewrite <-report_ranks_ok_iff. destruct (report_ranks_ok _ _); cbn [negb] in Hu.
  2:{ injection Hu as <- <-. by split. }
  split; [done|]. intros _. unfold se_bind, with_catalog in Hu. rewrite Ec in Hu.
  destruct (apply_reports_applied (st_reports stats) c (Hwf c eq_refl)) as (good & rest & Hsplit & Hg & Hrest).
  destruct rest as [|bad rest].
  - rewrite app_nil_r in Hsplit. rewrite Hrest in Hu. subst good.
    edestruct (gauges_catalog (set_catalog (Some (run_calls c (CallReport <$> st_reports stats))) s)) as (gauges & Hin & Hc');
      [done|]. rewrite Hu in Hc'. eexists. split; [exact Hc'|]. left. split; [done|]. exists gauges. split; [done|].
    unfold run_calls. by rewrite foldl_app.
  - destruct Hrest as [Hbad [e He]]. rewrite He in Hu. injection Hu as <- <-. eexists. split; [done|]. right. by exists good, bad, rest.
Qed.

(** ** The handshake *)
Definition coordinate_key (c : WorkerCoordinate) : Z * Z := (pp_rank c, tp_rank c).

(** One startup inventory of the right rank and identity, within the capacity, for
    exactly the transport coordinates of the topology. *)
Definition handshake_matches (cn : Connector) (metadata : list (pyval * handshake_metadata)) : Prop :=
  ∃ items : list (Z * Z * StartupInventory),
    metadata = (λ p, (VTuple [VInt p.1.1; VInt p.1.2], Handshake (Some [Some p.2]))) <$> items ∧
    items.*1 ≡ₚ coordinate_key <$> cn_coordinates cn ∧
    ∀ p, p ∈ items → ∃ coordinate entries capacity,
      coordinate ∈ cn_coordinates cn ∧ coordinate_key coordinate = p.1 ∧
      su_rank p.2 = VInt (global_rank coordinate) ∧
      su_coordination_digest p.2 = VStr (cn_coordination_digest cn) ∧
      su_entries p.2 = Some entries ∧ inventory_capacity (VInt INVENTORY_MEMORY_BYTES) = Ok capacity ∧
      Z.of_nat (length entries) ≤ capacity.

Definition inventory_matches (cn : Connector) (key : Z * Z) (i : StartupInventory) : Prop :=
  ∃ coordinate entries capacity,
    coordinate ∈ cn_coordinates cn ∧ coordinate_key coordinate = key ∧
    su_rank i = VInt (global_rank coordinate) ∧
    su_coordination_digest i = VStr (cn_coordination_digest cn) ∧
    su_entries i = Some entries ∧ inventory_capacity (VInt INVENTORY_MEMORY_BYTES) = Ok capacity ∧
    Z.of_nat (length entries) ≤ capacity.

Lemma check_inventory_matches cn key handshake ranks i rank :
  check_inventory cn key handshake ranks = Ok (i, rank) →
  handshake = Handshake (Some [Some i]) ∧ inventory_matches cn key i.
Proof.
  unfold check_inventory. destruct handshake as [|[[|[inv|] [|]]|]]; try done.
  intros ([] & Hl & Hi)%result_bind_Ok. destruct (su_entries inv) as [entries|] eqn:Ee; [|done].
  apply result_bind_Ok in Hl as (capacity & Hcap & Hl). apply raise_if_Ok in Hl. bsimp.
  destruct (as_int (su_rank inv)) as [rk|] eqn:Er; [|done]. apply as_int_Some in Er.
  destruct (coordinate_at (cn_coordinates cn) key) as [co|] eqn:Eco; [|done].
  apply result_bind_Ok in Hi as (u & Hrk & Hi). apply raise_if_Ok in Hrk. bsimp. destruct Hrk as [-> _].
  destruct (as_str (su_coordination_digest inv)) as [d|] eqn:Ed; [|done]. apply as_str_Some in Ed.
  apply result_bind_Ok in Hi as (u' & Hd & Hi). apply raise_if_Ok in Hd. bsimp. subst d.
  injection Hi as -> _. split; [done|]. exists co, entries, capacity.
  unfold coordinate_at in Eco. apply head_Some in Eco as [rest Hf].
  assert (Hin : co ∈ filter (λ c, (pp_rank c, tp_rank c) = key) (cn_coordinates cn)) by (rewrite Hf; set_solver).
  apply list_elem_of_filter in Hin as [Hk Hin]. split_and!; done.
Qed.

Lemma check_inventories_match cn items ranks l :
  check_inventories cn items ranks = Ok l →
  ∃ invs, items = (λ p, (p.1, Handshake (Some [Some p.2]))) <$> invs ∧
    ∀ p, p ∈ invs → inventory_matches cn p.1 p.2.
Proof.
  revert ranks l; induction items as [|[key h] items IH]; intros ranks l; cbn [check_inventories].
  - intros _. exists []. split; [done|]. by intros p ?%not_elem_of_nil.
  - intros ([i rk] & Hi & Hl)%result_bind_Ok. apply result_bind_Ok in Hl as (rest & Hrest & _).
    apply check_inventory_matches in Hi as [-> Hm]. apply IH in Hrest as (invs & -> & Hall).
    exists ((key, i) :: invs). split; [done|]. intros p [->|Hp]%elem_of_cons; auto.
Qed.

Lemma transport_key_Some v k : transport_key v = Some k → v = VTuple [VInt k.1; VInt k.2].
Proof.
  unfold transport_key. destruct v as [| | | |l| |]; try done.
  destruct l as [|[| |a| | | |] [|[| |b| | | |] [|]]]; try done. by intros [= <-].
Qed.

Lemma validate_handshake_matches cn metadata l :
  NoDup (coordinate_key <$> cn_coordinates cn) → validate_handshake cn metadata = Ok l →
  handshake_matches cn metadata.
Proof.
  intros Hnd. unfold validate_handshake. intros (u & Hlen & Hv)%result_bind_Ok. apply raise_if_Ok in Hlen. bsimp.
  destruct (mapM _ metadata) as [items|] eqn:Em; [|done].
  apply result_bind_Ok in Hv as (u1 & Hsub & Hv). apply result_bind_Ok in Hv as (l' & Hc & Hv).
  apply result_bind_Ok in Hv as (u2 & Hall & _). apply raise_if_Ok in Hall.
  apply check_inventories_match in Hc as (invs & Hinvs & Hmatch).
  assert (Hperm : items ≡ₚ (λ p, (p.1, Handshake (Some [Some p.2]))) <$> invs)
    by by rewrite <-Hinvs, merge_sort_Permutation.
  apply Permutation_map_inv in Hperm as (its & Hits & Hpi).
  change (map ?f its) with (f <$> its) in Hits.
  exists its. split; [|split].
  - apply mapM_Some in Em. rewrite Hits in Em. clear -Em.
    revert its Em. induction metadata as [|[v h] metadata IH]; intros its Em.
    { apply Forall2_nil_inv_l, fmap_nil_inv in Em as ->. done. }
    destruct its as [|[k i] its]; [by apply Forall2_nil_inv_r in Em|]. rewrite fmap_cons in *.
    apply Forall2_cons in Em as [Hx Em]. cbn in Hx.
    destruct (transport_key v) as [k'|] eqn:Ek; [|done]. cbn in Hx. injection Hx as -> ->.
    apply transport_key_Some in Ek as ->. f_equal. by apply IH.
  - symmetry. assert (Hkeys : items.*1 = its.*1) by (rewrite Hits, <-list_fmap_compose; done).
    apply submseteq_full.
    + apply NoDup_submseteq; [exact Hnd|]. intros k Hk. rewrite <-Hkeys.
      destruct (decide (k ∈ items.*1)) as [|Hn]; [done|]. exfalso.
      refine (eq_true_false_abs _ _ Hall). apply existsb_exists. exists k.
      split; [by apply list_elem_of_In|]. by rewrite bool_decide_eq_false_2.
    + rewrite <-Hkeys, !length_fmap. apply mapM_Some, Forall2_length in Em. rewrite length_fmap in Hlen. lia.
  - intros p Hp. apply Hmatch. by rewrite Hpi.
Qed.

(** The gauges remember the quorum count and leave readiness alone. *)
Definition ready_as (b : bool) (s : Scheduler) : Prop :=
  ∃ c, s_catalog s = Some c ∧ is_ready c = b.

Lemma ready_telemetry b s s' : telemetry_only s s' → ready_as b s → ready_as b s'.
Proof. by intros [t ->]. Qed.

Lemma se_bind_ready {A B} b (m : SE Scheduler A) (k : A → SE Scheduler B) s :
  (ready_as b s → ready_as b (m s).2) → (∀ a s, ready_as b s → ready_as b (k a s).2) →
  ready_as b s → ready_as b (se_bind m k s).2.
Proof.
  intros Hm Hk Hs. unfold se_bind. specialize (Hm Hs). destruct (m s) as [[a|e] s1]; [|done]. by apply Hk.
Qed.

Lemma gauges_ready b s : ready_as b s → ready_as b (_refresh_scheduler_gauges s).2.
Proof.
  intros Hs. unfold _refresh_scheduler_gauges. destruct (s_telemetry s); [|done].
  destruct (s_catalog s) as [c|] eqn:Ec; [|done]. revert Hs.
  assert (Hg : ∀ n v ls u, ready_as b u → ready_as b (gauge_metric n v ls u).2).
  { intros n v ls u. apply ready_telemetry, with_telemetry_only. }
  assert (Hq : ∀ u, ready_as b u → ready_as b (refresh_quorum_count u).2).
  { intros u (ct & Ht & Hb). unfold refresh_quorum_count. rewrite Ht. unfold quorum_count.
    destruct (quorum_count_cache ct); cbn [snd]; eexists; by split. }
  repeat (apply se_bind_ready; [by first [apply Hg|apply Hq]|intros ? ?]). apply Hg.
Qed.

End driven.
