(* ===== verification/SchedulerExamples.v ===== *)
(** * A scheduler step on concrete inputs

    Two ranks offer the first 256 tokens of a prompt and the boundary state of a
    layout with a sliding group: a request of 300 tokens is granted a restore,
    confirmed, and handed to the workers with the store of another prompt. *)
From S2P Require Import Prelude Dict Bytes Utf8 Config Prefix Telemetry Inventory Reporter Catalog CatalogInv CatalogSpec Topology Admission Json Identity Hma HmaSpec Manifest TokenFiles Scheduler SchedulerSpec SchedulerInv SchedulerProps Handshake HandshakeProps.

Module SchedulerExamples.
#[local] Existing Instance light_sha.
#[local] Existing Instance cpython312.
Import HmaExamples.

Definition deployment : pystr := replicate 64 97.
Definition cn0 : Connector := MkConnector layout0 deployment ∅ 1 [] [].

Definition prompt_from_7 (n : Z) : PromptFields := MkPrompt (Some (VInt <$> seqZ 7 n)) false false None false.
Definition request1 : Request := MkRequest (lit "req-1") (prompt_from_7 300) None VNone.

Definition entry1 : pystr := Eval vm_compute in
  match chain_digests cn0 (VInt <$> seqZ 7 300) [] [] 256 with Ok [p] => digest p | _ => [] end.
Definition state1 : pystr := Eval vm_compute in
  match boundary_state_key entry1 with Ok k => k | Raise _ => [] end.

Definition cat_init : QuorumCatalog := Eval vm_compute in
  match catalog_init [VInt 0; VInt 1] (VInt (8 * INVENTORY_ENTRY_BYTES)) (VInt 64) with
  | Ok c => c | Raise _ => Catalog ∅ 0 0 ∅ ∅ ∅ ∅ ∅ ∅ ∅ ∅ [] 0 None end.
Definition entries1 : list pyval := entry_val <$> [(entry1, 256); (state1, 256)].
Definition calls1 : list catalog_call :=
  [CallStartup (VInt 0) (VStr (lit "gen-a")) (VInt 1) entries1;
   CallStartup (VInt 1) (VStr (lit "gen-b")) (VInt 1) entries1].
Definition cat1 : QuorumCatalog := run_calls cat_init calls1.

Lemma cat1_wf : catalog_wf cat1.
Proof.
  apply run_calls_wf, (catalog_init_wf [VInt 0; VInt 1] (VInt (8 * INVENTORY_ENTRY_BYTES)) (VInt 64)).
  vm_compute. reflexivity.
Qed.

Definition s0 : Scheduler :=
  MkScheduler (Some cat1) ∅ [] ∅ ∅ ∅ (Some (Buffer (lit "scheduler") ∅ ∅ ∅)) 0.

Lemma s0_init : sched_init s0.
Proof.
  refine (conj _ (conj eq_refl (conj eq_refl (conj eq_refl (conj eq_refl eq_refl))))).
  intros c Hc. apply Some_inj in Hc. rewrite <-Hc. exact cat1_wf.
Qed.

Lemma s0_reachable : sched_reachable cn0 [] s0.
Proof. exists s0. exact (conj s0_init (rtc_refl _ _)). Qed.

Abbreviation lookup1 := (get_num_new_matched_tokens cn0 request1 (VInt 64) s0).

Lemma pair_run {A B} (p : A * B) a : p.1 = a → p = (a, p.2).
Proof. destruct p. by intros <-. Qed.

Lemma lookup1_answer : lookup1.1 = Ok (192, false).
Proof. vm_compute. reflexivity. Qed.

Lemma lookup1_run : get_num_new_matched_tokens cn0 request1 (VInt 64) s0 = (Ok (192, false), lookup1.2).
Proof. exact (pair_run lookup1 _ lookup1_answer). Qed.

Lemma admitted_restore_is_offered_witness :
  ∃ c entry span, s_catalog s0 = Some c ∧ s_need_load lookup1.2 !! lit "req-1" = Some (entry, span, 192) ∧
    hit_for cn0 c request1 (VInt 64) entry span 192.
Proof.
  destruct (admitted_restore_is_offered cn0 [] s0 request1 (VInt 64) 192 false lookup1.2 s0_reachable lookup1_run)
    as (_ & _ & _ & Hhit & _).
  exact (Hhit eq_refl).
Defined.

(** The confirmation, and a step that also stores another prompt. *)
Definition blocks1 : list (list pyval) := [VInt <$> [1; 2; 3; 4; 5]; VInt <$> [0; 0; 0; 0; 3; 4; 5; 6; 7; 8]].
Abbreviation s1 := (lookup1.2).
Abbreviation s2 := ((update_state_after_alloc cn0 request1 blocks1 (VInt 192) s1).2).

Definition request2 : NewRequest := MkNewRequest (lit "req-2") 
  (MkPrompt (Some (VInt <$> seqZ 1000 260)) false false None false)
  [VInt <$> [11; 12; 13; 14; 15]; VInt <$> [21; 22; 23; 24; 25; 26; 27; 28; 29]] (VInt 256).
Definition out1 : SchedulerOutput := MkOutput [] [request2] (MkCached [] [] [] ∅) {[lit "req-2" := VInt 4]}.

Abbreviation build1 := (build_connector_meta cn0 out1 s2).
Definition meta1 : SpoolCacheMetadata :=
  match build1.1 with Ok m => m | Raise _ => MkMetadata [] [] end.

Example meta1_contents :
  (sp_request_id <$> loads meta1) = [lit "req-1"] ∧ (sp_span_tokens <$> loads meta1) = [256] ∧
  (sp_request_id <$> stores meta1) = [lit "req-2"] ∧ (sp_span_tokens <$> stores meta1) = [256].
Proof. vm_compute. done. Qed.

Lemma build1_answer : build1.1 = Ok meta1.
Proof.
  assert (Hok : is_ok build1.1 = true) by (vm_compute; reflexivity).
  unfold meta1. revert Hok. by destruct build1.1.
Qed.

Lemma build1_run : build_connector_meta cn0 out1 s2 = (Ok meta1, build1.2).
Proof. exact (pair_run build1 _ build1_answer). Qed.

Lemma s2_reachable : sched_reachable cn0 [Looked request1 (VInt 64) cat1] s2.
Proof.
  exists s0. split; [apply s0_init|].
  eapply rtc_l; [exact (step_lookup cn0 [] s0 cat1 request1 (VInt 64) eq_refl)|].
  eapply rtc_l; [exact (step_alloc cn0 [Looked request1 (VInt 64) cat1] s1 request1 blocks1 (VInt 192))|].
  apply rtc_refl.
Qed.

Lemma metadata_is_sound_witness :
  Forall (load_ok cn0 [Looked request1 (VInt 64) cat1]) (loads meta1) ∧ Forall (plan_ok cn0 (built out1 [Looked request1 (VInt 64) cat1]) (s_catalog s2) out1) (stores meta1).
Proof.
  destruct (metadata_is_sound cn0 [Looked request1 (VInt 64) cat1] s2 out1 meta1 build1.2 s2_reachable build1_run)
    as (_ & _ & Hl & _ & _ & Hs).
  exact (conj Hl Hs).
Defined.

Lemma tracking_terminates_witness : first_decision 0 [100; 100; 56; 1] 256 256 256 true = Some 256.
Proof.
  refine (proj2 (tracking_terminates 0 [100; 100; 56; 1] 256 256 256 true _ _ _ _ _ _)
    [100; 100; 56] [1] eq_refl _ eq_refl eq_refl); [lia|by repeat constructor|lia|lia|lia|by exists 1|done].
Defined.
End SchedulerExamples.

(** * Two workers and a scheduler: handshake, reports and statistics *)
Module HandshakeExamples.
#[local] Existing Instance light_sha.
#[local] Existing Instance cpython312.
Import HmaExamples.

Definition key_a : pystr := replicate 64 97.
Definition gen0 : pystr := lit "worker-0".
Definition gen1 : pystr := lit "worker-1".
Definition shared : pystr := replicate 64 100.

Definition cn2 : Connector :=
  MkConnector layout0 key_a ∅ 1 [Coordinate 0 0 0 0; Coordinate 1 0 1 1] shared.

Example cn2_topology :
  expected_worker_coordinates (VInt 2) (VInt 1) (VInt 2) = Ok (cn_coordinates cn2).
Proof. reflexivity. Qed.

Definition cat0 : QuorumCatalog := Eval vm_compute in
  match catalog_init [VInt 0; VInt 1] (VInt INVENTORY_MEMORY_BYTES) (VInt 64) with
  | Ok c => c | Raise _ => Catalog ∅ 0 0 ∅ ∅ ∅ ∅ ∅ ∅ ∅ ∅ [] 0 None end.

Definition s0 : Scheduler :=
  MkScheduler (Some cat0) ∅ [] ∅ ∅ ∅ (Some (Buffer (lit "scheduler") ∅ ∅ ∅)) 0.

Lemma hs0_reachable : sched_reachable cn2 [] s0.
Proof.
  refine (ex_intro _ s0 (conj (conj _ (conj eq_refl (conj eq_refl (conj eq_refl (conj eq_refl eq_refl))))) (rtc_refl _ _))).
  intros c Hc. apply Some_inj in Hc. rewrite <-Hc.
  apply (catalog_init_wf [VInt 0; VInt 1] (VInt INVENTORY_MEMORY_BYTES) (VInt 64)). vm_compute. reflexivity.
Qed.

(** ** The handshake *)
Definition hello (digest1 : pystr) : list (pyval * handshake_metadata) :=
  [(VTuple [VInt 0; VInt 1], startup_handshake 1 digest1 gen1 3 [(key_a, 256)]);
   (VTuple [VInt 0; VInt 0], startup_handshake 0 shared gen0 2 [(key_a, 256)])].

Abbreviation greeted := (set_xfer_handshake_metadata_pp_aware cn2 (hello shared) s0).
Abbreviation refused := (set_xfer_handshake_metadata_pp_aware cn2 (hello key_a) s0).

Lemma pair_of {A B} (p : A * B) : p = (p.1, p.2).
Proof. by destruct p. Qed.

Lemma coordinates_distinct : NoDup (coordinate_key <$> cn_coordinates cn2).
Proof. apply (bool_decide_unpack _). reflexivity. Qed.

Lemma greeted_ok : is_ok greeted.1 = true.
Proof. vm_compute. reflexivity. Qed.


(** A worker with another identity: nothing is installed, not even for the other rank. *)
Example foreign_worker_refused :
  is_ok refused.1 = false ∧ (entries_of cat0 <$> [0; 1]) = [[]; []] ∧
  (default [] (s_catalog refused.2 ≫= λ c, Some (entries_of c 0))) = [].
Proof. vm_compute. done. Qed.

(** ** A rolling report of each rank *)
Definition worker (rank : Z) (gen : pystr) (epoch : Z) : InventoryReporter :=
  match reporter_init (VInt rank) (VStr gen) (VInt epoch) (VInt INVENTORY_MEMORY_BYTES) (VInt 64) with
  | Ok w => (add (VStr key_a) (VInt 256) w).2
  | Raise _ => Reporter 0 [] 0 0 0 [] ∅ false 0 [] 0 [] 0 0 0
  end.
Definition report_of (w : InventoryReporter) : list raw_report :=
  match (next_report (VInt 64) w).1 with Ok r => [raw_of_report r] | Raise _ => [] end.
Definition reports0 : list raw_report := Eval vm_compute in report_of (worker 0 gen0 2).
Definition reports1 : list raw_report := Eval vm_compute in report_of (worker 1 gen1 3).

Definition stats0 : SpoolCacheStats := MkStats empty_metric_payload reports0.
Definition stats1 : SpoolCacheStats := MkStats empty_metric_payload reports1.

Abbreviation combined := (aggregate (Some stats1) stats0).

Lemma combined_run : combined = (Ok tt, combined.2).
Proof.
  assert (Hok : is_ok combined.1 = true) by (vm_compute; reflexivity).
  revert Hok. by destruct combined as [[[]|e] st].
Qed.

Lemma aggregate_well_formed_witness :
  ∃ o, Some stats1 = Some o ∧ stats_post_init combined.2 = Ok tt ∧
    st_reports combined.2 ≡ₚ st_reports stats0 ++ st_reports o ∧
    StronglySorted Z.lt (report_rank <$> st_reports combined.2) ∧
    merge_metric_payloads [st_data stats0; st_data o] = Ok (st_data combined.2).
Proof. exact (aggregate_well_formed (Some stats1) stats0 (Ok tt) combined.2 combined_run). Defined.

Abbreviation applied := (update_connector_output (OwnStats combined.2) s0).

Lemma combined_expected : reports_expected cat0 (st_reports combined.2).
Proof. apply report_ranks_ok_iff. vm_compute. reflexivity. Qed.

Lemma worker_reports_confined_witness :
  requests_untouched s0 applied.2 ∧ sched_reachable cn2 [] applied.2 ∧
  ∃ c', s_catalog applied.2 = Some c' ∧ reports_applied cat0 (st_reports combined.2) applied.1 c'.
Proof.
  destruct (worker_reports_confined cn2 [] (OwnStats combined.2) s0 applied.1 applied.2 hs0_reachable
    (pair_of applied)) as (Hd & Hr & Hs).
  exact (conj Hd (conj Hr (proj2 Hs combined_expected))).
Defined.

Example applied_offers :
  (default false (s_catalog applied.2 ≫= λ c, Some (has_quorum c key_a (Some 256)))) = true.
Proof. vm_compute. reflexivity. Qed.
End HandshakeExamples.
