(* ===== verification/Worker.v ===== *)
(** * The worker side of the connector ([vllm/connector.py])

    One object holds the store, the mover, the reporter, the telemetry, the scrub
    scheduler and the event journal of a rank.  [W] is the state monad over that object
    and the world of its store; every method of the code is one definition.  The store
    calls two hooks of the worker: a withdrawal removes the key from the reporter, a
    quarantine is counted in the journal.  They run when the store operation that
    called them ends ([disk]); nothing the store does depends on them. *)
From S2P Require Import Prelude Dict Bytes Config Inventory Reporter Prefix Json Hma Manifest Telemetry Gpu Io RankStore TokenFiles TokenScrub TokenMover Scheduler Handshake EventJournal.
From S2P Require Maintenance.

Definition DISK_METRIC_INTERVAL_SECONDS : Z := 300.

Section worker.
Context `{Torch, Sha, Uuid, JsonLoads, ObjectSizes}.

Record Worker := MkWorker {
  wk_world : World;
  wk_device : device;
  wk_mover : option TorchPageMover;
  wk_store : option TokenFileStore;
  wk_reporter : option InventoryReporter;
  wk_telemetry : option TelemetryBuffer;
  wk_scrub : option Maintenance.Scheduler;
  wk_journal : option event_totals;
  wk_journal_cursor : event_totals;
  wk_capacity_remaining : Z;
  wk_withdrawn_epoch : Z;
  wk_marker_cursor : option pystr;
  wk_startup : list (pystr * Z)
}.

Definition W (A : Type) : Type := Worker → outcome A * Worker.

#[export] Instance w_ret : MRet W := λ A a k, (Ret a, k).
#[export] Instance w_bind : MBind W := λ A B f m k,
  match m k with
  | (Ret a, k) => f a k
  | (Exc e, k) => (Exc e, k)
  | (Dead, k) => (Dead, k)
  end.

Definition w_return {A} (a : A) : W A := λ k, (Ret a, k).
Definition w_raise {A} (c : exn_kind) (msg : string) : W A := λ k, (Exc (Exn c msg), k).
Definition w_rethrow {A} (e : exn) : W A := λ k, (Exc e, k).
Definition w_lift {A} (r : result A) : W A := λ k,
  match r with Ok a => (Ret a, k) | Raise e => (Exc e, k) end.
Definition w_get : W Worker := λ k, (Ret k, k).
Definition w_modify (f : Worker → Worker) : W unit := λ k, (Ret tt, f k).
Definition w_try {A} (m : W A) (h : exn → option (W A)) : W A := λ k,
  match m k with
  | (Exc e, k) => match h e with Some m => m k | None => (Exc e, k) end
  | r => r
  end.
Definition w_finally {A} (m : W A) (f : W unit) : W A := λ k,
  match m k with
  | (Dead, k) => (Dead, k)
  | (o, k) => match f k with
              | (Ret _, k) => (o, k)
              | (Exc e, k) => (Exc e, k)
              | (Dead, k) => (Dead, k)
              end
  end.

(** ** Fields *)
Definition on_world (w : World) (k : Worker) : Worker :=
  MkWorker w (wk_device k) (wk_mover k) (wk_store k) (wk_reporter k) (wk_telemetry k) (wk_scrub k)
    (wk_journal k) (wk_journal_cursor k) (wk_capacity_remaining k) (wk_withdrawn_epoch k) (wk_marker_cursor k)
    (wk_startup k).
Definition set_device (m : device) (k : Worker) : Worker :=
  MkWorker (wk_world k) m (wk_mover k) (wk_store k) (wk_reporter k) (wk_telemetry k) (wk_scrub k)
    (wk_journal k) (wk_journal_cursor k) (wk_capacity_remaining k) (wk_withdrawn_epoch k) (wk_marker_cursor k)
    (wk_startup k).
Definition set_data_path (mv : option TorchPageMover) (st : option TokenFileStore) (k : Worker) : Worker :=
  MkWorker (wk_world k) (wk_device k) mv st (wk_reporter k) (wk_telemetry k) (wk_scrub k)
    (wk_journal k) (wk_journal_cursor k) (wk_capacity_remaining k) (wk_withdrawn_epoch k) (wk_marker_cursor k)
    (wk_startup k).
Definition set_reporter (r : option InventoryReporter) (k : Worker) : Worker :=
  MkWorker (wk_world k) (wk_device k) (wk_mover k) (wk_store k) r (wk_telemetry k) (wk_scrub k)
    (wk_journal k) (wk_journal_cursor k) (wk_capacity_remaining k) (wk_withdrawn_epoch k) (wk_marker_cursor k)
    (wk_startup k).
Definition set_buffer (b : option TelemetryBuffer) (k : Worker) : Worker :=
  MkWorker (wk_world k) (wk_device k) (wk_mover k) (wk_store k) (wk_reporter k) b (wk_scrub k)
    (wk_journal k) (wk_journal_cursor k) (wk_capacity_remaining k) (wk_withdrawn_epoch k) (wk_marker_cursor k)
    (wk_startup k).
Definition set_scrub (s : option Maintenance.Scheduler) (k : Worker) : Worker :=
  MkWorker (wk_world k) (wk_device k) (wk_mover k) (wk_store k) (wk_reporter k) (wk_telemetry k) s
    (wk_journal k) (wk_journal_cursor k) (wk_capacity_remaining k) (wk_withdrawn_epoch k) (wk_marker_cursor k)
    (wk_startup k).
Definition set_journal (t : option event_totals) (cursor : event_totals) (k : Worker) : Worker :=
  MkWorker (wk_world k) (wk_device k) (wk_mover k) (wk_store k) (wk_reporter k) (wk_telemetry k) (wk_scrub k)
    t cursor (wk_capacity_remaining k) (wk_withdrawn_epoch k) (wk_marker_cursor k) (wk_startup k).
Definition set_capacity (n : Z) (k : Worker) : Worker :=
  MkWorker (wk_world k) (wk_device k) (wk_mover k) (wk_store k) (wk_reporter k) (wk_telemetry k) (wk_scrub k)
    (wk_journal k) (wk_journal_cursor k) n (wk_withdrawn_epoch k) (wk_marker_cursor k) (wk_startup k).
Definition set_withdrawn_epoch (n : Z) (k : Worker) : Worker :=
  MkWorker (wk_world k) (wk_device k) (wk_mover k) (wk_store k) (wk_reporter k) (wk_telemetry k) (wk_scrub k)
    (wk_journal k) (wk_journal_cursor k) (wk_capacity_remaining k) n (wk_marker_cursor k) (wk_startup k).
Definition set_marker_cursor (c : option pystr) (k : Worker) : Worker :=
  MkWorker (wk_world k) (wk_device k) (wk_mover k) (wk_store k) (wk_reporter k) (wk_telemetry k) (wk_scrub k)
    (wk_journal k) (wk_journal_cursor k) (wk_capacity_remaining k) (wk_withdrawn_epoch k) c (wk_startup k).
Definition set_startup (l : list (pystr * Z)) (k : Worker) : Worker :=
  MkWorker (wk_world k) (wk_device k) (wk_mover k) (wk_store k) (wk_reporter k) (wk_telemetry k) (wk_scrub k)
    (wk_journal k) (wk_journal_cursor k) (wk_capacity_remaining k) (wk_withdrawn_epoch k) (wk_marker_cursor k) l.

(** ** The parts of the object *)

(** A call of the reporter, which the caller knows to exist. *)
Definition on_reporter {A} (m : SE InventoryReporter A) : W A := λ k,
  match wk_reporter k with
  | None => (Exc (Exn RuntimeError "no reporter"), k)
  | Some r =>
      match m r with
      | (Ok a, r) => (Ret a, set_reporter (Some r) k)
      | (Raise e, r) => (Exc e, set_reporter (Some r) k)
      end
  end.

(** [if self._telemetry is not None] *)
Definition on_buffer (m : SE TelemetryBuffer unit) : W unit := λ k,
  match wk_telemetry k with
  | None => (Ret tt, k)
  | Some b =>
      match m b with
      | (Ok _, b) => (Ret tt, set_buffer (Some b) k)
      | (Raise e, b) => (Exc e, set_buffer (Some b) k)
      end
  end.

Definition w_count (name : string) (value : Z) (labels : list string) : W unit :=
  on_buffer (increment (MStr (lit name)) (MNum (NInt value)) (MStr ∘ lit <$> labels)).
Definition w_gauge (name : string) (value : Z) : W unit :=
  on_buffer (set_gauge (MStr (lit name)) (MNum (NInt value)) []).
Definition w_observe (name : string) (value : num) : W unit :=
  on_buffer (observe (MStr (lit name)) (MNum value) []).

(** [journal.increment(...)] under a handler that logs any exception. *)
Definition record_event (name : pystr) (labels : list pystr) : W unit := λ k,
  match wk_journal k with
  | None => (Ret tt, k)
  | Some t =>
      match event_increment name labels (VInt 1) t (wk_world k) with
      | (Dead, t, w) => (Dead, set_journal (Some t) (wk_journal_cursor k) (on_world w k))
      | (_, t, w) => (Ret tt, set_journal (Some t) (wk_journal_cursor k) (on_world w k))
      end
  end.

Definition clear_logs (w : World) : World :=
  on_proc (λ p, MkProc (lock_depth p) (closed p) (owns_inventory p) (Io.active_restores p) (restore_credits p) [] []) w.

Definition withdraw_hook (keys : list pystr) (k : Worker) : Worker :=
  set_reporter ((λ r, foldl (λ r key, remove key r) r keys) <$> wk_reporter k) k.

Fixpoint quarantine_hook (reasons : list pystr) : W unit :=
  match reasons with
  | [] => w_return tt
  | reason :: reasons =>
      _ ← record_event (lit "spoolcache_quarantined_entries_total") [reason]; quarantine_hook reasons
  end.

(** An operation of the store, and the hooks it called. *)
Definition disk {A} (m : IO A) : W A := λ k,
  let (o, w) := m (clear_logs (wk_world k)) in
  let k := withdraw_hook (withdraw_log (w_proc w)) (on_world w k) in
  match o with
  | Dead => (Dead, k)
  | _ => match quarantine_hook (quarantine_log (w_proc w)) k with
         | (Dead, k) => (Dead, k)
         | (_, k) => (o, k)
         end
  end.

(** [with store._exclusive()], around a block of the worker ([RankStore.exclusive]). *)
Definition w_exclusive {A} (m : W A) : W A :=
  p ← disk get_proc;
  match lock_depth p with
  | S d => _ ← disk (set_proc_depth (S (S d))); w_finally m (disk (set_proc_depth (S d)))
  | O =>
      w_finally
        (_ ← disk (_ ← open_lock maintenance_lock; _ ← flock; _ ← open_regular namespace_lock; _ ← flock;
                   set_proc_depth 1); m)
        (disk (set_proc_depth 0))
  end.

(** [self._mover], [self._store] *)
Definition _worker_data_path : W (TorchPageMover * TokenFileStore) :=
  k ← w_get;
  match wk_mover k, wk_store k with
  | Some mv, Some st => w_return (mv, st)
  | _, _ => w_raise RuntimeError "SpoolCache worker data path is not registered"
  end.

(** ** Restores *)
Definition _manifest_logical_bytes (manifest : TokenSnapshot) : result Z :=
  foldr (λ d total,
    t ← total;
    if td_byte_length d <=? 0 then raise RuntimeError "SpoolCache manifest byte length is malformed"
    else Ok (td_byte_length d + t)) (Ok 0) (ts_objects manifest).

(** [str(error).partition(":")[0]] *)
Fixpoint before_colon (s : string) : string :=
  match s with
  | EmptyString => EmptyString
  | String c s => if bool_decide (c = Ascii.ascii_of_nat 58) then EmptyString else String c (before_colon s)
  end.

Definition _fatal_restore_phase (e : exn) : pystr :=
  let code := before_colon (exn_message e) in
  if String.eqb code "SPOOLCACHE_POST_ADMISSION_LOOKUP_FAILED" then lit "lookup"
  else if String.eqb code "SPOOLCACHE_POST_ADMISSION_SPAN_MISMATCH" then lit "span"
  else if String.eqb code "SPOOLCACHE_POST_ADMISSION_MANIFEST_CHANGED" then lit "manifest"
  else if String.eqb code "SPOOLCACHE_POST_ADMISSION_RESTORE_FAILED" then lit "payload"
  else lit "unknown".

(** [os._exit] *)
Definition terminate_worker_after_fatal_restore {A} : W A := λ k, (Dead, k).

(** The handler of [FatalRestoreError]: it ends the process. *)
Definition fatal_restore {A} (plan : SpoolCachePlan) (e : exn) : W A :=
  _ ← record_event (lit "spoolcache_post_admission_failure_total") [_fatal_restore_phase e];
  _ ← w_modify (withdraw_hook [sp_entry_id plan]);
  terminate_worker_after_fatal_restore.

(** The seconds a step measures. *)
Context (elapsed : num).

Definition restore_plan (mv : TorchPageMover) (st : TokenFileStore) (plan : SpoolCachePlan) : W unit :=
  k ← w_get;
  r ← w_try (disk (restore_entry mv st (sp_entry_id plan) (sp_span_tokens plan)
                     (table_arg (sp_block_ids plan)) None (wk_device k)))
        (λ e, if decide (exn_class e = FatalRestoreError) then Some (fatal_restore plan e) else None);
  _ ← w_modify (set_device r.2);
  if wk_telemetry k then
    bytes ← w_lift (_manifest_logical_bytes r.1);
    _ ← w_count "spoolcache_restore_bytes_total" bytes [];
    w_observe "spoolcache_restore_seconds" elapsed
  else w_return tt.

Fixpoint w_each {A} (f : A → W unit) (l : list A) : W unit :=
  match l with [] => w_return tt | x :: l => _ ← f x; w_each f l end.

(** ** Metrics *)
Record ManagedDiskUsage := DiskUsage {
  cache_bytes : Z; quarantine_bytes : Z; temporary_bytes : Z; state_bytes : Z; unrecognized_bytes : Z;
  control_bytes : Z
}.
Definition total_bytes (u : ManagedDiskUsage) : Z :=
  cache_bytes u + quarantine_bytes u + temporary_bytes u + state_bytes u + unrecognized_bytes u + control_bytes u.

Definition managed_disk_usage : IO ManagedDiskUsage :=
  cache ← disk_usage_bytes;
  quarantine ← _managed_tree_bytes quarantine_dir;
  temporary ← _managed_tree_bytes tmp_dir;
  state ← _managed_tree_bytes state_dir;
  unrecognized ← _managed_tree_bytes [lit "objects"];
  control ← _managed_tree_bytes [lit ".spoolcache-root"];
  ret (DiskUsage cache quarantine temporary state unrecognized control).

(** The new events of the journal since the cursor; the code visits the totals in the
    order of their first event, here they are sorted. *)
Fixpoint count_events (cursor : event_totals) (l : list (metric_key * Z)) : W unit :=
  match l with
  | [] => w_return tt
  | (key, total) :: l =>
      let previous := default 0 (cursor !! key) in
      if total <? previous
      then w_raise RuntimeError "SpoolCache persistent event counter moved backwards"
      else
        _ ← (if previous <? total
             then on_buffer (increment (MStr key.1) (MNum (NInt (total - previous))) (MStr <$> key.2))
             else w_return tt);
        count_events cursor l
  end.

(** [due]: the disk interval has elapsed. *)
Definition _refresh_worker_metrics (force_disk due : bool) : W unit :=
  k ← w_get;
  match wk_telemetry k, wk_mover k, wk_store k with
  | Some _, Some mv, Some st =>
      _ ← w_gauge "spoolcache_pinned_pool_bytes" (mv_slot_bytes mv * STAGING_SLOT_COUNT);
      _ ← (if force_disk || due then
             usage ← disk managed_disk_usage;
             _ ← w_gauge "spoolcache_disk_bytes" (cache_bytes usage);
             _ ← w_gauge "spoolcache_managed_disk_bytes" (total_bytes usage);
             w_gauge "spoolcache_quarantine_bytes" (quarantine_bytes usage)
           else w_return tt);
      k ← w_get;
      match wk_journal k with
      | None => w_return tt
      | Some totals =>
          _ ← count_events (wk_journal_cursor k) (sorted_bindings totals);
          w_modify (set_journal (Some totals) totals)
      end
  | _, _, _ => w_return tt
  end.

(** ** Capacity *)
Definition WORKER_CATALOG_LIMIT : result Z := inventory_capacity (VInt INVENTORY_MEMORY_BYTES).

Definition _scan_worker_catalog (st : TokenFileStore) : IO (list ManifestOffer) :=
  limit ← lift WORKER_CATALOG_LIMIT; scan_offers st limit.

(** [reporter.replace({offer.entry_id: offer.span_tokens for offer in offers})] *)
Definition offer_entries (offers : list ManifestOffer) : list (pyval * pyval) :=
  (λ p : pystr * Z, (VStr p.1, VInt p.2)) <$>
    od_of_list ((λ o, (of_entry_id o, of_span_tokens o)) <$> offers).

(** [config.trigger_watermark_bytes] *)
Context (trigger_bytes : Z).

Definition maintain_round (st : TokenFileStore) : W unit :=
  k ← w_get;
  report ← disk (maintain_capacity_batch st (VInt trigger_bytes) (VInt (wk_capacity_remaining k)));
  match report with
  | None => w_return tt
  | Some report =>
      _ ← w_modify (set_capacity (candidates_remaining report));
      if (candidates_attempted report =? 0) && (objects_removed report =? 0) then w_return tt
      else w_exclusive (
        offers ← disk (_scan_worker_catalog st);
        on_reporter (replace (offer_entries offers)))
  end.

Definition maintain_failed : W unit :=
  _ ← w_modify (set_capacity 0);
  _ ← on_reporter (replace []);
  k ← w_get;
  match wk_scrub k with
  | None => w_return tt
  | Some s => s ← w_lift (Maintenance.require_inventory_rescan true s); w_modify (set_scrub (Some s))
  end.

Definition _maintain_capacity : W unit :=
  k ← w_get;
  match wk_store k, wk_reporter k with
  | Some st, Some _ => w_try (maintain_round st) (λ _, Some maintain_failed)
  | _, _ => w_return tt
  end.

(** ** Stores *)
Definition commit_plan (mv : TorchPageMover) (st : TokenFileStore) (plan : SpoolCachePlan) : W TokenSnapshot :=
  w_exclusive (
    k ← w_get;
    snapshot ← disk (commit_keys mv st
                       (sp_prefixes plan ++ [MkPrefixDigest (sp_span_tokens plan) (sp_entry_id plan)])
                       (table_arg (sp_block_ids plan)) (wk_device k));
    k ← w_get;
    _ ← (if wk_reporter k
         then w_each (λ d, on_reporter (add (VStr (td_key d)) (VInt (td_span_tokens d)))) (ts_objects snapshot)
         else w_return tt);
    w_return snapshot).

(** One plan: a failure is counted and skipped. *)
Definition store_plan (mv : TorchPageMover) (st : TokenFileStore) (plan : SpoolCachePlan) : W unit :=
  snapshot ← w_try (s ← commit_plan mv st plan; w_return (Some s))
               (λ _, Some (_ ← w_count "spoolcache_store_skipped_total" 1 ["error"%string]; w_return None));
  match snapshot with
  | None => w_return tt
  | Some snapshot =>
      k ← w_get;
      if wk_telemetry k then
        bytes ← w_lift (_manifest_logical_bytes snapshot);
        _ ← w_count "spoolcache_store_bytes_total" bytes [];
        w_observe "spoolcache_store_seconds" elapsed
      else w_return tt
  end.

Definition _commit_store_plans (plans : list SpoolCachePlan) : W unit :=
  path ← _worker_data_path;
  _ ← w_each (store_plan path.1 path.2) plans;
  _ ← _maintain_capacity;
  _refresh_worker_metrics true false.

(** [start_load_kv]: every restore of the step, then every store. *)
Definition start_load_kv (metadata : SpoolCacheMetadata) : W unit :=
  _ ← (if bool_decide (loads metadata = []) then w_return tt
       else path ← _worker_data_path; w_each (restore_plan path.1 path.2) (loads metadata));
  if bool_decide (stores metadata = []) then w_return tt
  else _commit_store_plans (stores metadata).

(** ** Scrub maintenance *)
Definition replace_catalog (entries : list (pyval * pyval)) : W unit := on_reporter (replace entries).

(** The reconciliation of one pending epoch. *)
Definition reconcile (s : Maintenance.Scheduler) (st : TokenFileStore) (epoch : Z) : W unit :=
  force ← w_lift (Maintenance.inventory_rescan_requires_withdrawal epoch s);
  k ← w_get;
  if force && (wk_withdrawn_epoch k <? epoch) then
    _ ← replace_catalog []; w_modify (set_withdrawn_epoch epoch)
  else
    w_try
      (w_exclusive (
         offers ← disk (_scan_worker_catalog st);
         _ ← replace_catalog (offer_entries offers);
         s ← w_lift (Maintenance.acknowledge_inventory_rescan epoch s);
         w_modify (set_scrub (Some s))))
      (λ _, Some (_ ← replace_catalog []; w_modify (set_withdrawn_epoch epoch))).

(** [names] *)
Definition scrub_metric_names : list (pystr * string) :=
  [(lit "payload_bytes", "spoolcache_scrub_payload_bytes_total"%string);
   (lit "objects_authenticated", "spoolcache_scrub_objects_total"%string);
   (lit "manifests_authenticated", "spoolcache_scrub_manifests_total"%string);
   (lit "cycles", "spoolcache_scrub_cycles_total"%string);
   (lit "objects_quarantined", "spoolcache_scrub_objects_quarantined_total"%string);
   (lit "failures", "spoolcache_scrub_failures_total"%string);
   (lit "namespace_items_scanned", "spoolcache_scrub_namespace_items_total"%string);
   (lit "shutdown_failures", "spoolcache_scrub_shutdown_failures_total"%string);
   (lit "orphan_objects_removed", "spoolcache_orphan_objects_removed_total"%string);
   (lit "orphan_bytes_removed", "spoolcache_orphan_bytes_removed_total"%string);
   (lit "temporary_files_removed", "spoolcache_temporary_files_removed_total"%string)].

Definition emit_scrub_metric (m : Maintenance.metric) : W unit :=
  match od_get m.1 scrub_metric_names with
  | None => w_raise RuntimeError "deep scrub scheduler emitted an unknown metric"
  | Some name => w_count name m.2 []
  end.

Definition _drain_scrub_maintenance : W unit :=
  k ← w_get;
  match wk_scrub k, wk_telemetry k, wk_reporter k, wk_store k with
  | Some s, Some _, Some _, Some st =>
      _ ← match Maintenance.pending_inventory_rescan_epoch s with
          | Some epoch => reconcile s st epoch
          | None => w_return tt
          end;
      k ← w_get;
      match wk_scrub k with
      | None => w_return tt
      | Some s =>
          let (metrics, s) := Maintenance.drain_metrics s in
          _ ← w_modify (set_scrub (Some s));
          w_each emit_scrub_metric metrics
      end
  | _, _, _, _ => w_return tt
  end.

(** ** Statistics of a worker *)

(** Consume the durable markers, then report, in one critical section. *)
Definition inventory_report : W WorkerInventoryReport :=
  w_exclusive (
    k ← w_get;
    batch ← disk (inventory_withdrawal_marker_batch (VInt REPORT_BATCH_SIZE) (wk_marker_cursor k) true);
    report ← on_reporter (next_report (VInt REPORT_BATCH_SIZE));
    _ ← disk (acknowledge_absent_inventory_withdrawals batch.1);
    _ ← w_modify (set_marker_cursor batch.2);
    w_return report).

Definition drain_buffer : W mval := λ k,
  match wk_telemetry k with
  | Some b => let (data, b) := drain b in (Ret data, set_buffer (Some b) k)
  | None => (Ret empty_metric_payload, k)
  end.

(** The worker's branch of [get_kv_connector_stats]. *)
Definition worker_stats (due : bool) : W (option SpoolCacheStats) :=
  k ← w_get;
  reports ← match wk_reporter k with
            | None => w_return []
            | Some _ =>
                _ ← _drain_scrub_maintenance;
                _ ← _refresh_worker_metrics false due;
                k ← w_get;
                match wk_store k with
                | None => w_raise RuntimeError "SpoolCache worker inventory store is unavailable"
                | Some _ => report ← inventory_report; w_return [raw_of_report report]
                end
            end;
  data ← drain_buffer;
  stats ← w_lift (stats_init data reports);
  empty ← w_lift (stats_is_empty stats);
  w_return (if (empty : bool) then None else Some stats).

(** ** Starting and stopping *)

(** The capacity rounds of [_prepare_worker_catalog]; [None] when [fuel] is exhausted. *)
Fixpoint capacity_rounds (fuel : nat) (st : TokenFileStore) (remaining : Z) : IO (option unit) :=
  match fuel with
  | O => ret None
  | S fuel =>
      report ← maintain_capacity_batch st (VInt trigger_bytes) (VInt remaining);
      match report with
      | None => throw RuntimeError "startup capacity lock unexpectedly unavailable"
      | Some report =>
          if candidates_remaining report =? 0 then ret (Some tt)
          else capacity_rounds fuel st (candidates_remaining report)
      end
  end.

Definition _prepare_worker_catalog (fuel : nat) (st : TokenFileStore) : IO (option (list ManifestOffer)) :=
  exclusive (
    rounds ← capacity_rounds fuel st 0;
    match rounds with
    | None => ret None
    | Some _ => offers ← _scan_worker_catalog st; ret (Some offers)
    end).

(** [except Exception: f(); raise] *)
Definition w_cleanup {A} (m : W A) (f : W unit) : W A :=
  w_try m (λ e, Some (_ ← f; w_rethrow e)).

Definition close_data_path : W unit :=
  _ ← disk close;
  w_modify (set_data_path None None).

(** The fields a failed registration leaves unset. *)
Definition unregister : W unit :=
  _ ← w_modify (λ k, set_scrub None (set_reporter None (set_buffer None (set_journal None ∅ (set_startup [] k)))));
  close_data_path.

(** The startup image: the catalog after every standing marker was withdrawn. *)
Definition startup_image (offers : list ManifestOffer) : W unit :=
  w_exclusive (
    _ ← replace_catalog (offer_entries offers);
    batch ← disk (inventory_withdrawal_marker_batch (VInt REPORT_BATCH_SIZE) None true);
    inventory ← on_reporter (λ r, let (l, r) := startup r in (Ok l, r));
    _ ← disk (acknowledge_absent_inventory_withdrawals batch.1);
    _ ← w_modify (set_startup inventory);
    w_modify (set_marker_cursor batch.2)).

(** The store before [set_withdraw_hook]. *)
Definition unhooked (st : TokenFileStore) : TokenFileStore :=
  TokenStore (st_id st) (st_layout st) (st_chunk_tokens st) (st_binding st) (st_slot_bytes st)
    (Hooks false (has_quarantine_hook (st_hooks st))).

(** [register_kv_caches] from the opened store on: the journal and the catalog, then the
    reporter under a new generation.  [scrub]: the limits of the scrub scheduler. *)
Definition register_worker (fuel : nat) (mv : TorchPageMover) (st : TokenFileStore) (rank : Z) (generation : pystr)
    (scrub : Z * Z * Z) : W unit :=
  offers ← w_cleanup
    (_ ← disk acquire_inventory_owner;
     totals ← disk journal_init;
     _ ← w_modify (set_journal (Some totals) ∅);
     buffer ← w_lift (telemetry_init (MStr (lit "rank:" ++ print_int rank)));
     _ ← w_modify (set_buffer (Some buffer));
     offers ← disk (_prepare_worker_catalog fuel (unhooked st));
     match offers with Some offers => w_return offers | None => w_raise RuntimeError "capacity rounds" end)
    unregister;
  _ ← w_cleanup
    (epoch ← disk reserve_inventory_generation_epoch;
     reporter ← w_lift (reporter_init (VInt rank) (VStr generation) (VInt epoch) (VInt INVENTORY_MEMORY_BYTES)
                          (VInt REPORT_BATCH_SIZE));
     _ ← w_modify (set_reporter (Some reporter));
     _ ← startup_image offers;
     _ ← disk (scrub_open st);
     s ← w_lift (s ← Maintenance.scheduler_init scrub.1.1 scrub.1.2 scrub.2; Maintenance.start s);
     _ ← w_modify (set_scrub (Some s));
     w_modify (set_data_path (Some mv) (Some st)))
    unregister;
  _refresh_worker_metrics true false.

(** [shutdown]: a scrub thread that outlives the join keeps the store. *)
Definition worker_shutdown (alive : bool) : W unit :=
  k ← w_get;
  let timed_out := match wk_scrub k with
                   | Some s => match (Maintenance.close_scheduler alive s).1 with Maintenance.TimedOut => true | _ => false end
                   | None => false
                   end in
  _ ← w_modify (λ k, set_scrub None (set_journal None (wk_journal_cursor k) k));
  if (timed_out : bool) then w_modify (set_data_path None None)
  else if wk_store k then close_data_path
  else w_modify (set_data_path None None).
End worker.
