(* ===== verification/WorkerSpec.v ===== *)
(** * Reasoning about the worker

    Inversion of runs that returned, what a store operation does to the reporter
    through its hooks, and the operations that call no hook. *)
From S2P Require Import Prelude Dict Bytes Config Inventory Reporter ReporterInv Hma Manifest Telemetry Gpu Io RankStore IoSpec FsInv TokenFiles StoreOps TokenBatches TokenMover Scheduler Handshake EventJournal JournalSpec Worker.

(** ** Operations that call no hook *)
Definition logs (w : World) : list pystr * list pystr := (withdraw_log (w_proc w), quarantine_log (w_proc w)).
Definition quiet {A} (m : IO A) : Prop := ∀ w, logs (m w).2 = logs w.

Section quiet.
Context {A B : Type}.
Lemma q_ret (a : A) : quiet (ret a).
Proof. done. Qed.
Lemma q_throw k msg : quiet (@throw A k msg).
Proof. done. Qed.
Lemma q_rethrow e : quiet (@rethrow A e).
Proof. done. Qed.
Lemma q_lift (r : result A) : quiet (lift r).
Proof. intros w. unfold lift. by destruct r. Qed.
Lemma q_bind (m : IO A) (f : A → IO B) : quiet m → (∀ a, quiet (f a)) → quiet (m ≫= f).
Proof.
  intros Hm Hf w. specialize (Hm w). unfold mbind, io_bind. destruct (m w) as [[a|e|] w1]; cbn in *; [|done|done].
  by rewrite Hf.
Qed.
Lemma q_try (m : IO A) h : quiet m → (∀ e k, h e = Some k → quiet k) → quiet (try_with m h).
Proof.
  intros Hm Hh w. specialize (Hm w). unfold try_with. destruct (m w) as [[a|e|] w1]; cbn in *; [done| |done].
  destruct (h e) as [k|] eqn:E; [|done]. by rewrite (Hh e k E).
Qed.
Lemma q_finally (m : IO A) f : quiet m → quiet f → quiet (finally m f).
Proof.
  intros Hm Hf w. specialize (Hm w). unfold finally.
  destruct (m w) as [[a|e|] w1]; cbn in *; [| |done]; specialize (Hf w1); destruct (f w1) as [[?|?|] w2]; cbn in *; congruence.
Qed.
End quiet.

Lemma q_guard b k msg : quiet (guard_io b k msg).
Proof. by destruct b. Qed.
Lemma q_get_fs : quiet get_fs.
Proof. done. Qed.
Lemma q_get_proc : quiet get_proc.
Proof. done. Qed.
Lemma q_depth n : quiet (set_proc_depth n).
Proof. done. Qed.
Lemma q_mod_fs f : quiet (mod_fs f).
Proof. done. Qed.
Lemma q_consult : quiet consult.
Proof. intros w. unfold consult. by destruct (w_faults w) as [|[] ?]. Qed.
Lemma q_flock : quiet flock.
Proof. apply q_consult || (unfold flock; apply q_bind; [apply q_consult|intros; apply q_ret]). Qed.
Lemma q_or_else {A} k (d : A) m : quiet m → quiet (or_else k d m).
Proof. intros Hm. apply q_try; [done|]. intros e h Hh. case_decide; [|done]. injection Hh as <-. apply q_ret. Qed.
Lemma q_ignoring k m : quiet m → quiet (ignoring k m).
Proof. intros Hm. apply q_try; [done|]. intros e h Hh. case_decide; [|done]. injection Hh as <-. apply q_ret. Qed.

Ltac quiet_step :=
  cbv beta zeta;
  lazymatch goal with
  | |- quiet (ret _) => apply q_ret
  | |- quiet (throw _ _) => apply q_throw
  | |- quiet (rethrow _) => apply q_rethrow
  | |- quiet (lift _) => apply q_lift
  | |- quiet (guard_io _ _ _) => apply q_guard
  | |- quiet get_fs => apply q_get_fs
  | |- quiet get_proc => apply q_get_proc
  | |- quiet (set_proc_depth _) => apply q_depth
  | |- quiet (mod_fs _) => apply q_mod_fs
  | |- quiet consult => apply q_consult
  | |- quiet flock => apply q_flock
  | |- quiet (or_else _ _ _) => apply q_or_else
  | |- quiet (ignoring _ _) => apply q_ignoring
  | |- quiet (mbind _ _) => apply q_bind; [|intros ?]
  | |- quiet (finally _ _) => apply q_finally
  | |- quiet (try_with _ _) => apply q_try; [|intros ? ? ?]
  | |- quiet (match _ with _ => _ end) => case_match
  | H : Some _ = Some _ |- _ => injection H as <-
  end.
Create HintDb io_quiet discriminated.
Ltac quiet_solve := repeat (assumption || solve [eauto 2 with io_quiet] || quiet_step).

Lemma q_lstat p : quiet (sys_lstat p).
Proof. unfold sys_lstat, not_found. quiet_solve. Qed.
Lemma q_open p : quiet (sys_open p).
Proof. unfold sys_open, not_found. quiet_solve. Qed.
Lemma q_scandir p : quiet (sys_scandir p).
Proof. unfold sys_scandir, not_found. quiet_solve. Qed.
Lemma q_rmdir p : quiet (sys_rmdir p).
Proof. unfold sys_rmdir, not_found. quiet_solve. Qed.
Lemma q_fsync_dir p : quiet (sys_fsync_dir p).
Proof. unfold sys_fsync_dir, not_found. quiet_solve. Qed.
#[export] Hint Resolve q_lstat q_open q_scandir q_rmdir q_fsync_dir : io_quiet.

Lemma q_present p : quiet (_digest_marker_is_present p).
Proof. unfold _digest_marker_is_present. quiet_solve. Qed.
Lemma q_open_lock p : quiet (open_lock p).
Proof. unfold open_lock. quiet_solve. Qed.
Lemma q_open_regular p : quiet (open_regular p).
Proof. unfold open_regular. quiet_solve. Qed.
Lemma q_name_exists p : quiet (name_exists p).
Proof. unfold name_exists. quiet_solve. Qed.
#[export] Hint Resolve q_present q_open_lock q_open_regular q_name_exists : io_quiet.

Lemma q_exclusive {A} (m : IO A) : quiet m → quiet (exclusive m).
Proof. intros Hm. unfold exclusive. quiet_solve. Qed.

Lemma q_clear e : quiet (_clear_inventory_withdrawal e).
Proof. unfold _clear_inventory_withdrawal, _clear_digest_marker. quiet_solve. Qed.
Lemma q_absence p : quiet (_fsync_manifest_absence_locked p).
Proof. unfold _fsync_manifest_absence_locked. quiet_solve. Qed.
#[export] Hint Resolve q_clear q_absence : io_quiet.

Lemma q_acknowledge l : quiet (acknowledge_absent_inventory_withdrawals l).
Proof.
  unfold acknowledge_absent_inventory_withdrawals. apply q_exclusive.
  induction l as [|e l IH]; cbn [for_each]; [apply q_ret|]. apply q_bind; [|by intros].
  unfold acknowledge_absent, _manifest_path. quiet_solve.
Qed.

(** ** The markers handed to the reporter *)
Lemma call_hook_Ret act u w w' :
  call_hook act w = (Ret u, w') → ∃ w1, logs w1 = logs w ∧ w_fs w1 = w_fs w ∧ act w1 = (Ret u, w').
Proof.
  unfold call_hook. intros (n & w1 & Hc & Ha)%bind_Ret. exists w1.
  apply try_Ret in Hc as [Hc|(e & k & w2 & _ & Hk & Hr)]; [|injection Hk as <-; discriminate Hr].
  pose proof (q_consult w) as Hq. pose proof (keeps_fs consult w k_consult) as Hf. rewrite Hc in Hq, Hf. done.
Qed.

(** Every standing marker of the names is withdrawn from the reporter. *)
Lemma marker_names_Ret following l r w w' :
  marker_names true following l w = (Ret r, w') →
  w_fs w' = w_fs w ∧ quarantine_log (w_proc w') = quarantine_log (w_proc w) ∧
  ∃ more, withdraw_log (w_proc w') = withdraw_log (w_proc w) ++ more ∧
    ∀ n, n ∈ l → live (w_fs w) (n :: withdrawn_dir) = Some NDir → n ∈ more.
Proof.
  revert r w; induction l as [|n l IH]; intros r w; cbn [marker_names].
  - intros [-> ->]%ret_Ret. split; [done|]. split; [done|]. exists []. rewrite app_nil_r. split; [done|].
    by intros n ?%elem_of_nil.
  - intros (u & w1 & [_ ->]%guard_Ret & Hr)%bind_Ret. apply bind_Ret in Hr as (b & w2 & Hb & Hr).
    pose proof (q_present (n :: withdrawn_dir) w) as Hq. rewrite Hb in Hq. injection Hq as Hq1 Hq2.
    apply present_Ret in Hb as [Hf Hlive]. destruct b; cbn [negb] in Hr.
    + apply bind_Ret in Hr as (u1 & w3 & Hh & Hr). apply call_hook_Ret in Hh as (w4 & Hl & Hf4 & Hlog).
      injection Hl as Hl1 Hl2. unfold log_withdrawal, mod_proc in Hlog. injection Hlog as _ <-.
      apply bind_Ret in Hr as (rest & w5 & Hrest & Hr). apply ret_Ret in Hr as [_ ->].
      apply IH in Hrest as (Hf5 & Hq5 & more & Hm & Hin). cbn in *. split; [congruence|]. split; [congruence|].
      exists (n :: more). split; [rewrite Hm, Hl1, Hq1, <-(assoc_L (++)); done|].
      intros n' [->|Hn']%elem_of_cons Hl'; [by left|]. right. apply Hin; [done|]. by rewrite Hf4, Hf.
    + apply IH in Hr as (Hf5 & Hq5 & more & Hm & Hin). split; [congruence|]. split; [congruence|].
      exists more. split; [congruence|]. intros n' [->|Hn']%elem_of_cons Hl'; [congruence|].
      apply Hin; [done|]. by rewrite Hf.
Qed.

Lemma exclusive_run {A} (m : IO A) w a w' :
  exclusive m w = (Ret a, w') →
  ∃ w1 w2, m w1 = (Ret a, w2) ∧ w_fs w1 = w_fs w ∧ logs w1 = logs w ∧ w_fs w' = w_fs w2 ∧ logs w' = logs w2.
Proof.
  assert (Hfin : ∀ (x : IO A) n w a w', finally x (set_proc_depth n) w = (Ret a, w') →
    ∃ w2, x w = (Ret a, w2) ∧ w_fs w' = w_fs w2 ∧ logs w' = logs w2).
  { intros x n w0 b w2. unfold finally. destruct (x w0) as [[c|e|] w3]; cbn; try done.
    intros [= <- <-]. by exists w3. }
  unfold exclusive. intros Hr. apply bind_Ret in Hr as (p & w1 & Hp & Hr). apply get_proc_Ret in Hp as [-> ->].
  destruct (lock_depth (w_proc w)) as [|n].
  - apply Hfin in Hr as (w2 & Hr & Hf2 & Hl2).
    set (acquire := (_ ← open_lock maintenance_lock; _ ← flock; _ ← open_regular namespace_lock; _ ← flock;
      set_proc_depth 1) : IO unit).
    assert (∃ u w3, acquire w = (Ret u, w3) ∧ m w3 = (Ret a, w2)) as (u & w3 & Hacq & Hm).
    { apply bind_Ret in Hr as (? & w3 & R1 & Hr).
      apply bind_Ret in Hr as (? & w4 & R2 & Hr). apply bind_Ret in Hr as (? & w5 & R3 & Hr).
      apply bind_Ret in Hr as (? & w6 & R4 & Hr). apply bind_Ret in Hr as (u & w7 & R5 & Hr). exists u, w7.
      split; [|done]. unfold acquire. rewrite !bind_Ret. do 2 eexists. split; [exact R1|]. rewrite bind_Ret.
      do 2 eexists. split; [exact R2|]. rewrite bind_Ret. do 2 eexists. split; [exact R3|]. rewrite bind_Ret.
      do 2 eexists. split; [exact R4|exact R5]. }
    exists w3, w2. split; [done|].
    pose proof (keeps_fs acquire w ltac:(intros I; unfold acquire; io_keeps; apply k_depth)) as K.
    assert (Hq : quiet acquire) by (unfold acquire; quiet_solve).
    specialize (Hq w). rewrite Hacq in K, Hq. done.
  - apply bind_Ret in Hr as (? & w3 & R1 & Hr). injection R1 as _ <-.
    apply Hfin in Hr as (w2 & Hr & Hf2 & Hl2). eexists _, w2. split; [exact Hr|]. done.
Qed.

Lemma scandir_Ret p l w w' :
  sys_scandir p w = (Ret l, w') → live (w_fs w) p = Some NDir ∧ l = children (w_fs w) p ∧ w_fs w' = w_fs w.
Proof.
  intros Hr. destruct (triple_Ret _ _ _ _ _ _ _ (t_scandir (λ fs, fs = w_fs w) p) eq_refl Hr) as (Hl & -> & Hf).
  by rewrite <-Hf.
Qed.

(** A marker that stands. *)
Definition marked_key (fs : FS) (key : pystr) : Prop := names fs !! _inventory_withdrawal_path key = Some NDir.

Lemma marker_batch_Ret limit after batch w w' :
  inventory_withdrawal_marker_batch limit after true w = (Ret batch, w') →
  w_fs w' = w_fs w ∧ quarantine_log (w_proc w') = quarantine_log (w_proc w) ∧
  ∃ more, withdraw_log (w_proc w') = withdraw_log (w_proc w) ++ more ∧
    ∀ key, marked_key (w_fs w) key → key ∈ more.
Proof.
  unfold inventory_withdrawal_marker_batch. intros (n & w1 & [_ ->]%lift_Ret & Hr)%bind_Ret.
  apply bind_Ret in Hr as (u & w1 & [_ ->]%guard_Ret & Hr). apply bind_Ret in Hr as (sel & w1 & He & Hr).
  apply ret_Ret in Hr as [_ ->]. apply exclusive_run in He as (w2 & w3 & Hr & F2 & L2 & F3 & L3).
  apply bind_Ret in Hr as (l & w4 & Hs & Hr).
  pose proof (q_scandir withdrawn_dir w2) as Q4. rewrite Hs in Q4. cbn in Q4.
  apply scandir_Ret in Hs as (Hd & -> & F4).
  apply bind_Ret in Hr as (found & w5 & Hm & Hr). apply marker_names_Ret in Hm as (F5 & Q5 & more & M5 & Hin).
  assert (Hmore : ∀ key, marked_key (w_fs w) key → key ∈ more).
  { intros key Hk. apply Hin.
    - apply children_elem. exists NDir. by rewrite F2.
    - rewrite F4, live_child by done. by rewrite F2. }
  injection L2 as L2 L2'. injection L3 as L3 L3'. injection Q4 as Q4 Q4'.
  destruct (bool_decide (nsmallest_keys n found = []) && bool_decide (is_Some after)).
  - apply bind_Ret in Hr as (l' & w6 & Hs & Hr).
    pose proof (q_scandir withdrawn_dir w5) as Q6. rewrite Hs in Q6. injection Q6 as Q6 Q6'.
    apply scandir_Ret in Hs as (_ & -> & F6).
    apply bind_Ret in Hr as (found' & w7 & Hm & Hr). apply marker_names_Ret in Hm as (F7 & Q7 & more' & M7 & _).
    apply ret_Ret in Hr as [_ ->]. cbn in *. split; [congruence|]. split; [congruence|].
    exists (more ++ more'). split; [rewrite L3, M7, Q6, M5, Q4, L2; by rewrite (assoc_L (++))|].
    intros key Hk. apply elem_of_app. left. by apply Hmore.
  - apply ret_Ret in Hr as [_ ->]. cbn in *. split; [congruence|]. split; [congruence|].
    exists more. split; [congruence|]. exact Hmore.
Qed.

(** ** Runs of the worker *)
Section runs.
Context `{Torch, Sha, Uuid, JsonLoads, ObjectSizes}.

Lemma wbind_Ret {A B} (m : W A) (f : A → W B) k b k' :
  (m ≫= f) k = (Ret b, k') ↔ ∃ a k1, m k = (Ret a, k1) ∧ f a k1 = (Ret b, k').
Proof.
  unfold mbind, w_bind. destruct (m k) as [[a|e|] k1]; split.
  - intros Hf. by exists a, k1.
  - by intros (a' & k1' & [= <- <-] & Hf).
  - done.
  - by intros (a' & k1' & [=] & _).
  - done.
  - by intros (a' & k1' & [=] & _).
Qed.

Lemma wreturn_Ret {A} (a b : A) k k' : w_return a k = (Ret b, k') ↔ b = a ∧ k' = k.
Proof. unfold w_return. split; [by intros [= <- <-]|by intros [-> ->]]. Qed.

Lemma wlift_Ret {A} (r : result A) a k k' : w_lift r k = (Ret a, k') ↔ r = Ok a ∧ k' = k.
Proof. unfold w_lift. destruct r; split; [by intros [= <- <-]|by intros [[= ->] ->]|done|by intros [[=] _]]. Qed.

Lemma wget_Ret k1 k k' : w_get k = (Ret k1, k') ↔ k1 = k ∧ k' = k.
Proof. unfold w_get. split; [by intros [= <- <-]|by intros [-> ->]]. Qed.

Lemma wfinally_Ret {A} (m : W A) f k a k' :
  w_finally m f k = (Ret a, k') ↔ ∃ k1 u, m k = (Ret a, k1) ∧ f k1 = (Ret u, k').
Proof.
  unfold w_finally. destruct (m k) as [[b|e|] k1]; [|destruct (f k1) as [[?|?|] ?]|].
  - destruct (f k1) as [[u|e|] k2] eqn:E; split; try done.
    + intros [= -> ->]. by exists k1, u.
    + intros (k3 & u' & [= -> <-] & Hf). rewrite E in Hf. by injection Hf as _ ->.
    + intros (k3 & u' & [= -> <-] & Hf). by rewrite E in Hf.
    + intros (k3 & u' & [= -> <-] & Hf). by rewrite E in Hf.
  - split; [done|by intros (? & ? & [=] & _)].
  - split; [done|by intros (? & ? & [=] & _)].
  - split; [done|by intros (? & ? & [=] & _)].
  - split; [done|by intros (? & ? & [=] & _)].
Qed.

(** Everything but the world and the journal. *)
Definition same_parts (k k' : Worker) : Prop :=
  wk_device k' = wk_device k ∧ wk_mover k' = wk_mover k ∧ wk_store k' = wk_store k ∧ wk_reporter k' = wk_reporter k ∧
  wk_telemetry k' = wk_telemetry k ∧ wk_scrub k' = wk_scrub k ∧ wk_capacity_remaining k' = wk_capacity_remaining k ∧
  wk_withdrawn_epoch k' = wk_withdrawn_epoch k ∧ wk_marker_cursor k' = wk_marker_cursor k ∧ wk_startup k' = wk_startup k.

Lemma same_parts_refl k : same_parts k k.
Proof. done. Qed.
Lemma same_parts_trans k1 k2 k3 : same_parts k1 k2 → same_parts k2 k3 → same_parts k1 k3.
Proof. unfold same_parts. intros. naive_solver congruence. Qed.

Lemma record_event_parts name labels k : same_parts k (record_event name labels k).2.
Proof.
  unfold record_event. destruct (wk_journal k) as [t|]; [|done].
  by destruct (event_increment name labels (VInt 1) t (wk_world k)) as [[[?|?|] ?] ?].
Qed.

Lemma quarantine_hook_parts l k : same_parts k (quarantine_hook l k).2.
Proof.
  revert k; induction l as [|r l IH]; intros k; [done|]. cbn [quarantine_hook]. unfold mbind, w_bind.
  pose proof (record_event_parts (lit "spoolcache_quarantined_entries_total") [r] k) as Hp.
  destruct (record_event _ _ k) as [[a|e|] k1]; [|done|done]. by eapply same_parts_trans.
Qed.

Definition removed (keys : list pystr) (r : InventoryReporter) : InventoryReporter :=
  foldl (λ r key, remove key r) r keys.

(** What a store operation does to the worker. *)
Lemma disk_parts {A} (m : IO A) k :
  let w := (m (clear_logs (wk_world k))).2 in
  same_parts (withdraw_hook (withdraw_log (w_proc w)) k) (disk m k).2 ∧
  (quarantine_log (w_proc w) = [] → wk_world (disk m k).2 = w) ∧
  ((disk m k).1 = (m (clear_logs (wk_world k))).1 ∨ (disk m k).1 = Dead).
Proof.
  unfold disk. destruct (m (clear_logs (wk_world k))) as [o w]. cbn.
  set (k1 := withdraw_hook (withdraw_log (w_proc w)) (on_world w k)).
  assert (Hk : same_parts (withdraw_hook (withdraw_log (w_proc w)) k) k1) by done.
  pose proof (quarantine_hook_parts (quarantine_log (w_proc w)) k1) as Hq.
  assert (Hw : quarantine_log (w_proc w) = [] → (quarantine_hook (quarantine_log (w_proc w)) k1) = (Ret tt, k1)) by by intros ->.
  destruct o; [| |by split_and!; auto];
    destruct (quarantine_hook (quarantine_log (w_proc w)) k1) as [[?|?|] k2]; cbn in *;
    (split; [by eapply same_parts_trans|]; split; [intros Hn; specialize (Hw Hn); by simplify_eq|auto]).
Qed.

Lemma disk_Ret {A} (m : IO A) k a k' :
  disk m k = (Ret a, k') →
  ∃ w, m (clear_logs (wk_world k)) = (Ret a, w) ∧
    same_parts (withdraw_hook (withdraw_log (w_proc w)) k) k' ∧
    (quarantine_log (w_proc w) = [] → wk_world k' = w).
Proof.
  intros Hr. pose proof (disk_parts m k) as (Hp & Hw & Ho). rewrite Hr in *. cbn in *.
  destruct (m (clear_logs (wk_world k))) as [o w]. cbn in *. exists w. split; [|done].
  destruct Ho as [<-|[=]]. done.
Qed.

(** An operation that calls no hook leaves the reporter. *)
Lemma disk_quiet {A} (m : IO A) k a k' :
  quiet m → disk m k = (Ret a, k') →
  m (clear_logs (wk_world k)) = (Ret a, wk_world k') ∧ same_parts k k'.
Proof.
  intros Hq (w & Hm & Hp & Hw)%disk_Ret. pose proof (Hq (clear_logs (wk_world k))) as Hl. rewrite Hm in Hl.
  injection Hl as Hl1 Hl2. rewrite (Hw Hl2). split; [done|]. eapply same_parts_trans; [|exact Hp].
  cbn in Hl1. rewrite Hl1. unfold withdraw_hook. cbn. split_and!; try done. cbn. by destruct (wk_reporter k).
Qed.

Lemma w_exclusive_Ret {A} (m : W A) k a k' :
  w_exclusive m k = (Ret a, k') →
  ∃ k1 k2, m k1 = (Ret a, k2) ∧ same_parts k k1 ∧ w_fs (wk_world k1) = w_fs (wk_world k) ∧
    same_parts k2 k' ∧ w_fs (wk_world k') = w_fs (wk_world k2).
Proof.
  unfold w_exclusive. intros (p & k1 & Hp & Hr)%wbind_Ret. apply disk_quiet in Hp as [Hp S1]; [|exact q_get_proc].
  apply get_proc_Ret in Hp as [-> F1].
  assert (Hd : ∀ n k u k', disk (set_proc_depth n) k = (Ret u, k') → same_parts k k' ∧ w_fs (wk_world k') = w_fs (wk_world k)).
  { intros n k2 u k3 Hd. apply disk_quiet in Hd as [Hd ?]; [|exact (q_depth n)]. split; [done|]. by injection Hd as _ <-. }
  assert (F1' : w_fs (wk_world k1) = w_fs (wk_world k)) by by rewrite F1.
  destruct (lock_depth (w_proc (clear_logs (wk_world k)))) as [|d].
  - apply wfinally_Ret in Hr as (k2 & u & Hr & Hf). apply Hd in Hf as [S2 F2].
    apply wbind_Ret in Hr as (u' & k3 & Ha & Hm). set (acquire := (_ ← open_lock maintenance_lock; _) : IO unit) in Ha.
    assert (Hq : quiet acquire) by (unfold acquire; quiet_solve).
    pose proof (keeps_fs acquire (clear_logs (wk_world k1)) ltac:(intros I; unfold acquire; io_keeps; apply k_depth)) as K.
    apply disk_quiet in Ha as [Ha S3]; [|exact Hq]. rewrite Ha in K. cbn in K.
    exists k3, k2. split; [done|]. split; [by eapply same_parts_trans|]. split; [congruence|]. done.
  - apply wbind_Ret in Hr as (u' & k3 & Ha & Hr). apply Hd in Ha as [S3 F3].
    apply wfinally_Ret in Hr as (k2 & u & Hr & Hf). apply Hd in Hf as [S2 F2].
    exists k3, k2. split; [done|]. split; [by eapply same_parts_trans|]. split; [congruence|]. done.
Qed.

Lemma on_reporter_Ret {A} (m : SE InventoryReporter A) k a k' :
  on_reporter m k = (Ret a, k') →
  ∃ r r', wk_reporter k = Some r ∧ m r = (Ok a, r') ∧ k' = set_reporter (Some r') k.
Proof.
  unfold on_reporter. destruct (wk_reporter k) as [r|]; [|done]. destruct (m r) as [[b|e] r'] eqn:E; [|done].
  intros [= <- <-]. by exists r, r'.
Qed.

Lemma held_removed keys r p : p ∈ held (removed keys r) ↔ p.1 ∉ keys ∧ p ∈ held r.
Proof.
  revert r; induction keys as [|key keys IH]; intros r; cbn.
  - split; [intros ?; split; [by apply not_elem_of_nil|done]|by intros [_ ?]].
  - fold (removed keys (remove key r)). rewrite IH. unfold remove, od_pop. cbn.
    rewrite list_elem_of_filter, not_elem_of_cons. tauto.
Qed.

Lemma held_removed_not keys r key : key ∈ keys → key ∉ (held (removed keys r)).*1.
Proof.
  intros Hk (p & -> & Hp)%list_elem_of_fmap. by apply held_removed in Hp as [Hn _].
Qed.
End runs.

(** ** The disk under a worker *)
Section under.
Context `{Torch, Sha, Uuid, JsonLoads, ObjectSizes}.

Definition disk_of (k : Worker) : FS := w_fs (wk_world k).

(** Nothing happened but to the locks, the journal and the faults. *)
Definition same_disk (k k' : Worker) : Prop := same_parts k k' ∧ disk_of k' = disk_of k.

Lemma same_disk_refl k : same_disk k k.
Proof. split; [apply same_parts_refl|done]. Qed.
Lemma same_disk_trans k1 k2 k3 : same_disk k1 k2 → same_disk k2 k3 → same_disk k1 k3.
Proof. intros [S1 F1] [S2 F2]. split; [by eapply same_parts_trans|congruence]. Qed.

Lemma disk_still {A} (m : IO A) k : quiet m → (∀ I, keeps I m) → same_disk k (disk m k).2.
Proof.
  intros Hq Hk. pose proof (disk_parts m k) as (Hp & Hw & _). cbn in Hp, Hw.
  pose proof (Hq (clear_logs (wk_world k))) as Hl. injection Hl as Hl1 Hl2. cbn in Hl1, Hl2.
  split; [|unfold disk_of; rewrite (Hw Hl2); exact (keeps_fs m (clear_logs (wk_world k)) Hk)].
  eapply same_parts_trans; [|exact Hp]. rewrite Hl1. unfold withdraw_hook. split_and!; try done. cbn. by destruct (wk_reporter k).
Qed.

Lemma record_event_disk (I : FS → Prop) name labels k :
  (∀ t, keeps I (_write t)) → I (disk_of k) → I (disk_of (record_event name labels k).2).
Proof.
  intros Hk Hw. unfold record_event. destruct (wk_journal k) as [t|]; [|done].
  pose proof (increment_keeps I name labels (VInt 1) t (wk_world k) Hk Hw) as Hi.
  by destruct (event_increment _ _ _ _ _) as [[[?|?|] ?] ?].
Qed.

Lemma quarantine_hook_disk (I : FS → Prop) l k :
  (∀ t, keeps I (_write t)) → I (disk_of k) → I (disk_of (quarantine_hook l k).2).
Proof.
  intros Hk. revert k; induction l as [|r l IH]; intros k Hw; [done|]. cbn [quarantine_hook]. unfold mbind, w_bind.
  pose proof (record_event_disk I (lit "spoolcache_quarantined_entries_total") [r] k Hk Hw) as Hr.
  destruct (record_event _ _ k) as [[a|e|] k1]; [by apply IH|done|done].
Qed.

(** An operation of the store, from the disk the operation itself left. *)
Lemma disk_after (I : FS → Prop) {A} (m : IO A) k :
  (∀ t, keeps I (_write t)) → I (w_fs (m (clear_logs (wk_world k))).2) → I (disk_of (disk m k).2).
Proof.
  intros Hk. unfold disk. destruct (m (clear_logs (wk_world k))) as [o w]. cbn. intros Hw.
  set (k1 := withdraw_hook (withdraw_log (w_proc w)) (on_world w k)).
  pose proof (quarantine_hook_disk I (quarantine_log (w_proc w)) k1 Hk Hw) as Hq.
  destruct o; [| |exact Hw]; by destruct (quarantine_hook _ k1) as [[?|?|] k2].
Qed.

(** What holds after the block, and is not about locks, holds after the locked block. *)
Lemma w_exclusive_run (J : Worker → Prop) {A} (m : W A) k :
  (∀ k1 k2, same_disk k1 k2 → J k1 → J k2) → J k → (∀ k1, same_disk k k1 → J (m k1).2) → J (w_exclusive m k).2.
Proof.
  intros HJ Hk Hm. unfold w_exclusive.
  assert (Hfin : ∀ (x : W A) n k1, J (x k1).2 → J (w_finally x (disk (set_proc_depth n)) k1).2).
  { intros x n k1 Hx. unfold w_finally. destruct (x k1) as [[a|e|] k2]; cbn in Hx; [| |exact Hx];
      pose proof (disk_still (set_proc_depth n) k2 (q_depth n) (λ I, k_depth I n)) as Hd;
      destruct (disk (set_proc_depth n) k2) as [[?|?|] k3]; cbn in *; by eapply HJ. }
  assert (Hgo : ∀ B (x : IO B) (y : W A) k1, quiet x → (∀ I, keeps I x) → same_disk k k1 →
    (∀ k2, same_disk k k2 → J (y k2).2) → J ((_ ← disk x; y) k1).2).
  { intros B x y k1 Hq Hx Hs Hy. pose proof (disk_still x k1 Hq Hx) as Hd. unfold mbind, w_bind.
    pose proof (same_disk_trans _ _ _ Hs Hd) as Hd'.
    destruct (disk x k1) as [[?|?|] k2]; cbn in *; [by apply Hy|by eapply HJ..]. }
  pose proof (disk_still get_proc k q_get_proc (λ I, k_get_proc I)) as Hd.
  unfold mbind at 1, w_bind at 1. destruct (disk get_proc k) as [[p|e|] k1]; cbn in Hd; [|by eapply HJ..].
  destruct (lock_depth p) as [|d].
  - apply Hfin, Hgo; [quiet_solve|intros I; io_keeps; apply k_depth|done|done].
  - apply Hgo; [apply q_depth|intros; apply k_depth|done|]. intros k2 Hs. by apply Hfin, Hm.
Qed.
End under.

(** ** Invariants of the worker *)
Create HintDb worker_keeps discriminated.

Section keeps.
Context `{Torch, Sha, Uuid, JsonLoads, ObjectSizes} (I : Worker → Prop).

Definition w_keeps {A} (m : W A) : Prop := ∀ k, I k → I (m k).2.

Lemma wk_return {A} (a : A) : w_keeps (w_return a).
Proof. intros k Hk. exact Hk. Qed.
Lemma wk_raise {A} c msg : w_keeps (@w_raise _ A c msg).
Proof. intros k Hk. exact Hk. Qed.
Lemma wk_lift {A} (r : result A) : w_keeps (w_lift r).
Proof. intros k Hk. by destruct r. Qed.
Lemma wk_get : w_keeps w_get.
Proof. intros k Hk. exact Hk. Qed.
(** The rest may use the run of the first part. *)
Lemma wk_bind_run {A B} (m : W A) (f : A → W B) :
  w_keeps m → (∀ a k k1, I k → m k = (Ret a, k1) → I k1 → I (f a k1).2) → w_keeps (m ≫= f).
Proof.
  intros Hm Hf k Hk. pose proof (Hm k Hk) as Hk1. unfold mbind, w_bind. destruct (m k) as [[a|e|] k1] eqn:E; cbn in *;
    [by apply (Hf a k k1)|done|done].
Qed.
Lemma wk_bind {A B} (m : W A) (f : A → W B) : w_keeps m → (∀ a, w_keeps (f a)) → w_keeps (m ≫= f).
Proof. intros Hm Hf. apply wk_bind_run; [done|]. intros a k k1 _ _. apply Hf. Qed.
Lemma wk_try {A} (m : W A) h : w_keeps m → (∀ e n, h e = Some n → w_keeps n) → w_keeps (w_try m h).
Proof.
  intros Hm Hh k Hk. specialize (Hm k Hk). unfold w_try. destruct (m k) as [[a|e|] k1]; cbn in *; [done| |done].
  destruct (h e) as [n|] eqn:E; [|done]. by apply (Hh e n E).
Qed.
Lemma wk_finally {A} (m : W A) f : w_keeps m → w_keeps f → w_keeps (w_finally m f).
Proof.
  intros Hm Hf k Hk. specialize (Hm k Hk). unfold w_finally.
  destruct (m k) as [[a|e|] k1]; cbn in *; [| |done]; specialize (Hf k1 Hm); by destruct (f k1) as [[?|?|] k2].
Qed.
Lemma wk_each {A} (f : A → W unit) l : (∀ x, x ∈ l → w_keeps (f x)) → w_keeps (w_each f l).
Proof.
  induction l as [|x l IH]; intros Hf; [by apply wk_return|]. cbn. apply wk_bind; [apply Hf; by left|]. intros _. apply IH.
  intros y Hy. apply Hf. by right.
Qed.
End keeps.

Ltac w_keeps_step :=
  cbv beta zeta;
  lazymatch goal with
  | |- w_keeps _ (w_return _) => apply wk_return
  | |- w_keeps _ (w_raise _ _) => apply wk_raise
  | |- w_keeps _ (w_lift _) => apply wk_lift
  | |- w_keeps _ w_get => apply wk_get
  | |- w_keeps _ (w_modify _) => intros ? ?; assumption
  | |- w_keeps _ (mbind _ _) => apply wk_bind; [|intros ?]
  | |- w_keeps _ (w_try _ _) => apply wk_try; [|intros ? ? ?]
  | |- w_keeps _ (w_finally _ _) => apply wk_finally
  | |- w_keeps _ (w_each _ _) => apply wk_each; intros ? ?
  | |- w_keeps _ (match _ with _ => _ end) => case_match
  | H : Some _ = Some _ |- _ => injection H as <-
  end.
Ltac w_keeps := repeat (assumption || solve [eauto 2 with worker_keeps] || w_keeps_step).
