(* ===== verification/WorkerProps.v ===== *)
(** * What a worker promises

    What it advertises respects the durable withdrawals; the restores of a step are
    complete or the process ends; the capacity round at its start ends; storing
    advertises what was stored; a scrub that failed withdraws the catalog. *)
From S2P Require Import Prelude Dict Bytes Config Prefix Telemetry Inventory Reporter ReporterInv Json Hma HmaSpec Manifest Gpu GpuCopy GpuPages Io RankStore IoSpec FsInv TokenFiles TokenHeader StoreOps StoreInv StoreSystem StoreFence StoreEpochs StoreLookup StoreCommit TokenBatches TokenStream TokenMover MoverSpec MoverSave MoverTrip StoreGc EventJournal JournalSpec Scheduler Handshake Worker WorkerSpec.

(** ** Acknowledging sets no marker *)
Section marks.
Context (P : pystr → Prop).

Definition marked_in (fs : FS) : Prop := ∀ key, marked_key fs key → P key.

Lemma k_fsync_marked d : keeps marked_in (sys_fsync_dir d).
Proof. apply t_fsync_dir; [done|]. by intros fs Hfs _. Qed.

Lemma k_clear_marked e : keeps marked_in (_clear_inventory_withdrawal e).
Proof.
  unfold _clear_inventory_withdrawal, _clear_digest_marker. pose proof k_fsync_marked.
  assert (∀ p, keeps marked_in (sys_rmdir p)); [|io_keeps].
  intros p. apply t_rmdir; [done|]. intros fs Hfs _ _ key. unfold marked_key, set_name. cbn.
  rewrite lookup_partial_alter. case_decide; [done|apply Hfs].
Qed.

Lemma k_acknowledge_marked l : keeps marked_in (acknowledge_absent_inventory_withdrawals l).
Proof.
  unfold acknowledge_absent_inventory_withdrawals. pose proof k_clear_marked. pose proof k_fsync_marked.
  unfold acknowledge_absent, _fsync_manifest_absence_locked, _manifest_path. io_keeps.
Qed.
End marks.

Section worker.
Context `{Torch, Sha, Uuid, JsonLoads, ObjectSizes}.

(** ** Markers and images *)
Lemma removed_wf keys r : reporter_wf r → reporter_wf (removed keys r).
Proof. revert r; induction keys as [|key keys IH]; intros r Hr; [done|]. cbn. by apply IH, remove_wf. Qed.

Lemma next_report_parts b r report r' :
  reporter_wf r → next_report b r = (Ok report, r') →
  held r' = held r ∧ ∀ e, e ∈ ck_entries (r_checkpoint report) → e ∈ held r.
Proof.
  intros Hwf Hr. unfold next_report in Hr. destruct (need_int _ _ _ _) as [n|]; [|done].
  assert (Hh : held (settle n r) = held r) by (unfold settle; cbv zeta; by destruct (_ && _)).
  pose proof (settle_wf n r Hwf) as Hwf1. pose proof (settle_sub_held n r Hwf) as Hsub.
  set (r1 := settle n r) in *. clearbody r1.
  assert (Ha : held (advance_page n r1) = held r1) by (unfold advance_page; cbv zeta; by destruct (_ <=? _)).
  destruct (rotate_delta (advance_page n r1)) as [d r2] eqn:Ed. injection Hr as <- <-.
  assert (Hd : held r2 = held (advance_page n r1)).
  { unfold rotate_delta in Ed. destruct (history _); by injection Ed as _ <-. }
  split; [congruence|]. cbn. intros [key s] (i & Hi & _)%elem_of_take.
  rewrite lookup_drop in Hi. apply list_elem_of_lookup_2 in Hi. rewrite (proj2 (rw_checkpoint _ Hwf1)) in Hi.
  apply elem_of_map_to_list in Hi. rewrite map_subseteq_spec in Hsub. apply Hsub in Hi.
  apply held_lookup in Hi; [by rewrite <-Hh|apply Hwf1].
Qed.

(** The entries carry no key whose marker stands. *)
Definition unmarked (k : Worker) (l : list (pystr * Z)) : Prop := ∀ e, e ∈ l → ¬ marked_key (w_fs (wk_world k)) e.1.

Definition image_clear (k : Worker) (l : list (pystr * Z)) : Prop :=
  unmarked k l ∧ ∃ r, wk_reporter k = Some r ∧ unmarked k (held r).

(** The marker batch withdraws from the reporter every key marked at that moment. *)
Lemma marker_batch_withdraws limit after k batch k' r :
  disk (inventory_withdrawal_marker_batch limit after true) k = (Ret batch, k') →
  wk_reporter k = Some r → reporter_wf r →
  ∃ r', wk_reporter k' = Some r' ∧ reporter_wf r' ∧ unmarked k' (held r').
Proof.
  intros (w & Hb & Hp & Hw)%disk_Ret Hr Hwf. apply marker_batch_Ret in Hb as (F & Q & more & M & Hin).
  specialize (Hw Q). destruct Hp as (_ & _ & _ & Hrep & _). unfold withdraw_hook in Hrep. cbn in Hrep.
  rewrite Hr in Hrep. cbn in Hrep. cbn in M. eexists. split; [exact Hrep|].
  fold (removed (withdraw_log (w_proc w)) r). split; [by apply removed_wf|].
  intros e He Hm. apply held_removed in He as [Hn _]. apply Hn. rewrite M. apply Hin.
  rewrite Hw, F in Hm. exact Hm.
Qed.

Lemma disk_acknowledge l k u k' :
  disk (acknowledge_absent_inventory_withdrawals l) k = (Ret u, k') →
  same_parts k k' ∧ ∀ entries, unmarked k entries → unmarked k' entries.
Proof.
  intros Ha. apply disk_quiet in Ha as [Ha S]; [|apply q_acknowledge]. split; [done|]. intros entries Hu e He Hm.
  pose proof (k_acknowledge_marked (marked_key (w_fs (wk_world k))) l (clear_logs (wk_world k)) (λ _ H, H)) as Hk.
  rewrite Ha in Hk. by apply (Hu e He), Hk.
Qed.

Lemma wmodify_Ret f u k k' : w_modify f k = (Ret u, k') ↔ k' = f k.
Proof. unfold w_modify. destruct u. split; [by intros [= <-]|by intros ->]. Qed.

Lemma report_clear k report k' r0 :
  wk_reporter k = Some r0 → reporter_wf r0 → inventory_report k = (Ret report, k') →
  image_clear k' (ck_entries (r_checkpoint report)).
Proof.
  intros Hr Hwf (k1 & k2 & Hm & S1 & F1 & S2 & F2)%w_exclusive_Ret.
  assert (Hr1 : wk_reporter k1 = Some r0) by (destruct S1 as (_ & _ & _ & S1 & _); congruence).
  apply wbind_Ret in Hm as (? & ? & [-> ->]%wget_Ret & Hm). apply wbind_Ret in Hm as (batch & k3 & Hb & Hm).
  destruct (marker_batch_withdraws _ _ _ _ _ _ Hb Hr1 Hwf) as (r3 & Hr3 & Hwf3 & Hu3).
  apply wbind_Ret in Hm as (report' & k4 & Hn & Hm). apply on_reporter_Ret in Hn as (r & r4 & Hr' & Hn & ->).
  rewrite Hr3 in Hr'. injection Hr' as <-. destruct (next_report_parts _ _ _ _ Hwf3 Hn) as [Hh Hc].
  apply wbind_Ret in Hm as (? & k5 & Ha & Hm). apply disk_acknowledge in Ha as [S5 Hu5].
  apply wbind_Ret in Hm as (? & k6 & ->%wmodify_Ret & Hm). apply wreturn_Ret in Hm as [-> ->].
  assert (Hall : unmarked k' (held r4)).
  { intros e He. rewrite F2. apply (Hu5 (held r4)); [|done]. rewrite Hh. exact Hu3. }
  split.
  - intros e He. apply Hall. rewrite Hh. by apply Hc.
  - exists r4. split; [|done]. destruct S2 as (_ & _ & _ & S2 & _), S5 as (_ & _ & _ & S5 & _).
    rewrite S2. cbn. by rewrite S5.
Qed.

Lemma startup_clear offers k u k' r0 :
  wk_reporter k = Some r0 → reporter_wf r0 → startup_image offers k = (Ret u, k') → image_clear k' (wk_startup k').
Proof.
  intros Hr Hwf (k1 & k2 & Hm & S1 & F1 & S2 & F2)%w_exclusive_Ret.
  assert (Hr1 : wk_reporter k1 = Some r0) by (destruct S1 as (_ & _ & _ & S1 & _); congruence).
  apply wbind_Ret in Hm as (? & k3 & Hp & Hm). apply on_reporter_Ret in Hp as (r & r3 & Hr' & Hp & ->).
  rewrite Hr1 in Hr'. injection Hr' as <-. pose proof (replace_wf (offer_entries offers) r0 Hwf) as Hwf3.
  rewrite Hp in Hwf3. cbn in Hwf3.
  apply wbind_Ret in Hm as (batch & k4 & Hb & Hm).
  destruct (marker_batch_withdraws _ _ _ _ _ r3 Hb eq_refl Hwf3) as (r4 & Hr4 & Hwf4 & Hu4).
  apply wbind_Ret in Hm as (inventory & k5 & Hn & Hm). apply on_reporter_Ret in Hn as (r & r5 & Hr' & Hn & ->).
  rewrite Hr4 in Hr'. injection Hr' as <-. unfold startup in Hn. injection Hn as <- <-.
  apply wbind_Ret in Hm as (? & k6 & Ha & Hm). apply disk_acknowledge in Ha as [S6 Hu6].
  apply wbind_Ret in Hm as (? & k7 & ->%wmodify_Ret & ->%wmodify_Ret).
  destruct S2 as (_ & _ & _ & S2 & _ & _ & _ & _ & _ & St2), S6 as (_ & _ & _ & S6 & _). cbn in *.
  assert (Hall : unmarked k' (held r4)).
  { intros e He. rewrite F2. by apply (Hu6 (held r4)). }
  split.
  - rewrite St2. intros e He. apply Hall. by rewrite (py_sorted_items_perm (held r4)) in He.
  - eexists. split; [rewrite S2; exact S6|]. exact Hall.
Qed.

(** C11: what a worker advertises respects the durable withdrawals.  When it has built its
    startup inventory, and when it has built any rolling report, no key whose withdrawal
    marker stands on disk is in the image it sends, nor in the catalog its later reports
    are built from: markers left by another process or by an earlier crash are consumed
    before anything is said. *)
Theorem adverts_respect_markers (k k' : Worker) (r0 : InventoryReporter) :
  wk_reporter k = Some r0 → reporter_wf r0 →
  (∀ report, inventory_report k = (Ret report, k') → image_clear k' (ck_entries (r_checkpoint report))) ∧
  (∀ offers u, startup_image offers k = (Ret u, k') → image_clear k' (wk_startup k')).
Proof.
  intros Hr Hwf. split; [intros report; by apply (report_clear _ _ _ r0)|intros offers u; by apply (startup_clear _ _ u _ r0)].
Qed.
End worker.

(** * Restores of a step: complete, or the process ends *)

Section worker.
Context `{Torch, Sha, Uuid, JsonLoads, ObjectSizes} (elapsed : num) (trigger_bytes : Z).

(** The only exception of a restore is the fatal one. *)
Lemma restore_entry_fatal mv st key span tables expected m w e w' :
  restore_entry mv st key span tables expected m w = (Exc e, w') → exn_class e = FatalRestoreError.
Proof.
  unfold restore_entry, fatal, try_with. destruct (restore_view _ _ _ w) as [[?|e1|] w1]; [done| |done].
  case_decide as E; [by intros [= <- <-]|]. unfold throw. by intros [= <- <-].
Qed.

Lemma fatal_restore_dead {A} plan e k : (fatal_restore (A := A) plan e k).1 = Dead.
Proof.
  unfold fatal_restore, mbind, w_bind, record_event. destruct (wk_journal k) as [t|]; [|done].
  by destruct (event_increment _ _ _ t _) as [[[?|?|] ?] ?].
Qed.

(** One restore of the step, at the memory it leaves. *)
Definition restored_by mv st (plan : SpoolCachePlan) (m m' : device) : Prop :=
  ∃ w s w', restore_entry mv st (sp_entry_id plan) (sp_span_tokens plan) (table_arg (sp_block_ids plan)) None m w
            = (Ret (s, m'), w').

Inductive restores mv st : list SpoolCachePlan → device → device → Prop :=
  | restores_nil m : restores mv st [] m m
  | restores_cons plan plans m1 m2 m3 :
      restored_by mv st plan m1 m2 → restores mv st plans m2 m3 → restores mv st (plan :: plans) m1 m3.

Lemma metrics_device (m : SE TelemetryBuffer unit) k : wk_device (on_buffer m k).2 = wk_device k.
Proof. unfold on_buffer. destruct (wk_telemetry k) as [b|]; [|done]. by destruct (m b) as [[?|?] ?]. Qed.

(** A restore of the worker returns with the pages written, or the process is dead;
    otherwise only a metric failed, after the pages were written. *)
Lemma restore_plan_outcome mv st plan k o k' :
  restore_plan elapsed mv st plan k = (o, k') → o = Dead ∨ restored_by mv st plan (wk_device k) (wk_device k').
Proof.
  unfold restore_plan, mbind at 1, w_bind at 1, w_get. unfold mbind at 1, w_bind at 1, w_try.
  set (io := restore_entry _ _ _ _ _ _ _). destruct (disk_parts io k) as (Hp & _ & Ho).
  destruct (io (clear_logs (wk_world k))) as [oo w] eqn:E. cbn [fst snd] in *.
  destruct (disk io k) as [[r|e|] k1]; cbn in Ho.
  - destruct Ho as [<-|[=]]. destruct r as [s m']. unfold mbind at 1, w_bind at 1, w_modify. cbn [fst snd].
    intros Hr. right. exists (clear_logs (wk_world k)), s, w.
    assert (wk_device k' = m') as ->; [|exact E].
    change (wk_telemetry (set_device m' k1)) with (wk_telemetry k1) in Hr.
    destruct (wk_telemetry k) as [b|]; [|by injection Hr as _ <-].
    unfold mbind, w_bind, w_lift in Hr. destruct (_manifest_logical_bytes s) as [n|e]; [|by injection Hr as _ <-].
    unfold w_count in Hr. pose proof (metrics_device (increment (MStr (lit "spoolcache_restore_bytes_total"))
      (MNum (NInt n)) (MStr ∘ lit <$> [])) (set_device m' k1)) as Hd.
    destruct (on_buffer _ (set_device m' k1)) as [[?|?|] k2]; cbn in Hd; try by injection Hr as _ <-.
    unfold w_observe in Hr. rewrite <-Hd. change m' with (wk_device (set_device m' k1)).
    pose proof (metrics_device (observe (MStr (lit "spoolcache_restore_seconds")) (MNum elapsed) []) k2) as Hd2.
    by rewrite Hr in Hd2.
  - destruct Ho as [<-|[=]]. apply restore_entry_fatal in E. rewrite decide_True by done.
    pose proof (fatal_restore_dead (A := TokenSnapshot * device) plan e k1) as Hdead.
    destruct (fatal_restore plan e k1) as [[?|?|] ?]; cbn in Hdead; try done. intros [= <- _]. by left.
  - intros [= <- _]. by left.
Qed.

Lemma restore_plan_fails mv st plan k :
  (∀ r w', restore_entry mv st (sp_entry_id plan) (sp_span_tokens plan) (table_arg (sp_block_ids plan)) None
             (wk_device k) (clear_logs (wk_world k)) ≠ (Ret r, w')) →
  (restore_plan elapsed mv st plan k).1 = Dead.
Proof.
  intros Hn. unfold restore_plan, mbind at 1, w_bind at 1, w_get. unfold mbind at 1, w_bind at 1, w_try.
  set (io := restore_entry _ _ _ _ _ _ _) in *. destruct (disk_parts io k) as (_ & _ & Ho).
  destruct (io (clear_logs (wk_world k))) as [oo w] eqn:E. cbn [fst snd] in *.
  destruct (disk io k) as [[r|e|] k1]; cbn in Ho; [| |done].
  - destruct Ho as [<-|[=]]. by destruct (Hn r w).
  - destruct Ho as [<-|[=]]. apply restore_entry_fatal in E. rewrite decide_True by done.
    pose proof (fatal_restore_dead (A := TokenSnapshot * device) plan e k1) as Hdead.
    by destruct (fatal_restore plan e k1) as [[?|?|] ?].
Qed.

Lemma restore_plans_outcome mv st plans : ∀ k o k',
  w_each (restore_plan elapsed mv st) plans k = (o, k') → o = Dead ∨
  ∃ begun rest, plans = begun ++ rest ∧ restores mv st begun (wk_device k) (wk_device k') ∧ (o = Ret tt → rest = []).
Proof.
  induction plans as [|plan plans IH]; intros k o k'; cbn [w_each].
  - intros [= <- <-]. right. exists [], []. split; [done|]. split; [constructor|done].
  - unfold mbind, w_bind. destruct (restore_plan elapsed mv st plan k) as [o1 k1] eqn:E.
    apply restore_plan_outcome in E as [->|E]; [intros [= <- _]; by left|]. destruct o1 as [u|e|].
    + intros [->|(begun & rest & -> & Hb & Hr)]%IH; [by left|]. right. exists (plan :: begun), rest.
      split; [done|]. split; [by econstructor|done].
    + intros [= <- <-]. right. exists [plan], plans. split; [done|]. split; [|done]. econstructor; [done|constructor].
    + intros [= <- _]. by left.
Qed.

Lemma w_each_app {A} (f : A → W unit) l1 l2 k :
  w_each f (l1 ++ l2) k = (w_each f l1 ≫= λ _, w_each f l2) k.
Proof.
  revert k; induction l1 as [|x l1 IH]; intros k; [done|]. cbn. unfold mbind, w_bind.
  destruct (f x k) as [[u|e|] k1]; [|done|done]. apply IH.
Qed.

Lemma w_each_one {A} (f : A → W unit) x k : (f x k).1 = Dead → ∀ l, (w_each f (x :: l) k).1 = Dead.
Proof. intros Hd l. cbn. unfold mbind, w_bind. destruct (f x k) as [[?|?|] ?]; done. Qed.

(** ** Storing leaves the pages *)
Section still.
Context (m0 : device).
Notation still := (w_keeps (λ k, wk_device k = m0)).

Lemma still_disk {A} (m : IO A) : still (disk m).
Proof. intros k. destruct (disk_parts m k) as ((Hd & _) & _ & _). by rewrite Hd. Qed.
Lemma still_buffer m : still (on_buffer m).
Proof. intros k Hk. by rewrite metrics_device. Qed.
Lemma still_reporter {A} (m : SE InventoryReporter A) : still (on_reporter m).
Proof. intros k Hk. unfold on_reporter. destruct (wk_reporter k) as [r|]; [|done]. by destruct (m r) as [[?|?] ?]. Qed.
Local Hint Resolve still_disk still_buffer still_reporter : worker_keeps.

Lemma still_exclusive {A} (m : W A) : still m → still (w_exclusive m).
Proof. intros Hm. unfold w_exclusive. w_keeps. Qed.
Local Hint Resolve still_exclusive : worker_keeps.

Lemma still_events cursor l : still (count_events cursor l).
Proof. induction l as [|[key total] l IH]; cbn [count_events]; w_keeps. Qed.
Local Hint Resolve still_events : worker_keeps.

Lemma still_metrics force due : still (_refresh_worker_metrics force due).
Proof. unfold _refresh_worker_metrics, w_gauge. w_keeps. Qed.

Lemma still_maintain : still (_maintain_capacity trigger_bytes).
Proof. unfold _maintain_capacity, maintain_round, maintain_failed. w_keeps. apply still_exclusive. w_keeps. Qed.

Lemma still_store mv st plan : still (store_plan elapsed mv st plan).
Proof. unfold store_plan, commit_plan, w_count, w_observe. w_keeps. apply still_exclusive. w_keeps. Qed.

Lemma still_stores plans : still (_commit_store_plans elapsed trigger_bytes plans).
Proof.
  unfold _commit_store_plans, _worker_data_path. pose proof still_store. pose proof still_maintain. pose proof still_metrics.
  w_keeps; done.
Qed.
End still.

Lemma stores_device plans k o k' :
  _commit_store_plans elapsed trigger_bytes plans k = (o, k') → wk_device k' = wk_device k.
Proof. intros Hr. pose proof (still_stores (wk_device k) plans k eq_refl) as Hd. by rewrite Hr in Hd. Qed.

(** C10: a step restores everything it was told to, or the process ends.  When loading the
    caches of a step does not end the process, the restores of the step were made in
    order, each one writing to the pages left by the one before: all of them, unless a
    metric raised in between.  Only the restores write pages.  When one of them cannot be completed, the process ends: no
    forward pass runs over pages that hold anything else. *)
Theorem restore_or_terminate (metadata : SpoolCacheMetadata) (k : Worker) (mv : TorchPageMover) (st : TokenFileStore) :
  wk_mover k = Some mv → wk_store k = Some st →
  (∀ o k', start_load_kv elapsed trigger_bytes metadata k = (o, k') → o ≠ Dead →
    ∃ begun rest, loads metadata = begun ++ rest ∧ restores mv st begun (wk_device k) (wk_device k') ∧
      (o = Ret tt → rest = [])) ∧
  (∀ begun plan rest k1, loads metadata = begun ++ plan :: rest →
    w_each (restore_plan elapsed mv st) begun k = (Ret tt, k1) →
    (∀ r w', restore_entry mv st (sp_entry_id plan) (sp_span_tokens plan) (table_arg (sp_block_ids plan)) None
               (wk_device k1) (clear_logs (wk_world k1)) ≠ (Ret r, w')) →
    (start_load_kv elapsed trigger_bytes metadata k).1 = Dead).
Proof.
  intros Hmv Hst.
  assert (Hpath : ∀ A (f : TorchPageMover * TokenFileStore → W A), (_worker_data_path ≫= f) k = f (mv, st) k).
  { intros A f. unfold _worker_data_path, mbind, w_bind, w_get, w_return. by rewrite Hmv, Hst. }
  split.
  - intros o k'. unfold start_load_kv. destruct (decide (loads metadata = [])) as [Hl|Hl].
    + rewrite (bool_decide_true _ Hl), Hl. unfold mbind at 1, w_bind at 1, w_return at 1. intros Hr _. exists [], []. split; [done|].
      split; [|done]. case_bool_decide; [injection Hr as _ <-; constructor|].
      apply stores_device in Hr as ->. constructor.
    + rewrite (bool_decide_false _ Hl). unfold mbind at 1, w_bind at 1. rewrite Hpath. cbn [fst snd].
      destruct (w_each (restore_plan elapsed mv st) (loads metadata) k) as [o1 k1] eqn:E.
      apply restore_plans_outcome in E as [->|(begun & rest & Hb & Hr & Ho)]; [by intros [= <- _]|].
      destruct o1 as [u|e|].
      * destruct u. specialize (Ho eq_refl). subst rest. intros Hs _. exists begun, [].
        split; [done|]. split; [|done]. case_bool_decide; [by injection Hs as _ <-|].
        by apply stores_device in Hs as ->.
      * intros [= <- <-] _. by exists begun, rest.
      * by intros [= <- _].
  - intros begun plan rest k1 Hl Hb Hf. unfold start_load_kv.
    rewrite (bool_decide_false (loads metadata = [])) by (rewrite Hl; by destruct begun).
    unfold mbind at 1, w_bind at 1. rewrite Hpath. cbn [fst snd]. rewrite Hl, w_each_app.
    unfold mbind at 1, w_bind at 1. rewrite Hb.
    pose proof (w_each_one (restore_plan elapsed mv st) plan k1 (restore_plan_fails mv st plan k1 Hf) rest) as Hd.
    by destruct (w_each _ (plan :: rest) k1) as [[?|?|] ?].
Qed.
End worker.

(** * Starting a worker: the capacity round before the startup inventory *)

Section start.
Context `{Torch, Sha, Uuid, JsonLoads, ObjectSizes} (trigger_bytes : Z).

(** A running quota that is not exhausted has lost at least one candidate. *)
Lemma maintain_progress st trigger remaining w r w' :
  maintain_capacity_batch st (VInt trigger) (VInt remaining) w = (Ret (Some r), w') →
  0 < candidates_remaining r → 1 ≤ candidates_attempted r.
Proof.
  unfold maintain_capacity_batch. intros Hr.
  apply bind_Ret in Hr as (t & w1 & Ht & Hr). apply lift_Ret in Ht as [Ht ->].
  apply bind_Ret in Hr as (q & w1 & Hq & Hr). apply lift_Ret in Hq as [Hq ->].
  apply need_int_Ok in Ht as [Ht Htb]. apply need_int_Ok in Hq as [Hq Hqb]. cbn in Ht, Hq. simplify_eq. bsimp.
  apply try_exclusive_Ret in Hr as (w1 & w2 & Hr).
  apply bind_Ret in Hr as (before & w3 & _ & Hr). destruct ((q =? 0) && (before <? t)) eqn:Eq.
  { apply ret_Ret in Hr as [-> _]. cbn. lia. }
  apply bind_Ret in Hr as (keys & w4 & _ & Hr). apply bind_Ret in Hr as (found & w5 & _ & Hr). cbv zeta in Hr.
  set (selected := take 4 (merge_sort age_le found.2)) in *.
  set (quota := if q =? 0 then Z.max 1 (found.1 / 5) else q) in *.
  apply bind_Ret in Hr as (removed & w6 & _ & Hr). apply bind_Ret in Hr as (after & w7 & _ & Hr).
  apply ret_Ret in Hr as [-> _]. cbn [candidates_remaining candidates_attempted].
  assert (0 < quota) as Hquota by (unfold quota; case_match; bsimp; lia).
  rewrite length_take. destruct (Z.min 4 quota <=? Z.of_nat (length selected)) eqn:E; bsimp; lia.
Qed.

(** The rounds end: with more fuel than candidates left, the result does not depend on
    the fuel. *)
Lemma capacity_rounds_end st fuel : ∀ remaining w,
  0 ≤ remaining → (0 < remaining → (Z.to_nat remaining < fuel)%nat) → (0 < fuel)%nat →
  remaining ≠ 0 →
  (capacity_rounds trigger_bytes fuel st remaining w).1 ≠ Ret None ∧
  ∀ more, (fuel ≤ more)%nat → capacity_rounds trigger_bytes more st remaining w = capacity_rounds trigger_bytes fuel st remaining w.
Proof.
  induction fuel as [|fuel IH]; intros remaining w Hr Hf Hpos Hne; [lia|]. cbn [capacity_rounds]. unfold mbind, io_bind.
  split.
  - destruct (maintain_capacity_batch _ _ _ w) as [[[r|]|e|] w1] eqn:E; [|done|done|done].
    destruct (candidates_remaining r =? 0) eqn:Ez; [done|]. bsimp.
    destruct (maintain_bounds _ _ _ _ _ _ E) as (_ & _ & _ & _ & _ & _ & Hc & Hdec & _).
    pose proof (maintain_progress _ _ _ _ _ _ E). apply IH; lia.
  - intros [|more] Hm; [lia|]. cbn [capacity_rounds]. unfold mbind, io_bind.
    destruct (maintain_capacity_batch _ _ _ w) as [[[r|]|e|] w1] eqn:E; [|done|done|done].
    destruct (candidates_remaining r =? 0) eqn:Ez; [done|]. bsimp.
    destruct (maintain_bounds _ _ _ _ _ _ E) as (_ & _ & _ & _ & _ & _ & Hc & Hdec & _).
    pose proof (maintain_progress _ _ _ _ _ _ E). apply IH; lia.
Qed.

Lemma capacity_rounds_start st w :
  ∃ fuel, (capacity_rounds trigger_bytes fuel st 0 w).1 ≠ Ret None ∧
  ∀ more, (fuel ≤ more)%nat → capacity_rounds trigger_bytes more st 0 w = capacity_rounds trigger_bytes fuel st 0 w.
Proof.
  destruct (maintain_capacity_batch st (VInt trigger_bytes) (VInt 0) w) as [o w1] eqn:E.
  exists (S (match o with Ret (Some r) => S (Z.to_nat (candidates_remaining r)) | _ => 0 end)).
  cbn [capacity_rounds]. unfold mbind, io_bind. rewrite E. split.
  - destruct o as [[r|]|e|]; [|done|done|done]. destruct (candidates_remaining r =? 0) eqn:Ez; [done|]. bsimp.
    destruct (maintain_bounds _ _ _ _ _ _ E) as (_ & _ & _ & _ & _ & _ & Hc & _). apply capacity_rounds_end; lia.
  - intros [|more] Hm; [lia|]. cbn [capacity_rounds]. unfold mbind, io_bind. rewrite E.
    destruct o as [[r|]|e|]; [|done|done|done]. destruct (candidates_remaining r =? 0) eqn:Ez; [done|]. bsimp.
    destruct (maintain_bounds _ _ _ _ _ _ E) as (_ & _ & _ & _ & _ & _ & Hc & _). apply capacity_rounds_end; lia.
Qed.
(** A critical section runs its body once, at a world that does not depend on it. *)
Lemma finally_at {A} n : ∃ F : outcome A * World → outcome A * World,
  (∀ r a, (F r).1 = Ret a → r.1 = Ret a) ∧ ∀ (m : IO A) w, finally m (set_proc_depth n) w = F (m w).
Proof.
  exists (λ r, finally (λ _, r) (set_proc_depth n) r.2). split.
  - intros [[b|e|] w] a; cbn; by intros [= ->] || done.
  - intros m w. unfold finally. by destruct (m w) as [[b|e|] w1].
Qed.

Lemma exclusive_at {A} w : ∃ w1 (F : outcome A * World → outcome A * World),
  (∀ r a, (F r).1 = Ret a → r.1 = Ret a) ∧ ∀ m : IO A, exclusive m w = F (m w1).
Proof.
  assert (Hbind : ∀ B (act : IO B) n w, ∃ w1 (F : outcome A * World → outcome A * World),
    (∀ r a, (F r).1 = Ret a → r.1 = Ret a) ∧
    ∀ m : IO A, finally (_ ← act; m) (set_proc_depth n) w = F (m w1)).
  { intros B act n w0. destruct (finally_at (A := A) n) as (F & HF & Hm). destruct (act w0) as [[b|e|] w1] eqn:E.
    - exists w1, F. split; [done|]. intros m. rewrite Hm. unfold mbind, io_bind. by rewrite E.
    - exists w1, (λ _, F (Exc e, w1)). split; [intros r a Ha; by apply HF in Ha|].
      intros m. rewrite Hm. unfold mbind, io_bind. by rewrite E.
    - exists w1, (λ _, F (Dead, w1)). split; [intros r a Ha; by apply HF in Ha|].
      intros m. rewrite Hm. unfold mbind, io_bind. by rewrite E. }
  destruct (lock_depth (w_proc w)) as [|d] eqn:Ed.
  - destruct (Hbind unit (_ ← open_lock maintenance_lock; _ ← flock; _ ← open_regular namespace_lock; _ ← flock;
      set_proc_depth 1%nat) 0%nat w) as (w1 & F & HF & Hm).
    exists w1, F. split; [done|]. intros m. rewrite <-Hm. unfold exclusive, finally, mbind, io_bind, get_proc. rewrite Ed. clear.
    destruct (open_lock maintenance_lock w) as [[?|?|] w1]; [|done|done]. destruct (flock w1) as [[?|?|] w2]; [|done|done].
    destruct (open_regular namespace_lock w2) as [[?|?|] w3]; [|done|done]. by destruct (flock w3) as [[?|?|] w4].
  - destruct (finally_at (A := A) (S d)) as (F & HF & Hm). exists (set_proc_depth (S (S d)) w).2, F. split; [done|].
    intros m. rewrite <-Hm. unfold exclusive, mbind, io_bind, get_proc. by rewrite Ed.
Qed.

(** C14: a worker starts with at most one percentage round of capacity maintenance: the
    loop before the startup inventory ends.  For every store in every state there is a
    number of rounds after which it has returned, raised or died, with a result that
    more fuel does not change. *)
Theorem startup_round_terminates (st : TokenFileStore) (w : World) :
  ∃ fuel, (_prepare_worker_catalog trigger_bytes fuel st w).1 ≠ Ret None ∧
    ∀ more, (fuel ≤ more)%nat →
      _prepare_worker_catalog trigger_bytes more st w = _prepare_worker_catalog trigger_bytes fuel st w.
Proof.
  destruct (exclusive_at (A := option (list ManifestOffer)) w) as (w1 & F & HF & Hm).
  destruct (capacity_rounds_start st w1) as (fuel & Hend & Hsame). exists fuel. unfold _prepare_worker_catalog. split.
  - rewrite Hm. intros Ha%HF. revert Ha. unfold mbind, io_bind. destruct (capacity_rounds _ _ _ _ w1) as [[[[]|]|e|] w2]; [|done..].
    by destruct (_scan_worker_catalog st w2) as [[?|?|] ?].
  - intros more Hmore. rewrite !Hm. f_equal. unfold mbind, io_bind. by rewrite Hsame.
Qed.
End start.

(** * What storing adds to the catalog of a worker *)

(** ** What the steps of a save keep of the disk *)
Section steady.
Context `{Torch, Sha, Uuid, JsonLoads, ObjectSizes}.

Lemma k_prepared_journal t : keeps prepared (_write t).
Proof.
  apply (k_event_write prepared_inv); intros; [|by apply base_state].
  by apply base_state_scratch, dot_name.
Qed.

Lemma k_untouched_journal key fs0 t : keeps (untouched key fs0) (_write t).
Proof.
  apply (k_event_write (untouched_inv key fs0)); intros.
  - split; [by apply base_state_scratch, dot_name|by intros [=]].
  - split; [by apply base_state|]. split; by intros [=].
Qed.

Lemma k_prepared_save layout kv slot count mv st prefixes tables m :
  valid_layout layout → mover_init layout kv slot count = Ok mv → 0 < st_slot_bytes st →
  keeps prepared (commit_keys mv st prefixes tables m).
Proof.
  intros Hv Hmv Hs.
  assert (Hcall : ∀ c, keeps prepared (run_store_call st c)) by (intros c; by apply prepared_call).
  apply (k_commit_keys mv st m (mover_bound_ok _ _ _ _ _ Hmv) Hs) with (layout := layout).
  - intros key parent span kind. exact (keeps_discard _ _ (Hcall (CValidChunk key parent span kind))).
  - intros l. apply (k_touch_files prepared_inv).
  - done.
  - by destruct (mover_init_Ok _ _ _ _ _ Hmv).
  - intros selected span f _ _ _. split.
    + intros data _. exact (keeps_discard _ _ (Hcall (CCommitChunk (sf_key f) (sf_parent f) (sf_span f) data (sf_kind f)))).
    + intros pieces _. exact (keeps_discard _ _ (Hcall (CCommitStream (sf_key f) (sf_parent f) (sf_span f) pieces (sf_kind f)))).
Qed.
End steady.

(** ** The catalog, while the disk stays *)
(** A run whose first part is known to end well. *)
Section runs.
Context `{Torch, Sha, Uuid, JsonLoads, ObjectSizes} (J : Worker → Prop).
Lemma run_bind {A B} (m : W A) (f : A → W B) k : J (m k).2 → (∀ a, w_keeps J (f a)) → J ((m ≫= f) k).2.
Proof. intros Hm Hf. unfold mbind, w_bind. destruct (m k) as [[a|e|] k1]; cbn in Hm; [by apply Hf|done|done]. Qed.
Lemma run_try {A} (m : W A) h k : J (m k).2 → (∀ e n, h e = Some n → w_keeps J n) → J (w_try m h k).2.
Proof.
  intros Hm Hh. unfold w_try. destruct (m k) as [[a|e|] k1]; cbn in Hm; [done| |done].
  destruct (h e) as [n|] eqn:E; [|done]. by apply (Hh e n E).
Qed.
End runs.

Section told.
Context `{Torch, Sha, Uuid, JsonLoads, ObjectSizes} (elapsed : num).
Context (m0 : device) (P : FS → pystr * Z → Prop).

(** The reporter holds only entries that are right for the disk. *)
Definition told (k : Worker) : Prop :=
  wk_device k = m0 ∧ prepared (disk_of k) ∧ ∃ r, wk_reporter k = Some r ∧ Forall (P (disk_of k)) (held r).

Lemma told_same k k' : same_disk k k' → told k → told k'.
Proof.
  intros [(Hd & _ & _ & Hr & _) Hf] (Hm & Hp & r & Hrep & HP). unfold told. rewrite Hf, Hd, Hr.
  split_and!; [done|done|by exists r].
Qed.

Lemma told_buffer m : w_keeps told (on_buffer m).
Proof.
  intros k Hk. unfold on_buffer. destruct (wk_telemetry k) as [b|]; [|exact Hk]. by destruct (m b) as [[?|?] ?].
Qed.
(** Entries that are right for one disk are added while it stays. *)
Lemma told_adds fs l : (∀ d, d ∈ l → P fs (td_key d, td_span_tokens d)) →
  w_keeps (λ k, told k ∧ disk_of k = fs) (w_each (λ d, on_reporter (add (VStr (td_key d)) (VInt (td_span_tokens d)))) l).
Proof.
  intros HP. apply wk_each. intros d Hd k [(Hm & Hp & r & Hr & Hh) Hf]. specialize (HP d Hd). subst fs.
  unfold on_reporter. rewrite Hr. unfold add.
  destruct (validate_entry (VTuple [VStr (td_key d); VInt (td_span_tokens d)])) as [[id s]|e] eqn:V;
    [|split; [split_and!; [done|done|by exists r]|done]].
  apply validate_entry_Ok in V as [V _]. injection V as <- <-. split; [|done].
  change (disk_of (set_reporter _ k)) with (disk_of k). split_and!; [done|done|]. eexists. split; [done|]. cbn.
  unfold add_held. cbv zeta. pose proof (od_pop_Forall (P (disk_of k)) (td_key d) _ Hh) as Hpop.
  apply od_set_Forall; [exact HP|]. case_match; [|exact Hpop].
  destruct (od_pop (td_key d) (held r)) as [|p l'] eqn:E; [constructor|]. exact (od_pop_Forall (P (disk_of k)) _ _ Hpop).
Qed.
End told.

Section worker.
Context `{Torch, Sha, Uuid, JsonLoads, ObjectSizes} (elapsed : num).

(** The keys of the plan. *)
Definition plan_keys (plan : SpoolCachePlan) : list PrefixDigest :=
  sp_prefixes plan ++ [MkPrefixDigest (sp_span_tokens plan) (sp_entry_id plan)].

(** An entry for a file that the plan stored between two disks. *)
Definition stored_entry (layout : HMALayout) mv st (plan : SpoolCachePlan) (m : device) (fs fs' : FS) (e : pystr * Z) : Prop :=
  ∃ selected f d,
    layout_select_physical_pages layout (table_arg (sp_block_ids plan)) (VInt (sp_span_tokens plan)) = Ok selected ∧
    f ∈ save_plan layout (plan_keys plan) ∧ stored mv st selected m fs fs' f d ∧ e = (td_key d, td_span_tokens d).

Section plan.
Context (layout : HMALayout) (kv : list (pystr * Tensor)) (slot count : Z) (mv : TorchPageMover) (st : TokenFileStore).
Context (Hv : valid_layout layout) (Hmv : mover_init layout kv slot count = Ok mv) (Hs : 0 < st_slot_bytes st).

Lemma commit_stores plan m w s w' :
  prepared (w_fs w) → NoDup (sf_key <$> save_plan layout (plan_keys plan)) →
  commit_keys mv st (plan_keys plan) (table_arg (sp_block_ids plan)) m w = (Ret s, w') →
  ∀ d, d ∈ ts_objects s → stored_entry layout mv st plan m (w_fs w) (w_fs w') (td_key d, td_span_tokens d).
Proof.
  intros Hp Hn Hr d Hd.
  destruct (commit_keys_Ret _ _ _ _ _ _ _ _ _ _ _ _ Hmv Hr) as (tail & Ht & _ & Hsp & _ & _ & sel & Hsel & Hcalls).
  destruct (save_calls_stored _ _ _ _ _ _ _ _ _ _ _ _ _ _ Hv Hmv Hs Hp Hn Ht Hsel Hcalls) as [_ Hall].
  unfold plan_keys in Ht. rewrite last_snoc in Ht. injection Ht as <-. cbn in Hsp. rewrite Hsp in Hsel.
  apply list_elem_of_lookup in Hd as [i Hd]. destruct (Forall2_lookup_r _ _ _ _ _ Hall Hd) as (f & Hf & Hst).
  exists sel, f, d. split_and!; try done. by eapply list_elem_of_lookup_2.
Qed.

(** The journal of a hook leaves the files of the save. *)
Lemma stores_journal fs1 {A} (io : IO A) k :
  prepared (w_fs (io (clear_logs (wk_world k))).2) → fs1 = w_fs (io (clear_logs (wk_world k))).2 →
  ∀ key, untouched key fs1 (disk_of (disk io k).2).
Proof.
  intros Hp -> key. apply (disk_after (untouched key _)); [apply k_untouched_journal|by apply untouched_refl].
Qed.

Section one.
Context (plan : SpoolCachePlan) (k : Worker) (r : InventoryReporter).
Context (Hp : prepared (disk_of k)) (Hr : wk_reporter k = Some r).
Context (Hn : NoDup (sf_key <$> save_plan layout (plan_keys plan))).

(** An entry from before, or one the plan has stored by now. *)
Definition known (fs : FS) (e : pystr * Z) : Prop :=
  e ∈ held r ∨ stored_entry layout mv st plan (wk_device k) (disk_of k) fs e.
#[local] Abbreviation J := (told (wk_device k) known).

Lemma told_start : J k.
Proof. split_and!; [done|done|]. exists r. split; [done|]. apply Forall_forall. intros e He. by left. Qed.

(** The save itself: the catalog only shrinks, and its objects are stored. *)
Lemma told_save k1 o k2 : same_disk k k1 →
  disk (commit_keys mv st (plan_keys plan) (table_arg (sp_block_ids plan)) (wk_device k1)) k1 = (o, k2) →
  J k2 ∧ ∀ s, o = Ret s → ∀ d, d ∈ ts_objects s → known (disk_of k2) (td_key d, td_span_tokens d).
Proof.
  intros [(Hd1 & _ & _ & Hr1 & _) F1]. rewrite Hd1. set (io := commit_keys _ _ _ _ _). intros Hrun.
  assert (Hw1 : prepared (w_fs (clear_logs (wk_world k1)))) by (change (prepared (disk_of k1)); by rewrite F1).
  pose proof (keeps_run _ _ _ (k_prepared_save layout kv slot count mv st (plan_keys plan) (table_arg (sp_block_ids plan))
    (wk_device k) Hv Hmv Hs) Hw1) as Hw2. fold io in Hw2.
  pose proof (stores_journal _ io k1 Hw2 eq_refl) as Hu. rewrite Hrun in Hu. cbn [snd] in Hu.
  destruct (disk_parts io k1) as ((Hd2 & _ & _ & Hr2 & _) & _ & Ho). rewrite Hrun in Hd2, Hr2, Ho. cbn in Hd2, Hr2, Ho.
  split.
  - split; [congruence|]. split; [apply (Hu [])|]. rewrite Hr1, Hr in Hr2. cbn in Hr2. eexists. split; [exact Hr2|].
    apply Forall_forall. intros e [_ He]%held_removed. by left.
  - intros s -> d Hin. right. destruct Ho as [Ho|[=]].
    destruct (io (clear_logs (wk_world k1))) as [o' w'] eqn:E. cbn in Ho, Hw2, Hu. subst o'.
    destruct (commit_stores plan _ _ _ _ Hw1 Hn E d Hin) as (sel & f & d' & Hsel & Hf & Hst & Eq).
    exists sel, f, d'. split_and!; [done|done| |done]. change (w_fs (clear_logs (wk_world k1))) with (disk_of k1) in Hst.
    rewrite F1 in Hst. eapply stored_later; [exact Hw2|apply Hu|exact Hst].
Qed.

Lemma told_commit : J (commit_plan mv st plan k).2.
Proof.
  unfold commit_plan. apply w_exclusive_run; [intros k1 k2; apply told_same|exact told_start|]. intros k1 Hsame.
  unfold mbind at 1, w_bind at 1, w_get at 1. fold (plan_keys plan). unfold mbind at 1, w_bind at 1.
  destruct (disk (commit_keys _ _ _ _ _) k1) as [o k2] eqn:E. destruct (told_save _ _ _ Hsame E) as [Hk2 Hs2].
  destruct o as [s|e|]; [|exact Hk2..]. specialize (Hs2 s eq_refl).
  pose proof (told_adds (wk_device k) known (disk_of k2) (ts_objects s) Hs2) as Hadds.
  match goal with |- told _ _ (?m k2).2 =>
    refine (proj1 ((_ : w_keeps (λ k', J k' ∧ disk_of k' = disk_of k2) m) k2 (conj Hk2 eq_refl))) end.
  w_keeps.
Qed.

(** A plan, however it ended. *)
Lemma told_plan : J (store_plan elapsed mv st plan k).2.
Proof.
  pose proof (told_buffer (wk_device k) known). unfold store_plan, w_count, w_observe.
  apply run_bind; [|intros a; w_keeps]. apply run_try; [|intros e n [= <-]; w_keeps].
  apply run_bind; [exact told_commit|intros a; w_keeps].
Qed.
End one.

(** The plans before one, and the state they leave. *)
Definition plan_reached (plans : list SpoolCachePlan) (k : Worker) (plan : SpoolCachePlan) (k0 : Worker) : Prop :=
  ∃ pre post, plans = pre ++ plan :: post ∧ w_each (store_plan elapsed mv st) pre k = (Ret tt, k0).

Definition stored_by (plans : list SpoolCachePlan) (k : Worker) (e : pystr * Z) : Prop :=
  ∃ plan k0, plan_reached plans k plan k0 ∧
    stored_entry layout mv st plan (wk_device k) (disk_of k0) (disk_of (store_plan elapsed mv st plan k0).2) e.

Lemma stored_by_app plans more k e : stored_by plans k e → stored_by (plans ++ more) k e.
Proof.
  intros (plan & k0 & (pre & post & -> & Hr) & He). exists plan, k0. split; [|done]. exists pre, (post ++ more).
  split; [by rewrite <-(assoc_L (++))|done].
Qed.

Lemma w_each_snoc {A} (f : A → W unit) l x k :
  w_each f (l ++ [x]) k = match w_each f l k with (Ret _, k1) => f x k1 | r => r end.
Proof.
  revert k; induction l as [|y l IH]; intros k; cbn [app w_each]; unfold mbind, w_bind.
  - cbn. by destruct (f x k) as [[[]|e|] k1].
  - destruct (f y k) as [[a|e|] k1]; [apply IH|done|done].
Qed.

Lemma told_plans plans k r :
  prepared (disk_of k) → wk_reporter k = Some r →
  (∀ plan, plan ∈ plans → NoDup (sf_key <$> save_plan layout (plan_keys plan))) →
  told (wk_device k) (λ _ e, e ∈ held r ∨ stored_by plans k e) (w_each (store_plan elapsed mv st) plans k).2.
Proof.
  intros Hp Hr. induction plans as [|plan plans IH] using rev_ind; intros Hn.
  { split_and!; [done|done|]. exists r. split; [done|]. apply Forall_forall. intros e He. by left. }
  destruct IH as (Hd & Hp1 & r1 & Hr1 & HP1); [intros p Hin; apply Hn, elem_of_app; by left|].
  rewrite w_each_snoc. destruct (w_each _ plans k) as [[[]|e|] k1] eqn:E; cbn [snd] in *.
  2,3: split_and!; [done|done|]; exists r1; split; [done|]; eapply Forall_impl; [exact HP1|];
    intros e' [He|He]; [by left|right; by apply stored_by_app].
  specialize (Hn plan ltac:(apply elem_of_app; right; by left)).
  destruct (told_plan plan k1 r1 Hp1 Hr1 Hn) as (Hd2 & Hp2 & r2 & Hr2 & HP2).
  split; [congruence|]. split; [done|]. exists r2. split; [done|]. eapply Forall_impl; [exact HP2|].
  intros e [He|He].
  - rewrite Forall_forall in HP1. destruct (HP1 e He) as [?|?]; [by left|right; by apply stored_by_app].
  - right. exists plan, k1. rewrite Hd in He. split; [|done]. by exists plans, [].
Qed.
End plan.

(** C12: storing advertises only what was stored.  On a prepared cache root, after the
    store plans of a step and however each of them ended, every entry of the worker's
    catalog was there before, or names, with its span, a file of a plan that was run: when
    that plan was done the file stood under the key, and it was either the very file found
    there when the plan began, authenticated and untouched, or held exactly the bytes of
    the selected pages of the request. *)
Theorem stores_advertise_stored (layout : HMALayout) (kv : list (pystr * Tensor)) (slot count : Z)
    (mv : TorchPageMover) (st : TokenFileStore) (plans : list SpoolCachePlan) (k : Worker) (r : InventoryReporter) :
  valid_layout layout → mover_init layout kv slot count = Ok mv → 0 < st_slot_bytes st →
  prepared (disk_of k) → (∀ plan, plan ∈ plans → NoDup (sf_key <$> save_plan layout (plan_keys plan))) →
  wk_reporter k = Some r →
  ∃ r', wk_reporter (w_each (store_plan elapsed mv st) plans k).2 = Some r' ∧
  ∀ e, e ∈ held r' → e ∈ held r ∨ stored_by layout mv st plans k e.
Proof.
  intros Hv Hmv Hs Hp Hn Hr.
  destruct (told_plans layout kv slot count mv st Hv Hmv Hs plans k r Hp Hr Hn) as (_ & _ & r' & Hr' & HP).
  exists r'. split; [done|]. by apply Forall_forall.
Qed.
End worker.

(** * A failed scrub withdraws the catalog *)
Section scrub.
Context `{Torch, Sha, Uuid, JsonLoads, ObjectSizes}.

Definition emptied (k : Worker) : Prop := ∃ r, wk_reporter k = Some r ∧ held r = [].

Lemma emptied_buffer m : w_keeps emptied (on_buffer m).
Proof.
  intros k Hk. unfold on_buffer. destruct (wk_telemetry k) as [b|]; [|exact Hk]. by destruct (m b) as [[?|?] ?].
Qed.

Lemma emptied_metrics metrics : w_keeps emptied (w_each emit_scrub_metric metrics).
Proof. pose proof emptied_buffer. apply wk_each. intros m _. unfold emit_scrub_metric, w_count. w_keeps. Qed.

Lemma replace_none r : ∃ r', replace [] r = (Ok tt, r') ∧ held r' = [].
Proof. by eexists. Qed.

(** The reconciliation of a forced epoch that was not yet withdrawn. *)
Lemma drain_forced k s b r st epoch :
  wk_scrub k = Some s → wk_telemetry k = Some b → wk_reporter k = Some r → wk_store k = Some st →
  Maintenance.pending_inventory_rescan_epoch s = Some epoch →
  Maintenance.inventory_rescan_requires_withdrawal epoch s = Ok true → wk_withdrawn_epoch k < epoch →
  emptied (_drain_scrub_maintenance k).2.
Proof.
  intros Hs Hb Hr Hst Hp Hf Hw. unfold _drain_scrub_maintenance, mbind at 1, w_bind at 1, w_get. rewrite Hs, Hb, Hr, Hst.
  unfold mbind at 1, w_bind at 1. rewrite Hp.
  assert (∃ k1, reconcile s st epoch k = (Ret tt, k1) ∧ emptied k1) as (k1 & -> & Hk1).
  { unfold reconcile, mbind, w_bind. rewrite Hf. cbn. rewrite (proj2 (Z.ltb_lt _ _)) by done.
    unfold replace_catalog, on_reporter. rewrite Hr. destruct (replace_none r) as (r' & -> & Hh).
    eexists. split; [reflexivity|]. by exists r'. }
  revert k1 Hk1. change (w_keeps emptied (k1 ← w_get; match wk_scrub k1 with
      | None => w_return tt
      | Some s => let (metrics, s) := Maintenance.drain_metrics s in
                  _ ← w_modify (set_scrub (Some s)); w_each emit_scrub_metric metrics end)).
  pose proof emptied_metrics. w_keeps.
Qed.

(** C20: The worker acts on a failed turn of the scrub: whatever made the body of the
    turn raise, and whatever the repair did, unless the process died, the next drain of
    the scrub's results leaves an empty catalog, so nothing is offered until the
    manifests have been read again. *)
Theorem failed_scrub_withdraws (st : TokenFileStore) (due : bool) (cancelled : nat → bool) (payload items : Z)
    (s s' : Maintenance.Scheduler) (w w1 w' : World) (e : exn) (o : outcome unit)
    (k : Worker) (b : TelemetryBuffer) (r : InventoryReporter) :
  Maintenance.scheduler_ok s → Maintenance.sd_rescan_epoch s < Maintenance.MAX_COUNTER63 →
  Maintenance.scrub_once st due cancelled payload items w = (Exc e, w1) →
  Maintenance.scrub_turn st due cancelled payload items s w = (o, s', w') → o ≠ Dead →
  wk_scrub k = Some s' → wk_telemetry k = Some b → wk_reporter k = Some r → wk_store k = Some st →
  wk_withdrawn_epoch k ≤ Maintenance.sd_rescan_epoch s →
  ∃ r', wk_reporter (_drain_scrub_maintenance k).2 = Some r' ∧ held r' = [].
Proof.
  intros Hok Hmax He Ht Ho Hs Hb Hr Hst Hw.
  destruct (Maintenance.failed_turn st due cancelled payload items s w e w1 o s' w') as [Hp Hf]; try done.
  eapply drain_forced; eauto. lia.
Qed.
End scrub.
