(* ===== verification/StoreExamples.v ===== *)
(** * A concrete store

    A layout with a full group and a sliding group, an empty prepared root and a store
    over it, on which the operations are evaluated. *)
From S2P Require Import Prelude Dict Bytes Json Hma Manifest Io RankStore JsonReader FsInv TokenFiles TokenHeader StoreOps StoreInv StoreSystem StoreFence StoreEpochs StoreLookup StoreCommit TokenBatches StoreGc StoreProps.

Module StoreExamples.
#[export] Existing Instance light_sha.
#[export] Existing Instance canonical_reader.
#[export] Existing Instance counted_names.

Definition small_layout : HMALayout :=
  Layout 10 1
    [Group 0 (lit "FullSpec") 4 4 8 false 1 4 PFull None 0 false [Layer (lit "full.0") (lit "FullSpec") 8];
     Group 1 (lit "SlidingSpec") 4 4 8 false 1 4 PSliding (Some 5) 0 false
       [Layer (lit "window.0") (lit "SlidingSpec") 8]].

(** Two transfer blocks in a payload of 8 bytes. *)
Definition small_store : TokenFileStore := TokenStore 0 small_layout 4 (JObj [(lit "rank", JInt 0)]) 4 (Hooks true false).

(** The directories and lock files of a prepared root, all durable. *)
Definition root_names : gmap path node :=
  list_to_map
    [(state_dir, NDir); (manifests_dir, NDir); (quarantine_dir, NDir); (tmp_dir, NDir);
     (withdrawn_dir, NDir); (maintenance_lock, NFile 0); (namespace_lock, NFile 1);
     (object_reads_lock, NFile 2); (inventory_owner_lock, NFile 3)].
Definition root_fs : FS :=
  Fs root_names ∅ (list_to_map ((λ n, (n, Inode [] true 0)) <$> seq 0 4)) 4.

Definition new_process : Proc := MkProc 0 false false 0 2 [] [].
Definition world (fs : FS) (faults : list fault) : World := MkWorld fs faults 1000 0 ∅ new_process.
Definition root_world : World := world root_fs [].

Definition key1 : pystr := replicate 64 97.
Definition key2 : pystr := replicate 64 98.
Definition payload (n : Z) : list byte := z_to_byte <$> seqZ n 8.

(** ** Checks of a concrete file system *)
Definition wf_check (fs : FS) : bool :=
  bool_decide (hist fs = ∅) &&
  bool_decide (map_Forall (λ ino _, (ino < next_ino fs)%nat) (inodes fs)) &&
  bool_decide (map_Forall (λ _ v, (match v with NFile ino => bool_decide (is_Some (inodes fs !! ino)) | _ => true end) = true) (names fs)).

Lemma clean_possible fs p : hist fs = ∅ → possible fs p = [names fs !! p].
Proof. intros Hh. unfold possible, hist_of. by rewrite Hh, lookup_empty. Qed.

Lemma wf_check_ok fs : wf_check fs = true → fs_wf fs.
Proof.
  unfold wf_check. rewrite !andb_true_iff, !bool_decide_eq_true. intros [[Hh Hi] Hn]. split.
  - intros ino [i Hl]. by apply (Hi ino i).
  - intros p ino. rewrite clean_possible by done. intros Hp%list_elem_of_singleton. symmetry in Hp.
    by apply (Hn p (NFile ino)), bool_decide_eq_true in Hp.
Qed.

Definition short_names (fs : FS) : bool :=
  bool_decide (hist fs = ∅) && bool_decide (map_Forall (λ p _, length p ≠ 3%nat) (names fs)).

Lemma short_possible fs key : short_names fs = true → possible fs (manifest_path key) = [None].
Proof.
  unfold short_names. rewrite andb_true_iff, !bool_decide_eq_true. intros [Hh Hs].
  rewrite clean_possible by done. f_equal. apply eq_None_not_Some. intros [v Hv]. by apply (Hs _ _ Hv).
Qed.

Lemma root_unpublished : unpublished_root root_fs.
Proof.
  split; [apply wf_check_ok; vm_compute; reflexivity|]. intros key. apply short_possible. vm_compute. reflexivity.
Qed.

Lemma root_prepared : prepared root_fs.
Proof.
  split; [apply root_unpublished| |].
  - intros p Hp. apply lasting_one. rewrite clean_possible by reflexivity.
    repeat (apply elem_of_cons in Hp as [->|Hp]; [vm_compute; reflexivity|]). by apply elem_of_nil in Hp.
  - intros key. left. apply lasting_one, root_unpublished.
Qed.

(** ** Runs *)
Definition value_of {A} (r : outcome A * World) (d : A) : A := match r.1 with Ret a => a | _ => d end.
Definition returns {A} (r : outcome A * World) : bool := match r.1 with Ret _ => true | _ => false end.
Lemma value_of_Ret {A} (r : outcome A * World) d : returns r = true → r = (Ret (value_of r d), r.2).
Proof. by destruct r as [[a|e|] w]. Qed.
Lemma returns_false {A} (r : outcome A * World) : (∀ a w, r ≠ (Ret a, w)) → returns r = false.
Proof. destruct r as [[a|e|] w]; cbn; [|done..]. intros Hn. by destruct (Hn a w). Qed.
Lemma fst_Ret {A} (r : outcome A * World) a : r.1 = Ret a → r = (Ret a, r.2).
Proof. destruct r as [o w]. cbn. by intros ->. Qed.

(** A power loss that keeps every name, and the process that starts after it. *)
Definition after_loss (fs : FS) : FS :=
  Fs (names fs) ∅ ((λ i, Inode (i_data i) true (i_mtime i)) <$> inodes fs) (next_ino fs).

Lemma after_loss_ok fs : power_loss fs (after_loss fs).
Proof.
  split; cbn; try done.
  - intros p. apply possible_head.
  - apply dom_fmap_L.
  - intros ino i Hi _. unfold data_of. cbn. by rewrite lookup_fmap, Hi.
  - intros ino i. rewrite lookup_fmap. destruct (inodes fs !! ino); cbn; [by intros [= <-]|done].
Qed.

Definition restarted (w : World) : World := world (after_loss (w_fs w)) [].

Lemma restarted_reachable st `{Sha, Uuid, JsonLoads} w : rtc (system_step st) w (restarted w).
Proof. apply rtc_once, step_power_loss, after_loss_ok. Qed.

Definition no_descriptor : TokenFileDescriptor := Descriptor [] None 0 [] 0 [] 0 [] KData [].

Lemma commit_step st `{Sha, Uuid, JsonLoads} key parent span data kind w d w' :
  commit_chunk st key parent span data kind w = (Ret d, w') → system_step st w w'.
Proof.
  intros Hr. apply (step_call st (CCommitChunk key parent span data kind) (Ret tt)).
  cbn [run_store_call]. unfold discard, mbind, io_bind. by rewrite Hr.
Qed.

(** The first file of a prefix, published without a fault, and its boundary state. *)
Definition run1 := commit_chunk small_store key1 None 4 (payload 0) KData root_world.
Definition data1 : TokenFileDescriptor := value_of run1 no_descriptor.
Definition world1 : World := run1.2.
Definition state_key : pystr := Eval vm_compute in match boundary_state_key key1 with Ok s => s | _ => [] end.
Definition run2 := commit_stream small_store state_key (Some key1) 4 [Ok (take 4 (payload 8)); Ok (drop 4 (payload 8))] KState world1.
Definition world2 : World := run2.2.

Lemma run1_returns : returns run1 = true.
Proof. vm_compute. reflexivity. Qed.
Lemma run1_Ret : commit_chunk small_store key1 None 4 (payload 0) KData root_world = (Ret data1, world1).
Proof. exact (value_of_Ret run1 no_descriptor run1_returns). Qed.
Lemma world1_reachable : rtc (system_step small_store) root_world world1.
Proof. exact (rtc_once _ _ (commit_step _ _ _ _ _ _ _ _ _ run1_Ret)). Qed.
End StoreExamples.
