(* ===== verification/MoverExamples.v ===== *)
(** * A concrete save and restore

    GPU memory as a function from addresses, two small tensors, and the properties of
    the page mover at them: two prefixes and a boundary state are saved from one set of
    pages and restored into another. *)
From S2P Require Import Prelude Dict Bytes Config Json Prefix Hma HmaSpec Manifest Gpu GpuCopy GpuPages Io RankStore JsonReader FsInv TokenFiles TokenHeader StoreFence StoreLookup StoreProps StoreExamples TokenMover MoverSpec MoverSave MoverTrip MoverProps.
Import StoreExamples.

Module MoverExamples.

(** ** Memory *)
Definition memory : Type := Z → Z → option byte.

Definition read_bytes (m : memory) (s : Z) (addresses : list Z) : result (list byte) :=
  mapM_result (λ a, match m s a with Some b => Ok b | None => raise RuntimeError "not allocated" end) addresses.

Definition write_bytes (m : memory) (s : Z) (addresses : list Z) (b : list byte) : memory := λ s' a,
  if bool_decide (s' = s)
  then match list_find (λ x, x = a) addresses with Some (i, _) => b !! i | None => m s' a end
  else m s' a.

Lemma read_bytes_Ok m s addresses b : read_bytes m s addresses = Ok b →
  length b = length addresses ∧ ∀ i a, addresses !! i = Some a → b !! i = m s a.
Proof.
  unfold read_bytes. intros Hr%mapM_result_Ok. split; [by eapply eq_sym, Forall2_length|].
  intros i a Ha. destruct (Forall2_lookup_l _ _ _ _ _ Hr Ha) as (x & Hx & Hm). by destruct (m s a); simplify_eq.
Qed.

Lemma write_bytes_hit m s addresses b i a : NoDup addresses → addresses !! i = Some a →
  write_bytes m s addresses b s a = b !! i.
Proof.
  intros Hn Ha. unfold write_bytes. rewrite bool_decide_true by done.
  assert (list_find (λ x, x = a) addresses = Some (i, a)) as ->; [|done].
  apply list_find_Some. split_and!; [done|done|]. intros j y Hj Hlt ->.
  assert (j = i); [by eapply NoDup_lookup|lia].
Qed.

Lemma write_bytes_miss m s addresses b s' a : (s' = s → a ∉ addresses) →
  write_bytes m s addresses b s' a = m s' a.
Proof.
  intros Hm. unfold write_bytes. case_bool_decide as E; [|done].
  assert (list_find (λ x, x = a) addresses = None) as ->; [|done].
  apply list_find_None, Forall_forall. intros x Hx ->. by apply Hm.
Qed.

Definition span_addresses (f : FlatView) (off n : Z) : list Z := seqZ (fv_start f + off) n.
Definition row_addresses (v : PageView) (ids : list Z) : list Z :=
  page_address v ids <$> seqZ 0 (Z.of_nat (length ids) * pv_size v).

Definition fits_rows (v : PageView) (ids : list Z) : bool :=
  (0 <? pv_size v) && forallb (λ p, p <? pv_count v) ids.

Lemma row_addresses_lookup v ids k :
  0 ≤ k < Z.of_nat (length ids) * pv_size v → row_addresses v ids !! Z.to_nat k = Some (page_address v ids k).
Proof. intros Hk. unfold row_addresses. rewrite list_lookup_fmap, lookup_seqZ_lt by lia. cbn. do 2 f_equal. lia. Qed.

Lemma row_addresses_nodup v ids :
  0 < pv_size v ≤ pv_stride v → NoDup ids → Forall (λ p, 0 ≤ p) ids → NoDup (row_addresses v ids).
Proof.
  intros Hv Hn Hp. unfold row_addresses. apply NoDup_fmap_2_strong; [|apply NoDup_seqZ].
  intros i j Hi%elem_of_seqZ Hj%elem_of_seqZ. apply page_address_inj; [done|done|done|lia|lia].
Qed.

Lemma row_addresses_length v ids : 0 ≤ pv_size v → length (row_addresses v ids) = (length ids * Z.to_nat (pv_size v))%nat.
Proof. intros Hs. unfold row_addresses. rewrite length_fmap, length_seqZ. lia. Qed.

Definition bounds_error {A} : result A := raise RuntimeError "out of bounds".

#[export] Program Instance function_torch : Torch := {|
  device := memory;
  byte_at m s a := m s a;
  view_uint8 t :=
    match t_storage t with
    | Some (s, n) => Ok (MkByteView s (t_storage_offset t * t_element_size t) n)
    | None => bounds_error
    end;
  as_strided b v := Ok v;
  is_contiguous v := pv_stride v =? pv_size v;
  narrow v first n :=
    if first + n <=? pv_count v
    then Ok (Flat (pv_storage v) (pv_offset v + first * pv_stride v) (n * pv_size v)) else bounds_error;
  row v p :=
    if p <? pv_count v then Ok (Flat (pv_storage v) (pv_offset v + p * pv_stride v) (pv_size v)) else bounds_error;
  copy_to_host m f off n := read_bytes m (fv_storage f) (span_addresses f off n);
  copy_to_device m f off b :=
    Ok (write_bytes m (fv_storage f) (span_addresses f off (Z.of_nat (length b))) b);
  index_select m v ids :=
    if fits_rows v ids then read_bytes m (pv_storage v) (row_addresses v ids) else bounds_error;
  index_copy m v ids b :=
    if fits_rows v ids then Ok (write_bytes m (pv_storage v) (row_addresses v ids) b) else bounds_error
|}.
Next Obligation. intros b v v'. by intros [= <-]. Qed.
Next Obligation. intros v Hv _. cbn in Hv. by apply Z.eqb_eq. Qed.
Next Obligation. intros v first n f _ _. cbn. destruct (first + n <=? pv_count v) eqn:E; [|done]. intros [= <-]. bsimp. split; [lia|done]. Qed.
Next Obligation. intros v p f _. cbn. destruct (p <? pv_count v); [|done]. by intros [= <-]. Qed.
Next Obligation.
  intros m f off n b _ Hn _ [Hl Hb]%read_bytes_Ok. unfold span_addresses in *. rewrite length_seqZ in Hl.
  split; [done|]. intros i Hi. apply Hb. rewrite lookup_seqZ_lt by lia. f_equal. lia.
Qed.
Next Obligation.
  intros m f off b m' _ _. intros [= <-] s a. unfold span_addresses. case_bool_decide as E.
  - destruct E as [-> Ha]. apply write_bytes_hit; [apply NoDup_seqZ|]. rewrite lookup_seqZ_lt by lia. f_equal. lia.
  - apply write_bytes_miss. intros -> Hin%elem_of_seqZ. apply E. split; [done|lia].
Qed.
Next Obligation.
  intros m v ids b _. cbn. destruct (fits_rows v ids) eqn:E; [|done]. unfold fits_rows in E. bsimp. destruct_and?.
  intros [Hl Hb]%read_bytes_Ok. rewrite row_addresses_length in Hl by lia. split; [done|].
  intros k Hk. apply Hb, row_addresses_lookup. lia.
Qed.
Next Obligation.
  intros m v ids b m' Hp Hn Hv Hl. cbn. destruct (fits_rows v ids); [|done]. intros [= <-].
  pose proof (row_addresses_nodup v ids Hv Hn Hp) as Hnd. split.
  - intros k Hk. apply write_bytes_hit; [done|]. apply row_addresses_lookup. lia.
  - intros s a Hm. apply write_bytes_miss. intros -> Hin. unfold row_addresses in Hin.
    apply list_elem_of_fmap in Hin as (k & -> & Hk%elem_of_seqZ). apply (Hm k); [lia|done].
Qed.

(** ** A layout of pages of 256 tokens and its tensors *)
Definition wide_layout : HMALayout :=
  Layout 10 1
    [Group 0 (lit "FullSpec") 256 256 8 false 1 256 PFull None 0 false [Layer (lit "full.0") (lit "FullSpec") 8];
     Group 1 (lit "SlidingSpec") 256 256 8 false 1 256 PSliding (Some 5) 0 false
       [Layer (lit "window.0") (lit "SlidingSpec") 8]].

Definition wide_store : TokenFileStore := TokenStore 0 wide_layout 256 (JObj [(lit "rank", JInt 0)]) 4 (Hooks true false).

(** Ten rows of [row] bytes, of which a page takes the first 8. *)
Definition tensor (storage row : Z) : Tensor :=
  MkTensor storage (Some (lit "cuda", Some 0)) (lit "cuda:0") (lit "torch.uint8") 1 [10; 8] [row; 1] 0
    (Some (storage, 10 * row)).

Definition tensors (base row : Z) : list (pystr * Tensor) :=
  [(lit "full.0", tensor base row); (lit "window.0", tensor (base + 1) row)].

Definition filled : device := λ s a, if bool_decide (0 ≤ a < 120) then Some (z_to_byte (a mod 256)) else None.

Definition prefixes : list PrefixDigest := [MkPrefixDigest 256 key1; MkPrefixDigest 512 key2].

Definition tables (first : Z) : list (list pyval) := replicate 2 [VInt first; VInt (first + 3)].

Definition no_mover : TorchPageMover := Mover wide_layout ∅ 0 [] 0 true.
Definition ok_value {A} (r : result A) (d : A) : A := match r with Ok a => a | _ => d end.
Definition saver : TorchPageMover := ok_value (mover_init wide_layout (tensors 1 8) 4096 2) no_mover.
Definition loader : TorchPageMover := ok_value (mover_init wide_layout (tensors 3 12) 4096 2) no_mover.

Definition no_snapshot : TokenSnapshot := Snapshot [] 0 [] [] [].
Definition saving := commit_keys saver wide_store prefixes (tables 2) filled root_world.
Definition snapshot : TokenSnapshot := value_of saving no_snapshot.
Definition saved_world : World := saving.2.

Definition restoring :=
  restore_entry loader wide_store key2 512 (tables 4) None filled (restarted saved_world).
Definition restored : TokenSnapshot * device := value_of restoring (no_snapshot, filled).

Lemma wide_layout_valid : valid_layout wide_layout.
Proof. split; [reflexivity| |]; repeat constructor. Qed.

Lemma saver_Ok : mover_init wide_layout (tensors 1 8) 4096 2 = Ok saver.
Proof. vm_compute. reflexivity. Qed.
Lemma loader_Ok : mover_init wide_layout (tensors 3 12) 4096 2 = Ok loader.
Proof. vm_compute. reflexivity. Qed.

Lemma saving_returns : returns saving = true.
Proof. vm_compute. reflexivity. Qed.
Lemma saving_Ret : commit_keys saver wide_store prefixes (tables 2) filled root_world = (Ret snapshot, saved_world).
Proof. exact (value_of_Ret saving no_snapshot saving_returns). Qed.
Lemma restoring_returns : returns restoring = true.
Proof. vm_compute. reflexivity. Qed.
Lemma restoring_Ret : restore_entry loader wide_store key2 512 (tables 4) None filled (restarted saved_world)
  = (Ret (restored.1, restored.2), restoring.2).
Proof.
  pose proof (value_of_Ret restoring (no_snapshot, filled) restoring_returns) as Hr.
  unfold restored. rewrite <- surjective_pairing. exact Hr.
Qed.

Definition pages (first : Z) : list (list Z) := [[first; first + 3]; [first + 3]].

(** Layers in different storages. *)
Definition storages_differ (mv : TorchPageMover) : bool :=
  bool_decide (NoDup ((λ kb, pv_storage (bp_pages kb.2)) <$> map_to_list (mv_bound mv))).

Lemma storages_disjoint mv selected : storages_differ mv = true → layers_disjoint mv selected.
Proof.
  unfold storages_differ. intros Hd%bool_decide_eq_true k1 k2 l1 l2 t1 t2 p q Hne H1 H2 _ _ _ _.
  left. intros He. apply elem_of_map_to_list in H1, H2.
  pose proof (NoDup_fmap_member _ _ _ _ Hd H1 H2 He). congruence.
Qed.

Lemma manager_pages_in_bounds_witness :
  ∃ v, manager_page_view (tensor 3 12) 10 8 = Ok v ∧ page_start_address v 9 + 8 ≤ 120.
Proof.
  eexists. split; [reflexivity|].
  destruct (manager_pages_in_bounds (tensor 3 12) 10 8 (Pages 3 0 12 10 8)) as (_ & _ & b & Hb & _ & Hp); [reflexivity|].
  injection Hb as <-. apply (Hp 9). lia.
Defined.

Lemma save_stores_prefixes_witness :
  ∃ selected, layout_select_physical_pages wide_layout (tables 2) (VInt (ts_span_tokens snapshot)) = Ok selected ∧
    Forall2 (stored saver wide_store selected filled (w_fs root_world) (w_fs saved_world)) (save_plan wide_layout prefixes) (ts_objects snapshot).
Proof.
  apply (save_stores_prefixes wide_layout (tensors 1 8) 4096 2 saver wide_store prefixes (tables 2) filled
           root_world saved_world snapshot).
  - exact wide_layout_valid.
  - exact saver_Ok.
  - reflexivity.
  - exact root_prepared.
  - apply (bool_decide_unpack _). vm_compute. exact I.
  - exact saving_Ret.
Defined.

Lemma restore_is_exact_witness :
  restorable wide_store (w_fs (restarted saved_world)) key2 restored.1 ∧
  ∃ payloads, Forall2 (file_payload wide_store (w_fs (restarted saved_world))) (ts_objects restored.1) payloads.
Proof.
  destruct (restore_is_exact wide_layout (tensors 3 12) 4096 2 loader wide_store key2 512 (tables 4) (pages 4) None
              filled restored.2 (restarted saved_world) restoring.2 restored.1) as (Hr & _ & _ & payloads & Hp & _).
  - exact wide_layout_valid.
  - exact loader_Ok.
  - reflexivity.
  - vm_compute. reflexivity.
  - apply storages_disjoint. vm_compute. reflexivity.
  - exact restoring_Ret.
  - split; [exact Hr|]. exists payloads. exact Hp.
Defined.

Lemma save_restore_roundtrip_witness :
  let segments := ts_objects restored.1 ≫= td_segments in
  segment_bytes segments = 24 ∧
  at_address restored.2 (file_address loader (pages 4) segments 8) =
  at_address filled (file_address saver (pages 2) segments 8).
Proof.
  assert (segment_bytes (ts_objects restored.1 ≫= td_segments) = 24) as Hn by (vm_compute; reflexivity).
  split; [exact Hn|].
  apply (save_restore_roundtrip wide_layout (tensors 1 8) (tensors 3 12) 4096 2 4096 2 saver loader wide_store prefixes
           (tables 2) (tables 4) (pages 2) (pages 4) None filled filled restored.2
           root_world saved_world (restarted saved_world) restoring.2 snapshot restored.1).
  - exact wide_layout_valid.
  - reflexivity.
  - exact saver_Ok.
  - exact loader_Ok.
  - apply (bool_decide_unpack _). vm_compute. exact I.
  - apply root_unpublished.
  - apply Forall_forall. intros f _. apply root_unpublished.
  - exact saving_Ret.
  - apply Forall_forall. intros f _. apply rtc_once, other_power_loss, after_loss_ok.
  - exact restoring_Ret.
  - vm_compute. reflexivity.
  - vm_compute. reflexivity.
  - apply storages_disjoint. vm_compute. reflexivity.
  - rewrite Hn. lia.
Defined.
End MoverExamples.
