(* ===== verification/WorkerExamples.v ===== *)
(** * A concrete worker

    A worker stores two prefixes and a boundary state, loads them into other pages, and
    reports its catalog while a marker of another process stands. *)
From S2P Require Import Prelude Dict Bytes Config Inventory Reporter ReporterInv Prefix Json Hma HmaSpec Manifest Telemetry Gpu GpuCopy GpuPages Io RankStore JsonReader FsInv TokenFiles TokenHeader StoreFence StoreLookup StoreProps StoreExamples TokenMover MoverSpec MoverSave MoverTrip MoverProps MoverExamples Scheduler Handshake EventJournal Worker WorkerSpec WorkerProps.
From S2P Require Maintenance.
Import StoreExamples MoverExamples.

Module WorkerExamples.

#[local] Existing Instance cpython312.

Definition second : num := NInt 1.
Definition trigger : Z := 4096.

Definition reporter : InventoryReporter :=
  ok_value (reporter_init (VInt 0) (VStr (lit "00112233445566778899aabbccddeeff")) (VInt 1) (VInt INVENTORY_MEMORY_BYTES)
              (VInt REPORT_BATCH_SIZE)) (Reporter 0 [] 0 0 0 [] ∅ false 0 [] 0 [] 0 0 0).

Definition worker (w : World) (mv : TorchPageMover) (r : InventoryReporter) : Worker :=
  MkWorker w filled (Some mv) (Some wide_store) (Some r) None None None ∅ 0 0 None [].

Definition plan (first : Z) : SpoolCachePlan :=
  MkPlan (lit "request") key2 512 [[first; first + 3]; [first; first + 3]] [MkPrefixDigest 256 key1].

Lemma reporter_ok : reporter_wf reporter.
Proof. apply (reporter_init_wf (VInt 0) (VStr (lit "00112233445566778899aabbccddeeff")) (VInt 1) (VInt INVENTORY_MEMORY_BYTES)
              (VInt REPORT_BATCH_SIZE)). vm_compute. reflexivity. Qed.

Lemma reporter_empty : held reporter = [].
Proof. vm_compute. reflexivity. Qed.

Abbreviation storing := (w_each (store_plan second saver wide_store) [plan 2] (worker root_world saver reporter)).
Example stored_ok : storing.1 = Ret tt.
Proof. vm_compute. reflexivity. Qed.
Example stored_count : (λ r, length (held r)) <$> wk_reporter storing.2 = Some 3%nat.
Proof. vm_compute. reflexivity. Qed.
Lemma stored_first : (wk_reporter storing.2 ≫= λ r, held r !! 0%nat) = Some (key1, 256).
Proof. vm_compute. reflexivity. Qed.

Lemma stores_advertise_stored_witness : 
  stored_by second wide_layout saver wide_store [plan 2] (worker root_world saver reporter) (key1, 256).
Proof.
  destruct (stores_advertise_stored second wide_layout (tensors 1 8) 4096 2 saver wide_store [plan 2]
              (worker root_world saver reporter) reporter) as (r' & Hr' & Hall).
  - exact wide_layout_valid.
  - exact saver_Ok.
  - reflexivity.
  - exact root_prepared.
  - intros p ->%list_elem_of_singleton. apply (bool_decide_unpack _). vm_compute. exact I.
  - reflexivity.
  - assert ((key1, 256) ∈ held r') as Hin; [|specialize (Hall _ Hin) as [Hno|Hyes]].
    2: { exfalso. rewrite reporter_empty in Hno. exact (not_elem_of_nil _ Hno). }
    2: { exact Hyes. }
    pose proof stored_first as Hf. rewrite Hr' in Hf. cbn [mbind option_bind] in Hf.
    by eapply list_elem_of_lookup_2.
Defined.

(** The keys are loaded into other pages; a load of a key that no file holds ends the
    process. *)
Definition step (first : Z) : SpoolCacheMetadata := MkMetadata [plan first] [].
Definition filled_store : Worker := worker (restarted saved_world) loader reporter.
Definition empty_store : Worker := worker root_world loader reporter.

Definition ended {A} (o : outcome A) : nat := match o with Ret _ => 0 | Exc _ => 1 | Dead => 2 end.

Abbreviation loaded := (start_load_kv second trigger (step 4) filled_store).
Lemma loaded_ok : ended loaded.1 = 0%nat.
Proof. vm_compute. reflexivity. Qed.

Lemma restore_or_terminate_witness :
  restores loader wide_store [plan 4] filled (wk_device loaded.2) ∧
  (start_load_kv second trigger (step 4) empty_store).1 = Dead.
Proof.
  split.
  - destruct (proj1 (restore_or_terminate second trigger (step 4) filled_store loader wide_store eq_refl eq_refl)
                loaded.1 loaded.2) as (begun & rest & Hl & Hr & Hrest).
    + apply surjective_pairing.
    + intros Hd. pose proof loaded_ok as Hok. by rewrite Hd in Hok.
    + assert (loaded.1 = Ret tt) as Ho.
      { pose proof loaded_ok as Hok. by destruct loaded.1 as [[]|e|]. }
      rewrite (Hrest Ho), app_nil_r in Hl. change (loads (step 4)) with [plan 4] in Hl. rewrite Hl. exact Hr.
  - refine (proj2 (restore_or_terminate second trigger (step 4) empty_store loader wide_store eq_refl eq_refl)
              [] (plan 4) [] empty_store eq_refl eq_refl _).
    intros r w' E.
    assert (ended (restore_entry loader wide_store key2 512 (tables 4) None filled (clear_logs root_world)).1 = 1%nat) as Hx
      by (vm_compute; reflexivity).
    change (restore_entry loader wide_store key2 512 (tables 4) None filled (clear_logs root_world) = (Ret r, w')) in E.
    by rewrite E in Hx.
Defined.

(** Another process left a marker for the first key. *)
Definition holding : InventoryReporter :=
  (add (VStr key2) (VInt 512) (add (VStr key1) (VInt 256) reporter).2).2.
Lemma holding_ok : reporter_wf holding.
Proof. apply add_wf, add_wf, reporter_ok. Qed.
Definition marked_world : World := (_mark_inventory_withdrawn key1 root_world).2.
Definition advertising : Worker := worker marked_world loader holding.

Definition empty_report : WorkerInventoryReport := Report 0 [] 0 (Checkpoint 0 0 0 0 0 []) None.
Definition report_of (r : outcome WorkerInventoryReport * Worker) : WorkerInventoryReport :=
  match r.1 with Ret a => a | _ => empty_report end.

Abbreviation reported := (inventory_report advertising).
Lemma reported_ok : ended reported.1 = 0%nat.
Proof. vm_compute. reflexivity. Qed.
Lemma reported_Ret : reported = (Ret (report_of reported), reported.2).
Proof. pose proof reported_ok as Hok. unfold report_of. by destruct reported as [[a|e|] k]. Qed.

Example reported_entries : ck_entries (r_checkpoint (report_of reported)) = [(key2, 512)].
Proof. vm_compute. reflexivity. Qed.

Lemma adverts_respect_markers_witness :
  image_clear reported.2 (ck_entries (r_checkpoint (report_of reported))).
Proof.
  exact (proj1 (adverts_respect_markers advertising reported.2 holding eq_refl holding_ok) (report_of reported) reported_Ret).
Defined.

(** A turn of the scrub that finds no state: it raises, and its repair writes one. *)
Definition sched : Maintenance.Scheduler := Maintenance.MkScheduler true false [] 0 0 0 false.
Abbreviation body := (Maintenance.scrub_once wide_store true (λ _, false) 4096 8 root_world).
Abbreviation turn := (Maintenance.scrub_turn wide_store true (λ _, false) 4096 8 sched root_world).
Definition raised {A} (o : outcome A) : exn := match o with Exc e => e | _ => Exn RuntimeError "none" end.
Definition scrubbed : Worker :=
  MkWorker turn.2 filled (Some loader) (Some wide_store) (Some holding) (Some (Buffer (lit "worker") ∅ ∅ ∅))
    (Some turn.1.2) None ∅ 0 0 None [].

Lemma body_raises : body = (Exc (raised body.1), body.2).
Proof.
  assert (ended body.1 = 1%nat) as Hx by (vm_compute; reflexivity). by destruct body as [[?|?|] ?].
Qed.
Lemma turn_lives : turn.1.1 ≠ Dead.
Proof. assert (ended turn.1.1 = 0%nat) as Hx by (vm_compute; reflexivity). by destruct turn as [[[?|?|] ?] ?]. Qed.
Lemma turn_run : turn = (turn.1.1, turn.1.2, turn.2).
Proof. by destruct turn as [[? ?] ?]. Qed.
Lemma sched_ok : Maintenance.scheduler_ok sched.
Proof. by repeat split; cbn. Qed.

Lemma failed_scrub_withdraws_witness :
  ∃ r', wk_reporter (_drain_scrub_maintenance scrubbed).2 = Some r' ∧ held r' = [].
Proof.
  apply (failed_scrub_withdraws wide_store true (λ _, false) 4096 8 sched turn.1.2 root_world body.2 turn.2
           (raised body.1) turn.1.1 scrubbed (Buffer (lit "worker") ∅ ∅ ∅) holding sched_ok eq_refl body_raises turn_run turn_lives
           eq_refl eq_refl eq_refl eq_refl (Z.le_refl 0)).
Defined.
End WorkerExamples.
