(* ===== verification/JournalExamples.v ===== *)
(** * A concrete journal and a concrete scrub

    A worker opens its journal, records a fatal restore, dies with the power, and its
    replacement reads the count. *)
From S2P Require Import Prelude Dict Bytes Telemetry Json Hma Manifest Io RankStore JsonReader IoSpec FsInv TokenFiles TokenHeader TokenScrub StoreInv StoreSystem StoreFence StoreLookup ScrubProps StoreProps EventJournal JournalSpec JournalSystem StoreExamples.

Module JournalExamples.
Export StoreExamples.

Definition lookup_failure : metric_key := (lit "spoolcache_post_admission_failure_total", [lit "lookup"]).
Definition zero : tally := λ _, 0.

Definition opened := journal_init root_world.
Abbreviation count1 := (event_increment lookup_failure.1 lookup_failure.2 (VInt 1) ∅ opened.2).
Abbreviation count2 := (event_increment lookup_failure.1 lookup_failure.2 (VInt 2) count1.1.2 count1.2).

Example opened_empty : opened.1 = Ret ∅.
Proof. vm_compute. reflexivity. Qed.
Example count1_records : count1.1.1 = Ret tt.
Proof. vm_compute. reflexivity. Qed.
Example count2_records : count2.1.1 = Ret tt ∧ count2.1.2 !! lookup_failure = Some 3.
Proof. split; vm_compute; reflexivity. Qed.

(** A full disk: the increment raises, and the totals are as before. *)
Example rolled_back :
  let failed := event_increment lookup_failure.1 lookup_failure.2 (VInt 2) count1.1.2
                  (set_faults [FOk; FErr] count1.2) in
  (if failed.1.1 is Exc _ then true else false) = true ∧ failed.1.2 !! lookup_failure = Some 1.
Proof. split; vm_compute; reflexivity. Qed.

(** The vocabulary is closed. *)
Example unknown_reason :
  _metric_key (JStr (lit "spoolcache_quarantined_entries_total")) [JStr (lit "cosmic_ray")]
  = raise ValueError "event journal labels are outside the bounded vocabulary".
Proof. vm_compute. reflexivity. Qed.

Lemma triple_of {A B C} (r : A * B * C) : r = (r.1.1, r.1.2, r.2).
Proof. by destruct r as [[? ?] ?]. Qed.

Definition start_state : journal_state := MkJournal root_world None zero zero.
Lemma journal_started : journal_start start_state.
Proof.
  split; [exact root_prepared|]. split; [|done]. apply lasting_one. rewrite clean_possible by reflexivity.
  vm_compute. reflexivity.
Qed.

Definition recorded1 : tally := bump lookup_failure 1 zero.
Definition running : journal_state := MkJournal count1.2 (Some count1.1.2) recorded1 recorded1.
Definition after_crash : journal_state := MkJournal (restarted count1.2) None recorded1 recorded1.

Lemma running_reachable : rtc (journal_step small_store) start_state running.
Proof.
  eapply rtc_l; [apply (js_open small_store opened.1 root_world opened.2), surjective_pairing|].
  rewrite opened_empty. apply rtc_once.
  pose proof (js_increment small_store lookup_failure.1 lookup_failure.2 (VInt 1) count1.1.1 ∅ count1.1.2
                opened.2 count1.2 zero zero (triple_of count1)) as Hs.
  rewrite count1_records in Hs. exact Hs.
Qed.

Lemma crash_reachable : rtc (journal_step small_store) start_state after_crash.
Proof.
  eapply rtc_r; [exact running_reachable|]. apply js_restart. right. apply after_loss_ok.
Qed.

Lemma journal_accounts_events_witness :
  ∃ t, _load (restarted count1.2) = (Ret t, restarted count1.2) ∧ total_of t lookup_failure = 1.
Proof.
  destruct (proj2 (journal_accounts_events small_store eq_refl start_state after_crash journal_started crash_reachable) eq_refl)
    as (t & Ht & Hb).
  exists t. split; [exact Ht|]. specialize (Hb lookup_failure).
  change (1 ≤ total_of t lookup_failure ≤ 1) in Hb. lia.
Defined.

Lemma journal_never_outgrows_witness :
  ∃ b, canonical_json (totals_json (<[lookup_failure := total_of count1.1.2 lookup_failure + 5]> count1.1.2)) = Ok b ∧
       Z.of_nat (length (b ++ newline)) ≤ MAX_EVENT_JOURNAL_BYTES.
Proof.
  apply (journal_never_outgrows small_store start_state running count1.1.2 lookup_failure 5 eq_refl journal_started running_reachable).
  - reflexivity.
  - vm_compute. reflexivity.
  - vm_compute. by split.
Defined.
End JournalExamples.

(** * A concrete scrub

    The properties of the scrubber at the store of [StoreExamples]: its state is created,
    a cycle is started and one step scans the two files. *)
Import StoreExamples.

Module ScrubExamples.

(** The first file carries a tombstone. *)
Definition tombstoned : World := (_mark_inventory_withdrawn key1 world2).2.
Definition opened : World := (scrub_open small_store tombstoned).2.
Definition started : World := (start_cycle small_store opened).2.

Definition no_cancel (n : nat) : bool := false.
Definition stepped := scrub_step small_store no_cancel 100 64 started.
Definition no_report : ScrubStepReport := MkScrubStepReport 0 0 0 0 0 0 0 0 0 0 0 false false SNone.
Definition report : ScrubStepReport := value_of stepped no_report.
Lemma stepped_returns : returns stepped = true.
Proof. vm_compute. reflexivity. Qed.
Lemma stepped_Ret : scrub_step small_store no_cancel 100 64 started = (Ret report, stepped.2).
Proof. exact (value_of_Ret stepped no_report stepped_returns). Qed.

Lemma started_marked : marked key1 (w_fs started).
Proof.
  split; [|apply lasting_one; vm_compute; reflexivity].
  assert (prepared (w_fs world2)) as Hp.
  { apply (prepared_reachable small_store eq_refl root_world); [|exact root_prepared].
    etrans; [exact world1_reachable|]. apply rtc_once.
    apply (step_call small_store (CCommitStream state_key (Some key1) 4 [Ok (take 4 (payload 8)); Ok (drop 4 (payload 8))] KState) (Ret tt)).
    assert (returns run2 = true) as Hr%(value_of_Ret run2 no_descriptor) by (vm_compute; reflexivity).
    cbn [run_store_call]. unfold discard, mbind, io_bind. unfold run2 in Hr. by rewrite Hr. }
  assert (prepared (w_fs tombstoned)) as Hm.
  { apply (keeps_run prepared (_mark_inventory_withdrawn key1) world2); [|exact Hp].
    apply (k_mark prepared_inv), base_marker. }
  pose proof (keeps_run _ _ tombstoned (prepared_call small_store eq_refl CScrubOpen) Hm) as Ho.
  pose proof (keeps_run _ _ opened (prepared_call small_store eq_refl CScrubStart) Ho) as Hst.
  revert Hst. unfold started. cbn [run_store_call]. unfold discard, mbind, io_bind.
  by destruct (start_cycle small_store opened) as [[]].
Qed.


(** The selection and the loop of that step. *)
Definition selecting := scrub_select small_store 64 started.
Definition no_state : ScrubState := _empty small_store.
Definition selected : ScrubState * list pystr := value_of selecting (no_state, []).
Lemma selecting_returns : returns selecting = true.
Proof. vm_compute. reflexivity. Qed.
Lemma selecting_Ret : scrub_select small_store 64 started = (Ret (selected.1, selected.2), selecting.2).
Proof.
  pose proof (value_of_Ret selecting (no_state, []) selecting_returns) as Hr.
  unfold selected. rewrite <- surjective_pairing. exact Hr.
Qed.

Definition scanning := scrub_keys small_store no_cancel 100 selected.2 selected.1 [] selecting.2.
Definition scanned : ScrubState * list Scrubbed := value_of scanning (no_state, []).
Lemma scanning_returns : returns scanning = true.
Proof. vm_compute. reflexivity. Qed.
Lemma scanning_Ret :
  scrub_keys small_store no_cancel 100 selected.2 selected.1 [] selecting.2 = (Ret (scanned.1, scanned.2), scanning.2).
Proof.
  pose proof (value_of_Ret scanning (no_state, []) scanning_returns) as Hr.
  unfold scanned. rewrite <- surjective_pairing. exact Hr.
Qed.

Lemma scrub_skips_nothing_witness :
  length scanned.2 = 2%nat ∧ ∃ names, (∀ key, key ∈ names ↔ on_disk (w_fs started) key) ∧
    length (beyond (ss_cursor selected.1) names) = (length scanned.2 + length (beyond (ss_cursor scanned.1) names))%nat.
Proof.
  split; [vm_compute; reflexivity|].
  destruct (scrub_skips_nothing small_store no_cancel 100 64 selected.1 scanned.1 selected.2 scanned.2
              started selecting.2 selecting.2 scanning.2) as (names & Hn & _ & Hl).
  - reflexivity.
  - exact selecting_Ret.
  - vm_compute. reflexivity.
  - exact scanning_Ret.
  - exists names. split; [exact Hn|exact Hl].
Defined.
End ScrubExamples.
