(* ===== verification/StoreWitness.v ===== *)
(** * The properties of the store at concrete inputs

    Each property of [StoreProps] applied to the store of [StoreExamples], and the
    opening of a root. *)
From S2P Require Import Prelude Dict Bytes Json Hma Manifest Io RankStore JsonReader IoSpec FsInv TokenFiles TokenHeader TokenScrub StoreOps StoreInv StoreSystem StoreFence StoreEpochs StoreLookup StoreCommit TokenBatches StoreGc StoreProps StoreExamples TokenMover MoverExamples StoreRoot StoreRootProps.
Import StoreExamples.

Module StoreWitnesses.

Lemma published_reachable : rtc (system_step small_store) root_world (restarted world1).
Proof. exact (transitivity world1_reachable (restarted_reachable small_store world1)). Qed.

Lemma published_files_whole_witness :
  ∃ ino, NFile 4 = NFile ino ∧ complete_file small_store key1 (data_of (w_fs (restarted world1)) ino).
Proof.
  apply (published_files_whole small_store root_world (restarted world1)).
  - reflexivity.
  - exact root_unpublished.
  - exact published_reachable.
  - vm_compute. reflexivity.
Defined.

(** The key is withdrawn, then the scrubber authenticates its file, and it opens again. *)
Definition withdrawn : World := (_mark_inventory_withdrawn key1 world1).2.
Definition scrub_opened := scrub_open small_store withdrawn.
Definition scrub_started := start_cycle small_store scrub_opened.2.
Definition scrub_stepped := scrub_step small_store (λ _, false) 100 64 scrub_started.2.
Definition reopened := _open_chunk small_store false key1 scrub_stepped.2.

Lemma withdrawn_Ret : _mark_inventory_withdrawn key1 world1 = (Ret tt, withdrawn).
Proof. apply (fst_Ret (_mark_inventory_withdrawn key1 world1)). vm_compute. reflexivity. Qed.
Lemma withdrawn_closed : returns (_open_chunk small_store false key1 withdrawn) = false.
Proof. vm_compute. reflexivity. Qed.
Lemma reopened_returns : returns reopened = true.
Proof. vm_compute. reflexivity. Qed.

Lemma call_unpublished c w : ¬ publishes c key1 → unpublished_step small_store key1 w (run_store_call small_store c w).2.
Proof. intros Hc. eapply (other_call small_store key1 c (run_store_call small_store c w).1); [done|]. by destruct (run_store_call _ _ _). Qed.
Lemma discard_world {A} (m : IO A) w : (discard m w).2 = (m w).2.
Proof. unfold discard, mbind, io_bind. by destruct (m w) as [[]]. Qed.

Lemma scrubbed_unpublished : rtc (unpublished_step small_store key1) withdrawn scrub_stepped.2.
Proof.
  eapply rtc_l; [exact (call_unpublished CScrubOpen withdrawn (λ h, h))|].
  eapply rtc_l; [exact (call_unpublished CScrubStart scrub_opened.2 (λ h, h))|].
  eapply rtc_l; [exact (call_unpublished (CScrubStep (λ _, false) 100 64) (discard (start_cycle small_store) scrub_opened.2).2 (λ h, h))|].
  cbn [run_store_call]. rewrite !discard_world. apply rtc_refl.
Qed.


Lemma committed_opens_witness :
  td_span_tokens data1 = 4 ∧ ∃ ino, payload_of data1 (data_of (w_fs world1) ino) = payload 0.
Proof.
  destruct (committed_opens small_store key1 None 4 (payload 0) KData root_world world1 data1)
    as (_ & _ & Hs & _ & ino & _ & Hp).
  - reflexivity.
  - apply root_unpublished.
  - vm_compute. reflexivity.
  - left. exact run1_Ret.
  - split; [exact Hs|]. exists ino. exact Hp.
Defined.

(** The key and its boundary state are there: a verified lookup hits. *)
Definition found := lookup small_store true key1 world2.
Definition found_result : LookupResult := value_of found (Lookup false [] None None).
Lemma found_returns : returns found = true.
Proof. vm_compute. reflexivity. Qed.
Lemma found_Ret : lookup small_store true key1 world2 = (Ret found_result, found.2).
Proof. exact (value_of_Ret found _ found_returns). Qed.

Lemma lookup_hit_sound_witness :
  ∃ s, lr_manifest found_result = Some s ∧ restorable small_store (w_fs world2) key1 s ∧
    Forall (authentic small_store (w_fs world2)) (ts_objects s).
Proof.
  destruct (lookup_hit_sound small_store true key1 found_result world2 found.2) as (_ & s & Hm & Hr & _ & Ha).
  - reflexivity.
  - exact found_Ret.
  - vm_compute. reflexivity.
  - exists s. split; [exact Hm|]. split; [exact Hr|]. exact (Ha eq_refl).
Defined.

Definition checked := valid_chunk small_store key1 None 4 KData world1.
Lemma checked_value : checked.1 = Ret (Some data1).
Proof. vm_compute. reflexivity. Qed.

Lemma valid_chunk_authenticates_witness :
  td_key data1 = key1 ∧ authentic small_store (w_fs world1) data1.
Proof.
  destruct (valid_chunk_authenticates small_store key1 None 4 KData world1
    checked.2 data1) as (_ & Hk & _ & _ & _ & _ & Ha).
  - reflexivity.
  - exact (fst_Ret checked (Some data1) checked_value).
  - split; [exact Hk|exact Ha].
Defined.

(** Two reservations, the second after a power loss. *)
Definition epoch1 := reserve_inventory_generation_epoch root_world.
Definition epoch2 := reserve_inventory_generation_epoch (restarted epoch1.2).
Lemma epoch1_returns : returns epoch1 = true.
Proof. vm_compute. reflexivity. Qed.
Lemma epoch2_returns : returns epoch2 = true.
Proof. vm_compute. reflexivity. Qed.

Lemma epoch_strictly_increases_witness : value_of epoch1 0 < value_of epoch2 0.
Proof.
  apply (epoch_strictly_increases small_store root_world epoch1.2 (restarted epoch1.2) epoch2.2).
  - reflexivity.
  - exact root_prepared.
  - exact (value_of_Ret epoch1 0 epoch1_returns).
  - apply restarted_reachable.
  - exact (value_of_Ret epoch2 0 epoch2_returns).
Defined.

Lemma data1_standing : standing small_store (w_fs world1) data1.
Proof.
  destruct (committed_standing small_store key1 None 4 (payload 0) KData root_world world1 data1) as (_ & _ & Hs & _);
    [left; exact run1_Ret|exact Hs].
Qed.

Lemma data1_fuel : Z.to_nat (td_span_tokens data1 / st_chunk_tokens small_store) = 1%nat.
Proof. vm_compute. reflexivity. Qed.

Lemma chain_walk_terminates_witness :
  let fuel := Z.to_nat (td_span_tokens data1 / st_chunk_tokens small_store) in
  fuel = 1%nat ∧
  chain_walk (fuel + 5) small_store data1 None [] world1 = chain_walk fuel small_store data1 None [] world1.
Proof.
  exact (conj data1_fuel (chain_walk_terminates small_store data1 [] 5 world1 eq_refl data1_standing)).
Defined.

Definition sized (n : Z) : TokenFileDescriptor := Descriptor [] None 0 [] n [] 0 [] KData [].
Lemma restore_batches_partition_witness :
  concat (transferred <$> [Batch [sized 3; sized 4]; Large (sized 9); Batch [sized 5]])
  = [sized 3; sized 4; sized 9; sized 5].
Proof.
  apply (restore_batches_partition 8 [sized 3; sized 4; sized 9; sized 5]).
  apply (bool_decide_eq_true_1 _). vm_compute. reflexivity.
Defined.

(** An abandoned temporary. *)
Definition crashed : World := (commit_chunk small_store key1 None 4 (payload 0) KData (world root_fs (replicate 10 FOk ++ [FKill]))).2.
Definition recovered := recover (restarted crashed).
Lemma recovered_value : recovered.1 = Ret 1.
Proof. vm_compute. reflexivity. Qed.

Lemma recovery_complete_witness :
  own_parts (w_fs (restarted crashed)) ≠ [] ∧ own_parts (w_fs recovered.2) = [].
Proof.
  split; [vm_compute; discriminate|].
  apply (recovery_complete 1 0 (restarted crashed) recovered.2). exact (fst_Ret recovered 1 recovered_value).
Defined.

(** A restore of another process holds the key. *)
Definition key1_offset : Z := Eval vm_compute in match lease_offset key1 with Ok n => n | _ => 0 end.
Definition held_pins : gmap nat (list Z) := {[7%nat := [key1_offset]]}.
Abbreviation held_world := (on_pins (λ _, held_pins) world1).
Lemma world1_wf : fs_wf (w_fs world1).
Proof. exact (pr_wf _ (prepared_reachable small_store eq_refl root_world world1 world1_reachable root_prepared)). Qed.
Lemma held_wf (w : World) : fs_wf (w_fs w) → fs_wf (w_fs (on_pins (λ _, held_pins) w)).
Proof. intros Hw. exact Hw. Qed.
Lemma held_offset : lease_offset key1 = Ok key1_offset.
Proof. vm_compute. reflexivity. Qed.
Lemma held_pinned (w : World) : pinned key1 (on_pins (λ _, held_pins) w).
Proof.
  exists key1_offset, 7%nat, [key1_offset].
  split; [exact held_offset|]. split; [vm_compute; reflexivity|apply list_elem_of_here].
Qed.

Lemma pinned_key_stays_witness : (evict small_store key1 held_world).1 ≠ Ret true.
Proof.
  exact (proj2 (proj1 (pinned_key_stays small_store key1 held_world (held_wf world1 world1_wf) (held_pinned world1))
    _ _ (surjective_pairing (evict small_store key1 held_world)))).
Defined.

Definition maintained : outcome (option CapacityBatchReport) * World := maintain_capacity_batch small_store (VInt 100) (VInt 0) world2.
Definition no_report : CapacityBatchReport := CapacityReport 0 0 0 0 0 0 0.
Definition maintained_report : CapacityBatchReport :=
  match maintained.1 with Ret (Some r) => r | _ => no_report end.
Lemma maintained_value : maintained.1 = Ret (Some maintained_report).
Proof. vm_compute. reflexivity. Qed.
Lemma maintenance_batch_bounds_witness :
  manifests_removed maintained_report ≤ candidates_attempted maintained_report ≤ 4.
Proof.
  destruct (maintenance_batch_bounds small_store 100 0 world2 maintained.2 maintained_report)
    as (_ & _ & [_ Hr] & Ha & _).
  - exact (fst_Ret maintained _ maintained_value).
  - split; [exact Hr|exact Ha].
Defined.

Lemma lease_offset_range_witness : key1_offset + 1 < 2 ^ 63 ∧ Z.even key1_offset = true.
Proof.
  destruct (lease_offset_range key1 key1_offset) as (_ & Hm & He); [vm_compute; reflexivity|].
  split; [exact Hm|exact He].
Defined.
End StoreWitnesses.

(** ** A root, opened twice *)
Module RootExamples.
Import MoverExamples.

Definition layout_id : pystr := ok_value (layout_digest wide_layout) [].
Definition identity (rank : Z) : Expected :=
  {| expected_deployment_digest := VStr key1; expected_rank_digest := VStr key2; expected_rank := VInt rank;
     expected_topology_digest := VStr key1; expected_profile := VStr VLLM_RUNTIME_KV_PROFILE;
     expected_layout_digest := VStr layout_id |}.

Definition empty_root (faults : list fault) : World := world (Fs ∅ ∅ ∅ 0) faults.
Definition open_at (rank : Z) (w : World) := open_store 0 wide_layout 4096 1 (identity rank) w.

Definition first_open := open_at 0 (empty_root []).
Definition second_open := open_at 0 (restarted first_open.2).
Definition other_open := open_at 1 (restarted first_open.2).
Definition no_store : TokenFileStore := TokenStore 0 wide_layout 0 JNull 0 (Hooks false false).

Lemma first_returns : returns first_open = true.
Proof. vm_compute. reflexivity. Qed.
Lemma second_returns : returns second_open = true.
Proof. vm_compute. reflexivity. Qed.
Example other_refused : match other_open.1 with Exc e => exn_message e | _ => ""%string end = "token file root identity differs"%string.
Proof. vm_compute. reflexivity. Qed.

Lemma empty_openable faults : openable (w_fs (empty_root faults)).
Proof.
  assert (∀ p, possible (w_fs (empty_root faults)) p = [None]) as Hp.
  { intros p. unfold possible, hist_of. cbn. by rewrite !lookup_empty. }
  assert (fs_wf (w_fs (empty_root faults))) as Hw.
  { split; [by intros ino [i Hi]|]. intros p ino. rewrite Hp. by intros [=]%list_elem_of_singleton. }
  split; split; [done| |done|].
  - intros key. left. by apply lasting_one.
  - intros p v _ Hv. cbn in Hv. rewrite Hp in Hv. by apply list_elem_of_singleton in Hv as ->.
Qed.

Lemma root_binding_is_permanent_witness :
  prepared (w_fs second_open.2) ∧ st_binding (value_of second_open no_store) = st_binding (value_of first_open no_store).
Proof.
  apply (root_binding_is_permanent 0 0 wide_layout wide_layout 4096 1 4096 1 (identity 0) (identity 0)
           (value_of first_open no_store) (value_of second_open no_store)
           (empty_root []) first_open.2 (restarted first_open.2) second_open.2).
  - apply empty_openable.
  - exact (value_of_Ret first_open no_store first_returns).
  - apply rtc_once. apply (root_call small_store); [reflexivity|]. apply step_power_loss, after_loss_ok.
  - exact (value_of_Ret second_open no_store second_returns).
Defined.

(** The machine stops after the temporary file of the root marker was created: the next
    open finds a directory that is not empty and has no marker, and refuses it. *)
Definition died : World := (open_at 0 (empty_root (replicate 6 FOk ++ [FKill]))).2.
Definition abandoned_open := open_at 0 (restarted died).
Lemma abandoned_root_refused :
  match abandoned_open.1 with Exc e => exn_message e | _ => ""%string end
  = "refusing to adopt a non-empty unowned cache root"%string.
Proof. vm_compute. reflexivity. Qed.
End RootExamples.
